(* ===== verification/_CoqProject ===== *)
-Q . S2P
Prelude.v
ExitCodes.v
PyStr.v
PyPath.v
PyCodec.v
PyUrl.v
PyDict.v
Mask.v
GoUrl.v
PyFloat.v
GoFloat.v
GoJson.v
JsonLoads.v
JsonRoundtrip.v
Schema.v
DbChange.v
Interfaces.v
Files.v
SchemaValidator.v
Logger.v
Http.v
Api.v
DriverConfig.v
Config.v
Streaming.v
Credentials.v
ConsumerConfig.v
BatchProcessor.v
ConsumerSafety.v
Durable.v
Bufferer.v
Consumer.v
FetchLoop.v
Batcher.v
FileDriver.v
S3.v
Worker.v
Supervisor.v
Notifications.v
Kafka.v
EventHub.v
Optimize.v
SqlUtil.v
SqlLex.v
SqlBase.v
PgSql.v
ConsumerSql.v
ConsumerStream.v
RfcTime.v
MySqlSql.v
SqlServerSql.v
Tracker.v
RegistryApi.v
Snowflake.v
SqlAdapters.v
StoredSql.v
SqlConnect.v
CrdbFile.v
ImportClient.v
Machine.v
Session.v
ExportApi.v
Upgrade.v
TableExport.v
Recovery.v
Importer.v
ImportCommand.v
ImportSql.v
