(* ===== verification/Prelude.v ===== *)
(** * A verification development of eds-python

    The program streams change events of a database into a destination.  A
    message broker (NATS JetStream) delivers messages; the consumer parses each
    into a change event, batches the events into a driver, flushes the driver,
    and only then acknowledges the messages.  A second path imports a snapshot:
    a service exports tables to files, which are downloaded and replayed into
    the same drivers.  Around both stand a schema registry, a key/value store,
    URL handling, and encoders that reproduce the output of the Go
    implementation the program was ported from byte for byte.

    ** How the code is modelled

    Strings are lists of code points, bytes lists of integers in [0, 256), dicts
    association lists in insertion order, because their order is observable.
    Methods of an object are programs of the monad [M S E] of this file over the
    attributes of the object: they return or raise, and the attributes keep
    their state either way, as in Python.  Pure functions that raise return an
    option or a sum.  An effect that the outside sees (an acknowledgement, a
    call of the driver, an executed batch, a completion marker) is recorded in a
    trace or handed to an interface, so that orders can be stated.  Properties
    of programs in [M] are triples: a precondition on the state, and
    postconditions for the value and for the exception.

    ** Files and sources

    - [Prelude], [PyStr], [PyPath], [PyCodec], [PyUrl], [PyDict], [PyFloat],
      [JsonLoads]: what the sources use of the language and its standard library
      ([str], [os.path], [base64] and UTF-8, [urllib.parse], [dict], [float] and
      its [repr], [json.loads]).
    - [GoFloat], [GoJson], [JsonRoundtrip]: util/gofloat.py, util/gojson.py,
      util/gostruct.py.  [GoUrl]: util/gourl.py.
    - [Schema], [DbChange]: schema.py, dbchange.py, the data of the stream.
    - [Interfaces]: the classes [Driver], [Registry], [Validator] the consumer is
      verified against, and [DurableDriver], what a destination promises.
    - [DriverConfig]: driver.py, forms, URLs built from forms, the registries.
    - [ConsumerConfig], [BatchProcessor], [Bufferer]: consumer/config.py,
      batch_processor.py and bufferer.py.  [ConsumerSafety] has the properties of
      every run of the processor, [Durable] what an acknowledgement means for
      the destination.
    - [Credentials], [Consumer], [Worker]: consumer/credentials.py with
      util/api.py, consumer/consumer.py with connection.py, and the process
      around them, cmd/fork.py.  [FetchLoop]: the fetch loop of consumer.py, its
      queue, and the drain loop of [Bufferer] on the other side of it.
    - [Supervisor], [Notifications]: cmd/server.py, the wrapper process that
      restarts a child and the control plane that runs the worker session by
      session; cmd/notification_wiring.py with notification/, the remote
      commands.
    - [Config], [Mask]: cmd/config.py with cmd/args.py, what the configuration
      file keeps and which flags reach the children; util/mask.py.
    - [Kafka], [EventHub], [S3], [FileDriver], with [Streaming], what they share:
      drivers/kafka, drivers/eventhub, drivers/s3 and drivers/file, each over an
      interface of its client; [ConsumerStream]: the consumer over each.
    - [ExitCodes]: cmd/exit_codes.py.
    - [Http], [Api], [Session]: util/http.py, api/, cmd/session.py with
      cmd/enroll.py and util/compress.py: the retrying client, the texts of the
      service, the calls of a session.  [Files] is the file system as they use
      it, [Machine] a concrete network and disk.
    - [Upgrade]: upgrade/ and cmd/download.py, over [Session]'s client.
    - [SchemaValidator]: util/schema.py.
    - [Batcher], [Optimize]: util/batcher.py, util/hash.py, util/optimize.py.
    - [SqlBase], with [SqlUtil]: drivers/sql_base.py and util/sql.py over a
      dialect ([SqlDialect]) and a database ([SqlDb]); [PgSql], [MySqlSql],
      [SqlServerSql] with [RfcTime]: the SQL of the three dialects; [SqlLex]: how
      a database reads it back.  [ConsumerSql]: the consumer over a SQL driver.
    - [SqlAdapters]: util/db.py and the data_db.py of PostgreSQL, MySQL, SQL
      Server and Snowflake over an interface of a database connection ([DbApi]),
      and the class [DurableDb] of what they promise [SqlBase]; [StoredSql]: the
      consumer over a SQL driver over such a database.  [SqlConnect]: connection
      strings and arguments, the key-pair form of Snowflake, and start, stop and
      test of sql_base.py.
    - [Logger]: util/logger.py, the lines and the rotating file.
    - [Snowflake]: drivers/snowflake/sql.py and snowflake.py, over [Batcher],
      [Optimize] and the tracker.
    - [Tracker], [RegistryApi]: tracker/, util/cache.py, registry/.
    - [CrdbFile], [ImportClient], [ExportApi], [TableExport]: util/crdb.py and
      cmd/import_client.py, the poll of a job, its requests and downloads, and
      the record of its times.  [Importer]: importer/ with util/file.py and
      util/json.py.  [Recovery], [ImportCommand], [ImportSql]: cmd/import_cmd.py,
      the recovery, the command around it, the import into a SQL database.

    A driver call of [BatchProcessor] is a method of the class [Driver];
    [SqlBase] and the other destinations are its instances.  [Consumer] sets up
    the processor that [BatchProcessor] runs, [Worker] creates, pauses and stops
    the consumer; an execution of the worker is a list of wakes, each with what
    the tasks of the consumer did since the last.  [Supervisor] starts the worker
    and reads its exit code; an execution of the wrapper is a list of acts (of
    the child, of a signal, of the clock), one of the control plane a list of
    sessions.  [Notifications] is what a remote command does to that state; its
    jobs run one after the other.  The replay calls an
    [ImportEnv], the recovery the [ImportStages]; [ImportSql] puts the SQL driver
    below both, and [ImportCommand] gives the recovery the stages of the command:
    its state [Cmd] has the world, the tracker, the configuration file and a
    trace of what the run made, removed and imported, and its recovery runs in a
    world that writes every call of a stage down.

    ** What the theorems show

    - Delivery: a message is acknowledged only after a flush that followed its
      processing, an acknowledged message is skipped or stored, a failing batch
      is refused as a whole, messages are processed in sequence and none is lost:
      it is pending, its ack was taken, or it was skipped and its own ack failed
      ([ConsumerSafety], [Durable], [Bufferer], [ConsumerSql]); what is fetched is
      taken in the order of the stream, nothing is dropped by a pause while the
      broker keeps to its limit, and a graceful stop ends with the ack of every
      fetched message taken, but for those skipped ones, unless a step fails
      ([FetchLoop]); every processed
      statement is executed once and in order ([SqlBase]); the transaction of a
      flush is all or nothing whatever call of the client fails and is never left
      open, and every
      message acknowledged as stored has its statement in the log of the
      database ([SqlAdapters], [StoredSql]).  Over Kafka, S3 and
      the Event Hub it was acknowledged, uploaded or sent ([ConsumerStream]); a
      Kafka flush ends, its messages stay on their partition, and the order of
      the upload workers does not show ([Kafka], [S3], [EventHub]).
    - Lifecycle: a first durable starts at or before every cutoff of the import,
      the reconciliation carries out the planned migrations ([Consumer]); the
      exit code of the worker is that of the wake that ended it, and it shuts
      its parts down in order, those after the driver only if the driver's stop
      returns ([Worker]); a credentials file is read back
      ([Credentials]).  The wrapper has at most one child unless a report comes
      after its deadline, and stops after its failures ([wrapper_children],
      [wrapper_attempts]); the control plane closes with the service exactly the
      sessions whose worker ended with a code to close, each before its next
      turn, and ends with the code its last worker gave ([Supervisor]); a remote
      request gets one reply, unless its text cannot be encoded or the server
      exits with --no-restart, and a worker paused for an import is restarted
      unless the import was refused ([Notifications]).
    - Service: a request ends, after one attempt for every time the service turns
      it away and 301 for broken connections ([Http]); the API key is sent below
      the service's address only, the logs of a session are uploaded compressed
      and nothing else is touched, an enrolment leaves the token the next start
      reads ([Session]); a download that returns has every file, whatever the
      order of its workers ([ExportApi]).
    - Upgrade: the program is replaced by the content of a verified archive only,
      and a failing swap leaves the old one ([Upgrade]).
    - Schemas: a directory that loads has no dangling reference among those that
      resolve alike from every document, and a path is
      rendered piece by piece ([SchemaValidator]).
    - Settings: what is written to the configuration file is read from it, an
      ingest mode given once persists, the flags handed to a child are those the
      table names ([Config]); the masked form of a URL does not depend on the
      second half of its password ([Mask]); a form's URL reaches the database
      client as the values of the form, and no connection is left open
      ([SqlConnect]); a log file holds the lines written while it was open
      ([Logger]).
    - Import: the run does exactly the operations of a plan computed from the
      files; a marker follows the flush of its table; a table is reported as
      imported only if it was; every run ends after a bounded number of
      attempts ([Importer], [ImportSql], [Recovery]).  A command that succeeds
      imported all it was asked for, one that fails keeps the markers of the
      tables it completed, it removes only directories it made, and the cutoffs
      it records are the export times of what it imported ([ImportCommand]),
      which the worker reads back ([TableExport]).
    - Text: the encoders and the decoder agree, events, schemas and URLs read
      back, float formats print exactly the number, and the SQL of every dialect
      is read back by a lexer of that dialect as the values it was made from
      ([JsonRoundtrip], [Schema], [DbChange], [GoUrl], [GoFloat], [PgSql],
      [MySqlSql], [SqlServerSql], [Snowflake]).
    - Data: combining records keeps their effect when table and id tell the rows
      apart without a separator ([Optimize]); a Snowflake flush executes the
      statements of its sorted batch and keeps the tracker's keys ([Snowflake]); the stores return
      what was set, schemas and versions stay readable ([Tracker],
      [RegistryApi]); a scheme resolves to the driver last registered for it
      ([DriverConfig]).
    - Where the code does not do what it means to, a lemma shows the behaviour
      on a concrete input (injections through unescaped identifiers and ids, a
      key collision, errors that escape).

    ** Fuel

    [json_loads] gets twice the length of the text plus two, more than the
    nesting and the list steps of any text; [lex_list] and [ansi_strip] the length
    of the text, of which every step consumes a character; [query_loop] the
    length of the query; the recovery loop one attempt more than the retry
    limit, which [recovery_terminates] shows is enough; the replay of a file one
    step more than its lines; the polling loop the number of requests the
    service answers; a Kafka flush looks at the clock eleven times, one more than
    ten pauses of a second take, which [kafka_flush_terminates] shows is enough;
    an object key is squeezed at most as often as it is long; a request has its
    patience, the number of its attempts, which [http_do_ends] shows is enough
    from 301 on with what the service turns away added; the search for references
    one step for each reference of the documents ([loaded_schemas_resolve]); the upload pool
    runs one step for each job.  The drain loop and the worker's loop run over a list of
    rounds, or of wakes, and have no other bound.

    ** Parameters

    Code outside the repository is an argument: the database connections
    ([DbApi], [Connector]), the
    clients of Kafka, the Event Hub, S3 and JetStream, the file system, the TOML
    reader, the export service, the importer and the terminal of the command
    ([ExportService], [ImportHost]), the host object of the remote closures, the answers of a session, the
    broker's deliveries as a list of messages, the HTTP request of the registry,
    the packages that check JSON schemas and resolve references, the signature
    check, the archive readers and gzip, the transport and the facts of the
    machine ([HttpHost], [SessionHost]), the hash of a file name's order, [repr] of foreign
    objects and the texts of foreign exceptions, and the clocks.  What a theorem
    needs of them is a hypothesis that a witness meets with a concrete function.

    ** Not modelled

    Which log lines the other components write, metrics and timing statistics; threads, which the sources join
    before they read what a thread wrote (the upload pool of S3 and the downloads
    are modelled with the order of their workers as an argument); sockets and processes:
    heartbeats, packaging, the parser of the command line and its prompts; a signal is an act of the wrapper or a wake of the worker.
    [strftime], [strptime] and [datetime] are modelled as far as the
    sources call them. *)
From stdpp Require Import base tactics list option numbers sets sorting strings.
From Stdlib Require Import Permutation.

#[global] Open Scope Z_scope.

(** ** Automation shared by every file *)

(** Facts about the operations of the components, used by [eauto with eds]. *)
Create HintDb eds.

(** Split the boolean connectives of a hypothesis or of the goal into
    propositions and hand the arithmetic to [lia]. *)
Ltac bool_prop :=
  repeat match goal with
  | H : (_ && _)%bool = true |- _ => apply andb_true_iff in H; destruct H
  | H : (_ || _)%bool = false |- _ => apply orb_false_iff in H; destruct H
  | H : negb _ = true |- _ => apply negb_true_iff in H
  | H : negb _ = false |- _ => apply negb_false_iff in H
  | H : (_ <? _) = true |- _ => apply Z.ltb_lt in H
  | H : (_ <? _) = false |- _ => apply Z.ltb_ge in H
  | H : (_ <=? _) = true |- _ => apply Z.leb_le in H
  | H : (_ <=? _) = false |- _ => apply Z.leb_gt in H
  | H : (_ =? _) = true |- _ => apply Z.eqb_eq in H
  | H : (_ =? _) = false |- _ => apply Z.eqb_neq in H
  | H : bool_decide _ = true |- _ => apply bool_decide_eq_true in H
  | H : bool_decide _ = false |- _ => apply bool_decide_eq_false in H
  end.

(** Case analysis on the scrutinee of the outermost [match] or [if]. *)
Ltac case_scrut :=
  match goal with
  | |- context [match ?x with _ => _ end] => destruct x eqn:?
  | H : context [match ?x with _ => _ end] |- _ => destruct x eqn:?
  end.

(** ** Computations with state and exceptions

    A Python method that reads and writes [self] and may raise is a function of
    this type: the state survives a raised exception, as object attributes do. *)
Definition M (S E A : Type) : Type := S -> (E + A) * S.

#[global] Instance M_ret {S E} : MRet (M S E) := fun A a s => (inr a, s).
#[global] Instance M_bind {S E} : MBind (M S E) :=
  fun A B f m s =>
    match m s with
    | (inl e, s') => (inl e, s')
    | (inr a, s') => f a s'
    end.

Definition raise {S E A} (e : E) : M S E A := fun s => (inl e, s).
Definition gets {S E A} (f : S -> A) : M S E A := fun s => (inr (f s), s).
Definition modify {S E} (f : S -> S) : M S E unit := fun s => (inr tt, f s).

(** [try: m except e: h e] *)
Definition catch {S E E' A} (m : M S E A) (h : E -> M S E' A) : M S E' A :=
  fun s =>
    match m s with
    | (inl e, s') => h e s'
    | (inr a, s') => (inr a, s')
    end.

(** [for x in l: f x] *)
Fixpoint for_each {S E A} (f : A -> M S E unit) (l : list A) : M S E unit :=
  match l with
  | [] => mret tt
  | x :: l' => _ ← f x; for_each f l'
  end.

Lemma bind_inr {S E A B} (m : M S E A) (f : A -> M S E B) s a s' :
  m s = (inr a, s') -> (m ≫= f) s = f a s'.
Proof. intros H. unfold mbind, M_bind. by rewrite H. Qed.

(** what a sequence that returns went through *)
Lemma bind_split {S E A B} (m : M S E A) (f : A -> M S E B) s b s' : (m ≫= f) s = (inr b, s') ->
  exists a s1, m s = (inr a, s1) /\ f a s1 = (inr b, s').
Proof. unfold mbind, M_bind. destruct (m s) as [[e|a] s1]; [done|]. by exists a, s1. Qed.

Lemma bind_inl {S E A B} (m : M S E A) (f : A -> M S E B) s e s' :
  m s = (inl e, s') -> (m ≫= f) s = (inl e, s').
Proof. intros H. unfold mbind, M_bind. by rewrite H. Qed.

(** An invariant of the state that a computation keeps whether it returns or
    raises, with a postcondition for each of the two outcomes. *)
Definition triple {S E A} (P : S -> Prop) (m : M S E A)
    (Q : A -> S -> Prop) (X : E -> S -> Prop) : Prop :=
  forall s, P s ->
    match m s with
    | (inr a, s') => Q a s'
    | (inl e, s') => X e s'
    end.

Lemma triple_bind {S E A B} P (m : M S E A) (f : A -> M S E B) R Q X :
  triple P m R X -> (forall a, triple (R a) (f a) Q X) -> triple P (m ≫= f) Q X.
Proof.
  intros Hm Hf s Hs. unfold mbind, M_bind. specialize (Hm s Hs).
  destruct (m s) as [[e|a] s']; [done|]. by apply Hf.
Qed.

Lemma triple_pre {S E A} (P P' : S -> Prop) (m : M S E A) Q X :
  triple P' m Q X -> (forall s, P s -> P' s) -> triple P m Q X.
Proof. intros Hm H s Hs. by apply Hm, H. Qed.

Lemma triple_post {S E A} (P : S -> Prop) (m : M S E A) Q Q' (X X' : E -> S -> Prop) :
  triple P m Q' X' -> (forall a s, Q' a s -> Q a s) -> (forall e s, X' e s -> X e s) -> triple P m Q X.
Proof. intros Hm HQ HX s Hs. specialize (Hm s Hs). destruct (m s) as [[e|a] s']; auto. Qed.

Lemma triple_conj {S E A} (P P' : S -> Prop) (m : M S E A) Q Q' (X X' : E -> S -> Prop) :
  triple P m Q X -> triple P' m Q' X' ->
  triple (fun s => P s /\ P' s) m (fun a s => Q a s /\ Q' a s) (fun e s => X e s /\ X' e s).
Proof. intros H H' s [Hs Hs']. specialize (H s Hs). specialize (H' s Hs'). destruct (m s) as [[e|a] s']; auto. Qed.

Lemma triple_pure {S E A} (P : S -> Prop) (G : Prop) (m : M S E A) Q X :
  (G -> triple P m Q X) -> triple (fun s => P s /\ G) m Q X.
Proof. intros H s [Hs G0]. by apply H. Qed.

Lemma triple_ret {S E A} (P : S -> Prop) (a : A) (Q : A -> S -> Prop) (X : E -> S -> Prop) :
  (forall s, P s -> Q a s) -> triple P (mret a) Q X.
Proof. intros H s Hs. by apply H. Qed.

Lemma triple_raise {S E A} (P : S -> Prop) (e : E) (Q : A -> S -> Prop) (X : E -> S -> Prop) :
  (forall s, P s -> X e s) -> triple P (raise e) Q X.
Proof. intros H s Hs. by apply H. Qed.

Lemma triple_modify {S E} (P : S -> Prop) (f : S -> S) (Q : unit -> S -> Prop) (X : E -> S -> Prop) :
  (forall s, P s -> Q tt (f s)) -> triple P (modify f) Q X.
Proof. intros H s Hs. by apply H. Qed.

Lemma triple_gets_bind {S E A B} (P : S -> Prop) (f : S -> A) (k : A -> M S E B) Q X :
  (forall a, triple (fun s => P s /\ f s = a) (k a) Q X) -> triple P (gets f ≫= k) Q X.
Proof. intros H s Hs. by apply (H (f s) s). Qed.

Lemma triple_catch {S E E' A} (P : S -> Prop) (m : M S E A) (h : E -> M S E' A) R Q X :
  triple P m Q R -> (forall e, triple (R e) (h e) Q X) -> triple P (catch m h) Q X.
Proof.
  intros Hm Hh s Hs. unfold catch. specialize (Hm s Hs). destruct (m s) as [[e|a] s']; [by apply Hh|done].
Qed.

Lemma triple_for_each {S E A} (I : S -> Prop) (f : A -> M S E unit) l X :
  (forall a, triple I (f a) (fun _ => I) X) ->
  triple I (for_each f l) (fun _ => I) X.
Proof.
  intros Hf. induction l as [|a l IH]; simpl.
  - intros s Hs. done.
  - apply (triple_bind _ _ _ (fun _ => I)); auto.
Qed.

Lemma triple_for_each_elem {S E A} (I : S -> Prop) (f : A -> M S E unit) l X :
  (forall a, a ∈ l -> triple I (f a) (fun _ => I) X) ->
  triple I (for_each f l) (fun _ => I) X.
Proof.
  intros Hf. induction l as [|a l IH]; simpl.
  - intros s Hs. done.
  - apply (triple_bind _ _ _ (fun _ => I)); [apply Hf; by left|].
    intros _. apply IH. intros b Hb. apply Hf. by right.
Qed.

(** a computation that keeps a property of the state however it ends *)
Definition stays {S E A} (I : S -> Prop) (m : M S E A) : Prop := triple I m (fun _ => I) (fun _ => I).

Lemma stays_bind {S E A B} (I : S -> Prop) (m : M S E A) (f : A -> M S E B) :
  stays I m -> (forall a, stays I (f a)) -> stays I (m ≫= f).
Proof. intros Hm Hf. by apply (triple_bind _ _ _ (fun _ => I)). Qed.

Lemma stays_catch {S E E' A} (I : S -> Prop) (m : M S E A) (h : E -> M S E' A) :
  stays I m -> (forall e, stays I (h e)) -> stays I (catch m h).
Proof. intros Hm Hh. by apply (triple_catch _ _ _ (fun _ => I)). Qed.

Lemma stays_modify {S E} (I : S -> Prop) (f : S -> S) : (forall s, I s -> I (f s)) -> stays I (modify f : M S E unit).
Proof. intros Hf s Hs. by apply Hf. Qed.

Lemma stays_gets {S E A} (I : S -> Prop) (f : S -> A) : stays I (gets f : M S E A).
Proof. by intros s. Qed.

Lemma stays_ret {S E A} (I : S -> Prop) (a : A) : stays I (mret a : M S E A).
Proof. by intros s. Qed.

Lemma stays_raise {S E A} (I : S -> Prop) (e : E) : stays I (raise e : M S E A).
Proof. by intros s. Qed.

Lemma stays_for_each {S E A} (I : S -> Prop) (f : A -> M S E unit) l : (forall a, stays I (f a)) -> stays I (for_each f l).
Proof. intros Hf. by apply triple_for_each. Qed.

(** [try: m except Exception as e: ...] *)
Definition attempt {S E A} (m : M S E A) : M S E (E + A) :=
  fun s => let '(r, s') := m s in (inr r, s').

Lemma attempt_eq {S E A} (m : M S E A) s : attempt m s = (inr (m s).1, (m s).2).
Proof. unfold attempt. by destruct (m s). Qed.

Lemma stays_attempt {S E A} (I : S -> Prop) (m : M S E A) : stays I m -> stays I (attempt m).
Proof. intros Hm s Hs. rewrite attempt_eq. specialize (Hm s Hs). by destruct (m s) as [[]]. Qed.

Lemma stays_run {S E A} (I : S -> Prop) (m : M S E A) s r s' : stays I m -> m s = (r, s') -> I s -> I s'.
Proof. intros Hm E0 Hs. specialize (Hm s Hs). rewrite E0 in Hm. by destruct r. Qed.

(** goes through a program, with [tac] for its steps *)
Ltac stays_with tac :=
  repeat first
    [ apply stays_ret | apply stays_raise | apply stays_gets | tac
    | apply stays_bind; [|intros ?] | apply stays_catch; [|intros ?] | case_match ].

(** ** Stable insertion sort

    The model of Python's [sorted] / [list.sort]: the order of elements that
    compare equal is kept. *)
Section sort.
Context {A : Type} (le : A -> A -> bool).

Fixpoint insert_sorted (x : A) (l : list A) : list A :=
  match l with
  | [] => [x]
  | y :: l' => if le x y then x :: y :: l' else y :: insert_sorted x l'
  end.

Fixpoint py_sorted (l : list A) : list A :=
  match l with
  | [] => []
  | x :: l' => insert_sorted x (py_sorted l')
  end.

Lemma insert_sorted_perm x l : insert_sorted x l ≡ₚ x :: l.
Proof.
  induction l as [|y l IH]; simpl; [done|].
  destruct (le x y); [done|]. rewrite IH. apply Permutation_swap.
Qed.

Lemma py_sorted_perm l : py_sorted l ≡ₚ l.
Proof. induction l as [|x l IH]; simpl; [done|]. by rewrite insert_sorted_perm, IH. Qed.

Lemma py_sorted_elem x l : x ∈ py_sorted l <-> x ∈ l.
Proof. by rewrite py_sorted_perm. Qed.

Lemma py_sorted_NoDup l : NoDup (py_sorted l) <-> NoDup l.
Proof. by rewrite py_sorted_perm. Qed.

Lemma py_sorted_length l : length (py_sorted l) = length l.
Proof. by rewrite py_sorted_perm. Qed.

Definition le_rel (x y : A) : Prop := le x y = true.

Hypothesis le_total : forall x y, le x y = true \/ le y x = true.

Lemma insert_sorted_Sorted x l :
  Sorted le_rel l -> Sorted le_rel (insert_sorted x l).
Proof.
  induction 1 as [|y l Hl IH Hhd]; simpl; [auto|].
  destruct (le x y) eqn:E; [auto|].
  constructor; [done|]. destruct l as [|z l]; simpl in *.
  - constructor. unfold le_rel. destruct (le_total x y); congruence.
  - destruct (le x z); constructor; unfold le_rel in *.
    + destruct (le_total x y); congruence.
    + by inversion Hhd.
Qed.

Lemma py_sorted_Sorted l : Sorted le_rel (py_sorted l).
Proof. induction l; simpl; auto using insert_sorted_Sorted. Qed.

Hypothesis le_trans : forall x y z, le x y = true -> le y z = true -> le x z = true.

Lemma py_sorted_StronglySorted l : StronglySorted le_rel (py_sorted l).
Proof.
  apply Sorted_StronglySorted; [|apply py_sorted_Sorted].
  intros x y z; apply le_trans.
Qed.

(** Stability: the elements of one equivalence class keep their order. *)
Lemma insert_sorted_filter (P : A -> bool) x l :
  (forall y, P x = true -> P y = true -> le x y = true) ->
  filter (fun y => P y = true) (insert_sorted x l) =
  filter (fun y => P y = true) (x :: l).
Proof.
  intros HP. induction l as [|y l IH]; [done|]. simpl insert_sorted.
  destruct (le x y) eqn:E; [done|].
  rewrite filter_cons, IH, !filter_cons.
  repeat case_decide; try done.
  rewrite (HP y) in E; naive_solver.
Qed.

Lemma py_sorted_stable (P : A -> bool) l :
  (forall x y, P x = true -> P y = true -> le x y = true) ->
  filter (fun y => P y = true) (py_sorted l) = filter (fun y => P y = true) l.
Proof.
  intros HP. induction l as [|x l IH]; [done|]. simpl.
  rewrite insert_sorted_filter by auto.
  rewrite !filter_cons, IH. done.
Qed.
End sort.

(** Sorting a list that is sorted already changes nothing. *)
Lemma py_sorted_id {A} (le : A -> A -> bool) l :
  Sorted (le_rel le) l -> py_sorted le l = l.
Proof.
  induction 1 as [|x l Hl IH Hhd]; simpl; [done|]. rewrite IH.
  destruct Hhd as [|y l Hxy]; simpl; [done|]. unfold le_rel in Hxy. by rewrite Hxy.
Qed.

(** ** Boolean predicates on lists *)

Lemma forallb_mono {A} (P Q : A -> bool) l :
  (forall x, P x = true -> Q x = true) -> forallb P l = true -> forallb Q l = true.
Proof. intros H. rewrite !forallb_forall. auto. Qed.

Lemma forallb_Forall {A} (P : A -> bool) l : forallb P l = true <-> Forall (fun x => P x = true) l.
Proof. rewrite forallb_forall, List.Forall_forall. done. Qed.

Lemma filter_all {A} (P : A -> Prop) `{!forall x, Decision (P x)} l : Forall P l -> filter P l = l.
Proof. induction 1 as [|x l Hx Hl IH]; [done|]. by rewrite filter_cons_True, IH. Qed.
