(* ===== verification/ExitCodes.v ===== *)
(** * Exit codes: eds/cmd/exit_codes.py

    The codes a worker, a control plane and an import end with, and their parents
    decide by. *)
From stdpp Require Import base numbers.

Definition EXIT_SUCCESS : Z := 0.
Definition EXIT_ERROR : Z := 1.
Definition EXIT_PANIC : Z := 2.
Definition EXIT_INCORRECT_USAGE : Z := 3.
Definition EXIT_RESTART : Z := 4.
Definition EXIT_NATS_DISCONNECTED : Z := 5.
