(* ===== verification/PyStr.v ===== *)
(** * Python strings

    A Python [str] is a list of code points (a [Z] each), [bytes] a list of
    [Z] in [0, 256).  The operations are the ones the sources use: comparison
    and sorting by code point, [join], [startswith], [find] / [partition] on a
    character, [replace], decimal and hexadecimal printing, and the UTF-8
    codec. *)
From stdpp Require Import base tactics list option numbers sets sorting strings.
From S2P Require Import Prelude.

(** The type of Python strings: a notation, so that every list lemma applies. *)
Abbreviation pystr := (list Z).

(** [u "..."] is an ASCII Python literal. *)
Fixpoint u (s : string) : pystr :=
  match s with
  | EmptyString => []
  | String a s' => Z.of_nat (Ascii.nat_of_ascii a) :: u s'
  end.
Arguments u _%_string_scope : simpl never.

Definition nl : pystr := [10].
Definition tab : pystr := [9].
(** the double quote, the single quote and the backslash *)
Definition dq : pystr := [34].
Definition sq : pystr := [39].
Definition bsl : pystr := [92].

Definition str_eqb (a b : pystr) : bool := bool_decide (a = b).
Definition str_in (a : pystr) (l : list pystr) : bool := bool_decide (a ∈ l).
Definition char_in (c : Z) (s : pystr) : bool := bool_decide (c ∈ s).

(** ** Ordering *)

(** Python compares strings by code point, lexicographically. *)
Fixpoint str_leb (a b : pystr) : bool :=
  match a, b with
  | [], _ => true
  | _ :: _, [] => false
  | x :: a', y :: b' => if x =? y then str_leb a' b' else x <? y
  end.

Definition str_ltb (a b : pystr) : bool := negb (str_leb b a).

Lemma str_leb_refl a : str_leb a a = true.
Proof. induction a as [|x a IH]; simpl; [done|]. by rewrite Z.eqb_refl. Qed.

Lemma str_leb_total a b : str_leb a b = true \/ str_leb b a = true.
Proof.
  revert b. induction a as [|x a IH]; intros [|y b]; simpl; auto.
  rewrite (Z.eqb_sym y x). destruct (x =? y) eqn:E; [apply IH|].
  bool_prop. destruct (Z.lt_total x y) as [|[|]]; [left|lia|right]; by apply Z.ltb_lt.
Qed.

Lemma str_leb_trans a b c :
  str_leb a b = true -> str_leb b c = true -> str_leb a c = true.
Proof.
  revert b c. induction a as [|x a IH]; intros [|y b] [|z c]; simpl; try done.
  destruct (x =? y) eqn:E1, (y =? z) eqn:E2, (x =? z) eqn:E3; intros; bool_prop; try lia; eauto.
  all: try (apply Z.ltb_lt; lia).
Qed.

Lemma str_leb_antisym a b : str_leb a b = true -> str_leb b a = true -> a = b.
Proof.
  revert b. induction a as [|x a IH]; intros [|y b]; simpl; try done.
  rewrite (Z.eqb_sym y x). destruct (x =? y) eqn:E; intros; bool_prop; [|lia].
  subst. f_equal. auto.
Qed.

Lemma str_ltb_irrefl a : str_ltb a a = false.
Proof. unfold str_ltb. by rewrite str_leb_refl. Qed.

(** [sorted(xs)] on strings *)
Definition sorted_strs (l : list pystr) : list pystr := py_sorted str_leb l.

Lemma sorted_strs_Sorted l : StronglySorted (le_rel str_leb) (sorted_strs l).
Proof. apply py_sorted_StronglySorted; eauto using str_leb_total, str_leb_trans. Qed.

(** ** Joining and searching *)

(** [sep.join(l)] *)
Fixpoint join (sep : pystr) (l : list pystr) : pystr :=
  match l with
  | [] => []
  | [x] => x
  | x :: l' => x ++ sep ++ join sep l'
  end.

Lemma join_cons sep x l :
  join sep (x :: l) = x ++ match l with [] => [] | _ => sep ++ join sep l end.
Proof. destruct l; simpl; [by rewrite app_nil_r|done]. Qed.

Fixpoint startswith (p s : pystr) : bool :=
  match p, s with
  | [], _ => true
  | _ :: _, [] => false
  | x :: p', y :: s' => (x =? y) && startswith p' s'
  end.

Definition endswith (p s : pystr) : bool := startswith (rev p) (rev s).

Lemma startswith_spec p s : startswith p s = true <-> exists t, s = p ++ t.
Proof.
  revert s. induction p as [|x p IH]; intros s; simpl.
  { split; [by exists s|done]. }
  destruct s as [|y s]; simpl.
  { split; [done|]. by intros [t ?]. }
  rewrite andb_true_iff, Z.eqb_eq, IH. split.
  - intros [-> [t ->]]. by exists t.
  - intros [t [= -> ->]]. eauto.
Qed.

Lemma startswith_app p t : startswith p (p ++ t) = true.
Proof. apply startswith_spec. eauto. Qed.

Lemma endswith_snoc x s y : endswith [x] (s ++ [y]) = (x =? y).
Proof. unfold endswith. rewrite rev_app_distr. cbn [rev app startswith]. by rewrite andb_true_r. Qed.

(** [p in s] for a substring *)
Fixpoint substr_in (p s : pystr) : bool :=
  startswith p s || match s with [] => false | _ :: s' => substr_in p s' end.

(** [str.isspace] *)
Definition is_space (c : Z) : bool :=
  ((9 <=? c) && (c <=? 13)) || ((28 <=? c) && (c <=? 32)) || (c =? 133) || (c =? 160) || (c =? 5760)
  || ((8192 <=? c) && (c <=? 8202)) || (c =? 8232) || (c =? 8233) || (c =? 8239) || (c =? 8287) || (c =? 12288).

Fixpoint lstrip (s : pystr) : pystr :=
  match s with
  | c :: s' => if is_space c then lstrip s' else s
  | [] => []
  end.

Definition strip (s : pystr) : pystr := rev (lstrip (rev (lstrip s))).

(** [s.find(p)]: [None] is -1 *)
Fixpoint find_str (p s : pystr) : option nat :=
  if startswith p s then Some 0%nat
  else match s with [] => None | _ :: s' => S <$> find_str p s' end.

Lemma find_str_first p a b c :
  c ∉ a -> find_str (c :: p) (a ++ (c :: p) ++ b) = Some (length a).
Proof.
  induction a as [|x a IH]; intros Hn.
  - pose proof (startswith_app (c :: p) b) as H. cbn [app find_str] in *. by rewrite H.
  - apply not_elem_of_cons in Hn as [Hx Ha]. cbn [app find_str].
    assert (startswith (c :: p) (x :: a ++ c :: p ++ b) = false) as ->.
    { cbn [startswith]. by destruct (Z.eqb_spec c x). }
    cbn [app] in IH. by rewrite IH.
Qed.

(** [s.find(c)] for a single character; [None] is Python's -1. *)
Fixpoint find_char (c : Z) (s : pystr) : option nat :=
  match s with
  | [] => None
  | x :: s' => if x =? c then Some 0%nat else S <$> find_char c s'
  end.

(** [s.partition(c)]: the text before the first [c], whether [c] occurs, the
    text after it. *)
Fixpoint partition_char (c : Z) (s : pystr) : pystr * bool * pystr :=
  match s with
  | [] => ([], false, [])
  | x :: s' =>
      if x =? c then ([], true, s')
      else let '(a, b, t) := partition_char c s' in (x :: a, b, t)
  end.

(** [s.rpartition(c)] / a split at [s.rfind(c)]: the last occurrence. *)
Fixpoint rsplit_char (c : Z) (s : pystr) : option (pystr * pystr) :=
  match s with
  | [] => None
  | x :: s' =>
      match rsplit_char c s' with
      | Some (a, t) => Some (x :: a, t)
      | None => if x =? c then Some ([], s') else None
      end
  end.

Lemma partition_char_true c s a t :
  partition_char c s = (a, true, t) -> s = a ++ c :: t /\ c ∉ a.
Proof.
  revert a t. induction s as [|x s IH]; simpl; [done|]. intros a t.
  destruct (x =? c) eqn:E; bool_prop.
  - intros [= <- <-]. subst. split; [done|set_solver].
  - destruct (partition_char c s) as [[a' b] t'] eqn:P. intros [= <- -> <-].
    destruct (IH a' t' eq_refl) as [-> ?]. split; [done|set_solver].
Qed.

Lemma partition_char_false c s a t :
  partition_char c s = (a, false, t) -> s = a /\ t = [] /\ c ∉ s.
Proof.
  revert a t. induction s as [|x s IH]; simpl.
  { intros a t [= <- <-]. set_solver. }
  intros a t. destruct (x =? c) eqn:E; [done|]. bool_prop.
  destruct (partition_char c s) as [[a' b] t'] eqn:P. intros [= <- -> <-].
  destruct (IH a' t' eq_refl) as (-> & -> & ?). set_solver.
Qed.

Lemma partition_char_app c a t :
  c ∉ a -> partition_char c (a ++ c :: t) = (a, true, t).
Proof.
  induction a as [|x a IH]; simpl; intros Hc.
  { by rewrite Z.eqb_refl. }
  apply not_elem_of_cons in Hc as [Hx Hc].
  destruct (x =? c) eqn:E; bool_prop; [congruence|]. by rewrite IH.
Qed.

Lemma partition_char_none c a : c ∉ a -> partition_char c a = (a, false, []).
Proof.
  induction a as [|x a IH]; simpl; intros Hc; [done|].
  apply not_elem_of_cons in Hc as [Hx Hc].
  destruct (x =? c) eqn:E; bool_prop; [congruence|]. by rewrite IH.
Qed.

Lemma rsplit_char_Some c s a t :
  rsplit_char c s = Some (a, t) -> s = a ++ c :: t /\ c ∉ t.
Proof.
  revert a t. induction s as [|x s IH]; simpl; [done|]. intros a t.
  destruct (rsplit_char c s) as [[a' t']|] eqn:R.
  - intros [= <- <-]. destruct (IH a' t' eq_refl) as [-> ?]. done.
  - destruct (x =? c) eqn:E; [|done]. bool_prop. intros [= <- <-]. subst. split; [done|].
    clear IH. induction s as [|y s IH]; [set_solver|]. simpl in R.
    destruct (rsplit_char c s) as [[]|]; [done|].
    destruct (y =? c) eqn:E; [done|]. bool_prop. set_solver.
Qed.

Lemma rsplit_char_None c s : rsplit_char c s = None <-> c ∉ s.
Proof.
  induction s as [|x s IH]; simpl; [set_solver|].
  destruct (rsplit_char c s) as [[a t]|] eqn:R.
  - split; [done|]. intros H. destruct IH as [_ IH]. discriminate IH. set_solver.
  - destruct IH as [IH _]. specialize (IH eq_refl).
    destruct (x =? c) eqn:E; bool_prop; set_solver.
Qed.

Lemma rsplit_char_app c a t : c ∉ t -> rsplit_char c (a ++ c :: t) = Some (a, t).
Proof.
  intros Ht. induction a as [|x a IH]; simpl.
  - apply rsplit_char_None in Ht. by rewrite Ht, Z.eqb_refl.
  - by rewrite IH.
Qed.

(** [s.split(c)] on a single character *)
Fixpoint split_char (c : Z) (s : pystr) : list pystr :=
  match s with
  | [] => [[]]
  | x :: s' =>
      if x =? c then [] :: split_char c s'
      else match split_char c s' with
           | w :: ws => (x :: w) :: ws
           | [] => [[x]]
           end
  end.

(** [s.replace(c, r)] for a single character [c] *)
Definition replace_char (c : Z) (r s : pystr) : pystr :=
  flat_map (fun x => if x =? c then r else [x]) s.

Lemma replace_char_absent c r s : c ∉ s -> replace_char c r s = s.
Proof.
  induction s as [|x s IH]; [done|]. intros [Hx Hs]%not_elem_of_cons. unfold replace_char in *. cbn [flat_map].
  destruct (Z.eqb_spec x c); [congruence|]. by rewrite IH.
Qed.

(** [s.lower()] on the ASCII letters *)
Definition lower_char (c : Z) : Z := if (65 <=? c) && (c <=? 90) then c + 32 else c.
Definition lower (s : pystr) : pystr := lower_char <$> s.

(** [str.lower]: the two characters beyond ASCII whose lower case has an ASCII
    character, and ASCII; what other characters become is not ASCII either *)
Definition lower_full (s : pystr) : pystr :=
  flat_map (fun c => if c =? 8490 then [107] else if c =? 304 then [105; 775] else [lower_char c]) s.

(** Right-strip of one character: [s.rstrip(c)] *)
Fixpoint drop_char (c : Z) (s : pystr) : pystr :=
  match s with
  | x :: s' => if x =? c then drop_char c s' else s
  | [] => []
  end.
Definition rstrip_char (c : Z) (s : pystr) : pystr := rev (drop_char c (rev s)).

Definition repeat_char (c : Z) (n : Z) : pystr := replicate (Z.to_nat n) c.

(** ** Characters *)

Definition is_digit (c : Z) : bool := (48 <=? c) && (c <=? 57).
Definition is_lower (c : Z) : bool := (97 <=? c) && (c <=? 122).
Definition is_upper (c : Z) : bool := (65 <=? c) && (c <=? 90).
Definition is_alpha (c : Z) : bool := is_lower c || is_upper c.

(** ** Decimal integers *)

Fixpoint dec_digits (fuel : nat) (n : Z) (acc : pystr) : pystr :=
  match fuel with
  | O => acc
  | S f => if n <? 10 then (48 + n) :: acc
           else dec_digits f (n / 10) ((48 + n mod 10) :: acc)
  end.

(** [str(n)] of a non-negative integer; the fuel bounds the number of digits. *)
Definition str_of_nonneg (n : Z) : pystr := dec_digits (S (Z.to_nat (Z.log2 n))) n [].

(** [str(n)] *)
Definition str_of_Z (n : Z) : pystr :=
  if n <? 0 then 45 :: str_of_nonneg (- n) else str_of_nonneg n.

(** the value of a string of ASCII digits *)
Definition digits_val (s : pystr) : Z := foldl (fun acc c => acc * 10 + (c - 48)) 0 s.

Lemma digits_val_app a b : digits_val (a ++ b) = digits_val a * 10 ^ Z.of_nat (length b) + digits_val b.
Proof.
  unfold digits_val. rewrite foldl_app. generalize (foldl (fun acc c => acc * 10 + (c - 48)) 0 a) as x.
  induction b as [|c b IH] using rev_ind; intros x; [simpl; lia|].
  rewrite !foldl_app, IH, length_app. simpl. rewrite Nat.add_1_r, Nat2Z.inj_succ, Z.pow_succ_r by lia. lia.
Qed.

Lemma dec_digits_spec fuel n acc :
  0 <= n < 2 ^ Z.of_nat fuel -> (0 < fuel)%nat ->
  exists ds, dec_digits fuel n acc = ds ++ acc /\ ds <> [] /\
    Forall (fun c => is_digit c = true) ds /\
    (forall a, foldl (fun acc c => acc * 10 + (c - 48)) a ds
               = a * 10 ^ Z.of_nat (length ds) + n) /\
    (n <> 0 -> exists c r, ds = c :: r /\ c <> 48) /\ (n = 0 -> ds = [48]).
Proof.
  revert n acc. induction fuel as [|f IH]; intros n acc Hn Hf; [lia|]. simpl.
  destruct (n <? 10) eqn:E; bool_prop.
  - exists [48 + n]. split_and!; try done.
    + constructor; [|done]. unfold is_digit. apply andb_true_iff.
      rewrite !Z.leb_le. lia.
    + intros a. simpl. lia.
    + intros ?. exists (48 + n), []. split; [done|lia].
    + intros ->. done.
  - rewrite Nat2Z.inj_succ, Z.pow_succ_r in Hn by lia.
    assert (0 < f)%nat. { destruct f; simpl in *; lia. }
    destruct (IH (n / 10) ((48 + n mod 10) :: acc)) as (ds & Heq & Hne & Hd & Hv & Hh & Hz);
      [|done|].
    { split; [apply Z.div_pos; lia|]. apply Z.div_lt_upper_bound; lia. }
    exists (ds ++ [48 + n mod 10]). split_and!.
    + by rewrite Heq, <- app_assoc.
    + by destruct ds.
    + apply Forall_app. split; [done|]. constructor; [|done].
      pose proof (Z.mod_pos_bound n 10). unfold is_digit.
      apply andb_true_iff. rewrite !Z.leb_le. lia.
    + intros a. rewrite foldl_app, Hv. simpl. rewrite length_app. simpl.
      rewrite Nat.add_1_r, Nat2Z.inj_succ, Z.pow_succ_r by lia.
      pose proof (Z.div_mod n 10). lia.
    + intros _. destruct Hh as (c & r & -> & Hc).
      { pose proof (Z.div_mod n 10). pose proof (Z.mod_pos_bound n 10). lia. }
      exists c, (r ++ [48 + n mod 10]). done.
    + lia.
Qed.

Lemma str_of_nonneg_spec n :
  0 <= n ->
  str_of_nonneg n <> [] /\
  Forall (fun c => is_digit c = true) (str_of_nonneg n) /\
  digits_val (str_of_nonneg n) = n /\
  (n <> 0 -> exists c r, str_of_nonneg n = c :: r /\ c <> 48) /\
  (n = 0 -> str_of_nonneg n = [48]).
Proof.
  intros Hn. unfold str_of_nonneg.
  destruct (dec_digits_spec (S (Z.to_nat (Z.log2 n))) n []) as (ds & Heq & Hne & Hd & Hv & Hh & Hz);
    [|lia|].
  { split; [done|]. rewrite Nat2Z.inj_succ, Z2Nat.id by apply Z.log2_nonneg.
    destruct (decide (n = 0)) as [->|]; [simpl; lia|].
    pose proof (Z.log2_spec n). lia. }
  rewrite Heq, app_nil_r. split_and!; auto.
  unfold digits_val. rewrite Hv. lia.
Qed.

Lemma str_of_nonneg_inj a b :
  0 <= a -> 0 <= b -> str_of_nonneg a = str_of_nonneg b -> a = b.
Proof.
  intros Ha Hb H. destruct (str_of_nonneg_spec a Ha) as (_ & _ & Va & _).
  destruct (str_of_nonneg_spec b Hb) as (_ & _ & Vb & _). rewrite <- Va, <- Vb. by rewrite H.
Qed.

(** ** Hexadecimal *)

Definition hex_digit (n : Z) : Z := if n <? 10 then 48 + n else 87 + n.
Definition HEX_digit (n : Z) : Z := if n <? 10 then 48 + n else 55 + n.

(** [f"{o:04x}"], [f"{b:02x}"] and [f"{b:02X}"] for values that fit *)
Definition hex4 (o : Z) : pystr :=
  [hex_digit (o / 4096 mod 16); hex_digit (o / 256 mod 16); hex_digit (o / 16 mod 16);
   hex_digit (o mod 16)].
Definition hex2 (b : Z) : pystr := [hex_digit (b / 16 mod 16); hex_digit (b mod 16)].
Definition HEX2 (b : Z) : pystr := [HEX_digit (b / 16 mod 16); HEX_digit (b mod 16)].

(** ** UTF-8 *)

Definition is_surrogate (c : Z) : bool := (55296 <=? c) && (c <=? 57343).
(** a code point that [str.encode("utf-8")] accepts *)
Definition scalar (c : Z) : bool := (0 <=? c) && (c <=? 1114111) && negb (is_surrogate c).

Definition utf8_char (c : Z) : list Z :=
  if c <? 128 then [c]
  else if c <? 2048 then [192 + c / 64; 128 + c mod 64]
  else if c <? 65536 then [224 + c / 4096; 128 + c / 64 mod 64; 128 + c mod 64]
  else [240 + c / 262144; 128 + c / 4096 mod 64; 128 + c / 64 mod 64; 128 + c mod 64].

(** [s.encode("utf-8")] on a string of scalar values *)
Definition utf8_encode (s : pystr) : list Z := flat_map utf8_char s.

Definition is_cont (b : Z) : bool := (128 <=? b) && (b <=? 191).

(** [bs.decode("utf-8", errors)]: [None] is a UnicodeDecodeError; [pass] is the
    error handler [surrogatepass], which lets encoded surrogates through *)
Fixpoint utf8_decode_with (pass : bool) (bs : list Z) : option pystr :=
  match bs with
  | [] => Some []
  | b0 :: r0 =>
      if b0 <? 128 then cons b0 <$> utf8_decode_with pass r0
      else if (194 <=? b0) && (b0 <=? 223) then
        match r0 with
        | b1 :: r1 =>
            if is_cont b1 then cons ((b0 - 192) * 64 + (b1 - 128)) <$> utf8_decode_with pass r1 else None
        | _ => None
        end
      else if (224 <=? b0) && (b0 <=? 239) then
        match r0 with
        | b1 :: b2 :: r2 =>
            if is_cont b1 && is_cont b2
               && ((224 <? b0) || (160 <=? b1)) && (pass || negb (b0 =? 237) || (b1 <=? 159))
            then cons ((b0 - 224) * 4096 + (b1 - 128) * 64 + (b2 - 128)) <$> utf8_decode_with pass r2
            else None
        | _ => None
        end
      else if (240 <=? b0) && (b0 <=? 244) then
        match r0 with
        | b1 :: b2 :: b3 :: r3 =>
            if is_cont b1 && is_cont b2 && is_cont b3
               && ((240 <? b0) || (144 <=? b1)) && ((b0 <? 244) || (b1 <=? 143))
            then cons ((b0 - 240) * 262144 + (b1 - 128) * 4096 + (b2 - 128) * 64 + (b3 - 128))
                   <$> utf8_decode_with pass r3
            else None
        | _ => None
        end
      else None
  end.

Definition utf8_decode : list Z -> option pystr := utf8_decode_with false.

(** Decide every boolean comparison of the goal by linear arithmetic. *)
Ltac bool_lia :=
  repeat match goal with
  | |- context [?a <? ?b] =>
      first [ replace (a <? b) with true by (symmetry; apply Z.ltb_lt; lia)
            | replace (a <? b) with false by (symmetry; apply Z.ltb_ge; lia) ]
  | |- context [?a <=? ?b] =>
      first [ replace (a <=? b) with true by (symmetry; apply Z.leb_le; lia)
            | replace (a <=? b) with false by (symmetry; apply Z.leb_gt; lia) ]
  | |- context [?a =? ?b] =>
      first [ replace (a =? b) with true by (symmetry; apply Z.eqb_eq; lia)
            | replace (a =? b) with false by (symmetry; apply Z.eqb_neq; lia) ]
  end.

(** The parts of a code point in base 64. *)
Lemma base64_parts c :
  0 <= c <= 1114111 ->
  exists c3 c2 c1 c0, c = c3 * 262144 + c2 * 4096 + c1 * 64 + c0 /\
    0 <= c3 <= 4 /\ 0 <= c2 < 64 /\ 0 <= c1 < 64 /\ 0 <= c0 < 64 /\
    c mod 64 = c0 /\ c / 64 mod 64 = c1 /\ c / 4096 mod 64 = c2 /\ c / 262144 = c3 /\
    c / 64 = c3 * 4096 + c2 * 64 + c1 /\ c / 4096 = c3 * 64 + c2.
Proof.
  intros Hc. exists (c / 262144), (c / 4096 mod 64), (c / 64 mod 64), (c mod 64).
  split_and!; Z.to_euclidean_division_equations; lia.
Qed.

Lemma utf8_decode_char pass c r :
  scalar c = true ->
  utf8_decode_with pass (utf8_char c ++ r) = cons c <$> utf8_decode_with pass r.
Proof.
  unfold scalar, is_surrogate. intros H. bool_prop.
  destruct (base64_parts c) as (c3 & c2 & c1 & c0 & Hc & ? & ? & ? & ? & E0 & E1 & E2 & E3 & E4 & E5);
    [lia|].
  assert (c < 55296 \/ 57343 < c) as Hsur.
  { apply andb_false_iff in H0 as [?|?]; bool_prop; lia. }
  unfold utf8_char. rewrite ?E0, ?E1, ?E2, ?E3, ?E4, ?E5. clear E0 E1 E2 E3 E4 E5 H0.
  destruct (Z.ltb_spec c 128); [simpl; bool_lia; by repeat f_equal|].
  destruct (Z.ltb_spec c 2048).
  { assert (c3 = 0 /\ c2 = 0) as [-> ->] by lia. simpl. unfold is_cont. bool_lia. simpl.
    repeat f_equal. lia. }
  destruct (Z.ltb_spec c 65536).
  { assert (c3 = 0) as -> by lia. rewrite Z.mul_0_l, Z.add_0_l. simpl. unfold is_cont. bool_lia.
    simpl.
    assert ((224 <? 224 + c2) || (160 <=? 128 + c1) = true) as ->.
    { apply orb_true_iff. rewrite Z.ltb_lt, Z.leb_le. lia. }
    assert (pass || negb (224 + c2 =? 237) || (128 + c1 <=? 159) = true) as ->.
    { rewrite <- orb_assoc. apply orb_true_iff. right. apply orb_true_iff. rewrite negb_true_iff, Z.eqb_neq, Z.leb_le. lia. }
    simpl. repeat f_equal. lia. }
  simpl. unfold is_cont. bool_lia. simpl.
  assert ((240 <? 240 + c3) || (144 <=? 128 + c2) = true) as ->.
  { apply orb_true_iff. rewrite Z.ltb_lt, Z.leb_le. lia. }
  assert ((240 + c3 <? 244) || (128 + c2 <=? 143) = true) as ->.
  { apply orb_true_iff. rewrite Z.ltb_lt, Z.leb_le. lia. }
  simpl. repeat f_equal. lia.
Qed.

(** Decoding what was encoded gives the string back. *)
Lemma utf8_roundtrip pass s :
  Forall (fun c => scalar c = true) s -> utf8_decode_with pass (utf8_encode s) = Some s.
Proof.
  induction 1 as [|c s Hc Hs IH]; [done|].
  change (utf8_encode (c :: s)) with (utf8_char c ++ utf8_encode s).
  by rewrite utf8_decode_char, IH by done.
Qed.

(** Every byte of an encoding is a byte, and an ASCII byte is an ASCII character. *)
Lemma utf8_char_bytes c b :
  scalar c = true -> b ∈ utf8_char c -> 0 <= b < 256 /\ (b < 128 -> b = c).
Proof.
  unfold scalar. intros H Hb. bool_prop.
  destruct (base64_parts c) as (c3 & c2 & c1 & c0 & Hc & ? & ? & ? & ? & E0 & E1 & E2 & E3 & E4 & E5);
    [lia|].
  unfold utf8_char in Hb. rewrite ?E0, ?E1, ?E2, ?E3, ?E4, ?E5 in Hb.
  destruct (Z.ltb_spec c 128); [set_unfold; lia|].
  destruct (Z.ltb_spec c 2048); [set_unfold; lia|].
  destruct (Z.ltb_spec c 65536); set_unfold; lia.
Qed.
