(* ===== verification/PyPath.v ===== *)
(** * Paths: what the sources use of os.path (POSIX)

    [join], [dirname], [normpath] and [abspath] as the standard library defines
    them.  The lemmas: a normalised path is a fixed point, and joining plain
    names under a normalised directory stays below it. *)
From stdpp Require Import base tactics list option numbers sets strings.
From S2P Require Import Prelude PyStr.

Definition slash : Z := 47.

(** [os.path.join(a, *parts)] *)
Definition path_join2 (path b : pystr) : pystr :=
  if startswith [slash] b then b
  else match path with
       | [] => b
       | _ => if endswith [slash] path then path ++ b else path ++ [slash] ++ b
       end.
Definition path_join (a : pystr) (parts : list pystr) : pystr := foldl path_join2 a parts.

(** [os.path.dirname] *)
Definition dirname (p : pystr) : pystr :=
  match rsplit_char slash p with
  | None => []
  | Some (h, _) =>
      let head := h ++ [slash] in
      if forallb (Z.eqb slash) head then head else rstrip_char slash head
  end.

(** the leading slashes [normpath] keeps: two stay two *)
Definition initial_slashes (p : pystr) : nat :=
  if startswith [slash] p then
    if startswith [slash; slash] p && negb (startswith [slash; slash; slash] p) then 2%nat else 1%nat
  else 0%nat.

Definition dot : pystr := [46].
Definition dotdot : pystr := [46; 46].

(** one round of the loop of [normpath]; [acc] is the list so far, its end first *)
Definition norm_step (rooted : bool) (acc : list pystr) (comp : pystr) : list pystr :=
  if bool_decide (comp = []) || bool_decide (comp = dot) then acc
  else if negb (bool_decide (comp = dotdot)) then comp :: acc
  else match acc with
       | [] => if rooted then acc else [comp]
       | last :: rest => if bool_decide (last = dotdot) then comp :: acc else rest
       end.

Definition norm_comps (rooted : bool) (comps : list pystr) : list pystr :=
  rev (foldl (norm_step rooted) [] comps).

Definition normpath (p : pystr) : pystr :=
  match p with
  | [] => dot
  | _ =>
      let n := initial_slashes p in
      let body := join [slash] (norm_comps (1 <=? n)%nat (split_char slash p)) in
      let r := replicate n slash ++ body in
      match r with [] => dot | _ => r end
  end.

Definition abspath (cwd p : pystr) : pystr :=
  normpath (if startswith [slash] p then p else path_join cwd [p]).

(** ** Splitting and joining *)

Lemma split_char_notin c s : c ∉ s -> split_char c s = [s].
Proof.
  induction s as [|x s IH]; [done|]. intros [Hx Hs]%not_elem_of_cons. cbn [split_char].
  destruct (Z.eqb_spec x c); [congruence|]. by rewrite IH.
Qed.

Lemma split_char_app c a b : c ∉ a -> split_char c (a ++ c :: b) = a :: split_char c b.
Proof.
  induction a as [|x a IH].
  - intros _. cbn [app split_char]. by rewrite Z.eqb_refl.
  - intros [Hx Ha]%not_elem_of_cons. cbn [app split_char].
    destruct (Z.eqb_spec x c); [congruence|]. by rewrite IH.
Qed.

Lemma split_char_parts c s : Forall (fun w => c ∉ w) (split_char c s).
Proof.
  induction s as [|x s IH]; cbn [split_char]; [constructor; [apply not_elem_of_nil|constructor]|].
  destruct (Z.eqb_spec x c) as [|Hx]; [constructor; [apply not_elem_of_nil|done]|].
  destruct (split_char c s) as [|w ws]; [constructor; [set_solver|constructor]|].
  apply Forall_cons in IH as [Hw Hws]. constructor; [|done]. rewrite not_elem_of_cons. by split.
Qed.

Lemma join_snoc sep l x : join sep (l ++ [x]) = match l with [] => x | _ => join sep l ++ sep ++ x end.
Proof.
  induction l as [|y l IH]; [done|]. cbn [app]. rewrite join_cons. destruct l as [|z l]; [done|].
  cbn [app] in *. rewrite IH. rewrite (join_cons sep y (z :: l)). by rewrite <- !app_assoc.
Qed.

Lemma split_join c l : l <> [] -> Forall (fun w => c ∉ w) l -> split_char c (join [c] l) = l.
Proof.
  intros Hne H. induction H as [|w l Hw Hl IH]; [done|]. rewrite join_cons. destruct l as [|v l]; [rewrite app_nil_r; by apply split_char_notin|].
  change (w ++ [c] ++ ?t) with (w ++ c :: t). rewrite split_char_app by done. by rewrite IH.
Qed.

(** ** Rooted paths *)

(** a name that stands for itself in a path *)
Definition good (c : pystr) : Prop := c <> [] /\ c <> dot /\ c <> dotdot /\ slash ∉ c.
Definition rooted (comps : list pystr) : pystr := [slash] ++ join [slash] comps.

#[global] Instance good_dec c : Decision (good c).
Proof. unfold good. apply _. Defined.

Lemma good_step r acc c : good c -> norm_step r acc c = c :: acc.
Proof.
  intros (H1 & H2 & H3 & _). unfold norm_step. by rewrite !bool_decide_eq_false_2.
Qed.

Lemma norm_good r acc l : Forall good l -> foldl (norm_step r) acc l = rev l ++ acc.
Proof.
  intros H. revert acc. induction H as [|c l Hc Hl IH]; intros acc; [done|]. cbn [foldl rev].
  rewrite good_step by done. rewrite IH. by rewrite <- app_assoc.
Qed.

Lemma norm_comps_good r l : Forall good l -> norm_comps r l = l.
Proof. intros H. unfold norm_comps. rewrite norm_good by done. by rewrite app_nil_r, rev_involutive. Qed.

(** under the root every name left over is a good one *)
Lemma norm_rooted acc l :
  Forall good acc -> Forall (fun w => slash ∉ w) l -> Forall good (foldl (norm_step true) acc l).
Proof.
  intros Ha Hl. revert acc Ha. induction Hl as [|c l Hc Hl IH]; intros acc Ha; [done|]. cbn [foldl]. apply IH.
  unfold norm_step. destruct (bool_decide_reflect (c = [])); [done|]. destruct (bool_decide_reflect (c = dot)); [done|].
  cbn [orb]. destruct (bool_decide_reflect (c = dotdot)); cbn [negb]; [|by constructor].
  destruct acc as [|x acc]; [done|]. apply Forall_cons in Ha as [(_ & _ & Hx & _) Ha].
  by rewrite bool_decide_eq_false_2.
Qed.

Lemma good_head c l : Forall good (c :: l) -> exists x r, c = x :: r /\ x <> slash.
Proof.
  intros [(Hne & _ & _ & Hs) _]%Forall_cons. destruct c as [|x r]; [done|]. exists x, r. split; [done|].
  intros ->. apply Hs. by left.
Qed.

Lemma rooted_slashes l : Forall good l -> initial_slashes (rooted l) = 1%nat.
Proof.
  intros H. unfold rooted. destruct l as [|c l]; [done|]. destruct (good_head c l H) as (x & r & -> & Hx).
  rewrite join_cons. unfold initial_slashes. cbn [app startswith]. rewrite !Z.eqb_refl.
  by destruct (Z.eqb_spec slash x).
Qed.

Lemma normpath_rooted l : Forall good l -> normpath (rooted l) = rooted l.
Proof.
  intros H. unfold normpath. rewrite rooted_slashes by done. cbn [Nat.leb].
  assert (norm_comps true (split_char slash (rooted l)) = l) as ->.
  { unfold rooted. destruct l as [|c l]; [done|]. change ([slash] ++ ?t) with ([] ++ slash :: t).
    rewrite split_char_app, split_join; [|done| |apply not_elem_of_nil].
    - change (norm_comps true ([] :: c :: l)) with (norm_comps true (c :: l)). by apply norm_comps_good.
    - eapply Forall_impl; [exact H|]. by intros w (_ & _ & _ & Hw). }
  done.
Qed.

(** the absolute form of a path is rooted *)
Lemma abspath_rooted cwd p :
  startswith [slash] cwd = true -> initial_slashes (if startswith [slash] p then p else path_join cwd [p]) = 1%nat ->
  exists l, Forall good l /\ abspath cwd p = rooted l.
Proof.
  intros Hc Hn. unfold abspath. set (q := if startswith [slash] p then p else path_join cwd [p]) in *.
  exists (norm_comps true (split_char slash q)). split.
  - unfold norm_comps. apply Forall_rev. apply norm_rooted; [constructor|apply split_char_parts].
  - unfold normpath. destruct q as [|x q'] eqn:Eq; [done|]. by rewrite Hn.
Qed.

Lemma abspath_fixed cwd l : Forall good l -> abspath cwd (rooted l) = rooted l.
Proof.
  intros H. unfold abspath. assert (startswith [slash] (rooted l) = true) as -> by apply startswith_app.
  by apply normpath_rooted.
Qed.

Lemma snoc_cases {A} (l : list A) : l = [] \/ exists l' x, l = l' ++ [x].
Proof. induction l as [|x l _] using rev_ind; [by left|right; eauto]. Qed.

Lemma good_last l c : good c -> endswith [slash] (rooted (l ++ [c])) = false.
Proof.
  intros (Hne & _ & _ & Hs). destruct c as [|x c _] using rev_ind; [done|].
  assert (slash <> x) as Hx by (intros <-; apply Hs; set_solver).
  unfold rooted. rewrite join_snoc. destruct l; [rewrite app_assoc|rewrite !app_assoc]; rewrite endswith_snoc; by apply Z.eqb_neq.
Qed.

(** joining good names below a rooted path *)
Lemma path_join_rooted l parts : Forall good l -> Forall good parts -> path_join (rooted l) parts = rooted (l ++ parts).
Proof.
  intros Hl H. revert l Hl. induction H as [|c parts Hc Hp IH]; intros l Hl; [by rewrite app_nil_r|].
  cbn [path_join foldl]. change (foldl path_join2 ?a parts) with (path_join a parts).
  assert (path_join2 (rooted l) c = rooted (l ++ [c])) as ->.
  { destruct (good_head c [] ltac:(by apply Forall_singleton)) as (x & r & -> & Hx).
    unfold path_join2. cbn [startswith]. destruct (Z.eqb_spec slash x); [congruence|]. cbn [andb].
    unfold rooted at 1. cbn [app]. change (slash :: join [slash] l) with (rooted l).
    destruct (snoc_cases l) as [->|(l' & d & ->)]; [done|]. apply Forall_app in Hl as [_ Hd]. apply Forall_cons in Hd as [Hd _].
    rewrite good_last by done. unfold rooted. rewrite (join_snoc _ (l' ++ [d])). by destruct l'. }
  replace (l ++ c :: parts) with ((l ++ [c]) ++ parts) by (by rewrite <- app_assoc).
  apply IH. apply Forall_app. split; [done|by apply Forall_singleton].
Qed.

Lemma dirname_rooted l c d : Forall good (l ++ [d]) -> good c -> dirname (rooted ((l ++ [d]) ++ [c])) = rooted (l ++ [d]).
Proof.
  intros Hl (_ & _ & _ & Hs). unfold dirname.
  assert (rooted ((l ++ [d]) ++ [c]) = rooted (l ++ [d]) ++ slash :: c) as ->.
  { unfold rooted. rewrite (join_snoc _ (l ++ [d])). by destruct l. }
  rewrite rsplit_char_app by done. apply Forall_app in Hl as [_ Hd]. apply Forall_cons in Hd as [Hd _].
  pose proof (good_last l d Hd) as He.
  destruct (snoc_cases (rooted (l ++ [d]))) as [E|(s & x & E)]; [done|]. rewrite E in *. rewrite endswith_snoc in He.
  assert (forallb (Z.eqb slash) ((s ++ [x]) ++ [slash]) = false) as ->.
  { rewrite !forallb_app. cbn [forallb]. rewrite He. by rewrite andb_false_r. }
  unfold rstrip_char. rewrite !rev_app_distr. cbn [rev app drop_char]. rewrite Z.eqb_refl.
  rewrite Z.eqb_sym, He. cbn [rev]. by rewrite rev_involutive.
Qed.

Lemma rooted_inj l l' : Forall good l -> Forall good l' -> rooted l = rooted l' -> l = l'.
Proof.
  intros Hl Hl' E. unfold rooted in E. injection E as E.
  assert (forall k, Forall good k -> Forall (fun w => slash ∉ w) k) as Hn.
  { intros k Hk. eapply Forall_impl; [exact Hk|]. by intros w (_ & _ & _ & ?). }
  assert (forall k, Forall good k -> join [slash] k = [] -> k = []) as Hnil.
  { intros [|c k] Hk; [done|]. destruct (good_head c k Hk) as (x & r & -> & _). by rewrite join_cons. }
  destruct l as [|c l]; [symmetry; by apply Hnil|]. destruct l' as [|c' l']; [by apply Hnil|].
  rewrite <- (split_join slash (c :: l)), <- (split_join slash (c' :: l')) by auto. by rewrite E.
Qed.
