(* ===== verification/PyCodec.v ===== *)
(** * Codecs of the Python library the sources call

    Base64 as the binascii module decodes it when it is not strict, the URL
    variant, UTF-8 with the error handler [replace], and [str.splitlines]; each
    with the encoder it inverts. *)
From stdpp Require Import base tactics list option numbers sets strings.
From S2P Require Import Prelude PyStr.

(** ** Base64 *)

(** the value of a character of the standard alphabet *)
Definition b64_val (c : Z) : option Z :=
  if is_upper c then Some (c - 65)
  else if is_lower c then Some (c - 71)
  else if is_digit c then Some (c + 4)
  else if c =? 43 then Some 62
  else if c =? 47 then Some 63
  else None.

(** [binascii.a2b_base64]: the position in the group of four, the bits left from
    the last character, the pad characters seen; other characters are skipped,
    and a group that its padding completes ends the input.  [None] is the Error
    of an incomplete group. *)
Fixpoint a2b_base64 (quad : Z) (left : Z) (pads : Z) (s : pystr) : option (list Z) :=
  match s with
  | [] => if quad =? 0 then Some [] else None
  | c :: r =>
      if c =? 61 then
        if 2 <=? quad then
          if 4 <=? quad + (pads + 1) then Some [] else a2b_base64 quad left (pads + 1) r
        else a2b_base64 quad left pads r
      else match b64_val c with
           | None => a2b_base64 quad left pads r
           | Some v =>
               if quad =? 0 then a2b_base64 1 v 0 r
               else if quad =? 1 then cons (left * 4 + v / 16) <$> a2b_base64 2 (v mod 16) 0 r
               else if quad =? 2 then cons (left * 16 + v / 4) <$> a2b_base64 3 (v mod 4) 0 r
               else cons (left * 64 + v) <$> a2b_base64 0 0 0 r
           end
  end.

Definition ascii (s : pystr) : bool := forallb (fun c => (0 <=? c) && (c <? 128)) s.

(** [base64.urlsafe_b64decode] of a text; [None] is a ValueError *)
Definition from_urlsafe (c : Z) : Z := if c =? 45 then 43 else if c =? 95 then 47 else c.
Definition urlsafe_b64decode (s : pystr) : option (list Z) :=
  if ascii s then a2b_base64 0 0 0 (from_urlsafe <$> s) else None.

(** the encoder: the URL alphabet without padding *)
Definition url_char (v : Z) : Z :=
  if v <? 26 then v + 65 else if v <? 52 then v + 71 else if v <? 62 then v - 4 else if v =? 62 then 45 else 95.

Fixpoint url_encode (bs : list Z) : pystr :=
  match bs with
  | [] => []
  | [a] => [url_char (a / 4); url_char (a mod 4 * 16)]
  | [a; b] => [url_char (a / 4); url_char (a mod 4 * 16 + b / 16); url_char (b mod 16 * 4)]
  | a :: b :: c :: r =>
      url_char (a / 4) :: url_char (a mod 4 * 16 + b / 16) :: url_char (b mod 16 * 4 + c / 64) :: url_char (c mod 64)
        :: url_encode r
  end.

(** a letter, a digit, a minus or an underscore *)
Definition is_urlsafe (c : Z) : bool := is_alpha c || is_digit c || (c =? 45) || (c =? 95).

Definition sextets : list Z := seqZ 0 64.

Lemma sextet_check (P : Z -> bool) v : forallb P sextets = true -> 0 <= v < 64 -> P v = true.
Proof. intros H Hv. rewrite forallb_forall in H. apply H, list_elem_of_In, elem_of_seqZ. lia. Qed.

Lemma url_char_val v : 0 <= v < 64 -> b64_val (from_urlsafe (url_char v)) = Some v.
Proof.
  intros Hv. pose proof (sextet_check (fun v => bool_decide (b64_val (from_urlsafe (url_char v)) = Some v)) v) as H.
  apply bool_decide_eq_true_1 in H; [done|by vm_compute|done].
Qed.

Lemma url_char_safe v : 0 <= v < 64 -> is_urlsafe (url_char v) = true.
Proof. apply (sextet_check (fun v => is_urlsafe (url_char v))). by vm_compute. Qed.

Lemma from_urlsafe_pad v : 0 <= v < 64 -> (from_urlsafe (url_char v) =? 61) = false.
Proof. intros Hv. pose proof (sextet_check (fun v => negb (from_urlsafe (url_char v) =? 61)) v) as H. rewrite <- negb_true_iff. by apply H; [vm_compute|]. Qed.

(** one character of a group *)
Lemma a2b_step quad left pads v r : 0 <= v < 64 ->
  a2b_base64 quad left pads (from_urlsafe (url_char v) :: r) =
  if quad =? 0 then a2b_base64 1 v 0 r
  else if quad =? 1 then cons (left * 4 + v / 16) <$> a2b_base64 2 (v mod 16) 0 r
  else if quad =? 2 then cons (left * 16 + v / 4) <$> a2b_base64 3 (v mod 4) 0 r
  else cons (left * 64 + v) <$> a2b_base64 0 0 0 r.
Proof. intros Hv. cbn [a2b_base64]. by rewrite from_urlsafe_pad, url_char_val. Qed.

Definition is_byte (b : Z) : bool := (0 <=? b) && (b <? 256).

(** three bytes at a time *)
Lemma three_ind (P : list Z -> Prop) :
  P [] -> (forall a, P [a]) -> (forall a b, P [a; b]) -> (forall a b c r, P r -> P (a :: b :: c :: r)) -> forall l, P l.
Proof.
  intros H0 H1 H2 H3. assert (forall n l, (length l <= n)%nat -> P l) as H; [|intros l; by apply (H (length l))].
  induction n as [|n IH]; intros [|a [|b [|c r]]] Hn; simpl in Hn; try done; try lia. apply H3, IH. lia.
Qed.

(** the pad characters that complete a length *)
Definition padding (n : Z) : pystr := repeat_char 61 ((- n) mod 4).

Ltac sextets := repeat match goal with
  | |- context [from_urlsafe (url_char ?v)] => rewrite (a2b_step _ _ _ v) by (Z.to_euclidean_division_equations; lia)
  end.

Lemma url_encode_length3 a b c r : Z.of_nat (length (url_encode (a :: b :: c :: r))) = Z.of_nat (length (url_encode r)) + 4.
Proof. cbn [url_encode length]. lia. Qed.

Lemma a2b_url_encode bs :
  forallb is_byte bs = true ->
  a2b_base64 0 0 0 ((from_urlsafe <$> url_encode bs) ++ padding (Z.of_nat (length (url_encode bs)))) = Some bs.
Proof.
  induction bs as [|a|a b|a b c r IH] using three_ind; intros Hb; cbn [forallb] in Hb; unfold is_byte in Hb.
  - done.
  - bool_prop. cbn [url_encode]. rewrite !fmap_cons. cbn [app]. sextets. cbn [Z.eqb Pos.eqb].
    change (padding _) with [61; 61]. cbn [fmap list_fmap app]. simpl. repeat f_equal. Z.to_euclidean_division_equations; lia.
  - bool_prop. cbn [url_encode]. rewrite !fmap_cons. cbn [app]. sextets. cbn [Z.eqb Pos.eqb].
    change (padding _) with [61]. cbn [fmap list_fmap app]. simpl. repeat f_equal; Z.to_euclidean_division_equations; lia.
  - rewrite url_encode_length3. assert (forall n, padding (n + 4) = padding n) as ->.
    { intros n. unfold padding. f_equal. replace (- (n + 4)) with (- n + (-1) * 4) by lia. by rewrite Z.mod_add by lia. }
    change (forallb is_byte (a :: b :: c :: r) = true) in Hb. cbn [forallb] in Hb.
    apply andb_true_iff in Hb as [Ha Hb]. apply andb_true_iff in Hb as [Hb Hc]. apply andb_true_iff in Hc as [Hc Hr].
    unfold is_byte in Ha, Hb, Hc. bool_prop. cbn [url_encode]. rewrite !fmap_cons. cbn [app]. sextets. cbn [Z.eqb Pos.eqb].
    rewrite IH by done. simpl. repeat f_equal; Z.to_euclidean_division_equations; lia.
Qed.

(** ** UTF-8 with replacement *)

(** [bs.decode("utf-8", "replace")]: every maximal part of a sequence that does
    not go on is one U+FFFD *)
Fixpoint utf8_replace (bs : list Z) : pystr :=
  match bs with
  | [] => []
  | b0 :: r0 =>
      if b0 <? 128 then b0 :: utf8_replace r0
      else if (194 <=? b0) && (b0 <=? 223) then
        match r0 with
        | b1 :: r1 => if is_cont b1 then ((b0 - 192) * 64 + (b1 - 128)) :: utf8_replace r1 else 65533 :: utf8_replace r0
        | [] => [65533]
        end
      else if (224 <=? b0) && (b0 <=? 239) then
        match r0 with
        | b1 :: r1 =>
            if is_cont b1 && ((224 <? b0) || (160 <=? b1)) && (negb (b0 =? 237) || (b1 <=? 159)) then
              match r1 with
              | b2 :: r2 => if is_cont b2 then ((b0 - 224) * 4096 + (b1 - 128) * 64 + (b2 - 128)) :: utf8_replace r2
                            else 65533 :: utf8_replace r1
              | [] => [65533]
              end
            else 65533 :: utf8_replace r0
        | [] => [65533]
        end
      else if (240 <=? b0) && (b0 <=? 244) then
        match r0 with
        | b1 :: r1 =>
            if is_cont b1 && ((240 <? b0) || (144 <=? b1)) && ((b0 <? 244) || (b1 <=? 143)) then
              match r1 with
              | b2 :: r2 =>
                  if is_cont b2 then
                    match r2 with
                    | b3 :: r3 =>
                        if is_cont b3
                        then ((b0 - 240) * 262144 + (b1 - 128) * 4096 + (b2 - 128) * 64 + (b3 - 128)) :: utf8_replace r3
                        else 65533 :: utf8_replace r2
                    | [] => [65533]
                    end
                  else 65533 :: utf8_replace r1
              | [] => [65533]
              end
            else 65533 :: utf8_replace r0
        | [] => [65533]
        end
      else 65533 :: utf8_replace r0
  end.

(** nothing is replaced in what decodes *)
Lemma utf8_replace_decoded bs s : utf8_decode bs = Some s -> utf8_replace bs = s.
Proof.
  unfold utf8_decode. assert (forall n bs s, (length bs <= n)%nat -> utf8_decode_with false bs = Some s -> utf8_replace bs = s)
    as H; [|by apply (H (length bs))]. clear bs s.
  intros n. induction n as [|n IH]; intros [|b0 r0] s Hn E; simpl in Hn; try lia; try by injection E as <-.
  cbn [utf8_decode_with utf8_replace] in *.
  destruct (b0 <? 128); [destruct (utf8_decode_with false r0) eqn:E0; [|done]; injection E as <-; f_equal; apply IH; [lia|done]|].
  destruct (_ && (b0 <=? 223)).
  { destruct r0 as [|b1 r1]; [done|]. destruct (is_cont b1); [|done]. destruct (utf8_decode_with false r1) eqn:E0; [|done].
    injection E as <-. f_equal. apply IH; [simpl in Hn; lia|done]. }
  destruct (_ && (b0 <=? 239)).
  { destruct r0 as [|b1 [|b2 r2]]; [done..|]. destruct (is_cont b1), (is_cont b2), (_ || (160 <=? b1)); try done.
    cbn [andb orb] in *. destruct (_ || (b1 <=? 159)); [|done]. destruct (utf8_decode_with false r2) eqn:E0; [|done].
    injection E as <-. f_equal. apply IH; [simpl in Hn; lia|done]. }
  destruct (_ && (b0 <=? 244)); [|done].
  destruct r0 as [|b1 [|b2 [|b3 r3]]]; [done..|].
  destruct (is_cont b1), (is_cont b2), (is_cont b3), (_ || (144 <=? b1)), (_ || (b1 <=? 143)); try done. cbn [andb] in *.
  destruct (utf8_decode_with false r3) eqn:E0; [|done]. injection E as <-. f_equal. apply IH; [simpl in Hn; lia|done].
Qed.

Lemma utf8_replace_encode s : forallb scalar s = true -> utf8_replace (utf8_encode s) = s.
Proof. intros Hs. apply utf8_replace_decoded, utf8_roundtrip. by apply forallb_Forall. Qed.

(** ** Lines *)

Definition is_line_break (c : Z) : bool :=
  ((10 <=? c) && (c <=? 13)) || ((28 <=? c) && (c <=? 30)) || (c =? 133) || (c =? 8232) || (c =? 8233).

(** [s.splitlines()]; [cur] is the line so far, reversed *)
Fixpoint splitlines_from (cur : pystr) (s : pystr) : list pystr :=
  match s with
  | [] => match cur with [] => [] | _ => [rev cur] end
  | c :: r =>
      if is_line_break c then
        rev cur :: match r with
                   | d :: r' => if (c =? 13) && (d =? 10) then splitlines_from [] r' else splitlines_from [] r
                   | [] => []
                   end
      else splitlines_from (c :: cur) r
  end.
Definition splitlines (s : pystr) : list pystr := splitlines_from [] s.

Lemma splitlines_line cur l r :
  forallb (fun c => negb (is_line_break c)) l = true ->
  splitlines_from cur (l ++ 10 :: r) = rev (rev l ++ cur) :: splitlines_from [] r.
Proof.
  revert cur. induction l as [|c l IH]; intros cur Hl; cbn [app splitlines_from].
  - change (is_line_break 10) with true. cbv iota. f_equal. destruct r as [|d r']; [done|].
    change (10 =? 13) with false. done.
  - simpl in Hl. apply andb_true_iff in Hl as [Hc Hl]. apply negb_true_iff in Hc. rewrite Hc, IH by done.
    f_equal. simpl. by rewrite <- !app_assoc.
Qed.
