(* ===== verification/PyUrl.v ===== *)
(** * urllib.parse, as far as the sources use it

    [urlsplit], the part of [urlparse] that differs from it, and the properties
    of its result.  A character of the host that changes under NFKC
    normalisation, which urllib refuses, is outside the model. *)
From stdpp Require Import base tactics list option numbers sets strings.
From S2P Require Import Prelude PyStr PyCodec.

Record SplitResult := mk_split {
  sp_scheme : pystr;
  sp_netloc : pystr;
  sp_path : pystr;
  sp_query : pystr;
  sp_fragment : pystr
}.

Definition scheme_char (c : Z) : bool := is_alpha c || is_digit c || (c =? 43) || (c =? 45) || (c =? 46).

(** the scheme, when a colon ends one *)
Definition split_scheme (url : pystr) : pystr * pystr :=
  match partition_char 58 url with
  | (c :: s, true, rest) => if is_alpha c && forallb scheme_char (c :: s) then (lower (c :: s), rest) else ([], url)
  | _ => ([], url)
  end.

(** the text up to the first of the delimiters of a netloc, and the rest *)
Fixpoint span_netloc (s : pystr) : pystr * pystr :=
  match s with
  | c :: r => if (c =? 47) || (c =? 63) || (c =? 35) then ([], s) else let '(a, b) := span_netloc r in (c :: a, b)
  | [] => ([], [])
  end.

(** without the control characters and spaces at the start *)
Fixpoint strip_leading (s : pystr) : pystr :=
  match s with
  | c :: r => if c <=? 32 then strip_leading r else s
  | [] => []
  end.

(** [None] is the ValueError of a bracket without its counterpart *)
Definition urlsplit (url : pystr) : option SplitResult :=
  let url := filter (fun c => c <> 9 /\ c <> 10 /\ c <> 13) (strip_leading url) in
  let '(scheme, rest) := split_scheme url in
  let '(netloc, rest) := if startswith (u"//") rest then span_netloc (drop 2 rest) else ([], rest) in
  if xorb (char_in 91 netloc) (char_in 93 netloc) then None
  else
    let '(rest, _, fragment) := partition_char 35 rest in
    let '(path, _, query) := partition_char 63 rest in
    Some (mk_split scheme netloc path query fragment).

(** the userinfo, when there is one, and the rest of a netloc *)
Definition split_userinfo (netloc : pystr) : option pystr * pystr :=
  match rsplit_char 64 netloc with Some (a, b) => (Some a, b) | None => (None, netloc) end.

Definition sp_username (r : SplitResult) : option pystr :=
  (fun a => (partition_char 58 a).1.1) <$> (split_userinfo (sp_netloc r)).1.
Definition sp_password (r : SplitResult) : option pystr :=
  match (split_userinfo (sp_netloc r)).1 with
  | Some a => let '(_, colon, p) := partition_char 58 a in if colon then Some p else None
  | None => None
  end.

(** the host and the port as they are written *)
Definition hostinfo (netloc : pystr) : pystr * pystr :=
  let info := (split_userinfo netloc).2 in
  match partition_char 91 info with
  | (_, true, bracketed) => let '(host, _, rest) := partition_char 93 bracketed in (host, (partition_char 58 rest).2)
  | _ => let '(host, _, port) := partition_char 58 info in (host, port)
  end.

Definition sp_hostname (r : SplitResult) : option pystr :=
  match (hostinfo (sp_netloc r)).1 with
  | [] => None
  | h => let '(name, percent, zone) := partition_char 37 h in
         Some (lower name ++ (if percent : bool then u"%" else []) ++ zone)
  end.

(** [inl] is the ValueError of a port that is no number or out of range *)
Definition sp_port (r : SplitResult) : unit + option Z :=
  match (hostinfo (sp_netloc r)).2 with
  | [] => inr None
  | p => if forallb is_digit p && (digits_val p <=? 65535) then inr (Some (digits_val p)) else inl tt
  end.

(** the schemes whose last segment may carry parameters *)
Definition uses_params : list pystr :=
  [[]; u"ftp"; u"hdl"; u"prospero"; u"http"; u"https"; u"shttp"; u"rtsp"; u"rtspu"; u"sip"; u"sips"; u"mms"; u"sftp"; u"tel"].

(** the path of [urlparse], without the parameters *)
Definition parsed_path (r : SplitResult) : pystr :=
  if str_in (sp_scheme r) uses_params then
    match rsplit_char 47 (sp_path r) with
    | Some (a, b) => a ++ u"/" ++ (partition_char 59 b).1.1
    | None => (partition_char 59 (sp_path r)).1.1
    end
  else sp_path r.

(** ** Escapes and queries *)

Definition url_hex (c : Z) : option Z :=
  if is_digit c then Some (c - 48)
  else if (97 <=? c) && (c <=? 102) then Some (c - 87)
  else if (65 <=? c) && (c <=? 70) then Some (c - 55)
  else None.

(** the bytes of ASCII text; a malformed escape stays as it is *)
Fixpoint unquote_to_bytes (s : pystr) : list Z :=
  match s with
  | [] => []
  | c :: r =>
      match r with
      | a :: b :: r' =>
          if c =? 37 then
            match url_hex a, url_hex b with
            | Some x, Some y => (x * 16 + y) :: unquote_to_bytes r'
            | _, _ => c :: unquote_to_bytes r
            end
          else c :: unquote_to_bytes r
      | _ => c :: unquote_to_bytes r
      end
  end.

(** [unquote]: each run of ASCII characters by itself; bytes that are not UTF-8
    are replaced *)
Fixpoint unquote_runs (run s : pystr) : pystr :=
  match s with
  | [] => utf8_replace (unquote_to_bytes (rev run))
  | c :: r => if c <? 128 then unquote_runs (c :: run) r
              else utf8_replace (unquote_to_bytes (rev run)) ++ c :: unquote_runs [] r
  end.
Definition unquote (s : pystr) : pystr := if char_in 37 s then unquote_runs [] s else s.

Definition unquote_plus (s : pystr) : pystr := unquote ((fun c => if c =? 43 then 32 else c) <$> s).

(** [parse_qsl] with blank values kept *)
Definition parse_qsl (query : pystr) : list (pystr * pystr) :=
  omap (fun part => match part with
                    | [] => None
                    | _ => let '(name, _, value) := partition_char 61 part in Some (unquote_plus name, unquote_plus value)
                    end) (split_char 38 query).
