(* ===== verification/PyDict.v ===== *)
(** * Python dictionaries

    A [dict] with string keys is an association list in insertion order:
    assigning to a present key keeps its position, a new key goes to the end.
    Iteration order is observable in the sources, which is why this is not an
    unordered finite map; [dict_to_gmap] relates it to one. *)
From stdpp Require Import base tactics list option numbers sets gmap.
From S2P Require Import Prelude PyStr.

Abbreviation pydict V := (list (pystr * V)).

Section dict.
Context {V : Type}.
Implicit Types d : pydict V.

Fixpoint dict_get (k : pystr) (d : pydict V) : option V :=
  match d with
  | [] => None
  | (k', v) :: d' => if decide (k' = k) then Some v else dict_get k d'
  end.

Definition dict_has (k : pystr) (d : pydict V) : bool :=
  match dict_get k d with Some _ => true | None => false end.

(** [d[k] = v] *)
Fixpoint dict_set (k : pystr) (v : V) (d : pydict V) : pydict V :=
  match d with
  | [] => [(k, v)]
  | (k', v') :: d' =>
      if decide (k' = k) then (k', v) :: d' else (k', v') :: dict_set k v d'
  end.

(** [d.pop(k, None)] / [del d[k]] *)
Fixpoint dict_pop (k : pystr) (d : pydict V) : pydict V :=
  match d with
  | [] => []
  | (k', v) :: d' => if decide (k' = k) then d' else (k', v) :: dict_pop k d'
  end.

(** [d1.update(d2)] *)
Definition dict_update (d1 d2 : pydict V) : pydict V :=
  foldl (fun d kv => dict_set kv.1 kv.2 d) d1 d2.

Definition dict_keys (d : pydict V) : list pystr := d.*1.

Lemma dict_get_None k d : dict_get k d = None <-> k ∉ dict_keys d.
Proof.
  induction d as [|[k' v] d IH]; simpl; [set_solver|].
  case_decide as E; set_solver.
Qed.

Lemma dict_has_spec k d : dict_has k d = true <-> k ∈ dict_keys d.
Proof.
  unfold dict_has. pose proof (dict_get_None k d) as H.
  destruct (dict_get k d); split; try done; intros.
  - destruct (decide (k ∈ dict_keys d)); [done|]. by apply H in n.
  - exfalso. by apply H.
Qed.

Lemma dict_get_elem k d v : dict_get k d = Some v -> (k, v) ∈ d.
Proof.
  induction d as [|[k' v'] d IH]; [done|]. simpl. case_decide; [intros [= ->]; subst; left|]. right. auto.
Qed.

Lemma dict_get_set_eq k v d : dict_get k (dict_set k v d) = Some v.
Proof.
  induction d as [|[k' v'] d IH]; simpl.
  - by rewrite decide_True.
  - case_decide as E; simpl; [by rewrite decide_True|by rewrite decide_False].
Qed.

Lemma dict_get_set_ne k k' v d : k <> k' -> dict_get k' (dict_set k v d) = dict_get k' d.
Proof.
  intros Hne. induction d as [|[k1 v1] d IH]; simpl.
  - by rewrite decide_False.
  - case_decide as E; simpl; [subst; by rewrite !decide_False|].
    case_decide; [done|apply IH].
Qed.

Lemma dict_get_set k k' v d :
  dict_get k' (dict_set k v d) = if decide (k = k') then Some v else dict_get k' d.
Proof.
  case_decide as E; [subst; apply dict_get_set_eq|by apply dict_get_set_ne].
Qed.

Lemma dict_keys_set k v d :
  dict_keys (dict_set k v d) = if dict_has k d then dict_keys d else dict_keys d ++ [k].
Proof.
  unfold dict_has. induction d as [|[k' v'] d IH]; simpl; [done|].
  case_decide as E; [done|]. simpl. rewrite IH. by destruct (dict_get k d).
Qed.

Lemma dict_set_NoDup k v d : NoDup (dict_keys d) -> NoDup (dict_keys (dict_set k v d)).
Proof.
  intros H. rewrite dict_keys_set. destruct (dict_has k d) eqn:E; [done|].
  apply NoDup_app. split_and!; [done| |apply NoDup_singleton].
  intros x Hx Hk. apply list_elem_of_singleton in Hk. subst.
  apply dict_has_spec in Hx. congruence.
Qed.

Lemma dict_get_pop_eq k d : NoDup (dict_keys d) -> dict_get k (dict_pop k d) = None.
Proof.
  induction d as [|[k' v'] d IH]; simpl; [done|]. intros [Hk Hd]%NoDup_cons.
  case_decide as E; [subst; by apply dict_get_None|]. simpl.
  rewrite decide_False by done. auto.
Qed.

Lemma dict_get_pop_ne k k' d : k <> k' -> dict_get k' (dict_pop k d) = dict_get k' d.
Proof.
  intros Hne. induction d as [|[k1 v1] d IH]; simpl; [done|].
  case_decide as E; [subst; by rewrite decide_False|]. simpl.
  case_decide; [done|apply IH].
Qed.

Lemma dict_keys_pop k d : dict_keys (dict_pop k d) ⊆+ dict_keys d.
Proof.
  induction d as [|[k' v'] d IH]; simpl; [done|].
  case_decide; simpl; [by apply submseteq_cons|by apply submseteq_skip].
Qed.

Lemma dict_pop_NoDup k d : NoDup (dict_keys d) -> NoDup (dict_keys (dict_pop k d)).
Proof.
  induction d as [|[k' v'] d IH]; simpl; [done|]. intros [Hk Hd]%NoDup_cons.
  case_decide; [done|]. simpl. apply NoDup_cons. split; [|auto].
  intros Hin. apply Hk. eapply elem_of_submseteq; [done|]. apply dict_keys_pop.
Qed.

(** Assigning the entries of a list of fresh, distinct keys appends them. *)
Lemma dict_set_fresh k v d : k ∉ dict_keys d -> dict_set k v d = d ++ [(k, v)].
Proof.
  induction d as [|[k' v'] d IH]; simpl; [done|]. intros [? ?]%not_elem_of_cons.
  rewrite decide_False by done. by rewrite IH.
Qed.

Lemma dict_update_fresh d1 d2 :
  NoDup (dict_keys (d1 ++ d2)) -> dict_update d1 d2 = d1 ++ d2.
Proof.
  unfold dict_update. revert d1. induction d2 as [|[k v] d2 IH]; intros d1 H; simpl.
  { by rewrite app_nil_r. }
  rewrite dict_set_fresh.
  - rewrite IH; rewrite <- app_assoc; done.
  - unfold dict_keys in *. rewrite fmap_app, fmap_cons in H.
    apply NoDup_app in H as (_ & H & _). intros Hk. eapply H; [done|].
    apply list_elem_of_here.
Qed.

Lemma dict_update_get k d1 d2 :
  NoDup (dict_keys d2) ->
  dict_get k (dict_update d1 d2) =
    match dict_get k d2 with Some v => Some v | None => dict_get k d1 end.
Proof.
  unfold dict_update. revert d1. induction d2 as [|[k' v] d2 IH]; intros d1 H; simpl; [done|].
  apply NoDup_cons in H as [Hk H]. rewrite IH by done. rewrite dict_get_set.
  case_decide as E; [subst|done]. apply dict_get_None in Hk. simpl in Hk. by rewrite Hk.
Qed.

Definition dict_to_gmap (d : pydict V) : gmap pystr V := list_to_map d.

Lemma dict_to_gmap_lookup k d : dict_to_gmap d !! k = dict_get k d.
Proof.
  unfold dict_to_gmap. induction d as [|[k' v] d IH]; simpl; [apply lookup_empty|].
  rewrite lookup_insert, IH. done.
Qed.
End dict.

Lemma dict_keys_fmap {V W} (f : V -> W) (d : pydict V) :
  dict_keys ((fun kv => (kv.1, f kv.2)) <$> d) = dict_keys d.
Proof. unfold dict_keys. rewrite <- list_fmap_compose. by apply list_fmap_ext. Qed.

Lemma dict_get_fmap {V W} (f : V -> W) k (d : pydict V) :
  dict_get k ((fun kv => (kv.1, f kv.2)) <$> d) = f <$> dict_get k d.
Proof. induction d as [|[k' v] d IH]; simpl; [done|]. by case_decide. Qed.
