(* ===== verification/GoUrl.v ===== *)
(** * URLs: eds/util/gourl.py

    The port of Go's net/url: percent encoding in seven modes, user info,
    ordered query values, parsing and printing.  All errors of the module are
    ValueErrors; [query] only handles [EscapeError].

    The theorems: percent encoding reads back, encoded query values read back
    as the same values in key order, and a URL in canonical form reads back as
    itself. *)
From stdpp Require Import base tactics list option numbers sets strings.
From S2P Require Import Prelude PyStr PyDict.

Inductive encode_mode : Type :=
| ENCODE_PATH | ENCODE_PATH_SEGMENT | ENCODE_HOST | ENCODE_ZONE
| ENCODE_USER_PASSWORD | ENCODE_QUERY_COMPONENT | ENCODE_FRAGMENT.

#[global] Instance encode_mode_eq_dec : EqDecision encode_mode.
Proof. solve_decision. Defined.

Definition mode_eqb (a b : encode_mode) : bool := bool_decide (a = b).
Definition host_mode (m : encode_mode) : bool := mode_eqb m ENCODE_HOST || mode_eqb m ENCODE_ZONE.

(** [_EscapeError], a UnicodeError of the codec, any other ValueError *)
Inductive url_error : Type := EscapeError | UnicodeError | UrlError.

(** a result or one of the ValueErrors *)
Definition res (A : Type) : Type := (url_error + A)%type.
#[global] Instance res_ret : MRet res := fun A a => inr a.
#[global] Instance res_bind : MBind res := fun A B f m => match m with inl e => inl e | inr a => f a end.
Definition fail {A} (e : url_error) : res A := inl e.

Definition _RESERVED : pystr := u"$&+,/:;=?@".
Definition _HOST_KEEP : pystr := u"!$&'()*+,;=:[]<>" ++ dq.

(** ** Percent encoding *)

Definition _is_hex (b : Z) : bool :=
  is_digit b || ((65 <=? b) && (b <=? 70)) || ((97 <=? b) && (b <=? 102)).

Definition _unhex (b : Z) : Z :=
  if b <=? 57 then b - 48 else if b <=? 70 then b - 55 else b - 87.

Definition _should_escape (c : Z) (mode : encode_mode) : bool :=
  if is_alpha c || is_digit c then false
  else if host_mode mode && char_in c _HOST_KEEP then false
  else if char_in c (u"-_.~") then false
  else
    let rest := negb (mode_eqb mode ENCODE_FRAGMENT && char_in c (u"!()*")) in
    if char_in c _RESERVED then
      match mode with
      | ENCODE_PATH => c =? 63
      | ENCODE_PATH_SEGMENT => char_in c (u"/;,?")
      | ENCODE_USER_PASSWORD => char_in c (u"@/?:")
      | ENCODE_QUERY_COMPONENT => true
      | ENCODE_FRAGMENT => false
      | _ => rest
      end
    else rest.

(** one byte of the output of [_escape] *)
Definition escape_byte (mode : encode_mode) (b : Z) : pystr :=
  if mode_eqb mode ENCODE_QUERY_COMPONENT && (b =? 32) then [43]
  else if _should_escape b mode then 37 :: HEX2 b
  else [b].

(** [s.encode("utf-8")] *)
Definition encode_utf8 (s : pystr) : res (list Z) :=
  if forallb scalar s then inr (utf8_encode s) else fail UnicodeError.
Definition decode_utf8 (bs : list Z) : res pystr :=
  match utf8_decode bs with Some s => inr s | None => fail UnicodeError end.

Definition _escape (s : pystr) (mode : encode_mode) : res pystr :=
  bs ← encode_utf8 s; mret (flat_map (escape_byte mode) bs).

Fixpoint unescape_bytes (mode : encode_mode) (bs : list Z) : res (list Z) :=
  match bs with
  | [] => mret []
  | c :: rest =>
      if c =? 37 then
        match rest with
        | a :: b :: rest' =>
            if negb (_is_hex a && _is_hex b) then fail EscapeError
            else if mode_eqb mode ENCODE_HOST && (_unhex a <? 8) && negb ((a =? 50) && (b =? 53))
            then fail EscapeError
            else out ← unescape_bytes mode rest';
                 mret (Z.lor (Z.shiftl (_unhex a) 4) (_unhex b) :: out)
        | _ => fail EscapeError
        end
      else if c =? 43 then
        out ← unescape_bytes mode rest;
        mret ((if mode_eqb mode ENCODE_QUERY_COMPONENT then 32 else 43) :: out)
      else if host_mode mode && (c <? 128) && _should_escape c mode then fail EscapeError
      else out ← unescape_bytes mode rest; mret (c :: out)
  end.

Definition _unescape (s : pystr) (mode : encode_mode) : res pystr :=
  bs ← encode_utf8 s;
  out ← unescape_bytes mode bs;
  decode_utf8 out.

Definition query_escape (s : pystr) : res pystr := _escape s ENCODE_QUERY_COMPONENT.
Definition query_unescape (s : pystr) : res pystr := _unescape s ENCODE_QUERY_COMPONENT.

(** ** User info *)

Record Userinfo := mk_userinfo {
  ui_username : pystr;
  ui_password : pystr;
  ui_password_set : bool
}.

Definition userinfo_str (ui : Userinfo) : res pystr :=
  s ← _escape (ui_username ui) ENCODE_USER_PASSWORD;
  if ui_password_set ui then
    p ← _escape (ui_password ui) ENCODE_USER_PASSWORD;
    mret (s ++ u":" ++ p)
  else mret s.

(** ** Query values *)

Definition Values : Type := pydict (list pystr).

Definition values_get (key : pystr) (v : Values) : pystr :=
  match dict_get key v with Some (x :: _) => x | _ => [] end.
Definition values_set (key value : pystr) (v : Values) : Values := dict_set key [value] v.
Definition values_add (key value : pystr) (v : Values) : Values :=
  dict_set key (default [] (dict_get key v) ++ [value]) v.

Fixpoint mapM_res {A B} (f : A -> res B) (l : list A) : res (list B) :=
  match l with
  | [] => mret []
  | x :: l' => y ← f x; ys ← mapM_res f l'; mret (y :: ys)
  end.

Definition values_encode (v : Values) : res pystr :=
  parts ← mapM_res (fun k =>
    ke ← query_escape k;
    mapM_res (fun x => xe ← query_escape x; mret (ke ++ u"=" ++ xe)) (default [] (dict_get k v)))
    (sorted_strs (dict_keys v));
  mret (join (u"&") (concat parts)).

(** ** Hosts *)

Definition _valid_optional_port (port : pystr) : bool :=
  match port with
  | [] => true
  | c :: t => (c =? 58) && forallb is_digit t
  end.

Definition _split_host_port (hp : pystr) : pystr * pystr :=
  let '(host, port) :=
    match rsplit_char 58 hp with
    | Some (a, t) => if _valid_optional_port (58 :: t) then (a, t) else (hp, [])
    | None => (hp, [])
    end in
  let host := if startswith (u"[") host && endswith (u"]") host then removelast (tail host) else host in
  (host, port).

(** ** URLs *)

Record GoUrl := mk_url {
  url_scheme : pystr;
  url_opaque : pystr;
  url_user : option Userinfo;
  url_host : pystr;
  url_path : pystr;
  url_raw_path : pystr;
  url_force_query : bool;
  url_raw_query : pystr;
  url_fragment : pystr;
  url_raw_fragment : pystr
}.

Definition hostname (x : GoUrl) : pystr := (_split_host_port (url_host x)).1.
Definition port (x : GoUrl) : pystr := (_split_host_port (url_host x)).2.

(** one segment of the query: a pair to add, or nothing *)
Definition query_segment (seg : pystr) (v : Values) : res Values :=
  if char_in 59 seg then mret v
  else if str_eqb seg [] then mret v
  else
    let '(key, _, val) := partition_char 61 seg in
    match (k ← query_unescape key; x ← query_unescape val; mret (k, x)) with
    | inl EscapeError => mret v
    | inl e => fail e
    | inr (k, x) => mret (values_add k x v)
    end.

(** [while q: seg, _, q = q.partition("&")] *)
Fixpoint query_loop (fuel : nat) (q : pystr) (v : Values) : res Values :=
  match fuel, q with
  | O, _ | _, [] => mret v
  | S fuel, _ =>
      let '(seg, _, q') := partition_char 38 q in
      v' ← query_segment seg v;
      query_loop fuel q' v'
  end.

Definition query (x : GoUrl) : res Values := query_loop (length (url_raw_query x)) (url_raw_query x) [].

Definition nonempty (s : pystr) : bool := match s with [] => false | _ => true end.

(** [raw if raw and _unescape(raw) == decoded else _escape(decoded)] *)
Definition escaped_as (raw decoded : pystr) (mode : encode_mode) : res pystr :=
  match raw with
  | [] => _escape decoded mode
  | _ =>
      d ← _unescape raw mode;
      if str_eqb d decoded then mret raw else _escape decoded mode
  end.

Definition _escaped_path (x : GoUrl) : res pystr := escaped_as (url_raw_path x) (url_path x) ENCODE_PATH.
Definition _escaped_fragment (x : GoUrl) : res pystr :=
  escaped_as (url_raw_fragment x) (url_fragment x) ENCODE_FRAGMENT.

Definition url_authority (x : GoUrl) : res pystr :=
  let has_user := match url_user x with Some _ => true | None => false end in
  if nonempty (url_scheme x) || nonempty (url_host x) || has_user then
    usr ← (match url_user x with
           | Some ui => s ← userinfo_str ui; mret (s ++ u"@")
           | None => mret []
           end);
    h ← _escape (url_host x) ENCODE_HOST;
    mret ((if nonempty (url_host x) || nonempty (url_path x) || has_user then u"//" else []) ++ usr ++ h)
  else mret [].

Definition url_str (x : GoUrl) : res pystr :=
  body ← (match url_opaque x with
          | [] =>
              auth ← url_authority x;
              path ← _escaped_path x;
              mret (auth ++ (if nonempty path && negb (startswith (u"/") path) && nonempty (url_host x)
                             then u"/" else []) ++ path)
          | o => mret o
          end);
  frag ← (if nonempty (url_fragment x) then f ← _escaped_fragment x; mret (u"#" ++ f) else mret []);
  mret ((if nonempty (url_scheme x) then url_scheme x ++ u":" else []) ++ body ++
        (if url_force_query x || nonempty (url_raw_query x) then u"?" ++ url_raw_query x else []) ++ frag).

(** ** Parsing *)

(** [pre] is what the loop has passed *)
Fixpoint scheme_loop (raw pre rest : pystr) : res (pystr * pystr) :=
  match rest with
  | [] => mret ([], raw)
  | ch :: r =>
      if is_alpha ch then scheme_loop raw (pre ++ [ch]) r
      else if is_digit ch || char_in ch (u"+-.") then
        match pre with [] => mret ([], raw) | _ => scheme_loop raw (pre ++ [ch]) r end
      else if ch =? 58 then
        match pre with [] => fail UrlError | _ => mret (lower pre, r) end
      else mret ([], raw)
  end.
Definition _get_scheme (raw : pystr) : res (pystr * pystr) := scheme_loop raw [] raw.

Definition _parse_host (host : pystr) : res pystr :=
  if startswith (u"[") host then
    match rsplit_char 93 host with
    | None => fail UrlError
    | Some (_, colon_port) =>
        if _valid_optional_port colon_port then _unescape host ENCODE_HOST else fail UrlError
    end
  else
    match rsplit_char 58 host with
    | Some (_, t) => if _valid_optional_port (58 :: t) then _unescape host ENCODE_HOST else fail UrlError
    | None => _unescape host ENCODE_HOST
    end.

Definition _parse_authority (authority : pystr) : res (option Userinfo * pystr) :=
  match rsplit_char 64 authority with
  | None => h ← _parse_host authority; mret (None, h)
  | Some (userinfo, hp) =>
      host ← _parse_host hp;
      match partition_char 58 userinfo with
      | (_, false, _) =>
          n ← _unescape userinfo ENCODE_USER_PASSWORD;
          mret (Some (mk_userinfo n [] false), host)
      | (uname, true, pword) =>
          n ← _unescape uname ENCODE_USER_PASSWORD;
          p ← _unescape pword ENCODE_USER_PASSWORD;
          mret (Some (mk_userinfo n p true), host)
      end
  end.

(** [decoded] and the raw text to keep when the encoding is not the default one *)
Definition unescape_keep (raw : pystr) (mode : encode_mode) : res (pystr * pystr) :=
  d ← _unescape raw mode;
  e ← _escape d mode;
  mret (d, if str_eqb e raw then [] else raw).

Definition count_char (c : Z) (s : pystr) : nat := length (filter (fun x => x = c) s).

(** the part before the fragment *)
Definition _parse (rest : pystr) : res GoUrl :=
  '(scheme, rest) ← _get_scheme rest;
  let '(force, rest, raw_query) :=
    if endswith (u"?") rest && (count_char 63 rest =? 1)%nat then (true, removelast rest, [])
    else let '(r, _, q) := partition_char 63 rest in (false, r, q) in
  if negb (startswith (u"/") rest) && nonempty scheme then
    mret (mk_url scheme rest None [] [] [] force raw_query [] [])
  else if negb (startswith (u"/") rest) && char_in 58 (partition_char 47 rest).1.1 then fail UrlError
  else
    '(usr, host, rest) ←
      (if (nonempty scheme || negb (startswith (u"///") rest)) && startswith (u"//") rest then
         let '(authority, slash, tail) := partition_char 47 (drop 2 rest) in
         '(usr, host) ← _parse_authority authority;
         mret (usr, host, (if slash then u"/" else []) ++ tail)
       else mret (None, [], rest));
    '(path, raw_path) ← unescape_keep rest ENCODE_PATH;
    mret (mk_url scheme [] usr host path raw_path force raw_query [] []).

Definition is_control (c : Z) : bool := (c <? 32) || (c =? 127).

Definition parse (raw_url : pystr) : res GoUrl :=
  if existsb is_control raw_url then fail UrlError
  else
    let '(rest, sep, frag) := partition_char 35 raw_url in
    x ← _parse rest;
    if sep then
      '(f, rf) ← unescape_keep frag ENCODE_FRAGMENT;
      mret (mk_url (url_scheme x) (url_opaque x) (url_user x) (url_host x) (url_path x) (url_raw_path x)
              (url_force_query x) (url_raw_query x) f rf)
    else mret x.

(** ** Percent encoding reads back *)

Definition bytes256 : list Z := seqZ 0 256.
Definition all_modes : list encode_mode :=
  [ENCODE_PATH; ENCODE_PATH_SEGMENT; ENCODE_HOST; ENCODE_ZONE; ENCODE_USER_PASSWORD;
   ENCODE_QUERY_COMPONENT; ENCODE_FRAGMENT].

(** a check of every byte in every mode *)
Lemma byte_check (P : encode_mode -> Z -> bool) mode b :
  forallb (fun m => forallb (P m) bytes256) all_modes = true -> 0 <= b < 256 -> P mode b = true.
Proof.
  intros H Hb. rewrite forallb_forall in H. specialize (H mode ltac:(by destruct mode; simpl; tauto)).
  rewrite forallb_forall in H. apply H. apply list_elem_of_In, elem_of_seqZ. lia.
Qed.

(** a host is not read back from the escapes of ASCII characters other than [%] *)
Definition readable (mode : encode_mode) (c : Z) : bool :=
  negb (mode_eqb mode ENCODE_HOST) || negb (_should_escape c mode) || (128 <=? c) || (c =? 37).

Definition escaped_ok (mode : encode_mode) (b : Z) : bool :=
  let h := b / 16 mod 16 in let l := b mod 16 in
  _is_hex (HEX_digit h) && _is_hex (HEX_digit l) &&
  (Z.lor (Z.shiftl (_unhex (HEX_digit h)) 4) (_unhex (HEX_digit l)) =? b) &&
  (negb (readable mode b) || negb (_should_escape b mode) ||
   negb (mode_eqb mode ENCODE_HOST && (_unhex (HEX_digit h) <? 8) &&
         negb ((HEX_digit h =? 50) && (HEX_digit l =? 53)))).

Lemma escaped_ok_all mode b : 0 <= b < 256 -> escaped_ok mode b = true.
Proof. apply byte_check. by vm_compute. Qed.

(** what is not escaped: never [%], never [+] in a query, always ASCII *)
Definition kept_ok (mode : encode_mode) (b : Z) : bool :=
  _should_escape b mode ||
  (negb (b =? 37) && negb ((b =? 43) && mode_eqb mode ENCODE_QUERY_COMPONENT) && (b <? 128)).

Lemma kept_ok_all mode b : 0 <= b < 256 -> kept_ok mode b = true.
Proof. apply byte_check. by vm_compute. Qed.

Lemma escape_byte_step mode b rest :
  0 <= b < 256 -> readable mode b = true ->
  unescape_bytes mode (escape_byte mode b ++ rest) = (out ← unescape_bytes mode rest; mret (b :: out)).
Proof.
  intros Hb Hr. unfold escape_byte.
  destruct (mode_eqb mode ENCODE_QUERY_COMPONENT && (b =? 32)) eqn:Eq.
  { bool_prop. subst. cbn [app unescape_bytes]. by rewrite H. }
  pose proof (escaped_ok_all mode b Hb) as He. pose proof (kept_ok_all mode b Hb) as Hk.
  unfold escaped_ok, kept_ok in *. destruct (_should_escape b mode) eqn:Es.
  - unfold HEX2. cbn [app unescape_bytes]. cbv zeta in He. bool_prop.
    rewrite H, H2, H1. simpl. rewrite Hr in H0. simpl in H0. bool_prop. by rewrite H0.
  - cbn [app unescape_bytes]. simpl in Hk. bool_prop.
    destruct (Z.eqb_spec b 37); [done|]. destruct (Z.eqb_spec b 43) as [->|].
    + by destruct (mode_eqb mode ENCODE_QUERY_COMPONENT).
    + by rewrite Es, andb_false_r.
Qed.

Lemma unescape_bytes_app mode bs :
  Forall (fun b => 0 <= b < 256 /\ readable mode b = true) bs ->
  unescape_bytes mode (flat_map (escape_byte mode) bs) = inr bs.
Proof.
  induction 1 as [|b bs [Hb Hr] _ IH]; [done|]. cbn [flat_map].
  rewrite escape_byte_step, IH by done. done.
Qed.

Lemma utf8_bytes_readable mode s :
  forallb scalar s = true -> forallb (readable mode) s = true ->
  Forall (fun b => 0 <= b < 256 /\ readable mode b = true) (utf8_encode s).
Proof.
  intros Hs Hr. rewrite forallb_forall in Hs, Hr. apply Forall_forall. intros b Hb.
  apply list_elem_of_In, in_flat_map in Hb as (c & Hc & Hb%list_elem_of_In).
  destruct (utf8_char_bytes c b (Hs c Hc) Hb) as [Hrange Heq]. split; [done|].
  destruct (Z.ltb_spec b 128) as [Hlt|Hge]; [rewrite (Heq Hlt); by apply Hr|].
  unfold readable. assert ((128 <=? b) = true) as -> by (by apply Z.leb_le).
  by rewrite orb_true_r.
Qed.

(** the printable ASCII characters, except for the quote and the backslash *)
Definition url_char (c : Z) : bool := (33 <=? c) && (c <? 127).

Definition escape_clean (mode : encode_mode) (b : Z) : bool := forallb url_char (escape_byte mode b).

Lemma escape_byte_clean mode b : 0 <= b < 256 -> forallb url_char (escape_byte mode b) = true.
Proof. apply (byte_check escape_clean). by vm_compute. Qed.

Lemma utf8_range s b : forallb scalar s = true -> b ∈ utf8_encode s -> 0 <= b < 256.
Proof.
  intros Hs Hb. rewrite forallb_forall in Hs.
  apply list_elem_of_In, in_flat_map in Hb as (c & Hc & Hb%list_elem_of_In).
  by destruct (utf8_char_bytes c b (Hs c Hc) Hb).
Qed.

Lemma escape_inr s mode :
  forallb scalar s = true -> _escape s mode = inr (flat_map (escape_byte mode) (utf8_encode s)).
Proof. intros Hs. unfold _escape, encode_utf8. by rewrite Hs. Qed.

Lemma escape_clean_text s mode t : _escape s mode = inr t -> forallb url_char t = true.
Proof.
  unfold _escape, encode_utf8. destruct (forallb scalar s) eqn:Hs; [|done]. intros [= <-].
  apply forallb_forall. intros c Hc. apply in_flat_map in Hc as (b & Hb & Hc).
  pose proof (escape_byte_clean mode b) as H. rewrite forallb_forall in H. apply H; [|done].
  eapply utf8_range; [exact Hs|]. by apply list_elem_of_In.
Qed.

Lemma ascii_utf8 t : forallb url_char t = true -> forallb scalar t = true /\ utf8_encode t = t.
Proof.
  induction t as [|c t IH]; [done|]. simpl. unfold url_char at 1. intros H. bool_prop.
  destruct (IH H0) as [-> IHt]. split.
  - unfold scalar, is_surrogate. by bool_lia.
  - unfold utf8_char. assert ((c <? 128) = true) as -> by (apply Z.ltb_lt; lia). simpl. by rewrite IHt.
Qed.

(** percent encoding reads back in every mode, for every text that can be
    encoded as UTF-8; a host is read back when its characters are host
    characters, [%] or not ASCII.  The encoded text is printable ASCII. *)
Lemma escape_reads_back s mode :
  forallb scalar s = true -> forallb (readable mode) s = true ->
  exists t, _escape s mode = inr t /\ _unescape t mode = inr s /\ forallb url_char t = true.
Proof.
  intros Hs Hr. eexists. split; [by apply escape_inr|]. set (t := flat_map _ _).
  assert (forallb url_char t = true) as Hc by (by apply (escape_clean_text s mode), escape_inr).
  split; [|done]. destruct (ascii_utf8 t Hc) as [Hsc Hu].
  unfold _unescape, encode_utf8. rewrite Hsc. unfold mbind at 1, res_bind at 1. rewrite Hu.
  unfold t. rewrite unescape_bytes_app by by apply utf8_bytes_readable.
  unfold mbind, res_bind, decode_utf8, utf8_decode. rewrite utf8_roundtrip; [done|].
  by apply forallb_Forall.
Qed.

(** ** What an encoded text cannot hold *)

(** the delimiters each mode escapes *)
Definition delimiters (mode : encode_mode) : pystr :=
  match mode with
  | ENCODE_PATH => u"?#"
  | ENCODE_PATH_SEGMENT => u"/;,?#"
  | ENCODE_HOST | ENCODE_ZONE => u"/?#@"
  | ENCODE_USER_PASSWORD => u"@/?:#"
  | ENCODE_QUERY_COMPONENT => u"$&,/:;=?@#"
  | ENCODE_FRAGMENT => u"#"
  end.

Definition escape_avoids (mode : encode_mode) (b : Z) : bool :=
  forallb (fun c => negb (char_in c (delimiters mode))) (escape_byte mode b).

Lemma escape_avoids_all mode b : 0 <= b < 256 -> escape_avoids mode b = true.
Proof. apply byte_check. by vm_compute. Qed.

Lemma escape_no_delimiter s mode t d :
  _escape s mode = inr t -> char_in d (delimiters mode) = true -> d ∉ t.
Proof.
  unfold _escape, encode_utf8. destruct (forallb scalar s) eqn:Hs; [|done]. intros [= <-] Hd Hin.
  apply list_elem_of_In, in_flat_map in Hin as (b & Hb%list_elem_of_In & Hc).
  pose proof (escape_avoids_all mode b (utf8_range s b Hs Hb)) as H. unfold escape_avoids in H.
  rewrite forallb_forall in H. specialize (H d Hc). by rewrite Hd in H.
Qed.

Lemma escape_nil s mode : _escape s mode = inr [] -> s = [].
Proof.
  destruct s as [|c s]; [done|]. unfold _escape, encode_utf8. destruct (forallb scalar _); [|done].
  intros [= H]. change (utf8_encode (c :: s)) with (utf8_char c ++ utf8_encode s) in H.
  rewrite flat_map_app in H. apply app_eq_nil in H as [H _].
  assert (utf8_char c <> []) as Hne by (unfold utf8_char; by repeat case_match).
  destruct (utf8_char c) as [|b bs]; [done|]. simpl in H. apply app_eq_nil in H as [H _].
  unfold escape_byte in H. by repeat case_match.
Qed.

(** ** Query values read back *)

Lemma query_loop_nil fuel v : query_loop fuel [] v = inr v.
Proof. by destruct fuel. Qed.

Fixpoint add_segments (parts : list pystr) (v : Values) : res Values :=
  match parts with
  | [] => mret v
  | p :: parts' => v' ← query_segment p v; add_segments parts' v'
  end.

Lemma query_loop_join parts v fuel :
  Forall (fun p => p <> [] /\ 38 ∉ p) parts -> (length (join (u"&") parts) <= fuel)%nat ->
  query_loop fuel (join (u"&") parts) v = add_segments parts v.
Proof.
  revert v fuel. induction parts as [|p parts IH]; intros v fuel H Hf; [apply query_loop_nil|].
  apply Forall_cons in H as [[Hp Hn] H]. rewrite join_cons in *. rewrite length_app in Hf.
  destruct p as [|c p]; [done|]. destruct fuel as [|fuel]; [simpl in Hf; lia|].
  destruct parts as [|p2 parts].
  - rewrite app_nil_r in *. cbn [query_loop add_segments]. rewrite partition_char_none by done.
    destruct (query_segment (c :: p) v) as [e|v']; [done|]. apply query_loop_nil.
  - change (u"&" ++ ?x) with (38 :: x) in *. set (rest := join (u"&") (p2 :: parts)) in *.
    assert (length rest <= fuel)%nat as Hle by (simpl in Hf; lia).
    cbn [query_loop add_segments app]. change (c :: p ++ 38 :: rest) with ((c :: p) ++ 38 :: rest).
    rewrite partition_char_app by done. destruct (query_segment (c :: p) v) as [e|v']; [done|].
    by apply IH.
Qed.

Lemma query_pair k x ke xe v :
  forallb scalar k = true -> forallb scalar x = true ->
  query_escape k = inr ke -> query_escape x = inr xe ->
  query_segment (ke ++ u"=" ++ xe) v = inr (values_add k x v) /\
  ke ++ u"=" ++ xe <> [] /\ 38 ∉ ke ++ u"=" ++ xe.
Proof.
  intros Hk Hx Ek Ex.
  destruct (escape_reads_back k ENCODE_QUERY_COMPONENT Hk) as (t & Et & Uk & _).
  { by apply forallb_forall. }
  destruct (escape_reads_back x ENCODE_QUERY_COMPONENT Hx) as (t' & Et' & Ux & _).
  { by apply forallb_forall. }
  unfold query_escape in *. rewrite Et in Ek. rewrite Et' in Ex. simplify_eq.
  pose proof (fun d => escape_no_delimiter _ _ _ d Et) as Nk.
  pose proof (fun d => escape_no_delimiter _ _ _ d Et') as Nx.
  change (u"=") with [61]. cbn [app].
  assert (forall d, char_in d (delimiters ENCODE_QUERY_COMPONENT) = true -> d <> 61 -> d ∉ ke ++ 61 :: xe) as Hno.
  { intros d Hd Hne. rewrite elem_of_app, elem_of_cons. intros [?|[?|?]]; [by eapply Nk|done|by eapply Nx]. }
  split_and!; [|by destruct ke|by apply Hno].
  unfold query_segment, char_in, str_eqb.
  rewrite bool_decide_eq_false_2 by (by apply Hno). rewrite bool_decide_eq_false_2 by (by destruct ke).
  rewrite partition_char_app by (by apply Nk). unfold query_unescape, mbind, res_bind. by rewrite Uk, Ux.
Qed.

(** the values with their keys in order *)
Definition sorted_values (v : Values) : Values :=
  (fun k => (k, default [] (dict_get k v))) <$> sorted_strs (dict_keys v).

Definition values_ok (v : Values) : Prop :=
  NoDup (dict_keys v) /\
  Forall (fun kv => forallb scalar kv.1 = true /\ kv.2 <> [] /\ Forall (fun x => forallb scalar x = true) kv.2) v.

Lemma mapM_res_inr {A B} (f : A -> res B) (P : A -> B -> Prop) l :
  Forall (fun x => exists y, f x = inr y /\ P x y) l -> exists ys, mapM_res f l = inr ys /\ Forall2 P l ys.
Proof.
  induction 1 as [|x l (y & E & HP) _ (ys & Es & HPs)]; [by exists []|].
  exists (y :: ys). cbn [mapM_res]. rewrite E. unfold mbind, res_bind. rewrite Es. split; [done|]. by constructor.
Qed.

(** the encoded pairs of one key *)
Definition encodes (k : pystr) (xs parts : list pystr) : Prop :=
  Forall (fun p => p <> [] /\ 38 ∉ p) parts /\
  forall v, add_segments parts v = inr (foldl (fun v x => values_add k x v) v xs).

Lemma encode_key k xs :
  forallb scalar k = true -> Forall (fun x => forallb scalar x = true) xs ->
  exists parts, (ke ← query_escape k;
    mapM_res (fun x => xe ← query_escape x; mret (ke ++ u"=" ++ xe)) xs) = inr parts /\ encodes k xs parts.
Proof.
  intros Hk Hxs. assert (exists ke, query_escape k = inr ke) as [ke Ek].
  { eexists. by apply escape_inr. }
  rewrite Ek. unfold mbind at 1, res_bind at 1.
  assert (Forall (fun x => exists y, (xe ← query_escape x; mret (ke ++ u"=" ++ xe)) = inr y /\
    (forall v, query_segment y v = inr (values_add k x v)) /\ y <> [] /\ 38 ∉ y) xs) as H.
  { eapply Forall_impl; [exact Hxs|]. intros x Hx. assert (exists xe, query_escape x = inr xe) as [xe Ex].
    { eexists. by apply escape_inr. }
    exists (ke ++ u"=" ++ xe). rewrite Ex. split; [done|]. split.
    - intros v. by apply (query_pair k x).
    - by apply (query_pair k x ke xe []). }
  destruct (mapM_res_inr _ _ _ H) as (parts & -> & HF). exists parts. split; [done|]. split.
  - clear -HF. induction HF as [|x y xs ys (_ & Hy) _ IH]; by constructor.
  - clear -HF. induction HF as [|x y xs ys (Hy & _) _ IH]; intros v; [done|].
    cbn [add_segments foldl]. rewrite Hy. apply IH.
Qed.

Lemma add_segments_app l1 l2 v :
  add_segments (l1 ++ l2) v = (v' ← add_segments l1 v; add_segments l2 v').
Proof.
  revert v. induction l1 as [|p l1 IH]; intros v; [done|]. cbn [app add_segments].
  destruct (query_segment p v) as [e|v']; [done|]. apply IH.
Qed.

Lemma add_all_again k ys xs v :
  k ∉ dict_keys v ->
  foldl (fun v x => values_add k x v) (v ++ [(k, ys)]) xs = v ++ [(k, ys ++ xs)].
Proof.
  intros Hk. revert ys. induction xs as [|x xs IH]; intros ys; [by rewrite app_nil_r|]. cbn [foldl].
  assert (values_add k x (v ++ [(k, ys)]) = v ++ [(k, ys ++ [x])]) as ->.
  { unfold values_add. clear -Hk. induction v as [|[k' y] v IH]; simpl.
    - by rewrite !decide_True by done.
    - apply not_elem_of_cons in Hk as [Hne Hk]. rewrite !decide_False by done. f_equal. by apply IH. }
  by rewrite IH, <- app_assoc.
Qed.

Lemma add_all k xs v :
  k ∉ dict_keys v -> xs <> [] ->
  foldl (fun v x => values_add k x v) v xs = v ++ [(k, xs)].
Proof.
  intros Hk Hxs. destruct xs as [|x xs]; [done|]. cbn [foldl].
  assert (values_add k x v = v ++ [(k, [x])]) as ->.
  { unfold values_add. pose proof Hk as Hg. apply dict_get_None in Hg. rewrite Hg. by apply dict_set_fresh. }
  by apply add_all_again.
Qed.

Lemma sorted_keys_fold v keys parts acc :
  NoDup (dict_keys acc ++ keys) ->
  Forall2 (fun k ps => encodes k (default [] (dict_get k v)) ps /\ default [] (dict_get k v) <> []) keys parts ->
  add_segments (concat parts) acc = inr (acc ++ ((fun k => (k, default [] (dict_get k v))) <$> keys)).
Proof.
  intros Hn H. revert acc Hn. induction H as [|k ps keys parts [[_ Hk] Hne] _ IH]; intros acc Hn.
  { by rewrite app_nil_r. }
  cbn [concat]. rewrite add_segments_app, Hk. unfold mbind at 1, res_bind.
  assert (k ∉ dict_keys acc) as Hfresh.
  { intros Hin. apply NoDup_app in Hn as (_ & Hd & _). apply (Hd k Hin). by left. }
  rewrite add_all by done. rewrite IH.
  - by rewrite <- app_assoc.
  - unfold dict_keys in *. rewrite fmap_app. by rewrite <- app_assoc.
Qed.

Lemma sorted_values_get k v : dict_get k (sorted_values v) = dict_get k v.
Proof.
  unfold sorted_values. destruct (dict_get k v) as [xs|] eqn:E.
  - assert (k ∈ sorted_strs (dict_keys v)) as Hin.
    { apply py_sorted_elem. apply dict_has_spec. unfold dict_has. by rewrite E. }
    induction (sorted_strs (dict_keys v)) as [|k' l IH]; [by apply elem_of_nil in Hin|]. simpl.
    case_decide as Hk; [subst; by rewrite E|]. apply IH. set_solver.
  - apply dict_get_None in E. apply dict_get_None. unfold dict_keys at 1.
    rewrite <- list_fmap_compose. intros (k' & -> & Hin)%list_elem_of_fmap. apply E.
    by apply py_sorted_elem in Hin.
Qed.

Lemma join_parts_ok v keys parts :
  Forall2 (fun k ps => encodes k (default [] (dict_get k v)) ps /\ default [] (dict_get k v) <> []) keys parts ->
  Forall (fun p => p <> [] /\ 38 ∉ p) (concat parts).
Proof. induction 1 as [|k ps keys parts [[H _] _] _ IH]; [constructor|]. by apply Forall_app. Qed.

Lemma values_encode_query v x :
  values_ok v ->
  exists t, values_encode v = inr t /\
    (url_raw_query x = t -> query x = inr (sorted_values v)) /\
    forall k, dict_get k (sorted_values v) = dict_get k v.
Proof.
  intros [Hn Hv]. unfold values_encode.
  assert (Forall (fun k => exists ps, (ke ← query_escape k; mapM_res (fun x => xe ← query_escape x;
      mret (ke ++ u"=" ++ xe)) (default [] (dict_get k v))) = inr ps /\
      (encodes k (default [] (dict_get k v)) ps /\ default [] (dict_get k v) <> []))
    (sorted_strs (dict_keys v))) as H.
  { apply Forall_forall. intros k Hk. apply py_sorted_elem in Hk. apply dict_has_spec in Hk.
    unfold dict_has in Hk. destruct (dict_get k v) as [xs|] eqn:E; [|done]. simpl.
    pose proof (proj1 (Forall_forall _ _) Hv (k, xs) (dict_get_elem _ _ _ E)) as (Hs & Hne & Hxs).
    destruct (encode_key k xs Hs Hxs) as (ps & Eps & Hps). exists ps. auto. }
  destruct (mapM_res_inr _ _ _ H) as (parts & -> & HF). eexists. split; [done|].
  split; [|intros k; exact (sorted_values_get k v)]. intros Eq. unfold query. rewrite Eq.
  rewrite query_loop_join; [|exact (join_parts_ok v _ _ HF)|done].
  rewrite (sorted_keys_fold v (sorted_strs (dict_keys v)) parts []); [done| |done].
  simpl. unfold sorted_strs. by rewrite py_sorted_perm.
Qed.

(** query values that are encoded into a URL are read back: the same lists of
    values for the same keys, the keys in code point order. *)
Theorem values_read_back v x :
  values_ok v ->
  exists t, values_encode v = inr t /\
    (url_raw_query x = t -> query x = inr (sorted_values v)) /\
    forall k, dict_get k (sorted_values v) = dict_get k v.
Proof. apply values_encode_query. Qed.

(** ** Canonical URLs read back *)

(** the text [_escape] returns *)
Definition enc (mode : encode_mode) (s : pystr) : pystr := flat_map (escape_byte mode) (utf8_encode s).

Lemma enc_app mode a b : enc mode (a ++ b) = enc mode a ++ enc mode b.
Proof. unfold enc, utf8_encode. by rewrite !flat_map_app. Qed.

Lemma enc_escape mode s : forallb scalar s = true -> _escape s mode = inr (enc mode s).
Proof. apply escape_inr. Qed.

Lemma enc_char_kept mode c :
  (0 <=? c) && (c <? 128) && negb (_should_escape c mode) = true -> enc mode [c] = [c].
Proof.
  intros H. bool_prop. unfold enc, utf8_encode. simpl. unfold utf8_char.
  assert ((c <? 128) = true) as -> by (by apply Z.ltb_lt). simpl. unfold escape_byte. rewrite H0.
  destruct (mode_eqb mode ENCODE_QUERY_COMPONENT && (c =? 32)) eqn:E; [|done].
  bool_prop. subst. by destruct mode.
Qed.

(** a text of characters that are kept is its own encoding *)
Definition plain (mode : encode_mode) (s : pystr) : bool :=
  forallb (fun c => (0 <=? c) && (c <? 128) && negb (_should_escape c mode)) s.

Lemma enc_plain mode s : plain mode s = true -> enc mode s = s.
Proof.
  induction s as [|c s IH]; [done|]. intros [Hc Hs]%andb_true_iff.
  change (c :: s) with ([c] ++ s). rewrite enc_app, IH by done. by rewrite enc_char_kept.
Qed.

Lemma unescape_keep_enc mode s :
  forallb scalar s = true -> forallb (readable mode) s = true ->
  unescape_keep (enc mode s) mode = inr (s, []).
Proof.
  intros Hs Hr. destruct (escape_reads_back s mode Hs Hr) as (t & Et & Ut & _).
  rewrite enc_escape in Et by done. injection Et as <-. unfold unescape_keep. rewrite Ut.
  unfold mbind, res_bind. rewrite enc_escape by done. unfold str_eqb. by rewrite bool_decide_eq_true_2.
Qed.

Lemma unescape_enc mode s :
  forallb scalar s = true -> forallb (readable mode) s = true -> _unescape (enc mode s) mode = inr s.
Proof.
  intros Hs Hr. destruct (escape_reads_back s mode Hs Hr) as (t & Et & Ut & _).
  rewrite enc_escape in Et by done. by injection Et as <-.
Qed.

Lemma readable_all mode s : mode <> ENCODE_HOST -> forallb (readable mode) s = true.
Proof.
  intros Hm. apply forallb_forall. intros c _. unfold readable, mode_eqb.
  by rewrite bool_decide_eq_false_2.
Qed.

(** *** The scheme *)

Definition scheme_char (c : Z) : bool := is_lower c || is_digit c || char_in c (u"+-.").
Definition scheme_ok (s : pystr) : bool :=
  match s with c :: r => is_lower c && forallb scheme_char r | [] => false end.

Lemma scheme_char_props c :
  scheme_char c = true -> lower_char c = c /\ url_char c = true /\ c <> 58 /\ c <> 35 /\
    (is_alpha c || (is_digit c || char_in c (u"+-."))) = true.
Proof.
  unfold scheme_char, is_alpha, is_lower, is_upper, is_digit, lower_char, url_char. intros H.
  assert ((97 <= c <= 122) \/ (48 <= c <= 57) \/ c = 43 \/ c = 45 \/ c = 46) as Hc.
  { apply orb_true_iff in H as [H|H]; [apply orb_true_iff in H as [H|H]; bool_prop; lia|].
    unfold char_in in H. apply bool_decide_eq_true in H. change (u"+-.") with [43; 45; 46] in H. set_unfold in H. lia. }
  split_and!; try lia.
  all: destruct Hc as [?|[?|[->|[->| ->]]]]; try done; by bool_lia.
Qed.

Lemma scheme_loop_rest raw pre s r :
  pre <> [] -> forallb scheme_char s = true ->
  scheme_loop raw pre (s ++ 58 :: r) = inr (lower (pre ++ s), r).
Proof.
  revert pre. induction s as [|c s IH]; intros pre Hp H.
  - simpl. rewrite app_nil_r. by destruct pre.
  - simpl in H. apply andb_true_iff in H as [Hc Hs]. destruct (scheme_char_props c Hc) as (_ & _ & H58 & _ & Ho).
    cbn [app scheme_loop]. destruct (is_alpha c) eqn:Ea.
    + rewrite IH by (done || by destruct pre). by rewrite <- app_assoc.
    + simpl in Ho. rewrite Ho. destruct pre as [|p pre]; [done|]. rewrite IH by done. by rewrite <- app_assoc.
Qed.

Lemma lower_scheme s : forallb scheme_char s = true -> lower s = s.
Proof.
  induction s as [|c s IH]; [done|]. simpl. intros [Hc Hs]%andb_true_iff.
  unfold lower in *. simpl. rewrite IH by done. by destruct (scheme_char_props c Hc) as [-> _].
Qed.

Lemma get_scheme_ok s r : scheme_ok s = true -> _get_scheme (s ++ 58 :: r) = inr (s, r).
Proof.
  destruct s as [|c s]; [done|]. simpl. intros [Hc Hs]%andb_true_iff. unfold _get_scheme.
  cbn [scheme_loop app]. assert (is_alpha c = true) as -> by (unfold is_alpha; by rewrite Hc).
  rewrite scheme_loop_rest by done. rewrite lower_scheme; [done|].
  simpl. unfold scheme_char at 1. by rewrite Hc.
Qed.

(** *** The host *)

Definition host_ok (h : pystr) : bool :=
  forallb scalar h && forallb (readable ENCODE_HOST) h &&
  (if startswith (u"[") h
   then match rsplit_char 93 h with Some (_, t) => _valid_optional_port t | None => false end
   else match rsplit_char 58 h with Some (_, t) => _valid_optional_port (58 :: t) | None => true end).

(** the structure characters of a host only stand for themselves *)
Definition host_marks (_ : encode_mode) (b : Z) : bool :=
  forallb (fun d => (b =? d) || negb (char_in d (escape_byte ENCODE_HOST b))) [58; 91; 93].

Lemma host_mark_notin d h :
  d ∈ [58; 91; 93] -> forallb scalar h = true -> d ∉ h -> d ∉ enc ENCODE_HOST h.
Proof.
  intros Hd Hs Hn Hin. apply list_elem_of_In, in_flat_map in Hin as (b & Hb & Hc).
  assert (host_marks ENCODE_HOST b = true) as H.
  { apply byte_check; [by vm_compute|]. eapply utf8_range; [exact Hs|by apply list_elem_of_In]. }
  unfold host_marks in H. rewrite forallb_forall in H. specialize (H d ltac:(by apply list_elem_of_In)).
  apply orb_true_iff in H as [H|H]; bool_prop.
  - subst b. apply in_flat_map in Hb as (c & Hc' & Hb). rewrite forallb_forall in Hs.
    destruct (utf8_char_bytes c d (Hs c Hc')) as [_ Heq]; [by apply list_elem_of_In|].
    apply Hn. rewrite Heq by (set_unfold in Hd; lia). by apply list_elem_of_In.
  - unfold char_in in H. rewrite bool_decide_eq_false in H. apply H. by apply list_elem_of_In.
Qed.

Lemma host_mark_enc d : d ∈ [58; 91; 93] -> enc ENCODE_HOST [d] = [d].
Proof. intros Hd. apply enc_char_kept. set_unfold in Hd. by destruct Hd as [->|[->|[->|[]]]]. Qed.

Lemma rsplit_enc d h a t :
  d ∈ [58; 91; 93] -> forallb scalar h = true -> rsplit_char d h = Some (a, t) ->
  rsplit_char d (enc ENCODE_HOST h) = Some (enc ENCODE_HOST a, enc ENCODE_HOST t).
Proof.
  intros Hd Hs [-> Hn]%rsplit_char_Some. change (d :: t) with ([d] ++ t).
  rewrite !enc_app, host_mark_enc by done. apply rsplit_char_app. apply host_mark_notin; [done| |done].
  rewrite forallb_app in Hs. bool_prop. cbn [forallb] in H0. by bool_prop.
Qed.

Lemma port_enc t : _valid_optional_port t = true -> enc ENCODE_HOST t = t.
Proof.
  destruct t as [|c t]; [done|]. simpl. intros [Hc Ht]%andb_true_iff. apply enc_plain.
  bool_prop. subst. unfold plain. cbn [forallb]. apply andb_true_iff. split; [done|].
  eapply forallb_mono; [|exact Ht]. intros x Hx. unfold _should_escape. rewrite Hx, orb_true_r.
  unfold is_digit in Hx. bool_prop. by bool_lia.
Qed.

Lemma startswith_enc h :
  forallb scalar h = true -> startswith (u"[") (enc ENCODE_HOST h) = startswith (u"[") h.
Proof.
  intros Hs. destruct h as [|c h]; [done|]. change (c :: h) with ([c] ++ h). rewrite enc_app.
  destruct (Z.eqb_spec c 91) as [->|Hc]; [by rewrite host_mark_enc by set_solver|].
  assert (91 ∉ enc ENCODE_HOST [c]) as Hn.
  { apply host_mark_notin; [set_solver| |set_solver]. simpl in *. bool_prop. by rewrite H. }
  destruct (enc ENCODE_HOST [c]) as [|x l] eqn:E.
  - assert (_escape [c] ENCODE_HOST = inr []) as E'.
    { rewrite enc_escape, E; [done|]. simpl in *. bool_prop. by rewrite H. }
    by apply escape_nil in E'.
  - change (u"[") with [91]. cbn [startswith app]. destruct (Z.eqb_spec 91 x); [set_solver|].
    destruct (Z.eqb_spec 91 c); [lia|done].
Qed.

Lemma parse_host_enc h : host_ok h = true -> _parse_host (enc ENCODE_HOST h) = inr h.
Proof.
  unfold host_ok. intros H. bool_prop. pose proof (unescape_enc ENCODE_HOST h H H1) as Hu.
  unfold _parse_host. rewrite startswith_enc by done. destruct (startswith (u"[") h).
  - destruct (rsplit_char 93 h) as [[a t]|] eqn:E; [|done].
    rewrite (rsplit_enc 93 h a t) by (done || set_solver). by rewrite port_enc, H0.
  - destruct (rsplit_char 58 h) as [[a t]|] eqn:E.
    + rewrite (rsplit_enc 58 h a t) by (done || set_solver). pose proof (port_enc _ H0) as Hp.
      change (58 :: t) with ([58] ++ t) in Hp. rewrite enc_app, host_mark_enc in Hp by set_solver.
      simpl in Hp. injection Hp as Hp. by rewrite Hp, H0.
    + apply rsplit_char_None in E. assert (58 ∉ enc ENCODE_HOST h) as Hn by (by apply host_mark_notin; [set_solver|..]).
      apply rsplit_char_None in Hn. by rewrite Hn.
Qed.

(** *** The user and the host *)

Definition user_ok (usr : option Userinfo) : bool :=
  match usr with
  | None => true
  | Some ui => forallb scalar (ui_username ui) && forallb scalar (ui_password ui) &&
      (ui_password_set ui || negb (nonempty (ui_password ui)))
  end.

(** the text before the host *)
Definition user_text (usr : option Userinfo) : pystr :=
  match usr with
  | None => []
  | Some ui =>
      enc ENCODE_USER_PASSWORD (ui_username ui) ++
      (if ui_password_set ui then 58 :: enc ENCODE_USER_PASSWORD (ui_password ui) else []) ++ [64]
  end.

Lemma user_text_str usr :
  user_ok usr = true ->
  (match usr with Some ui => s ← userinfo_str ui; mret (s ++ u"@") | None => mret [] end) = inr (user_text usr).
Proof.
  destruct usr as [[n p b]|]; [|done]. cbn [user_ok user_text ui_username ui_password ui_password_set].
  intros H. bool_prop. unfold userinfo_str. cbn [ui_username ui_password ui_password_set].
  rewrite !enc_escape by done. unfold mbind, res_bind. destruct b; [|done].
  unfold mret, res_ret. f_equal. change (u":" ++ ?t) with (58 :: t).
  by rewrite <- app_assoc.
Qed.

Lemma host_scalar h : host_ok h = true -> forallb scalar h = true.
Proof. unfold host_ok. intros H. by bool_prop. Qed.

Lemma enc_notin mode d s : forallb scalar s = true -> char_in d (delimiters mode) = true -> d ∉ enc mode s.
Proof. intros Hs. apply (escape_no_delimiter s). by apply enc_escape. Qed.

Lemma parse_authority_ok usr h :
  user_ok usr = true -> host_ok h = true ->
  _parse_authority (user_text usr ++ enc ENCODE_HOST h) = inr (usr, h).
Proof.
  intros Hu Hh. assert (64 ∉ enc ENCODE_HOST h) as H64.
  { apply enc_notin; [by apply host_scalar|done]. }
  unfold _parse_authority. destruct usr as [[n p b]|].
  2: { simpl. apply rsplit_char_None in H64. by rewrite H64, parse_host_enc. }
  simpl in *. bool_prop.
  set (txt := enc ENCODE_USER_PASSWORD n ++ (if b then 58 :: enc ENCODE_USER_PASSWORD p else [])).
  replace ((enc ENCODE_USER_PASSWORD n ++ (if b then 58 :: enc ENCODE_USER_PASSWORD p else []) ++ [64]) ++ enc ENCODE_HOST h)
    with (txt ++ 64 :: enc ENCODE_HOST h) by (unfold txt; by rewrite <- !app_assoc).
  rewrite rsplit_char_app by done. unfold mbind at 1, res_bind at 1. rewrite parse_host_enc by done.
  assert (58 ∉ enc ENCODE_USER_PASSWORD n) as H58 by (by apply enc_notin).
  unfold txt. destruct b.
  - rewrite partition_char_app by done. unfold mbind, res_bind.
    by rewrite !unescape_enc by (done || by apply readable_all).
  - rewrite app_nil_r, partition_char_none by done. unfold mbind, res_bind.
    rewrite unescape_enc by (done || by apply readable_all). simpl in H0. by destruct p.
Qed.

Lemma authority_no_slash usr h : user_ok usr = true -> host_ok h = true -> 47 ∉ user_text usr ++ enc ENCODE_HOST h.
Proof.
  intros Hu Hh. apply not_elem_of_app. split; [|apply enc_notin; [by apply host_scalar|done]].
  destruct usr as [[n p b]|]; [|apply not_elem_of_nil]. simpl in *. bool_prop.
  rewrite !not_elem_of_app, list_elem_of_singleton. split_and!; [by apply enc_notin| |done].
  destruct b; [|apply not_elem_of_nil]. rewrite not_elem_of_cons. split; [done|by apply enc_notin].
Qed.

(** *** The query and the fragment *)

Lemma count_char_notin c s : c ∉ s -> count_char c s = 0%nat.
Proof.
  unfold count_char. induction s as [|x s IH]; [done|]. intros [Hx Hs]%not_elem_of_cons.
  rewrite filter_cons_False by done. by apply IH.
Qed.

Lemma count_char_app c s t : count_char c (s ++ t) = (count_char c s + count_char c t)%nat.
Proof. unfold count_char. by rewrite filter_app, length_app. Qed.

(** the split of the text before the fragment at its query *)
Definition split_query (rest : pystr) : bool * pystr * pystr :=
  if endswith (u"?") rest && (count_char 63 rest =? 1)%nat then (true, removelast rest, [])
  else let '(r, _, q) := partition_char 63 rest in (false, r, q).

Lemma split_query_ok hier force raw :
  63 ∉ hier -> (force = true -> raw = []) ->
  split_query (hier ++ (if force || nonempty raw then u"?" ++ raw else [])) = (force, hier, raw).
Proof.
  intros Hh Hf. unfold split_query. change (u"?") with [63]. destruct force.
  - rewrite (Hf eq_refl). simpl. rewrite endswith_snoc, count_char_app, count_char_notin by done.
    simpl. by rewrite removelast_last.
  - destruct raw as [|c raw]; simpl.
    + rewrite app_nil_r, count_char_notin, andb_false_r by done. by rewrite partition_char_none.
    + rewrite partition_char_app by done.
      destruct (endswith [63] (hier ++ 63 :: c :: raw)) eqn:Ee; [|done].
      assert (exists s, c :: raw = s ++ [63]) as [s Es].
      { destruct (exists_last (l := c :: raw)) as (l & y & El); [done|]. exists l. rewrite El in *.
        change (63 :: l ++ [y]) with ((63 :: l) ++ [y]) in Ee. rewrite app_assoc, endswith_snoc in Ee.
        bool_prop. by subst. }
      rewrite Es. change (63 :: s ++ [63]) with ([63] ++ s ++ [63]).
      rewrite !count_char_app, (count_char_notin _ hier) by done. change (count_char 63 [63]) with 1%nat.
      by destruct (Nat.eqb_spec (0 + (1 + (count_char 63 s + 1))) 1); [lia|].
Qed.

(** *** The whole URL *)

Definition path_ok (p : pystr) : bool := forallb scalar p && (negb (nonempty p) || startswith (u"/") p).

(** a URL that is printed without its raw texts *)
Definition canonical (x : GoUrl) : bool :=
  scheme_ok (url_scheme x) && negb (nonempty (url_opaque x)) && user_ok (url_user x) && host_ok (url_host x) &&
  path_ok (url_path x) && negb (nonempty (url_raw_path x)) &&
  (negb (url_force_query x) || negb (nonempty (url_raw_query x))) &&
  forallb (fun c => negb (is_control c) && negb (c =? 35)) (url_raw_query x) &&
  forallb scalar (url_fragment x) && negb (nonempty (url_raw_fragment x)).

(** the text between the scheme and the query *)
Definition hier_text (x : GoUrl) : pystr :=
  (if nonempty (url_host x) || nonempty (url_path x) || match url_user x with Some _ => true | None => false end
   then u"//" else []) ++ user_text (url_user x) ++ enc ENCODE_HOST (url_host x) ++ enc ENCODE_PATH (url_path x).

Definition query_text (x : GoUrl) : pystr :=
  if url_force_query x || nonempty (url_raw_query x) then u"?" ++ url_raw_query x else [].

Definition fragment_text (x : GoUrl) : pystr :=
  if nonempty (url_fragment x) then u"#" ++ enc ENCODE_FRAGMENT (url_fragment x) else [].

Lemma nonempty_false s : nonempty s = false -> s = [].
Proof. by destruct s. Qed.

Lemma path_slash p : path_ok p = true -> p = [] \/ exists p', p = 47 :: p' /\ enc ENCODE_PATH p = 47 :: enc ENCODE_PATH p'.
Proof.
  unfold path_ok. intros H. bool_prop. destruct p as [|c p]; [by left|right]. exists p.
  change (u"/") with [47] in H0. cbn [startswith nonempty negb orb] in H0. bool_prop. subst c.
  split; [done|]. change (47 :: p) with ([47] ++ p). by rewrite enc_app, enc_char_kept.
Qed.

Ltac url_fields := cbn [url_scheme url_opaque url_user url_host url_path url_raw_path url_force_query
  url_raw_query url_fragment url_raw_fragment] in *.

Lemma url_str_text x :
  canonical x = true ->
  url_str x = inr (url_scheme x ++ [58] ++ hier_text x ++ query_text x ++ fragment_text x).
Proof.
  unfold canonical. intros H. bool_prop. destruct x as [sch op usr h p rp fq rq fr rf]. url_fields.
  apply nonempty_false in H8, H4, H0. subst.
  assert (nonempty sch = true) as Hsch by (by destruct sch).
  assert (url_authority (mk_url sch [] usr h p [] fq rq fr []) =
    inr ((if nonempty h || nonempty p || match usr with Some _ => true | None => false end then u"//" else []) ++
         user_text usr ++ enc ENCODE_HOST h)) as Ha.
  { unfold url_authority. url_fields. rewrite Hsch, user_text_str by done. cbn [orb].
    unfold mbind, res_bind. by rewrite enc_escape by (by apply host_scalar). }
  unfold url_str. rewrite Ha. unfold _escaped_path, _escaped_fragment, escaped_as. url_fields.
  rewrite Hsch. rewrite !enc_escape by (unfold path_ok in *; by bool_prop).
  unfold mbind, res_bind, mret, res_ret.
  assert ((if nonempty (enc ENCODE_PATH p) && negb (startswith (u"/") (enc ENCODE_PATH p)) && nonempty h then u"/" else []) = []) as ->.
  { destruct (path_slash p H5) as [->|(p' & _ & ->)]; [done|]. done. }
  unfold hier_text, query_text, fragment_text. url_fields. destruct (nonempty fr); f_equal; by rewrite <- !app_assoc.
Qed.

(** neither a control character nor the fragment mark *)
Definition clean (c : Z) : bool := negb (is_control c) && negb (c =? 35).

Lemma enc_url_char mode s : forallb scalar s = true -> forallb url_char (enc mode s) = true.
Proof. intros Hs. apply (escape_clean_text s mode). by apply enc_escape. Qed.

Lemma url_char_control c : url_char c = true -> is_control c = false.
Proof. unfold url_char, is_control. intros H. bool_prop. by bool_lia. Qed.

Lemma enc_clean mode s :
  forallb scalar s = true -> char_in 35 (delimiters mode) = true -> forallb clean (enc mode s) = true.
Proof.
  intros Hs Hd. pose proof (enc_url_char mode s Hs) as Hu. rewrite forallb_forall in Hu.
  apply forallb_forall. intros c Hc. unfold clean. rewrite (url_char_control c) by auto. simpl.
  destruct (Z.eqb_spec c 35) as [->|]; [|done]. exfalso. eapply (enc_notin mode 35 s Hs Hd).
  by apply list_elem_of_In.
Qed.

Lemma clean_spec s : forallb clean s = true -> existsb is_control s = false /\ 35 ∉ s.
Proof.
  induction s as [|c s IH]; [intros _; split; [done|apply not_elem_of_nil]|]. cbn [forallb existsb].
  unfold clean at 1. intros H. bool_prop. destruct (IH H0) as [-> Hn]. rewrite H.
  split; [done|]. by apply not_elem_of_cons.
Qed.

Lemma mapM_res_Forall {A B} (f : A -> res B) (P : B -> Prop) l ys :
  (forall x y, f x = inr y -> P y) -> mapM_res f l = inr ys -> Forall P ys.
Proof.
  intros Hf. revert ys. induction l as [|x l IH]; intros ys; cbn [mapM_res]; [by intros [= <-]|].
  unfold mbind, res_bind. destruct (f x) as [e|y] eqn:Ex; [done|]. destruct (mapM_res f l) as [e|ys']; [done|].
  intros [= <-]. apply Forall_cons. split; [by eapply Hf|by apply IH].
Qed.

Lemma query_escape_clean s t : query_escape s = inr t -> forallb clean t = true.
Proof.
  unfold query_escape. intros E. assert (forallb scalar s = true) as Hs.
  { unfold _escape, encode_utf8 in E. by destruct (forallb scalar s). }
  rewrite enc_escape in E by done. injection E as <-. by apply enc_clean.
Qed.

Lemma join_clean parts : Forall (fun p => forallb clean p = true) parts -> forallb clean (join (u"&") parts) = true.
Proof.
  induction 1 as [|p parts Hp Hps IH]; [done|]. rewrite join_cons. destruct parts as [|q parts].
  - by rewrite app_nil_r.
  - rewrite !forallb_app, Hp, IH. done.
Qed.

(** encoded values can stand in a URL *)
Lemma values_encode_clean v t : values_encode v = inr t -> forallb clean t = true.
Proof.
  unfold values_encode. unfold mbind at 1, res_bind at 1. destruct (mapM_res _ _) as [e|parts] eqn:E; [done|].
  intros [= <-]. apply join_clean, Forall_concat. eapply mapM_res_Forall; [|exact E]. intros k ps Hk.
  unfold mbind at 1, res_bind at 1 in Hk. destruct (query_escape k) as [e|ke] eqn:Ek; [done|].
  eapply mapM_res_Forall; [|exact Hk]. intros x y Hx. unfold mbind, res_bind in Hx.
  destruct (query_escape x) as [e|xe] eqn:Ex; [done|]. change (u"=") with [61] in Hx.
  assert (y = ke ++ [61] ++ xe) as -> by (by injection Hx as <-).
  rewrite !forallb_app, (query_escape_clean k ke), (query_escape_clean x xe) by done. done.
Qed.

Lemma scheme_clean s : scheme_ok s = true -> forallb clean s = true.
Proof.
  destruct s as [|c s]; [done|]. intros [Hc Hs]%andb_true_iff. apply forallb_forall. intros x Hx.
  assert (scheme_char x = true) as Hsx.
  { destruct Hx as [<-|Hx]; [unfold scheme_char; by rewrite Hc|]. rewrite forallb_forall in Hs. auto. }
  destruct (scheme_char_props x Hsx) as (_ & Hu & _ & H35 & _). unfold clean.
  rewrite url_char_control by done. apply Z.eqb_neq in H35. by rewrite H35.
Qed.

Lemma hier_clean x : canonical x = true -> forallb clean (hier_text x) = true.
Proof.
  unfold canonical. intros H. bool_prop. unfold hier_text, path_ok in *. rewrite !forallb_app. bool_prop.
  assert (forallb clean (user_text (url_user x)) = true) as ->.
  { destruct (url_user x) as [[n p b]|]; [|done]. simpl in H7. bool_prop. cbn [user_text ui_username ui_password ui_password_set].
    rewrite !forallb_app, enc_clean by done. destruct b; [|done]. cbn [forallb]. by rewrite enc_clean. }
  rewrite !enc_clean by (done || by apply host_scalar). by case_match.
Qed.

(** the part after the scheme and before the query *)
Lemma parse_hier usr h p :
  user_ok usr = true -> host_ok h = true -> path_ok p = true ->
  (let '(authority, slash, tail) := partition_char 47 (user_text usr ++ enc ENCODE_HOST h ++ enc ENCODE_PATH p) in
   '(usr, host) ← _parse_authority authority;
   mret (usr, host, (if slash : bool then u"/" else []) ++ tail)) = inr (usr, h, enc ENCODE_PATH p).
Proof.
  intros Hu Hh Hp. pose proof (authority_no_slash usr h Hu Hh) as Hn. rewrite app_assoc.
  destruct (path_slash p Hp) as [->|(p' & -> & ->)].
  - rewrite app_nil_r, partition_char_none by done. unfold mbind, res_bind. by rewrite parse_authority_ok.
  - rewrite partition_char_app by done. unfold mbind, res_bind. by rewrite parse_authority_ok.
Qed.

Lemma hier_no_query x : canonical x = true -> 63 ∉ hier_text x.
Proof.
  unfold canonical. intros H. bool_prop. unfold hier_text, path_ok in *. bool_prop.
  rewrite !not_elem_of_app. split_and!.
  - case_match; [|apply not_elem_of_nil]. change (u"//") with [47; 47]. set_solver.
  - destruct (url_user x) as [[n p b]|]; [|apply not_elem_of_nil]. simpl in H7. bool_prop.
    cbn [user_text ui_username ui_password ui_password_set]. rewrite !not_elem_of_app, list_elem_of_singleton.
    split_and!; [by apply enc_notin| |done]. destruct b; [|apply not_elem_of_nil].
    rewrite not_elem_of_cons. split; [done|by apply enc_notin].
  - apply enc_notin; [by apply host_scalar|done].
  - by apply enc_notin.
Qed.

Definition without_fragment (x : GoUrl) : GoUrl :=
  mk_url (url_scheme x) (url_opaque x) (url_user x) (url_host x) (url_path x) (url_raw_path x)
    (url_force_query x) (url_raw_query x) [] [].

Lemma parse_rest_ok x :
  canonical x = true ->
  _parse (url_scheme x ++ [58] ++ hier_text x ++ query_text x) = inr (without_fragment x).
Proof.
  intros Hc. pose proof (hier_no_query x Hc) as Hq. unfold canonical in Hc. bool_prop.
  unfold _parse. cbn [app]. rewrite get_scheme_ok by done. unfold mbind at 1, res_bind at 1.
  assert (url_force_query x = true -> url_raw_query x = []) as Hf.
  { intros Hf. rewrite Hf in H3. simpl in H3. apply nonempty_false. by bool_prop. }
  pose proof (split_query_ok (hier_text x) (url_force_query x) (url_raw_query x) Hq Hf) as Hs.
  unfold split_query in Hs. unfold query_text. rewrite Hs. clear Hs.
  assert (nonempty (url_scheme x) = true) as Hsch by (by destruct (url_scheme x)).
  assert (url_opaque x = []) as Ho by (by apply nonempty_false).
  assert (url_raw_path x = []) as Hr by (by apply nonempty_false).
  unfold hier_text, without_fragment. rewrite Ho, Hr.
  destruct (nonempty (url_host x) || nonempty (url_path x) || match url_user x with Some _ => true | None => false end) eqn:Ee.
  - pose proof (parse_hier (url_user x) (url_host x) (url_path x) H7 H6 H5) as Hp.
    set (t := user_text (url_user x) ++ enc ENCODE_HOST (url_host x) ++ enc ENCODE_PATH (url_path x)) in *.
    assert (startswith (u"/") (u"//" ++ t) = true) as -> by done.
    assert (startswith (u"//") (u"//" ++ t) = true) as -> by done.
    assert (drop 2 (u"//" ++ t) = t) as -> by done.
    rewrite Hsch. cbn [negb andb orb]. rewrite Hp. unfold mbind at 1, res_bind at 1.
    rewrite unescape_keep_enc; [done|unfold path_ok in *; by bool_prop|by apply readable_all].
  - apply orb_false_iff in Ee as [Ee Eu]. apply orb_false_iff in Ee as [Eh Ep].
    apply nonempty_false in Eh, Ep. rewrite Eh, Ep. destruct (url_user x); [done|]. cbn [user_text app].
    by rewrite Hsch.
Qed.

Lemma parse_str x :
  canonical x = true ->
  exists t, url_str x = inr t /\ parse t = inr x.
Proof.
  intros Hc. eexists. split; [by apply url_str_text|].
  assert (forallb clean (url_scheme x ++ [58] ++ hier_text x ++ query_text x) = true) as Hcl.
  { rewrite !forallb_app, hier_clean by done. unfold canonical in Hc. bool_prop. rewrite scheme_clean by done.
    unfold query_text. case_match; [|done]. change (u"?") with [63]. cbn [app forallb]. exact H2. }
  pose proof (parse_rest_ok x Hc) as Hp. destruct (clean_spec _ Hcl) as [Hctl H35].
  unfold canonical in Hc. bool_prop. apply nonempty_false in H0.
  unfold parse. set (pre := url_scheme x ++ [58] ++ hier_text x ++ query_text x) in *.
  replace (url_scheme x ++ [58] ++ hier_text x ++ query_text x ++ fragment_text x)
    with (pre ++ fragment_text x) by (unfold pre; by rewrite <- !app_assoc).
  rewrite existsb_app, Hctl. unfold fragment_text. destruct (url_fragment x) as [|c fr] eqn:Ef; cbn [nonempty].
  - cbn [existsb orb]. rewrite app_nil_r, partition_char_none by done. unfold mbind, res_bind. rewrite Hp.
    unfold mret, res_ret, without_fragment. destruct x; simpl in *. by subst.
  - change (u"#" ++ ?t) with (35 :: t). rewrite partition_char_app by done.
    assert (existsb is_control (35 :: enc ENCODE_FRAGMENT (c :: fr)) = false) as ->.
    { cbn [existsb]. apply orb_false_iff. split; [done|]. apply not_true_is_false.
      intros (y & Hy & Hctl')%existsb_exists. pose proof (enc_url_char ENCODE_FRAGMENT (c :: fr) H1) as Hu.
      rewrite forallb_forall in Hu. by rewrite (url_char_control y) in Hctl' by auto. }
    cbn [orb]. unfold mbind at 1, res_bind at 1. rewrite Hp.
    rewrite unescape_keep_enc by (done || by apply readable_all). unfold mbind, res_bind, mret, res_ret, without_fragment.
    destruct x; simpl in *. by subst.
Qed.

(** a URL in canonical form is read back from its text as itself: scheme,
    user info, host and port, path, query and fragment, whatever characters
    the user name, the password, the path and the fragment hold. *)
Theorem url_reads_back x :
  canonical x = true -> exists t, url_str x = inr t /\ parse t = inr x.
Proof. apply parse_str. Qed.

(** ** Samples *)

Definition sample_values : Values :=
  [(u"region", [u"us west"; u"a&b=c"]); (u"access-key-id", [u"AK+IA/" ++ [233]])].

Definition sample_url : GoUrl :=
  mk_url (u"postgres") [] (Some (mk_userinfo (u"us@er") (u"p/w:?#" ++ [8364]) true)) (u"[::1]:5432")
    (u"/my db") [] false (u"sslmode=disable") (u"part#1") [].

Lemma values_read_back_witness :
  exists t, values_encode sample_values = inr t /\
    query (mk_url (u"s3") [] None [] [] [] false t [] []) = inr (rev sample_values).
Proof.
  assert (values_ok sample_values) as Hok.
  { split; [apply (bool_decide_eq_true_1 _); by vm_compute|].
    repeat constructor; simpl; by vm_compute. }
  destruct (values_encode sample_values) as [e|t] eqn:Et; [by vm_compute in Et|].
  exists t. split; [done|].
  destruct (values_read_back sample_values (mk_url (u"s3") [] None [] [] [] false t [] []) Hok) as (t' & Et' & Hq & _).
  rewrite Et in Et'. injection Et' as <-. rewrite Hq by done. by vm_compute.
Defined.

Lemma url_reads_back_witness :
  exists t, url_str sample_url = inr t /\ parse t = inr sample_url.
Proof. apply url_reads_back. by vm_compute. Defined.

(** a percent escape that is not UTF-8 is no [EscapeError]: [query] raises *)
Lemma query_raises_on_bad_utf8 :
  query (mk_url (u"s3") [] None (u"bucket") [] [] false (u"region=%FF") [] []) = inl UnicodeError.
Proof. by vm_compute. Qed.
