(* ===== verification/PyFloat.v ===== *)
(** * Python floats

    A finite [float] is represented by the shortest decimal that identifies it
    among the IEEE binary64 numbers: sign, significand and decimal exponent,
    which is what [repr] prints.  The map from binary64 to that decimal is
    injective and monotone, so equality and comparison of floats are equality
    and comparison of the decimals.  [float_of_decimal] is the conversion from
    a decimal text: it rounds to the nearest binary64 (ties to even) and takes
    the shortest decimal of the result. *)
From stdpp Require Import base tactics list option numbers sets strings.
From S2P Require Import Prelude PyStr.

(** [FFin neg sig exp] is [(-1)^neg * sig * 10^exp]. *)
Inductive pyfloat : Type :=
| FNan
| FInf (neg : bool)
| FFin (neg : bool) (sig exp : Z).

#[global] Instance pyfloat_eq_dec : EqDecision pyfloat.
Proof. solve_decision. Defined.

(** ** Rounding to binary64 *)

(** [num / den] rounded to the nearest integer, ties to even *)
Definition div_half_even (num den : Z) : Z :=
  let q := num / den in
  let r := num mod den in
  if 2 * r <? den then q
  else if den <? 2 * r then q + 1
  else if Z.even q then q else q + 1.

(** The nearest binary64 of the positive rational [num / den], as a mantissa
    and a binary exponent; [None] is an overflow. *)
Definition to_binary64 (num den : Z) : option (Z * Z) :=
  let scaled e2 := if 0 <=? e2 then (num, den * 2 ^ e2) else (num * 2 ^ (- e2), den) in
  let e0 := Z.max (Z.log2 num - Z.log2 den - 53) (-1074) in
  let '(n0, d0) := scaled e0 in
  let e2 := if 2 ^ 53 <=? n0 / d0 then e0 + 1 else e0 in
  let '(n1, d1) := scaled e2 in
  let m := div_half_even n1 d1 in
  if 2 ^ 1024 <=? (if 0 <=? e2 then m * 2 ^ e2 else 0) then None else Some (m, e2).

(** the value of a mantissa and a binary exponent as a fraction *)
Definition of_binary64 (m e2 : Z) : Z * Z :=
  if 0 <=? e2 then (m * 2 ^ e2, 1) else (m, 2 ^ (- e2)).

(** a decimal [sig * 10^exp] as a fraction *)
Definition dec_fraction (sig exp : Z) : Z * Z :=
  if 0 <=? exp then (sig * 10 ^ exp, 1) else (sig, 10 ^ (- exp)).

Definition fraction_eqb (a b : Z * Z) : bool := a.1 * b.2 =? b.1 * a.2.

(** does the decimal round to the binary64 [v] (given as a fraction)? *)
Definition rounds_to (sig exp : Z) (v : Z * Z) : bool :=
  let '(n, d) := dec_fraction sig exp in
  match to_binary64 n d with
  | Some (m, e2) => fraction_eqb (of_binary64 m e2) v
  | None => false
  end.

(** drop the trailing zeros of a significand *)
Fixpoint strip_zeros (fuel : nat) (sig exp : Z) : Z * Z :=
  match fuel with
  | O => (sig, exp)
  | S f => if (sig mod 10 =? 0) && negb (sig =? 0) then strip_zeros f (sig / 10) (exp + 1)
           else (sig, exp)
  end.

(** the smallest [d] from the start value on with [v < 10^d] *)
Fixpoint find_decpt (fuel : nat) (v : Z * Z) (d : Z) : Z :=
  match fuel with
  | O => d
  | S f =>
      let '(n, den) := dec_fraction 1 d in
      if v.1 * den <? n * v.2 then d else find_decpt f v (d + 1)
  end.

(** the shortest decimal that rounds to [v], searching up to [n] digits *)
Fixpoint shortest (fuel : nat) (digits : Z) (v : Z * Z) (decpt : Z) : Z * Z :=
  let e := decpt - digits in
  let '(n, d) := if 0 <=? e then (v.1, v.2 * 10 ^ e) else (v.1 * 10 ^ (- e), v.2) in
  let lo := n / d in
  let hi := lo + 1 in
  let nearest := div_half_even n d in
  let other := if nearest =? lo then hi else lo in
  if rounds_to nearest e v then (nearest, e)
  else if rounds_to other e v then (other, e)
  else match fuel with
       | O => (nearest, e)
       | S f => shortest f (digits + 1) v decpt
       end.

(** the canonical form of a decimal: zero with exponent 0, or no trailing zero *)
Definition canon (sig exp : Z) : Z * Z :=
  if sig <=? 0 then (0, 0) else strip_zeros (S (Z.to_nat (Z.log2 sig))) sig exp.

(** [float(text)] for a decimal text [(-1)^neg * sig0 * 10^exp0]; the two guards
    only avoid the large powers of ten of numbers that overflow or underflow. *)
Definition float_of_decimal (neg : bool) (sig0 exp0 : Z) : pyfloat :=
  if sig0 <=? 0 then FFin neg 0 0
  else
    let '(sig, exp) := canon sig0 exp0 in
    let size := Z.of_nat (length (str_of_nonneg sig)) + exp in
    if 310 <? size then FInf neg
    else if size <? -330 then FFin neg 0 0
    else
      let '(n, d) := dec_fraction sig exp in
      match to_binary64 n d with
      | None => FInf neg
      | Some (m, e2) =>
          if m =? 0 then FFin neg 0 0
          else
            let v := of_binary64 m e2 in
            let start := (Z.log2 v.1 - Z.log2 v.2) * 30103 / 100000 - 1 in
            let '(s, e) := shortest 16 1 v (find_decpt 6 v start) in
            let '(s', e') := strip_zeros 20 s e in
            FFin neg s' e'
      end.

(** A finite float is well formed when its decimal is canonical and identifies it. *)
Definition valid_float (f : pyfloat) : bool :=
  match f with
  | FFin neg sig exp =>
      ((sig =? 0) && (exp =? 0)) ||
      ((0 <? sig) && negb (sig mod 10 =? 0) && bool_decide (float_of_decimal neg sig exp = f))
  | _ => true
  end.

Lemma strip_zeros_scaled k fuel sig exp :
  0 < sig -> sig mod 10 <> 0 -> (k <= fuel)%nat ->
  strip_zeros fuel (sig * 10 ^ Z.of_nat k) (exp - Z.of_nat k) = (sig, exp).
Proof.
  intros Hs Hm. revert fuel. induction k as [|k IH]; intros fuel Hk.
  - rewrite Z.mul_1_r, Z.sub_0_r. destruct fuel; simpl; [done|].
    destruct (sig mod 10 =? 0) eqn:E; bool_prop; done.
  - destruct fuel as [|fuel]; [lia|]. simpl strip_zeros.
    rewrite Nat2Z.inj_succ, Z.pow_succ_r by lia.
    replace (sig * (10 * 10 ^ Z.of_nat k)) with (sig * 10 ^ Z.of_nat k * 10) by lia.
    rewrite Z.mod_mul, Z.div_mul by lia.
    assert (0 < 10 ^ Z.of_nat k) by (apply Z.pow_pos_nonneg; lia).
    replace (sig * 10 ^ Z.of_nat k * 10 =? 0) with false by (symmetry; apply Z.eqb_neq; nia).
    simpl. replace (exp - Z.succ (Z.of_nat k) + 1) with (exp - Z.of_nat k) by lia.
    apply IH. lia.
Qed.

Lemma canon_scaled k sig exp :
  0 < sig -> sig mod 10 <> 0 ->
  canon (sig * 10 ^ Z.of_nat k) (exp - Z.of_nat k) = (sig, exp).
Proof.
  intros Hs Hm. unfold canon.
  assert (0 < 10 ^ Z.of_nat k) by (apply Z.pow_pos_nonneg; lia).
  destruct (Z.leb_spec (sig * 10 ^ Z.of_nat k) 0); [nia|].
  apply strip_zeros_scaled; [done..|].
  assert (2 ^ Z.of_nat k <= sig * 10 ^ Z.of_nat k).
  { pose proof (Z.pow_le_mono_l 2 10 (Z.of_nat k)). nia. }
  pose proof (Z.log2_le_pow2 (sig * 10 ^ Z.of_nat k) (Z.of_nat k)). lia.
Qed.

Lemma canon_id sig exp : 0 < sig -> sig mod 10 <> 0 -> canon sig exp = (sig, exp).
Proof.
  intros Hs Hm. pose proof (canon_scaled 0 sig exp Hs Hm) as H.
  by rewrite Z.mul_1_r, Z.sub_0_r in H.
Qed.

(** The float of a decimal does not depend on how many zeros pad it. *)
Lemma float_of_decimal_scaled neg k sig exp :
  0 < sig -> sig mod 10 <> 0 ->
  float_of_decimal neg (sig * 10 ^ Z.of_nat k) (exp - Z.of_nat k)
  = float_of_decimal neg sig exp.
Proof.
  intros Hs Hm. unfold float_of_decimal. rewrite canon_scaled, canon_id by done.
  assert (0 < 10 ^ Z.of_nat k) by (apply Z.pow_pos_nonneg; lia).
  destruct (Z.leb_spec (sig * 10 ^ Z.of_nat k) 0); [nia|].
  by destruct (Z.leb_spec sig 0); [lia|].
Qed.

(** the number of decimal digits before the point: [10^(decpt-1) <= |f| < 10^decpt] *)
Definition decpt (sig exp : Z) : Z := Z.of_nat (length (str_of_nonneg sig)) + exp.

(** [math.isfinite], [f == 0], [f < 0] *)
Definition isfinite (f : pyfloat) : bool :=
  match f with FFin _ _ _ => true | _ => false end.
Definition is_zero (f : pyfloat) : bool :=
  match f with FFin _ sig _ => sig =? 0 | _ => false end.
Definition is_neg (f : pyfloat) : bool :=
  match f with FFin neg _ _ | FInf neg => neg | FNan => false end.

(** [sig1 * 10^exp1 < sig2 * 10^exp2] *)
Definition dec_ltb (sig1 exp1 sig2 exp2 : Z) : bool :=
  let m := Z.min exp1 exp2 in
  sig1 * 10 ^ (exp1 - m) <? sig2 * 10 ^ (exp2 - m).

(** [x <= y] on floats; false when either is NaN *)
Definition float_leb (x y : pyfloat) : bool :=
  match x, y with
  | FNan, _ | _, FNan => false
  | FInf true, _ => true
  | _, FInf false => true
  | FInf false, _ => false
  | _, FInf true => false
  | FFin n1 s1 e1, FFin n2 s2 e2 =>
      negb (dec_ltb (if n2 then - s2 else s2) e2 (if n1 then - s1 else s1) e1)
  end.

(** ** [repr] and [Decimal] *)

(** The digits [ds] with the decimal point after [pp] of them, zero padded on
    the side where it falls outside. *)
Definition plain (ds : pystr) (pp : Z) : pystr :=
  if pp <=? 0 then u"0." ++ repeat_char 48 (- pp) ++ ds
  else if Z.of_nat (length ds) <=? pp then ds ++ repeat_char 48 (pp - Z.of_nat (length ds))
  else take (Z.to_nat pp) ds ++ u"." ++ drop (Z.to_nat pp) ds.

(** [d.ddd] *)
Definition mantissa (ds : pystr) : pystr :=
  match ds with
  | [] => []
  | [d] => [d]
  | d :: r => d :: 46 :: r
  end.

(** a decimal exponent with its sign and at least two digits *)
Definition exponent2 (e : Z) : pystr :=
  let a := str_of_nonneg (Z.abs e) in
  (if 0 <=? e then 43 else 45) ::
  (if (length a <? 2)%nat then 48 :: a else a).

Definition sign (neg : bool) : pystr := if neg then [45] else [].

(** [repr(f)]: exponential when the point falls more than 16 digits to the
    right or more than 3 zeros to the left. *)
Definition repr_float (f : pyfloat) : pystr :=
  match f with
  | FNan => u"nan"
  | FInf neg => sign neg ++ u"inf"
  | FFin neg sig exp =>
      if sig =? 0 then sign neg ++ u"0.0"
      else
        let ds := str_of_nonneg sig in
        let pp := decpt sig exp in
        sign neg ++
        (if (pp <=? -4) || (16 <? pp) then mantissa ds ++ 101 :: exponent2 (pp - 1)
         else if Z.of_nat (length ds) <=? pp then plain ds pp ++ u".0"
         else plain ds pp)
  end.

(** Decimals of the decimal module: sign, digits (no leading zeros) and exponent. *)
Record decimal := mk_decimal { d_neg : bool; d_digits : pystr; d_exp : Z }.

(** [int(s)] of a signed digit string *)
Definition signed_val (s : pystr) : Z :=
  match s with
  | 43 :: r => digits_val r
  | 45 :: r => - digits_val r
  | _ => digits_val s
  end.

(** The parts of a number text [-]int[.frac][e[+-]exp]: sign, integer digits,
    fraction digits and exponent. *)
Definition split_number (s : pystr) : bool * pystr * pystr * Z :=
  let '(neg, body) := match s with 45 :: r => (true, r) | _ => (false, s) end in
  let '(mant, has_e, ex) := partition_char 101 body in
  let '(ip, has_pt, fr) := partition_char 46 mant in
  (neg, ip, fr, if has_e : bool then signed_val ex else 0).

(** [Decimal(s)] on a finite [repr] *)
Definition decimal_of_repr (s : pystr) : decimal :=
  let '(neg, ip, fr, e) := split_number s in
  let digits := drop_char 48 (ip ++ fr) in
  mk_decimal neg (match digits with [] => [48] | _ => digits end) (e - Z.of_nat (length fr)).

(** [format(d, "f")] *)
Definition decimal_format_f (d : decimal) : pystr :=
  sign (d_neg d) ++
  (if 0 <=? d_exp d then d_digits d ++ repeat_char 48 (d_exp d)
   else plain (d_digits d) (Z.of_nat (length (d_digits d)) + d_exp d)).
