(* ===== verification/GoFloat.v ===== *)
(** * Go float formatting: eds/util/gofloat.py

    [format_f], [format_g] and [format_json] reshape the digits of [repr] into
    the three formats Go's strconv and encoding/json produce.  The theorems
    show that each of them prints exactly the number: reading the decimal back
    gives the significand and exponent of the float. *)
From stdpp Require Import base tactics list option numbers sets strings.
From S2P Require Import Prelude PyStr PyFloat.

Definition _zero (f : pyfloat) : pystr := if is_neg f then u"-0" else u"0".

Definition format_f (f : pyfloat) : pystr :=
  match f with
  | FNan => u"NaN"
  | FInf neg => sign neg ++ u"Infinity"
  | FFin _ _ _ =>
      if is_zero f then _zero f
      else
        let s := decimal_format_f (decimal_of_repr (repr_float f)) in
        if char_in 46 s then rstrip_char 46 (rstrip_char 48 s) else s
  end.

(** [abs(f)] *)
Definition float_abs (f : pyfloat) : pyfloat :=
  match f with
  | FNan => FNan
  | FInf _ => FInf false
  | FFin _ sig exp => FFin false sig exp
  end.

(** [while len(digits) > 1 and digits[-1] == 0: digits.pop(); exp += 1], on the
    reversed digits *)
Fixpoint pop_zeros (rds : pystr) (exp : Z) : pystr * Z :=
  match rds with
  | d :: r =>
      match r with
      | [] => (rds, exp)
      | _ :: _ => if d =? 48 then pop_zeros r (exp + 1) else (rds, exp)
      end
  | [] => ([], exp)
  end.

Definition format_g (f : pyfloat) : pystr :=
  match f with
  | FNan => u"NaN"
  | FInf false => u"+Inf"
  | FInf true => u"-Inf"
  | FFin neg _ _ =>
      if is_zero f then _zero f
      else
        let d := decimal_of_repr (repr_float (float_abs f)) in
        let '(rds, exp) := pop_zeros (rev (d_digits d)) (d_exp d) in
        let sig := rev rds in
        let e := exp + (Z.of_nat (length sig) - 1) in
        let s :=
          if (e <? -4) || (21 <=? e) then
            (if (length sig =? 1)%nat then sig else take 1 sig ++ u"." ++ drop 1 sig)
            ++ u"e" ++ exponent2 e
          else
            let pp := e + 1 in
            if pp <=? 0 then u"0." ++ repeat_char 48 (- pp) ++ sig
            else if Z.of_nat (length sig) <=? pp
            then sig ++ repeat_char 48 (pp - Z.of_nat (length sig))
            else take (Z.to_nat pp) sig ++ u"." ++ drop (Z.to_nat pp) sig in
        if neg then u"-" ++ s else s
  end.

(** [s[-4] == "e" and s[-3] == "-" and s[-2] == "0"]: Go prints [e-07] as [e-7] *)
Definition clean_exponent (s : pystr) : pystr :=
  match rev s with
  | d :: z :: m :: e :: r =>
      if (e =? 101) && (m =? 45) && (z =? 48) then rev (d :: m :: e :: r) else s
  | _ => s
  end.

(** [None] is the ValueError of a non-finite float. *)
Definition format_json (f : pyfloat) : option pystr :=
  match f with
  | FFin _ sig exp =>
      if is_zero f then Some (_zero f)
      else if dec_ltb sig exp 1 (-6) || negb (dec_ltb sig exp 1 21)
      then Some (clean_exponent (repr_float f))
      else Some (format_f f)
  | _ => None
  end.

(** ** The printed digits *)

(** The digits of a canonical significand: first and last are not zero. *)
Lemma canonical_digits sig :
  0 < sig -> sig mod 10 <> 0 ->
  exists ds, str_of_nonneg sig = ds /\ ds <> [] /\ digits_val ds = sig /\
    Forall (fun c => is_digit c = true) ds /\
    (exists c r, ds = c :: r /\ c <> 48) /\ (exists r c, ds = r ++ [c] /\ c <> 48).
Proof.
  intros Hs Hm. destruct (str_of_nonneg_spec sig) as (Hne & Hd & Hv & Hh & _); [lia|].
  exists (str_of_nonneg sig). split_and!; auto; [apply Hh; lia|].
  destruct (str_of_nonneg sig) as [|c r _] eqn:E using rev_ind; [done|].
  exists r, c. split; [done|]. intros ->.
  unfold digits_val in Hv. rewrite foldl_app in Hv. simpl in Hv.
  apply Hm. rewrite <- Hv. rewrite Z.add_0_r. apply Z.mod_mul. lia.
Qed.

Lemma digit_not c x : is_digit c = true -> (x < 48 \/ 57 < x) -> c <> x.
Proof. unfold is_digit. intros. bool_prop. lia. Qed.

Lemma digits_not_elem x ds :
  Forall (fun c => is_digit c = true) ds -> (x < 48 \/ 57 < x) -> x ∉ ds.
Proof.
  intros H Hx Hin. rewrite Forall_forall in H. apply (digit_not x x (H x Hin) Hx). done.
Qed.

Lemma drop_char_id c ds : (forall x r, ds = x :: r -> x <> c) -> drop_char c ds = ds.
Proof.
  destruct ds as [|x r]; simpl; [done|]. intros H.
  destruct (x =? c) eqn:E; bool_prop; [|done]. exfalso. by apply (H x r).
Qed.

Lemma drop_char_replicate c n ds : drop_char c (replicate n c ++ ds) = drop_char c ds.
Proof. induction n as [|n IH]; simpl; [done|]. by rewrite Z.eqb_refl. Qed.

Lemma rev_replicate {A} n (x : A) : rev (replicate n x) = replicate n x.
Proof. rewrite rev_alt. apply reverse_replicate. Qed.

Lemma rstrip_char_app c r x n :
  x <> c -> rstrip_char c ((r ++ [x]) ++ replicate n c) = r ++ [x].
Proof.
  intros Hx. unfold rstrip_char. rewrite rev_app_distr.
  rewrite rev_replicate, drop_char_replicate, rev_app_distr. simpl.
  destruct (x =? c) eqn:E; bool_prop; [done|]. simpl. by rewrite rev_involutive.
Qed.

Lemma rstrip_char_end c r x : x <> c -> rstrip_char c (r ++ [x]) = r ++ [x].
Proof. intros Hx. rewrite <- (rstrip_char_app c r x 0 Hx) at 2. by rewrite app_nil_r. Qed.

(** ** Reading a number back *)

Lemma digits_val_zeros n : digits_val (replicate n 48) = 0.
Proof.
  induction n as [|n IH]; [done|].
  change (replicate (S n) 48) with ([48] ++ replicate n 48).
  rewrite digits_val_app, IH. unfold digits_val. simpl. lia.
Qed.

(** The decimal a number text denotes: sign, significand and exponent. *)
Definition read_number (s : pystr) : bool * Z * Z :=
  let '(neg, ip, fr, e) := split_number s in
  (neg, digits_val (ip ++ fr), e - Z.of_nat (length fr)).

(** The decimals that denote the same number as a canonical one. *)
Definition denotes (r : bool * Z * Z) (neg : bool) (sig exp : Z) : Prop :=
  exists k : nat, r = (neg, sig * 10 ^ Z.of_nat k, exp - Z.of_nat k).

Lemma number_eq (n : bool) (a b a' b' : Z) : a = a' -> b = b' -> (n, a, b) = (n, a', b').
Proof. by intros -> ->. Qed.

Lemma denotes_float r neg sig exp :
  0 < sig -> sig mod 10 <> 0 -> denotes r neg sig exp ->
  float_of_decimal r.1.1 r.1.2 r.2 = float_of_decimal neg sig exp.
Proof. intros ?? [k ->]. by apply float_of_decimal_scaled. Qed.

Lemma length_repeat_char c n : 0 <= n -> Z.of_nat (length (repeat_char c n)) = n.
Proof. intros. unfold repeat_char. rewrite length_replicate. lia. Qed.

Lemma repeat_zeros_digits n : Forall (fun c => is_digit c = true) (repeat_char 48 n).
Proof. unfold repeat_char. by apply Forall_replicate. Qed.

Lemma sign_body neg c r :
  is_digit c = true ->
  match sign neg ++ c :: r with 45 :: r' => (true, r') | _ => (false, sign neg ++ c :: r) end
  = (neg, c :: r).
Proof.
  intros Hc. destruct neg; simpl; [done|].
  assert (c <> 45) by (apply digit_not; [done|lia]).
  destruct c as [|p|p]; try done. repeat (destruct p as [p|p|]; try done).
Qed.

(** Numbers are read part by part: no digit is a point, an [e] or a minus. *)
Lemma split_number_parts neg ip fr (ex : option pystr) :
  ip <> [] -> Forall (fun c => is_digit c = true) ip -> Forall (fun c => is_digit c = true) fr ->
  split_number (sign neg ++ ip ++ 46 :: fr ++ match ex with Some e => 101 :: e | None => [] end)
  = (neg, ip, fr, match ex with Some e => signed_val e | None => 0 end).
Proof.
  intros Hne Hip Hfr. unfold split_number.
  assert (101 ∉ ip ++ 46 :: fr) as Hno.
  { rewrite elem_of_app, elem_of_cons.
    pose proof (digits_not_elem 101 ip Hip ltac:(lia)).
    pose proof (digits_not_elem 101 fr Hfr ltac:(lia)). naive_solver. }
  assert (46 ∉ ip) by (apply digits_not_elem; [done|lia]).
  destruct ip as [|c ip]; [done|]. apply Forall_cons in Hip as [Hc _].
  change ((c :: ip) ++ ?x) with (c :: ip ++ x). rewrite sign_body by done.
  change (c :: ip ++ ?x) with ((c :: ip) ++ x). destruct ex as [e|].
  - replace ((c :: ip) ++ 46 :: fr ++ 101 :: e) with (((c :: ip) ++ 46 :: fr) ++ 101 :: e)
      by (by rewrite <- app_assoc).
    rewrite (partition_char_app 101) by done. by rewrite (partition_char_app 46).
  - rewrite app_nil_r, (partition_char_none 101) by done. by rewrite (partition_char_app 46).
Qed.

Lemma split_number_int neg ip (ex : option pystr) :
  ip <> [] -> Forall (fun c => is_digit c = true) ip ->
  split_number (sign neg ++ ip ++ match ex with Some e => 101 :: e | None => [] end)
  = (neg, ip, [], match ex with Some e => signed_val e | None => 0 end).
Proof.
  intros Hne Hip. unfold split_number.
  assert (101 ∉ ip) by (apply digits_not_elem; [done|lia]).
  assert (46 ∉ ip) by (apply digits_not_elem; [done|lia]).
  destruct ip as [|c ip]; [done|]. apply Forall_cons in Hip as [Hc _].
  change ((c :: ip) ++ ?x) with (c :: ip ++ x). rewrite sign_body by done.
  change (c :: ip ++ ?x) with ((c :: ip) ++ x). destruct ex as [e|].
  - by rewrite (partition_char_app 101), (partition_char_none 46) by done.
  - by rewrite app_nil_r, (partition_char_none 101), (partition_char_none 46) by done.
Qed.

(** the value of a printed exponent *)
Lemma signed_val_digits (neg : bool) a :
  signed_val ((if neg then 45 else 43) :: a) = if neg then - digits_val a else digits_val a.
Proof. by destruct neg. Qed.

Lemma exponent2_val e : signed_val (exponent2 e) = e.
Proof.
  unfold exponent2. destruct (str_of_nonneg_spec (Z.abs e)) as (_ & _ & Hv & _); [lia|].
  set (a := str_of_nonneg (Z.abs e)) in *.
  assert (digits_val (if (length a <? 2)%nat then 48 :: a else a) = Z.abs e) as Ha.
  { destruct (length a <? 2)%nat; [|done]. by rewrite <- Hv. }
  destruct (Z.leb_spec 0 e); simpl; rewrite Ha; lia.
Qed.

Section layout.
Context (sig exp : Z) (Hs : 0 < sig) (Hm : sig mod 10 <> 0).
Let ds := str_of_nonneg sig.
Let pp := decpt sig exp.

Lemma layout_digits : ds <> [] /\ Forall (fun c => is_digit c = true) ds /\ digits_val ds = sig.
Proof. destruct (str_of_nonneg_spec sig) as (?&?&?&_); [lia|done]. Qed.

Lemma pp_eq : pp = Z.of_nat (length ds) + exp.
Proof. done. Qed.

(** The parts of the plain layout. *)
Lemma split_plain neg :
  exists ip fr (k : nat),
    split_number (sign neg ++ plain ds pp) = (neg, ip, fr, 0) /\
    ((fr <> [] /\ k = 0%nat /\ exists j, ip ++ fr = replicate j 48 ++ ds) \/
     (fr = [] /\ 0 <= exp /\ k = Z.to_nat exp /\ ip = ds ++ replicate k 48)) /\
    - Z.of_nat (length fr) = exp - Z.of_nat k.
Proof.
  destruct layout_digits as (Hne & Hd & Hv). pose proof pp_eq as Hpp. unfold plain.
  assert (0 < length ds)%nat by (destruct ds; simpl; [done|lia]).
  destruct (Z.leb_spec pp 0).
  - exists [48], (repeat_char 48 (- pp) ++ ds), 0%nat.
    pose proof (split_number_parts neg [48] (repeat_char 48 (- pp) ++ ds) None) as R.
    rewrite app_nil_r in R. change (u"0." ++ ?x) with ([48] ++ 46 :: x).
    rewrite R; [|done|by repeat constructor|by apply Forall_app; auto using repeat_zeros_digits].
    split_and!; [done| |].
    + left. split_and!; [by destruct (repeat_char 48 (- pp)), ds|done|].
      by exists (S (Z.to_nat (- pp))).
    + rewrite length_app, Nat2Z.inj_add, length_repeat_char; lia.
  - destruct (Z.leb_spec (Z.of_nat (length ds)) pp).
    + exists (ds ++ repeat_char 48 (pp - Z.of_nat (length ds))), [], (Z.to_nat exp).
      pose proof (split_number_int neg (ds ++ repeat_char 48 (pp - Z.of_nat (length ds))) None) as R.
      rewrite app_nil_r in R.
      rewrite R; [|by destruct ds|by apply Forall_app; auto using repeat_zeros_digits].
      split_and!; [done| |simpl; lia].
      right. split_and!; [done|lia|done|]. unfold repeat_char. do 2 f_equal. lia.
    + exists (take (Z.to_nat pp) ds), (drop (Z.to_nat pp) ds), 0%nat.
      pose proof (split_number_parts neg (take (Z.to_nat pp) ds) (drop (Z.to_nat pp) ds) None) as R.
      rewrite app_nil_r in R. change (u"." ++ ?x) with (46 :: x).
      rewrite R; [|intros Ht%(f_equal length); rewrite length_take in Ht; simpl in Ht; lia
                  |by apply Forall_take|by apply Forall_drop].
      split_and!; [done| |rewrite length_drop; lia].
      left. split_and!; [|done|exists 0%nat; by rewrite take_drop].
      intros Ht%(f_equal length). rewrite length_drop in Ht. simpl in Ht. lia.
Qed.

(** The parts of the exponential layout. *)
Lemma split_exponential neg ex :
  signed_val ex = pp - 1 ->
  exists ip fr, split_number (sign neg ++ mantissa ds ++ 101 :: ex) = (neg, ip, fr, pp - 1) /\
    ip ++ fr = ds /\ pp - 1 - Z.of_nat (length fr) = exp.
Proof.
  destruct layout_digits as (Hne & Hd & Hv). pose proof pp_eq as Hpp. intros He.
  destruct ds as [|d [|d' r]] eqn:E; [done| |]; simpl mantissa.
  - exists [d], []. rewrite (split_number_int neg [d] (Some ex)) by done. rewrite He.
    split_and!; [done|done|]. rewrite Hpp. simpl. lia.
  - change ((d :: 46 :: d' :: r) ++ 101 :: ex) with ([d] ++ 46 :: (d' :: r) ++ 101 :: ex).
    apply Forall_cons in Hd as [Hd1 Hd2]. exists [d], (d' :: r).
    rewrite (split_number_parts neg [d] (d' :: r) (Some ex)) by auto. rewrite He.
    split_and!; [done|done|]. rewrite Hpp. simpl length. lia.
Qed.

(** Both layouts denote the number. *)
Lemma read_plain neg : denotes (read_number (sign neg ++ plain ds pp)) neg sig exp.
Proof.
  destruct layout_digits as (Hne & Hd & Hv).
  destruct (split_plain neg) as (ip & fr & k & Hsp & Hcase & Hlen).
  unfold read_number. rewrite Hsp. exists k.
  apply number_eq; [|lia]. destruct Hcase as [(_ & -> & j & ->)|(-> & ? & -> & ->)].
  - rewrite digits_val_app, digits_val_zeros, Hv. lia.
  - rewrite app_nil_r, digits_val_app, digits_val_zeros, length_replicate, Hv. lia.
Qed.

Lemma read_exponential neg ex :
  signed_val ex = pp - 1 ->
  denotes (read_number (sign neg ++ mantissa ds ++ 101 :: ex)) neg sig exp.
Proof.
  destruct layout_digits as (Hne & Hd & Hv). intros He.
  destruct (split_exponential neg ex He) as (ip & fr & Hsp & Hds & Hlen).
  unfold read_number. rewrite Hsp. exists 0%nat.
  apply number_eq; [|lia]. rewrite Hds, Hv. lia.
Qed.

Lemma drop_zeros_ds j : drop_char 48 (replicate j 48 ++ ds) = ds.
Proof.
  rewrite drop_char_replicate. apply drop_char_id.
  destruct (canonical_digits sig Hs Hm) as (? & <- & _ & _ & _ & (c & r & E & Hc) & _).
  subst ds. rewrite E. by intros x r' [= <- <-].
Qed.

(** [Decimal(repr(f))] has the digits of the float, padded with zeros when
    [repr] prints an integer as [ddd00.0]. *)
Lemma decimal_of_repr_spec neg :
  exists k : nat,
    decimal_of_repr (repr_float (FFin neg sig exp))
    = mk_decimal neg (ds ++ replicate k 48) (exp - Z.of_nat k) /\
    (k = 0%nat \/ (0 <= exp /\ k = S (Z.to_nat exp))).
Proof.
  destruct layout_digits as (Hne & Hd & Hv). pose proof pp_eq as Hpp.
  unfold decimal_of_repr, repr_float. fold ds pp.
  replace (sig =? 0) with false by (symmetry; apply Z.eqb_neq; lia).
  destruct ((pp <=? -4) || (16 <? pp)).
  { destruct (split_exponential neg (exponent2 (pp - 1)) (exponent2_val _)) as (ip & fr & -> & -> & Hl).
    exists 0%nat. pose proof (drop_zeros_ds 0) as D. simpl in D. rewrite D.
    destruct ds eqn:E; [done|]. rewrite <- E. rewrite app_nil_r, Hl, Z.sub_0_r. auto. }
  destruct (Z.leb_spec (Z.of_nat (length ds)) pp) as [Hle|Hlt].
  - assert (plain ds pp = ds ++ replicate (Z.to_nat exp) 48) as ->.
    { unfold plain. assert (0 < length ds)%nat by (destruct ds; simpl; [done|lia]).
      destruct (Z.leb_spec pp 0); [lia|].
      destruct (Z.leb_spec (Z.of_nat (length ds)) pp); [|lia].
      unfold repeat_char. do 2 f_equal. lia. }
    exists (S (Z.to_nat exp)).
    pose proof (split_number_parts neg (ds ++ replicate (Z.to_nat exp) 48) [48] None) as R.
    rewrite app_nil_r in R.
    replace (sign neg ++ (ds ++ replicate (Z.to_nat exp) 48) ++ u".0")
      with (sign neg ++ (ds ++ replicate (Z.to_nat exp) 48) ++ [46; 48]) by done.
    rewrite R; [|by destruct ds|by apply Forall_app; split; [|apply Forall_replicate]
               |by repeat constructor].
    replace ((ds ++ replicate (Z.to_nat exp) 48) ++ [48])
      with (replicate 0 48 ++ (ds ++ replicate (S (Z.to_nat exp)) 48))
      by (simpl; by rewrite replicate_cons_app, app_assoc).
    simpl length. split; [|right; lia].
    rewrite drop_char_replicate, drop_char_id.
    + destruct ds; [done|]. simpl. f_equal. lia.
    + destruct (canonical_digits sig Hs Hm) as (? & <- & _ & _ & _ & (c & r & E & Hc) & _).
      subst ds. rewrite E. by intros x r' [= <- <-].
  - destruct (split_plain neg) as (ip & fr & k & -> & Hcase & Hlen).
    destruct Hcase as [(_ & -> & j & ->)|(_ & ? & -> & _)]; [|lia].
    exists 0%nat. rewrite drop_zeros_ds, app_nil_r. destruct ds eqn:E; [done|]. rewrite <- E.
    split; [|auto]. f_equal. lia.
Qed.
End layout.

Lemma char_in_app c a b : char_in c (a ++ b) = char_in c a || char_in c b.
Proof.
  unfold char_in. apply eq_bool_prop_intro.
  rewrite orb_True, !bool_decide_spec. apply elem_of_app.
Qed.

Lemma char_in_digits ds : Forall (fun c => is_digit c = true) ds -> char_in 46 ds = false.
Proof. intros H. apply bool_decide_eq_false. apply digits_not_elem; [done|lia]. Qed.

Lemma sign_no_point neg : char_in 46 (sign neg) = false.
Proof. by destruct neg. Qed.

(** Integers print their digits and zeros; other numbers end in their last digit. *)
Lemma plain_int ds e :
  ds <> [] -> 0 <= e -> plain ds (Z.of_nat (length ds) + e) = ds ++ replicate (Z.to_nat e) 48.
Proof.
  intros Hne He. unfold plain. assert (0 < length ds)%nat by (destruct ds; simpl; [done|lia]).
  destruct (Z.leb_spec (Z.of_nat (length ds) + e) 0); [lia|].
  destruct (Z.leb_spec (Z.of_nat (length ds)) (Z.of_nat (length ds) + e)); [|lia].
  unfold repeat_char. do 2 f_equal. lia.
Qed.

Lemma plain_frac_end r c pp :
  pp < Z.of_nat (length (r ++ [c])) -> exists r', plain (r ++ [c]) pp = r' ++ [c].
Proof.
  intros Hpp. unfold plain. destruct (Z.leb_spec pp 0).
  { rewrite !app_assoc. eauto. }
  destruct (Z.leb_spec (Z.of_nat (length (r ++ [c]))) pp); [lia|].
  rewrite length_app in *. simpl in Hpp. rewrite drop_app_le by lia. rewrite !app_assoc. eauto.
Qed.

(** [ddd00.0], the integers of [repr] *)
Lemma plain_point_zero ds :
  ds <> [] -> plain (ds ++ [48]) (Z.of_nat (length ds)) = ds ++ [46; 48].
Proof.
  intros Hne. unfold plain. assert (0 < length ds)%nat by (destruct ds; simpl; [done|lia]).
  destruct (Z.leb_spec (Z.of_nat (length ds)) 0); [lia|].
  rewrite length_app. simpl.
  destruct (Z.leb_spec (Z.of_nat (length ds + 1)) (Z.of_nat (length ds))); [lia|].
  rewrite Nat2Z.id, take_app_length, drop_app_length. done.
Qed.

Lemma strip_point_zero r c : c <> 46 -> rstrip_char 46 (rstrip_char 48 ((r ++ [c]) ++ [46; 48])) = r ++ [c].
Proof.
  intros Hc. replace ((r ++ [c]) ++ [46; 48]) with (((r ++ [c]) ++ [46]) ++ replicate 1 48)
    by (by rewrite <- !app_assoc).
  rewrite rstrip_char_app by done.
  change [46] with (replicate 1 46). by rewrite rstrip_char_app.
Qed.

(** [format_f] prints sign and plain layout. *)
Lemma format_f_eq neg sig exp :
  0 < sig -> sig mod 10 <> 0 ->
  format_f (FFin neg sig exp) = sign neg ++ plain (str_of_nonneg sig) (decpt sig exp).
Proof.
  intros Hs Hm.
  destruct (canonical_digits sig Hs Hm) as (ds & Eds & Hne & Hv & Hd & _ & (r & c & Er & Hc)).
  destruct (decimal_of_repr_spec sig exp Hs Hm neg) as (k & Hk & Hcase).
  assert (c <> 46) as Hc46.
  { rewrite Er in Hd. apply Forall_app in Hd as [_ Hd]. apply Forall_cons in Hd as [Hd _].
    apply digit_not; [done|lia]. }
  unfold format_f. simpl is_zero.
  replace (sig =? 0) with false by (symmetry; apply Z.eqb_neq; lia).
  rewrite Hk. unfold decimal_format_f, decpt; simpl. rewrite Eds.
  destruct Hcase as [->|[He ->]].
  - rewrite app_nil_r, Z.sub_0_r. destruct (Z.leb_spec 0 exp).
    + rewrite !char_in_app, sign_no_point, !char_in_digits by auto using repeat_zeros_digits.
      simpl. by rewrite plain_int.
    + destruct (plain_frac_end r c (Z.of_nat (length ds) + exp)) as [r' Hr'].
      { rewrite <- Er. lia. }
      rewrite Er in *. rewrite Hr', app_assoc, !rstrip_char_end by done. by destruct (char_in 46 _).
  - destruct (Z.leb_spec 0 (exp - Z.of_nat (S (Z.to_nat exp)))); [lia|].
    rewrite replicate_S_end, app_assoc, (plain_int ds exp) by done.
    set (ip := ds ++ replicate (Z.to_nat exp) 48).
    assert (ip <> []) by (subst ip; by destruct ds).
    replace (Z.of_nat (length (ip ++ [48])) + (exp - Z.of_nat (S (Z.to_nat exp))))
      with (Z.of_nat (length ip)) by (rewrite length_app; simpl; lia).
    rewrite plain_point_zero, !char_in_app by done. rewrite !orb_true_r.
    assert (exists r' c', ip = r' ++ [c'] /\ c' <> 46) as (r' & c' & -> & Hc').
    { subst ip. destruct (Z.to_nat exp) as [|n].
      - exists r, c. by rewrite Er, app_nil_r.
      - exists (ds ++ replicate n 48), 48. by rewrite replicate_S_end, app_assoc. }
    rewrite (app_assoc (sign neg)), (app_assoc (sign neg) r'). by rewrite strip_point_zero.
Qed.

Lemma pop_zeros_replicate k c r e :
  c <> 48 -> pop_zeros (replicate k 48 ++ c :: r) e = (c :: r, e + Z.of_nat k).
Proof.
  intros Hc. revert e. induction k as [|k IH]; intros e; simpl.
  - destruct r; [by rewrite Z.add_0_r|].
    destruct (c =? 48) eqn:E; bool_prop; [done|]. by rewrite Z.add_0_r.
  - destruct (replicate k 48 ++ c :: r) eqn:E; [by destruct k|]. rewrite IH.
    f_equal. lia.
Qed.

(** [format_g] prints the plain or the exponential layout. *)
Lemma format_g_eq neg sig exp :
  0 < sig -> sig mod 10 <> 0 ->
  let ds := str_of_nonneg sig in
  let e := decpt sig exp - 1 in
  format_g (FFin neg sig exp) =
    sign neg ++ (if (e <? -4) || (21 <=? e) then mantissa ds ++ 101 :: exponent2 e
                 else plain ds (e + 1)).
Proof.
  intros Hs Hm ds e.
  destruct (canonical_digits sig Hs Hm) as (ds' & Eds & Hne & Hv & Hd & _ & (r & c & Er & Hc)).
  destruct (decimal_of_repr_spec sig exp Hs Hm false) as (k & Hk & _).
  unfold format_g. simpl is_zero. simpl float_abs.
  replace (sig =? 0) with false by (symmetry; apply Z.eqb_neq; lia).
  rewrite Hk. simpl d_digits. simpl d_exp. rewrite rev_app_distr, rev_replicate.
  fold ds in Eds |- *. rewrite Eds, Er, rev_app_distr. change (rev [c] ++ rev r) with (c :: rev r).
  rewrite pop_zeros_replicate by done.
  replace (rev (c :: rev r)) with ds by (simpl; by rewrite rev_involutive, Eds).
  replace (exp - Z.of_nat k + Z.of_nat k + (Z.of_nat (length ds) - 1)) with e
    by (subst e; unfold decpt; fold ds; lia).
  rewrite <- Er, <- Eds.
  assert ((if (length ds =? 1)%nat then ds else take 1 ds ++ u"." ++ drop 1 ds) = mantissa ds) as ->.
  { destruct ds as [|d [|d' l]]; [congruence|done|done]. }
  destruct neg; by destruct ((e <? -4) || (21 <=? e)).
Qed.

(** The significand lies between two powers of ten. *)
Lemma digits_bounds sig :
  0 < sig ->
  10 ^ (Z.of_nat (length (str_of_nonneg sig)) - 1) <= sig
  < 10 ^ Z.of_nat (length (str_of_nonneg sig)).
Proof.
  intros Hs. destruct (str_of_nonneg_spec sig) as (Hne & Hd & Hv & Hh & _); [lia|].
  destruct Hh as (c & r & E & Hc); [lia|].
  assert (forall l, Forall (fun c => is_digit c = true) l ->
            0 <= digits_val l < 10 ^ Z.of_nat (length l)) as Hb.
  { clear. induction l as [|x l IH] using rev_ind; intros H; [done|].
    apply Forall_app in H as [H1 H2]. apply Forall_cons in H2 as [H2 _].
    rewrite digits_val_app, length_app. simpl length. rewrite Nat2Z.inj_add, Z.pow_add_r by lia.
    unfold is_digit in H2. bool_prop. specialize (IH H1).
    replace (digits_val [x]) with (x - 48) by (unfold digits_val; simpl; lia). lia. }
  split; [|rewrite <- Hv at 1; by apply Hb].
  rewrite E in *. apply Forall_cons in Hd as [Hc1 Hr]. specialize (Hb r Hr).
  change (c :: r) with ([c] ++ r) in Hv. rewrite digits_val_app in Hv.
  replace (digits_val [c]) with (c - 48) in Hv by (unfold digits_val; simpl; lia).
  unfold is_digit in Hc1. bool_prop.
  replace (Z.of_nat (length (c :: r)) - 1) with (Z.of_nat (length r)) by (simpl length; lia).
  nia.
Qed.

(** Outside [1e-6, 1e21) [repr] is exponential. *)
Lemma json_exponent_range sig exp :
  0 < sig -> dec_ltb sig exp 1 (-6) || negb (dec_ltb sig exp 1 21) = true ->
  decpt sig exp <= -6 \/ 22 <= decpt sig exp.
Proof.
  intros Hs H. pose proof (digits_bounds sig Hs) as [Hlo Hhi]. unfold decpt, dec_ltb in *.
  set (n := Z.of_nat (length (str_of_nonneg sig))) in *.
  apply orb_true_iff in H as [H|H]; bool_prop.
  - left. destruct (Z.le_gt_cases (-6) exp) as [He|He].
    + rewrite Z.min_r in H by lia. assert (0 < 10 ^ (exp - -6)) by (apply Z.pow_pos_nonneg; lia).
      rewrite Z.sub_diag in H. nia.
    + rewrite Z.min_l, Z.sub_diag in H by lia.
      assert (10 ^ (n - 1) < 10 ^ (-6 - exp)) as Hp by lia.
      apply Z.pow_lt_mono_r_iff in Hp; lia.
  - right. destruct (Z.le_gt_cases 21 exp) as [He|He].
    + assert (1 <= n); [|lia]. subst n.
      destruct (str_of_nonneg_spec sig) as (Hne & _); [lia|].
      destruct (str_of_nonneg sig); [done|]. simpl. lia.
    + rewrite Z.min_l, Z.sub_diag in H by lia.
      assert (10 ^ (21 - exp) < 10 ^ n) as Hp by lia.
      apply Z.pow_lt_mono_r_iff in Hp; lia.
Qed.

Lemma clean_exponent_eq p s a :
  Forall (fun c => is_digit c = true) a -> (2 <= length a)%nat -> s = 43 \/ s = 45 ->
  exists a2, clean_exponent (p ++ 101 :: s :: a) = p ++ 101 :: s :: a2 /\
    signed_val (s :: a2) = signed_val (s :: a) /\ a2 <> [] /\
    Forall (fun c => is_digit c = true) a2.
Proof.
  intros Ha Hl Hsg.
  destruct a as [|d a _] using rev_ind; [simpl in Hl; lia|].
  destruct a as [|z a _] using rev_ind; [simpl in Hl; lia|].
  unfold clean_exponent. rewrite <- app_assoc. change ([z] ++ [d]) with [z; d].
  replace (p ++ 101 :: s :: a ++ [z; d]) with ((p ++ 101 :: s :: a) ++ [z; d])
    by (by rewrite <- app_assoc).
  rewrite rev_app_distr. simpl. rewrite rev_app_distr. simpl. rewrite <- app_assoc in Ha.
  apply Forall_app in Ha as [Ha Hzd].
  destruct a as [|x a _] using rev_ind; simpl.
  - destruct ((s =? 45) && (z =? 48)) eqn:E.
    + bool_prop. subst. exists [d]. rewrite <- app_assoc. simpl.
      rewrite rev_involutive, <- app_assoc.
      apply Forall_cons in Hzd as [_ Hzd]. done.
    + exists [z; d]. rewrite <- app_assoc. done.
  - exists ((a ++ [x]) ++ [z; d]). rewrite rev_app_distr. simpl.
    apply Forall_app in Ha as [Ha Hx].
    assert (match (rev a ++ [s]) ++ [101] ++ rev p with
            | e :: _ => e <> 101 | [] => False end) as He.
    { destruct a as [|y a _] using rev_ind; simpl; [lia|]. rewrite rev_app_distr. simpl.
      apply Forall_app in Ha as [_ Hy]. apply Forall_cons in Hy as [Hy _].
      apply digit_not; [done|lia]. }
    destruct (rev a ++ [s]) as [|y l] eqn:E; [by destruct (rev a)|]. simpl in *.
    replace (y =? 101) with false by (symmetry; by apply Z.eqb_neq). simpl.
    split_and!; [by rewrite <- app_assoc|done|by destruct a|].
    apply Forall_app. split; [|done]. by apply Forall_app.
Qed.

Lemma exponent2_digits e :
  exists s a, exponent2 e = s :: a /\ (s = 43 \/ s = 45) /\ (2 <= length a)%nat /\
    Forall (fun c => is_digit c = true) a.
Proof.
  unfold exponent2. destruct (str_of_nonneg_spec (Z.abs e)) as (Hne & Hd & _); [lia|].
  set (a := str_of_nonneg (Z.abs e)) in *. eexists _, _. split; [done|]. split.
  { destruct (0 <=? e); auto. }
  destruct (length a <? 2)%nat eqn:E.
  - split; [destruct a; simpl; [done|lia]|]. by constructor.
  - apply Nat.ltb_ge in E. done.
Qed.

(** [format_json] prints the plain layout, or the exponential one with Go's
    one-digit negative exponents. *)
Lemma format_json_eq neg sig exp :
  0 < sig -> sig mod 10 <> 0 ->
  exists body, format_json (FFin neg sig exp) = Some (sign neg ++ body) /\
    (body = plain (str_of_nonneg sig) (decpt sig exp) \/
     exists s a, body = mantissa (str_of_nonneg sig) ++ 101 :: s :: a /\
       (s = 43 \/ s = 45) /\ a <> [] /\ Forall (fun c => is_digit c = true) a /\
       signed_val (s :: a) = decpt sig exp - 1).
Proof.
  intros Hs Hm. unfold format_json. simpl is_zero.
  replace (sig =? 0) with false by (symmetry; apply Z.eqb_neq; lia).
  destruct (dec_ltb sig exp 1 (-6) || negb (dec_ltb sig exp 1 21)) eqn:E.
  - apply json_exponent_range in E; [|done]. unfold repr_float.
    replace (sig =? 0) with false by (symmetry; apply Z.eqb_neq; lia).
    assert ((decpt sig exp <=? -4) || (16 <? decpt sig exp) = true) as ->.
    { apply orb_true_iff. rewrite Z.leb_le, Z.ltb_lt. lia. }
    destruct (exponent2_digits (decpt sig exp - 1)) as (s & a & Ha & Hsg & Hl & Hd).
    destruct (clean_exponent_eq (sign neg ++ mantissa (str_of_nonneg sig)) s a)
      as (a2 & Hc & Hv & Hne & Hd2); [done..|].
    rewrite Ha, (app_assoc (sign neg)), Hc, <- app_assoc.
    eexists. split; [done|]. right. exists s, a2. split_and!; auto.
    by rewrite Hv, <- Ha, exponent2_val.
  - rewrite format_f_eq by done. eauto.
Qed.

(** Every valid float that is not zero has a canonical positive significand. *)
Lemma valid_float_inv neg sig exp :
  valid_float (FFin neg sig exp) = true ->
  (sig = 0 /\ exp = 0) \/
  (0 < sig /\ sig mod 10 <> 0 /\ float_of_decimal neg sig exp = FFin neg sig exp).
Proof.
  simpl. intros [H|H]%orb_true_iff; bool_prop; [auto|]. right. done.
Qed.

Lemma denotes_valid r neg sig exp :
  valid_float (FFin neg sig exp) = true -> sig <> 0 -> denotes r neg sig exp ->
  float_of_decimal r.1.1 r.1.2 r.2 = FFin neg sig exp.
Proof.
  intros [[? _]|(? & ? & Hf)]%valid_float_inv Hz Hd; [done|].
  by rewrite <- Hf, <- (denotes_float r neg sig exp).
Qed.

(** [float(text)] of a number text in the syntax the formatters print *)
Definition float_of_text (s : pystr) : pyfloat :=
  let '(neg, sig, exp) := read_number s in float_of_decimal neg sig exp.

Lemma float_of_text_denotes s neg sig exp :
  valid_float (FFin neg sig exp) = true -> sig <> 0 -> denotes (read_number s) neg sig exp ->
  float_of_text s = FFin neg sig exp.
Proof.
  intros Hv Hz Hd. unfold float_of_text. pose proof (denotes_valid _ _ _ _ Hv Hz Hd) as H.
  by destruct (read_number s) as [[n a] b].
Qed.

(** the three Go float formats are exact.  For every finite float, reading
    back the text of [format_f], of [format_g] and of [format_json] (which
    never fails on a finite float) gives the same float, sign of zero
    included. *)
Theorem go_float_formats_roundtrip f :
  isfinite f = true -> valid_float f = true ->
  float_of_text (format_f f) = f /\ float_of_text (format_g f) = f /\
  exists s, format_json f = Some s /\ float_of_text s = f.
Proof.
  destruct f as [|neg|neg sig exp]; try done. intros _ Hv.
  destruct (valid_float_inv _ _ _ Hv) as [[-> ->]|(Hs & Hm & _)].
  { destruct neg; split_and!; try done; eexists; split; done. }
  split_and!.
  - rewrite format_f_eq by done. apply float_of_text_denotes; [done|lia|by apply read_plain].
  - rewrite format_g_eq by done. cbv zeta. apply float_of_text_denotes; [done|lia|].
    destruct (_ || _); [apply read_exponential; [done|apply exponent2_val]|].
    rewrite Z.sub_add. by apply read_plain.
  - destruct (format_json_eq neg sig exp Hs Hm) as (body & -> & Hbody).
    eexists; split; [done|]. apply float_of_text_denotes; [done|lia|].
    destruct Hbody as [->|(s & a & -> & _ & _ & _ & Hval)]; [by apply read_plain|].
    by apply read_exponential.
Qed.

Lemma go_float_formats_roundtrip_witness :
  format_f (FFin true 15 (-8)) = u"-0.00000015" /\
  format_g (FFin true 15 (-8)) = u"-1.5e-07" /\
  format_json (FFin true 15 (-8)) = Some (u"-1.5e-7") /\
  float_of_text (u"-1.5e-7") = FFin true 15 (-8).
Proof.
  destruct (go_float_formats_roundtrip (FFin true 15 (-8)) eq_refl) as (_ & _ & s & Hs & Hr);
    [by vm_compute|].
  split_and!; [by vm_compute..|]. vm_compute in Hs. injection Hs as <-. exact Hr.
Defined.
