(* ===== verification/GoJson.v ===== *)
(** * The Go JSON encoder: eds/util/gojson.py and eds/util/gostruct.py

    [pyobj] is the Python data the encoder accepts; [marshal] and [stringify]
    reproduce Go's [json.Marshal] (sorted map keys, compact separators, HTML
    escaping), [compact_raw] the rendering of a [json.RawMessage], and
    [gojson_struct] the declaration-order struct encoding with per-field
    omitempty rules. *)
From stdpp Require Import base tactics list option numbers sets strings.
From S2P Require Import Prelude PyStr PyDict PyFloat GoFloat.

(** The omitempty rules of a struct field. *)
Inductive OmitEmpty : Type := NEVER | IF_NONE | IF_FALSY | IF_EMPTY_RAW.

(** Python objects: JSON values, [RawJson] fragments, and dataclasses with their
    fields in declaration order (JSON key, omit rule, value). *)
Inductive pyobj : Type :=
| PNone
| PBool (b : bool)
| PInt (n : Z)
| PFloat (f : pyfloat)
| PStr (s : pystr)
| PRaw (s : pystr)
| PStruct (fields : list (pystr * OmitEmpty * pyobj))
| PList (l : list pyobj)
| PDict (d : list (pystr * pyobj)).

Section pyobj_ind.
Context (P : pyobj -> Prop).
Context (HNone : P PNone) (HBool : forall b, P (PBool b)) (HInt : forall n, P (PInt n))
  (HFloat : forall f, P (PFloat f)) (HStr : forall s, P (PStr s)) (HRaw : forall s, P (PRaw s))
  (HStruct : forall fs, Forall (fun f => P f.2) fs -> P (PStruct fs))
  (HList : forall l, Forall P l -> P (PList l))
  (HDict : forall d, Forall (fun kv => P kv.2) d -> P (PDict d)).

(** Induction through the nested lists. *)
Fixpoint pyobj_nested_ind (v : pyobj) : P v :=
  match v with
  | PNone => HNone
  | PBool b => HBool b
  | PInt n => HInt n
  | PFloat f => HFloat f
  | PStr s => HStr s
  | PRaw s => HRaw s
  | PStruct fs =>
      HStruct fs ((fix go fs : Forall (fun f => P f.2) fs :=
        match fs with
        | [] => List.Forall_nil _
        | (x, y) :: fs' => List.Forall_cons (fun f => P f.2) (x, y) _ (pyobj_nested_ind y) (go fs')
        end) fs)
  | PList l =>
      HList l ((fix go l : Forall P l :=
        match l with
        | [] => List.Forall_nil _
        | x :: l' => List.Forall_cons P x _ (pyobj_nested_ind x) (go l')
        end) l)
  | PDict d =>
      HDict d ((fix go d : Forall (fun kv => P kv.2) d :=
        match d with
        | [] => List.Forall_nil _
        | (k, x) :: d' => List.Forall_cons (fun kv => P kv.2) (k, x) _ (pyobj_nested_ind x) (go d')
        end) d)
  end.
End pyobj_ind.

(** ** Strings *)

(** the escape of one character inside a string literal *)
Definition encode_char (o : Z) : pystr :=
  if o =? 34 then bsl ++ dq
  else if o =? 92 then bsl ++ bsl
  else if o =? 10 then u"\n"
  else if o =? 13 then u"\r"
  else if o =? 9 then u"\t"
  else if o <? 32 then u"\u" ++ hex4 o
  else if o =? 60 then u"\u003c"
  else if o =? 62 then u"\u003e"
  else if o =? 38 then u"\u0026"
  else if o =? 8232 then u"\u2028"
  else if o =? 8233 then u"\u2029"
  else [o].

Definition _encode_string (s : pystr) : pystr := dq ++ flat_map encode_char s ++ dq.

(** [for c in s:] with the two flags [in_string] and [escaped] *)
Fixpoint compact_raw_loop (in_string escaped : bool) (s : pystr) : pystr :=
  match s with
  | [] => []
  | c :: s' =>
      let html k :=
        if c =? 60 then u"\u003c" ++ k
        else if c =? 62 then u"\u003e" ++ k
        else if c =? 38 then u"\u0026" ++ k
        else if c =? 8232 then u"\u2028" ++ k
        else if c =? 8233 then u"\u2029" ++ k
        else c :: k in
      if in_string then
        if escaped then c :: compact_raw_loop in_string false s'
        else if c =? 92 then c :: compact_raw_loop in_string true s'
        else if c =? 34 then c :: compact_raw_loop false escaped s'
        else html (compact_raw_loop in_string escaped s')
      else if (c =? 32) || (c =? 9) || (c =? 10) || (c =? 13)
      then compact_raw_loop in_string escaped s'
      else if c =? 34 then c :: compact_raw_loop true escaped s'
      else html (compact_raw_loop in_string escaped s')
  end.

Definition compact_raw (s : pystr) : pystr := compact_raw_loop false false s.

(** ** Values *)

(** Python truthiness *)
Definition truthy (v : pyobj) : bool :=
  match v with
  | PNone => false
  | PBool b => b
  | PInt n => negb (n =? 0)
  | PFloat f => negb (is_zero f)
  | PStr s => negb (bool_decide (s = []))
  | PRaw _ | PStruct _ => true
  | PList l => match l with [] => false | _ => true end
  | PDict d => match d with [] => false | _ => true end
  end.

Definition _omitted (rule : OmitEmpty) (v : pyobj) : bool :=
  match rule with
  | IF_NONE => match v with PNone => true | _ => false end
  | IF_FALSY => negb (truthy v)
  | IF_EMPTY_RAW =>
      match v with PNone => true | PRaw s => bool_decide (s = []) | _ => false end
  | NEVER => false
  end.

(** sorting the entries of a dict by key *)
Definition entry_leb {A} (a b : pystr * A) : bool := str_leb a.1 b.1.
Definition sort_entries {A} (sort_keys : bool) (d : list (pystr * A)) : list (pystr * A) :=
  if sort_keys then py_sorted entry_leb d else d.

Definition braces (parts : list pystr) : pystr := u"{" ++ join (u",") parts ++ u"}".
Definition field_text (key t : pystr) : pystr := dq ++ key ++ dq ++ u":" ++ t.
Definition brackets (parts : list pystr) : pystr := u"[" ++ join (u",") parts ++ u"]".

(** The encoder; [None] is its ValueError (a float that is not finite). *)
Fixpoint _encode (sort_keys : bool) (v : pyobj) : option pystr :=
  match v with
  | PNone => Some (u"null")
  | PRaw s => Some (compact_raw s)
  | PStruct fs =>
      parts ← mapM (fun f => let '(key, rule, x) := f in
        if _omitted rule x then Some []
        else t ← _encode true x; Some [field_text key t]) fs;
      Some (braces (concat parts))
  | PBool b => Some (if b then u"true" else u"false")
  | PInt n => Some (str_of_Z n)
  | PFloat f => format_json f
  | PStr s => Some (_encode_string s)
  | PList l => parts ← mapM (_encode sort_keys) l; Some (brackets parts)
  | PDict d =>
      es ← mapM (fun kv => let '(k, x) := kv in t ← _encode sort_keys x; Some (k, t)) d;
      Some (braces ((fun kt => _encode_string kt.1 ++ u":" ++ kt.2)
                      <$> sort_entries sort_keys es))
  end.

Definition marshal (sort_keys : bool) (v : pyobj) : option pystr := _encode sort_keys v.

Definition stringify (v : pyobj) : pystr := default [] (marshal true v).

(** [gojson_struct(obj)] on the wire fields of a dataclass *)
Definition gojson_struct (fs : list (pystr * OmitEmpty * pyobj)) : option pystr :=
  marshal true (PStruct fs).
