(* ===== verification/JsonRoundtrip.v ===== *)
(** * The encoder and the decoder agree

    [json.loads] on what [gojson.marshal] prints gives the value back, with the
    keys of its dicts in the order they were printed in. *)
From stdpp Require Import base tactics list option numbers sets strings.
From S2P Require Import Prelude PyStr PyDict PyFloat GoFloat GoJson JsonLoads.

(** ** Strings *)

Lemma small_cases (c : Z) (P : Z -> Prop) :
  0 <= c < 32 -> Forall P (seqZ 0 32) -> P c.
Proof. intros Hc HP. rewrite Forall_forall in HP. apply HP. apply elem_of_seqZ. lia. Qed.

Lemma scanstring_control c rest :
  0 <= c < 32 -> scanstring (encode_char c ++ rest) = push c (scanstring rest).
Proof.
  intros Hc. revert rest. apply (small_cases c); [done|].
  repeat (constructor; [done|]). constructor.
Qed.

Lemma scanstring_char c rest :
  0 <= c -> scanstring (encode_char c ++ rest) = push c (scanstring rest).
Proof.
  intros Hc. destruct (Z.ltb_spec c 32) as [H|H]; [by apply scanstring_control|].
  unfold encode_char.
  repeat match goal with
  | |- context [if c =? ?k then _ else _] =>
      destruct (Z.eqb_spec c k) as [->|?]; [done || lia|]
  end.
  destruct (Z.ltb_spec c 32); [lia|].
  repeat match goal with
  | |- context [if c =? ?k then _ else _] =>
      destruct (Z.eqb_spec c k) as [->|?]; [done|]
  end.
  simpl. by bool_lia.
Qed.

Lemma scanstring_encoded s rest :
  Forall (fun c => 0 <= c) s -> scanstring (flat_map encode_char s ++ dq ++ rest) = Some (s, rest).
Proof.
  induction 1 as [|c s Hc Hs IH]; [done|]. simpl flat_map.
  rewrite <- app_assoc, scanstring_char, IH by done. done.
Qed.

(** ** Numbers *)

Notation digits := (Forall (fun c => is_digit c = true)).

(** the text of a number from its parts *)
Definition number_text (neg : bool) (ip : pystr) (fr ex : option pystr) : pystr :=
  sign neg ++ ip ++ match fr with Some f => 46 :: f | None => [] end
  ++ match ex with Some e => 101 :: e | None => [] end.

(** the parts are those of a JSON number *)
Definition number_parts (ip : pystr) (fr ex : option pystr) : Prop :=
  (ip = [48] \/ exists c r, ip = c :: r /\ c <> 48 /\ digits ip) /\
  (forall f, fr = Some f -> f <> [] /\ digits f) /\
  (forall e, ex = Some e -> exists s a, e = s :: a /\ (s = 43 \/ s = 45) /\ a <> [] /\ digits a).

(** what may follow a number without being read as a part of it *)
Definition delimiter (rest : pystr) : Prop :=
  match rest with
  | [] => True
  | c :: _ => is_digit c = false /\ c <> 46 /\ c <> 101 /\ c <> 69
  end.

Lemma span_digits_app ds rest :
  digits ds -> match rest with [] => True | c :: _ => is_digit c = false end ->
  span_digits (ds ++ rest) = (ds, rest).
Proof.
  intros Hd Hr. induction Hd as [|c ds Hc Hd IH]; simpl.
  - destruct rest as [|c r]; simpl; [done|]. by rewrite Hr.
  - by rewrite Hc, IH.
Qed.

Lemma number_parts_int ip fr ex : number_parts ip fr ex -> ip <> [] /\ digits ip.
Proof.
  intros [[->|(c & r & -> & _ & H)] _]; split; try done. by repeat constructor.
Qed.

(** [float(text)] of a number text *)
Lemma float_of_number_text neg ip fr ex :
  number_parts ip fr ex ->
  float_of_text (number_text neg ip fr ex) =
  float_of_decimal neg (digits_val (ip ++ default [] fr))
    (match ex with Some e => signed_val e | None => 0 end - Z.of_nat (length (default [] fr))).
Proof.
  intros H. pose proof (number_parts_int _ _ _ H) as [Hne Hd]. destruct H as (_ & Hf & _).
  unfold float_of_text, read_number, number_text. destruct fr as [f|]; simpl default.
  - destruct (Hf f eq_refl) as [_ Hfd]. simpl app. by rewrite split_number_parts.
  - rewrite app_nil_l, split_number_int by done. done.
Qed.

Lemma delimiter_not_digit rest :
  delimiter rest -> match rest with [] => True | c :: _ => is_digit c = false end.
Proof. destruct rest; simpl; naive_solver. Qed.

Lemma scan_sign_text neg c r : is_digit c = true -> scan_sign (sign neg ++ c :: r) = (neg, c :: r).
Proof.
  intros Hc. destruct neg; simpl; [done|].
  destruct (Z.eqb_spec c 45) as [->|]; [done|done].
Qed.

Lemma scan_int_text ip rest :
  (ip = [48] \/ exists c r, ip = c :: r /\ c <> 48 /\ digits ip) ->
  match rest with [] => True | c :: _ => is_digit c = false end ->
  scan_int (ip ++ rest) = Some (ip, rest).
Proof.
  intros [->|(c & r & -> & Hc & Hd)] Hr; [done|]. apply Forall_cons in Hd as [Hd Hds]. simpl.
  destruct (Z.eqb_spec c 48); [done|]. by rewrite Hd, span_digits_app.
Qed.

Lemma scan_frac_text fr rest :
  (forall f, fr = Some f -> f <> [] /\ digits f) ->
  match rest with [] => True | c :: _ => is_digit c = false /\ c <> 46 end ->
  scan_frac (match fr with Some f => 46 :: f | None => [] end ++ rest) = (fr, rest).
Proof.
  intros Hf Hr. destruct fr as [f|]; simpl.
  - destruct (Hf f eq_refl) as [Hne Hd].
    rewrite span_digits_app by (done || (destruct rest; naive_solver)). by destruct f.
  - destruct rest as [|c r]; [done|]. simpl. destruct Hr as [_ Hr].
    by destruct (Z.eqb_spec c 46).
Qed.

Lemma scan_exp_text ex rest :
  (forall e, ex = Some e -> exists s a, e = s :: a /\ (s = 43 \/ s = 45) /\ a <> [] /\ digits a) ->
  delimiter rest ->
  scan_exp (match ex with Some e => 101 :: e | None => [] end ++ rest) = (ex, rest).
Proof.
  intros He Hr. destruct ex as [e|].
  - destruct (He e eq_refl) as (s & a & -> & Hs & Hne & Hd). simpl.
    replace ((s =? 43) || (s =? 45)) with true by (destruct Hs; subst; done).
    rewrite span_digits_app by (done || by apply delimiter_not_digit). by destruct a.
  - destruct rest as [|c r]; [done|]. simpl. destruct Hr as (_ & _ & H1 & H2).
    destruct (Z.eqb_spec c 101), (Z.eqb_spec c 69); done.
Qed.

(** The decoder reads a number text whole and stops at the delimiter. *)
Lemma scan_number_text o neg ip fr ex rest :
  number_parts ip fr ex -> delimiter rest ->
  scan_number o (number_text neg ip fr ex ++ rest) =
  Some (match fr, ex with
        | None, None => if parse_int_float o then PFloat (float_of_text (number_text neg ip fr ex))
                        else PInt (if neg then - digits_val ip else digits_val ip)
        | _, _ => PFloat (float_of_text (number_text neg ip fr ex))
        end, rest).
Proof.
  intros Hp Hr. rewrite float_of_number_text by done.
  destruct (number_parts_int _ _ _ Hp) as [Hne Hd]. destruct Hp as (Hi & Hf & He).
  unfold number_text, scan_number. rewrite <- !app_assoc.
  destruct ip as [|c ip]; [done|]. simpl app. rewrite scan_sign_text by (by inversion Hd).
  rewrite app_comm_cons, scan_int_text; [|done|].
  2: { destruct fr; [done|]. destruct ex; [done|]. by apply delimiter_not_digit. }
  simpl mbind. rewrite scan_frac_text; [|done|].
  2: { destruct ex; [done|]. destruct rest; simpl in *; naive_solver. }
  rewrite scan_exp_text by done.
  destruct fr, ex; [done..|]. simpl default. rewrite app_nil_r.
  by destruct (parse_int_float o).
Qed.

(** Integers print as number texts. *)
Lemma str_of_Z_text n :
  exists neg ip, str_of_Z n = number_text neg ip None None /\ number_parts ip None None /\
    (if neg then - digits_val ip else digits_val ip) = n.
Proof.
  assert (forall m, 0 <= m -> number_parts (str_of_nonneg m) None None) as Hp.
  { intros m Hm. destruct (str_of_nonneg_spec m Hm) as (_ & Hd & _ & Hh & Hz).
    split; [|split; done]. destruct (decide (m = 0)) as [E|E]; [left; auto|right].
    destruct (Hh E) as (c & r & Er & Hc). exists c, r. by rewrite Er in *. }
  unfold str_of_Z, number_text. destruct (Z.ltb_spec n 0).
  - exists true, (str_of_nonneg (- n)). rewrite !app_nil_r. split_and!; auto with lia.
    destruct (str_of_nonneg_spec (- n)) as (_ & _ & -> & _); lia.
  - exists false, (str_of_nonneg n). rewrite !app_nil_r. split_and!; auto with lia.
    destruct (str_of_nonneg_spec n) as (_ & _ & -> & _); lia.
Qed.

(** The plain layout is a number text, with a fraction when the number has one. *)
Lemma plain_text sig exp :
  0 < sig -> sig mod 10 <> 0 ->
  exists ip fr, plain (str_of_nonneg sig) (decpt sig exp)
    = ip ++ match fr with Some f => 46 :: f | None => [] end /\
    number_parts ip fr None /\ (exp < 0 -> fr <> None).
Proof.
  intros Hs Hm. destruct (canonical_digits sig Hs Hm) as (ds & E & Hne & _ & Hd & (c & r & Ec & Hc) & _).
  unfold decpt. rewrite E. clear E. unfold plain.
  destruct (Z.leb_spec (Z.of_nat (length ds) + exp) 0) as [H|H].
  { exists [48], (Some (repeat_char 48 (- (Z.of_nat (length ds) + exp)) ++ ds)).
    split_and!; [done| |done]. split; [by left|]. split; [|done].
    intros f [= <-]. split; [by destruct (repeat_char _ _), ds|].
    apply Forall_app. split; [apply repeat_zeros_digits|done]. }
  destruct (Z.leb_spec (Z.of_nat (length ds)) (Z.of_nat (length ds) + exp)) as [H'|H'].
  { exists (ds ++ repeat_char 48 (Z.of_nat (length ds) + exp - Z.of_nat (length ds))), None.
    rewrite app_nil_r. split_and!; [done| |lia]. split; [|done]. right. subst ds.
    eexists c, _. split; [done|]. split; [done|].
    apply Forall_app. split; [done|apply repeat_zeros_digits]. }
  set (k := Z.to_nat _). assert (0 < k < length ds)%nat by lia.
  exists (take k ds), (Some (drop k ds)). split_and!; [done| |done].
  split; [|split; [|done]].
  - right. subst ds. destruct k; [lia|]. eexists c, _. split; [done|]. split; [done|].
    by apply Forall_take.
  - intros f [= <-]. split; [|by apply Forall_drop].
    intros E'. apply (f_equal length) in E'. rewrite length_drop in E'. simpl in E'. lia.
Qed.

Lemma mantissa_text sig s a :
  0 < sig -> sig mod 10 <> 0 -> s = 43 \/ s = 45 -> a <> [] -> digits a ->
  exists ip fr, mantissa (str_of_nonneg sig)
    = ip ++ match fr with Some f => 46 :: f | None => [] end /\
    number_parts ip fr (Some (s :: a)).
Proof.
  intros Hs Hm Hsg Hne Ha.
  destruct (canonical_digits sig Hs Hm) as (ds & E & _ & _ & Hd & (c & r & -> & Hc) & _).
  rewrite E. apply Forall_cons in Hd as [Hdc Hdr].
  exists [c], (match r with [] => None | _ => Some r end).
  split; [by destruct r|]. split.
  - right. exists c, []. split_and!; try done. by repeat constructor.
  - split; [destruct r; intros ? [=]; by subst|]. intros e [= <-]. eauto 6.
Qed.

(** Finite floats print as number texts that denote them; the text shows a
    fraction or an exponent when the number is not an integer. *)
Lemma format_json_text f :
  isfinite f = true -> valid_float f = true ->
  exists neg ip fr ex, format_json f = Some (number_text neg ip fr ex) /\
    number_parts ip fr ex /\ float_of_text (number_text neg ip fr ex) = f /\
    (match f with FFin _ _ exp => exp < 0 | _ => False end -> fr <> None \/ ex <> None).
Proof.
  destruct f as [|neg|neg sig exp]; try done. intros _ Hv.
  destruct (valid_float_inv _ _ _ Hv) as [[-> ->]|(Hs & Hm & _)].
  { exists neg, [48], None, None. split_and!; try lia; [by destruct neg| |by destruct neg].
    split; [by left|done]. }
  destruct (format_json_eq neg sig exp Hs Hm) as (body & -> & [->|(s & a & -> & Hsg & Hne & Ha & Hval)]).
  - destruct (plain_text sig exp Hs Hm) as (ip & fr & E & Hp & Hf).
    exists neg, ip, fr, None. unfold number_text. rewrite app_nil_r, <- E.
    split_and!; auto. apply float_of_text_denotes; [done|lia|]. by apply read_plain.
  - destruct (mantissa_text sig s a Hs Hm Hsg Hne Ha) as (ip & fr & E & Hp).
    exists neg, ip, fr, (Some (s :: a)). unfold number_text.
    replace (ip ++ _) with (mantissa (str_of_nonneg sig) ++ 101 :: s :: a)
      by (rewrite E; by rewrite <- app_assoc).
    split_and!; auto. apply float_of_text_denotes; [done|lia|]. by apply read_exponential.
Qed.

(** ** Values *)

(** The values [json.loads] can return under the options: plain data with
    distinct keys, whose numbers survive the text (under [parse_int=float] every
    number is a float; otherwise a float that prints like an integer is not). *)
Definition number_ok (o : json_opts) (v : pyobj) : bool :=
  match v with
  | PInt _ => negb (parse_int_float o)
  | PFloat (FFin neg sig exp) =>
      valid_float (FFin neg sig exp) && (parse_int_float o || (exp <? 0))
  | _ => false
  end.

Definition chars_ok (s : pystr) : bool := forallb (Z.leb 0) s.

(** a struct key that prints as itself *)
Definition key_ok (k : pystr) : bool := forallb (fun c => bool_decide (encode_char c = [c]) && (0 <=? c)) k.

Section wire_value.
(** which raw fragments may occur, and the value each of them stands for *)
Context (raw_ok : pystr -> bool) (raw_value : pystr -> pyobj).

Fixpoint wire_ok (o : json_opts) (v : pyobj) : bool :=
  match v with
  | PNone | PBool _ => true
  | PInt _ | PFloat _ => number_ok o v
  | PStr s => chars_ok s
  | PRaw s => raw_ok s
  | PStruct fs =>
      bool_decide (NoDup (fs.*1).*1) &&
      forallb (fun f => let '(k, rule, x) := f in key_ok k && (_omitted rule x || wire_ok o x)) fs
  | PList l => forallb (wire_ok o) l
  | PDict d =>
      bool_decide (NoDup d.*1) && forallb (fun kv => chars_ok kv.1 && wire_ok o kv.2) d
  end.

(** What is read back: structs as dicts without their omitted fields, the
    entries of dicts in the printed order. *)
Fixpoint wire (sort_keys : bool) (v : pyobj) : pyobj :=
  match v with
  | PRaw s => raw_value s
  | PStruct fs =>
      PDict (flat_map (fun f => let '(k, rule, x) := f in
               if _omitted rule x then [] else [(k, wire true x)]) fs)
  | PList l => PList (wire sort_keys <$> l)
  | PDict d =>
      PDict (sort_entries sort_keys ((fun kv => (kv.1, wire sort_keys kv.2)) <$> d))
  | _ => v
  end.
End wire_value.

(** Values with no raw fragment. *)
Definition json_ok : json_opts -> pyobj -> bool := wire_ok (fun _ => false).
Definition sort_dicts : bool -> pyobj -> pyobj := wire (fun _ => PNone).

(** [t] is a text that the decoder reads as [v], with any fuel of at least twice
    its length and before any delimiter. *)
Definition reads (o : json_opts) (t : pystr) (v : pyobj) : Prop :=
  match t with c :: _ => is_ws c = false /\ c <> 93 /\ c <> 125 | [] => False end /\
  forall fuel rest, (2 * length t <= fuel)%nat -> delimiter rest ->
    scan_once o fuel (t ++ rest) = Some (v, rest).

Lemma skip_ws_id c s : is_ws c = false -> skip_ws (c :: s) = c :: s.
Proof. simpl. by intros ->. Qed.

Lemma chars_ok_spec s : chars_ok s = true -> Forall (fun c => 0 <= c) s.
Proof.
  unfold chars_ok. rewrite forallb_forall, Forall_forall. intros H x Hx.
  apply Z.leb_le, H. by apply list_elem_of_In.
Qed.

Lemma reads_string o s : chars_ok s = true -> reads o (_encode_string s) (PStr s).
Proof.
  intros Hs%chars_ok_spec. split; [done|]. intros [|fuel] rest Hf _; [simpl in Hf; lia|].
  unfold _encode_string. rewrite <- !app_assoc. simpl scan_once.
  change (34 :: rest) with (dq ++ rest). by rewrite scanstring_encoded.
Qed.

Lemma digit_cases (c : Z) (P : Z -> Prop) : is_digit c = true -> Forall P (seqZ 48 10) -> P c.
Proof.
  unfold is_digit. intros Hc HP. bool_prop. rewrite Forall_forall in HP. apply HP.
  apply elem_of_seqZ. lia.
Qed.

(** No literal begins like a number. *)
Lemma scan_literal_number o neg c r :
  is_digit c = true -> scan_literal (literals o) (sign neg ++ c :: r) = None.
Proof.
  intros Hc. revert r. apply (digit_cases c); [done|].
  repeat (constructor; [by destruct neg|]). constructor.
Qed.

Lemma number_text_head neg ip fr ex :
  number_parts ip fr ex -> exists c r, number_text neg ip fr ex = sign neg ++ c :: r /\ is_digit c = true.
Proof.
  intros [Hne Hd]%number_parts_int. destruct ip as [|c ip]; [done|].
  unfold number_text. simpl. eexists c, _. split; [done|]. by inversion Hd.
Qed.

Lemma scan_once_digit o fuel neg c r :
  is_digit c = true -> scan_once o (S fuel) (sign neg ++ c :: r) = scan_number o (sign neg ++ c :: r).
Proof.
  intros Hc. assert (48 <= c <= 57) by (unfold is_digit in Hc; bool_prop; lia).
  pose proof (scan_literal_number o neg c r Hc) as Hl.
  unfold scan_once. fold (scan_once o). destruct neg; simpl app in *; rewrite Hl; by bool_lia.
Qed.

(** A number text is read back as its number. *)
Lemma reads_number_text o neg ip fr ex v :
  number_parts ip fr ex ->
  v = match fr, ex with
      | None, None => if parse_int_float o then PFloat (float_of_text (number_text neg ip fr ex))
                      else PInt (if neg then - digits_val ip else digits_val ip)
      | _, _ => PFloat (float_of_text (number_text neg ip fr ex))
      end ->
  reads o (number_text neg ip fr ex) v.
Proof.
  intros Hp ->. destruct (number_text_head neg ip fr ex Hp) as (c & r & E & Hc). split.
  - rewrite E. unfold is_digit in Hc. bool_prop. unfold is_ws.
    destruct neg; simpl; [done|]. bool_lia. split; [done|lia].
  - intros fuel rest Hf Hr. rewrite <- (scan_number_text o neg ip fr ex rest Hp Hr).
    destruct fuel as [|fuel]; [rewrite E, length_app in Hf; simpl in Hf; lia|].
    rewrite E, <- app_assoc. simpl app. by apply scan_once_digit.
Qed.

Lemma reads_number o sk v :
  number_ok o v = true -> exists t, _encode sk v = Some t /\ reads o t v.
Proof.
  destruct v as [| |n|f| | | | |]; try done; intros H; simpl in H.
  - destruct (str_of_Z_text n) as (neg & ip & E & Hp & Hn).
    exists (str_of_Z n). split; [done|]. rewrite E. apply reads_number_text; [done|].
    apply negb_true_iff in H. by rewrite H, Hn.
  - destruct f as [| |n sig exp]; try done. apply andb_true_iff in H as [Hv Ho].
    destruct (format_json_text (FFin n sig exp) eq_refl Hv) as (neg & ip & fr & ex & E & Hp & Ht & Hx).
    exists (number_text neg ip fr ex). split; [done|]. apply reads_number_text; [done|].
    rewrite Ht. destruct fr, ex; try done.
    apply orb_true_iff in Ho as [->|Ho]; [done|]. bool_prop. naive_solver.
Qed.

Lemma scan_items_step o fuel s v x r1 :
  scan_once o fuel s = Some (v, x :: r1) -> is_ws x = false ->
  scan_items o (S fuel) s =
    if x =? 44 then '(l, r2) ← scan_items o fuel (skip_ws r1); Some (v :: l, r2)
    else if x =? 93 then Some ([v], r1) else None.
Proof. intros H Hx. simpl. rewrite H. simpl. by rewrite Hx. Qed.

Lemma reads_skip_ws o t v rest : reads o t v -> skip_ws (t ++ rest) = t ++ rest.
Proof. intros [H _]. destruct t as [|c t]; [done|]. simpl. by destruct H as [-> _]. Qed.

Lemma reads_items o ts vs fuel rest :
  Forall2 (reads o) ts vs -> ts <> [] -> (2 * length (join (u",") ts) + 2 <= fuel)%nat ->
  scan_items o fuel (join (u",") ts ++ 93 :: rest) = Some (vs, rest).
Proof.
  intros H. revert fuel. induction H as [|t v ts vs Ht Hts IH]; intros fuel Hne Hf; [done|].
  destruct fuel as [|fuel]; [lia|]. rewrite join_cons in Hf |- *.
  destruct Hts as [|t' v' ts vs Ht' Hts].
  - rewrite app_nil_r in *.
    rewrite (scan_items_step o fuel _ v 93 rest); [done| |done].
    apply Ht; [lia|done].
  - set (j := join (u",") (t' :: ts)) in *. rewrite !length_app in Hf. simpl in Hf.
    rewrite <- !app_assoc.
    rewrite (scan_items_step o fuel _ v 44 (j ++ 93 :: rest)); [| |done].
    2: { apply Ht; [lia|done]. }
    rewrite Z.eqb_refl. replace (skip_ws (j ++ 93 :: rest)) with (j ++ 93 :: rest).
    { rewrite IH; [done|done|lia]. }
    unfold j. rewrite join_cons, <- app_assoc. by rewrite (reads_skip_ws o t' v').
Qed.

(** an encoded entry of a dict and what it is read as *)
Definition reads_entry (o : json_opts) (kt : pystr * pystr) (kv : pystr * pyobj) : Prop :=
  kt.1 = kv.1 /\ chars_ok kt.1 = true /\ reads o kt.2 kv.2.
Definition entry_text (kt : pystr * pystr) : pystr := _encode_string kt.1 ++ u":" ++ kt.2.

Lemma entry_text_length k t : (length t <= length (entry_text (k, t)))%nat.
Proof. unfold entry_text. rewrite !length_app. simpl. lia. Qed.

Lemma scan_members_step o fuel k t v x r1 :
  reads o t v -> chars_ok k = true -> (2 * length t <= fuel)%nat -> delimiter (x :: r1) ->
  is_ws x = false ->
  scan_members o (S fuel) (entry_text (k, t) ++ x :: r1) =
    if x =? 44 then '(d, r2) ← scan_members o fuel (skip_ws r1); Some ((k, v) :: d, r2)
    else if x =? 125 then Some ([(k, v)], r1) else None.
Proof.
  intros Ht Hk%chars_ok_spec Hf Hd Hx. unfold entry_text, _encode_string. simpl fst. simpl snd.
  rewrite <- !app_assoc. simpl scan_members.
  change (34 :: ?c :: ?y) with (dq ++ [58] ++ y).
  rewrite scanstring_encoded by done. simpl.
  rewrite (reads_skip_ws o t v) by done. destruct Ht as [_ Ht].
  rewrite Ht by done. simpl. by rewrite Hx.
Qed.

Lemma reads_members o kts d fuel rest :
  Forall2 (reads_entry o) kts d -> kts <> [] ->
  (2 * length (join (u",") (entry_text <$> kts)) + 2 <= fuel)%nat ->
  scan_members o fuel (join (u",") (entry_text <$> kts) ++ 125 :: rest) = Some (d, rest).
Proof.
  intros H. revert fuel.
  induction H as [|[k t] [k' v] kts d (Hk & Hc & Ht) Hkts IH]; intros fuel Hne Hf; [done|].
  simpl in Hk, Hc, Ht. subst k'. destruct fuel as [|fuel]; [lia|].
  pose proof (entry_text_length k t). rewrite fmap_cons, join_cons in Hf |- *.
  destruct Hkts as [|[k' t'] kv' kts d Ht' Hkts].
  - rewrite fmap_nil, app_nil_r in *.
    rewrite (scan_members_step o fuel k t v 125 rest); try done. lia.
  - rewrite fmap_cons in Hf, IH |- *. set (j := join (u",") (_ :: _)) in *.
    rewrite !length_app in Hf. change (length (u",")) with 1%nat in Hf.
    rewrite <- !app_assoc. change (u"," ++ j ++ 125 :: rest) with (44 :: j ++ 125 :: rest).
    rewrite (scan_members_step o fuel k t v 44 (j ++ 125 :: rest));
      try done; [|lia].
    rewrite Z.eqb_refl. replace (skip_ws (j ++ 125 :: rest)) with (j ++ 125 :: rest).
    { rewrite IH; [done|done|lia]. }
    unfold j. rewrite join_cons. done.
Qed.

(** Sorting entries by key does not look at the values. *)
Lemma insert_entry_Forall2 {A B} (R : pystr * A -> pystr * B -> Prop) a b l l' :
  (forall x y, R x y -> x.1 = y.1) -> R a b -> Forall2 R l l' ->
  Forall2 R (insert_sorted entry_leb a l) (insert_sorted entry_leb b l').
Proof.
  intros HR Hab. induction 1 as [|x y l l' Hxy Hl IH]; simpl; [by repeat constructor|].
  unfold entry_leb at 1 3. rewrite (HR _ _ Hab), (HR _ _ Hxy).
  destruct (str_leb b.1 y.1); by repeat constructor.
Qed.

Lemma sort_entries_Forall2 {A B} (R : pystr * A -> pystr * B -> Prop) sk l l' :
  (forall x y, R x y -> x.1 = y.1) -> Forall2 R l l' ->
  Forall2 R (sort_entries sk l) (sort_entries sk l').
Proof.
  intros HR H. destruct sk; [|done].
  induction H as [|x y l l' Hxy Hl IH]; simpl; [constructor|]. by apply insert_entry_Forall2.
Qed.

Lemma sort_entries_keys_NoDup {A} sk (d : list (pystr * A)) :
  NoDup d.*1 -> NoDup (sort_entries sk d).*1.
Proof. intros H. destruct sk; [|done]. simpl. by rewrite py_sorted_perm. Qed.

Lemma reads_nonempty o t v : reads o t v -> t <> [].
Proof. intros [H _] ->. done. Qed.

Lemma scan_once_list o fuel c s l r :
  is_ws c = false -> c <> 93 -> scan_items o fuel (c :: s) = Some (l, r) ->
  scan_once o (S fuel) (91 :: c :: s) = Some (PList l, r).
Proof.
  intros Hc Hn H. simpl. rewrite Hc. destruct (Z.eqb_spec c 93); [done|]. by rewrite H.
Qed.

Lemma scan_once_dict o fuel c s d r :
  is_ws c = false -> c <> 125 -> scan_members o fuel (c :: s) = Some (d, r) -> NoDup d.*1 ->
  scan_once o (S fuel) (123 :: c :: s) = Some (PDict d, r).
Proof.
  intros Hc Hn H Hd. simpl. rewrite Hc. destruct (Z.eqb_spec c 125); [done|]. rewrite H. simpl.
  by rewrite dict_update_fresh.
Qed.

Lemma reads_list o ts vs : Forall2 (reads o) ts vs -> reads o (brackets ts) (PList vs).
Proof.
  intros H. unfold brackets. change (u"[") with [91]. change (u"]") with [93].
  split; [done|]. intros [|fuel] rest Hf _; [simpl in Hf; lia|].
  rewrite !length_app in Hf. simpl in Hf. destruct H as [|t v ts vs Ht Hts]; [done|].
  rewrite <- !app_assoc. change ([91] ++ ?x) with (91 :: x). change ([93] ++ rest) with (93 :: rest).
  assert (scan_items o fuel (join (u",") (t :: ts) ++ 93 :: rest) = Some (v :: vs, rest)) as Hi.
  { apply reads_items; [by constructor|done|lia]. }
  rewrite join_cons in *. destruct Ht as [Hh _]. destruct t as [|c t]; [done|].
  destruct Hh as (? & ? & ?). by apply scan_once_list.
Qed.

Lemma reads_dict o kts d :
  Forall2 (reads_entry o) kts d -> NoDup d.*1 -> reads o (braces (entry_text <$> kts)) (PDict d).
Proof.
  intros H Hd. unfold braces. change (u"{") with [123]. change (u"}") with [125].
  split; [done|]. intros [|fuel] rest Hf _; [simpl in Hf; lia|].
  rewrite !length_app in Hf. cbn [length] in Hf. destruct H as [|kt kv kts d Ht Hts]; [done|].
  rewrite <- !app_assoc. change ([123] ++ ?x) with (123 :: x). change ([125] ++ rest) with (125 :: rest).
  assert (scan_members o fuel (join (u",") (entry_text <$> kt :: kts) ++ 125 :: rest)
          = Some (kv :: d, rest)) as Hi.
  { apply reads_members; [by constructor|done|lia]. }
  rewrite fmap_cons, join_cons in Hi |- *. by apply scan_once_dict.
Qed.

Lemma key_ok_encode k : key_ok k = true -> _encode_string k = dq ++ k ++ dq /\ chars_ok k = true.
Proof.
  unfold key_ok, _encode_string, chars_ok. induction k as [|c k IH]; simpl; [done|].
  intros [[Hc%bool_decide_eq_true H0]%andb_true_iff Hk]%andb_true_iff.
  destruct (IH Hk) as [E ->]. rewrite H0, Hc. split; [|done].
  simpl in E. injection E as E. simpl. by rewrite E.
Qed.

Lemma reads_literal o sk v t :
  (v = PNone /\ t = u"null") \/ (v = PBool true /\ t = u"true") \/ (v = PBool false /\ t = u"false") ->
  _encode sk v = Some t /\ reads o t v.
Proof.
  intros [[-> ->]|[[-> ->]|[-> ->]]]; (split; [done|]); (split; [done|]);
    (intros [|fuel] rest Hf _; [simpl in Hf; lia|]); destruct o; done.
Qed.

Section encodes.
Context (o : json_opts) (raw_ok : pystr -> bool) (raw_value : pystr -> pyobj).
Context (Hraw : forall s, raw_ok s = true -> reads o (compact_raw s) (raw_value s)).

(** Every encodable value is encoded as a text the decoder reads back. *)
Definition encodes (v : pyobj) : Prop :=
  forall sk, wire_ok raw_ok o v = true ->
  exists t, _encode sk v = Some t /\ reads o t (wire raw_value sk v).

Lemma encodes_list sk l :
  Forall encodes l -> forallb (wire_ok raw_ok o) l = true ->
  exists ts, mapM (_encode sk) l = Some ts /\ Forall2 (reads o) ts (wire raw_value sk <$> l).
Proof.
  induction 1 as [|v l Hv Hl IH]; simpl; [by exists []|].
  intros [Hok Hoks]%andb_true_iff. destruct (Hv sk Hok) as (t & -> & Ht).
  destruct (IH Hoks) as (ts & -> & Hts). exists (t :: ts). split; [done|]. by constructor.
Qed.

Lemma encodes_dict sk d :
  Forall (fun kv => encodes kv.2) d ->
  forallb (fun kv => chars_ok kv.1 && wire_ok raw_ok o kv.2) d = true ->
  exists kts, mapM (fun kv => let '(k, x) := kv in t ← _encode sk x; Some (k, t)) d = Some kts /\
    Forall2 (reads_entry o) kts ((fun kv => (kv.1, wire raw_value sk kv.2)) <$> d).
Proof.
  induction 1 as [|[k v] d Hv Hd IH]; simpl; [by exists []|].
  intros [[Hk Hok]%andb_true_iff Hoks]%andb_true_iff. destruct (Hv sk Hok) as (t & E & Ht).
  destruct (IH Hoks) as (kts & Ek & Hts). simpl in E. exists ((k, t) :: kts).
  rewrite E. simpl. rewrite Ek. split; [done|]. by constructor.
Qed.

Lemma encodes_struct fs :
  Forall (fun f => encodes f.2) fs ->
  forallb (fun f => let '(k, rule, x) := f in key_ok k && (_omitted rule x || wire_ok raw_ok o x)) fs
    = true ->
  exists kts parts,
    mapM (fun f => let '(key, rule, x) := f in
      if _omitted rule x then Some []
      else t ← _encode true x; Some [field_text key t]) fs = Some parts /\
    concat parts = entry_text <$> kts /\
    Forall2 (reads_entry o) kts
      (flat_map (fun f => let '(k, rule, x) := f in
         if _omitted rule x then [] else [(k, wire raw_value true x)]) fs).
Proof.
  induction 1 as [|[[k rule] x] fs Hv Hfs IH]; simpl; [by exists [], []|].
  intros [[Hk Hok]%andb_true_iff Hoks]%andb_true_iff.
  destruct (IH Hoks) as (kts & parts & E & Ec & Hr).
  destruct (_omitted rule x); simpl.
  { exists kts, ([] :: parts). by rewrite E. }
  destruct (Hv true Hok) as (t & Et & Ht). simpl in Et, Ht. rewrite Et. simpl. rewrite E. simpl.
  destruct (key_ok_encode k Hk) as [Ek Hck].
  exists ((k, t) :: kts), ([field_text k t] :: parts).
  split; [done|]. split; [|by constructor].
  simpl concat. rewrite Ec, fmap_cons. unfold entry_text at 2, field_text. cbn [fst snd].
  rewrite Ek, <- !app_assoc. done.
Qed.

Lemma struct_keys_NoDup fs :
  NoDup ((fs : list (pystr * OmitEmpty * pyobj)).*1).*1 ->
  NoDup (flat_map (fun f => let '(k, rule, x) := f in
           if _omitted rule x then [] else [(k, wire raw_value true x)]) fs).*1.
Proof.
  induction fs as [|[[k rule] x] fs IH]; simpl; [done|]. intros [Hk Hfs]%NoDup_cons.
  destruct (_omitted rule x); simpl; [auto|]. apply NoDup_cons. split; [|auto].
  intros Hin. apply Hk. clear -Hin. induction fs as [|[[k' rule'] x'] fs IH]; simpl in *; [done|].
  destruct (_omitted rule' x'); set_solver.
Qed.

Lemma encode_reads v : encodes v.
Proof.
  induction v as [|b|n|f|s|s|fs IH|l IH|d IH] using pyobj_nested_ind; intros sk Hok.
  - exists (u"null"). apply reads_literal. auto.
  - exists (if b then u"true" else u"false"). apply reads_literal. destruct b; auto.
  - by apply reads_number.
  - by apply reads_number.
  - eexists. split; [done|]. by apply reads_string.
  - eexists. split; [done|]. by apply Hraw.
  - simpl in Hok. apply andb_true_iff in Hok as [Hnd%bool_decide_eq_true Hok].
    destruct (encodes_struct fs IH Hok) as (kts & parts & E & Ec & Hr).
    exists (braces (concat parts)). simpl. rewrite E. split; [done|]. rewrite Ec.
    apply reads_dict; [done|]. by apply struct_keys_NoDup.
  - destruct (encodes_list sk l IH Hok) as (ts & E & Hts). exists (brackets ts).
    simpl. rewrite E. split; [done|]. by apply reads_list.
  - simpl in Hok. apply andb_true_iff in Hok as [Hnd%bool_decide_eq_true Hok].
    destruct (encodes_dict sk d IH Hok) as (kts & E & Hts).
    exists (braces (entry_text <$> sort_entries sk kts)). simpl. rewrite E. split; [done|].
    apply reads_dict.
    + apply sort_entries_Forall2; [|done]. by intros x y [? _].
    + apply sort_entries_keys_NoDup.
      fold (dict_keys ((fun kv => (kv.1, wire raw_value sk kv.2)) <$> d)). by rewrite dict_keys_fmap.
Qed.
End encodes.

Lemma reads_loads o t v : reads o t v -> json_loads o t = Some v.
Proof.
  intros Hr. unfold json_loads.
  pose proof (reads_skip_ws o t v [] Hr) as Hs. rewrite app_nil_r in Hs. rewrite Hs.
  destruct Hr as [_ Hr]. rewrite <- (app_nil_r t) at 2. rewrite Hr; [done|lia|done].
Qed.

(** ** The printed text is already compact and HTML-safe *)

Definition html_safe (c : Z) : Prop :=
  32 <= c /\ c <> 60 /\ c <> 62 /\ c <> 38 /\ c <> 8232 /\ c <> 8233.

(** [compact_raw] passes over [t] unchanged, and no character of [t] needs an escape. *)
Definition tame (t : pystr) : Prop :=
  (forall rest, compact_raw_loop false false (t ++ rest) = t ++ compact_raw_loop false false rest) /\
  Forall html_safe t.

Lemma tame_nil : tame [].
Proof. done. Qed.

Lemma tame_app a b : tame a -> tame b -> tame (a ++ b).
Proof.
  intros [Ha Sa] [Hb Sb]. split; [|by apply Forall_app].
  intros rest. by rewrite <- !app_assoc, Ha, Hb.
Qed.

(** characters with no meaning outside a string *)
Definition inert (c : Z) : bool := negb (is_ws c) && negb (c =? 34) && (32 <=? c) && (c <? 128)
  && negb (c =? 60) && negb (c =? 62) && negb (c =? 38).

Lemma inert_tame t : Forall (fun c => inert c = true) t -> tame t.
Proof.
  induction 1 as [|c t Hc Ht IH]; [apply tame_nil|]. change (c :: t) with ([c] ++ t).
  apply tame_app; [|done]. unfold inert, is_ws in Hc. bool_prop. split.
  - intros rest. simpl. by bool_lia.
  - repeat constructor; lia.
Qed.

Lemma join_tame sep ts : tame sep -> Forall tame ts -> tame (join sep ts).
Proof.
  intros Hs. induction 1 as [|t ts Ht Hts IH]; [apply tame_nil|]. rewrite join_cons.
  apply tame_app; [done|]. destruct ts; [apply tame_nil|]. by apply tame_app.
Qed.

Lemma digits_inert ds : digits ds -> Forall (fun c => inert c = true) ds.
Proof.
  intros H. eapply Forall_impl; [done|]. intros c Hc. unfold is_digit in Hc. bool_prop. unfold inert, is_ws. by bool_lia.
Qed.

Lemma number_text_tame neg ip fr ex : number_parts ip fr ex -> tame (number_text neg ip fr ex).
Proof.
  intros H. apply inert_tame. pose proof (number_parts_int _ _ _ H) as [_ Hd].
  destruct H as (_ & Hf & He). unfold number_text. rewrite !Forall_app. split_and!.
  - by destruct neg; repeat constructor.
  - by apply digits_inert.
  - destruct fr as [f|]; [|done]. constructor; [done|]. apply digits_inert, (Hf f eq_refl).
  - destruct ex as [e|]; [|done]. destruct (He e eq_refl) as (s & a & -> & Hs & _ & Ha).
    constructor; [done|]. constructor; [by destruct Hs; subst|]. by apply digits_inert.
Qed.

Lemma encode_char_tame c :
  0 <= c -> Forall html_safe (encode_char c) /\
  forall rest, compact_raw_loop true false (encode_char c ++ rest)
               = encode_char c ++ compact_raw_loop true false rest.
Proof.
  intros Hc. destruct (Z.ltb_spec c 32) as [H|H].
  { apply (small_cases c); [done|]. repeat (constructor; [split; [|done]; repeat constructor; done|]).
    constructor. }
  unfold encode_char.
  repeat match goal with
  | |- context [if c =? ?k then _ else _] =>
      destruct (Z.eqb_spec c k) as [->|?]; [split; [repeat constructor; done|done] || lia|]
  end.
  destruct (Z.ltb_spec c 32); [lia|].
  repeat match goal with
  | |- context [if c =? ?k then _ else _] =>
      destruct (Z.eqb_spec c k) as [->|?]; [split; [repeat constructor; done|done]|]
  end.
  split; [repeat constructor; lia|]. intros rest. simpl. by bool_lia.
Qed.

Lemma encode_string_tame s : chars_ok s = true -> tame (_encode_string s).
Proof.
  intros Hs%chars_ok_spec. unfold _encode_string. split.
  - intros rest. rewrite <- !app_assoc. simpl. f_equal.
    induction Hs as [|c s Hc Hs IH]; [done|]. simpl flat_map. rewrite <- !app_assoc.
    rewrite (proj2 (encode_char_tame c Hc)). by rewrite IH.
  - rewrite !Forall_app. split_and!; [by repeat constructor| |by repeat constructor].
    induction Hs as [|c s Hc Hs IH]; [done|]. simpl. apply Forall_app. split; [|done].
    by apply encode_char_tame.
Qed.

Lemma number_tame o sk v t : number_ok o v = true -> _encode sk v = Some t -> tame t.
Proof.
  destruct v as [| |n|f| | | | |]; try done; intros H; simpl in *.
  - intros [= <-]. destruct (str_of_Z_text n) as (neg & ip & -> & Hp & _). by apply number_text_tame.
  - destruct f as [| |n sig exp]; try done. apply andb_true_iff in H as [Hv _].
    destruct (format_json_text (FFin n sig exp) eq_refl Hv) as (neg & ip & fr & ex & -> & Hp & _).
    intros [= <-]. by apply number_text_tame.
Qed.

Definition encodes_tame (o : json_opts) (v : pyobj) : Prop :=
  forall sk t, json_ok o v = true -> _encode sk v = Some t -> tame t.

Lemma tame_list o sk l ts :
  Forall (encodes_tame o) l -> forallb (json_ok o) l = true ->
  mapM (_encode sk) l = Some ts -> Forall tame ts.
Proof.
  intros Hl. revert ts. induction Hl as [|v l Hv Hl IH]; simpl; intros ts.
  - by intros _ [= <-].
  - intros [Hok Hoks]%andb_true_iff H.
    destruct (_encode sk v) as [t|] eqn:E; [|done]. simpl in H.
    destruct (mapM (_encode sk) l) as [ts'|] eqn:E'; [|done]. injection H as <-.
    constructor; eauto.
Qed.

Lemma entry_tame kt : chars_ok kt.1 = true -> tame kt.2 -> tame (entry_text kt).
Proof.
  intros Hk Ht. unfold entry_text. apply tame_app; [by apply encode_string_tame|].
  apply tame_app; [|done]. apply inert_tame. by repeat constructor.
Qed.

Lemma tame_dict o sk d kts :
  Forall (fun kv => encodes_tame o kv.2) d ->
  forallb (fun kv => chars_ok kv.1 && json_ok o kv.2) d = true ->
  mapM (fun kv => let '(k, x) := kv in t ← _encode sk x; Some (k, t)) d = Some kts ->
  Forall (fun kt => tame (entry_text kt)) kts.
Proof.
  intros Hd. revert kts. induction Hd as [|[k v] d Hv Hd IH]; simpl; intros kts.
  - by intros _ [= <-].
  - intros [[Hk Hok]%andb_true_iff Hoks]%andb_true_iff H.
    destruct (_encode sk v) as [t|] eqn:E; [|done]. simpl in H.
    destruct (mapM _ d) as [kts'|] eqn:E'; [|done]. injection H as <-.
    constructor; [|eauto]. apply entry_tame; [done|]. by apply (Hv sk t).
Qed.

Lemma tame_struct o fs parts :
  Forall (fun f => encodes_tame o f.2) fs ->
  forallb (fun f => let '(k, rule, x) := f in key_ok k && (_omitted rule x || json_ok o x)) fs = true ->
  mapM (fun f => let '(key, rule, x) := f in
    if _omitted rule x then Some [] else t ← _encode true x; Some [field_text key t]) fs = Some parts ->
  Forall tame (concat parts).
Proof.
  intros Hfs. revert parts. induction Hfs as [|[[k rule] x] fs Hv Hfs IH]; simpl; intros parts.
  - by intros _ [= <-].
  - intros [[Hk Hok]%andb_true_iff Hoks]%andb_true_iff H.
    destruct (if _omitted rule x then _ else _) as [p|] eqn:E; [|done]. simpl in H.
    destruct (mapM _ fs) as [ps|] eqn:E'; [|done]. injection H as <-. simpl.
    apply Forall_app. split; [|eauto]. destruct (_omitted rule x); [by injection E as <-|].
    simpl in Hok. destruct (_encode true x) as [t|] eqn:Et; [|done]. injection E as <-.
    destruct (key_ok_encode k Hk) as [Ek Hck].
    constructor; [|done]. replace (field_text k t) with (entry_text (k, t)).
    + apply entry_tame; [done|]. by apply (Hv true t).
    + unfold entry_text, field_text. cbn [fst snd]. by rewrite Ek, <- !app_assoc.
Qed.

Lemma braces_tame ts : Forall tame ts -> tame (braces ts).
Proof.
  intros H. unfold braces. apply tame_app; [apply inert_tame; by repeat constructor|].
  apply tame_app; [|apply inert_tame; by repeat constructor].
  apply join_tame; [apply inert_tame; by repeat constructor|done].
Qed.

Lemma brackets_tame ts : Forall tame ts -> tame (brackets ts).
Proof.
  intros H. unfold brackets. apply tame_app; [apply inert_tame; by repeat constructor|].
  apply tame_app; [|apply inert_tame; by repeat constructor].
  apply join_tame; [apply inert_tame; by repeat constructor|done].
Qed.

Lemma encode_tame o v : encodes_tame o v.
Proof.
  induction v as [|b|n|f|s|s|fs IH|l IH|d IH] using pyobj_nested_ind; intros sk t Hok E.
  - injection E as <-. apply inert_tame. by repeat constructor.
  - injection E as <-. apply inert_tame. by destruct b; repeat constructor.
  - by apply (number_tame o sk (PInt n)).
  - by apply (number_tame o sk (PFloat f)).
  - injection E as <-. by apply encode_string_tame.
  - done.
  - unfold json_ok in Hok. simpl in Hok, E. apply andb_true_iff in Hok as [_ Hok].
    destruct (mapM _ fs) as [parts|] eqn:Ep; [|done]. injection E as <-.
    apply braces_tame. by apply (tame_struct o fs).
  - simpl in E. destruct (mapM _ l) as [ts|] eqn:Ep; [|done]. injection E as <-.
    apply brackets_tame. by apply (tame_list o sk l).
  - unfold json_ok in Hok. simpl in Hok, E. apply andb_true_iff in Hok as [_ Hok].
    destruct (mapM _ d) as [kts|] eqn:Ep; [|done]. injection E as <-.
    apply braces_tame, Forall_fmap.
    assert (Forall (fun kt => tame (entry_text kt)) kts) as Hk by by apply (tame_dict o sk d).
    unfold sort_entries. destruct sk; [|done]. by rewrite py_sorted_perm.
Qed.

Lemma tame_compact t : tame t -> compact_raw t = t.
Proof. intros [H _]. unfold compact_raw. rewrite <- (app_nil_r t) at 1. by rewrite H, app_nil_r. Qed.

(** ** Raw fragments the encoder itself printed *)

Definition raw_ok (o : json_opts) (s : pystr) : bool :=
  match json_loads o s with
  | Some v => json_ok o v && bool_decide (marshal false v = Some s)
  | None => false
  end.
Definition raw_value (o : json_opts) (s : pystr) : pyobj := default PNone (json_loads o s).

Lemma raw_ok_reads o s : raw_ok o s = true -> reads o (compact_raw s) (raw_value o s).
Proof.
  unfold raw_ok, raw_value. destruct (json_loads o s) as [v|] eqn:E; [|done].
  intros [Hok Hm%bool_decide_eq_true]%andb_true_iff. simpl.
  destruct (encode_reads o (fun _ => false) (fun _ => PNone) ltac:(done) v false Hok) as (t & Et & Hr).
  unfold marshal in Hm. rewrite Et in Hm. injection Hm as ->.
  rewrite (tame_compact s) by by apply (encode_tame o v false).
  pose proof (reads_loads _ _ _ Hr). congruence.
Qed.

(** What the encoder prints for a value with raw fragments is read back. *)
Lemma marshal_wire o sk v :
  wire_ok (raw_ok o) o v = true ->
  exists t, marshal sk v = Some t /\ json_loads o t = Some (wire (raw_value o) sk v).
Proof.
  intros Hok. destruct (encode_reads o (raw_ok o) (raw_value o) (raw_ok_reads o) v sk Hok)
    as (t & E & Hr).
  exists t. split; [done|]. by apply reads_loads.
Qed.

(** ** Reading the fields of a struct back *)

Fixpoint field_get (k : pystr) (fs : list (pystr * OmitEmpty * pyobj)) : option (OmitEmpty * pyobj) :=
  match fs with
  | [] => None
  | (k', rule, x) :: fs' => if decide (k' = k) then Some (rule, x) else field_get k fs'
  end.

(** the dict a struct is read back as *)
Definition wire_fields (rv : pystr -> pyobj) (fs : list (pystr * OmitEmpty * pyobj)) :
    pydict pyobj :=
  flat_map (fun f => let '(k, rule, x) := f in
    if _omitted rule x then [] else [(k, wire rv true x)]) fs.

Lemma wire_fields_absent rv k fs : k ∉ (fs.*1).*1 -> dict_get k (wire_fields rv fs) = None.
Proof.
  induction fs as [|[[k' rule] x] fs IH]; simpl; [done|]. intros [? ?]%not_elem_of_cons.
  destruct (_omitted rule x); simpl; [auto|]. rewrite decide_False by done. auto.
Qed.

Lemma wire_fields_get rv k fs rule x :
  NoDup (fs.*1).*1 -> field_get k fs = Some (rule, x) ->
  dict_get k (wire_fields rv fs) = if _omitted rule x then None else Some (wire rv true x).
Proof.
  induction fs as [|[[k' r'] x'] fs IH]; simpl; [done|]. intros [Hk Hfs]%NoDup_cons H.
  case_decide as E.
  - injection H as -> ->. subst k'. destruct (_omitted rule x); simpl.
    + by apply wire_fields_absent.
    + by rewrite decide_True.
  - destruct (_omitted r' x'); simpl; [auto|]. rewrite decide_False by done. auto.
Qed.

(** [json.loads(gojson.marshal(v))] is [v] with its dict entries in printed
    order, for every JSON value whose numbers survive the text: the encoder
    never fails on such a value and the decoder, with the fuel [json_loads]
    gives itself, returns it. *)
Theorem json_marshal_loads o sk v :
  json_ok o v = true ->
  exists t, marshal sk v = Some t /\ json_loads o t = Some (sort_dicts sk v).
Proof.
  intros Hok. destruct (encode_reads o (fun _ => false) (fun _ => PNone) ltac:(done) v sk Hok)
    as (t & E & Hr).
  exists t. split; [done|]. by apply reads_loads.
Qed.

Lemma json_marshal_loads_witness :
  let v := PDict [(u"b", PList [PInt (-12); PFloat (FFin false 25 (-1)); PNone]);
                  (u"a<", PDict [(u"k", PStr [10; 34; 128512])])] in
  json_ok opts_default v = true /\
  exists t, marshal true v = Some t /\
    json_loads opts_default t =
    Some (PDict [(u"a<", PDict [(u"k", PStr [10; 34; 128512])]);
                 (u"b", PList [PInt (-12); PFloat (FFin false 25 (-1)); PNone])]).
Proof.
  intros v. split; [by vm_compute|].
  apply (json_marshal_loads opts_default true v). by vm_compute.
Defined.

(** the encoder's text needs no further compaction or escaping: [compact_raw]
    (the rendering of a raw fragment) leaves it unchanged, and it contains no
    control character and none of the characters Go escapes for HTML. *)
Theorem marshal_compact_html_safe o sk v t :
  json_ok o v = true -> marshal sk v = Some t -> compact_raw t = t /\ Forall html_safe t.
Proof.
  intros Hok E. pose proof (encode_tame o v sk t Hok E) as Ht.
  split; [by apply tame_compact|apply Ht].
Qed.

Lemma marshal_compact_html_safe_witness :
  let v := PDict [(u"<k>", PList [PStr [38; 8232; 10]; PInt 7])] in
  json_ok opts_default v = true /\
  exists t, marshal true v = Some t /\ compact_raw t = t /\ Forall html_safe t.
Proof.
  intros v. split; [by vm_compute|]. eexists. split; [by vm_compute|].
  eapply (marshal_compact_html_safe opts_default true v); by vm_compute.
Defined.
