(* ===== verification/Schema.v ===== *)
(** * Schemas: eds/schema.py

    [ItemsType], [SchemaProperty] and [Schema] with the fields of the
    dataclasses, their wire form (a struct in declaration order with the omit
    rules of the field metadata), [from_dict], and the cached [columns].

    [from_dict] is defined on values of the annotated types; [None] stands for
    a document outside them, on which Python raises or builds an object whose
    attributes do not have their declared type.  The main theorem is the round
    trip through the JSON text, which is what the schema registry stores. *)
From stdpp Require Import base tactics list option numbers sets sorting strings.
From S2P Require Import Prelude PyStr PyDict PyFloat GoFloat GoJson JsonLoads JsonRoundtrip.

Record ItemsType := mk_items {
  it_type : pystr;
  it_enum : option (list pystr);
  it_format : pystr
}.

Record SchemaProperty := mk_prop {
  sp_type : pystr;
  sp_format : pystr;
  sp_nullable : bool;
  sp_items : option ItemsType;
  sp_additional_properties : option bool;
  sp_comment : option pystr;
  sp_deprecated : option bool
}.

Record Schema := mk_schema {
  sc_properties : pydict SchemaProperty;
  sc_required : list pystr;
  sc_primary_keys : list pystr;
  sc_table : pystr;
  sc_model_version : pystr;
  sc_columns_cache : option (list pystr)   (** the [_columns] attribute *)
}.

#[global] Instance items_eq_dec : EqDecision ItemsType.
Proof. solve_decision. Defined.
#[global] Instance prop_eq_dec : EqDecision SchemaProperty.
Proof. solve_decision. Defined.
#[global] Instance schema_eq_dec : EqDecision Schema.
Proof. solve_decision. Defined.

(** ** Operations *)

Definition is_not_null (p : SchemaProperty) : bool :=
  negb (sp_nullable p) || str_eqb (sp_type p) (u"array").

Definition is_array_or_json (p : SchemaProperty) : bool :=
  str_eqb (sp_type p) (u"object") || str_eqb (sp_type p) (u"array").

(** [Schema.columns]: the list and the schema with its cache filled *)
Definition compute_columns (s : Schema) : list pystr :=
  sc_primary_keys s ++
  sorted_strs (filter (fun k => k ∉ sc_primary_keys s) (dict_keys (sc_properties s))).

Definition columns (s : Schema) : list pystr * Schema :=
  match sc_columns_cache s with
  | Some cols => (cols, s)
  | None =>
      let cols := compute_columns s in
      (cols, mk_schema (sc_properties s) (sc_required s) (sc_primary_keys s) (sc_table s)
               (sc_model_version s) (Some cols))
  end.

Definition schema_columns (s : Schema) : list pystr := (columns s).1.

(** ** The wire form *)

Definition opt_obj {A} (f : A -> pyobj) (x : option A) : pyobj :=
  match x with Some a => f a | None => PNone end.
Definition strs_obj (l : list pystr) : pyobj := PList (PStr <$> l).

Definition items_fields (i : ItemsType) : list (pystr * OmitEmpty * pyobj) :=
  [(u"type", NEVER, PStr (it_type i));
   (u"enum", IF_FALSY, opt_obj strs_obj (it_enum i));
   (u"format", IF_FALSY, PStr (it_format i))].

Definition prop_fields (p : SchemaProperty) : list (pystr * OmitEmpty * pyobj) :=
  [(u"type", NEVER, PStr (sp_type p));
   (u"format", IF_FALSY, PStr (sp_format p));
   (u"nullable", IF_FALSY, PBool (sp_nullable p));
   (u"items", IF_NONE, opt_obj (fun i => PStruct (items_fields i)) (sp_items p));
   (u"additionalProperties", IF_NONE, opt_obj PBool (sp_additional_properties p));
   (u"$comment", IF_NONE, opt_obj PStr (sp_comment p));
   (u"deprecated", IF_NONE, opt_obj PBool (sp_deprecated p))].

Definition props_obj (ps : pydict SchemaProperty) : pyobj :=
  PDict ((fun kv => (kv.1, PStruct (prop_fields kv.2))) <$> ps).

Definition schema_fields (s : Schema) : list (pystr * OmitEmpty * pyobj) :=
  [(u"properties", NEVER, props_obj (sc_properties s));
   (u"required", NEVER, strs_obj (sc_required s));
   (u"primaryKeys", NEVER, strs_obj (sc_primary_keys s));
   (u"table", NEVER, PStr (sc_table s));
   (u"modelVersion", NEVER, PStr (sc_model_version s))].

Definition schema_gojson (s : Schema) : option pystr := gojson_struct (schema_fields s).

(** ** [from_dict] *)

(** [d.get(k, dflt)] at an annotated type; [None] is a value of another type *)
Definition get_str (k dflt : pystr) (d : pydict pyobj) : option pystr :=
  match dict_get k d with
  | None => Some dflt
  | Some (PStr s) => Some s
  | Some _ => None
  end.

Definition get_opt {A} (conv : pyobj -> option A) (k : pystr) (d : pydict pyobj) : option (option A) :=
  match dict_get k d with
  | None | Some PNone => Some None
  | Some v => Some <$> conv v
  end.

Definition as_str (v : pyobj) : option pystr := match v with PStr s => Some s | _ => None end.
Definition as_bool (v : pyobj) : option bool := match v with PBool b => Some b | _ => None end.
Definition as_strs (v : pyobj) : option (list pystr) :=
  match v with PList l => mapM as_str l | _ => None end.

(** [bool(d.get(k, False))] *)
Definition get_truthy (k : pystr) (d : pydict pyobj) : bool :=
  match dict_get k d with None => false | Some v => truthy v end.

Definition items_from_dict (d : pydict pyobj) : option ItemsType :=
  ty ← get_str (u"type") [] d;
  en ← get_opt as_strs (u"enum") d;
  fm ← get_str (u"format") [] d;
  Some (mk_items ty en fm).

Definition prop_from_dict (d : pydict pyobj) : option SchemaProperty :=
  ty ← get_str (u"type") [] d;
  fm ← get_str (u"format") [] d;
  items ← match dict_get (u"items") d with
          | Some (PDict i) => Some <$> items_from_dict i
          | _ => Some None
          end;
  ap ← get_opt as_bool (u"additionalProperties") d;
  cm ← get_opt as_str (u"$comment") d;
  dp ← get_opt as_bool (u"deprecated") d;
  Some (mk_prop ty fm (get_truthy (u"nullable") d) items ap cm dp).

(** [d.get(k) or []] *)
Definition get_strs_or_empty (k : pystr) (d : pydict pyobj) : option (list pystr) :=
  match dict_get k d with
  | None => Some []
  | Some v => if truthy v then as_strs v else Some []
  end.

(** [{k: SchemaProperty.from_dict(v) for k, v in props.items()}] *)
Definition props_from_dict (ps : pydict pyobj) : option (pydict SchemaProperty) :=
  mapM (fun kv => match kv.2 with
                  | PDict d => p ← prop_from_dict d; Some (kv.1, p)
                  | _ => None
                  end) ps.

Definition schema_from_dict (d : pydict pyobj) : option Schema :=
  props ← match dict_get (u"properties") d with
          | None => Some []
          | Some v => if truthy v then match v with PDict ps => props_from_dict ps | _ => None end
                      else Some []
          end;
  required ← get_strs_or_empty (u"required") d;
  pks ← get_strs_or_empty (u"primaryKeys") d;
  table ← get_str (u"table") [] d;
  mv ← get_str (u"modelVersion") [] d;
  Some (mk_schema props required pks table mv None).

(** ** [DatabaseSchema] *)

(** table -> column -> column type *)
Abbreviation DatabaseSchema := (pydict (pydict pystr)).

Definition db_columns (db : DatabaseSchema) (table : pystr) : list pystr :=
  match dict_get table db with
  | Some cols => sorted_strs (dict_keys cols)
  | None => []
  end.

Definition db_get_type (db : DatabaseSchema) (table column : pystr) : bool * pystr :=
  match dict_get table db with
  | Some cols => match dict_get column cols with
                 | Some t => (true, t)
                 | None => (false, [])
                 end
  | None => (false, [])
  end.

(** ** The column order *)

(** The cache is empty or holds the computed columns. *)
Definition cache_ok (s : Schema) : Prop :=
  sc_columns_cache s = None \/ sc_columns_cache s = Some (compute_columns s).

Lemma columns_cached s : cache_ok s -> (columns s).1 = compute_columns s /\ cache_ok (columns s).2.
Proof.
  unfold columns, cache_ok. destruct (sc_columns_cache s) as [c|] eqn:E.
  - intros [?|H]; [done|]. split; [simpl; congruence|]. simpl. rewrite E. auto.
  - intros _. split; [done|]. right. done.
Qed.

Lemma compute_columns_elem s c :
  c ∈ compute_columns s <-> c ∈ sc_primary_keys s \/ c ∈ dict_keys (sc_properties s).
Proof.
  unfold compute_columns, sorted_strs. rewrite elem_of_app, py_sorted_elem, list_elem_of_filter.
  destruct (decide (c ∈ sc_primary_keys s)); naive_solver.
Qed.

Lemma compute_columns_NoDup s :
  NoDup (sc_primary_keys s) -> NoDup (dict_keys (sc_properties s)) -> NoDup (compute_columns s).
Proof.
  intros Hp Hk. unfold compute_columns, sorted_strs. apply NoDup_app. split_and!; [done| |].
  - intros x Hx. rewrite py_sorted_elem, list_elem_of_filter. naive_solver.
  - apply py_sorted_NoDup. by apply NoDup_filter.
Qed.

(** [Schema.columns] lists the primary keys in their order and then every
    other property in code point order, each column once; calling it fills the
    cache with that same list, so every later call returns it again. *)
Theorem columns_order s :
  cache_ok s -> NoDup (sc_primary_keys s) -> NoDup (dict_keys (sc_properties s)) ->
  exists rest,
    (columns s).1 = sc_primary_keys s ++ rest /\ StronglySorted (le_rel str_leb) rest /\
    NoDup (columns s).1 /\
    (forall c, c ∈ (columns s).1 <-> c ∈ sc_primary_keys s \/ c ∈ dict_keys (sc_properties s)) /\
    columns (columns s).2 = columns s.
Proof.
  intros Hc Hp Hk. destruct (columns_cached s Hc) as [E _]. rewrite E.
  eexists. split; [done|]. split; [apply sorted_strs_Sorted|]. split_and!.
  - by apply compute_columns_NoDup.
  - apply compute_columns_elem.
  - unfold columns in *. destruct (sc_columns_cache s) as [c|] eqn:Ec; simpl; [by rewrite Ec|done].
Qed.

Definition sample_prop (ty : pystr) : SchemaProperty := mk_prop ty [] false None None None None.

Lemma columns_order_witness :
  let s := mk_schema [(u"z", sample_prop (u"string")); (u"id", sample_prop (u"string"));
                      (u"a", sample_prop (u"integer"))] [] [u"id"] (u"t") (u"v1") None in
  (columns s).1 = [u"id"; u"a"; u"z"] /\ columns (columns s).2 = columns s.
Proof.
  intros s. split; [by vm_compute|].
  destruct (columns_order s) as (rest & _ & _ & _ & _ & H); [by left| | |exact H].
  all: apply (bool_decide_eq_true_1 _); by vm_compute.
Defined.

(** ** The round trip through JSON *)

Definition schema_opts : json_opts := opts_default.

(** every string is a string of code points and the property names are distinct *)
Definition schema_ok (s : Schema) : bool :=
  wire_ok (raw_ok schema_opts) schema_opts (PStruct (schema_fields s)).

(** What the text keeps of a schema: the properties sorted by name, an empty
    [enum] list like none, and no cache. *)
Definition norm_items (i : ItemsType) : ItemsType :=
  mk_items (it_type i) (match it_enum i with Some [] => None | e => e end) (it_format i).
Definition norm_prop (p : SchemaProperty) : SchemaProperty :=
  mk_prop (sp_type p) (sp_format p) (sp_nullable p) (norm_items <$> sp_items p)
    (sp_additional_properties p) (sp_comment p) (sp_deprecated p).
Definition norm_schema (s : Schema) : Schema :=
  mk_schema (sort_entries true ((fun kv => (kv.1, norm_prop kv.2)) <$> sc_properties s))
    (sc_required s) (sc_primary_keys s) (sc_table s) (sc_model_version s) None.

Section roundtrip.
Context (rv : pystr -> pyobj).

(** Each getter reads its own field back. *)
Lemma get_str_wire k fs rule s :
  NoDup (fs.*1).*1 -> field_get k fs = Some (rule, PStr s) -> rule = NEVER \/ rule = IF_FALSY ->
  get_str k [] (wire_fields rv fs) = Some s.
Proof.
  intros Hn Hf Hr. unfold get_str. rewrite (wire_fields_get rv k fs rule (PStr s)) by done.
  destruct Hr; subst; [done|]. by destruct s.
Qed.

Lemma get_opt_wire {A} (conv : pyobj -> option A) obj k fs (x : option A) :
  NoDup (fs.*1).*1 -> field_get k fs = Some (IF_NONE, opt_obj obj x) ->
  (forall a, obj a <> PNone /\ wire rv true (obj a) <> PNone /\ conv (wire rv true (obj a)) = Some a) ->
  get_opt conv k (wire_fields rv fs) = Some x.
Proof.
  intros Hn Hf Hc. unfold get_opt. rewrite (wire_fields_get rv k fs _ _ Hn Hf).
  destruct x as [a|]; [|done]. destruct (Hc a) as (H1 & H2 & H3). simpl.
  destruct (obj a) eqn:E; try done; simpl in *; try (by rewrite H3); destruct (rv _); try done;
    by rewrite H3.
Qed.

Lemma get_truthy_wire k fs b :
  NoDup (fs.*1).*1 -> field_get k fs = Some (IF_FALSY, PBool b) ->
  get_truthy k (wire_fields rv fs) = b.
Proof.
  intros Hn Hf. unfold get_truthy. rewrite (wire_fields_get rv k fs _ _ Hn Hf). by destruct b.
Qed.

Lemma as_strs_wire l : as_strs (wire rv true (strs_obj l)) = Some l.
Proof.
  change (mapM as_str (wire rv true <$> (PStr <$> l)) = Some l).
  rewrite <- list_fmap_compose. induction l as [|x l IH]; [done|].
  rewrite fmap_cons. cbn [mapM compose wire as_str mbind option_bind]. by rewrite IH.
Qed.

Lemma get_strs_wire k fs l :
  NoDup (fs.*1).*1 -> field_get k fs = Some (NEVER, strs_obj l) ->
  get_strs_or_empty k (wire_fields rv fs) = Some l.
Proof.
  intros Hn Hf. unfold get_strs_or_empty. rewrite (wire_fields_get rv k fs _ _ Hn Hf).
  cbn [_omitted]. rewrite as_strs_wire. by destruct l.
Qed.

Ltac keys_distinct := apply (bool_decide_eq_true_1 _); by vm_compute.

Lemma items_roundtrip i :
  items_from_dict (wire_fields rv (items_fields i)) = Some (norm_items i).
Proof.
  unfold items_from_dict.
  rewrite (get_str_wire (u"type") _ NEVER (it_type i)) by (keys_distinct || auto).
  rewrite (get_str_wire (u"format") _ IF_FALSY (it_format i)) by (keys_distinct || auto).
  unfold get_opt.
  rewrite (wire_fields_get rv (u"enum") _ IF_FALSY (opt_obj strs_obj (it_enum i)))
    by (keys_distinct || done).
  unfold norm_items. destruct (it_enum i) as [[|x l]|]; [done| |done].
  cbn [opt_obj _omitted strs_obj truthy fmap list_fmap negb].
  change (PList (PStr x :: (PStr <$> l))) with (strs_obj (x :: l)).
  rewrite (as_strs_wire (x :: l)). done.
Qed.

Lemma prop_roundtrip p :
  prop_from_dict (wire_fields rv (prop_fields p)) = Some (norm_prop p).
Proof.
  unfold prop_from_dict.
  rewrite (get_str_wire (u"type") _ NEVER (sp_type p)) by (keys_distinct || auto).
  rewrite (get_str_wire (u"format") _ IF_FALSY (sp_format p)) by (keys_distinct || auto).
  rewrite (get_truthy_wire (u"nullable") _ (sp_nullable p)) by (keys_distinct || auto).
  rewrite (get_opt_wire as_bool PBool (u"additionalProperties") _ (sp_additional_properties p))
    by (keys_distinct || done).
  rewrite (get_opt_wire as_str PStr (u"$comment") _ (sp_comment p)) by (keys_distinct || done).
  rewrite (get_opt_wire as_bool PBool (u"deprecated") _ (sp_deprecated p)) by (keys_distinct || done).
  rewrite (wire_fields_get rv (u"items") _ IF_NONE
             (opt_obj (fun i => PStruct (items_fields i)) (sp_items p))) by (keys_distinct || done).
  unfold norm_prop. destruct (sp_items p) as [i|]; [|done].
  cbn [opt_obj _omitted]. change (wire rv true (PStruct ?x)) with (PDict (wire_fields rv x)).
  cbv iota beta. by rewrite items_roundtrip.
Qed.

Lemma props_roundtrip ps :
  props_from_dict (sort_entries true
    ((fun kv => (kv.1, wire rv true kv.2)) <$> ((fun kv => (kv.1, PStruct (prop_fields kv.2))) <$> ps)))
  = Some (sort_entries true ((fun kv => (kv.1, norm_prop kv.2)) <$> ps)).
Proof.
  apply mapM_Some. apply sort_entries_Forall2.
  { intros [k v] [k' p] H. simpl in H. destruct v; try done.
    destruct (prop_from_dict d); [|done]. by injection H. }
  rewrite <- list_fmap_compose. induction ps as [|[k p] ps IH]; [constructor|].
  constructor; [|done]. cbn [fst snd compose].
  change (wire rv true (PStruct ?x)) with (PDict (wire_fields rv x)). cbv iota. by rewrite prop_roundtrip.
Qed.

Lemma schema_from_wire s :
  schema_from_dict (wire_fields rv (schema_fields s)) = Some (norm_schema s).
Proof.
  unfold schema_from_dict.
  rewrite (wire_fields_get rv (u"properties") _ NEVER (props_obj (sc_properties s)))
    by (keys_distinct || done).
  rewrite (get_strs_wire (u"required") _ (sc_required s)) by (keys_distinct || done).
  rewrite (get_strs_wire (u"primaryKeys") _ (sc_primary_keys s)) by (keys_distinct || done).
  rewrite (get_str_wire (u"table") _ NEVER (sc_table s)) by (keys_distinct || auto).
  rewrite (get_str_wire (u"modelVersion") _ NEVER (sc_model_version s)) by (keys_distinct || auto).
  pose proof (props_roundtrip (sc_properties s)) as H. unfold norm_schema.
  cbn [_omitted]. unfold props_obj at 1 2. cbn [wire].
  set (n := sort_entries true ((fun kv => (kv.1, norm_prop kv.2)) <$> sc_properties s)) in *.
  clearbody n. destruct (sort_entries true (_ <$> (_ <$> sc_properties s))); simpl truthy; cbv iota.
  - injection H as <-. done.
  - by rewrite H.
Qed.
End roundtrip.

(** a schema printed with [gojson] parses, and [Schema.from_dict] of the
    result is the schema with its properties sorted by name, an empty [enum]
    read as none and an empty column cache. *)
Theorem schema_json_roundtrip s :
  schema_ok s = true ->
  exists t d, schema_gojson s = Some t /\ json_loads schema_opts t = Some (PDict d) /\
    schema_from_dict d = Some (norm_schema s).
Proof.
  intros Hok. destruct (marshal_wire schema_opts true _ Hok) as (t & Hm & Hl).
  exists t, (wire_fields (raw_value schema_opts) (schema_fields s)).
  split_and!; [done|exact Hl|apply schema_from_wire].
Qed.

Definition sample_schema : Schema :=
  mk_schema [(u"z", mk_prop (u"array") [] true (Some (mk_items (u"string") (Some []) [])) None
                      (Some (u"<c>")) (Some false));
             (u"id", sample_prop (u"string"))] [u"id"] [u"id"] (u"t") (u"v1") None.

Lemma schema_json_roundtrip_witness :
  schema_ok sample_schema = true /\
  exists t d, schema_gojson sample_schema = Some t /\ json_loads schema_opts t = Some (PDict d) /\
    schema_from_dict d = Some (norm_schema sample_schema) /\ norm_schema sample_schema <> sample_schema.
Proof.
  split; [by vm_compute|].
  destruct (schema_json_roundtrip sample_schema) as (t & d & H1 & H2 & H3); [by vm_compute|].
  exists t, d. split_and!; done.
Defined.
