(* ===== verification/DbChange.v ===== *)
(** * Change events: eds/dbchange.py

    [DBChangeEvent] with its lazily parsed [_object], the accessors that fill
    and edit that cache, the wire form, and [from_message].

    The methods run in the monad [M] over the event they are called on: they
    return a value or raise, and the event keeps the cache either way.
    [from_message] has three outcomes: an event, one of its ValueErrors, or
    [FMOutside] for a message whose fields do not have the annotated types or
    whose bytes are not UTF-8 encoded, on which the model makes no claim. *)
From stdpp Require Import base tactics list option numbers sets strings.
From S2P Require Import Prelude PyStr PyDict PyFloat GoFloat GoJson JsonLoads JsonRoundtrip Schema.

Record DBChangeEvent := mk_event {
  ev_operation : pystr;
  ev_id : pystr;
  ev_table : pystr;
  ev_key : option (list pystr);
  ev_model_version : pystr;
  ev_company_id : option pystr;
  ev_location_id : option pystr;
  ev_user_id : option pystr;
  ev_before : option pystr;           (** the text of a RawJson *)
  ev_after : option pystr;
  ev_diff : option (list pystr);
  ev_timestamp : Z;
  ev_mvcc_timestamp : option pystr;   (** [None] is a JSON null *)
  ev_imported : bool;
  ev_schema_validated_path : option pystr;
  ev_object : option (pydict pyobj)   (** the cache [_object] *)
}.

(** the ValueErrors of the module *)
Inductive event_error : Type :=
| EUnmarshal          (** the message is not JSON, or not an object *)
| ENotFinite          (** before/after holds a number [marshal] rejects *)
| EMalformedObject    (** before/after is not an object *)
| EEmptyKey.          (** no primary key *)

Definition set_object (o : option (pydict pyobj)) (e : DBChangeEvent) : DBChangeEvent :=
  mk_event (ev_operation e) (ev_id e) (ev_table e) (ev_key e) (ev_model_version e)
    (ev_company_id e) (ev_location_id e) (ev_user_id e) (ev_before e) (ev_after e) (ev_diff e)
    (ev_timestamp e) (ev_mvcc_timestamp e) (ev_imported e) (ev_schema_validated_path e) o.

(** ** The parsed object *)

Definition EvM (A : Type) : Type := M DBChangeEvent event_error A.

Definition _parse_object (raw : pystr) : EvM (option (pydict pyobj)) :=
  cache ← gets ev_object;
  match cache with
  | Some d => mret (Some d)
  | None =>
      match json_loads opts_float raw with
      | None => raise EMalformedObject
      | Some PNone => mret None
      | Some (PDict d) => _ ← modify (set_object (Some d)); mret (Some d)
      | Some _ => raise EMalformedObject
      end
  end.

Definition nonempty_raw (r : option pystr) : option pystr :=
  match r with Some [] => None | _ => r end.

Definition get_object : EvM (option (pydict pyobj)) :=
  after ← gets (fun e => nonempty_raw (ev_after e));
  before ← gets (fun e => nonempty_raw (ev_before e));
  match after, before with
  | Some raw, _ => _parse_object raw
  | None, Some raw => _parse_object raw
  | None, None => mret None
  end.

Definition get_primary_key : EvM pystr :=
  key ← gets ev_key;
  match default [] key with
  | x :: l => mret (List.last l x)
  | [] =>
      obj ← get_object;
      mret (match obj with
            | Some d => match dict_get (u"id") d with Some (PStr v) => v | _ => [] end
            | None => []
            end)
  end.

Definition omit_properties (props : list pystr) : EvM unit :=
  obj ← get_object;
  match obj with
  | Some d => modify (set_object (Some (foldl (fun d p => dict_pop p d) d props)))
  | None => mret tt
  end.

(** ** The wire form *)

Definition event_fields (e : DBChangeEvent) : list (pystr * OmitEmpty * pyobj) :=
  [(u"operation", NEVER, PStr (ev_operation e));
   (u"id", NEVER, PStr (ev_id e));
   (u"table", NEVER, PStr (ev_table e));
   (u"key", NEVER, opt_obj strs_obj (ev_key e));
   (u"modelVersion", NEVER, PStr (ev_model_version e));
   (u"companyId", IF_NONE, opt_obj PStr (ev_company_id e));
   (u"locationId", IF_NONE, opt_obj PStr (ev_location_id e));
   (u"userId", IF_NONE, opt_obj PStr (ev_user_id e));
   (u"before", IF_EMPTY_RAW, opt_obj PRaw (ev_before e));
   (u"after", IF_EMPTY_RAW, opt_obj PRaw (ev_after e));
   (u"diff", IF_FALSY, opt_obj strs_obj (ev_diff e));
   (u"timestamp", NEVER, PInt (ev_timestamp e));
   (u"mvccTimestamp", NEVER, opt_obj PStr (ev_mvcc_timestamp e));
   (u"imported", IF_FALSY, PBool (ev_imported e))].

Definition to_json (e : DBChangeEvent) : option pystr := gojson_struct (event_fields e).

(** ** [from_message] *)

(** [json.detect_encoding]: the bytes to decode as UTF-8, [None] when another
    encoding is detected *)
Definition detect_utf8 (b : list Z) : option (list Z) :=
  if startswith [0; 0; 254; 255] b || startswith [254; 255] b || startswith [255; 254] b then None
  else if startswith [239; 187; 191] b then Some (drop 3 b)
  else match b with
       | b0 :: b1 :: _ :: _ :: _ => if (b0 =? 0) || (b1 =? 0) then None else Some b
       | [b0; b1] => if (b0 =? 0) || (b1 =? 0) then None else Some b
       | _ => Some b
       end.

(** [json.loads] of bytes; [PayloadOutside] is text that is not in UTF-8 *)
Inductive payload : Type := PayloadOk (v : pyobj) | PayloadError | PayloadOutside.

Definition loads_bytes (data : list Z) : payload :=
  match detect_utf8 data with
  | None => PayloadOutside
  | Some bs => match utf8_decode_with true bs ≫= json_loads opts_default with
               | Some v => PayloadOk v
               | None => PayloadError
               end
  end.

(** [_raw_field(m, key)]: [None] is the ValueError of [marshal] *)
Definition _raw_field (m : pydict pyobj) (key : pystr) : option (option pystr) :=
  match dict_get key m with
  | None => Some None
  | Some v => Some <$> marshal false v
  end.

(** [m.get(k, "")] where null is kept *)
Definition get_nullable_str (k : pystr) (d : pydict pyobj) : option (option pystr) :=
  match dict_get k d with
  | None => Some (Some [])
  | Some PNone => Some None
  | Some (PStr s) => Some (Some s)
  | Some _ => None
  end.

(** [int(m.get(k, 0))] on the types that are integers *)
Definition get_int (k : pystr) (d : pydict pyobj) : option Z :=
  match dict_get k d with
  | None => Some 0
  | Some (PInt n) => Some n
  | Some (PBool b) => Some (if b then 1 else 0)
  | Some _ => None
  end.

(** [cls(operation=m.get("operation", ""), ...)] once before/after are rebuilt;
    [None] is a field outside its annotated type *)
Definition event_of_dict (m : pydict pyobj) (before after : option pystr) : option DBChangeEvent :=
  operation ← get_str (u"operation") [] m;
  id ← get_str (u"id") [] m;
  table ← get_str (u"table") [] m;
  key ← get_opt as_strs (u"key") m;
  model_version ← get_str (u"modelVersion") [] m;
  company_id ← get_opt as_str (u"companyId") m;
  location_id ← get_opt as_str (u"locationId") m;
  user_id ← get_opt as_str (u"userId") m;
  diff ← get_opt as_strs (u"diff") m;
  timestamp ← get_int (u"timestamp") m;
  mvcc_timestamp ← get_nullable_str (u"mvccTimestamp") m;
  Some (mk_event operation id table key model_version company_id location_id user_id before after
          diff timestamp mvcc_timestamp (get_truthy (u"imported") m) None None).

Inductive from_result : Type :=
| FMOk (e : DBChangeEvent)
| FMError (err : event_error)
| FMOutside.

(** the checks after construction: a well formed object and a non-empty key *)
Definition check_event (e : DBChangeEvent) : from_result :=
  match (_ ← get_object; get_primary_key) e with
  | (inl err, _) => FMError err
  | (inr [], _) => FMError EEmptyKey
  | (inr (_ :: _), e') => FMOk e'
  end.

Definition from_message (data : list Z) : from_result :=
  match detect_utf8 data with
  | None => FMOutside
  | Some bs =>
      match utf8_decode_with true bs ≫= json_loads opts_default with
      | Some (PDict m) =>
          match _raw_field m (u"before"), _raw_field m (u"after") with
          | Some before, Some after =>
              match event_of_dict m before after with
              | Some e => check_event e
              | None => FMOutside
              end
          | _, _ => FMError ENotFinite
          end
      | _ => FMError EUnmarshal
      end
  end.

(** ** The cache *)

(** the raw text an event's object is parsed from *)
Definition object_source (e : DBChangeEvent) : option pystr :=
  match nonempty_raw (ev_after e) with
  | Some raw => Some raw
  | None => nonempty_raw (ev_before e)
  end.

(** what parsing it gives: an error, no object, or an object *)
Definition source_object (e : DBChangeEvent) : event_error + option (pydict pyobj) :=
  match object_source e with
  | None => inr None
  | Some raw =>
      match json_loads opts_float raw with
      | Some PNone => inr None
      | Some (PDict d) => inr (Some d)
      | _ => inl EMalformedObject
      end
  end.

Lemma get_object_source e :
  get_object e =
  match object_source e with
  | None => (inr None, e)
  | Some raw => _parse_object raw e
  end.
Proof.
  unfold get_object, object_source, mbind, M_bind, gets. simpl.
  by destruct (nonempty_raw (ev_after e)), (nonempty_raw (ev_before e)).
Qed.

(** An uncached event parses its source; the cache is then the object. *)
Lemma get_object_fresh e :
  ev_object e = None ->
  get_object e =
  (source_object e, match source_object e with inr (Some d) => set_object (Some d) e | _ => e end).
Proof.
  intros Hc. rewrite get_object_source. unfold source_object.
  destruct (object_source e) as [raw|]; [|done].
  unfold _parse_object, mbind, M_bind, gets, raise, modify, mret, M_ret. rewrite Hc.
  by destruct (json_loads opts_float raw) as [[]|].
Qed.

Lemma get_object_cached e raw d :
  object_source e = Some raw -> ev_object e = Some d -> get_object e = (inr (Some d), e).
Proof.
  intros Hs Hc. rewrite get_object_source, Hs. unfold _parse_object, mbind, M_bind, gets.
  by rewrite Hc.
Qed.

Lemma object_source_set o e : object_source (set_object o e) = object_source e.
Proof. done. Qed.

Lemma to_json_set o e : to_json (set_object o e) = to_json e.
Proof. done. Qed.

Lemma source_object_Some e d : source_object e = inr (Some d) -> exists raw, object_source e = Some raw.
Proof. unfold source_object. destruct (object_source e); [eauto|done]. Qed.

Lemma get_primary_key_object e e' r :
  get_object e = (inr r, e') -> get_object e' = (inr r, e') ->
  exists k, (_ ← get_object; get_primary_key) e = (inr k, e') /\ get_primary_key e' = (inr k, e').
Proof.
  intros H1 H2. erewrite (bind_inr get_object) by done.
  unfold get_primary_key. unfold mbind at 1 3, M_bind at 1 3, gets.
  destruct (default [] (ev_key e')); [|eauto].
  rewrite (bind_inr get_object _ e' r e') by done. eauto.
Qed.

(** A second call of [get_object] returns what the first one did. *)
Lemma get_object_idem e r e' : get_object e = (inr r, e') -> get_object e' = (inr r, e').
Proof.
  intros H. destruct (ev_object e) as [d|] eqn:Hc.
  - destruct (object_source e) as [raw|] eqn:Hs.
    + rewrite (get_object_cached e raw d Hs Hc) in H. injection H as <- <-.
      by apply (get_object_cached e raw d).
    + rewrite get_object_source, Hs in H. injection H as <- <-. by rewrite get_object_source, Hs.
  - rewrite get_object_fresh in H by done. injection H as Hr He.
    destruct (source_object e) as [|[d|]] eqn:Hs; try done; subst; injection Hr as <-.
    + destruct (source_object_Some e d Hs) as [raw Hraw]. by apply (get_object_cached _ raw d).
    + rewrite get_object_fresh by done. by rewrite Hs.
Qed.

(** Objects the decoder returns have distinct keys. *)
Lemma dict_update_NoDup {V} (d1 d2 : pydict V) :
  NoDup (dict_keys d1) -> NoDup (dict_keys (dict_update d1 d2)).
Proof.
  unfold dict_update. revert d1. induction d2 as [|kv d2 IH]; intros d1 H; simpl; [done|].
  apply IH. by apply dict_set_NoDup.
Qed.

Lemma scan_number_not_dict o s v r : scan_number o s = Some (v, r) -> forall d, v <> PDict d.
Proof.
  unfold scan_number. destruct (scan_sign s) as [neg s0].
  destruct (scan_int s0) as [[ip s1]|]; [|done]. simpl.
  destruct (scan_frac s1) as [[f|] s2], (scan_exp s2) as [[e|] s3]; try (by intros [= <- _]).
  by destruct (parse_int_float o); intros [= <- _].
Qed.

Lemma scan_literal_not_dict o s v r : scan_literal (literals o) s = Some (Some v, r) -> forall d, v <> PDict d.
Proof.
  unfold literals. cbn [scan_literal]. intros H d.
  repeat (destruct (strip_prefix _ s); [destruct (reject_const o); by simplify_eq|]). done.
Qed.

Lemma scan_once_dict_NoDup o fuel s d r : scan_once o fuel s = Some (PDict d, r) -> NoDup (dict_keys d).
Proof.
  destruct fuel as [|f]; [done|]. destruct s as [|c s]; [done|]. cbn [scan_once].
  destruct (c =? 34). { by destruct (scanstring s) as [[]|]. }
  destruct (c =? 123).
  { destruct (skip_ws s) as [|x r']; [done|]. destruct (x =? 125).
    - intros [= <- _]. apply NoDup_nil_2.
    - destruct (scan_members o f (x :: r')) as [[d' r'']|]; [|done]. intros [= <- _].
      apply dict_update_NoDup, NoDup_nil_2. }
  destruct (c =? 91).
  { destruct (skip_ws s) as [|x r']; [done|]. destruct (x =? 93); [done|].
    by destruct (scan_items o f (x :: r')) as [[l r'']|]. }
  destruct (scan_literal (literals o) (c :: s)) as [[[v|] r']|] eqn:El; [|done|].
  - intros [= -> _]. by destruct (scan_literal_not_dict _ _ _ _ El d).
  - intros En. by destruct (scan_number_not_dict _ _ _ _ En d).
Qed.

Lemma json_loads_NoDup o s d : json_loads o s = Some (PDict d) -> NoDup (dict_keys d).
Proof.
  unfold json_loads. destruct (scan_once o _ (skip_ws s)) as [[v r]|] eqn:E; [|done]. simpl.
  destruct (skip_ws r); [|done]. intros [= ->]. by eapply scan_once_dict_NoDup.
Qed.

Lemma source_object_NoDup e d : source_object e = inr (Some d) -> NoDup (dict_keys d).
Proof.
  unfold source_object. destruct (object_source e) as [raw|]; [|done].
  destruct (json_loads opts_float raw) as [[]|] eqn:E; try done. intros [= ->].
  by eapply json_loads_NoDup.
Qed.

Lemma foldl_pop_get {V} props k (d : pydict V) :
  NoDup (dict_keys d) ->
  dict_get k (foldl (fun d p => dict_pop p d) d props) =
  if decide (k ∈ props) then None else dict_get k d.
Proof.
  revert d. induction props as [|p props IH]; intros d Hd; cbn [foldl].
  { rewrite decide_False by (apply not_elem_of_nil). done. }
  rewrite IH by by apply dict_pop_NoDup.
  destruct (decide (k = p)) as [->|Hne].
  - rewrite dict_get_pop_eq by done. rewrite (decide_True (P := p ∈ p :: props)) by set_solver.
    by case_decide.
  - rewrite dict_get_pop_ne by done. by repeat case_decide; set_solver.
Qed.

(** [omit_properties] removes exactly the named properties from the parsed
    object; later calls of [get_object] see the reduced object, and the raw
    before/after (so the event's JSON) are not touched. *)
Theorem omit_properties_object e d props :
  ev_object e = None -> source_object e = inr (Some d) ->
  exists d' e', omit_properties props e = (inr tt, e') /\ get_object e' = (inr (Some d'), e') /\
    (forall k, dict_get k d' = if decide (k ∈ props) then None else dict_get k d) /\
    to_json e' = to_json e.
Proof.
  intros Hc Hs. unfold omit_properties.
  rewrite (bind_inr _ _ e (Some d) (set_object (Some d) e))
    by (rewrite get_object_fresh by done; by rewrite Hs).
  eexists _, _. split; [done|]. destruct (source_object_Some e d Hs) as [raw Hraw].
  split; [by eapply get_object_cached|]. split; [|done].
  intros k. apply foldl_pop_get. by eapply source_object_NoDup.
Qed.

Definition sample_event : DBChangeEvent :=
  mk_event (u"UPDATE") (u"e1") (u"customer") (Some [u"us"; u"42"]) (u"v1") (Some (u"c1")) None None
    None (Some (u"{" ++ dq ++ u"id" ++ dq ++ u":" ++ dq ++ u"42" ++ dq ++ u"," ++ dq ++ u"n" ++ dq
                ++ u":7}"))
    (Some [u"n"]) 1700 (Some (u"1700.5")) true None None.

Lemma omit_properties_object_witness :
  exists d' e', omit_properties [u"n"] sample_event = (inr tt, e') /\
    get_object e' = (inr (Some d'), e') /\ dict_get (u"n") d' = None /\
    dict_get (u"id") d' = Some (PStr (u"42")).
Proof.
  destruct (omit_properties_object sample_event
              [(u"id", PStr (u"42")); (u"n", PFloat (FFin false 7 0))] [u"n"])
    as (d' & e' & H1 & H2 & H3 & _); [done|by vm_compute|].
  exists d', e'. split_and!; [done|done| |]; rewrite H3; by vm_compute.
Defined.

Lemma check_event_ok e e' :
  check_event e = FMOk e' ->
  exists k r, k <> [] /\ get_object e = (inr r, e') /\ get_object e' = (inr r, e') /\
    get_primary_key e' = (inr k, e').
Proof.
  unfold check_event. intros H. destruct (get_object e) as [[err|r] e1] eqn:E1.
  - rewrite (bind_inl get_object _ e err e1) in H by done. done.
  - pose proof (get_object_idem e r e1 E1) as E2.
    destruct (get_primary_key_object e e1 r E1 E2) as (k & Hk & Hk'). rewrite Hk in H.
    destruct k as [|c k]; [done|]. injection H as <-. exists (c :: k), r. done.
Qed.

(** The conversions that lead to an accepted message. *)
Lemma from_message_inv data e :
  from_message data = FMOk e ->
  exists bs text m before after e0,
    detect_utf8 data = Some bs /\ utf8_decode_with true bs = Some text /\
    json_loads opts_default text = Some (PDict m) /\
    _raw_field m (u"before") = Some before /\ _raw_field m (u"after") = Some after /\
    event_of_dict m before after = Some e0 /\ check_event e0 = FMOk e.
Proof.
  unfold from_message. destruct (detect_utf8 data) as [bs|]; [|done].
  destruct (utf8_decode_with true bs) as [text|] eqn:Et; [|done]. simpl.
  destruct (json_loads opts_default text) as [[| | | | | | | |m]|] eqn:El; try done.
  destruct (_raw_field m (u"before")) as [before|] eqn:Eb; [|done].
  destruct (_raw_field m (u"after")) as [after|] eqn:Ea; [|done].
  destruct (event_of_dict m before after) as [e0|] eqn:Ee; [|done]. intros H.
  by exists bs, text, m, before, after, e0.
Qed.

Lemma event_of_dict_fresh m b a e : event_of_dict m b a = Some e -> ev_object e = None.
Proof.
  unfold event_of_dict. intros H.
  repeat match type of H with
  | context [mbind _ ?x] => destruct x; [cbn [mbind option_bind] in H|done]
  end. by injection H as <-.
Qed.

(** C34: an event that [from_message] accepts has a primary key that is not
    empty, its object is what before/after parse to (cached, so that asking
    again never raises and gives the same object), and nothing else of the
    event depends on the cache. *)
Theorem from_message_accepts data e :
  from_message data = FMOk e ->
  exists k r, get_primary_key e = (inr k, e) /\ k <> [] /\ get_object e = (inr r, e) /\
    source_object e = inr r.
Proof.
  intros H. destruct (from_message_inv data e H) as (_ & _ & m & b & a & e0 & _ & _ & _ & _ & _ & He & Hc).
  destruct (check_event_ok e0 e Hc) as (k & r & Hk & H0 & H1 & H2).
  exists k, r. split_and!; try done.
  rewrite get_object_fresh in H0 by by eapply event_of_dict_fresh. injection H0 as Hr He'.
  assert (source_object e = source_object e0) as ->; [|done].
  rewrite <- He'. destruct (source_object e0) as [|[]] eqn:E; exact E.
Qed.

Definition sample_message : list Z :=
  utf8_encode (default [] (to_json sample_event)).

Lemma from_message_accepts_witness :
  exists e k r, from_message sample_message = FMOk e /\
    get_primary_key e = (inr k, e) /\ k <> [] /\ get_object e = (inr r, e) /\ source_object e = inr r.
Proof.
  eexists. destruct (from_message_accepts sample_message (set_object
     (Some [(u"id", PStr (u"42")); (u"n", PFloat (FFin false 7 0))]) sample_event))
    as (k & r & H); [by vm_compute|].
  exists k, r. split; [by vm_compute|]. exact H.
Defined.

(** ** The round trip through the wire *)

Definition event_ok (e : DBChangeEvent) : bool :=
  wire_ok (raw_ok opts_default) opts_default (PStruct (event_fields e)).

(** What the text keeps of an event: an empty before/after or diff is omitted,
    and the attributes that are not serialised are unset. *)
Definition norm_event (e : DBChangeEvent) : DBChangeEvent :=
  mk_event (ev_operation e) (ev_id e) (ev_table e) (ev_key e) (ev_model_version e)
    (ev_company_id e) (ev_location_id e) (ev_user_id e) (nonempty_raw (ev_before e))
    (nonempty_raw (ev_after e)) (match ev_diff e with Some [] => None | d => d end)
    (ev_timestamp e) (ev_mvcc_timestamp e) (ev_imported e) None None.

Ltac distinct_fields := apply (bool_decide_eq_true_1 _); by vm_compute.

Lemma field_get_ok raw o fs k rule x :
  wire_ok raw o (PStruct fs) = true -> field_get k fs = Some (rule, x) ->
  _omitted rule x || wire_ok raw o x = true.
Proof.
  cbn [wire_ok]. intros [_ H]%andb_true_iff Hf.
  induction fs as [|[[k' r'] x'] fs IH]; [done|]. cbn [forallb field_get] in *.
  apply andb_true_iff in H as [H1 H2]. case_decide; [|auto]. injection Hf as -> ->.
  by apply andb_true_iff in H1 as [_ H1].
Qed.

Lemma raw_field_wire fs k (r : option pystr) :
  wire_ok (raw_ok opts_default) opts_default (PStruct fs) = true ->
  NoDup (fs.*1).*1 -> field_get k fs = Some (IF_EMPTY_RAW, opt_obj PRaw r) ->
  _raw_field (wire_fields (raw_value opts_default) fs) k = Some (nonempty_raw r).
Proof.
  intros Hok Hn Hf. pose proof (field_get_ok _ _ _ _ _ _ Hok Hf) as H.
  unfold _raw_field. rewrite (wire_fields_get _ k fs _ _ Hn Hf).
  destruct r as [s|]; [|done]. cbn [opt_obj _omitted wire wire_ok] in *.
  destruct s as [|c s]; [done|]. change (raw_ok opts_default (c :: s) = true) in H.
  rewrite bool_decide_false by done. unfold raw_value, raw_ok in *.
  destruct (json_loads opts_default (c :: s)) as [v|]; [|done]. simpl.
  apply andb_true_iff in H as [_ H%bool_decide_eq_true]. unfold marshal in *. by rewrite H.
Qed.

Section event_wire.
Context (rv : pystr -> pyobj).

Lemma key_wire fs k x :
  NoDup (fs.*1).*1 -> field_get k fs = Some (NEVER, opt_obj strs_obj x) ->
  get_opt as_strs k (wire_fields rv fs) = Some x.
Proof.
  intros Hn Hf. unfold get_opt. rewrite (wire_fields_get rv k fs _ _ Hn Hf).
  destruct x as [l|]; [|done]. cbn [opt_obj _omitted].
  pose proof (as_strs_wire rv l) as H. unfold strs_obj in *. cbn [wire] in *. by rewrite H.
Qed.

Lemma diff_wire fs k x :
  NoDup (fs.*1).*1 -> field_get k fs = Some (IF_FALSY, opt_obj strs_obj x) ->
  get_opt as_strs k (wire_fields rv fs) = Some (match x with Some [] => None | d => d end).
Proof.
  intros Hn Hf. unfold get_opt. rewrite (wire_fields_get rv k fs _ _ Hn Hf).
  destruct x as [[|y l]|]; [done| |done]. cbn [opt_obj _omitted].
  change (negb (truthy (strs_obj (y :: l)))) with false. cbv iota.
  pose proof (as_strs_wire rv (y :: l)) as H.
  destruct (wire rv true (strs_obj (y :: l))); try done. by rewrite H.
Qed.

Lemma nullable_wire fs k x :
  NoDup (fs.*1).*1 -> field_get k fs = Some (NEVER, opt_obj PStr x) ->
  get_nullable_str k (wire_fields rv fs) = Some x.
Proof.
  intros Hn Hf. unfold get_nullable_str. rewrite (wire_fields_get rv k fs _ _ Hn Hf).
  by destruct x.
Qed.

Lemma int_wire fs k n :
  NoDup (fs.*1).*1 -> field_get k fs = Some (NEVER, PInt n) ->
  get_int k (wire_fields rv fs) = Some n.
Proof. intros Hn Hf. unfold get_int. by rewrite (wire_fields_get rv k fs _ _ Hn Hf). Qed.

Lemma event_of_wire e :
  event_of_dict (wire_fields rv (event_fields e)) (nonempty_raw (ev_before e))
    (nonempty_raw (ev_after e)) = Some (norm_event e).
Proof.
  unfold event_of_dict.
  rewrite (get_str_wire rv (u"operation") _ NEVER (ev_operation e)) by (distinct_fields || auto).
  rewrite (get_str_wire rv (u"id") _ NEVER (ev_id e)) by (distinct_fields || auto).
  rewrite (get_str_wire rv (u"table") _ NEVER (ev_table e)) by (distinct_fields || auto).
  rewrite (key_wire _ (u"key") (ev_key e)) by (distinct_fields || auto).
  rewrite (get_str_wire rv (u"modelVersion") _ NEVER (ev_model_version e))
    by (distinct_fields || auto).
  rewrite (get_opt_wire rv as_str PStr (u"companyId") _ (ev_company_id e)) by (distinct_fields || done).
  rewrite (get_opt_wire rv as_str PStr (u"locationId") _ (ev_location_id e)) by (distinct_fields || done).
  rewrite (get_opt_wire rv as_str PStr (u"userId") _ (ev_user_id e)) by (distinct_fields || done).
  rewrite (diff_wire _ (u"diff") (ev_diff e)) by (distinct_fields || done).
  rewrite (int_wire _ (u"timestamp") (ev_timestamp e)) by (distinct_fields || done).
  rewrite (nullable_wire _ (u"mvccTimestamp") (ev_mvcc_timestamp e)) by (distinct_fields || done).
  rewrite (get_truthy_wire rv (u"imported") _ (ev_imported e)) by (distinct_fields || done).
  unfold norm_event. destruct (ev_diff e) as [[]|]; reflexivity.
Qed.
End event_wire.

(** The text of a struct is UTF-8 as far as [detect_encoding] is concerned. *)
Lemma to_json_detect e t : to_json e = Some t -> detect_utf8 (utf8_encode t) = Some (utf8_encode t).
Proof.
  unfold to_json, gojson_struct, marshal. cbn [_encode]. intros H.
  destruct (mapM _ (event_fields e)) as [parts|] eqn:E; [|done]. injection H as <-.
  unfold event_fields in E. cbn [mapM _omitted] in E.
  apply bind_Some in E as (p & Hp & E). apply bind_Some in E as (ps & _ & [= <-]).
  cbn [_encode mbind option_bind] in Hp. injection Hp as <-.
  unfold braces, field_text. cbn [concat app]. rewrite join_cons. done.
Qed.

Lemma last_cons {A} (x : A) l d : List.last (x :: l) d = List.last l x.
Proof.
  revert x d. induction l as [|y l IH]; intros x d; [done|].
  change (List.last (x :: y :: l) d) with (List.last (y :: l) d). by rewrite (IH y d), (IH y x).
Qed.

(** what is read back prints as the event did *)
Lemma to_json_norm e r : to_json (set_object r (norm_event e)) = to_json e.
Proof.
  unfold to_json, gojson_struct, marshal, event_fields, norm_event, set_object. cbn [ev_operation ev_id ev_table ev_key ev_model_version
    ev_company_id ev_location_id ev_user_id ev_before ev_after ev_diff ev_timestamp ev_mvcc_timestamp ev_imported].
  cbn [_encode]. by destruct (ev_before e) as [[]|], (ev_after e) as [[]|], (ev_diff e) as [[]|].
Qed.

(** C33: an event with a primary key, whose before/after are texts as the printer
    writes them ([event_ok]) and parse to its object, is printed; and its text,
    unless it holds a lone surrogate, is read by [from_message] as an event with
    every serialised field unchanged (an empty before/after or diff reads as
    absent) and its object parsed and cached, which prints as the same text. *)
Theorem event_wire_roundtrip e ks r :
  event_ok e = true -> ev_key e = Some ks -> List.last ks [] <> [] -> source_object e = inr r ->
  exists t e',
    to_json e = Some t /\
    (Forall (fun c => scalar c = true) t -> from_message (utf8_encode t) = FMOk e') /\
    e' = set_object r (norm_event e) /\ to_json e' = Some t.
Proof.
  intros Hok Hk Hlast Hsrc.
  destruct (marshal_wire opts_default true (PStruct (event_fields e)) Hok) as (t & Ht & Hl).
  exists t, (set_object r (norm_event e)). split_and!; [done| |done|by rewrite to_json_norm].
  intros Hsc. unfold from_message. rewrite (to_json_detect e t Ht), utf8_roundtrip by done.
  cbn [mbind option_bind]. rewrite Hl.
  change (wire ?rv true (PStruct ?x)) with (PDict (wire_fields rv x)). cbv iota.
  rewrite (raw_field_wire _ (u"before") (ev_before e)) by (done || distinct_fields).
  rewrite (raw_field_wire _ (u"after") (ev_after e)) by (done || distinct_fields).
  rewrite event_of_wire. unfold check_event.
  assert (source_object (norm_event e) = inr r) as Hsrc'.
  { rewrite <- Hsrc. unfold source_object, object_source, norm_event; cbn [ev_after ev_before].
    by destruct (ev_after e) as [[]|], (ev_before e) as [[]|]. }
  rewrite (bind_inr get_object _ (norm_event e) r (set_object r (norm_event e))).
  2: { rewrite get_object_fresh, Hsrc' by done. by destruct r. }
  unfold get_primary_key, mbind, M_bind, gets. cbn [ev_key set_object norm_event].
  rewrite Hk. destruct ks as [|x ks]; [done|]. rewrite last_cons in Hlast.
  change (default [] (Some (x :: ks))) with (x :: ks). unfold mret, M_ret. cbv beta iota.
  by destruct (List.last ks x).
Qed.

Lemma event_wire_roundtrip_witness :
  exists t e',
    to_json sample_event = Some t /\
    (Forall (fun c => scalar c = true) t -> from_message (utf8_encode t) = FMOk e') /\
    e' = set_object (Some [(u"id", PStr (u"42")); (u"n", PFloat (FFin false 7 0))]) (norm_event sample_event) /\
    to_json e' = Some t.
Proof.
  apply (event_wire_roundtrip sample_event [u"us"; u"42"] (Some [(u"id", PStr (u"42")); (u"n", PFloat (FFin false 7 0))]));
    [by vm_compute|done|done|by vm_compute].
Defined.
