(* ===== verification/Interfaces.v ===== *)
(** * Interfaces between the components

    What the consumer asks of a destination driver (eds/driver.py: [Driver],
    [DriverMigration]), of a schema registry and of a schema validator
    (eds/schema.py: [SchemaRegistry], [SchemaValidator]).  Each is a type class
    over the state of the implementation; a call returns a value or an error
    and the next state.  The consumer is verified against any instance, the
    drivers and the registry provide the instances. *)
From stdpp Require Import base list option numbers.
From S2P Require Import Prelude PyStr PyDict PyFloat GoJson Schema DbChange.

(** how a driver writes: the last state of each row, or every change *)
Inductive IngestMode : Type := UPSERT | APPEND.

(** [DriverStoppedError] or any other exception of a driver *)
Inductive driver_error : Type := DriverStopped | DriverFailed.

(** a method of an object with state [S] *)
Abbreviation method S E A := (S -> (E + A) * S).

Class Driver (D : Type) := {
  drv_process : DBChangeEvent -> method D driver_error bool;
  drv_flush : method D driver_error unit;
  drv_max_batch_size : Z;
  (** [isinstance(driver, DriverMigration)] *)
  drv_supports_migration : bool;
  drv_migrate_new_table : Schema -> method D driver_error unit;
  drv_migrate_new_columns : Schema -> list pystr -> method D driver_error unit;
  drv_get_destination_schema : method D driver_error DatabaseSchema
}.

(** an exception of the registry (an HTTP or tracker error, an unknown schema) *)
Inductive registry_error : Type := RegistryError.

Class Registry (R : Type) := {
  reg_get_latest_schema : method R registry_error (pydict Schema);
  reg_get_schema : pystr -> pystr -> method R registry_error Schema;
  reg_get_table_version : pystr -> method R registry_error (bool * pystr);
  reg_set_table_version : pystr -> pystr -> method R registry_error unit
}.

(** [SchemaValidator.validate]: a SchemaValidationError, another exception, or
    the triple (found, valid, path) *)
Inductive validation : Type :=
| VMismatch
| VFailed
| VResult (found valid : bool) (path : pystr).

(** What a destination promises about durability: an item it took stays with
    it, held or stored, through every call that returns, a flush that returns
    stores all it holds, and nothing that is stored is ever lost, also when a
    call raises.  [renders e it] says that [it] is what the driver makes of [e]. *)
Definition preserves {D Item E A} (ok : D -> Prop) (held stored : D -> Item -> Prop) (f : method D E A) : Prop :=
  (forall d it, ok d -> stored d it -> stored (f d).2 it) /\
  (forall d a d', ok d -> f d = (inr a, d') ->
     ok d' /\ forall it, held d it -> held d' it \/ stored d' it).

Class DurableDriver (D Item : Type) `{!Driver D} := {
  renders : DBChangeEvent -> Item -> Prop;
  driver_ok : D -> Prop;
  held : D -> Item -> Prop;
  stored : D -> Item -> Prop;
  process_preserves : forall e, preserves driver_ok held stored (drv_process e);
  flush_preserves : preserves driver_ok held stored drv_flush;
  table_preserves : forall sch, preserves driver_ok held stored (drv_migrate_new_table sch);
  columns_preserves : forall sch cols, preserves driver_ok held stored (drv_migrate_new_columns sch cols);
  process_takes : forall e d b d', driver_ok d -> drv_process e d = (inr b, d') ->
    exists it, renders e it /\ (held d' it \/ stored d' it);
  flush_stores : forall d d' it, driver_ok d -> drv_flush d = (inr tt, d') -> held d it -> stored d' it
}.
