(* ===== verification/Files.v ===== *)
(** * Files: what the sources use of the file system

    [open], [os.remove] and [os.replace] as an interface, with the behaviour the
    sources rely on as laws: a call that fails leaves every other path alone, and
    a rename that fails leaves everything as it was. *)
From stdpp Require Import base tactics list option numbers sets strings gmap.
From S2P Require Import Prelude PyStr Interfaces.

Class Files (W : Type) := {
  (** what the paths hold *)
  fi_files : W -> gmap pystr (list Z);
  (** the error is the text of the OSError *)
  fi_read : pystr -> method W pystr (list Z);
  (** open for writing, truncating, and write all *)
  fi_write : pystr -> list Z -> method W pystr unit;
  fi_remove : pystr -> method W pystr unit;
  fi_replace : pystr -> pystr -> method W pystr unit;
  fi_chmod : pystr -> Z -> method W pystr unit
}.

Class FilesLaws (W : Type) `{!Files W} := {
  fl_read p w : match fi_read p w with
    | (inl _, w') => fi_files w' = fi_files w
    | (inr bs, w') => fi_files w !! p = Some bs /\ fi_files w' = fi_files w
    end;
  fl_write p bs w : match fi_write p bs w with
    | (inl _, w') => exists o, fi_files w' = partial_alter (fun _ => o) p (fi_files w)
    | (inr _, w') => fi_files w' = <[p := bs]> (fi_files w)
    end;
  fl_remove p w : match fi_remove p w with
    | (inl _, w') => fi_files w' = fi_files w
    | (inr _, w') => fi_files w' = delete p (fi_files w)
    end;
  fl_replace a b w : match fi_replace a b w with
    | (inl _, w') => fi_files w' = fi_files w
    | (inr _, w') => exists bs, fi_files w !! a = Some bs /\ fi_files w' = <[b := bs]> (delete a (fi_files w))
    end;
  fl_chmod p m w : fi_files (fi_chmod p m w).2 = fi_files w
}.

Section files.
Context {W : Type} `{!Files W} `{!FilesLaws W}.

Lemma read_files p w r w' : fi_read p w = (r, w') -> fi_files w' = fi_files w.
Proof. intros H. pose proof (fl_read p w) as L. rewrite H in L. by destruct r as [|bs]; [|destruct L]. Qed.

Lemma read_found p w bs w' : fi_read p w = (inr bs, w') -> fi_files w !! p = Some bs.
Proof. intros H. pose proof (fl_read p w) as L. rewrite H in L. by destruct L. Qed.

Lemma write_files p bs w w' : fi_write p bs w = (inr tt, w') -> fi_files w' = <[p := bs]> (fi_files w).
Proof. intros H. pose proof (fl_write p bs w) as L. by rewrite H in L. Qed.

Lemma write_other p bs w r w' q : fi_write p bs w = (r, w') -> q <> p -> fi_files w' !! q = fi_files w !! q.
Proof.
  intros H Hq. pose proof (fl_write p bs w) as L. rewrite H in L.
  destruct r as [e|[]]; [destruct L as [o ->]; by rewrite lookup_partial_alter_ne|rewrite L; by rewrite lookup_insert_ne].
Qed.

Lemma remove_other p w r w' q : fi_remove p w = (r, w') -> q <> p -> fi_files w' !! q = fi_files w !! q.
Proof.
  intros H Hq. pose proof (fl_remove p w) as L. rewrite H in L.
  destruct r as [e|[]]; rewrite L; [done|by rewrite lookup_delete_ne].
Qed.
End files.

(** a file system in memory *)
Module MemoryFiles.
Abbreviation disk := (gmap pystr (list Z)).

(** [sealed] paths refuse every write *)
#[export] Instance files (sealed : list pystr) : Files disk := {|
  fi_files d := d;
  fi_read p d := match d !! p with Some bs => (inr bs, d) | None => (inl (u"No such file"), d) end;
  fi_write p bs d := if str_in p sealed then (inl (u"Permission denied"), d) else (inr tt, <[p := bs]> d);
  fi_remove p d := match d !! p with Some _ => (inr tt, delete p d) | None => (inl (u"No such file"), d) end;
  fi_replace a b d :=
    match d !! a with
    | Some bs => if str_in b sealed then (inl (u"Permission denied"), d) else (inr tt, <[b := bs]> (delete a d))
    | None => (inl (u"No such file"), d)
    end;
  fi_chmod p _ d := match d !! p with Some _ => (inr tt, d) | None => (inl (u"No such file"), d) end
|}.

#[export] Instance laws sealed : FilesLaws disk (Files0 := files sealed).
Proof.
  split; simpl.
  - intros p w. by destruct (w !! p) eqn:E.
  - intros p bs w. destruct (str_in p sealed); [|done]. exists (w !! p). by rewrite partial_alter_self.
  - intros p w. by destruct (w !! p) eqn:E.
  - intros a b w. destruct (w !! a) as [bs|]; [|done]. destruct (str_in b sealed); [done|by exists bs].
  - intros p m w. by destruct (w !! p).
Qed.
End MemoryFiles.
