(* ===== verification/SchemaValidator.v ===== *)
(** * The schema validator: eds/util/schema.py

    A directory holds one JSON schema per table; an event of a table is checked
    against its schema and may be given a path from a template.  The package
    that compiles and checks schemas, and the one that resolves references, are
    parameters: [valid_against], [check_schema] and [lookup].  The reading of a
    directory is a function of its files.

    The theorems: a loaded directory has no dangling reference, with the fuel the
    search for them needs, and a template is rendered piece by piece.  A lemma
    shows which references the search does not look at. *)
From stdpp Require Import base tactics list option numbers sets strings.
From S2P Require Import Prelude PyStr PyPath PyDict PyFloat GoJson JsonLoads Schema DbChange Interfaces.

(** ** Templates *)

(** [[a-zA-Z0-9_.]] *)
Definition field_char (c : Z) : bool := is_alpha c || is_digit c || (c =? 95) || (c =? 46).

Fixpoint span_field (s : pystr) : pystr * pystr :=
  match s with
  | c :: r => if field_char c then let '(a, b) := span_field r in (c :: a, b) else ([], s)
  | [] => ([], [])
  end.

(** a match of [_TMPL_RE] at the front: the field and the rest *)
Definition tmpl_match (s : pystr) : option (pystr * pystr) :=
  match s with
  | 123 :: 123 :: r =>
      match lstrip r with
      | 46 :: r =>
          match span_field r with
          | (c :: field, r) => match lstrip r with 125 :: 125 :: r => Some (c :: field, r) | _ => None end
          | ([], _) => None
          end
      | _ => None
      end
  | _ => None
  end.

(** [_TMPL_RE.sub(repl, template)]: the matches from the left, with fuel for the
    characters *)
Fixpoint tmpl_sub (fuel : nat) (repl : pystr -> pystr) (s : pystr) : pystr :=
  match fuel, s with
  | S fuel', c :: r =>
      match tmpl_match s with
      | Some (field, rest) => repl field ++ tmpl_sub fuel' repl rest
      | None => c :: tmpl_sub fuel' repl r
      end
  | _, _ => []
  end.

(** [value.get(part)] along the parts of a field *)
Fixpoint walk_field (parts : list pystr) (value : pyobj) : pyobj :=
  match parts with
  | [] => value
  | part :: parts' =>
      match (match value with PDict d => default PNone (dict_get part d) | _ => PNone end) with
      | PNone => PNone
      | v => walk_field parts' v
      end
  end.

Section render.
(** [str] of a JSON value that is no string *)
Context (other_str : pyobj -> pystr).

Definition template_value (obj : pydict pyobj) (field : pystr) : pystr :=
  match walk_field (split_char 46 field) (PDict obj) with PNone => [] | PStr s => s | v => other_str v end.

Definition _render_path (template : pystr) (obj : pydict pyobj) : pystr :=
  tmpl_sub (length template) (template_value obj) template.
End render.

(** ** The object that is checked *)

Definition opt_entry (k : pystr) (o : option pystr) : pydict pyobj := match o with Some s => [(k, PStr s)] | None => [] end.

(** a row image; [None] is a ValueError of [json.loads] *)
Definition image (k : pystr) (o : option pystr) : option (pydict pyobj) :=
  match o with
  | None => Some []
  | Some raw => match json_loads opts_default raw with
                | None => None
                | Some PNone => Some []
                | Some v => Some [(k, v)]
                end
  end.

Definition _to_schema_event (event : DBChangeEvent) : option (pydict pyobj) :=
  before ← image (u"before") (ev_before event);
  after ← image (u"after") (ev_after event);
  Some ([(u"operation", PStr (ev_operation event)); (u"id", PStr (ev_id event)); (u"table", PStr (ev_table event));
         (u"key", match ev_key event with Some l => PList (PStr <$> l) | None => PNone end);
         (u"modelVersion", PStr (ev_model_version event)); (u"timestamp", PInt (ev_timestamp event));
         (u"mvccTimestamp", match ev_mvcc_timestamp event with Some s => PStr s | None => PNone end)] ++
        opt_entry (u"companyId") (ev_company_id event) ++ opt_entry (u"locationId") (ev_location_id event) ++
        opt_entry (u"userId") (ev_user_id event) ++ before ++ after ++
        match ev_diff event with Some (d :: l) => [(u"diff", PList (PStr <$> d :: l))] | _ => [] end).

(** ** The validator *)
Section validator.
(** a compiled schema, and what it says of an object: the text of a
    ValidationError, or nothing *)
Context {V : Type} (valid_against : V -> pyobj -> bool) (other_str : pyobj -> pystr).

(** the path of a rule is what config.json has there *)
Definition rules : Type := pydict (V * pyobj).

Definition validate (rs : rules) (event : DBChangeEvent) : validation :=
  match dict_get (ev_table event) rs with
  | None => VResult false false []
  | Some (validator, template) =>
      match _to_schema_event event with
      | None => VFailed
      | Some obj =>
          if valid_against validator (PDict obj)
          then
            if truthy template then
              match template with
              | PStr text => VResult true true (_render_path other_str text obj)
              | _ => VFailed
              end
            else VResult true true []
          else VMismatch
      end
  end.
End validator.

(** ** Loading a directory *)

(** the search of a schema for references: [None] inside is the exception of a
    reference that cannot be resolved, the outer [None] the end of the fuel *)
Section references.
(** [resolver.lookup(ref)]: the contents and the resolver for them *)
Context {R : Type} (lookup : R -> pystr -> option (pyobj * R)).

Definition search : Type := option (option (list pystr)).

(** [key] is not [$ref] *)
Definition is_ref (key : pystr) : bool := str_eqb key (u"$ref").

(** the text under [$ref], when it is one *)
Definition ref_of (d : pydict pyobj) : option pystr := match dict_get (u"$ref") d with Some (PStr r) => Some r | _ => None end.

Definition and_then (r : search) (k : list pystr -> search) : search :=
  match r with Some (Some seen) => k seen | r => r end.

(** [seen]: the references so far, newest first; a reference is followed once *)
Fixpoint walk (fuel : nat) : pyobj -> R -> list pystr -> search :=
  fix go (node : pyobj) (res : R) (seen : list pystr) : search :=
  match node with
  | PDict d =>
      and_then
        (match ref_of d with
         | Some ref =>
             if str_in ref seen then Some (Some seen)
             else
               match lookup res ref with
               | None => Some None
               | Some (contents, res') =>
                   match fuel with
                   | O => None
                   | S fuel' => walk fuel' contents res' (ref :: seen)
                   end
               end
         | None => Some (Some seen)
         end)
        (fun seen =>
          (fix each (d : list (pystr * pyobj)) (seen : list pystr) : search :=
             match d with
             | [] => Some (Some seen)
             | (key, value) :: d' => if is_ref key then each d' seen else and_then (go value res seen) (each d')
             end) d seen)
  | PList l =>
      (fix each (l : list pyobj) (seen : list pystr) : search :=
         match l with
         | [] => Some (Some seen)
         | item :: l' => and_then (go item res seen) (each l')
         end) l seen
  | _ => Some (Some seen)
  end.

(** the two loops by name *)
Fixpoint walk_dict (fuel : nat) (res : R) (d : list (pystr * pyobj)) (seen : list pystr) : search :=
  match d with
  | [] => Some (Some seen)
  | (key, value) :: d' => if is_ref key then walk_dict fuel res d' seen else and_then (walk fuel value res seen) (walk_dict fuel res d')
  end.

Fixpoint walk_list (fuel : nat) (res : R) (l : list pyobj) (seen : list pystr) : search :=
  match l with
  | [] => Some (Some seen)
  | item :: l' => and_then (walk fuel item res seen) (walk_list fuel res l')
  end.

Definition follow (fuel : nat) (res : R) (ref : pystr) (seen : list pystr) : search :=
  if str_in ref seen then Some (Some seen)
  else
    match lookup res ref with
    | None => Some None
    | Some (contents, res') => match fuel with O => None | S fuel' => walk fuel' contents res' (ref :: seen) end
    end.

Lemma walk_dict_eq fuel d res seen :
  walk fuel (PDict d) res seen =
  and_then (match ref_of d with Some ref => follow fuel res ref seen | None => Some (Some seen) end) (walk_dict fuel res d).
Proof.
  assert (forall r (k k' : list pystr -> search), (forall seen, k seen = k' seen) -> and_then r k = and_then r k') as Hext.
  { intros [[s|]|] k k' H; [apply H|done|done]. }
  destruct fuel; cbn [walk]; unfold follow; apply Hext; clear seen; generalize dependent d.
  all: intros d; induction d as [|[k v] d IH]; intros seen; [done|]; cbn [walk_dict]; destruct (is_ref k); [apply IH|]; apply Hext, IH.
Qed.

Lemma walk_list_eq fuel l res seen : walk fuel (PList l) res seen = walk_list fuel res l seen.
Proof.
  assert (forall r (k k' : list pystr -> search), (forall seen, k seen = k' seen) -> and_then r k = and_then r k') as Hext.
  { intros [[s|]|] k k' H; [apply H|done|done]. }
  revert seen. induction l as [|v l IH]; intros seen; destruct fuel; try done; cbn [walk_list]; apply (Hext _ _ _ IH).
Qed.

(** ** What the search finds *)

(** the references of a schema, as it is searched *)
Fixpoint refs_of (node : pyobj) : list pystr :=
  match node with
  | PDict d =>
      match ref_of d with Some r => [r] | None => [] end ++
      (fix each (d : list (pystr * pyobj)) : list pystr :=
         match d with [] => [] | (key, value) :: d' => (if is_ref key then [] else refs_of value) ++ each d' end) d
  | PList l => (fix each (l : list pyobj) : list pystr := match l with [] => [] | item :: l' => refs_of item ++ each l' end) l
  | _ => []
  end.

Definition refs_of_dict (d : list (pystr * pyobj)) : list pystr :=
  flat_map (fun kv => if is_ref kv.1 then [] else refs_of kv.2) d.

Lemma refs_of_dict_eq d : refs_of (PDict d) = match ref_of d with Some r => [r] | None => [] end ++ refs_of_dict d.
Proof. cbn [refs_of]. f_equal. induction d as [|[k v] d IH]; [done|]. simpl. by rewrite IH. Qed.
Lemma refs_of_list_eq l : refs_of (PList l) = flat_map refs_of l.
Proof. cbn [refs_of]. induction l as [|v l IH]; [done|]. simpl. by rewrite IH. Qed.

(** the resolvers the search can come by from a first one *)
Inductive derived (first : R) : R -> Prop :=
| derived_first : derived first first
| derived_next res ref contents res' : derived first res -> lookup res ref = Some (contents, res') -> derived first res'.

Context (first : R).

(** [seen] grew by references that resolve where they were met, to contents whose
    references have all been seen *)
Definition explored (seen seen' : list pystr) : Prop :=
  (forall r, r ∈ seen -> r ∈ seen') /\
  (forall r, r ∈ seen' -> r ∉ seen -> exists res contents res', derived first res /\ lookup res r = Some (contents, res') /\
     forall r', r' ∈ refs_of contents -> r' ∈ seen').

Lemma explored_refl seen : explored seen seen.
Proof. split; [done|]. intros r H1 H2. done. Qed.

Lemma explored_trans s1 s2 s3 : explored s1 s2 -> explored s2 s3 -> explored s1 s3.
Proof.
  intros [A1 A2] [B1 B2]. split; [auto|]. intros r H3 H1. destruct (decide (r ∈ s2)) as [H2|H2]; [|by apply B2].
  destruct (A2 r H2 H1) as (res & c & res' & Hd & Hc & Hr). exists res, c, res'. auto.
Qed.

(** what a search that ends without an exception establishes *)
Definition good_search (refs : list pystr) (seen : list pystr) (r : search) : Prop :=
  match r with Some (Some seen') => explored seen seen' /\ (forall x, x ∈ refs -> x ∈ seen') | _ => True end.

Lemma good_then refs1 refs2 seen r k : good_search refs1 seen r -> (forall seen', good_search refs2 seen' (k seen')) ->
  good_search (refs1 ++ refs2) seen (and_then r k).
Proof.
  unfold and_then, good_search. destruct r as [[s1|]|]; [|done|done]. intros [H1 H2] Hk. specialize (Hk s1).
  destruct (k s1) as [[s2|]|]; [|done|done]. destruct Hk as [K1 K2]. split; [by eapply explored_trans|].
  intros x [Hx|Hx]%elem_of_app; [apply K1, H2, Hx|by apply K2].
Qed.

Lemma walk_good fuel node res seen : derived first res -> good_search (refs_of node) seen (walk fuel node res seen).
Proof.
  revert node res seen. induction fuel as [fuel IHf] using lt_wf_ind. intros node.
  assert (forall ref res seen, derived first res -> good_search [ref] seen (follow fuel res ref seen)) as Hfollow.
  { intros ref res seen Ho. unfold follow. destruct (str_in ref seen) eqn:Es.
    { split; [apply explored_refl|]. intros x ->%list_elem_of_singleton. by apply bool_decide_eq_true in Es. }
    destruct (lookup res ref) as [[contents res']|] eqn:Et; [|done]. destruct fuel as [|fuel']; [done|].
    pose proof (IHf fuel' ltac:(lia) contents res' (ref :: seen) (derived_next _ _ _ _ _ Ho Et)) as IH. unfold good_search in *.
    destruct (walk fuel' contents res' (ref :: seen)) as [[s2|]|]; [|done|done]. destruct IH as [[A1 A2] A3]. split.
    - split; [intros r Hr; apply A1; by apply list_elem_of_further|]. intros r Hr Hn.
      destruct (decide (r = ref)) as [->|Hne]; [by exists res, contents, res'|]. apply A2; [done|]. intros [?|?]%elem_of_cons; done.
    - intros x ->%list_elem_of_singleton. apply A1, list_elem_of_here. }
  induction node as [| | | | | | |l IHl|d IHd] using pyobj_nested_ind; intros res seen Ho.
  1-7: destruct fuel; (split; [apply explored_refl|intros x Hx; by apply elem_of_nil in Hx]).
  - rewrite walk_list_eq, refs_of_list_eq. revert seen. induction IHl as [|v l Hv _ IHl]; intros seen.
    { split; [apply explored_refl|intros x Hx; by apply elem_of_nil in Hx]. }
    cbn [walk_list flat_map]. apply good_then; [by apply Hv|apply IHl].
  - rewrite walk_dict_eq, refs_of_dict_eq. apply good_then.
    { destruct (ref_of d); [by apply Hfollow|]. split; [apply explored_refl|intros x Hx; by apply elem_of_nil in Hx]. }
    induction IHd as [|[k v] d Hv _ IHd]; intros seen'.
    { split; [apply explored_refl|intros x Hx; by apply elem_of_nil in Hx]. }
    cbn [walk_dict]. unfold refs_of_dict. cbn [flat_map fst snd]. destruct (is_ref k); [apply IHd|]. apply good_then; [by apply Hv|apply IHd].
Qed.

(** a reference with the same contents wherever it stands, such as one with the
    whole URI of a document; one within its document ([#...]) is none *)
Definition absolute (r : pystr) : Prop :=
  forall res res', derived first res -> derived first res' -> fst <$> lookup res r = fst <$> lookup res' r.

(** an absolute reference is reached from a schema through absolute ones; [res] is
    the resolver of the document it stands in *)
Inductive reached (root : pyobj) : R -> pystr -> Prop :=
| reached_root r : r ∈ refs_of root -> absolute r -> reached root first r
| reached_next res r contents res' r' :
    reached root res r -> lookup res r = Some (contents, res') -> r' ∈ refs_of contents -> absolute r' -> reached root res' r'.

Lemma reached_derived root res r : reached root res r -> derived first res /\ absolute r.
Proof.
  induction 1 as [r Hr Ha|res r contents res' r' _ [IH _] Hl Hr Ha]; split; try done; [constructor|by eapply derived_next].
Qed.

(** a search that ends without an exception resolved what is reached *)
Lemma walk_resolves fuel root seen : walk fuel root first [] = Some (Some seen) ->
  forall res r, reached root res r -> r ∈ seen /\ is_Some (lookup res r).
Proof.
  intros E0. pose proof (walk_good fuel root first [] (derived_first _)) as H. rewrite E0 in H. destruct H as [[_ H1] H2].
  assert (forall res r, derived first res -> absolute r -> r ∈ seen ->
    exists contents res', lookup res r = Some (contents, res') /\ forall r', r' ∈ refs_of contents -> r' ∈ seen) as Hc.
  { intros res r Hd Ha Hr. destruct (H1 r Hr) as (res1 & c & res1' & Hd1 & Hl & Hs); [apply not_elem_of_nil|].
    specialize (Ha res res1 Hd Hd1). rewrite Hl in Ha. destruct (lookup res r) as [[c' res']|]; [|done].
    injection Ha as ->. by exists c, res'. }
  intros res r Hr. pose proof (reached_derived root res r Hr) as [Hd Ha]. assert (r ∈ seen) as Hin.
  { clear Hd Ha. induction Hr as [r Hr Ha|res r contents res' r' Hr IH Hl Hin Ha]; [by apply H2|].
    destruct (reached_derived root res r Hr) as [Hd' Ha']. destruct (Hc res r Hd' Ha' IH) as (c & res2 & Hl' & Hs).
    rewrite Hl in Hl'. injection Hl' as <- <-. by apply Hs. }
  split; [done|]. destruct (Hc res r Hd Ha Hin) as (c & res' & -> & _). done.
Qed.

(** *** The fuel *)

(** [all]: a list that has the references of every document *)
Context (all : list pystr).
Definition lists_all : Prop :=
  forall res ref contents res', derived first res -> lookup res ref = Some (contents, res') -> forall r, r ∈ refs_of contents -> r ∈ all.

Definition unseen (seen : list pystr) : nat := length (filter (fun r => r ∉ seen) all).

Lemma unseen_mono seen seen' : (forall r, r ∈ seen -> r ∈ seen') -> (unseen seen' <= unseen seen)%nat.
Proof.
  intros H. unfold unseen. induction all as [|r l IH]; [done|].
  rewrite !filter_cons. destruct (decide (r ∉ seen')) as [H1|H1], (decide (r ∉ seen)) as [H2|H2]; simpl; try lia. destruct H2. auto.
Qed.

Lemma unseen_less seen ref : ref ∈ all -> ref ∉ seen -> (unseen (ref :: seen) < unseen seen)%nat.
Proof.
  intros Hin Hn. unfold unseen. revert Hin. induction all as [|r l IH]; intros Hin; [by apply elem_of_nil in Hin|].
  rewrite !filter_cons. assert (length (filter (fun r => r ∉ ref :: seen) l) <= length (filter (fun r => r ∉ seen) l))%nat as Hle.
  { clear. induction l as [|x l IH]; [done|]. rewrite !filter_cons. case_decide as H1; case_decide as H2; simpl; try lia.
    destruct H1. by apply list_elem_of_further. }
  apply elem_of_cons in Hin as [<-|Hin].
  - rewrite (decide_True (P := ref ∉ seen)) by done. case_decide as H1; [destruct H1; apply list_elem_of_here|]. simpl. lia.
  - specialize (IH Hin). case_decide as H1; case_decide as H2; simpl; try lia. destruct H1. by apply list_elem_of_further.
Qed.

(** a search that has fuel for the references it has not seen does not run out *)
Definition ends (seen : list pystr) (r : search) : Prop := r <> None /\ forall seen', r = Some (Some seen') -> forall x, x ∈ seen -> x ∈ seen'.

Lemma ends_then seen r k : ends seen r -> (forall seen', (forall x, x ∈ seen -> x ∈ seen') -> ends seen' (k seen')) -> ends seen (and_then r k).
Proof.
  unfold and_then. intros [H1 H2] Hk. destruct r as [[s1|]|]; [|done|done]. destruct (Hk s1 (H2 s1 eq_refl)) as [K1 K2].
  split; [done|]. intros s2 E0 x Hx. apply (K2 s2 E0), (H2 s1 eq_refl), Hx.
Qed.

Lemma walk_ends (Hall : lists_all) fuel node res seen : derived first res -> (forall r, r ∈ refs_of node -> r ∈ all) -> (unseen seen <= fuel)%nat ->
  ends seen (walk fuel node res seen).
Proof.
  revert node res seen. induction fuel as [fuel IHf] using lt_wf_ind. intros node.
  assert (forall ref res seen, derived first res -> ref ∈ all -> (unseen seen <= fuel)%nat -> ends seen (follow fuel res ref seen)) as Hfollow.
  { intros ref res seen Ho Hin Hf. unfold follow. destruct (str_in ref seen) eqn:Es; [split; [done|]; by intros s' [= <-]|].
    apply bool_decide_eq_false in Es. destruct (lookup res ref) as [[contents res']|] eqn:Et; [|done].
    pose proof (unseen_less seen ref Hin Es). destruct fuel as [|fuel']; [lia|].
    destruct (IHf fuel' ltac:(lia) contents res' (ref :: seen)) as [H1 H2]; [by eapply derived_next|by eapply Hall|lia|].
    split; [done|]. intros s' E0 x Hx. apply (H2 s' E0). by apply list_elem_of_further. }
  assert (forall seen, ends seen (Some (Some seen))) as Hdone by (intros seen; split; [done|]; by intros s' [= <-]).
  induction node as [| | | | | | |l IHl|d IHd] using pyobj_nested_ind; intros res seen Ho Hr Hf; [destruct fuel; apply Hdone..| |].
  - rewrite refs_of_list_eq in Hr. rewrite walk_list_eq. revert seen Hf. induction IHl as [|v l Hv _ IHl]; intros seen Hf; [apply Hdone|].
    cbn [walk_list]. cbn [flat_map] in Hr. apply ends_then.
    + apply Hv; [done|intros r H; apply Hr, elem_of_app; by left|done].
    + intros seen' Hs. apply IHl; [intros r H; apply Hr, elem_of_app; by right|]. pose proof (unseen_mono seen seen' Hs). lia.
  - rewrite refs_of_dict_eq in Hr. rewrite walk_dict_eq. apply ends_then.
    { destruct (ref_of d) as [ref|]; [|apply Hdone]. apply Hfollow; [done|apply Hr, list_elem_of_here|done]. }
    assert (forall r, r ∈ refs_of_dict d -> r ∈ all) as Hr' by (intros r H; apply Hr, elem_of_app; by right). clear Hr.
    intros seen' Hs. pose proof (unseen_mono seen seen' Hs) as Hle. assert (unseen seen' <= fuel)%nat as Hf' by lia. clear Hs Hle Hf seen.
    revert seen' Hf'. induction IHd as [|[k v] d Hv _ IHd]; intros seen Hf; [apply Hdone|].
    unfold refs_of_dict in Hr'. cbn [flat_map fst snd] in Hr'. cbn [walk_dict]. destruct (is_ref k); [by apply IHd|]. apply ends_then.
    + apply Hv; [done|intros r H; apply Hr', elem_of_app; by left|done].
    + intros seen' Hs. apply IHd; [intros r H; apply Hr', elem_of_app; by right|]. pose proof (unseen_mono seen seen' Hs). lia.
Qed.
End references.

(** *** A directory *)
Section load.
(** the file system as it is during the load: [os.getcwd], [os.path.exists], the
    text of a file, and the (dirpath, filenames) of [os.walk] *)
Context (cwd : pystr) (exists_ : pystr -> bool) (read_text : pystr -> option pystr) (os_walk : pystr -> list (pystr * list pystr)).

(** [os.path.relpath] *)
Fixpoint common_prefix (a b : list pystr) : nat :=
  match a, b with
  | x :: a', y :: b' => if str_eqb x y then S (common_prefix a' b') else O
  | _, _ => O
  end.

Definition parts_of (p : pystr) : list pystr := filter (fun c => c <> []) (split_char slash (abspath cwd p)).

Definition relpath (p start : pystr) : pystr :=
  let a := parts_of start in
  let b := parts_of p in
  let i := common_prefix a b in
  match replicate (length a - i) dotdot ++ drop i b with [] => dot | rel => join [slash] rel end.

Definition _list_files (root : pystr) : list pystr :=
  flat_map (fun dir => (fun name => path_join dir.1 [name]) <$> filter (fun name => name <> u".DS_Store") dir.2) (os_walk root).

(** [open] and [json.load] *)
Definition read_json (p : pystr) : option pyobj := text ← read_text p; json_loads opts_default text.

(** the packages: [Resource.from_contents], [Registry().with_resources] and
    [resolver()], [validator_for], [check_schema] and the validator of a schema *)
Context {Res R C V : Type} (from_contents : pyobj -> option Res) (resolver : list (pystr * Res) -> R)
  (validator_for : pyobj -> C) (check_schema : C -> pyobj -> bool) (compiled : C -> pyobj -> list (pystr * Res) -> V)
  (lookup : R -> pystr -> option (pyobj * R)).

Inductive load_refusal : Type :=
| Runtime (message : pystr)         (** a RuntimeError with this message *)
| Compiling (path table : pystr)    (** the RuntimeError of a schema that is refused *)
| Uncaught                          (** an exception of a read or a lookup *)
| Endless.                          (** the end of the fuel *)

Definition loaded (A : Type) : Type := sum load_refusal A.

Fixpoint resources (abs_dir : pystr) (files : list pystr) : loaded (list (pystr * Res)) :=
  match files with
  | [] => inr []
  | filename :: files' =>
      let rel := relpath filename abs_dir in
      if str_eqb rel (u"config.json") then resources abs_dir files'
      else
        match contents ← read_json filename; from_contents contents with
        | None => inl Uncaught
        | Some resource =>
            match resources abs_dir files' with
            | inl e => inl e
            | inr more =>
                inr ((u"file://" ++ rel, resource) :: (u"file:///" ++ rel, resource) :: (u"file://" ++ filename, resource) :: more)
            end
        end
  end.

Definition schema_not_found (path table : pystr) : pystr := u"schema file not found: " ++ path ++ u" for table: " ++ table.
Definition config_not_found (abs_dir : pystr) : pystr := u"config.json not found in schema directory: " ++ abs_dir.

(** one table of config.json *)
Definition load_rule (fuel : nat) (abs_dir : pystr) (registry : list (pystr * Res)) (table : pystr) (rule : pyobj) : loaded (V * pyobj) :=
  match rule with
  | PDict rule =>
      match dict_get (u"schema") rule with
      | Some (PStr name) =>
          let schema_path := path_join abs_dir [name] in
          if exists_ schema_path then
            match read_json schema_path with
            | None => inl Uncaught
            | Some root =>
                let validator_cls := validator_for root in
                if check_schema validator_cls root then
                  match walk lookup fuel root (resolver registry) [] with
                  | None => inl Endless
                  | Some None => inl (Compiling schema_path table)
                  | Some (Some _) => inr (compiled validator_cls root registry, default (PStr []) (dict_get (u"path") rule))
                  end
                else inl (Compiling schema_path table)
            end
          else inl (Runtime (schema_not_found schema_path table))
      | _ => inl Uncaught
      end
  | _ => inl Uncaught
  end.

Fixpoint load_rules (fuel : nat) (abs_dir : pystr) (registry : list (pystr * Res)) (rules_cfg : list (pystr * pyobj)) (acc : rules (V := V))
  : loaded (rules (V := V)) :=
  match rules_cfg with
  | [] => inr acc
  | (table, rule) :: cfg =>
      match load_rule fuel abs_dir registry table rule with
      | inl e => inl e
      | inr r => load_rules fuel abs_dir registry cfg (dict_set table r acc)
      end
  end.

Definition new_schema_validator (fuel : nat) (schema_dir : pystr) : loaded (rules (V := V)) :=
  let abs_dir := abspath cwd schema_dir in
  let config := path_join abs_dir [u"config.json"] in
  if exists_ config then
    match read_json config with
    | Some cfg =>
        match resources abs_dir (_list_files abs_dir) with
        | inl e => inl e
        | inr registry => match cfg with PDict rules_cfg => load_rules fuel abs_dir registry rules_cfg [] | _ => inl Uncaught end
        end
    | None => inl Uncaught
    end
  else inl (Runtime (config_not_found abs_dir)).
End load.

(** ** Properties *)
Section properties.
Context (cwd : pystr) (exists_ : pystr -> bool) (read_text : pystr -> option pystr) (os_walk : pystr -> list (pystr * list pystr)).
Context {Res R C V : Type} (from_contents : pyobj -> option Res) (resolver : list (pystr * Res) -> R)
  (validator_for : pyobj -> C) (check_schema : C -> pyobj -> bool) (compiled : C -> pyobj -> list (pystr * Res) -> V)
  (lookup : R -> pystr -> option (pyobj * R)).

Local Abbreviation load fuel dir :=
  (new_schema_validator cwd exists_ read_text os_walk from_contents resolver validator_for check_schema compiled lookup fuel dir).
Local Abbreviation rules_of fuel abs_dir registry cfg acc :=
  (load_rules exists_ read_text resolver validator_for check_schema compiled lookup fuel abs_dir registry cfg acc).
Local Abbreviation rule_of fuel abs_dir registry table rule :=
  (load_rule exists_ read_text resolver validator_for check_schema compiled lookup fuel abs_dir registry table rule).

(** the rule of a table is that of an entry of config.json: its path, and the
    validator of the schema file it names, which was checked and from which every
    absolute reference that is reached resolves *)
Definition sound_rule (abs_dir : pystr) (registry : list (pystr * Res)) (cfg : list (pystr * pyobj)) (table : pystr) (v : V) (path : pyobj) : Prop :=
  exists rule name root, (table, PDict rule) ∈ cfg /\ dict_get (u"schema") rule = Some (PStr name) /\
    read_json read_text (path_join abs_dir [name]) = Some root /\ check_schema (validator_for root) root = true /\
    v = compiled (validator_for root) root registry /\ path = default (PStr []) (dict_get (u"path") rule) /\
    forall res r, reached lookup (resolver registry) root res r -> is_Some (lookup res r).

Lemma load_rule_sound fuel abs_dir registry cfg table rule v path : (table, rule) ∈ cfg ->
  rule_of fuel abs_dir registry table rule = inr (v, path) -> sound_rule abs_dir registry cfg table v path.
Proof.
  unfold load_rule. destruct rule as [| | | | | | | |rule]; try done. intros Hin.
  destruct (dict_get (u"schema") rule) as [[| | | |name| | | |]|] eqn:En; try done.
  destruct (exists_ _); [|done]. destruct (read_json _ _) as [root|] eqn:Er; [|done]. destruct (check_schema _ _) eqn:Ec; [|done].
  destruct (walk _ _ _ _ _) as [[seen|]|] eqn:Ew; [|done|done]. intros [= <- <-]. exists rule, name, root. split_and!; try done.
  intros res r Hr. by apply (walk_resolves lookup (resolver registry) _ _ _ Ew res r).
Qed.

Lemma load_rules_sound fuel abs_dir registry all_cfg cfg acc rs : (forall e, e ∈ cfg -> e ∈ all_cfg) ->
  (forall table v path, dict_get table acc = Some (v, path) -> sound_rule abs_dir registry all_cfg table v path) ->
  rules_of fuel abs_dir registry cfg acc = inr rs ->
  forall table v path, dict_get table rs = Some (v, path) -> sound_rule abs_dir registry all_cfg table v path.
Proof.
  revert acc. induction cfg as [|[table rule] cfg IH]; intros acc Hin Hacc; simpl; [by intros [= <-]|].
  destruct (rule_of fuel abs_dir registry table rule) as [e|[v path]] eqn:Er; [done|].
  apply IH; [intros e He; by apply Hin, list_elem_of_further|]. intros t v' path'. rewrite dict_get_set.
  case_bool_decide || destruct (decide _); [|apply Hacc]. intros [= <- <-]. subst t.
  eapply load_rule_sound; [|exact Er]. apply Hin, list_elem_of_here.
Qed.

(** all references of the documents *)
Context (all : list pystr) (Hdocs : forall p root, read_json read_text p = Some root -> forall r, r ∈ refs_of root -> r ∈ all).
Lemma load_rule_ends fuel abs_dir registry table rule : lists_all lookup (resolver registry) all -> (length all <= fuel)%nat -> rule_of fuel abs_dir registry table rule <> inl Endless.
Proof.
  intros Hall Hf. unfold load_rule. destruct rule as [| | | | | | | |rule]; try done. destruct (dict_get (u"schema") rule) as [[| | | |name| | | |]|]; try done.
  destruct (exists_ _); [|done]. destruct (read_json _ _) as [root|] eqn:Er; [|done]. destruct (check_schema _ _); [|done].
  destruct (walk_ends lookup (resolver registry) all Hall fuel root (resolver registry) []) as [H _];
    [apply derived_first|by eapply Hdocs| |].
  { unfold unseen. etrans; [apply length_filter|done]. }
  by destruct (walk _ _ _ _ _) as [[]|].
Qed.

Lemma load_rules_ends fuel abs_dir registry cfg acc : lists_all lookup (resolver registry) all -> (length all <= fuel)%nat -> rules_of fuel abs_dir registry cfg acc <> inl Endless.
Proof.
  intros Hall Hf. revert acc. induction cfg as [|[table rule] cfg IH]; intros acc; [done|]. simpl.
  pose proof (load_rule_ends fuel abs_dir registry table rule Hall Hf) as H. destruct (rule_of fuel abs_dir registry table rule) as [e|r]; [congruence|apply IH].
Qed.

Lemma resources_end abs_dir files : resources cwd read_text from_contents abs_dir files <> inl Endless.
Proof.
  induction files as [|f files IH]; [done|]. simpl. destruct (str_eqb _ _); [done|]. destruct (read_json _ _ ≫= _); [|done].
  by destruct (resources _ _ _ _ files) as [[]|].
Qed.

(** C32: With fuel for the references of the documents the load of a directory ends;
    and when it returns, the rule of every table is that of an entry of
    config.json, with the validator of a schema that was checked, and every
    reference that resolves alike from every document, reached from that schema
    through such references, also through other documents, resolves where it
    stands: a directory with such a reference dangling is refused before the first
    event. *)
Theorem loaded_schemas_resolve fuel schema_dir :
  let abs_dir := abspath cwd schema_dir in
  (forall registry, resources cwd read_text from_contents abs_dir (_list_files os_walk abs_dir) = inr registry ->
     lists_all lookup (resolver registry) all) ->
  (length all <= fuel)%nat ->
  match load fuel schema_dir with
  | inl e => e <> Endless
  | inr rs =>
      exists registry cfg, resources cwd read_text from_contents abs_dir (_list_files os_walk abs_dir) = inr registry /\
      read_json read_text (path_join abs_dir [u"config.json"]) = Some (PDict cfg) /\
      forall table v path, dict_get table rs = Some (v, path) -> sound_rule abs_dir registry cfg table v path
  end.
Proof.
  cbv zeta. intros Hall Hf. unfold new_schema_validator. destruct (exists_ _); [|done]. destruct (read_json _ _) as [cfg|]; [|done].
  pose proof (resources_end (abspath cwd schema_dir) (_list_files os_walk (abspath cwd schema_dir))) as Hr.
  destruct (resources _ _ _ _ _) as [e|registry]; [congruence|]. specialize (Hall registry eq_refl). destruct cfg as [| | | | | | | |cfg]; try done.
  pose proof (load_rules_ends fuel (abspath cwd schema_dir) registry cfg [] Hall Hf) as He.
  destruct (rules_of fuel (abspath cwd schema_dir) registry cfg []) as [e|rs] eqn:El; [congruence|].
  exists registry, cfg. split; [done|]. split; [done|]. refine (load_rules_sound _ _ _ cfg cfg [] rs _ _ El); [done|]. by intros ? ? ?.
Qed.
End properties.

(** ** A path from a template *)

(** a template in pieces: plain text, and [{{ .field }}] *)
Inductive piece : Type :=
| Text (s : pystr)
| Field (before field after : pystr).

Definition piece_text (p : piece) : pystr :=
  match p with
  | Text s => s
  | Field before field after => u"{{" ++ before ++ u"." ++ field ++ after ++ u"}}"
  end.

Definition piece_ok (p : piece) : bool :=
  match p with
  | Text s => forallb (fun c => negb (c =? 123)) s
  | Field before field after =>
      forallb is_space before && forallb is_space after && forallb field_char field && match field with [] => false | _ => true end
  end.

Definition render_piece (repl : pystr -> pystr) (p : piece) : pystr := match p with Text s => s | Field _ field _ => repl field end.

Lemma lstrip_spaces ws c r : forallb is_space ws = true -> is_space c = false -> lstrip (ws ++ c :: r) = c :: r.
Proof. intros Hws Hc. induction ws as [|x ws IH]; simpl in *; [by rewrite Hc|]. apply andb_true_iff in Hws as [-> H]. auto. Qed.

Lemma span_field_app f c r : forallb field_char f = true -> field_char c = false -> span_field (f ++ c :: r) = (f, c :: r).
Proof. intros Hf Hc. induction f as [|x f IH]; simpl in *; [by rewrite Hc|]. apply andb_true_iff in Hf as [-> H]. by rewrite IH. Qed.

(** a space is no character of a field *)
Lemma space_no_field c : is_space c = true -> field_char c = false.
Proof. intros H. unfold field_char, is_alpha, is_lower, is_upper, is_digit. unfold is_space in H. lia. Qed.

Lemma tmpl_match_field before field after r : piece_ok (Field before field after) = true ->
  tmpl_match (piece_text (Field before field after) ++ r) = Some (field, r).
Proof.
  intros [[[Hb Ha]%andb_true_iff Hf]%andb_true_iff Hn]%andb_true_iff. destruct field as [|x field]; [done|].
  replace (piece_text (Field before (x :: field) after) ++ r) with (123 :: 123 :: before ++ 46 :: (x :: field) ++ after ++ 125 :: 125 :: r)
    by (unfold piece_text; by rewrite <- !app_assoc).
  unfold tmpl_match. rewrite lstrip_spaces by done.
  assert (exists c rest, after ++ 125 :: 125 :: r = c :: rest /\ field_char c = false) as (c & rest & Hc & Hfc).
  { destruct after as [|c after]; [by exists 125, (125 :: r)|]. simpl in Ha. apply andb_true_iff in Ha as [Ha _].
    exists c. eexists. split; [done|by apply space_no_field]. }
  rewrite Hc, (span_field_app (x :: field)), <- Hc by done. by rewrite lstrip_spaces.
Qed.

Lemma tmpl_sub_text repl s r fuel : forallb (fun c => negb (c =? 123)) s = true -> (length s <= fuel)%nat ->
  tmpl_sub fuel repl (s ++ r) = s ++ tmpl_sub (fuel - length s) repl r.
Proof.
  revert fuel. induction s as [|c s IH]; intros fuel Hs Hf; [by rewrite Nat.sub_0_r|]. simpl in *. destruct fuel as [|fuel]; [lia|].
  apply andb_true_iff in Hs as [Hc Hs]. apply negb_true_iff, Z.eqb_neq in Hc. cbn [tmpl_sub app].
  assert (tmpl_match (c :: s ++ r) = None) as ->; [|by rewrite IH by (done || lia)].
  unfold tmpl_match. destruct c as [|p|p]; [done| |done]. do 7 try (destruct p as [p|p|]; try done).
Qed.

(** A template is rendered piece by piece: plain text stays as it is, and a
    [{{ .field }}] becomes what the field of the event holds. *)
Theorem render_pieces other_str obj pieces : forallb piece_ok pieces = true ->
  _render_path other_str (flat_map piece_text pieces) obj = flat_map (render_piece (template_value other_str obj)) pieces.
Proof.
  unfold _render_path. generalize (template_value other_str obj) as repl. intros repl Hok.
  assert (forall fuel, (length (flat_map piece_text pieces) <= fuel)%nat ->
    tmpl_sub fuel repl (flat_map piece_text pieces) = flat_map (render_piece repl) pieces) as H; [|by apply H].
  induction pieces as [|[s|b f a] l IH]; intros fuel Hf; [by destruct fuel| |].
  - simpl in *. apply andb_true_iff in Hok as [Hs Hl]. rewrite length_app in Hf. rewrite tmpl_sub_text by (done || lia).
    by rewrite IH by (done || lia).
  - cbn [forallb] in Hok. apply andb_true_iff in Hok as [Hp Hl]. cbn [flat_map render_piece]. cbn [flat_map] in Hf. rewrite length_app in Hf.
    destruct fuel as [|fuel]; [simpl in Hf; lia|]. pose proof (tmpl_match_field b f a (flat_map piece_text l) Hp) as E0.
    simpl in Hf. change (piece_text (Field b f a)) with (123 :: 123 :: b ++ u"." ++ f ++ a ++ u"}}") in E0 |- *. cbn [app tmpl_sub] in E0 |- *. rewrite E0.
    rewrite IH; [done|done|lia].
Qed.

(** ** A concrete directory

    Two schemas that refer to each other, and the same with a file missing.  A
    reference is resolved to the document of that URI, or, for one with [#], to a
    definition of the document it stands in. *)
Module SchemaRun.
(** the documents, and the one the references are resolved in *)
Definition resolver_state : Type := list (pystr * pyobj) * pyobj.

Definition resolve_ref (st : resolver_state) (ref : pystr) : option (pyobj * resolver_state) :=
  match ref with
  | 35 :: name => match st.2 with PDict d => v ← dict_get name d; Some (v, st) | _ => None end
  | _ => doc ← dict_get ref st.1; Some (doc, (st.1, doc))
  end.

(** the references to documents *)
Definition to_document (docs : list (pystr * pyobj)) (ref : pystr) : option (pyobj * resolver_state) :=
  match ref with 35 :: _ => None | _ => doc ← dict_get ref docs; Some (doc, (docs, doc)) end.

Definition files : list (pystr * pystr) :=
  [(u"/s/config.json", u"{'order':{'schema':'order.json','path':'{{.table}}/{{ .after.id }}.json'}}");
   (u"/s/order.json", u"{'properties':{'after':{'$ref':'file:///base/id.json'}}}");
   (u"/s/base/id.json", u"{'items':[{'$ref':'file:///order.json'},{'$ref':'file:///base/id.json'}]}")].

(** the same text with the quotes of JSON *)
Definition json (s : pystr) : pystr := (fun c => if c =? 39 then 34 else c) <$> s.
Definition text_of (files : list (pystr * pystr)) (p : pystr) : option pystr := json <$> dict_get p files.
Definition walked (p : pystr) : list (pystr * list pystr) := [(p, [u"config.json"; u"order.json"; u".DS_Store"]); (p ++ u"/base", [u"id.json"])].

Definition load (files : list (pystr * pystr)) (fuel : nat) :=
  new_schema_validator (u"/") (fun p => if dict_get p files then true else false) (text_of files) walked Some
    (fun docs => (docs, PNone) : resolver_state) (fun _ => tt) (fun _ _ => true) (fun _ root _ => root) resolve_ref fuel (u"s").

Definition all : list pystr := [u"file:///base/id.json"; u"file:///order.json"; u"file:///base/id.json"].

(** what the search for references loads: the templates are in place *)
Example loads : load files 3 = inr [(u"order", (PDict [(u"properties", PDict [(u"after", PDict [(u"$ref", PStr (u"file:///base/id.json"))])])], PStr (u"{{.table}}/{{ .after.id }}.json")))].
Proof. vm_compute. reflexivity. Qed.

(** a file that is missing refuses the directory *)
Example missing : load (delete 2%nat files) 3 = inl Uncaught.
Proof. vm_compute. reflexivity. Qed.

(** [seen] holds the texts of references.  A reference within its document is
    looked at in the first document it is found in only: [#id] resolves in the
    first, so the second, which has no such definition, is accepted, although the
    same reference resolves nowhere from there. *)
Definition docs : list (pystr * pyobj) :=
  [(u"a", PDict [(u"id", PInt 1); (u"x", PDict [(u"$ref", PStr (u"#id"))])]); (u"b", PDict [(u"x", PDict [(u"$ref", PStr (u"#id"))])])].
Definition root : pyobj := PList [PDict [(u"$ref", PStr (u"a"))]; PDict [(u"$ref", PStr (u"b"))]].

Lemma relative_reference_unchecked :
  walk resolve_ref 3 root (docs, PNone) [] = Some (Some [u"b"; u"#id"; u"a"]) /\
  walk resolve_ref 3 (PList [PDict [(u"$ref", PStr (u"b"))]; PDict [(u"$ref", PStr (u"a"))]]) (docs, PNone) [] = Some None.
Proof. split; vm_compute; reflexivity. Qed.

(** references to documents alone *)
Definition resolve_document (st : resolver_state) (ref : pystr) : option (pyobj * resolver_state) := to_document st.1 ref.

Definition load_documents (files : list (pystr * pystr)) (fuel : nat) :=
  new_schema_validator (u"/") (fun p => if dict_get p files then true else false) (text_of files) walked Some
    (fun docs => (docs, PNone) : resolver_state) (fun _ => tt) (fun _ _ => true) (fun _ root _ => root) resolve_document fuel (u"s").

Lemma to_document_spec docs ref contents st : to_document docs ref = Some (contents, st) -> dict_get ref docs = Some contents /\ st.1 = docs.
Proof.
  unfold to_document. destruct (dict_get ref docs) as [d|] eqn:E0; intros H; cbn in H; repeat case_match; simplify_eq/=; try done.
  all: by rewrite E0 in H.
Qed.

Lemma from_documents (P : pyobj -> bool) docs : forallb (fun kv => P kv.2) docs = true ->
  forall ref contents res, to_document docs ref = Some (contents, res) -> P contents = true.
Proof.
  intros Hp ref contents res [Hd _]%to_document_spec. induction docs as [|[k v] docs IH]; [done|]. simpl in *.
  apply andb_true_iff in Hp as [Hv Hp]. case_decide; [by simplify_eq|auto].
Qed.

Definition refs_in_all (v : pyobj) : bool := forallb (fun r => str_in r all) (refs_of v).

Lemma refs_in_all_spec v : refs_in_all v = true -> forall r, r ∈ refs_of v -> r ∈ all.
Proof.
  intros H r Hr. unfold refs_in_all in H. rewrite forallb_forall in H. specialize (H r). apply list_elem_of_In in Hr. specialize (H Hr).
  by apply bool_decide_eq_true in H.
Qed.

Lemma files_refs p v : read_json (text_of files) p = Some v -> refs_in_all v = true.
Proof.
  unfold read_json, text_of, files. cbn [dict_get]. repeat case_decide; cbn -[json u]; try done.
  all: intros Hv; vm_compute in Hv; injection Hv as <-; vm_compute; reflexivity.
Qed.

Lemma derived_docs docs root st : derived resolve_document (docs, root) st -> st.1 = docs.
Proof. induction 1 as [|st ref contents st' _ IH Hl]; [done|]. rewrite <- IH. apply (to_document_spec _ _ _ _ Hl). Qed.

(** a reference to a document resolves alike from every document *)
Lemma documents_absolute docs root ref : absolute resolve_document (docs, root) ref.
Proof. intros st st' H%derived_docs H'%derived_docs. unfold resolve_document. by rewrite H, H'. Qed.

Lemma loaded_schemas_resolve_witness :
  let abs_dir := abspath (u"/") (u"s") in
  match load_documents files 3 with
  | inl e => e <> Endless
  | inr rs =>
      exists registry cfg, resources (u"/") (text_of files) Some abs_dir (_list_files walked abs_dir) = inr registry /\
      read_json (text_of files) (path_join abs_dir [u"config.json"]) = Some (PDict cfg) /\
      forall table v path, dict_get table rs = Some (v, path) ->
        sound_rule (text_of files) (fun docs => (docs, PNone) : resolver_state) (fun _ => tt) (fun _ _ => true) (fun _ root _ => root) resolve_document
          abs_dir registry cfg table v path
  end.
Proof.
  refine (loaded_schemas_resolve (u"/") (fun p => if dict_get p files then true else false) (text_of files) walked Some
    (fun docs => (docs, PNone) : resolver_state) (fun _ => tt) (fun _ _ => true) (fun _ root _ => root) resolve_document
    all _ 3 (u"s") _ _).
  - intros p v H. apply refs_in_all_spec, (files_refs p v H).
  - intros docs H st ref contents st' Hd Ht. apply refs_in_all_spec, (from_documents refs_in_all docs) with ref st'.
    + vm_compute in H. injection H as <-. vm_compute. reflexivity.
    + rewrite <- (derived_docs docs PNone st Hd). exact Ht.
  - vm_compute. lia.
Defined.

Lemma render_pieces_witness :
  _render_path (fun _ => []) (flat_map piece_text [Field [] (u"table") []; Text (u"/"); Field (u" ") (u"after.id") (u" "); Text (u".json")])
    [(u"table", PStr (u"order")); (u"after", PDict [(u"id", PStr (u"o1"))])] = u"order/o1.json".
Proof.
  rewrite (render_pieces (fun _ => []) [(u"table", PStr (u"order")); (u"after", PDict [(u"id", PStr (u"o1"))])]
    [Field [] (u"table") []; Text (u"/"); Field (u" ") (u"after.id") (u" "); Text (u".json")]); vm_compute; reflexivity.
Defined.
End SchemaRun.
