(* ===== verification/Logger.v ===== *)
(** * The logger: eds/util/logger.py

    The console logger with its prefixes, fields and levels, and the log file
    sink with its rotation, over the files of the log directory and the clock.

    The theorem: with one rotation at most in a millisecond, the files of the sink
    hold the records between two rotations, each record once and in order, none
    filtered, and the console has those from the level on.  A lemma shows two
    rotations in the same millisecond. *)
From stdpp Require Import base tactics list option numbers sets strings gmap.
From S2P Require Import Prelude PyStr PyPath PyDict.

Inductive LogLevel : Type := TRACE | DEBUG | INFO | WARN | ERROR.

Definition level_value (l : LogLevel) : Z := match l with TRACE => 0 | DEBUG => 1 | INFO => 2 | WARN => 3 | ERROR => 4 end.
Definition _TAGS (l : LogLevel) : pystr :=
  match l with TRACE => u"TRACE" | DEBUG => u"DEBUG" | INFO => u"INFO" | WARN => u"WARN" | ERROR => u"ERROR" end.

(** ** Messages *)

(** [fmt.replace("%+v", "%s").replace("%v", "%s")]: no occurrence overlaps another *)
Fixpoint replace_plus_v (s : pystr) : pystr :=
  match s with
  | 37 :: 43 :: 118 :: r => 37 :: 115 :: replace_plus_v r
  | c :: r => c :: replace_plus_v r
  | [] => []
  end.
Fixpoint replace_v (s : pystr) : pystr :=
  match s with
  | 37 :: 118 :: r => 37 :: 115 :: replace_v r
  | c :: r => c :: replace_v r
  | [] => []
  end.

Section format.
(** an argument: [str] of it, and its text under another conversion, [None] when
    the conversion does not take it *)
Context {A : Type} (text : A -> pystr) (convert : pystr -> A -> option pystr).

(** flags, width and precision in front of the conversion character *)
Fixpoint span_spec (s : pystr) : pystr * pystr :=
  match s with
  | c :: r => if is_digit c || char_in c (u"#+- .") then let '(a, b) := span_spec r in (c :: a, b) else ([], s)
  | [] => ([], [])
  end.

(** [fmt % args] of a tuple, with fuel for the characters: [None] is a TypeError
    or a ValueError *)
Fixpoint percent (fuel : nat) (fmt : pystr) (args : list A) : option pystr :=
  match fuel, fmt with
  | _, [] => match args with [] => Some [] | _ => None end
  | O, _ => None
  | S fuel', c :: r =>
      if c =? 37 then
        match span_spec r with
        | (_, []) => None
        | ([], 37 :: r') => t ← percent fuel' r' args; Some (37 :: t)
        | (spec, k :: r') =>
            match args with
            | [] => None
            | a :: args' =>
                s ← (if (k =? 115) && match spec with [] => true | _ => false end then Some (text a) else convert (spec ++ [k]) a);
                t ← percent fuel' r' args';
                Some (s ++ t)
            end
        end
      else t ← percent fuel' r args; Some (c :: t)
  end.

Definition _format (fmt : pystr) (args : list A) : pystr :=
  match args with
  | [] => fmt
  | _ => let py_fmt := replace_v (replace_plus_v fmt) in default fmt (percent (length py_fmt) py_fmt args)
  end.

(** ** The console logger *)

Record ConsoleLogger := mk_logger {
  lg_min : LogLevel;
  lg_prefix : pystr;
  lg_fields : option (pydict A);
  lg_timestamps : bool;
  lg_sink : bool          (** whether the sink is attached *)
}.

Definition with_prefix (prefix : pystr) (l : ConsoleLogger) : ConsoleLogger :=
  mk_logger (lg_min l) (lg_prefix l ++ prefix) (lg_fields l) (lg_timestamps l) (lg_sink l).

Definition with_fields (fields : pydict A) (l : ConsoleLogger) : ConsoleLogger :=
  mk_logger (lg_min l) (lg_prefix l) (Some (foldl (fun d kv => dict_set kv.1 kv.2 d) (default [] (lg_fields l)) fields)) (lg_timestamps l) (lg_sink l).

Definition with_sink (sink : bool) (l : ConsoleLogger) : ConsoleLogger :=
  mk_logger (lg_min l) (lg_prefix l) (lg_fields l) (lg_timestamps l) sink.

(** [datetime.now().strftime(...)[:-3]] of a clock in milliseconds *)
Context (stamp : Z -> pystr).

Definition _build_line (l : ConsoleLogger) (level : LogLevel) (message : pystr) (now : Z) (with_ts : bool) : pystr :=
  join (u" ") ((if with_ts then [stamp now] else []) ++ [_TAGS level] ++ match lg_prefix l with [] => [] | p => [p] end) ++ u" " ++ message ++
  match lg_fields l with Some fields => flat_map (fun kv => u" " ++ kv.1 ++ u"=" ++ text kv.2) fields | None => [] end.

(** ** The world: the console, the log directory, the clock *)

Record LogWorld := mk_world {
  lw_out : list pystr;
  lw_files : gmap pystr pystr;
  lw_file : option pystr;       (** the file of the sink, while it is open *)
  lw_ms : Z
}.

Definition lw_set_out (o : list pystr) (w : LogWorld) : LogWorld := mk_world o (lw_files w) (lw_file w) (lw_ms w).
Definition lw_set_files (f : gmap pystr pystr) (w : LogWorld) : LogWorld := mk_world (lw_out w) f (lw_file w) (lw_ms w).
Definition lw_set_file (f : option pystr) (w : LogWorld) : LogWorld := mk_world (lw_out w) (lw_files w) f (lw_ms w).
Definition lw_set_ms (ms : Z) (w : LogWorld) : LogWorld := mk_world (lw_out w) (lw_files w) (lw_file w) ms.

(** [LogFileSink.write] *)
Definition sink_write (line : pystr) (w : LogWorld) : LogWorld :=
  match lw_file w with
  | None => w
  | Some f => lw_set_files (<[f := default [] (lw_files w !! f) ++ line ++ [10]]> (lw_files w)) w
  end.

Definition sink_close (w : LogWorld) : LogWorld := lw_set_file None w.

Definition log_path (log_dir : pystr) (ms : Z) : pystr := path_join log_dir [u"eds-" ++ str_of_Z ms ++ u".log"].

(** [LogFileSink.rotate] where the directory can be made and the file be opened:
    the file is opened empty; the path of the one before is returned *)
Definition rotate (log_dir : pystr) (w : LogWorld) : pystr * LogWorld :=
  let path := log_path log_dir (lw_ms w) in
  (default [] (lw_file w), lw_set_file (Some path) (lw_set_files (<[path := []]> (lw_files w)) w)).

Definition _log (l : ConsoleLogger) (level : LogLevel) (fmt : pystr) (args : list A) (w : LogWorld) : LogWorld :=
  let to_console := level_value (lg_min l) <=? level_value level in
  if negb to_console && negb (lg_sink l) then w
  else
    let message := _format fmt args in
    let w := if to_console then lw_set_out (lw_out w ++ [_build_line l level message (lw_ms w) (lg_timestamps l)]) w else w in
    if lg_sink l then sink_write (_build_line l level message (lw_ms w) true) w else w.

(** prefixes are chained *)
Lemma with_prefix_chain p q l : with_prefix q (with_prefix p l) = with_prefix (p ++ q) l.
Proof. unfold with_prefix. cbn. by rewrite app_assoc. Qed.

(** ** What is logged is kept *)

Inductive log_act : Type :=
| Log (l : ConsoleLogger) (level : LogLevel) (fmt : pystr) (args : list A)
| Rotate
| Tick (ms : Z).

Definition act_step (log_dir : pystr) (w : LogWorld) (a : log_act) : LogWorld :=
  match a with
  | Log l level fmt args => _log l level fmt args w
  | Rotate => (rotate log_dir w).2
  | Tick ms => lw_set_ms (lw_ms w + ms) w
  end.

(** the specification: the records of each file, the last file first *)
Fixpoint segments (now : Z) (acts : list log_act) (acc : list (Z * list pystr)) : list (Z * list pystr) :=
  match acts with
  | [] => acc
  | Log l level fmt args :: acts' =>
      segments now acts'
        (match acc with
         | (ms, lines) :: acc' => if lg_sink l then (ms, lines ++ [_build_line l level (_format fmt args) now true]) :: acc' else acc
         | [] => []
         end)
  | Rotate :: acts' => segments now acts' ((now, []) :: acc)
  | Tick ms :: acts' => segments (now + ms) acts' acc
  end.

(** the records of the console *)
Fixpoint console (now : Z) (acts : list log_act) : list pystr :=
  match acts with
  | [] => []
  | Log l level fmt args :: acts' =>
      (if level_value (lg_min l) <=? level_value level then [_build_line l level (_format fmt args) now (lg_timestamps l)] else []) ++ console now acts'
  | Rotate :: acts' => console now acts'
  | Tick ms :: acts' => console (now + ms) acts'
  end.

(** the times of the rotations *)
Fixpoint rotations (now : Z) (acts : list log_act) : list Z :=
  match acts with
  | [] => []
  | Rotate :: acts' => now :: rotations now acts'
  | Tick ms :: acts' => rotations (now + ms) acts'
  | _ :: acts' => rotations now acts'
  end.

Definition file_text (lines : list pystr) : pystr := flat_map (fun line => line ++ [10]) lines.

(** the files hold the segments, the first of which is open *)
Definition holds (log_dir : pystr) (segs : list (Z * list pystr)) (w : LogWorld) : Prop :=
  lw_file w = (log_path log_dir ∘ fst) <$> head segs /\
  Forall (fun s => lw_files w !! log_path log_dir s.1 = Some (file_text s.2)) segs.

(** different times give different files *)
Definition apart (log_dir : pystr) (times : list Z) : Prop := NoDup (log_path log_dir <$> times).

Lemma file_text_snoc lines line : file_text (lines ++ [line]) = file_text lines ++ line ++ [10].
Proof. unfold file_text. rewrite flat_map_app. simpl. by rewrite app_nil_r. Qed.

Lemma log_sink l level fmt args w : lw_file (_log l level fmt args w) = lw_file w /\ lw_ms (_log l level fmt args w) = lw_ms w /\
  lw_files (_log l level fmt args w) =
    (if lg_sink l then lw_files (sink_write (_build_line l level (_format fmt args) (lw_ms w) true) w) else lw_files w) /\
  lw_out (_log l level fmt args w) =
    lw_out w ++ (if level_value (lg_min l) <=? level_value level then [_build_line l level (_format fmt args) (lw_ms w) (lg_timestamps l)] else []).
Proof.
  unfold _log, sink_write. destruct (level_value (lg_min l) <=? level_value level), (lg_sink l), (lw_file w) as [f|] eqn:Ef; cbn -[_build_line _format];
    rewrite ?Ef; cbn -[_build_line _format]; rewrite ?Ef, ?app_nil_r; done.
Qed.

Lemma holds_other log_dir segs p t w : p ∉ (fun s => log_path log_dir s.1) <$> segs ->
  Forall (fun s : Z * list pystr => lw_files w !! log_path log_dir s.1 = Some (file_text s.2)) segs ->
  Forall (fun s => <[p := t]> (lw_files w) !! log_path log_dir s.1 = Some (file_text s.2)) segs.
Proof.
  intros Hp Hs. apply Forall_forall. intros s Hin. rewrite lookup_insert_ne.
  - by apply (proj1 (Forall_forall _ _) Hs).
  - intros ->. apply Hp, list_elem_of_fmap. by exists s.
Qed.

(** one record *)
Lemma holds_log log_dir l level fmt args segs w : NoDup ((fun s => log_path log_dir s.1) <$> segs) -> holds log_dir segs w ->
  holds log_dir
    (match segs with
     | (ms, lines) :: segs' => if lg_sink l then (ms, lines ++ [_build_line l level (_format fmt args) (lw_ms w) true]) :: segs' else segs
     | [] => []
     end) (_log l level fmt args w).
Proof.
  intros Hn [Hf Hs]. destruct (log_sink l level fmt args w) as (E1 & _ & E3 & _). unfold holds. rewrite E1, E3, Hf.
  destruct segs as [|[ms lines] segs].
  - split; [done|]. constructor.
  - apply Forall_cons in Hs as [H1 H2]. simpl in Hn, H1. apply NoDup_cons in Hn as [Hn _]. unfold sink_write. rewrite Hf.
    destruct (lg_sink l); simpl; split; try done; constructor; try done; simpl.
    + by rewrite lookup_insert_eq, H1, file_text_snoc.
    + by apply holds_other.
Qed.

Lemma kept_times {B} log_dir (ms : Z) (lines lines' : B) (segs : list (Z * B)) :
  (fun s : Z * B => log_path log_dir s.1) <$> ((ms, lines) :: segs) = (fun s : Z * B => log_path log_dir s.1) <$> ((ms, lines') :: segs).
Proof. done. Qed.

(** The files of the sink hold the records between two rotations: each record
    once, in order and whatever its level, provided no two rotations get the same
    file, which they do in the same millisecond; the console has the records from
    the level of the logger on. *)
Theorem log_kept log_dir acts w segs : holds log_dir segs w ->
  NoDup (((fun s => log_path log_dir s.1) <$> segs) ++ (log_path log_dir <$> rotations (lw_ms w) acts)) ->
  holds log_dir (segments (lw_ms w) acts segs) (foldl (act_step log_dir) w acts) /\
  lw_out (foldl (act_step log_dir) w acts) = lw_out w ++ console (lw_ms w) acts.
Proof.
  revert w segs. induction acts as [|a acts IH]; intros w segs Hh Hn; simpl; [by rewrite app_nil_r|].
  destruct a as [l level fmt args| |ms]; simpl in *.
  - destruct (log_sink l level fmt args w) as (_ & E2 & _ & E4). rewrite <- E2 in *. pose proof Hn as Hn0.
    apply NoDup_app in Hn0 as (Hn1 & _). pose proof (holds_log log_dir l level fmt args segs w Hn1 Hh) as H. rewrite <- E2 in H.
    destruct (IH _ _ H) as [H1 H2].
    { destruct segs as [|[ms lines] segs]; [done|]. by destruct (lg_sink l). }
    split; [exact H1|]. rewrite H2, E4. rewrite E2. by rewrite <- app_assoc.
  - destruct Hh as [Hf Hs]. destruct (IH (lw_set_file (Some (log_path log_dir (lw_ms w))) (lw_set_files (<[log_path log_dir (lw_ms w) := []]> (lw_files w)) w))
      ((lw_ms w, []) :: segs)) as [H1 H2]; [| |done].
    + split; [done|]. constructor; simpl; [by rewrite lookup_insert_eq|]. apply holds_other; [|done].
      apply NoDup_app in Hn as (_ & Hd & _). intros Hin. apply (Hd _ Hin), list_elem_of_here.
    + simpl. by rewrite Permutation_middle.
  - by apply (IH (lw_set_ms (lw_ms w + ms) w)).
Qed.
End format.

(** ** A run *)
Module LogRun.
Definition text (s : pystr) : pystr := s.
Definition no_convert (spec : pystr) (s : pystr) : option pystr := None.
Definition stamp (ms : Z) : pystr := str_of_Z ms.

Definition logger : ConsoleLogger (A := pystr) := with_prefix (u"[fork]") (mk_logger INFO [] None false true).
Definition empty : LogWorld := mk_world [] ∅ None 1000.

(** the sink is made, a record is filtered from the console, the file is rotated *)
Definition acts : list (log_act (A := pystr)) :=
  [Rotate; Log logger DEBUG (u"batch %v of %s") [u"1"; u"2"]; Log logger WARN (u"100%") []; Tick 5; Rotate; Log logger INFO (u"%s %s") [u"only one"]].

Lemma log_kept_witness :
  holds (u"/logs") [(1005, [u"1005 INFO [fork] %s %s"]); (1000, [u"1000 DEBUG [fork] batch 1 of 2"; u"1000 WARN [fork] 100%"])]
    (foldl (act_step text no_convert stamp (u"/logs")) empty acts) /\
  lw_out (foldl (act_step text no_convert stamp (u"/logs")) empty acts) = [u"WARN [fork] 100%"; u"INFO [fork] %s %s"].
Proof.
  assert (holds (u"/logs") [] empty) as Hh by (split; [reflexivity|constructor]).
  assert (NoDup (((fun s : Z * list pystr => log_path (u"/logs") s.1) <$> []) ++ (log_path (u"/logs") <$> rotations (lw_ms empty) acts))) as Hn
    by (apply (bool_decide_eq_true_1 _); vm_compute; reflexivity).
  exact (log_kept text no_convert stamp (u"/logs") acts empty [] Hh Hn).
Defined.

(** two rotations in the same millisecond open the same file, and the second
    empties it: the path that is returned for the upload has lost its record *)
Lemma same_millisecond_loses :
  let w := foldl (act_step text no_convert stamp (u"/logs")) empty [Rotate; Log logger ERROR (u"lost") []] in
  (rotate (u"/logs") w).1 = u"/logs/eds-1000.log" /\ lw_files w !! u"/logs/eds-1000.log" = Some (u"1000 ERROR [fork] lost" ++ [10]) /\
  lw_files (rotate (u"/logs") w).2 !! u"/logs/eds-1000.log" = Some [].
Proof. repeat split; vm_compute; reflexivity. Qed.
End LogRun.
