(* ===== verification/Http.v ===== *)
(** * The retrying HTTP client: eds/util/http.py

    [HttpRetry.do] sends a request until an answer is not to be retried.  The
    transport, the clock, the pauses and the random numbers are the interface
    [HttpHost]; a run writes down what it sent, closed and slept.  The retries on
    a busy service have no bound, so the loop has fuel: [Waiting] is a client
    that still retries after so many requests.

    The theorems: what a run sends and in which order it pauses, and that it
    ends, with the fuel that is enough. *)
From stdpp Require Import base tactics list option numbers sets strings.
From S2P Require Import Prelude PyStr PyDict Interfaces.

Record HttpRequest := mk_request {
  rq_method : pystr; rq_url : pystr; rq_headers : pydict pystr; rq_data : option (list Z)
}.

(** what the sources read of a response: the status, the body as text and as
    bytes, the header [X-Request-Id] and the reason phrase *)
Record Response := mk_response {
  rs_status : Z; rs_text : pystr; rs_content : list Z; rs_request_id : option pystr; rs_reason : pystr
}.

Definition _RETRY_STATUS : list Z := [408; 429; 502; 503; 504].

(** times are in microseconds, pauses in milliseconds *)
Definition DEFAULT_TIMEOUT : Z := 30 * 1000000.

Class HttpHost (W E : Type) := {
  hh_send : HttpRequest -> method W E Response;
  hh_close : Response -> W -> W;
  hh_sleep : Z -> W -> W;
  hh_now : W -> Z;
  hh_randrange : Z -> W -> Z * W;
  (** [str(err)] *)
  hh_text : E -> pystr
}.

(** the documented behaviour of the clock and of [randrange]: the clock does not
    go back, a pause lasts at least as long as was asked for *)
Class HttpLaws (W E : Type) `{!HttpHost W E} := {
  hl_randrange : forall n w, 0 < n -> 0 <= (hh_randrange n w).1 < n;
  hl_randrange_time : forall n w, hh_now w <= hh_now (hh_randrange n w).2;
  hl_send_time : forall rq w, hh_now w <= hh_now (hh_send rq w).2;
  hl_close_time : forall r w, hh_now w <= hh_now (hh_close r w);
  hl_sleep_time : forall d w, hh_now w + 1000 * d <= hh_now (hh_sleep d w)
}.

Inductive herror (E : Type) : Type :=
| Waiting
| Failed (e : E).
Arguments Waiting {E}.
Arguments Failed {E} e.

Inductive hcall (E : Type) : Type :=
| CSent (rq : HttpRequest) (r : E + Response)
| CClosed (r : Response)
| CSlept (ms : Z).
Arguments CSent {E} rq r.
Arguments CClosed {E} r.
Arguments CSlept {E} ms.

Section http.
Context {W E : Type} `{!HttpHost W E}.

Record Http := mk_http { hp_world : W; hp_attempts : Z; hp_trace : list (hcall E) }.

Definition hp_set_world (w : W) (s : Http) : Http := mk_http w (hp_attempts s) (hp_trace s).
Definition hp_set_attempts (n : Z) (s : Http) : Http := mk_http (hp_world s) n (hp_trace s).
Definition hp_note (c : hcall E) (s : Http) : Http := mk_http (hp_world s) (hp_attempts s) (hp_trace s ++ [c]).

Abbreviation HM A := (M Http (herror E) A).

(** one call of the transport; its exception is a value *)
Definition send (rq : HttpRequest) : HM (E + Response) :=
  fun s => let '(r, w) := hh_send rq (hp_world s) in (inr r, hp_note (CSent rq r) (hp_set_world w s)).

Definition _close (r : Response) : HM unit :=
  modify (fun s => hp_note (CClosed r) (hp_set_world (hh_close r (hp_world s)) s)).

Definition sleep (ms : Z) : HM unit :=
  modify (fun s => hp_note (CSlept ms) (hp_set_world (hh_sleep ms (hp_world s)) s)).

Definition randrange (n : Z) : HM Z :=
  fun s => let '(j, w) := hh_randrange n (hp_world s) in (inr j, hp_set_world w s).

Definition now : HM Z := gets (fun s => hh_now (hp_world s)).

Definition connection_error (e : E) : bool :=
  let msg := lower_full (hh_text e) in
  substr_in (u"connection reset") msg || substr_in (u"connection refused") msg.

Definition busy (r : Response) : bool := bool_decide (rs_status r ∈ _RETRY_STATUS).

Definition _should_retry (r : E + Response) (started : Z) : HM bool :=
  match r with
  | inl err => if connection_error err then t ← now; mret (t <? started + DEFAULT_TIMEOUT) else mret false
  | inr resp => if busy resp then _ ← _close resp; mret true else mret false
  end.

(** the [while True] of [do], for [fuel] requests *)
Fixpoint retry_loop (fuel : nat) (rq : HttpRequest) (started : Z) : HM Response :=
  match fuel with
  | O => raise Waiting
  | S fuel' =>
      _ ← modify (fun s => hp_set_attempts (hp_attempts s + 1) s);
      r ← send rq;
      again ← _should_retry r started;
      if again : bool then
        attempts ← gets hp_attempts;
        j ← randrange (500 * attempts);
        _ ← sleep (100 + j);
        retry_loop fuel' rq started
      else match r with inl e => raise (Failed e) | inr resp => mret resp end
  end.

(** a new [HttpRetry] and its [do] *)
Definition http_do (fuel : nat) (rq : HttpRequest) : HM Response :=
  _ ← modify (hp_set_attempts 0);
  started ← now;
  retry_loop fuel rq started.

(** ** What a run does *)

Definition transient (r : E + Response) : bool :=
  match r with inl e => connection_error e | inr resp => busy resp end.

(** an answer that was retried: a response is closed, then a pause *)
Definition block (rq : HttpRequest) (r : E + Response) (ms : Z) : list (hcall E) :=
  CSent rq r :: match r with inr resp => [CClosed resp] | inl _ => [] end ++ [CSlept ms].

(** [n] retried answers, the k-th followed by a pause of 100 to 100 + 500 k
    milliseconds; [k] requests came before *)
Inductive retried (rq : HttpRequest) : Z -> list (hcall E) -> Z -> Prop :=
| retried_none k : retried rq k [] k
| retried_more k r ms tr n :
    transient r = true -> 100 <= ms < 100 + 500 * (k + 1) ->
    retried rq (k + 1) tr n -> retried rq k (block rq r ms ++ tr) n.

(** a run's result after the retries, and the last request *)
Definition ended (rq : HttpRequest) (r : herror E + Response) : list (hcall E) :=
  match r with
  | inr resp => [CSent rq (inr resp)]
  | inl (Failed e) => [CSent rq (inl e)]
  | inl Waiting => []
  end.

Definition final (started : Z) (r : herror E + Response) (t : Z) : Prop :=
  match r with
  | inr resp => busy resp = false
  | inl (Failed e) => connection_error e = true -> started + DEFAULT_TIMEOUT <= t
  | inl Waiting => True
  end.

(** one turn of the loop *)
Lemma retry_loop_unfold fuel rq started s :
  retry_loop (S fuel) rq started s =
  let k := hp_attempts s + 1 in
  let '(r, w) := hh_send rq (hp_world s) in
  let again w tr :=
    let '(j, w) := hh_randrange (500 * k) w in
    retry_loop fuel rq started (mk_http (hh_sleep (100 + j) w) k (tr ++ [CSlept (100 + j)])) in
  let tr := hp_trace s ++ [CSent rq r] in
  match r with
  | inl e =>
      if connection_error e && (hh_now w <? started + DEFAULT_TIMEOUT) then again w tr
      else (inl (Failed e), mk_http w k tr)
  | inr resp =>
      if busy resp then again (hh_close resp w) (tr ++ [CClosed resp]) else (inr resp, mk_http w k tr)
  end.
Proof.
  cbn [retry_loop]. unfold mbind, M_bind, modify, send, _should_retry, now, gets, mret, M_ret, randrange. cbn -[Z.mul Z.add].
  destruct (hh_send rq (hp_world s)) as [[e|resp] w]; cbn -[Z.mul Z.add].
  - destruct (connection_error e); [|done]. unfold mbind, M_bind. cbn -[Z.mul Z.add]. destruct (_ <? _); [|done]. cbn -[Z.mul Z.add].
    destruct (hh_randrange _ w) as [j w']. done.
  - destruct (busy resp); [|done]. unfold mbind, M_bind. cbn -[Z.mul Z.add]. destruct (hh_randrange _ _) as [j w']. done.
Qed.

Lemma retry_loop_run `{!HttpLaws W E} fuel rq started s r s' : 0 <= hp_attempts s ->
  retry_loop fuel rq started s = (r, s') ->
  exists tr n, retried rq (hp_attempts s) tr n /\ final started r (hh_now (hp_world s')) /\
    hp_trace s' = hp_trace s ++ tr ++ ended rq r /\ (r = inl Waiting -> n = hp_attempts s + Z.of_nat fuel).
Proof.
  revert s. induction fuel as [|fuel IH]; intros s Hk E0.
  { injection E0 as <- <-. exists [], (hp_attempts s). split; [constructor|]. split; [done|].
    rewrite !app_nil_r. split; [done|]. intros _. lia. }
  rewrite retry_loop_unfold in E0. cbv zeta in E0. destruct (hh_send rq (hp_world s)) as [a w] eqn:Es.
  assert (forall w2 tr, transient a = true ->
    (let '(j, w3) := hh_randrange (500 * (hp_attempts s + 1)) w2 in
     retry_loop fuel rq started (mk_http (hh_sleep (100 + j) w3) (hp_attempts s + 1) (tr ++ [CSlept (100 + j)]))) = (r, s') ->
    tr = hp_trace s ++ CSent rq a :: match a with inr resp => [CClosed resp] | inl _ => [] end ->
    exists tr n, retried rq (hp_attempts s) tr n /\ final started r (hh_now (hp_world s')) /\
      hp_trace s' = hp_trace s ++ tr ++ ended rq r /\ (r = inl Waiting -> n = hp_attempts s + Z.of_nat (S fuel))) as Hagain.
  { intros w2 tr Ht Er ->. destruct (hh_randrange _ w2) as [j w3] eqn:Ej.
    pose proof (hl_randrange (500 * (hp_attempts s + 1)) w2) as Hj. rewrite Ej in Hj. cbn [fst] in Hj.
    apply IH in Er; [|cbn; lia]. destruct Er as (tr & n & H1 & H2 & H3 & H4). cbn [hp_attempts hp_trace] in *.
    exists (block rq a (100 + j) ++ tr), n. split; [constructor; [done|lia|done]|]. split; [done|].
    split; [|intros ->; rewrite (H4 eq_refl); lia]. rewrite H3. unfold block. simpl. by rewrite <-!app_assoc. }
  destruct a as [e|resp].
  - destruct (connection_error e) eqn:Ec; cbn [andb] in E0; [destruct (hh_now w <? started + DEFAULT_TIMEOUT) eqn:Et|].
    + by eapply Hagain.
    + injection E0 as <- <-. exists [], (hp_attempts s). split; [constructor|]. split; [by intros _; apply Z.ltb_ge in Et|done].
    + injection E0 as <- <-. exists [], (hp_attempts s). split; [constructor|]. split; [simpl; by rewrite Ec|done].
  - destruct (busy resp) eqn:Eb.
    + eapply Hagain; [done|exact E0|by rewrite <-app_assoc].
    + injection E0 as <- <-. exists [], (hp_attempts s). split; [constructor|]. done.
Qed.

(** A run of the client sends the request again exactly after the transient
    answers, closing every response it throws away and pausing 100 to
    100 + 500 k milliseconds after the k-th; it returns the first response of
    another status, and raises the first other error, or a connection error once
    the 30 seconds have passed. *)
Theorem http_attempts `{!HttpLaws W E} fuel rq s r s' : http_do fuel rq s = (r, s') ->
  exists tr n, retried rq 0 tr n /\ final (hh_now (hp_world s)) r (hh_now (hp_world s')) /\
    hp_trace s' = hp_trace s ++ tr ++ ended rq r /\ (r = inl Waiting -> n = Z.of_nat fuel).
Proof. intros H. by apply (retry_loop_run fuel rq (hh_now (hp_world s)) (hp_set_attempts 0 s)) in H. Qed.

(** what every step keeps *)
Lemma http_do_stays (I : Http -> Prop) fuel rq :
  (forall n s, I s -> I (hp_set_attempts n s)) -> stays I (send rq) -> (forall r, stays I (_close r)) ->
  (forall ms, stays I (sleep ms)) -> (forall n, stays I (randrange n)) -> stays I (http_do fuel rq).
Proof.
  intros Ha Hs Hc Hsl Hr. unfold http_do. apply stays_bind; [apply stays_modify, Ha|]. intros _.
  apply stays_bind; [apply stays_gets|]. intros started.
  induction fuel as [|fuel IH]; cbn [retry_loop]; [apply stays_raise|].
  apply stays_bind; [apply stays_modify; intros s; apply Ha|]. intros _. apply stays_bind; [done|]. intros r. apply stays_bind.
  { destruct r as [e|resp]; simpl.
    - destruct (connection_error e); [apply stays_bind; [apply stays_gets|intros]|]; apply stays_ret.
    - destruct (busy resp); [|apply stays_ret]. apply stays_bind; [apply Hc|intros; apply stays_ret]. }
  intros []; [|destruct r; [apply stays_raise|apply stays_ret]].
  apply stays_bind; [apply stays_gets|]. intros n. apply stays_bind; [done|]. intros j. by apply stays_bind.
Qed.

(** what holds for every call a run may write down *)
Lemma http_do_notes (P : hcall E -> Prop) fuel rq :
  (forall r, P (CSent rq r)) -> (forall r, P (CClosed r)) -> (forall ms, P (CSlept ms)) ->
  stays (fun s => Forall P (hp_trace s)) (http_do fuel rq).
Proof.
  intros H1 H2 H3.
  assert (forall c s, P c -> Forall P (hp_trace s) -> Forall P (hp_trace s ++ [c])) as Hnote.
  { intros c s Hc Hs. apply Forall_app. split; [done|by constructor]. }
  apply http_do_stays; [done| | | |].
  - intros s Hs. unfold send. destruct (hh_send rq (hp_world s)) as [r w]. by apply (Hnote _ s).
  - intros r. apply stays_modify. intros s Hs. by apply (Hnote _ s).
  - intros ms. apply stays_modify. intros s Hs. by apply (Hnote _ s).
  - intros n s Hs. unfold randrange. by destruct (hh_randrange _ _).
Qed.

(** what the transport, the clock and the random numbers leave alone *)
Lemma http_do_world {X} (view : W -> X) fuel rq :
  (forall w, view (hh_send rq w).2 = view w) -> (forall r w, view (hh_close r w) = view w) ->
  (forall ms w, view (hh_sleep ms w) = view w) -> (forall n w, view (hh_randrange n w).2 = view w) ->
  forall x, stays (fun s => view (hp_world s) = x) (http_do fuel rq).
Proof.
  intros H1 H2 H3 H4 x. apply http_do_stays; [done| | | |].
  - intros s Hs. unfold send. specialize (H1 (hp_world s)). destruct (hh_send rq (hp_world s)) as [r w]. simpl in *. congruence.
  - intros r. apply stays_modify. intros s <-. apply H2.
  - intros ms. apply stays_modify. intros s <-. apply H3.
  - intros n s Hs. unfold randrange. specialize (H4 n (hp_world s)). destruct (hh_randrange _ _) as [j w]. simpl in *. congruence.
Qed.

(** ** That a run ends *)
Section ends.
Context `{!HttpLaws W E}.
(** how often the service will still turn a request away; a request it turns
    away is one of them, and nothing adds to them *)
Context (load : W -> nat).
Context (Hsend : forall rq w, (load (hh_send rq w).2 <= load w)%nat).
Context (Hbusy : forall rq w resp, (hh_send rq w).1 = inr resp -> busy resp = true -> (load (hh_send rq w).2 < load w)%nat).
Context (Hclose : forall r w, (load (hh_close r w) <= load w)%nat).
Context (Hsleep : forall d w, (load (hh_sleep d w) <= load w)%nat).
Context (Hrand : forall n w, (load (hh_randrange n w).2 <= load w)%nat).

(** [e] connection errors so far, each with a pause of a tenth of a second *)
Lemma retry_loop_ends fuel rq started e s : 0 <= hp_attempts s -> 0 <= e <= 300 ->
  started + 100000 * e <= hh_now (hp_world s) -> (301 - Z.to_nat e + load (hp_world s) <= fuel)%nat ->
  (retry_loop fuel rq started s).1 <> inl Waiting.
Proof.
  revert e s. induction fuel as [|fuel IH]; intros e s Hk He Ht Hf; [lia|].
  rewrite retry_loop_unfold. cbv zeta.
  pose proof (hl_send_time rq (hp_world s)) as T1. pose proof (Hsend rq (hp_world s)) as L1. pose proof (Hbusy rq (hp_world s)) as B1.
  destruct (hh_send rq (hp_world s)) as [a w]. cbn [fst snd] in *.
  assert (forall w2 tr e2, hh_now w <= hh_now w2 -> (load w2 <= load w)%nat -> 0 <= e2 <= 300 ->
     e2 = e + 1 \/ (e2 = e /\ (load w < load (hp_world s))%nat) ->
     (let '(j, w3) := hh_randrange (500 * (hp_attempts s + 1)) w2 in
      retry_loop fuel rq started (mk_http (hh_sleep (100 + j) w3) (hp_attempts s + 1) (tr ++ [CSlept (100 + j)]))).1 <> inl Waiting) as Hagain.
  { intros w2 tr e2 T2 L2 He2 Hc. pose proof (hl_randrange (500 * (hp_attempts s + 1)) w2 ltac:(lia)) as Hj.
    pose proof (hl_randrange_time (500 * (hp_attempts s + 1)) w2) as T3. pose proof (Hrand (500 * (hp_attempts s + 1)) w2) as L3.
    destruct (hh_randrange _ w2) as [j w3]. cbn [fst snd] in *.
    pose proof (hl_sleep_time (100 + j) w3) as T4. pose proof (Hsleep (100 + j) w3) as L4.
    apply (IH e2); cbn [hp_world hp_attempts]; lia. }
  destruct a as [err|resp].
  - destruct (connection_error err && (hh_now w <? started + DEFAULT_TIMEOUT)) eqn:Ec; [|done].
    apply andb_true_iff in Ec as [_ Ec%Z.ltb_lt]. unfold DEFAULT_TIMEOUT in Ec. apply (Hagain w _ (e + 1)); [done|done|lia|by left].
  - destruct (busy resp) eqn:Eb; [|done]. specialize (B1 resp eq_refl Eb).
    apply (Hagain _ _ e); [apply hl_close_time|apply Hclose|done|by right].
Qed.

(** C29: A run ends: connection errors are retried at most 300 times, whatever the
    service does in between, and every other retry is one of the times the
    service turns a request away. *)
Theorem http_do_ends rq s fuel : (301 + load (hp_world s) <= fuel)%nat -> (http_do fuel rq s).1 <> inl Waiting.
Proof. intros Hf. apply (retry_loop_ends fuel rq _ 0 (hp_set_attempts 0 s)); cbn [hp_attempts hp_world hp_set_attempts]; lia. Qed.
End ends.
End http.
Arguments Http W E : clear implicits.

(** ** A service on a concrete input *)
Module HttpRun.
(** the answers to come, the clock; a request takes a millisecond *)
Definition world : Type := list (pystr + Response) * Z.
Definition response (status : Z) : Response := mk_response status [] [] None [].

#[export] Instance host : HttpHost world pystr := {|
  hh_send _ w := match w with (a :: l, t) => (a, (l, t + 1000)) | ([], t) => (inr (response 200), ([], t + 1000)) end;
  hh_close _ w := w;
  hh_sleep d w := (w.1, w.2 + 1000 * Z.max 0 d);
  hh_now w := w.2;
  hh_randrange n w := (n - 1, w);
  hh_text e := e
|}.

#[export] Instance laws : HttpLaws world pystr.
Proof. split; [intros; simpl; lia..| |done|intros ? []; simpl; lia]. intros ? [[|[] ?] ?]; simpl; lia. Qed.

Definition load (w : world) : nat := length (filter (fun a => match a with inr r => busy r | inl _ => false end = true) w.1).

Definition get : HttpRequest := mk_request (u"GET") (u"https://api") [] None.
Definition refused : pystr := u"Connection refused".
Definition flaky : Http world pystr := mk_http ([inl refused; inr (response 503); inr (response 200)], 0) 0 [].

Lemma http_attempts_witness : exists tr n, retried get 0 tr n /\ final 0 (inr (response 200)) (hh_now (hp_world (http_do 3 get flaky).2)) /\
  hp_trace (http_do 3 get flaky).2 = hp_trace flaky ++ tr ++ [CSent get (inr (response 200))] /\
  (@inr (herror pystr) Response (response 200) = inl Waiting -> n = Z.of_nat 3).
Proof.
  assert (http_do 3 get flaky = (inr (response 200), (http_do 3 get flaky).2)) as H by (vm_compute; reflexivity).
  exact (http_attempts 3 get flaky (inr (response 200)) (http_do 3 get flaky).2 H).
Defined.

Example flaky_trace : hp_trace (http_do 3 get flaky).2 =
  [CSent get (inl refused); CSlept 599; CSent get (inr (response 503)); CClosed (response 503); CSlept 1099; CSent get (inr (response 200))].
Proof. vm_compute. reflexivity. Qed.

Lemma http_do_ends_witness : (301 + load (hp_world flaky) <= 302)%nat /\ (http_do 302 get flaky).1 <> inl Waiting.
Proof.
  assert (301 + load (hp_world flaky) <= 302)%nat as Hf by (vm_compute; lia).
  split; [exact Hf|]. apply (http_do_ends load); [| | | | |exact Hf].
  - intros rq [[|a l] t]; unfold load; simpl; [lia|]. rewrite filter_cons. case_decide; simpl; lia.
  - intros rq [[|a l] t] resp; simpl; [by intros [= <-]|]. intros -> Hb. unfold load. simpl. rewrite filter_cons, decide_True by done. simpl. lia.
  - intros; reflexivity.
  - intros d w; unfold load; simpl; lia.
  - intros; reflexivity.
Defined.
End HttpRun.
