(* ===== verification/Api.v ===== *)
(** * The messages of the service: eds/api

    The bodies of the session calls and of an enrollment.  Requests are printed
    with [gojson_struct]; responses are read with [json.loads], whatever the
    service put into their fields, so the fields of a response are JSON values.

    The theorem: a session start reads back field by field. *)
From stdpp Require Import base tactics list option numbers sets strings.
From S2P Require Import Prelude PyStr PyDict PyFloat GoJson JsonLoads JsonRoundtrip DbChange.

Definition _API_URLS : pydict pystr :=
  [(u"P", u"https://api.shopmonkey.cloud"); (u"S", u"https://sandbox-api.shopmonkey.cloud");
   (u"E", u"https://edge-api.shopmonkey.cloud"); (u"L", u"http://localhost:3101")].

(** [None] is the ValueError "invalid code" *)
Definition get_api_url (first_letter : pystr) : option pystr := dict_get first_letter _API_URLS.

(** ** Requests *)

Record DriverMeta := mk_driver_meta { me_id : pystr; me_name : pystr; me_description : pystr; me_url : pystr }.

Definition driver_meta_fields (d : DriverMeta) : list (pystr * OmitEmpty * pyobj) :=
  [(u"id", NEVER, PStr (me_id d)); (u"name", NEVER, PStr (me_name d));
   (u"description", NEVER, PStr (me_description d)); (u"url", NEVER, PStr (me_url d))].

Record SessionStart := mk_session_start {
  st_version : pystr; st_hostname : pystr; st_ip_address : pystr; st_machine_id : pystr;
  st_os_info : pyobj; st_driver : option DriverMeta; st_server_id : pystr; st_company_ids : option (list pystr)
}.

Definition session_start_fields (s : SessionStart) : list (pystr * OmitEmpty * pyobj) :=
  [(u"version", NEVER, PStr (st_version s)); (u"hostname", NEVER, PStr (st_hostname s));
   (u"ipAddress", NEVER, PStr (st_ip_address s)); (u"machineId", NEVER, PStr (st_machine_id s));
   (u"osinfo", NEVER, st_os_info s);
   (u"driver", IF_NONE, match st_driver s with Some d => PStruct (driver_meta_fields d) | None => PNone end);
   (u"serverId", NEVER, PStr (st_server_id s));
   (u"companyIds", IF_FALSY, match st_company_ids s with Some l => PList (PStr <$> l) | None => PNone end)].
Definition session_start_gojson (s : SessionStart) : option pystr := gojson_struct (session_start_fields s).

Definition session_end_gojson (errored : bool) : option pystr := gojson_struct [(u"errored", NEVER, PBool errored)].

(** ** Responses *)

Inductive json_error : Type :=
| NotJson            (** the ValueError of [json.loads] or of the decoder *)
| NotADict           (** the AttributeError of [.get] *)
| OtherEncoding.     (** bytes that [json.loads] does not read as UTF-8: outside the model *)

Definition as_dict (v : pyobj) : json_error + pydict pyobj :=
  match v with PDict d => inr d | _ => inl NotADict end.

(** [m.get(k, def)] *)
Definition get_or (k : pystr) (def : pyobj) (m : pydict pyobj) : pyobj := default def (dict_get k m).

(** [m.get(k) or {}] *)
Definition get_or_empty (k : pystr) (m : pydict pyobj) : pyobj :=
  match dict_get k m with Some v => if truthy v then v else PDict [] | None => PDict [] end.

Record EdsSession := mk_eds_session { es_session_id : pyobj; es_credential : pyobj }.
Definition eds_session_from_dict (m : pydict pyobj) : EdsSession :=
  mk_eds_session (get_or (u"sessionId") (PStr []) m) (get_or (u"credential") PNone m).
Definition eds_session_gojson (s : EdsSession) : list (pystr * OmitEmpty * pyobj) :=
  [(u"sessionId", NEVER, es_session_id s); (u"credential", NEVER, es_credential s)].

Record SessionEndURLs := mk_urls { eu_url : pyobj; eu_error_url : pyobj }.
Definition session_end_urls_from_dict (m : pydict pyobj) : SessionEndURLs :=
  mk_urls (get_or (u"url") (PStr []) m) (get_or (u"errorUrl") (PStr []) m).

Record EnrollTokenData := mk_enroll_token { et_token : pyobj; et_server_id : pyobj }.
Definition enroll_token_from_dict (m : pydict pyobj) : EnrollTokenData :=
  mk_enroll_token (get_or (u"token") (PStr []) m) (get_or (u"serverId") (PStr []) m).

(** [SessionStartResponse], [SessionEndResponse] and [EnrollResponse] *)
Record ApiResponse (T : Type) := mk_api_response { ar_success : bool; ar_message : pyobj; ar_data : T }.
Arguments mk_api_response {T}.
Arguments ar_success {T}.
Arguments ar_message {T}.
Arguments ar_data {T}.

Definition response_from_dict {T} (from_dict : pydict pyobj -> T) (v : pyobj) : json_error + ApiResponse T :=
  match as_dict v with
  | inl e => inl e
  | inr m =>
      match as_dict (get_or_empty (u"data") m) with
      | inl e => inl e
      | inr data => inr (mk_api_response (truthy (get_or (u"success") (PBool false) m))
                           (get_or (u"message") (PStr []) m) (from_dict data))
      end
  end.

Definition response_from_json {T} (from_dict : pydict pyobj -> T) (s : list Z) : json_error + ApiResponse T :=
  match loads_bytes s with
  | PayloadOk v => response_from_dict from_dict v
  | PayloadError => inl NotJson
  | PayloadOutside => inl OtherEncoding
  end.

Definition session_start_response (s : list Z) : json_error + ApiResponse EdsSession := response_from_json eds_session_from_dict s.
Definition session_end_response (s : list Z) : json_error + ApiResponse SessionEndURLs := response_from_json session_end_urls_from_dict s.
Definition enroll_response (s : list Z) : json_error + ApiResponse EnrollTokenData := response_from_json enroll_token_from_dict s.

(** ** Reading back *)

Definition session_start_ok (s : SessionStart) : bool := wire_ok (raw_ok opts_default) opts_default (PStruct (session_start_fields s)).

Definition meta_dict (d : DriverMeta) : pyobj :=
  PDict [(u"id", PStr (me_id d)); (u"name", PStr (me_name d)); (u"description", PStr (me_description d)); (u"url", PStr (me_url d))].

Abbreviation wire_default := (wire (raw_value opts_default) true).

Lemma wire_strs l : wire_default (PList (PStr <$> l)) = PList (PStr <$> l).
Proof. cbn [wire]. f_equal. rewrite <-list_fmap_compose. by apply list_fmap_ext. Qed.

(** The body of a session start is read back field by field; the driver is
    there when there is one, the companies when there are any. *)
Theorem session_start_reads_back s : session_start_ok s = true ->
  exists t d, session_start_gojson s = Some t /\ json_loads opts_default t = Some (PDict d) /\
    dict_get (u"version") d = Some (PStr (st_version s)) /\ dict_get (u"hostname") d = Some (PStr (st_hostname s)) /\
    dict_get (u"ipAddress") d = Some (PStr (st_ip_address s)) /\ dict_get (u"machineId") d = Some (PStr (st_machine_id s)) /\
    dict_get (u"serverId") d = Some (PStr (st_server_id s)) /\
    dict_get (u"osinfo") d = Some (wire_default (st_os_info s)) /\
    dict_get (u"driver") d = meta_dict <$> st_driver s /\
    dict_get (u"companyIds") d = match st_company_ids s with Some (c :: l) => Some (PList (PStr <$> c :: l)) | _ => None end.
Proof.
  intros Hok. destruct (marshal_wire opts_default true _ Hok) as (t & Hm & Hl).
  exists t, (wire_fields (raw_value opts_default) (session_start_fields s)). split; [exact Hm|]. split; [exact Hl|].
  assert (NoDup ((session_start_fields s).*1).*1) as Hd by (apply (bool_decide_eq_true_1 _); by vm_compute).
  pose proof (fun k rule x => wire_fields_get (raw_value opts_default) k (session_start_fields s) rule x Hd) as Hget.
  split_and!.
  1-6: by erewrite (Hget _ NEVER) by reflexivity.
  - erewrite (Hget _ IF_NONE) by reflexivity. by destruct (st_driver s).
  - erewrite (Hget _ IF_FALSY) by reflexivity. destruct (st_company_ids s) as [[|c l]|]; [done| |done].
    rewrite wire_strs. done.
Qed.

Definition sample_start : SessionStart :=
  mk_session_start (u"v1") (u"host") (u"10.0.0.1") (u"m1") (PDict [(u"os", PStr (u"linux"))])
    (Some (mk_driver_meta (u"mysql") (u"MySQL") (u"a driver") (u"mysql://db/***"))) (u"id") (Some []).

Lemma session_start_reads_back_witness : session_start_ok sample_start = true /\
  exists t d, session_start_gojson sample_start = Some t /\ json_loads opts_default t = Some (PDict d) /\
    dict_get (u"version") d = Some (PStr (st_version sample_start)) /\ dict_get (u"hostname") d = Some (PStr (st_hostname sample_start)) /\
    dict_get (u"ipAddress") d = Some (PStr (st_ip_address sample_start)) /\ dict_get (u"machineId") d = Some (PStr (st_machine_id sample_start)) /\
    dict_get (u"serverId") d = Some (PStr (st_server_id sample_start)) /\
    dict_get (u"osinfo") d = Some (wire_default (st_os_info sample_start)) /\
    dict_get (u"driver") d = meta_dict <$> st_driver sample_start /\
    dict_get (u"companyIds") d = match st_company_ids sample_start with Some (c :: l) => Some (PList (PStr <$> c :: l)) | _ => None end.
Proof.
  assert (session_start_ok sample_start = true) as H by (vm_compute; reflexivity).
  split; [exact H|]. exact (session_start_reads_back sample_start H).
Defined.
