(* ===== verification/DriverConfig.v ===== *)
(** * Driver configuration and registries: eds/driver.py and eds/drivers/__init__.py

    The values of a configuration form, the fields that describe it, the URL a
    SQL driver builds from it, and the registries of drivers and importers with
    their aliases.  A driver object is its capabilities: what the registry asks
    of it with [isinstance] and the answers of its methods.

    The theorems: the database URL reads back as the values it was built from,
    integers in a form read back, and what a scheme resolves to after any
    sequence of registrations. *)
From stdpp Require Import base tactics list option numbers sets strings.
From S2P Require Import Prelude PyStr PyDict PyFloat GoJson Interfaces GoUrl.

(** ** Modes *)

Definition mode_value (m : IngestMode) : pystr := match m with UPSERT => u"upsert" | APPEND => u"append" end.

(** [None] is the ValueError *)
Definition parse_ingest_mode (s : pystr) : option IngestMode :=
  let v := lower s in
  if str_eqb v (u"upsert") then Some UPSERT
  else if str_eqb v (u"append") then Some APPEND
  else None.

(** ** Fields of a form *)

Inductive DriverType : Type := TSTRING | TNUMBER | TBOOLEAN.
Definition type_value (t : DriverType) : pystr :=
  match t with TSTRING => u"string" | TNUMBER => u"number" | TBOOLEAN => u"boolean" end.

Record DriverField := mk_field {
  df_name : pystr;
  df_type : DriverType;
  df_password : bool;            (** [format == "password"] *)
  df_default : option pystr;
  df_description : pystr;
  df_required : bool
}.

Definition field_fields (f : DriverField) : list (pystr * OmitEmpty * pyobj) :=
  [(u"name", NEVER, PStr (df_name f));
   (u"type", NEVER, PStr (type_value (df_type f)));
   (u"format", IF_FALSY, if df_password f then PStr (u"password") else PNone);
   (u"default", IF_NONE, match df_default f with Some d => PStr d | None => PNone end);
   (u"description", NEVER, PStr (df_description f));
   (u"required", NEVER, PBool (df_required f))].
Definition field_gojson (f : DriverField) : option pystr := gojson_struct (field_fields f).

Definition required_string_field (name description : pystr) (def : option pystr) : DriverField :=
  mk_field name TSTRING false def description true.
Definition optional_string_field (name description : pystr) (def : option pystr) : DriverField :=
  mk_field name TSTRING false def description false.
Definition optional_password_field (name description : pystr) (def : option pystr) : DriverField :=
  mk_field name TSTRING true def description false.
Definition optional_number_field (name description : pystr) (def : option Z) : DriverField :=
  mk_field name TNUMBER false (str_of_Z <$> def) description false.

Definition new_database_configuration (defport : Z) : list DriverField :=
  [required_string_field (u"Database") (u"The database name to use") None;
   optional_string_field (u"Username") (u"The username to database") None;
   optional_password_field (u"Password") (u"The password to database") None;
   required_string_field (u"Hostname") (u"The hostname or ip address to database") None] ++
  (if 0 <? defport then [optional_number_field (u"Port") (u"The port to database") (Some defport)] else []).

(** ** Values of a form *)

Record FieldError := mk_field_error { fe_field : pystr; fe_message : pystr }.

(** ['{"field":' + marshal(field) + ',"error":' + marshal(message) + "}"] *)
Definition field_error_gojson (e : FieldError) : option pystr :=
  f ← marshal true (PStr (fe_field e));
  m ← marshal true (PStr (fe_message e));
  Some (u"{" ++ dq ++ u"field" ++ dq ++ u":" ++ f ++ u"," ++ dq ++ u"error" ++ dq ++ u":" ++ m ++ u"}").

Definition missing (name : pystr) : FieldError := mk_field_error name (u"required field " ++ name ++ u" not found").

Abbreviation values := (pydict pyobj).

Definition get_required_string_value (name : pystr) (vs : values) : pystr * option FieldError :=
  match dict_get name vs with
  | Some (PStr v) => (v, None)
  | _ => ([], Some (missing name))
  end.

Definition get_required_int_value (name : pystr) (vs : values) : Z * option FieldError :=
  match dict_get name vs with
  | Some (PInt v) => (v, None)
  | _ => (0, Some (missing name))
  end.

Definition get_optional_string_value (name def : pystr) (vs : values) : pystr :=
  match dict_get name vs with
  | Some (PStr (c :: v)) => c :: v
  | _ => def
  end.

(** [None] is the ValueError *)
Definition _atoi (s : pystr) : option Z :=
  let '(neg, body) := match s with
                      | 43 :: r => (false, r)
                      | 45 :: r => (true, r)
                      | _ => (false, s)
                      end in
  match body with
  | [] => None
  | _ => if forallb is_digit body then Some (if neg : bool then - digits_val body else digits_val body) else None
  end.

Definition get_optional_int_value (name : pystr) (def : Z) (vs : values) : Z :=
  match dict_get name vs with
  | Some (PInt v) => v
  | Some (PStr v) => default def (_atoi v)
  | _ => def
  end.

Definition option_errors (l : list (option FieldError)) : list FieldError := omap id l.

Definition url_from_database_configuration (schema : pystr) (defport : Z) (vs : values) : pystr * list FieldError :=
  let '(hostname, err1) := get_required_string_value (u"Hostname") vs in
  let username := get_optional_string_value (u"Username") [] vs in
  let password := get_optional_string_value (u"Password") [] vs in
  let port := get_optional_int_value (u"Port") defport vs in
  let '(database, err2) := get_required_string_value (u"Database") vs in
  match option_errors [err1; err2] with
  | [] =>
      (schema ++ u"://" ++
       (if nonempty username then username ++ u":" ++ password ++ u"@" else []) ++
       (if 0 <? defport then hostname ++ u":" ++ str_of_Z port else hostname) ++
       u"/" ++ database, [])
  | errors => ([], errors)
  end.

(** ** The registries *)

Record DriverHelp := mk_help { dh_name : pystr; dh_description : pystr; dh_example_url : pystr; dh_help : pystr }.

(** a registered object: [Some]/[true] where it has the capability *)
Record DriverObject := mk_driver {
  do_aliases : option (list pystr);
  do_lifecycle : bool;
  do_help : option DriverHelp;
  do_migration : bool;
  do_configuration : list DriverField;
  do_validate : values -> pystr * list FieldError
}.

Record Registries := mk_registries {
  driver_registry : pydict DriverObject;
  driver_alias_registry : pydict pystr;
  importer_registry : pydict DriverObject;
  importer_alias_registry : pydict pystr
}.

Definition reset_registries : Registries := mk_registries [] [] [] [].

Definition add_aliases (protocol : pystr) (d : DriverObject) (aliases : pydict pystr) : pydict pystr :=
  foldl (fun m a => dict_set a protocol m) aliases (default [] (do_aliases d)).

Definition register_driver (protocol : pystr) (d : DriverObject) (r : Registries) : Registries :=
  mk_registries (dict_set protocol d (driver_registry r)) (add_aliases protocol d (driver_alias_registry r))
    (importer_registry r) (importer_alias_registry r).

Definition register_importer (protocol : pystr) (d : DriverObject) (r : Registries) : Registries :=
  mk_registries (driver_registry r) (driver_alias_registry r)
    (dict_set protocol d (importer_registry r)) (add_aliases protocol d (importer_alias_registry r)).

(** the two lookups have the same shape *)
Definition resolve (registry : pydict DriverObject) (aliases : pydict pystr) (scheme : pystr) : option DriverObject :=
  match dict_get scheme registry with
  | Some d => Some d
  | None =>
      match dict_get scheme aliases with
      | Some (c :: p) => dict_get (c :: p) registry
      | _ => None
      end
  end.

Definition _resolve_driver (scheme : pystr) (r : Registries) : option DriverObject :=
  resolve (driver_registry r) (driver_alias_registry r) scheme.

(** ** Schemes *)

(** the characters [urlsplit] strips from the front, and those it deletes *)
Definition c0_or_space (c : Z) : bool := (0 <=? c) && (c <=? 32).
Definition unsafe_char (c : Z) : bool := (c =? 9) || (c =? 10) || (c =? 13).
Fixpoint strip_front (s : pystr) : pystr :=
  match s with c :: s' => if c0_or_space c then strip_front s' else s | [] => [] end.

(** [urlsplit(url).scheme]; URLs on which [urlsplit] raises are left out *)
Definition _scheme (url : pystr) : pystr :=
  let s := filter (fun c => unsafe_char c = false) (strip_front url) in
  match partition_char 58 s with
  | (c :: r, true, _) =>
      if is_alpha c && forallb (fun x => is_alpha x || is_digit x || char_in x (u"+-.")) (c :: r)
      then lower (c :: r) else []
  | _ => []
  end.

(** ** Using the registries *)

Record DriverStart := mk_start { st_url : pystr; st_data_dir : pystr; st_mode : IngestMode }.

Definition no_driver (scheme : pystr) : pystr := u"no driver registered for protocol " ++ scheme.

(** the driver, and the configuration it is started with if it has a lifecycle;
    the left side is the ValueError *)
Definition new_driver (url data_dir : pystr) (mode : IngestMode) (r : Registries) :
    pystr + (DriverObject * option DriverStart) :=
  match _resolve_driver (_scheme url) r with
  | None => inl (no_driver (_scheme url))
  | Some d => inr (d, if do_lifecycle d then Some (mk_start url data_dir mode) else None)
  end.

Definition new_driver_for_import (url : pystr) (r : Registries) : pystr + DriverObject :=
  match _resolve_driver (_scheme url) r with
  | None => inl (no_driver (_scheme url))
  | Some d => inr d
  end.

Definition new_importer (url : pystr) (r : Registries) : pystr + DriverObject :=
  let scheme := _scheme url in
  match resolve (importer_registry r) (importer_alias_registry r) scheme with
  | Some d => inr d
  | None => inl (u"no importer registered for protocol " ++ scheme ++
                 u". the following are supported: " ++ join (u", ") (dict_keys (importer_registry r)))
  end.

Definition validate (schema : pystr) (vs : values) (r : Registries) : pystr + (pystr * list FieldError) :=
  match _resolve_driver schema r with
  | None => inl (no_driver schema)
  | Some d => inr (do_validate d vs)
  end.

(** ** Metadata *)

Record DriverMetadata := mk_metadata {
  dm_scheme : pystr;
  dm_name : pystr;
  dm_description : pystr;
  dm_example_url : pystr;
  dm_help : pystr;
  dm_supports_import : bool;
  dm_supports_migration : bool
}.

(** [_ANSI_SGR.sub("", s)]: [ESC \[ digits-and-semicolons m] *)
Fixpoint sgr_rest (s : pystr) : option pystr :=
  match s with
  | c :: s' => if c =? 109 then Some s' else if is_digit c || (c =? 59) then sgr_rest s' else None
  | [] => None
  end.
Fixpoint ansi_strip_fuel (fuel : nat) (s : pystr) : pystr :=
  match fuel, s with
  | S f, c :: s' =>
      match (if c =? 27 then match s' with 91 :: r => sgr_rest r | _ => None end else None) with
      | Some r => ansi_strip_fuel f r
      | None => c :: ansi_strip_fuel f s'
      end
  | _, _ => []
  end.
Definition ansi_strip (s : pystr) : pystr := ansi_strip_fuel (length s) s.

Definition help_metadata (scheme : pystr) (h : DriverHelp) (help : pystr) (d : DriverObject) (r : Registries) :
    DriverMetadata :=
  mk_metadata scheme (dh_name h) (dh_description h) (dh_example_url h) help
    (dict_has scheme (importer_registry r)) (do_migration d).

Definition get_driver_metadata (r : Registries) : list DriverMetadata :=
  omap (fun kd => h ← do_help kd.2; Some (help_metadata kd.1 h (dh_help h) kd.2 r)) (driver_registry r).

Definition bare_metadata (scheme : pystr) : DriverMetadata := mk_metadata scheme scheme [] [] [] false false.

Definition get_driver_configurations (r : Registries) : pydict (DriverMetadata * list DriverField) :=
  foldl (fun m kd =>
    let meta := match do_help kd.2 with
                | Some h => help_metadata kd.1 h (ansi_strip (dh_help h)) kd.2 r
                | None => bare_metadata kd.1
                end in
    dict_set kd.1 (meta, do_configuration kd.2) m) [] (driver_registry r).

Definition opt_eqb (a : option pystr) (b : pystr) : bool := match a with Some x => str_eqb x b | None => false end.

Definition get_driver_metadata_for_url (url : pystr) (r : Registries) : option DriverMetadata :=
  let proto := _scheme url in
  match List.find (fun kd => str_eqb kd.1 proto || opt_eqb (dict_get proto (driver_alias_registry r)) kd.1)
          (driver_registry r) with
  | None => None
  | Some (scheme, d) =>
      Some (match do_help d with
            | Some h => help_metadata scheme h (dh_help h) d r
            | None => bare_metadata scheme
            end)
  end.

(** ** Integers of a form *)

Lemma str_of_nonneg_digits n :
  0 <= n -> exists c r, str_of_nonneg n = c :: r /\ is_digit c = true /\ forallb is_digit (c :: r) = true /\
    digits_val (c :: r) = n.
Proof.
  intros Hn. destruct (str_of_nonneg_spec n Hn) as (Hne & Hd & Hv & _).
  destruct (str_of_nonneg n) as [|c r]; [done|]. exists c, r. apply Forall_cons in Hd as Hd'.
  split_and!; [done|apply Hd'|by apply forallb_Forall|done].
Qed.

(** a port or count that was printed is read back *)
Lemma atoi_str n : _atoi (str_of_Z n) = Some n.
Proof.
  unfold str_of_Z. destruct (Z.ltb_spec n 0).
  - destruct (str_of_nonneg_digits (- n)) as (c & r & -> & _ & Hd & Hv); [lia|].
    unfold _atoi. rewrite Hd, Hv. f_equal. lia.
  - destruct (str_of_nonneg_digits n) as (c & r & -> & Hc & Hd & Hv); [lia|].
    unfold _atoi. assert (c <> 43 /\ c <> 45) as [H43 H45].
    { unfold is_digit in Hc. bool_prop. lia. }
    assert ((match c :: r with 43 :: r0 => (false, r0) | 45 :: r0 => (true, r0) | _ => (false, c :: r) end) = (false, c :: r)) as ->.
    { clear -H43 H45. repeat (case_match; try done); congruence. }
    by rewrite Hd, Hv.
Qed.

(** ** The database URL reads back *)

(** characters that stand for themselves in a URL outside the host *)
Definition literal (marks : pystr) (s : pystr) : bool :=
  forallb (fun c => scalar c && negb (is_control c) && negb (char_in c marks)) s.

Lemma literal_char marks s c : literal marks s = true -> c ∈ s -> scalar c = true /\ is_control c = false /\ char_in c marks = false.
Proof.
  unfold literal. rewrite forallb_forall. intros H Hc. specialize (H c ltac:(by apply list_elem_of_In)).
  by bool_prop.
Qed.

Lemma literal_scalar marks s : literal marks s = true -> forallb scalar s = true.
Proof. intros H. apply forallb_forall. intros c Hc%list_elem_of_In. by destruct (literal_char marks s c H Hc). Qed.

Lemma literal_notin marks s c : literal marks s = true -> char_in c marks = true -> c ∉ s.
Proof. intros H Hm Hc. destruct (literal_char marks s c H Hc) as (_ & _ & ?). congruence. Qed.

Lemma literal_control marks s : literal marks s = true -> existsb is_control s = false.
Proof.
  intros H. apply not_true_is_false. intros (c & Hc%list_elem_of_In & Hctl)%existsb_exists.
  destruct (literal_char marks s c H Hc) as (_ & ? & _). congruence.
Qed.

Lemma unescape_bytes_literal mode bs :
  host_mode mode = false -> mode_eqb mode ENCODE_QUERY_COMPONENT = false -> 37 ∉ bs ->
  unescape_bytes mode bs = inr bs.
Proof.
  intros Hh Hq. induction bs as [|c bs IH]; [done|]. intros [Hc Hn]%not_elem_of_cons.
  cbn [unescape_bytes]. destruct (Z.eqb_spec c 37); [lia|]. rewrite IH, Hq, Hh by done.
  by destruct (Z.eqb_spec c 43) as [->|].
Qed.

Lemma unescape_literal mode s :
  host_mode mode = false -> mode_eqb mode ENCODE_QUERY_COMPONENT = false ->
  forallb scalar s = true -> 37 ∉ s -> _unescape s mode = inr s.
Proof.
  intros Hh Hq Hs Hn. unfold _unescape, encode_utf8. rewrite Hs. unfold mbind, res_bind.
  rewrite unescape_bytes_literal; [|done|done|].
  - unfold decode_utf8, utf8_decode. rewrite utf8_roundtrip; [done|by apply forallb_Forall].
  - intros Hin%list_elem_of_In. apply in_flat_map in Hin as (c & Hc & Hb%list_elem_of_In).
    rewrite forallb_forall in Hs. destruct (utf8_char_bytes c 37 (Hs c Hc) Hb) as [_ Heq].
    apply Hn. rewrite Heq by lia. by apply list_elem_of_In.
Qed.

(** a host name without a port, an IPv6 bracket or a character to escape *)
Definition plain_host (h : pystr) : bool :=
  plain ENCODE_HOST h && negb (char_in 58 h) && negb (char_in 91 h).

Lemma plain_readable mode s : plain mode s = true -> forallb scalar s = true /\ forallb (readable mode) s = true.
Proof.
  intros H. unfold plain in H. rewrite forallb_forall in H. split; apply forallb_forall; intros c Hc;
    specialize (H c Hc); bool_prop.
  - unfold scalar, is_surrogate. by bool_lia.
  - unfold readable. by rewrite H0, orb_true_r.
Qed.

Lemma plain_app mode a b : plain mode (a ++ b) = plain mode a && plain mode b.
Proof. apply forallb_app. Qed.

Definition kept_clean (mode : encode_mode) (b : Z) : bool :=
  _should_escape b mode || (url_char b && (negb (mode_eqb mode ENCODE_HOST) || negb (char_in b (u"/?#@")))).

(** what a plain host cannot hold *)
Lemma plain_notin h d : plain ENCODE_HOST h = true -> char_in d (u"/?#@") = true -> d ∉ h.
Proof.
  intros Hp Hd Hin. unfold plain in Hp. rewrite forallb_forall in Hp.
  specialize (Hp d ltac:(by apply list_elem_of_In)). bool_prop.
  assert (kept_clean ENCODE_HOST d = true) as Hk by (apply byte_check; [by vm_compute|lia]).
  unfold kept_clean in Hk. rewrite H0, Hd in Hk. simpl in Hk. by rewrite andb_false_r in Hk.
Qed.

Lemma plain_control h : plain ENCODE_HOST h = true -> existsb is_control h = false.
Proof.
  intros Hp. apply not_true_is_false. intros (c & Hc & Hctl)%existsb_exists. unfold plain in Hp.
  rewrite forallb_forall in Hp. specialize (Hp c Hc). bool_prop.
  assert (kept_clean ENCODE_HOST c = true) as Hk by (apply byte_check; [by vm_compute|lia]).
  unfold kept_clean in Hk. rewrite H0 in Hk. simpl in Hk. bool_prop.
  by rewrite url_char_control in Hctl.
Qed.

Lemma digits_plain s : forallb is_digit s = true -> plain ENCODE_HOST s = true.
Proof.
  intros H. unfold plain. eapply forallb_mono; [|exact H]. intros c Hc. unfold _should_escape.
  rewrite Hc, orb_true_r. unfold is_digit in Hc. bool_prop. by bool_lia.
Qed.

(** the authority of a database URL *)
Definition db_user (username password : pystr) : option Userinfo :=
  if nonempty username then Some (mk_userinfo username password true) else None.
Definition db_authority (username password hp : pystr) : pystr :=
  (if nonempty username then username ++ u":" ++ password ++ u"@" else []) ++ hp.
Definition db_host (defport : Z) (hostname : pystr) (port : Z) : pystr :=
  if 0 <? defport then hostname ++ u":" ++ str_of_Z port else hostname.

Definition user_marks : pystr := u"%/?#:".
Definition password_marks : pystr := u"%/?#".
Definition path_marks : pystr := u"%?#".

(** a port that is printed without a sign *)
Lemma str_of_port p : 0 <= p -> forallb is_digit (str_of_Z p) = true.
Proof.
  intros Hp. unfold str_of_Z. destruct (Z.ltb_spec p 0); [lia|].
  by destruct (str_of_nonneg_digits p Hp) as (c & r & -> & _ & ? & _).
Qed.

Section db_host.
Context (defport port : Z) (hostname : pystr).
Context (Hh : plain_host hostname = true) (Hport : 0 <= port).
Notation hp := (db_host defport hostname port).

Lemma hostname_notin : 58 ∉ hostname /\ startswith (u"[") hostname = false.
Proof.
  unfold plain_host, char_in in Hh. bool_prop. split; [done|].
  destruct hostname as [|c h]; [done|]. change (u"[") with [91]. cbn [startswith].
  destruct (Z.eqb_spec 91 c) as [<-|]; [set_solver|done].
Qed.

Lemma db_host_plain : plain ENCODE_HOST hp = true.
Proof.
  unfold plain_host in Hh. bool_prop. unfold db_host. destruct (0 <? defport); [|done].
  rewrite !plain_app, H, (digits_plain (str_of_Z port)) by by apply str_of_port. done.
Qed.

Lemma db_host_rsplit :
  rsplit_char 58 hp = if 0 <? defport then Some (hostname, str_of_Z port) else None.
Proof.
  destruct hostname_notin as [Hn _]. unfold db_host. destruct (0 <? defport).
  - change (u":" ++ ?t) with (58 :: t). apply rsplit_char_app. intros Hin.
    pose proof (str_of_port port Hport) as Hd. rewrite forallb_forall in Hd.
    by specialize (Hd 58 ltac:(by apply list_elem_of_In)).
  - by apply rsplit_char_None.
Qed.

Lemma db_host_bracket : startswith (u"[") hp = false.
Proof.
  destruct hostname_notin as [_ Hb]. unfold db_host. destruct (0 <? defport); [|done].
  destruct hostname as [|c h]; [done|]. exact Hb.
Qed.

Lemma db_host_parse : _parse_host hp = inr hp.
Proof.
  pose proof db_host_plain as Hp. destruct (plain_readable _ _ Hp) as [Hs Hr].
  assert (_unescape hp ENCODE_HOST = inr hp) as Hu.
  { pose proof (unescape_enc ENCODE_HOST hp Hs Hr) as H. by rewrite enc_plain in H. }
  unfold _parse_host. rewrite db_host_bracket, db_host_rsplit.
  destruct (0 <? defport); [|done]. simpl. by rewrite str_of_port.
Qed.

Lemma db_host_split : _split_host_port hp = (hostname, if 0 <? defport then str_of_Z port else []).
Proof.
  unfold _split_host_port. rewrite db_host_rsplit. destruct hostname_notin as [_ Hb].
  destruct (0 <? defport) eqn:E.
  - cbn [_valid_optional_port]. rewrite str_of_port by done. cbn [Z.eqb Pos.eqb andb]. by rewrite Hb.
  - unfold db_host. rewrite E. by rewrite Hb.
Qed.

Context (username password : pystr).
Context (Hu : literal user_marks username = true) (Hpw : literal password_marks password = true).

Lemma db_authority_parse :
  _parse_authority (db_authority username password hp) = inr (db_user username password, hp).
Proof.
  pose proof (plain_notin hp 64 db_host_plain eq_refl) as H64. unfold _parse_authority, db_authority, db_user.
  destruct (nonempty username) eqn:En.
  - replace ((username ++ u":" ++ password ++ u"@") ++ hp) with ((username ++ 58 :: password) ++ 64 :: hp)
      by (rewrite <- !app_assoc; done).
    rewrite rsplit_char_app by done. unfold mbind at 1, res_bind at 1. rewrite db_host_parse.
    rewrite partition_char_app by (by apply (literal_notin user_marks)). unfold mbind, res_bind.
    rewrite !unescape_literal; try done; try (by eapply literal_scalar).
    + by apply (literal_notin password_marks).
    + by apply (literal_notin user_marks).
  - apply rsplit_char_None in H64. cbn [app]. rewrite H64. unfold mbind, res_bind. by rewrite db_host_parse.
Qed.

Lemma db_authority_notin d :
  char_in d (u"/?#") = true -> d ∉ db_authority username password hp.
Proof.
  intros Hd. assert (d = 47 \/ d = 63 \/ d = 35) as Hd'.
  { unfold char_in in Hd. apply bool_decide_eq_true in Hd. change (u"/?#") with [47; 63; 35] in Hd. set_solver. }
  assert (d ∉ hp) as Hhp by (apply plain_notin; [apply db_host_plain|by destruct Hd' as [->|[->| ->]]]).
  unfold db_authority. destruct (nonempty username); [|done].
  change (u":" ++ ?t) with (58 :: t). change (u"@") with [64].
  rewrite !not_elem_of_app, !not_elem_of_cons, not_elem_of_app, list_elem_of_singleton.
  split_and!; [|lia| |lia|done].
  - apply (literal_notin user_marks); [done|by destruct Hd' as [->|[->| ->]]].
  - apply (literal_notin password_marks); [done|by destruct Hd' as [->|[->| ->]]].
Qed.

Lemma db_authority_control : existsb is_control (db_authority username password hp) = false.
Proof.
  unfold db_authority. rewrite existsb_app, (plain_control hp db_host_plain), orb_false_r.
  destruct (nonempty username); [|done]. change (u":" ++ ?t) with (58 :: t). rewrite !existsb_app.
  rewrite (literal_control user_marks) by done. cbn [existsb]. rewrite existsb_app.
  by rewrite (literal_control password_marks) by done.
Qed.

(** the URL, parsed *)
Lemma db_url_parse schema database :
  scheme_ok schema = true -> literal path_marks database = true ->
  exists raw, parse (schema ++ u"://" ++ db_authority username password hp ++ u"/" ++ database) =
    inr (mk_url schema [] (db_user username password) hp (u"/" ++ database) raw false [] [] []).
Proof.
  intros Hs Hd. set (rest := db_authority username password hp ++ 47 :: database).
  assert (forall d, char_in d (u"?#") = true -> d ∉ rest) as Hrest.
  { intros d Hd0. assert (d = 63 \/ d = 35) as Hd'.
    { unfold char_in in Hd0. apply bool_decide_eq_true in Hd0. change (u"?#") with [63; 35] in Hd0. set_solver. }
    unfold rest. rewrite not_elem_of_app, not_elem_of_cons. split_and!; [|lia|].
    - apply db_authority_notin. by destruct Hd' as [->| ->].
    - apply (literal_notin path_marks); [done|by destruct Hd' as [->| ->]]. }
  change (u"://" ++ ?t) with (58 :: u"//" ++ t). change (u"/" ++ database) with (47 :: database). fold rest.
  destruct (clean_spec schema (scheme_clean schema Hs)) as [Hctl H35].
  unfold parse. rewrite existsb_app, Hctl. assert (existsb is_control (58 :: u"//" ++ rest) = false) as ->.
  { change (58 :: u"//" ++ rest) with ((58 :: u"//") ++ rest). unfold rest.
    rewrite !existsb_app, db_authority_control. change (47 :: database) with ([47] ++ database).
    by rewrite existsb_app, (literal_control path_marks database). }
  cbn [orb]. rewrite partition_char_none.
  2: { change (u"//") with [47; 47]. cbn [app]. rewrite not_elem_of_app, !not_elem_of_cons. split_and!; try done. by apply Hrest. }
  assert (exists raw, unescape_keep (47 :: database) ENCODE_PATH = inr (47 :: database, raw)) as [raw Hkeep].
  { assert (forallb scalar (47 :: database) = true) as Hsc.
    { cbn [forallb]. apply andb_true_iff. split; [done|by eapply literal_scalar]. }
    unfold unescape_keep. rewrite unescape_literal; try done.
    - unfold mbind, res_bind. rewrite escape_inr by done. by eexists.
    - rewrite not_elem_of_cons. split; [done|]. by apply (literal_notin path_marks). }
  exists raw. unfold _parse. rewrite get_scheme_ok by done. unfold mbind, res_bind.
  assert (endswith (u"?") (u"//" ++ rest) && (count_char 63 (u"//" ++ rest) =? 1)%nat = false) as ->.
  { rewrite count_char_notin, andb_false_r; [done|]. change (u"//") with [47; 47]. cbn [app].
    rewrite !not_elem_of_cons. split_and!; try done. by apply Hrest. }
  rewrite partition_char_none.
  2: { change (u"//") with [47; 47]. cbn [app]. rewrite !not_elem_of_cons. split_and!; try done. by apply Hrest. }
  assert (nonempty schema = true) as -> by (by destruct schema).
  assert (startswith (u"/") (u"//" ++ rest) = true) as -> by done.
  assert (startswith (u"//") (u"//" ++ rest) = true) as -> by done.
  assert (drop 2 (u"//" ++ rest) = rest) as -> by done. cbn [negb andb orb]. unfold rest.
  rewrite partition_char_app by (by apply db_authority_notin). rewrite db_authority_parse.
  change (u"/" ++ database) with (47 :: database). cbn [mret res_ret]. by rewrite Hkeep.
Qed.
End db_host.

(** the values of the form *)
Definition form_string (name : pystr) (vs : values) : pystr := (get_required_string_value name vs).1.
Definition form_optional (name : pystr) (vs : values) : pystr := get_optional_string_value name [] vs.
Definition form_port (defport : Z) (vs : values) : Z := get_optional_int_value (u"Port") defport vs.

(** no value holds a character with a meaning in the URL *)
Definition form_ok (defport : Z) (vs : values) : bool :=
  plain_host (form_string (u"Hostname") vs) && (0 <=? form_port defport vs) &&
  literal user_marks (form_optional (u"Username") vs) && literal password_marks (form_optional (u"Password") vs) &&
  literal path_marks (form_string (u"Database") vs).

Definition missing_fields (names : list pystr) (vs : values) : list FieldError :=
  omap (fun n => (get_required_string_value n vs).2) names.

Lemma option_errors_missing vs :
  option_errors [(get_required_string_value (u"Hostname") vs).2; (get_required_string_value (u"Database") vs).2] =
  missing_fields [u"Hostname"; u"Database"] vs.
Proof. done. Qed.

(** a database form is answered with the required fields that are missing, in
    the order hostname, database, or with a URL.  The URL reads back as the
    values of the form, the port given or default, when no value holds a
    character that has a meaning in a URL: nothing is escaped. *)
Theorem database_url_reads_back schema defport vs url errors :
  scheme_ok schema = true -> url_from_database_configuration schema defport vs = (url, errors) ->
  errors = missing_fields [u"Hostname"; u"Database"] vs /\
  (errors = [] -> form_ok defport vs = true ->
   exists x, parse url = inr x /\ url_scheme x = schema /\ hostname x = form_string (u"Hostname") vs /\
     port x = (if 0 <? defport then str_of_Z (form_port defport vs) else []) /\
     url_user x = db_user (form_optional (u"Username") vs) (form_optional (u"Password") vs) /\
     url_path x = u"/" ++ form_string (u"Database") vs).
Proof.
  intros Hs E. unfold url_from_database_configuration in E.
  rewrite (surjective_pairing (get_required_string_value (u"Hostname") vs)) in E.
  rewrite (surjective_pairing (get_required_string_value (u"Database") vs)) in E.
  rewrite option_errors_missing in E.
  destruct (missing_fields [u"Hostname"; u"Database"] vs) as [|e es]; [|by injection E as <- <-].
  injection E as <- <-. split; [done|]. intros _ Hf. unfold form_ok in Hf. bool_prop.
  fold (form_string (u"Hostname") vs) (form_string (u"Database") vs) (form_optional (u"Username") vs)
    (form_optional (u"Password") vs) (form_port defport vs).
  destruct (db_url_parse defport (form_port defport vs) (form_string (u"Hostname") vs) H ltac:(done)
    (form_optional (u"Username") vs) (form_optional (u"Password") vs) H2 H1 schema
    (form_string (u"Database") vs) Hs H0) as [raw Hp].
  eexists. split.
  - rewrite <- Hp. unfold db_authority, db_host. f_equal. by rewrite <- !app_assoc.
  - cbn [url_scheme url_user url_path]. unfold hostname, port. cbn [url_host].
    by rewrite db_host_split.
Qed.

Definition sample_form : values :=
  [(u"Hostname", PStr (u"db.example.com")); (u"Username", PStr (u"eds")); (u"Password", PStr (u"p@ss:w"));
   (u"Port", PStr (u"6543")); (u"Database", PStr (u"my db"))].

Lemma database_url_reads_back_witness :
  exists x, parse (url_from_database_configuration (u"postgres") 5432 sample_form).1 = inr x /\
    hostname x = u"db.example.com" /\ port x = u"6543" /\
    url_user x = Some (mk_userinfo (u"eds") (u"p@ss:w") true) /\ url_path x = u"/my db".
Proof.
  destruct (database_url_reads_back (u"postgres") 5432 sample_form
    (url_from_database_configuration (u"postgres") 5432 sample_form).1 []) as [_ H];
    [by vm_compute|by vm_compute|].
  destruct H as (x & Hp & _ & Hh & Ho & Hu & Hd); [done|by vm_compute|].
  exists x. split; [exact Hp|]. split; [rewrite Hh; by vm_compute|]. split; [rewrite Ho; by vm_compute|].
  split; [rewrite Hu; by vm_compute|]. rewrite Hd. by vm_compute.
Defined.

(** a password with a slash is accepted and makes a URL that does not parse *)
Definition slash_form : values :=
  [(u"Hostname", PStr (u"db")); (u"Username", PStr (u"eds")); (u"Password", PStr (u"p/w"));
   (u"Database", PStr (u"x"))].

Lemma slash_password_unreadable :
  (url_from_database_configuration (u"mysql") 3306 slash_form).2 = [] /\
  parse (url_from_database_configuration (u"mysql") 3306 slash_form).1 = inl UrlError.
Proof. by vm_compute. Qed.

(** ** What a scheme resolves to *)

(** the registrations so far, the last one first *)
Abbreviation history := (list (pystr * DriverObject)).

Definition registered (h : history) : Registries :=
  foldr (fun pd r => register_driver pd.1 pd.2 r) reset_registries h.

(** the last driver of a protocol, the last protocol of an alias *)
Definition last_driver (p : pystr) (h : history) : option DriverObject :=
  snd <$> List.find (fun pd => str_eqb pd.1 p) h.
Definition last_alias (a : pystr) (h : history) : option pystr :=
  fst <$> List.find (fun pd => str_in a (default [] (do_aliases pd.2))) h.

(** the reference: a protocol wins over an alias *)
Definition resolves (scheme : pystr) (h : history) : option DriverObject :=
  match last_driver scheme h with
  | Some d => Some d
  | None => p ← last_alias scheme h; if nonempty p then last_driver p h else None
  end.

Lemma add_aliases_get a protocol d m :
  dict_get a (add_aliases protocol d m) =
  if str_in a (default [] (do_aliases d)) then Some protocol else dict_get a m.
Proof.
  unfold add_aliases. revert m. induction (default [] (do_aliases d)) as [|b l IH]; intros m; [done|].
  cbn [foldl]. rewrite IH, dict_get_set. unfold str_in. case_decide as Hb.
  - subst. rewrite (bool_decide_eq_true_2 (a ∈ a :: l)) by set_solver. by destruct (bool_decide (a ∈ l)).
  - destruct (bool_decide_reflect (a ∈ l)) as [Hin|Hin].
    + by rewrite bool_decide_eq_true_2 by set_solver.
    + by rewrite bool_decide_eq_false_2 by set_solver.
Qed.

Lemma registered_driver p h : dict_get p (driver_registry (registered h)) = last_driver p h.
Proof.
  induction h as [|[q d] h IH]; [done|]. cbn [registered foldr driver_registry register_driver fst snd].
  rewrite dict_get_set. unfold last_driver. cbn [List.find fst]. unfold str_eqb.
  case_decide; [by rewrite bool_decide_eq_true_2|]. rewrite bool_decide_eq_false_2 by done. exact IH.
Qed.

Lemma registered_alias a h : dict_get a (driver_alias_registry (registered h)) = last_alias a h.
Proof.
  induction h as [|[q d] h IH]; [done|]. cbn [registered foldr driver_alias_registry register_driver fst snd].
  rewrite add_aliases_get. unfold last_alias. cbn [List.find snd]. destruct (str_in _ _); [done|exact IH].
Qed.

(** after any registrations a scheme resolves to the driver registered last
    under it, or else to the driver registered last under the protocol that
    last claimed it as an alias. *)
Theorem registry_resolves scheme h : _resolve_driver scheme (registered h) = resolves scheme h.
Proof.
  unfold _resolve_driver, resolve, resolves. rewrite registered_driver, registered_alias.
  destruct (last_driver scheme h); [done|]. destruct (last_alias scheme h) as [[|c p]|]; [done| |done].
  cbn [nonempty mbind option_bind]. apply registered_driver.
Qed.
