(* ===== verification/Config.v ===== *)
(** * Configuration files and forwarded arguments: eds/cmd/config.py, args.py

    [config.toml] holds a flat table.  It is read with a third-party package, an
    argument here ([loads]), of which the statements use that it reads a flat
    file as the TOML format says: [toml_read] is that format for the lines the
    program writes.  The file is the state of the methods.

    The theorems: what is written is read back, whatever the strings hold; the
    resolved ingest mode is the one later runs resolve; and which arguments of
    the server reach the worker. *)
From stdpp Require Import base tactics list option numbers sets strings.
From S2P Require Import Prelude PyStr PyPath PyDict PyFloat GoJson JsonLoads Interfaces DriverConfig.

(** ** Values *)

Abbreviation Config := (pydict pyobj).

Section values.
(** [str] of a list, a table or a date *)
Context (other_str : pyobj -> pystr).

Definition toml_str (v : pyobj) : pystr :=
  match v with
  | PStr s => s
  | PBool b => if b then u"True" else u"False"
  | PInt n => str_of_Z n
  | PFloat f => repr_float f
  | _ => other_str v
  end.

Definition has (key : pystr) (c : Config) : bool := match dict_get key c with Some _ => true | None => false end.

Definition get_string (key def : pystr) (c : Config) : pystr :=
  match dict_get key c with
  | None => def
  | Some v => toml_str v
  end.

Definition get_bool (key : pystr) (def : bool) (c : Config) : bool :=
  match dict_get key c with None => def | Some v => truthy v end.

(** the digits of [int(s)]: one underscore is allowed between two digits.
    [None] is the ValueError. *)
Fixpoint int_digits (acc : Z) (s : pystr) : option Z :=
  match s with
  | [] => Some acc
  | 95 :: (c :: _) as r => if is_digit c then int_digits acc r else None
  | c :: r => if is_digit c then int_digits (acc * 10 + (c - 48)) r else None
  end.

(** [int(s)] of ASCII digits *)
Definition int_of_str (s : pystr) : option Z :=
  let unsigned r := match r with c :: _ => if is_digit c then int_digits 0 r else None | [] => None end in
  match strip s with
  | 43 :: r => unsigned r
  | 45 :: r => Z.opp <$> unsigned r
  | r => unsigned r
  end.

Definition get_int (key : pystr) (def : Z) (c : Config) : Z :=
  match dict_get key c with
  | Some (PInt n) => n
  | Some (PStr s) => default def (int_of_str s)
  | _ => def
  end.

(** ** Writing *)

Definition _TOML_ESCAPES : pydict pystr :=
  [(bsl, bsl ++ bsl); (dq, bsl ++ dq); ([8], u"\b"); ([9], u"\t"); ([10], u"\n"); ([12], u"\f"); ([13], u"\r")].

(** [f"{o:04X}"] *)
Definition HEX4 (o : Z) : pystr := [HEX_digit (o / 4096 mod 16); HEX_digit (o / 256 mod 16); HEX_digit (o / 16 mod 16); HEX_digit (o mod 16)].

Definition escape_toml_char (c : Z) : pystr :=
  match dict_get [c] _TOML_ESCAPES with
  | Some esc => esc
  | None => if (c <? 32) || (c =? 127) then u"\u" ++ HEX4 c else [c]
  end.
Definition _escape_toml_basic (s : pystr) : pystr := flat_map escape_toml_char s.

Definition toml_value (v : pyobj) : pystr :=
  match v with
  | PBool b => if b then u"true" else u"false"
  | PInt n => str_of_Z n
  | PFloat f => repr_float f
  | _ => dq ++ _escape_toml_basic (toml_str v) ++ dq
  end.

Definition toml_line (entry : pystr * pyobj) : pystr := entry.1 ++ u" = " ++ toml_value entry.2.

Definition _dump_toml (values : Config) : pystr :=
  match values with [] => [] | _ => join nl (map toml_line values) ++ nl end.
End values.

(** ** The file *)

Inductive config_error : Type :=
| ConfigError          (** the file cannot be read as TOML *)
| ConfigEncode.        (** UnicodeEncodeError *)

Section file.
Context (loads : pystr -> option Config) (other_str : pyobj -> pystr).
Abbreviation FM A := (M (option (list Z)) config_error A).

(** no file is an empty configuration *)
Definition load_config : FM Config :=
  file ← gets id;
  match file with
  | None => mret []
  | Some bytes =>
      match utf8_decode bytes ≫= loads with
      | Some values => mret values
      | None => raise ConfigError
      end
  end.

(** the text is encoded before the file is opened *)
Definition write_config (values : Config) : FM unit :=
  let text := _dump_toml other_str values in
  if forallb scalar text then modify (fun _ => Some (utf8_encode text)) else raise ConfigEncode.

Definition set_config_value (key : pystr) (value : pyobj) : FM unit :=
  values ← load_config;
  write_config (dict_set key value values).

(** [None]: the process exits with the code of an incorrect usage *)
Definition init_config (argv : list pystr) (file : option (list Z)) : option Config :=
  match (load_config file).1 with
  | inr c => Some c
  | inl _ => if str_in (u"enroll") argv then Some [] else None
  end.

(** eds/cmd/server.py: an explicit mode is stored; else that of the
    configuration, which was read before, is used; else the default is stored.
    The inner [None] is the ValueError of a mode that is none. *)
Definition resolve_ingest_mode (explicit : option IngestMode) (config : Config) : FM (option IngestMode) :=
  match explicit with
  | Some mode => _ ← set_config_value (u"mode") (PStr (mode_value mode)); mret (Some mode)
  | None =>
      match get_string other_str (u"mode") [] config with
      | [] => _ ← set_config_value (u"mode") (PStr (mode_value UPSERT)); mret (Some UPSERT)
      | cfg_mode => mret (parse_ingest_mode cfg_mode)
      end
  end.
End file.

(** ** Arguments *)

Definition SERVER_IGNORE_FLAGS : list pystr :=
  [u"--api-url"; u"--api-key"; u"--eds-id"; u"--silent"; u"--port"; u"--health-port"; u"--renew-interval"; u"--wrapper";
   u"--parent"; u"--url"; u"--server"; u"--keep-logs"; u"--no-restart"; u"--mode"].

(** [arg.split("=")[0]] *)
Definition flag_of (arg : pystr) : pystr := default [] (head (split_char 61 arg)).
Definition ignored (arg : pystr) : bool := str_in (flag_of arg) SERVER_IGNORE_FLAGS.

Fixpoint collect (skipping : bool) (args : list pystr) : list pystr :=
  match args with
  | [] => []
  | arg :: rest =>
      if skipping then collect false rest
      else if ignored arg then collect true rest
      else arg :: collect false rest
  end.
Definition collect_command_args (args : list pystr) : list pystr := collect false args.

(** the environment variable, when it is set *)
Definition get_os_int (raw : option pystr) (def : Z) : Z :=
  match raw with
  | None | Some [] => def
  | Some s => default def (int_of_str s)
  end.

(** ** The format of a flat file *)

Definition toml_escape (e : Z) : option Z :=
  if e =? 34 then Some 34 else if e =? 92 then Some 92 else if e =? 98 then Some 8 else if e =? 116 then Some 9
  else if e =? 110 then Some 10 else if e =? 102 then Some 12 else if e =? 114 then Some 13 else None.

(** the rest of a line after the opening quote of a basic string *)
Fixpoint toml_string (s : pystr) : option pystr :=
  match s with
  | [] => None
  | c :: r =>
      if c =? 34 then match r with [] => Some [] | _ => None end
      else if c =? 92 then
        match r with
        | 117 :: a :: b :: c' :: d :: r' =>
            o ← hex4_val a b c' d;
            if scalar o then cons o <$> toml_string r' else None
        | e :: r' => o ← toml_escape e; cons o <$> toml_string r'
        | [] => None
        end
      else if ((c <? 32) && negb (c =? 9)) || (c =? 127) then None
      else cons c <$> toml_string r
  end.

(** a decimal integer without a leading zero *)
Definition toml_nat (s : pystr) : option Z :=
  match s with
  | [] => None
  | c :: r => if forallb is_digit s && (negb (c =? 48) || match r with [] => true | _ => false end) then Some (digits_val s) else None
  end.
Definition toml_int (s : pystr) : option Z :=
  match s with
  | c :: r => if c =? 45 then Z.opp <$> toml_nat r else toml_nat s
  | [] => None
  end.

Definition toml_scalar (s : pystr) : option pyobj :=
  if startswith dq s then PStr <$> toml_string (drop 1 s)
  else if str_eqb s (u"true") then Some (PBool true)
  else if str_eqb s (u"false") then Some (PBool false)
  else PInt <$> toml_int s.

Definition bare_char (c : Z) : bool := is_alpha c || is_digit c || (c =? 95) || (c =? 45).
Definition bare_key (k : pystr) : bool := match k with [] => false | _ => forallb bare_char k end.

Definition toml_entry (line : pystr) : option (pystr * pyobj) :=
  match find_str (u" = ") line with
  | None => None
  | Some i =>
      let key := take i line in
      if bare_key key then pair key <$> toml_scalar (drop (i + 3) line) else None
  end.

(** blank lines are skipped; a key that comes twice is an error *)
Fixpoint toml_lines (lines : list pystr) : option Config :=
  match lines with
  | [] => Some []
  | [] :: rest => toml_lines rest
  | line :: rest =>
      e ← toml_entry line;
      d ← toml_lines rest;
      if str_in e.1 (dict_keys d) then None else Some (e :: d)
  end.
Definition toml_read (text : pystr) : option Config := toml_lines (split_char 10 text).

(** ** What is written is read back *)

(** a configuration of bare keys and of strings, booleans and integers *)
Definition flat_value (v : pyobj) : bool :=
  match v with PStr s => forallb scalar s | PBool _ | PInt _ => true | _ => false end.
Definition flat_entry (e : pystr * pyobj) : bool := bare_key e.1 && flat_value e.2.
Definition flat (d : Config) : Prop := NoDup (dict_keys d) /\ forallb flat_entry d = true.

Definition hex4_back (o : Z) : bool :=
  match HEX4 o with
  | [a; b; c; d] => bool_decide (hex4_val a b c d = Some o)
  | _ => false
  end.

Lemma HEX4_back o : 0 <= o < 128 -> hex4_back o = true.
Proof.
  intros Ho. assert (forallb hex4_back (seqZ 0 128) = true) as H by (vm_compute; reflexivity).
  eapply forallb_forall in H; [exact H|]. apply list_elem_of_In, elem_of_seqZ. lia.
Qed.

Lemma escaped_char c r : scalar c = true -> toml_string (escape_toml_char c ++ r) = cons c <$> toml_string r.
Proof.
  intros Hc. unfold escape_toml_char, _TOML_ESCAPES. cbn [dict_get bsl dq].
  change bsl with [92]. change dq with [34].
  repeat (case_decide; [match goal with H : _ = [c] |- _ => injection H as <-; reflexivity end|]).
  assert (c <> 92 /\ c <> 34 /\ c <> 9) as (Hq1 & Hq2 & Hq3) by (split_and!; congruence).
  destruct ((c <? 32) || (c =? 127)) eqn:Ectl.
  - assert (0 <= c < 128) as Hr by (unfold scalar in Hc; bool_prop; lia).
    pose proof (HEX4_back c Hr) as Hx. unfold hex4_back, HEX4 in *. case_bool_decide as Hv; [|done].
    simpl. rewrite Hv. simpl. by rewrite Hc.
  - apply orb_false_iff in Ectl as [E1 E2]. simpl. rewrite E1, E2. by destruct (Z.eqb_spec c 34), (Z.eqb_spec c 92).
Qed.

Lemma string_reads_back s : forallb scalar s = true -> toml_string (_escape_toml_basic s ++ dq) = Some s.
Proof.
  induction s as [|c s IH]; [done|]. simpl. intros [Hc Hs]%andb_true_iff.
  unfold _escape_toml_basic in *. cbn [flat_map]. rewrite <- app_assoc, escaped_char by done. by rewrite IH.
Qed.

Lemma nat_reads_back n : 0 <= n -> toml_nat (str_of_nonneg n) = Some n.
Proof.
  intros Hn. destruct (str_of_nonneg_spec n Hn) as (Hne & Hd & Hv & Hh & Hz).
  destruct (decide (n = 0)) as [->|Hn0]; [by rewrite (Hz eq_refl)|]. destruct (Hh Hn0) as (c & r & E & Hc).
  rewrite E in *. unfold toml_nat. rewrite (proj2 (forallb_Forall _ _) Hd). destruct (Z.eqb_spec c 48); [done|]. by rewrite Hv.
Qed.

Lemma str_of_Z_head n : exists c r, str_of_Z n = c :: r /\ (c = 45 \/ is_digit c = true).
Proof.
  unfold str_of_Z. destruct (n <? 0) eqn:E; [by exists 45, (str_of_nonneg (- n)); split; [|left]|]. bool_prop.
  destruct (str_of_nonneg_spec n) as (Hne & Hd & _); [lia|]. destruct (str_of_nonneg n) as [|c r]; [done|].
  apply Forall_cons in Hd as [Hd _]. exists c, r. auto.
Qed.

Lemma int_reads_back n : toml_int (str_of_Z n) = Some n.
Proof.
  unfold str_of_Z. destruct (n <? 0) eqn:E; bool_prop.
  - simpl. rewrite nat_reads_back by lia. simpl. f_equal. lia.
  - destruct (str_of_nonneg_spec n) as (Hne & Hd & _); [lia|]. pose proof (nat_reads_back n ltac:(lia)) as H.
    destruct (str_of_nonneg n) as [|c r]; [done|]. apply Forall_cons in Hd as [Hd _]. unfold toml_int.
    destruct (Z.eqb_spec c 45) as [->|]; [discriminate Hd|done].
Qed.

Section reading.
Context (other_str : pyobj -> pystr).
Abbreviation vtext := (toml_value other_str).
Abbreviation ltext := (toml_line other_str).
Abbreviation dtext := (_dump_toml other_str).

Lemma value_reads_back v : flat_value v = true -> toml_scalar (vtext v) = Some v.
Proof.
  destruct v as [|b|n| |s| | | |]; try done; intros Hv.
  - by destruct b.
  - change (toml_value other_str (PInt n)) with (str_of_Z n). pose proof (int_reads_back n) as H.
    destruct (str_of_Z_head n) as (c & r & E & Hc). rewrite E in *.
    assert (c <> 34 /\ c <> 116 /\ c <> 102) as (H1 & H2 & H3) by (destruct Hc as [->|Hd]; [done|]; unfold is_digit in Hd; bool_prop; lia).
    assert (startswith dq (c :: r) = false) as Hs by (cbn [dq startswith]; by destruct (Z.eqb_spec 34 c)).
    assert (forall x t, x <> c -> str_eqb (c :: r) (x :: t) = false) as Hx.
    { intros x t Hne. unfold str_eqb. apply bool_decide_eq_false_2. congruence. }
    unfold toml_scalar. rewrite Hs. change (u"true") with (116 :: u"rue"). change (u"false") with (102 :: u"alse").
    rewrite !Hx by done. by rewrite H.
  - change (vtext (PStr s)) with (dq ++ _escape_toml_basic s ++ dq). unfold toml_scalar.
    rewrite (startswith_app dq). change (drop 1 (dq ++ _escape_toml_basic s ++ dq)) with (_escape_toml_basic s ++ dq).
    by rewrite string_reads_back.
Qed.

Lemma bare_no_space k : bare_key k = true -> 32 ∉ k /\ 10 ∉ k /\ k <> [].
Proof.
  destruct k as [|c k]; [done|]. intros H%forallb_Forall. rewrite Forall_forall in H.
  split_and!; [intros Hin%H; discriminate..|done].
Qed.

Lemma entry_reads_back e : flat_entry e = true -> toml_entry (ltext e) = Some e.
Proof.
  destruct e as [k v]. unfold flat_entry. simpl. intros [Hk Hv]%andb_true_iff.
  destruct (bare_no_space k Hk) as (Hs & _ & _). unfold toml_entry.
  change (ltext (k, v)) with (k ++ (32 :: [61; 32]) ++ vtext v). change (u" = ") with (32 :: [61; 32]).
  rewrite find_str_first, take_app_length, Hk by done. replace (length k + 3)%nat with (length (k ++ 32 :: [61; 32])) by (rewrite length_app; simpl; lia).
  by rewrite app_assoc, drop_app_length, value_reads_back.
Qed.

Lemma HEX_digit_visible n : 32 < HEX_digit (n mod 16).
Proof. unfold HEX_digit. pose proof (Z.mod_pos_bound n 16). case_match; lia. Qed.

Lemma escape_char_no_newline c : 10 ∉ escape_toml_char c.
Proof.
  unfold escape_toml_char, _TOML_ESCAPES. cbn [dict_get]. change bsl with [92]. change dq with [34].
  repeat (case_decide; [vm_compute; intros Hin; repeat (apply elem_of_cons in Hin as [?|Hin]; [done|]); by apply elem_of_nil in Hin|]).
  destruct ((c <? 32) || (c =? 127)).
  - change (u"\u") with [92; 117]. unfold HEX4. simpl. rewrite !elem_of_cons, elem_of_nil.
    pose proof (HEX_digit_visible (c / 4096)). pose proof (HEX_digit_visible (c / 256)).
    pose proof (HEX_digit_visible (c / 16)). pose proof (HEX_digit_visible c). lia.
  - intros Hq%list_elem_of_singleton. congruence.
Qed.

Lemma escaped_no_newline s : 10 ∉ _escape_toml_basic s.
Proof.
  unfold _escape_toml_basic. intros Hin%list_elem_of_In%in_flat_map. destruct Hin as (c & _ & Hc).
  by apply list_elem_of_In, escape_char_no_newline in Hc.
Qed.

Lemma line_no_newline e : flat_entry e = true -> 10 ∉ ltext e.
Proof.
  destruct e as [k v]. unfold flat_entry. simpl. intros [Hk Hv]%andb_true_iff.
  destruct (bare_no_space k Hk) as (_ & Hn & _). unfold toml_line. simpl. rewrite !elem_of_app, !elem_of_cons.
  intros [Hin|[?|[?|[?|Hin]]]]; try done. destruct v as [|b|n| |s| | | |]; try done; simpl in Hin.
  - destruct b; vm_compute in Hin; repeat (apply elem_of_cons in Hin as [?|Hin]; [done|]); by apply elem_of_nil in Hin.
  - unfold str_of_Z in Hin. assert (forall m, 0 <= m -> 10 ∉ str_of_nonneg m) as Hd.
    { intros m Hm Hin'. destruct (str_of_nonneg_spec m Hm) as (_ & Hd & _). rewrite Forall_forall in Hd. by apply Hd in Hin'. }
    destruct (n <? 0) eqn:E; bool_prop; [apply elem_of_cons in Hin as [?|Hin]; [done|]|]; revert Hin; apply Hd; lia.
  - rewrite elem_of_cons, elem_of_app in Hin. destruct Hin as [?|[Hin|Hin]]; [done|by apply escaped_no_newline in Hin|].
    by apply elem_of_cons in Hin as [?|?%elem_of_nil].
Qed.

Lemma line_nonempty e : flat_entry e = true -> exists c r, ltext e = c :: r.
Proof.
  destruct e as [k v]. unfold flat_entry. simpl. intros [Hk _]%andb_true_iff.
  destruct (bare_no_space k Hk) as (_ & _ & Hne). destruct k as [|c k]; [done|]. unfold toml_line. simpl. eauto.
Qed.

Lemma lines_read_back d : flat d -> toml_lines (map ltext d ++ [[]]) = Some d.
Proof.
  intros [Hn Hf]. induction d as [|e d IH]; [done|]. cbn [forallb] in Hf. apply andb_true_iff in Hf as [He Hd].
  apply NoDup_cons in Hn as [Hk Hn]. cbn [map app toml_lines]. destruct (line_nonempty e He) as (c & r & E).
  pose proof (entry_reads_back e He) as Hr. rewrite E in *. rewrite Hr. simpl. rewrite IH by done. simpl.
  unfold str_in. by rewrite bool_decide_eq_false_2.
Qed.

Lemma dump_reads_back d : flat d -> toml_read (dtext d) = Some d.
Proof.
  intros Hd. destruct d as [|e d]; [done|]. unfold toml_read, _dump_toml.
  replace (join nl (map ltext (e :: d)) ++ nl) with (join [10] (map ltext (e :: d) ++ [[]])).
  2: { rewrite join_snoc. simpl map. by rewrite app_nil_r. }
  rewrite split_join; [by apply lines_read_back|by destruct (map _ _)|]. apply Forall_app. split; [|repeat constructor; set_solver].
  apply Forall_map, Forall_forall. intros x Hx. apply line_no_newline. destruct Hd as [_ Hd]. rewrite forallb_Forall, Forall_forall in Hd. by apply Hd.
Qed.
End reading.

Lemma ascii_scalar c : 0 <= c < 128 -> scalar c = true.
Proof.
  intros H. unfold scalar, is_surrogate. rewrite (proj2 (Z.leb_le 0 c)), (proj2 (Z.leb_le c 1114111)) by lia.
  by destruct (Z.leb_spec 55296 c); [lia|].
Qed.

Lemma escape_char_scalar c : scalar c = true -> forallb scalar (escape_toml_char c) = true.
Proof.
  intros Hc. unfold escape_toml_char, _TOML_ESCAPES. cbn [dict_get]. change bsl with [92]. change dq with [34].
  repeat (case_decide; [vm_compute; reflexivity|]). destruct ((c <? 32) || (c =? 127)) eqn:E; [|simpl; by rewrite Hc].
  change (u"\u") with [92; 117]. unfold HEX4. simpl.
  assert (forall n, scalar (HEX_digit (n mod 16)) = true) as Hd.
  { intros n. apply ascii_scalar. unfold HEX_digit. pose proof (Z.mod_pos_bound n 16). case_match; bool_prop; lia. }
  by rewrite !Hd.
Qed.

Lemma digits_scalar s : Forall (fun c => is_digit c = true) s -> forallb scalar s = true.
Proof.
  intros H. apply forallb_Forall. eapply Forall_impl; [exact H|]. intros c Hc. apply ascii_scalar.
  unfold is_digit in Hc. bool_prop. lia.
Qed.

Lemma int_scalar n : forallb scalar (str_of_Z n) = true.
Proof.
  unfold str_of_Z. destruct (n <? 0) eqn:E; bool_prop; simpl; apply digits_scalar;
    by apply str_of_nonneg_spec; lia.
Qed.

Lemma bare_scalar k : bare_key k = true -> forallb scalar k = true.
Proof.
  destruct k as [|c k]; [done|]. intros H%forallb_Forall. apply forallb_Forall. eapply Forall_impl; [exact H|].
  intros x Hx. apply ascii_scalar. unfold bare_char, is_alpha, is_lower, is_upper, is_digit in Hx. bool_prop. lia.
Qed.

Lemma escape_scalar s : forallb scalar s = true -> forallb scalar (_escape_toml_basic s) = true.
Proof.
  induction s as [|c s IH]; [done|]. simpl. intros [Hc Hs]%andb_true_iff.
  by rewrite forallb_app, escape_char_scalar, IH.
Qed.

(** ** Settings *)

Section settings.
Context (loads : pystr -> option Config) (other_str : pyobj -> pystr).
(** the package reads a flat file as the format says *)
Context (loads_flat : forall text d, toml_read text = Some d -> loads text = Some d).
Abbreviation load := (load_config loads).
Abbreviation set_value := (set_config_value loads other_str).
Abbreviation resolve_mode := (resolve_ingest_mode loads other_str).

Lemma entry_scalar e : flat_entry e = true -> forallb scalar (toml_line other_str e) = true.
Proof.
  destruct e as [k v]. unfold flat_entry. simpl. intros [Hk Hv]%andb_true_iff.
  unfold toml_line. simpl. rewrite !forallb_app, bare_scalar by done. simpl.
  destruct v as [|b|n| |s| | | |]; try done; simpl.
  - by destruct b.
  - apply int_scalar.
  - by rewrite forallb_app, escape_scalar.
Qed.

Lemma join_scalar l : Forall (fun x => forallb scalar x = true) l -> forallb scalar (join nl l) = true.
Proof.
  induction 1 as [|x l Hx Hl IH]; [done|]. rewrite join_cons. destruct l; [by rewrite forallb_app, Hx|]. by rewrite !forallb_app, Hx, IH.
Qed.

Lemma dump_scalar d : flat d -> forallb scalar (_dump_toml other_str d) = true.
Proof.
  intros [_ Hd]. destruct d as [|e d]; [done|]. unfold _dump_toml. rewrite forallb_app, join_scalar; [done|].
  apply Forall_map. eapply Forall_impl; [by apply forallb_Forall|]. intros x. apply entry_scalar.
Qed.

Lemma flat_set key value d : bare_key key = true -> flat_value value = true -> flat d -> flat (dict_set key value d).
Proof.
  intros Hk Hv [Hn Hd]. split; [by apply dict_set_NoDup|]. clear Hn.
  assert (flat_entry (key, value) = true) as He by (unfold flat_entry; simpl; by rewrite Hk, Hv).
  induction d as [|[k v] d IH]; [by simpl; rewrite He|]. cbn [forallb] in Hd. apply andb_true_iff in Hd as [Hx Hd].
  cbn [dict_set]. case_decide as Ek; cbn [forallb].
  - subst k. by rewrite He.
  - by rewrite Hx, IH.
Qed.

(** a flat configuration that is written is the next load *)
Lemma written_loads d file : flat d ->
  exists file', write_config other_str d file = (inr tt, file') /\ load file' = (inr d, file').
Proof.
  intros Hf. eexists. split.
  - unfold write_config. rewrite (dump_scalar _ Hf). reflexivity.
  - unfold load_config, mbind, M_bind, gets, id. unfold utf8_decode.
    rewrite utf8_roundtrip by (by apply forallb_Forall, dump_scalar).
    simpl. by rewrite (loads_flat _ _ (dump_reads_back other_str _ Hf)).
Qed.

(** what is written is there for the next load, with the other settings *)
Lemma set_persists key value d file :
  bare_key key = true -> flat_value value = true -> flat d -> load file = (inr d, file) ->
  exists file', set_value key value file = (inr tt, file') /\
    load file' = (inr (dict_set key value d), file').
Proof.
  intros Hk Hv Hd Hl. destruct (written_loads _ file (flat_set key value d Hk Hv Hd)) as (file' & Hw & Hl').
  exists file'. split; [|done]. unfold set_config_value. by rewrite (bind_inr _ _ _ _ _ Hl).
Qed.

(** a setting that is written is read by the next load as it was, whatever the
    string holds, and every other setting is kept. *)
Theorem config_reads_back key value d file :
  bare_key key = true -> flat_value value = true -> flat d -> load file = (inr d, file) ->
  exists file' d', set_value key value file = (inr tt, file') /\ load file' = (inr d', file') /\
    dict_get key d' = Some value /\ forall k, k <> key -> dict_get k d' = dict_get k d.
Proof.
  intros Hk Hv Hd Hl. destruct (set_persists key value d file Hk Hv Hd Hl) as (file' & Hs & Hl').
  exists file', (dict_set key value d). split_and!; [done..|apply dict_get_set_eq|].
  intros k Hne. by apply dict_get_set_ne.
Qed.

Lemma mode_value_scalar m : flat_value (PStr (mode_value m)) = true.
Proof. by destruct m. Qed.

(** the mode the server resolves, explicit, configured or default, is the one
    the next run without an explicit mode resolves; that run leaves the file as
    it is. *)
Theorem mode_persists explicit d file mode file' :
  flat d -> load file = (inr d, file) -> resolve_mode explicit d file = (inr (Some mode), file') ->
  exists d', load file' = (inr d', file') /\ resolve_mode None d' file' = (inr (Some mode), file').
Proof.
  intros Hd Hl Hr.
  assert (forall m, resolve_mode None (dict_set (u"mode") (PStr (mode_value m)) d) file' = (inr (Some m), file')) as Hnext.
  { intros m. unfold resolve_ingest_mode, get_string. rewrite dict_get_set_eq. by destruct m. }
  assert (forall m, (_ ← set_value (u"mode") (PStr (mode_value m)); mret (Some m)) file = (inr (Some mode), file') ->
    load file' = (inr (dict_set (u"mode") (PStr (mode_value m)) d), file') /\ m = mode) as Hset.
  { intros m. destruct (set_persists (u"mode") (PStr (mode_value m)) d file eq_refl (mode_value_scalar m) Hd Hl) as (f & Hs & Hf).
    rewrite (bind_inr _ _ _ _ _ Hs). by intros [= -> <-]. }
  unfold resolve_ingest_mode in Hr. destruct explicit as [m|].
  - apply Hset in Hr as [Hf ->]. eauto.
  - destruct (get_string other_str (u"mode") [] d) as [|c r] eqn:E.
    + apply Hset in Hr as [Hf <-]. eauto.
    + injection Hr as Hm <-. exists d. split; [done|]. unfold resolve_ingest_mode. by rewrite E, Hm.
Qed.
End settings.

(** ** Forwarded arguments *)

Lemma collect_forwards b args : Forall (fun arg => ignored arg = false) (collect b args).
Proof.
  revert b. induction args as [|arg l IH]; intros b; simpl; [done|].
  destruct b; [apply IH|]. destruct (ignored arg) eqn:Ea; [apply IH|]. by constructor.
Qed.

(** options given as a flag and its value in the next argument are forwarded
    when the server does not take them itself, in order; nothing that is
    forwarded looks like an option of the server. *)
Theorem forwarded_options (options : list (pystr * pystr)) :
  Forall (fun o => ignored o.1 = false -> ignored o.2 = false) options ->
  let out := collect_command_args (flat_map (fun o => [o.1; o.2]) options) in
  out = flat_map (fun o => [o.1; o.2]) (filter (fun o => ignored o.1 = false) options) /\
  Forall (fun arg => ignored arg = false) out.
Proof.
  intros H. simpl. assert (collect_command_args (flat_map (fun o => [o.1; o.2]) options) =
    flat_map (fun o => [o.1; o.2]) (filter (fun o => ignored o.1 = false) options)) as E.
  { unfold collect_command_args. induction H as [|[flag value] l Ho _ IH]; [done|]. simpl in *. rewrite filter_cons. simpl.
    destruct (ignored flag) eqn:Ef; [done|]. by rewrite Ho, IH. }
  split; [done|]. apply collect_forwards.
Qed.

Module ConfigRun.

Definition no_str (v : pyobj) : pystr := [].

(** a password with a quote, a backslash and a control character *)
Definition tricky : pyobj := PStr ([34; 92; 7] ++ u"secret").
Definition stored : Config := [(u"token", PStr (u"abc")); (u"keep_logs", PBool true)].
Definition file0 : option (list Z) := Some (utf8_encode (_dump_toml no_str stored)).

Lemma flat_stored : flat stored.
Proof. split; [|reflexivity]. apply (bool_decide_eq_true_1 _). vm_compute. reflexivity. Qed.

Lemma config_reads_back_witness : exists file' d',
  set_config_value toml_read no_str (u"url") tricky file0 = (inr tt, file') /\ load_config toml_read file' = (inr d', file') /\
  dict_get (u"url") d' = Some tricky /\ forall k, k <> u"url" -> dict_get k d' = dict_get k stored.
Proof.
  apply (config_reads_back toml_read no_str (fun text d H => H) (u"url") tricky stored file0);
    [reflexivity|reflexivity|exact flat_stored|vm_compute; reflexivity].
Defined.

Lemma mode_persists_witness : exists d',
  load_config toml_read (resolve_ingest_mode toml_read no_str (Some APPEND) stored file0).2 =
    (inr d', (resolve_ingest_mode toml_read no_str (Some APPEND) stored file0).2) /\
  resolve_ingest_mode toml_read no_str None d' (resolve_ingest_mode toml_read no_str (Some APPEND) stored file0).2 =
    (inr (Some APPEND), (resolve_ingest_mode toml_read no_str (Some APPEND) stored file0).2).
Proof.
  apply (mode_persists toml_read no_str (fun text d H => H) (Some APPEND) stored file0 APPEND);
    [exact flat_stored|vm_compute; reflexivity|vm_compute; reflexivity].
Defined.

Definition given : list (pystr * pystr) := [(u"--url", u"mysql://db"); (u"--max-ack-pending", u"10"); (u"--mode", u"append")].

Lemma forwarded_options_witness :
  let out := collect_command_args (flat_map (fun o => [o.1; o.2]) given) in
  out = flat_map (fun o => [o.1; o.2]) (filter (fun o => ignored o.1 = false) given) /\
  Forall (fun arg => ignored arg = false) out.
Proof. apply (forwarded_options given). repeat constructor. Defined.

(** a flag without a value, or with one behind [=], takes the next argument with
    it *)
Lemma inline_flag_drops_next :
  collect_command_args [u"--keep-logs"; u"--max-ack-pending"; u"10"] = [u"10"] /\
  collect_command_args [u"--port=8080"; u"--verbose"] = [].
Proof. by vm_compute. Qed.

(** a key the file may hold, but that is not bare, makes the file unreadable *)
Lemma quoted_key_lost : toml_read (_dump_toml no_str [(u"my key", PBool true); (u"mode", PStr (u"upsert"))]) = None.
Proof. by vm_compute. Qed.
End ConfigRun.
