(* ===== verification/Streaming.v ===== *)
(** * Streaming destinations: what the drivers without a database share

    The names the Kafka and the Event Hub driver make from an event, the bytes
    of an event, and the step from a driver's own exceptions to the interface
    [Driver]. *)
From stdpp Require Import base tactics list option numbers sets strings.
From S2P Require Import Prelude PyStr PyDict PyFloat GoJson Schema DbChange Interfaces.

(** ** Keys *)

Definition str_with_def (val : option pystr) (default : pystr) : pystr :=
  match val with Some (c :: v) => c :: v | _ => default end.

Definition message_key (table operation : pystr) (company_id location_id : option pystr) (id : pystr) : pystr :=
  u"dbchange." ++ table ++ u"." ++ operation ++ u"." ++
  str_with_def company_id (u"NONE") ++ u"." ++ str_with_def location_id (u"NONE") ++ u"." ++ id.

Definition partition_key (table : pystr) (company_id location_id : option pystr) (primary_key : pystr) : pystr :=
  table ++ u"." ++ str_with_def company_id (u"NONE") ++ u"." ++ str_with_def location_id (u"NONE") ++
  u"." ++ primary_key.

(** ** Bytes *)

(** [s.encode("utf-8")]: [None] is the UnicodeEncodeError of a lone surrogate *)
Definition encode (s : pystr) : option (list Z) :=
  if forallb scalar s then Some (utf8_encode s) else None.

(** [stringify(event)] *)
Definition event_text (e : DBChangeEvent) : pystr := stringify (PStruct (event_fields e)).
Definition event_bytes (e : DBChangeEvent) : option (list Z) := encode (event_text e).

Lemma encode_decode s b : encode s = Some b -> utf8_decode b = Some s.
Proof. unfold encode. case_match; [|done]. intros [= <-]. apply utf8_roundtrip. by apply forallb_Forall. Qed.

(** ** Methods of a driver *)

Section methods.
Context {S E : Type}.
Implicit Type s : S.

(** a method of the event an operation works on; its cache goes with it *)
Definition on_event {A} (wrap : event_error -> E) (m : EvM A) (e : DBChangeEvent) : M S E (A * DBChangeEvent) :=
  match m e with
  | (inl err, _) => raise (wrap err)
  | (inr a, e') => mret (a, e')
  end.

Definition or_raise {A} (err : E) (o : option A) : M S E A :=
  match o with Some a => mret a | None => raise err end.

(** the consumer tells none of these exceptions apart *)
Definition as_driver {A} (m : M S E A) : method S driver_error A :=
  fun s => match m s with
           | (inl _, s') => (inl DriverFailed, s')
           | (inr a, s') => (inr a, s')
           end.

Lemma as_driver_inr {A} (m : M S E A) s a s' : as_driver m s = (inr a, s') -> m s = (inr a, s').
Proof. unfold as_driver. destruct (m s) as [[]]; by intros [= -> ->]. Qed.

Lemma as_driver_state {A} (m : M S E A) s : (as_driver m s).2 = (m s).2.
Proof. unfold as_driver. by destruct (m s) as [[]]. Qed.

Lemma triple_or_raise {A} (P : S -> Prop) (err : E) (o : option A) : triple P (or_raise err o) (fun _ => P) (fun _ => P).
Proof. destruct o; [by apply triple_ret|by apply triple_raise]. Qed.

Lemma triple_on_event {A} (P : S -> Prop) wrap (m : EvM A) e : triple P (on_event wrap m e) (fun _ => P) (fun _ => P).
Proof. intros s Hs. unfold on_event. by destruct (m e) as [[]]. Qed.

Lemma or_raise_inr {A} (err : E) (o : option A) s a s' :
  or_raise err o s = (inr a, s') -> o = Some a /\ s' = s.
Proof. destruct o; by intros [= <- <-]. Qed.

(** a method keeps a destination's promises when it keeps the driver well and
    loses nothing, as two triples *)
Lemma preserves_triples {Item A} (ok : S -> Prop) (held stored : S -> Item -> Prop) (m : M S E A) :
  (forall it, triple (fun s => ok s /\ stored s it) m (fun _ s => stored s it) (fun _ s => stored s it)) ->
  triple ok m (fun _ => ok) (fun _ _ => True) ->
  (forall it, triple (fun s => ok s /\ held s it) m (fun _ s => held s it \/ stored s it) (fun _ _ => True)) ->
  preserves ok held stored (as_driver m).
Proof.
  intros Hs Ho Hh. split.
  - intros s it H1 H2. rewrite as_driver_state. specialize (Hs it s (conj H1 H2)).
    by destruct (m s) as [[]].
  - intros s a s' H E'%as_driver_inr. specialize (Ho s H). rewrite E' in Ho. split; [done|].
    intros it Hit. specialize (Hh it s (conj H Hit)). by rewrite E' in Hh.
Qed.
End methods.
