(* ===== verification/Credentials.v ===== *)
(** * Credentials: eds/consumer/credentials.py, eds/util/api.py

    The payload of a JSON web token, the API address in an API key, and what the
    consumer takes from the credentials file of a session: the companies, the
    server and the session.  The theorem: a decorated file around a token with
    the claims of a session is read back as these. *)
From stdpp Require Import base tactics list option numbers sets strings.
From S2P Require Import Prelude PyStr PyPath PyCodec PyDict PyFloat GoJson JsonLoads DbChange.

(** ** The payload of a token *)

(** [urlsafe_b64decode(segment + padding)] *)
Definition _b64url_decode (segment : pystr) : option (list Z) :=
  urlsafe_b64decode (segment ++ padding (Z.of_nat (length segment))).

(** a ValueError with its reason, an exception for a claim of another type *)
Inductive token_error : Type := NotThreeSegments | BadClaims | ClaimsNotObject | ClaimsOutside.

(** what both readers of a token do *)
Definition token_claims (token : pystr) : token_error + pydict pyobj :=
  match split_char 46 token with
  | [_; body; _] =>
      match loads_bytes <$> _b64url_decode body with
      | None | Some PayloadError => inl BadClaims
      | Some PayloadOutside => inl ClaimsOutside
      | Some (PayloadOk (PDict claims)) => inr claims
      | Some (PayloadOk _) => inl ClaimsNotObject
      end
  | _ => inl NotThreeSegments
  end.

Definition get_api_url_from_jwt (jwt_string : pystr) : token_error + pystr :=
  match token_claims jwt_string with
  | inl e => inl e
  | inr claims =>
      let iss := match dict_get (u"iss") claims with Some (PStr s) => s | _ => [] end in
      inr (if str_eqb iss (u"https://shopmonkey.io") then u"https://api.shopmonkey.cloud" else iss)
  end.

(** ** Subjects *)

(** [a-f0-9-] *)
Definition id_char (c : Z) : bool := is_digit c || ((97 <=? c) && (c <=? 102)) || (c =? 45).

Fixpoint span_id (s : pystr) : pystr * pystr :=
  match s with
  | c :: r => if id_char c then let '(a, b) := span_id r in (c :: a, b) else ([], s)
  | [] => ([], [])
  end.

(** the id up to the next dot: the end of both patterns *)
Definition id_before_dot (s : pystr) : pystr :=
  match span_id s with
  | (c :: a, 46 :: _) => c :: a
  | _ => []
  end.

(** a match of a prefix in which [None] is any character but a newline *)
Fixpoint match_prefix (p : list (option Z)) (s : pystr) : option pystr :=
  match p, s with
  | [], _ => Some s
  | Some c :: p', x :: s' => if c =? x then match_prefix p' s' else None
  | None :: p', x :: s' => if x =? 10 then None else match_prefix p' s'
  | _, [] => None
  end.

Definition _COMPANY_ID_RE : list (option Z) := Some <$> u"dbchange.*.*.".
Definition _SESSION_ID_RE : list (option Z) := (Some <$> u"eds") ++ [None] ++ (Some <$> u"notify") ++ [None].

Definition _first_match (p : list (option Z)) (s : pystr) : pystr :=
  match match_prefix p s with Some r => id_before_dot r | None => [] end.

Definition extract_company_id_from_dbchange_subscription (sub : pystr) : pystr := _first_match _COMPANY_ID_RE sub.
Definition extract_session_id_from_eds_subscription (sub : pystr) : pystr := _first_match _SESSION_ID_RE sub.

(** ** The file *)

Record CredentialInfo := mk_cred_info { ci_company_ids : list pystr; ci_server_id : pystr; ci_session_id : pystr }.

(** the lines up to the end mark *)
Fixpoint jwt_lines (lines : list pystr) : list pystr :=
  match lines with
  | [] => []
  | line :: rest =>
      if startswith (u"-----END") line || startswith (u"------END") line then []
      else match strip line with [] => jwt_lines rest | l => l :: jwt_lines rest end
  end.

Definition begin_mark : pystr := u"-----BEGIN NATS USER JWT-----".

Definition _parse_decorated_jwt (buf : list Z) : pystr :=
  let text := utf8_replace buf in
  match find_str begin_mark text with
  | Some i => join [] (jwt_lines (splitlines (drop (i + length begin_mark) text)))
  | None => strip text
  end.

Inductive cred_error : Type :=
| CredNotFound | CredToken (e : token_error) | CredNoCompanies | CredNoServer
| CredType       (** the AttributeError or TypeError of a claim of another type *)
| CredOutside.

(** [v.get(key) or {}], on which [get] is called next *)
Definition section_of (v : option pyobj) : cred_error + pydict pyobj :=
  match v with
  | None => inr []
  | Some o => if truthy o then match o with PDict d => inr d | _ => inl CredType end else inr []
  end.

(** [v.get("allow") or []] as the loop iterates it *)
Definition subjects_of (v : option pyobj) : cred_error + list pyobj :=
  match v with
  | None => inr []
  | Some o => if truthy o then match o with
                               | PList l => inr l
                               | PStr s => inr ((fun c => PStr [c]) <$> s)
                               | PDict d => inr (PStr <$> dict_keys d)
                               | _ => inl CredType
                               end
              else inr []
  end.

(** the loop over the allowed subjects: the company ids and the session id *)
Fixpoint scan_subjects (allowed : list pyobj) (company_ids : list pystr) (session_id : pystr)
    : cred_error + (list pystr * pystr) :=
  match allowed with
  | [] => inr (company_ids, session_id)
  | PStr sub :: rest =>
      match extract_session_id_from_eds_subscription sub with
      | [] => match extract_company_id_from_dbchange_subscription sub with
              | [] => scan_subjects rest company_ids session_id
              | company_id => scan_subjects rest (company_ids ++ [company_id]) session_id
              end
      | maybe_session => scan_subjects rest company_ids maybe_session
      end
  | _ :: _ => inl CredType
  end.

(** [claims.get("name", "")], which must be truthy; a name that is no text is
    outside the model *)
Definition server_of (claims : pydict pyobj) : cred_error + pystr :=
  match dict_get (u"name") claims with
  | None => inl CredNoServer
  | Some (PStr (c :: s)) => inr (c :: s)
  | Some o => if truthy o then inl CredOutside else inl CredNoServer
  end.

Definition _decode_user_claims (jwt_token : pystr) : cred_error + pydict pyobj :=
  match token_claims jwt_token with inl e => inl (CredToken e) | inr claims => inr claims end.

(** [None] is a file that does not exist *)
Definition get_nats_creds (creds_file : option (list Z)) : cred_error + CredentialInfo :=
  match creds_file with
  | None => inl CredNotFound
  | Some buf =>
      match _decode_user_claims (_parse_decorated_jwt buf) with
      | inl e => inl e
      | inr claims =>
          match section_of (dict_get (u"nats") claims) with
          | inl e => inl e
          | inr nats_perms =>
              match section_of (dict_get (u"sub") nats_perms) with
              | inl e => inl e
              | inr sub_perms =>
                  match subjects_of (dict_get (u"allow") sub_perms) with
                  | inl e => inl e
                  | inr allowed =>
                      match scan_subjects allowed [] [] with
                      | inl e => inl e
                      | inr ([], _) => inl CredNoCompanies
                      | inr (company_ids, session_id) =>
                          match server_of claims with
                          | inl e => inl e
                          | inr server_id => inr (mk_cred_info company_ids server_id session_id)
                          end
                      end
                  end
              end
          end
      end
  end.

(** ** Reading back *)

Lemma utf8_bytes s : forallb scalar s = true -> forallb is_byte (utf8_encode s) = true.
Proof.
  rewrite !forallb_forall. intros Hs b Hb. apply in_flat_map in Hb as (c & Hc & Hb).
  destruct (utf8_char_bytes c b) as [H _]; [by apply Hs|by apply list_elem_of_In|].
  unfold is_byte. apply andb_true_iff. rewrite Z.leb_le, Z.ltb_lt. lia.
Qed.

Definition urlsafe (s : pystr) : bool := forallb is_urlsafe s.

Lemma urlsafe_elem s c : urlsafe s = true -> c ∈ s -> is_urlsafe c = true.
Proof. unfold urlsafe. rewrite forallb_forall. intros H Hc. by apply H, list_elem_of_In. Qed.

Lemma is_urlsafe_range c : is_urlsafe c = true -> 45 <= c <= 122 /\ c <> 46 /\ c <> 61.
Proof. unfold is_urlsafe, is_alpha, is_lower, is_upper, is_digit. rewrite !orb_true_iff, !andb_true_iff, !Z.eqb_eq, !Z.leb_le. lia. Qed.

Lemma is_byte_range b : is_byte b = true -> 0 <= b < 256.
Proof. unfold is_byte. rewrite andb_true_iff, Z.leb_le, Z.ltb_lt. lia. Qed.

Lemma url_encode_safe bs : forallb is_byte bs = true -> urlsafe (url_encode bs) = true.
Proof.
  unfold urlsafe. induction bs as [|a|a b|a b c r IH] using three_ind; intros Hb; [done|..];
    cbn [forallb] in Hb; rewrite !andb_true_iff in Hb; destruct_and? Hb; cbn [url_encode forallb];
    repeat match goal with H : is_byte _ = true |- _ => apply is_byte_range in H end;
    rewrite !url_char_safe by (Z.to_euclidean_division_equations; lia); [done|done|by rewrite IH].
Qed.

Lemma urlsafe_ascii s : urlsafe s = true -> ascii s = true.
Proof.
  unfold urlsafe, ascii. rewrite !forallb_forall. intros H c Hc. specialize (H c Hc). apply is_urlsafe_range in H.
  apply andb_true_iff. rewrite Z.leb_le, Z.ltb_lt. lia.
Qed.

Lemma b64url_read_back bs : forallb is_byte bs = true -> _b64url_decode (url_encode bs) = Some bs.
Proof.
  intros Hb. unfold _b64url_decode, urlsafe_b64decode.
  assert (forall n, ascii (padding n) = true /\ from_urlsafe <$> padding n = padding n) as Hpad.
  { intros n. unfold padding, repeat_char. rewrite fmap_replicate. split; [|done].
    induction (Z.to_nat (- n mod 4)) as [|k IH]; [done|]. unfold ascii in *. cbn [replicate forallb]. by rewrite IH. }
  destruct (Hpad (Z.of_nat (length (url_encode bs)))) as [H1 H2].
  assert (ascii (url_encode bs ++ padding (Z.of_nat (length (url_encode bs)))) = true) as ->.
  { unfold ascii in *. rewrite forallb_app, H1, andb_true_r. by apply urlsafe_ascii, url_encode_safe. }
  rewrite fmap_app, H2. by apply a2b_url_encode.
Qed.

(** a token with the text of its claims *)
Definition token_of (header text signature : pystr) : pystr :=
  join [46] [header; url_encode (utf8_encode text); signature].

(** [text] is the JSON of [claims], as bytes in UTF-8 *)
Definition claims_text (text : pystr) (claims : pydict pyobj) : Prop :=
  forallb scalar text = true /\ detect_utf8 (utf8_encode text) = Some (utf8_encode text) /\
  json_loads opts_default text = Some (PDict claims).

Lemma token_read_back header text signature claims :
  urlsafe header = true -> urlsafe signature = true -> claims_text text claims ->
  token_claims (token_of header text signature) = inr claims.
Proof.
  intros Hh Hs (Ht & Hd & Hj). unfold token_claims, token_of.
  assert (forall s, urlsafe s = true -> 46 ∉ s) as Hdot.
  { intros s H Hin. pose proof (urlsafe_elem s 46 H Hin) as H46. by apply is_urlsafe_range in H46 as (_ & ? & _). }
  rewrite split_join; [|done|].
  2: { repeat (apply List.Forall_cons; [apply Hdot; try done; by apply url_encode_safe, utf8_bytes|]). apply List.Forall_nil. }
  rewrite b64url_read_back by by apply utf8_bytes. cbn [fmap option_fmap option_map]. unfold loads_bytes. rewrite Hd.
  rewrite utf8_roundtrip by by apply forallb_Forall. cbn [mbind option_bind]. by rewrite Hj.
Qed.

(** what a session may subscribe to *)
Inductive subject : Type :=
| SessionSubject (id : pystr)
| CompanySubject (id : pystr)
| OtherSubject (text : pystr).

Definition subject_text (x : subject) : pystr :=
  match x with
  | SessionSubject id => u"eds.notify." ++ id ++ u".>"
  | CompanySubject id => u"dbchange.*.*." ++ id ++ u".*.PUBLIC.>"
  | OtherSubject text => text
  end.

Definition id_ok (id : pystr) : bool := match id with [] => false | _ => forallb id_char id end.

Definition subject_ok (x : subject) : bool :=
  match x with
  | SessionSubject id | CompanySubject id => id_ok id
  | OtherSubject text => str_eqb (extract_session_id_from_eds_subscription text) [] &&
                         str_eqb (extract_company_id_from_dbchange_subscription text) []
  end.

Definition companies_of (l : list subject) : list pystr :=
  omap (fun x => match x with CompanySubject id => Some id | _ => None end) l.

(** the session id is the last one *)
Definition session_of (first : pystr) (l : list subject) : pystr :=
  foldl (fun acc x => match x with SessionSubject id => id | _ => acc end) first l.

Lemma span_id_dot id r : forallb id_char id = true -> span_id (id ++ 46 :: r) = (id, 46 :: r).
Proof.
  induction id as [|c id IH]; [done|]. cbn [forallb app span_id]. rewrite andb_true_iff. intros [-> H]. by rewrite IH.
Qed.

Lemma id_before_dot_ok id r : id_ok id = true -> id_before_dot (id ++ 46 :: r) = id.
Proof. intros H. unfold id_before_dot. destruct id as [|c id]; [done|]. by rewrite span_id_dot. Qed.

Lemma match_prefix_app p s : match_prefix (Some <$> p) (p ++ s) = Some s.
Proof. induction p as [|c p IH]; [done|]. rewrite fmap_cons. cbn [app match_prefix]. by rewrite Z.eqb_refl. Qed.

Lemma session_extracted id : id_ok id = true -> extract_session_id_from_eds_subscription (subject_text (SessionSubject id)) = id.
Proof.
  intros H. unfold extract_session_id_from_eds_subscription, _first_match, subject_text.
  assert (match_prefix _SESSION_ID_RE (u"eds.notify." ++ id ++ u".>") = Some (id ++ u".>")) as -> by (by destruct id).
  by apply id_before_dot_ok.
Qed.

Lemma company_extracted id : id_ok id = true ->
  extract_session_id_from_eds_subscription (subject_text (CompanySubject id)) = [] /\
  extract_company_id_from_dbchange_subscription (subject_text (CompanySubject id)) = id.
Proof.
  intros H. split; [done|]. unfold extract_company_id_from_dbchange_subscription, _first_match, subject_text, _COMPANY_ID_RE.
  rewrite match_prefix_app. by apply id_before_dot_ok.
Qed.

Lemma scan_subjects_ok l companies session :
  forallb subject_ok l = true ->
  scan_subjects ((fun x => PStr (subject_text x)) <$> l) companies session =
    inr (companies ++ companies_of l, session_of session l).
Proof.
  revert companies session. induction l as [|x l IH]; intros companies session Hl.
  { by rewrite app_nil_r. }
  cbn [forallb] in Hl. apply andb_true_iff in Hl as [Hx Hl]. rewrite fmap_cons. cbn [scan_subjects]. destruct x as [id|id|text].
  - rewrite session_extracted by done. unfold subject_ok in Hx. destruct id as [|c id]; [done|]. by rewrite IH.
  - destruct (company_extracted id Hx) as [-> ->]. unfold subject_ok in Hx. destruct id as [|c id]; [done|].
    rewrite IH by done. change (companies_of (CompanySubject (c :: id) :: l)) with ((c :: id) :: companies_of l).
    by rewrite <- app_assoc.
  - cbn [subject_ok subject_text] in *. apply andb_true_iff in Hx as [H1 H2]. unfold str_eqb in H1, H2.
    apply bool_decide_eq_true_1 in H1, H2. rewrite H1, H2. by rewrite IH.
Qed.

(** the claims of a session *)
Record session_claims (claims : pydict pyobj) (server : pystr) (subjects : list subject) : Prop := {
  sc_server : dict_get (u"name") claims = Some (PStr server);
  sc_subjects : exists nats sub, dict_get (u"nats") claims = Some (PDict nats) /\ dict_get (u"sub") nats = Some (PDict sub) /\
    dict_get (u"allow") sub = Some (PList ((fun x => PStr (subject_text x)) <$> subjects))
}.

(** a decorated file; what follows the token is ignored *)
Definition decorated (token rest : pystr) : pystr :=
  begin_mark ++ nl ++ token ++ nl ++ u"------END NATS USER JWT------" ++ nl ++ rest.

Lemma strip_plain s : forallb (fun c => negb (is_space c)) s = true -> strip s = s.
Proof.
  assert (forall s, forallb (fun c => negb (is_space c)) s = true -> lstrip s = s) as H.
  { intros [|c t] Ht; [done|]. simpl in *. apply andb_true_iff in Ht as [Hc _]. by rewrite negb_true_iff in Hc; rewrite Hc. }
  intros Hs. unfold strip. rewrite (H s), (H (rev s)); [by rewrite rev_involutive| |done].
  rewrite forallb_forall in *. intros c Hc. by apply Hs, in_rev.
Qed.

(** a character of a token breaks no line and is no space *)
Definition token_char (c : Z) : bool := (45 <=? c) && (c <=? 122).

Lemma token_char_plain c : token_char c = true -> is_space c = false /\ is_line_break c = false /\ scalar c = true.
Proof.
  unfold token_char. rewrite andb_true_iff, !Z.leb_le. intros H. unfold is_space, is_line_break, scalar, is_surrogate.
  bool_lia. done.
Qed.

Lemma token_chars header text signature :
  urlsafe header = true -> urlsafe signature = true -> forallb scalar text = true ->
  forallb token_char (token_of header text signature) = true.
Proof.
  intros Hh Hs Ht. assert (forall s, urlsafe s = true -> forallb token_char s = true) as H.
  { intros s. unfold urlsafe. rewrite !forallb_forall. intros H c Hc. specialize (H c Hc). apply is_urlsafe_range in H.
    unfold token_char. apply andb_true_iff. rewrite !Z.leb_le. lia. }
  unfold token_of. cbn [join]. rewrite !forallb_app, (H header), (H signature), (H (url_encode _)); try done.
  by apply url_encode_safe, utf8_bytes.
Qed.

Lemma find_str_zero p s : startswith p s = true -> find_str p s = Some 0%nat.
Proof. intros H. destruct s; cbn [find_str]; by rewrite H. Qed.

Lemma parse_decorated token rest :
  forallb token_char token = true -> startswith (u"-") token = false -> token <> [] -> forallb scalar rest = true ->
  _parse_decorated_jwt (utf8_encode (decorated token rest)) = token.
Proof.
  intros Ht Hd Hne Hr. rewrite forallb_forall in Ht. unfold _parse_decorated_jwt.
  rewrite utf8_replace_encode.
  2: { unfold decorated. rewrite !forallb_app, Hr. assert (forallb scalar token = true) as ->; [|done].
    apply forallb_forall. intros c Hc. by apply token_char_plain, Ht. }
  assert (find_str begin_mark (decorated token rest) = Some 0%nat) as -> by (apply find_str_zero, startswith_app).
  unfold decorated. rewrite Nat.add_0_l, drop_app_length.
  assert (splitlines (nl ++ token ++ nl ++ u"------END NATS USER JWT------" ++ nl ++ rest) =
    [] :: token :: u"------END NATS USER JWT------" :: splitlines_from [] rest) as ->.
  { unfold splitlines. change (nl ++ ?x) with ([] ++ 10 :: x) at 1. rewrite splitlines_line by done. f_equal.
    change (nl ++ ?x) with (10 :: x). rewrite splitlines_line
      by (apply forallb_forall; intros c Hc; apply negb_true_iff; by apply token_char_plain, Ht).
    rewrite app_nil_r, rev_involutive. f_equal. change (nl ++ rest) with (10 :: rest). by rewrite splitlines_line. }
  assert (strip token = token) as Hstrip.
  { apply strip_plain, forallb_forall. intros c Hc. by apply negb_true_iff, token_char_plain, Ht. }
  assert (startswith (u"-----END") token = false /\ startswith (u"------END") token = false) as [H1 H2].
  { destruct token as [|c t]; [done|]. change (u"-") with [45] in Hd. cbn [startswith] in Hd. rewrite andb_true_r in Hd.
    change (u"-----END") with (45 :: u"----END"). change (u"------END") with (45 :: u"-----END"). cbn [startswith].
    by rewrite Hd. }
  cbn [jwt_lines]. rewrite H1, H2, Hstrip. change (strip []) with (@nil Z). by destruct token as [|c t].
Qed.

(** a credentials file that holds a token with the claims of a session is read
    as its companies, in order, its server and its last session; what follows
    the token is ignored. *)
Theorem creds_read_back header text signature rest claims server subjects :
  urlsafe header = true -> startswith (u"-") header = false -> urlsafe signature = true -> forallb scalar rest = true ->
  claims_text text claims -> session_claims claims server subjects ->
  server <> [] -> forallb subject_ok subjects = true -> companies_of subjects <> [] ->
  get_nats_creds (Some (utf8_encode (decorated (token_of header text signature) rest))) =
    inr (mk_cred_info (companies_of subjects) server (session_of [] subjects)).
Proof.
  intros Hh Hd Hs Hr Ht [Hname (nats & sub & Hnats & Hsub & Hallow)] Hserver Hsubj Hne.
  assert (startswith (u"-") (token_of header text signature) = false) as Hdash.
  { unfold token_of. cbn [join]. by destruct header. }
  unfold get_nats_creds, _decode_user_claims. rewrite parse_decorated, (token_read_back _ _ _ claims) by
    first [done | by apply token_chars, Ht | unfold token_of; cbn [join]; by destruct header].
  rewrite Hnats. unfold section_of.
  assert (forall d k v, dict_get k d = Some v -> truthy (PDict d) = true) as Htruthy by (by intros [|]).
  rewrite (Htruthy nats _ _ Hsub), Hsub, (Htruthy sub _ _ Hallow), Hallow. unfold subjects_of.
  assert (truthy (PList ((fun x => PStr (subject_text x)) <$> subjects)) = true) as -> by (by destruct subjects).
  rewrite scan_subjects_ok by done. rewrite app_nil_l. unfold server_of. rewrite Hname.
  destruct (companies_of subjects); [done|]. by destruct server.
Qed.

(** the API address of a key is the issuer of its token, with the address the
    company moved to for the old one *)
Lemma api_url_of_token header text signature claims iss :
  urlsafe header = true -> urlsafe signature = true -> claims_text text claims ->
  dict_get (u"iss") claims = Some (PStr iss) ->
  get_api_url_from_jwt (token_of header text signature) =
    inr (if str_eqb iss (u"https://shopmonkey.io") then u"https://api.shopmonkey.cloud" else iss).
Proof. intros Hh Hs Ht Hi. unfold get_api_url_from_jwt. by rewrite (token_read_back _ _ _ claims), Hi. Qed.

Module CredRun.

Definition allowed : list subject := [SessionSubject (u"5e-0a"); CompanySubject (u"c1f"); OtherSubject (u"_INBOX.>"); CompanySubject (u"c2")].

Definition claims : pydict pyobj :=
  [(u"name", PStr (u"srv")); (u"nats", PDict [(u"sub", PDict [(u"allow", PList ((fun x => PStr (subject_text x)) <$> allowed))])])].

Definition text : pystr := stringify (PDict claims).

Lemma creds_read_back_witness :
  get_nats_creds (Some (utf8_encode (decorated (token_of (u"eyJ0") text (u"x-y_z")) (u"seed")))) =
    inr (mk_cred_info [u"c1f"; u"c2"] (u"srv") (u"5e-0a")).
Proof.
  apply (creds_read_back (u"eyJ0") text (u"x-y_z") (u"seed") claims (u"srv") allowed);
    [reflexivity|reflexivity|reflexivity|reflexivity| | |discriminate|reflexivity|discriminate].
  - split; [vm_compute; reflexivity|]. split; vm_compute; reflexivity.
  - split; [vm_compute; reflexivity|]. do 2 eexists. split; [vm_compute; reflexivity|]. split; vm_compute; reflexivity.
Defined.
End CredRun.
