(* ===== verification/ConsumerConfig.v ===== *)
(** * Consumer configuration: eds/consumer/config.py

    The defaulting rules, the batch threshold, the company id override, the
    durable name, the filter subjects and the earliest export cutoff.
    Durations are integers in one unit of time (the sources use float seconds;
    the constants below are in milliseconds), datetimes are microseconds. *)
From stdpp Require Import base tactics list option numbers sets strings.
From S2P Require Import Prelude PyStr PyDict.

Record ConsumerConfig := mk_consumer_config {
  cc_suffix : pystr;
  cc_company_ids : list pystr;
  cc_max_ack_pending : Z;
  cc_max_pending_buffer : Z;
  cc_driver_max_batch_size : option Z;   (** [None] is no driver *)
  cc_export_table_timestamps : option (pydict (option Z));
  cc_deliver_all : bool;
  cc_heartbeat_interval : Z;
  cc_min_pending_latency : Z;
  cc_max_pending_latency : Z;
  cc_empty_buffer_pause_time : Z
}.

Definition _DEFAULT_MAX_ACK_PENDING : Z := 25000.
Definition _DEFAULT_MAX_PENDING_BUFFER : Z := 4096.
Definition _DEFAULT_HEARTBEAT_INTERVAL : Z := 60000.
Definition _DEFAULT_MIN_PENDING_LATENCY : Z := 2000.
Definition _DEFAULT_MAX_PENDING_LATENCY : Z := 30000.
Definition _DEFAULT_EMPTY_BUFFER_PAUSE : Z := 10.

Definition effective_max_ack_pending (c : ConsumerConfig) : Z :=
  if 0 <? cc_max_ack_pending c then cc_max_ack_pending c else _DEFAULT_MAX_ACK_PENDING.
Definition effective_max_pending_buffer (c : ConsumerConfig) : Z :=
  if 0 <? cc_max_pending_buffer c then cc_max_pending_buffer c else _DEFAULT_MAX_PENDING_BUFFER.
Definition effective_heartbeat_interval (c : ConsumerConfig) : Z :=
  if cc_heartbeat_interval c =? 0 then _DEFAULT_HEARTBEAT_INTERVAL else cc_heartbeat_interval c.
Definition effective_min_pending_latency (c : ConsumerConfig) : Z :=
  if cc_min_pending_latency c =? 0 then _DEFAULT_MIN_PENDING_LATENCY else cc_min_pending_latency c.
Definition effective_max_pending_latency (c : ConsumerConfig) : Z :=
  if cc_max_pending_latency c =? 0 then _DEFAULT_MAX_PENDING_LATENCY else cc_max_pending_latency c.
Definition effective_empty_buffer_pause (c : ConsumerConfig) : Z :=
  if cc_empty_buffer_pause_time c =? 0 then _DEFAULT_EMPTY_BUFFER_PAUSE else cc_empty_buffer_pause_time c.

Definition batch_max (c : ConsumerConfig) : Z :=
  let m := effective_max_ack_pending c in
  match cc_driver_max_batch_size c with
  | Some driver_max => if (0 <? driver_max) && (driver_max <? m) then driver_max else m
  | None => m
  end.

(** [None] is the ValueError *)
Fixpoint validate_loop (override allowed validated : list pystr) : option (list pystr) :=
  match override with
  | [] => match validated with [] => None | _ => Some validated end
  | cid :: rest => if str_in cid allowed then validate_loop rest allowed (validated ++ [cid]) else None
  end.
Definition validate_company_ids (override allowed : list pystr) : option (list pystr) :=
  validate_loop override allowed [].

Definition durable_name (server_id suffix : pystr) : pystr :=
  match suffix with
  | [] => u"eds-" ++ server_id
  | _ => u"eds-" ++ server_id ++ u"-" ++ suffix
  end.

Definition filter_subjects (company_ids : list pystr) : list pystr :=
  (fun cid => u"dbchange.*.*." ++ cid ++ u".*.PUBLIC.>") <$> company_ids.

(** [min(stamps)] *)
Fixpoint min_list (x : Z) (l : list Z) : Z :=
  match l with [] => x | y :: l' => min_list (if y <? x then y else x) l' end.

Definition earliest_timestamp (ts : option (pydict (option Z))) : option Z :=
  match omap snd (default [] ts) with
  | [] => None
  | x :: l => Some (min_list x l)
  end.

(** ** What they promise *)

Lemma validate_loop_spec o allowed acc r :
  validate_loop o allowed acc = Some r <-> Forall (fun c => c ∈ allowed) o /\ r = acc ++ o /\ r <> [].
Proof.
  revert acc. induction o as [|c o IH]; intros acc; simpl.
  - rewrite app_nil_r. destruct acc; split; try done; [by intros (_ & -> & ?)|naive_solver|].
    by intros (_ & -> & _).
  - unfold str_in. case_bool_decide as Hc.
    + rewrite IH, <- app_assoc, Forall_cons. naive_solver.
    + rewrite Forall_cons. naive_solver.
Qed.

Lemma min_list_spec x l : (min_list x l = x \/ min_list x l ∈ l) /\ Forall (Z.le (min_list x l)) (x :: l).
Proof.
  revert x. induction l as [|y l IH]; intros x; simpl.
  { split; [by left|]. repeat constructor. lia. }
  destruct (IH (if y <? x then y else x)) as [H1 H2].
  apply Forall_cons in H2 as [H2 H3]. split.
  - destruct (Z.ltb_spec y x); destruct H1 as [->|?]; set_solver.
  - repeat constructor; [| |done]; destruct (Z.ltb_spec y x); lia.
Qed.

Lemma batch_max_pos c : 0 < batch_max c.
Proof.
  unfold batch_max, effective_max_ack_pending, _DEFAULT_MAX_ACK_PENDING.
  destruct (Z.ltb_spec 0 (cc_max_ack_pending c)), (cc_driver_max_batch_size c) as [d|]; try lia;
    destruct (Z.ltb_spec 0 d); simpl; try lia; case_match; lia.
Qed.

Lemma elem_of_stamps (ts : pydict (option Z)) t : t ∈ omap snd ts <-> Some t ∈ ts.*2.
Proof. rewrite list_elem_of_omap, list_elem_of_fmap. naive_solver. Qed.

Lemma earliest_timestamp_Some ts t :
  earliest_timestamp (Some ts) = Some t <->
  Some t ∈ ts.*2 /\ forall t', Some t' ∈ ts.*2 -> t <= t'.
Proof.
  unfold earliest_timestamp. simpl. setoid_rewrite <- elem_of_stamps.
  destruct (omap snd ts) as [|x l]; [set_solver|].
  destruct (min_list_spec x l) as [H1 H2]. rewrite Forall_forall in H2. split.
  - intros [= <-]. split; [set_solver|]. intros t' Ht'. by apply H2.
  - intros [Ht Hmin]. f_equal. apply Z.le_antisymm; [by apply H2|].
    apply Hmin. set_solver.
Qed.

Lemma earliest_timestamp_None ts :
  earliest_timestamp (Some ts) = None <-> forall t, Some t ∉ ts.*2.
Proof.
  unfold earliest_timestamp. simpl. setoid_rewrite <- elem_of_stamps.
  destruct (omap snd ts) as [|x l]; set_solver.
Qed.

Lemma batch_max_le c :
  batch_max c <= effective_max_ack_pending c /\
  (forall d, cc_driver_max_batch_size c = Some d -> 0 < d -> batch_max c <= d).
Proof.
  unfold batch_max. destruct (cc_driver_max_batch_size c) as [d|]; [|split; [lia|done]].
  destruct (Z.ltb_spec 0 d), (Z.ltb_spec d (effective_max_ack_pending c)); simpl;
    split; try lia; intros d' [= <-]; lia.
Qed.

(** the setup helpers.  The batch threshold is positive, never above the
    effective ack limit nor above a positive limit of the driver; an override
    of company ids is accepted exactly when it is not empty and every id is in
    the credentials, and is then used as given; the earliest cutoff is the
    least of the cutoffs that are set, and is absent exactly when none is. *)
Theorem consumer_setup c override allowed ts :
  0 < batch_max c <= effective_max_ack_pending c /\
  (forall d, cc_driver_max_batch_size c = Some d -> 0 < d -> batch_max c <= d) /\
  (forall r, validate_company_ids override allowed = Some r <->
     r = override /\ override <> [] /\ Forall (fun x => x ∈ allowed) override) /\
  (forall t, earliest_timestamp (Some ts) = Some t <->
     Some t ∈ ts.*2 /\ forall t', Some t' ∈ ts.*2 -> t <= t') /\
  (earliest_timestamp (Some ts) = None <-> forall t, Some t ∉ ts.*2).
Proof.
  destruct (batch_max_le c) as [H1 H2].
  split; [split; [apply batch_max_pos|done]|]. split; [done|]. split; [|split].
  - intros r. unfold validate_company_ids. rewrite validate_loop_spec, app_nil_l. naive_solver.
  - intros t. apply earliest_timestamp_Some.
  - apply earliest_timestamp_None.
Qed.
