(* ===== verification/BatchProcessor.v ===== *)
(** * The per-message state machine: eds/consumer/batch_processor.py

    [BatchProcessor] decides, for every message of the stream, whether it is
    skipped, buffered, flushed with its batch, acknowledged or negatively
    acknowledged.  Its methods run in [M BP bp_exn]: the processor's attributes
    and the effects so far survive an exception.

    The driver, the registry and the validator are the interfaces of
    [Interfaces]; the clock is a function from the number of readings so far;
    whether a message's [ack] / [nak] raises is an attribute of the message.
    [trace] records the externally visible effects in order, so that ordering
    properties (no acknowledgement before a flush) can be stated. *)
From stdpp Require Import base tactics list option numbers sets strings.
From S2P Require Import Prelude PyStr PyDict PyFloat GoJson Schema DbChange Interfaces.

(** ** Messages and effects *)

Record MsgMetadata := mk_meta {
  md_consumer_seq : Z;
  md_stream_seq : Z;
  md_num_delivered : Z;
  md_num_pending : Z
}.

Record Msg := mk_msg {
  m_id : nat;                          (** object identity *)
  m_data : list Z;
  m_meta : option MsgMetadata;         (** [metadata()]; [None] raises *)
  m_meta_again : option MsgMetadata;   (** the second call of [metadata()] *)
  m_ack_ok : bool;                     (** does [ack()] return? *)
  m_nak_ok : bool
}.

Inductive effect : Type :=
| TProcess (m : nat)                        (** the driver took the event of message [m] *)
| TFlush                                    (** [driver.flush] returned *)
| TSkip (m : nat)
| TAck (m : nat) (ok : bool)
| TNak (m : nat) (ok : bool)
| TMigrateTable (table version : pystr)     (** [migrate_new_table] returned *)
| TMigrateColumns (table version : pystr) (cols : list pystr)
| TSetVersion (table version : pystr)
| TDec                                      (** [metrics.pending_events_dec] *)
| TObserve (count : nat).                   (** the flush metrics *)

(** [ConsumerStoppedError], [ConsumerFatalError], an exception that no handler
    catches, and a message outside the model of [from_message] *)
Inductive bp_exn : Type := Stopped | Fatal | Uncaught | Unmodelled.

Record bp_config := mk_bp_config {
  bp_max : Z;
  bp_min_pending_latency : Z;
  bp_max_pending_latency : Z;
  bp_table_timestamps : option (pydict (option Z));   (** datetimes in microseconds *)
  bp_supports_migration : bool;
  bp_has_registry : bool;
  bp_validator : option (DBChangeEvent -> validation)
}.

(** ** Event timestamps

    [datetime.fromtimestamp(ms / 1000, tz=utc)] in microseconds: the float
    quotient, its fraction times 1e6 rounded half to even; [None] is the error
    for a date outside the years 1 to 9999. *)
Definition fromtimestamp_ms (ms : Z) : option Z :=
  let a := Z.abs ms in
  '(m, e2) ← (if a =? 0 then Some (0, 0) else to_binary64 a 1000);
  let '(n, d) := of_binary64 m e2 in
  let ip := n / d in
  let fr := n mod d in
  '(m', e2') ← (if fr =? 0 then Some (0, 0) else to_binary64 (fr * 1000000) d);
  let '(n', d') := of_binary64 m' e2' in
  let us := ip * 1000000 + div_half_even n' d' in
  let us := if ms <? 0 then - us else us in
  if (-62135596800000000 <=? us) && (us <? 253402300800000000) then Some us else None.

(** ** The processor *)

Section BatchProcessor.
Context {D R : Type} `{!Driver D} `{!Registry R}.
Context (cfg : bp_config) (now_at : nat -> Z).

Record BP := mk_bp {
  bp_pending : list Msg;
  bp_pending_started : option Z;
  bp_sequence : Z;
  bp_ticks : nat;          (** readings of the clock so far *)
  bp_driver : D;
  bp_registry : R;
  bp_trace : list effect
}.

Abbreviation BPM A := (M BP bp_exn A).

Definition set_pending (p : list Msg) (s : BP) : BP :=
  mk_bp p (bp_pending_started s) (bp_sequence s) (bp_ticks s) (bp_driver s) (bp_registry s) (bp_trace s).
Definition set_started (t : option Z) (s : BP) : BP :=
  mk_bp (bp_pending s) t (bp_sequence s) (bp_ticks s) (bp_driver s) (bp_registry s) (bp_trace s).
Definition set_sequence (n : Z) (s : BP) : BP :=
  mk_bp (bp_pending s) (bp_pending_started s) n (bp_ticks s) (bp_driver s) (bp_registry s) (bp_trace s).
Definition set_ticks (n : nat) (s : BP) : BP :=
  mk_bp (bp_pending s) (bp_pending_started s) (bp_sequence s) n (bp_driver s) (bp_registry s) (bp_trace s).
Definition set_driver (d : D) (s : BP) : BP :=
  mk_bp (bp_pending s) (bp_pending_started s) (bp_sequence s) (bp_ticks s) d (bp_registry s) (bp_trace s).
Definition set_registry (r : R) (s : BP) : BP :=
  mk_bp (bp_pending s) (bp_pending_started s) (bp_sequence s) (bp_ticks s) (bp_driver s) r (bp_trace s).
Definition set_trace (t : list effect) (s : BP) : BP :=
  mk_bp (bp_pending s) (bp_pending_started s) (bp_sequence s) (bp_ticks s) (bp_driver s) (bp_registry s) t.

Definition emit (e : effect) : BPM unit := modify (fun s => set_trace (bp_trace s ++ [e]) s).

(** [self._now()] *)
Definition now : BPM Z :=
  fun s => (inr (now_at (bp_ticks s)), set_ticks (S (bp_ticks s)) s).

(** calls of the collaborators; the error is returned as a value for the handlers *)
Definition call_driver {A} (f : method D driver_error A) : BPM (driver_error + A) :=
  fun s => let '(r, d) := f (bp_driver s) in (inr r, set_driver d s).
Definition call_registry {A} (f : method R registry_error A) : BPM (registry_error + A) :=
  fun s => let '(r, d) := f (bp_registry s) in (inr r, set_registry d s).

(** *** Acknowledgement *)

Definition nak_one (m : Msg) : BPM unit := emit (TNak (m_id m) (m_nak_ok m)).

Definition nack_everything : BPM unit :=
  pending ← gets bp_pending;
  _ ← for_each nak_one pending;
  _ ← modify (set_pending []);
  modify (set_started None).

Definition _handle_error {A} : BPM A :=
  _ ← nack_everything;
  raise Fatal.

(** a failed ack of a skipped message is only logged *)
Definition _ack (m : Msg) : BPM unit := emit (TAck (m_id m) (m_ack_ok m)).

Fixpoint remove_msg (i : nat) (l : list Msg) : list Msg :=
  match l with
  | [] => []
  | m :: l' => if (m_id m =? i)%nat then l' else m :: remove_msg i l'
  end.
Definition _remove_from_pending (m : Msg) : BPM unit :=
  modify (fun s => set_pending (remove_msg (m_id m) (bp_pending s)) s).

(** *** Flush *)

(** [try: await m.ack() except: dec; nack_everything; raise ConsumerStoppedError] *)
Definition ack_one (m : Msg) : BPM unit :=
  _ ← emit (TAck (m_id m) (m_ack_ok m));
  _ ← emit TDec;
  if m_ack_ok m then mret tt
  else _ ← nack_everything; raise Stopped.

Definition flush : BPM unit :=
  started ← now;
  r ← call_driver drv_flush;
  match r with
  | inl DriverStopped => _ ← nack_everything; raise Stopped
  | inl DriverFailed => _handle_error
  | inr _ =>
      _ ← emit TFlush;
      pending ← gets bp_pending;
      _ ← for_each ack_one pending;
      ps ← gets bp_pending_started;
      _ ← match ps with Some _ => _ ← now; mret tt | None => mret tt end;
      _ ← now;
      _ ← emit (TObserve (length pending));
      _ ← modify (set_pending []);
      modify (set_started None)
  end.

(** *** Skipping *)

(** before the cutoff of its table; [None] is the uncaught date error *)
Definition before_cutoff (evt : DBChangeEvent) : option bool :=
  match bp_table_timestamps cfg ≫= dict_get (ev_table evt) with
  | Some (Some cutoff) =>
      event_ts ← fromtimestamp_ms (ev_timestamp evt);
      Some (event_ts <? cutoff)
  | _ => Some false
  end.

Definition set_path (p : pystr) (e : DBChangeEvent) : DBChangeEvent :=
  mk_event (ev_operation e) (ev_id e) (ev_table e) (ev_key e) (ev_model_version e)
    (ev_company_id e) (ev_location_id e) (ev_user_id e) (ev_before e) (ev_after e) (ev_diff e)
    (ev_timestamp e) (ev_mvcc_timestamp e) (ev_imported e) (Some p) (ev_object e).

(** the decision and the event with its validated path *)
Definition should_skip (evt : DBChangeEvent) : option (bool * DBChangeEvent) :=
  cut ← before_cutoff evt;
  if cut : bool then Some (true, evt)
  else match bp_validator cfg with
       | None => Some (false, evt)
       | Some validate =>
           Some (match validate evt with
                 | VMismatch | VFailed => (true, evt)
                 | VResult found valid path =>
                     if negb found then (true, evt)
                     else if negb valid then (true, evt)
                     else match path with [] => (false, evt) | _ => (false, set_path path evt) end
                 end)
       end.

(** *** Migration *)

Definition set_diff (d : list pystr) (e : DBChangeEvent) : DBChangeEvent :=
  mk_event (ev_operation e) (ev_id e) (ev_table e) (ev_key e) (ev_model_version e)
    (ev_company_id e) (ev_location_id e) (ev_user_id e) (ev_before e) (ev_after e) (Some d)
    (ev_timestamp e) (ev_mvcc_timestamp e) (ev_imported e) (ev_schema_validated_path e) (ev_object e).

(** [for col in columns: if col not in diff: diff.append(col)] *)
Definition extend_diff (d cols : list pystr) : list pystr :=
  foldl (fun d col => if str_in col d then d else d ++ [col]) d cols.

(** [call f; on an error take the handler of the caller] *)
Definition try_registry {A} (f : method R registry_error A) (k : A -> BPM (option (bool * DBChangeEvent))) :
    BPM (option (bool * DBChangeEvent)) :=
  r ← call_registry f;
  match r with inl _ => mret None | inr a => k a end.
Definition try_driver (f : method D driver_error unit) (k : BPM (option (bool * DBChangeEvent))) :
    BPM (option (bool * DBChangeEvent)) :=
  r ← call_driver f;
  match r with inl _ => mret None | inr _ => k end.

(** [None] is a raised exception; otherwise the forced flush and the event *)
Definition handle_possible_migration (evt : DBChangeEvent) : BPM (option (bool * DBChangeEvent)) :=
  if negb (bp_has_registry cfg) then mret None
  else
    let table := ev_table evt in
    let mv := ev_model_version evt in
    try_registry (reg_get_table_version table) (fun '(found, version) =>
    if (found : bool) && str_eqb version mv then mret (Some (false, evt))
    else
      try_registry (reg_get_schema table mv) (fun newschema =>
      if negb found then
        try_driver (drv_migrate_new_table newschema) (
        _ ← emit (TMigrateTable table mv);
        try_registry (reg_set_table_version table mv) (fun _ =>
        _ ← emit (TSetVersion table mv);
        mret (Some (true, evt))))
      else
        try_registry (reg_get_schema table version) (fun oldschema =>
        let old_cols := schema_columns oldschema in
        match filter (fun c => c ∉ old_cols) (schema_columns newschema) with
        | [] => mret (Some (false, evt))
        | columns =>
            try_driver (drv_migrate_new_columns newschema columns) (
            _ ← emit (TMigrateColumns table mv columns);
            try_registry (reg_set_table_version table mv) (fun _ =>
            _ ← emit (TSetVersion table mv);
            mret (Some (true, set_diff (extend_diff (default [] (ev_diff evt)) columns) evt))))
        end))).

(** *** Dropping unknown properties *)

(** [json_diff(obj, found)] *)
Definition json_diff (obj : pydict pyobj) (found : list pystr) : list pystr :=
  filter (fun k => k ∉ found) (dict_keys obj).

(** [None] is a raised exception *)
Definition drop_unknown (evt : DBChangeEvent) : BPM (option DBChangeEvent) :=
  if str_eqb (ev_operation evt) (u"DELETE") || negb (bp_has_registry cfg) then mret (Some evt)
  else
    r ← call_registry (reg_get_schema (ev_table evt) (ev_model_version evt));
    match r with
    | inl _ => mret None
    | inr schema =>
        match get_object evt with
        | (inl _, _) => mret None
        | (inr None, evt') => mret (Some evt')
        | (inr (Some obj), evt') =>
            match json_diff obj (schema_columns schema) with
            | [] => mret (Some evt')
            | diff => mret (Some (omit_properties diff evt').2)
            end
        end
    end.

(** *** One message *)

(** flush trigger 2: the catch-up bypass, then the maximal latency *)
Definition latency_flush (msg : Msg) : BPM unit :=
  ps ← gets bp_pending_started;
  _ ← match ps with
      | None => t ← now; modify (set_started (Some t))
      | Some _ => mret tt
      end;
  ps ← gets bp_pending_started;
  let started := default 0 ps in
  let num_pending := match m_meta_again msg with Some md => md_num_pending md | None => 0 end in
  bypass ← (if bp_max cfg <? num_pending
            then t ← now; mret (t - started <? bp_max_pending_latency cfg * 2)
            else mret false);
  if bypass : bool then mret tt
  else
    pending ← gets bp_pending;
    late ← (if bp_max cfg <=? Z.of_nat (length pending) then mret true
            else t ← now; mret (bp_max_pending_latency cfg <=? t - started));
    if late : bool then _ ← now; flush   (** the trace log reads the clock once more *)
    else mret tt.

(** the event once it is not skipped: migrate, drop unknown properties,
    process, maybe flush *)
Definition handle_event (msg : Msg) (evt : DBChangeEvent) : BPM unit :=
  mig ← (if bp_supports_migration cfg then handle_possible_migration evt
         else mret (Some (false, evt)));
  '(force_flush, evt) ← match mig with None => _handle_error | Some p => mret p end;
  dropped ← drop_unknown evt;
  evt ← match dropped with None => _handle_error | Some e => mret e end;
  r ← call_driver (drv_process evt);
  flush_now ← match r with
              | inl _ => _ ← emit TDec; _handle_error
              | inr b => _ ← emit (TProcess (m_id msg)); mret b
              end;
  pending ← gets bp_pending;
  if flush_now || (bp_max cfg <=? Z.of_nat (length pending)) || force_flush then flush
  else latency_flush msg.

Definition process_message (msg : Msg) : BPM unit :=
  match m_meta msg with
  | None => _ ← emit TDec; _handle_error
  | Some m =>
      _ ← modify (fun s => set_pending (bp_pending s ++ [msg]) s);
      seq ← gets bp_sequence;
      _ ← (if md_consumer_seq m =? seq + 1 then mret tt
           else _ ← emit TDec; _handle_error);
      _ ← modify (set_sequence (md_consumer_seq m));
      match from_message (m_data msg) with
      | FMOutside => raise Unmodelled
      | FMError _ => _ ← emit TDec; _handle_error
      | FMOk evt =>
          match should_skip evt with
          | None => raise Uncaught
          | Some (true, _) =>
              _ ← emit (TSkip (m_id msg));
              _ ← _ack msg;
              _ ← _remove_from_pending msg;
              emit TDec
          | Some (false, evt) => handle_event msg evt
          end
      end
  end.

Definition on_idle : BPM unit :=
  pending ← gets bp_pending;
  ps ← gets bp_pending_started;
  match ps with
  | Some started =>
      if (0 <? Z.of_nat (length pending)) && (Z.of_nat (length pending) <? bp_max cfg) then
        t ← now;
        if bp_min_pending_latency cfg <=? t - started then flush else mret tt
      else mret tt
  | None => mret tt
  end.

(** ** The outcomes of a flush *)

Definition naks (l : list Msg) : list effect := (fun m => TNak (m_id m) (m_nak_ok m)) <$> l.
Definition acks (l : list Msg) : list effect :=
  flat_map (fun m => [TAck (m_id m) (m_ack_ok m); TDec]) l.

(** the batch is empty and its clock is reset *)
Definition cleared (s s' : BP) : Prop :=
  bp_pending s' = [] /\ bp_pending_started s' = None /\ bp_sequence s' = bp_sequence s.

Inductive flush_outcome (s : BP) : bp_exn + unit -> BP -> Prop :=
| FlushAcked s' :
    Forall (fun m => m_ack_ok m = true) (bp_pending s) -> cleared s s' ->
    bp_trace s' = bp_trace s ++ TFlush :: acks (bp_pending s) ++ [TObserve (length (bp_pending s))] ->
    flush_outcome s (inr tt) s'
| FlushDriverError e s' :
    e = Stopped \/ e = Fatal -> cleared s s' ->
    bp_trace s' = bp_trace s ++ naks (bp_pending s) ->
    flush_outcome s (inl e) s'
| FlushAckFailed l1 m l2 s' :
    bp_pending s = l1 ++ m :: l2 -> Forall (fun m => m_ack_ok m = true) l1 -> m_ack_ok m = false ->
    cleared s s' ->
    bp_trace s' = bp_trace s ++ TFlush :: acks (l1 ++ [m]) ++ naks (bp_pending s) ->
    flush_outcome s (inl Stopped) s'.

Lemma nak_loop l s :
  for_each nak_one l s = (inr tt, set_trace (bp_trace s ++ naks l) s).
Proof.
  revert s. induction l as [|m l IH]; intros s; simpl.
  - rewrite app_nil_r. by destruct s.
  - erewrite bind_inr by done. rewrite IH. simpl. by rewrite <- app_assoc.
Qed.

Lemma nack_everything_eq s :
  nack_everything s =
  (inr tt, set_started None (set_pending [] (set_trace (bp_trace s ++ naks (bp_pending s)) s))).
Proof.
  unfold nack_everything. erewrite bind_inr by done. erewrite bind_inr by apply nak_loop. done.
Qed.

Lemma handle_error_eq {A} s :
  @_handle_error A s =
  (inl Fatal, set_started None (set_pending [] (set_trace (bp_trace s ++ naks (bp_pending s)) s))).
Proof. unfold _handle_error. erewrite bind_inr by apply nack_everything_eq. done. Qed.

Lemma ack_one_ok m s :
  m_ack_ok m = true ->
  ack_one m s = (inr tt, set_trace (bp_trace s ++ [TAck (m_id m) true; TDec]) s).
Proof.
  intros E. unfold ack_one. erewrite bind_inr by done. erewrite bind_inr by done. rewrite E.
  unfold mret, M_ret, set_trace. simpl. by rewrite <- app_assoc.
Qed.

Lemma ack_one_fail m s :
  m_ack_ok m = false ->
  ack_one m s = (inl Stopped, set_started None (set_pending []
    (set_trace (bp_trace s ++ [TAck (m_id m) false; TDec] ++ naks (bp_pending s)) s))).
Proof.
  intros E. unfold ack_one. erewrite bind_inr by done. erewrite bind_inr by done. rewrite E.
  erewrite bind_inr by apply nack_everything_eq.
  unfold raise, set_trace, set_started, set_pending. simpl. by rewrite <- !app_assoc.
Qed.

(** The acks of a batch: all of them, or up to the first that fails, after
    which everything is nak'd. *)
Lemma ack_loop l s :
  (Forall (fun m => m_ack_ok m = true) l /\
   for_each ack_one l s = (inr tt, set_trace (bp_trace s ++ acks l) s)) \/
  (exists l1 m l2, l = l1 ++ m :: l2 /\ Forall (fun m => m_ack_ok m = true) l1 /\
     m_ack_ok m = false /\
     for_each ack_one l s =
     (inl Stopped, set_started None (set_pending []
        (set_trace (bp_trace s ++ acks (l1 ++ [m]) ++ naks (bp_pending s)) s)))).
Proof.
  revert s. induction l as [|m l IH]; intros s; simpl.
  { left. split; [done|]. rewrite app_nil_r. by destruct s. }
  destruct (m_ack_ok m) eqn:E.
  - erewrite bind_inr by by apply ack_one_ok.
    destruct (IH (set_trace (bp_trace s ++ [TAck (m_id m) true; TDec]) s))
      as [[Hl Heq]|(l1 & m' & l2 & -> & H1 & H2 & Heq)]; rewrite Heq; unfold set_trace; simpl.
    + left. split; [by constructor|]. by rewrite <- app_assoc.
    + right. exists (m :: l1), m', l2. split_and!; [done|by constructor|done|].
      simpl. by rewrite E, <- !app_assoc.
  - right. exists [], m, l. split_and!; [done|done|done|].
    erewrite bind_inl by by apply ack_one_fail. simpl. by rewrite E.
Qed.

Lemma call_driver_eq {A} (f : method D driver_error A) s r d :
  f (bp_driver s) = (r, d) -> call_driver f s = (inr r, set_driver d s).
Proof. intros E. unfold call_driver. by rewrite E. Qed.

Lemma call_registry_eq {A} (f : method R registry_error A) s r d :
  f (bp_registry s) = (r, d) -> call_registry f s = (inr r, set_registry d s).
Proof. intros E. unfold call_registry. by rewrite E. Qed.

Lemma flush_outcomes s : flush_outcome s (flush s).1 (flush s).2.
Proof.
  unfold flush. erewrite bind_inr by done. destruct (drv_flush (bp_driver s)) as [r d] eqn:Ed.
  erewrite bind_inr by by apply call_driver_eq.
  destruct r as [[]|[]].
  - erewrite bind_inr by apply nack_everything_eq. by apply FlushDriverError; [left| |].
  - rewrite handle_error_eq. by apply FlushDriverError; [right| |].
  - erewrite bind_inr by done. erewrite bind_inr by done.
    set (s1 := set_trace _ _). assert (bp_pending s1 = bp_pending s) as Hp by done.
    destruct (ack_loop (bp_pending s1) s1) as [[Hl Heq]|(l1 & m & l2 & Hl & H1 & H2 & Heq)].
    + erewrite bind_inr by done. erewrite bind_inr by done.
      assert (exists s2, (match bp_pending_started (set_trace (bp_trace s1 ++ acks (bp_pending s1)) s1) with
          | Some _ => _ ← now; mret tt | None => mret tt end)
          (set_trace (bp_trace s1 ++ acks (bp_pending s1)) s1) = (inr tt, s2) /\
          bp_pending s2 = bp_pending s1 /\ bp_sequence s2 = bp_sequence s1 /\
          bp_trace s2 = bp_trace s1 ++ acks (bp_pending s1)) as (s2 & E2 & P2 & Q2 & T2).
      { destruct (bp_pending_started _); eexists; split_and!; done. }
      erewrite bind_inr by done. erewrite bind_inr by done. erewrite bind_inr by done.
      erewrite bind_inr by done. simpl.
      apply FlushAcked; [done|done|]. simpl. rewrite T2. simpl. by rewrite <- !app_assoc.
    + erewrite bind_inl by done. simpl.
      apply (FlushAckFailed s l1 m l2); try done. simpl. by rewrite <- !app_assoc.
Qed.

(** ** Steps that only add benign effects *)

Definition benign (e : effect) : Prop :=
  match e with
  | TMigrateTable _ _ | TMigrateColumns _ _ _ | TSetVersion _ _ | TDec => True
  | _ => False
  end.

Definition quiet (s s' : BP) : Prop :=
  bp_pending s' = bp_pending s /\ bp_pending_started s' = bp_pending_started s /\
  bp_sequence s' = bp_sequence s /\
  exists l, bp_trace s' = bp_trace s ++ l /\ Forall benign l.

(** a computation that always returns and is quiet *)
Definition gentle {A} (m : BPM A) : Prop := forall s, exists a s', m s = (inr a, s') /\ quiet s s'.

Lemma quiet_same s s' :
  bp_pending s' = bp_pending s -> bp_pending_started s' = bp_pending_started s ->
  bp_sequence s' = bp_sequence s -> bp_trace s' = bp_trace s -> quiet s s'.
Proof. intros ? ? ? Ht. split_and!; try done. exists []. by rewrite Ht, app_nil_r. Qed.

Lemma quiet_trans s1 s2 s3 : quiet s1 s2 -> quiet s2 s3 -> quiet s1 s3.
Proof.
  intros (P1 & S1 & Q1 & l1 & T1 & B1) (P2 & S2 & Q2 & l2 & T2 & B2).
  split_and!; [congruence..|]. exists (l1 ++ l2). split; [|by apply Forall_app].
  by rewrite T2, T1, <- app_assoc.
Qed.

Lemma gentle_ret {A} (a : A) : gentle (mret a).
Proof. intros s. exists a, s. split; [done|]. by apply quiet_same. Qed.

Lemma gentle_bind {A B} (m : BPM A) (f : A -> BPM B) :
  gentle m -> (forall a, gentle (f a)) -> gentle (m ≫= f).
Proof.
  intros Hm Hf s. destruct (Hm s) as (a & s1 & E1 & Q1). destruct (Hf a s1) as (b & s2 & E2 & Q2).
  exists b, s2. split; [|by eapply quiet_trans].
  rewrite <- E2. by apply (bind_inr m f s a s1).
Qed.

Lemma gentle_emit e : benign e -> gentle (emit e).
Proof. intros He s. eexists _, _. split; [done|]. split_and!; try done. exists [e]. auto. Qed.

Lemma gentle_call_driver {A} (f : method D driver_error A) : gentle (call_driver f).
Proof.
  intros s. destruct (f (bp_driver s)) as [r d] eqn:E. exists r, (set_driver d s).
  split; [by apply call_driver_eq|by apply quiet_same].
Qed.

Lemma gentle_call_registry {A} (f : method R registry_error A) : gentle (call_registry f).
Proof.
  intros s. destruct (f (bp_registry s)) as [r d] eqn:E. exists r, (set_registry d s).
  split; [by apply call_registry_eq|by apply quiet_same].
Qed.

Lemma gentle_try_registry {A} (f : method R registry_error A) k :
  (forall a, gentle (k a)) -> gentle (try_registry f k).
Proof.
  intros Hk. apply gentle_bind; [apply gentle_call_registry|].
  intros [|a]; [apply gentle_ret|apply Hk].
Qed.

Lemma gentle_try_driver f k : gentle k -> gentle (try_driver f k).
Proof.
  intros Hk. apply gentle_bind; [apply gentle_call_driver|].
  intros [|a]; [apply gentle_ret|apply Hk].
Qed.

Lemma gentle_migration evt : gentle (handle_possible_migration evt).
Proof.
  unfold handle_possible_migration. destruct (negb _); [apply gentle_ret|].
  apply gentle_try_registry. intros [found version].
  destruct (found && _); [apply gentle_ret|].
  apply gentle_try_registry. intros newschema. destruct (negb found).
  - apply gentle_try_driver, gentle_bind; [by apply gentle_emit|]. intros _.
    apply gentle_try_registry. intros _. apply gentle_bind; [by apply gentle_emit|].
    intros _. apply gentle_ret.
  - apply gentle_try_registry. intros oldschema.
    destruct (filter _ (schema_columns newschema)) as [|c cols]; [apply gentle_ret|].
    apply gentle_try_driver, gentle_bind; [by apply gentle_emit|]. intros _.
    apply gentle_try_registry. intros _. apply gentle_bind; [by apply gentle_emit|].
    intros _. apply gentle_ret.
Qed.

Lemma gentle_drop_unknown evt : gentle (drop_unknown evt).
Proof.
  unfold drop_unknown. destruct (_ || _); [apply gentle_ret|].
  apply gentle_bind; [apply gentle_call_registry|]. intros [|schema]; [apply gentle_ret|].
  destruct (get_object evt) as [[|[obj|]] evt']; try apply gentle_ret.
  destruct (json_diff _ _); apply gentle_ret.
Qed.

(** ** The outcomes of a message *)

Inductive message_outcome (s : BP) (msg : Msg) : bp_exn + unit -> BP -> Prop :=
| NoMetadata s' :
    m_meta msg = None -> cleared s s' ->
    bp_trace s' = bp_trace s ++ TDec :: naks (bp_pending s) ->
    message_outcome s msg (inl Fatal) s'
| OutOfOrder m s' :
    m_meta msg = Some m -> md_consumer_seq m <> bp_sequence s + 1 -> cleared s s' ->
    bp_trace s' = bp_trace s ++ TDec :: naks (bp_pending s ++ [msg]) ->
    message_outcome s msg (inl Fatal) s'
| Escaped m e s' :
    m_meta msg = Some m -> md_consumer_seq m = bp_sequence s + 1 ->
    e = Uncaught \/ e = Unmodelled ->
    bp_pending s' = bp_pending s ++ [msg] -> bp_trace s' = bp_trace s ->
    message_outcome s msg (inl e) s'
| Skipped m s' :
    m_meta msg = Some m -> md_consumer_seq m = bp_sequence s + 1 ->
    bp_sequence s' = md_consumer_seq m ->
    bp_pending s' = remove_msg (m_id msg) (bp_pending s ++ [msg]) ->
    bp_pending_started s' = bp_pending_started s ->
    bp_trace s' = bp_trace s ++ [TSkip (m_id msg); TAck (m_id msg) (m_ack_ok msg); TDec] ->
    message_outcome s msg (inr tt) s'
| Rejected m l s' :
    m_meta msg = Some m -> md_consumer_seq m = bp_sequence s + 1 ->
    bp_sequence s' = md_consumer_seq m -> bp_pending s' = [] -> bp_pending_started s' = None ->
    Forall benign l -> bp_trace s' = bp_trace s ++ l ++ naks (bp_pending s ++ [msg]) ->
    message_outcome s msg (inl Fatal) s'
| Buffered m l t s' :
    m_meta msg = Some m -> md_consumer_seq m = bp_sequence s + 1 ->
    bp_sequence s' = md_consumer_seq m -> bp_pending s' = bp_pending s ++ [msg] ->
    Z.of_nat (length (bp_pending s')) < bp_max cfg ->
    bp_pending_started s' = Some t -> (forall t0, bp_pending_started s = Some t0 -> t = t0) ->
    Forall benign l -> bp_trace s' = bp_trace s ++ l ++ [TProcess (m_id msg)] ->
    message_outcome s msg (inr tt) s'
| Flushed m l s1 r s' :
    m_meta msg = Some m -> md_consumer_seq m = bp_sequence s + 1 ->
    bp_sequence s1 = md_consumer_seq m -> bp_pending s1 = bp_pending s ++ [msg] ->
    Forall benign l -> bp_trace s1 = bp_trace s ++ l ++ [TProcess (m_id msg)] ->
    flush_outcome s1 r s' ->
    message_outcome s msg r s'.

(** what [latency_flush] does to a batch whose messages are all processed *)
Lemma latency_flush_outcome msg s :
  Z.of_nat (length (bp_pending s)) < bp_max cfg ->
  (exists t s', latency_flush msg s = (inr tt, s') /\ bp_pending s' = bp_pending s /\
     bp_sequence s' = bp_sequence s /\ bp_trace s' = bp_trace s /\
     bp_pending_started s' = Some t /\ (forall t0, bp_pending_started s = Some t0 -> t = t0)) \/
  (exists s1, latency_flush msg s = flush s1 /\ bp_pending s1 = bp_pending s /\
     bp_sequence s1 = bp_sequence s /\ bp_trace s1 = bp_trace s).
Proof.
  intros Hlen. unfold latency_flush. erewrite bind_inr by done.
  assert (exists t s1, (match bp_pending_started s with
      | None => t ← now; modify (set_started (Some t)) | Some _ => mret tt end) s = (inr tt, s1) /\
      bp_pending s1 = bp_pending s /\ bp_sequence s1 = bp_sequence s /\ bp_trace s1 = bp_trace s /\
      bp_pending_started s1 = Some t /\ (forall t0, bp_pending_started s = Some t0 -> t = t0))
    as (t & s1 & E1 & P1 & Q1 & T1 & S1 & K1).
  { destruct (bp_pending_started s) as [t0|] eqn:Es.
    - exists t0, s. split_and!; try done. by intros ? [= <-].
    - eexists _, _. split; [done|]. split_and!; done. }
  erewrite bind_inr by done. erewrite bind_inr by done. rewrite S1. cbn [default].
  set (np := match m_meta_again msg with Some md => _ | None => 0 end).
  assert (exists b s2, (if bp_max cfg <? np then t0 ← now; mret (t0 - default 0 (Some t) <? bp_max_pending_latency cfg * 2)
      else mret false) s1 = (inr b, s2) /\ bp_pending s2 = bp_pending s1 /\
      bp_sequence s2 = bp_sequence s1 /\ bp_trace s2 = bp_trace s1 /\
      bp_pending_started s2 = bp_pending_started s1) as (b & s2 & E2 & P2 & Q2 & T2 & S2).
  { destruct (bp_max cfg <? np); eexists _, _; (split; [done|]); split_and!; done. }
  erewrite bind_inr by done. destruct b.
  { left. exists t, s2. split_and!; first [done|congruence]. }
  erewrite bind_inr by done. rewrite P2, P1. destruct (Z.leb_spec (bp_max cfg) (Z.of_nat (length (bp_pending s)))); [lia|].
  erewrite (bind_inr _ _ s2) by done.
  destruct (_ <=? _).
  - right. eexists. split; [by erewrite bind_inr|]. simpl. split_and!; congruence.
  - left. eexists t, _. split; [done|]. simpl. split_and!; first [done|congruence].
Qed.

(** the state in which an in-order message has been appended *)
Definition appended (s : BP) (msg : Msg) (m : MsgMetadata) : BP :=
  set_sequence (md_consumer_seq m) (set_pending (bp_pending s ++ [msg]) s).

Section in_order.
Context (s : BP) (msg : Msg) (m : MsgMetadata).
Context (Hm : m_meta msg = Some m) (Hseq : md_consumer_seq m = bp_sequence s + 1).
Notation s0 := (appended s msg m).

(** an error after quiet steps rejects the message with its batch *)
Lemma rejected s1 {A} :
  quiet s0 s1 ->
  message_outcome s msg (inl Fatal) (@_handle_error A s1).2.
Proof.
  intros (P & S & Q & l & T & B). rewrite handle_error_eq.
  apply (Rejected s msg m l); try done. simpl. rewrite P, T. simpl. by rewrite <- app_assoc.
Qed.

Lemma processed_outcome s1 force (b : bool) :
  quiet s0 s1 ->
  let r := (_ ← emit (TProcess (m_id msg));
            pending ← gets bp_pending;
            if b || (bp_max cfg <=? Z.of_nat (length pending)) || force then flush
            else latency_flush msg) s1 in
  message_outcome s msg r.1 r.2.
Proof.
  intros (P & S & Q & l & T & B) r. subst r.
  erewrite bind_inr by done. erewrite bind_inr by done. set (s2 := set_trace _ _).
  assert (bp_trace s2 = bp_trace s ++ l ++ [TProcess (m_id msg)]) as T2.
  { simpl. rewrite T. simpl. by rewrite <- app_assoc. }
  assert (bp_pending s2 = bp_pending s ++ [msg]) as P2 by done.
  assert (bp_sequence s2 = md_consumer_seq m) as Q2 by exact Q.
  destruct (b || _ || force) eqn:E.
  - eapply (Flushed s msg m l s2); try done. apply flush_outcomes.
  - bool_prop. destruct (latency_flush_outcome msg s2) as [(t & s3 & -> & P3 & Q3 & T3 & S3 & K3)|(s3 & -> & P3 & Q3 & T3)];
      [done| |].
    + cbn [fst snd]. apply (Buffered s msg m l t); try done; try congruence.
      intros t0 Ht0. apply K3. simpl. by rewrite S.
    + eapply (Flushed s msg m l s3); try done; try congruence. apply flush_outcomes.
Qed.

Lemma handle_event_outcome evt :
  message_outcome s msg (handle_event msg evt s0).1 (handle_event msg evt s0).2.
Proof.
  unfold handle_event.
  assert (gentle (if bp_supports_migration cfg then handle_possible_migration evt
                  else mret (Some (false, evt)))) as G1.
  { destruct (bp_supports_migration cfg); [apply gentle_migration|apply gentle_ret]. }
  destruct (G1 s0) as (mig & s1 & E1 & Q1). erewrite bind_inr by done.
  destruct mig as [[force evt1]|].
  2: { erewrite bind_inl by apply handle_error_eq. simpl.
       pose proof (rejected s1 (A := bool * DBChangeEvent) Q1) as H. by rewrite handle_error_eq in H. }
  erewrite bind_inr by done. destruct (gentle_drop_unknown evt1 s1) as (dr & s2 & E2 & Q2).
  erewrite bind_inr by done. pose proof (quiet_trans _ _ _ Q1 Q2) as Q12.
  destruct dr as [evt2|].
  2: { erewrite bind_inl by apply handle_error_eq. simpl.
       pose proof (rejected s2 (A := DBChangeEvent) Q12) as H. by rewrite handle_error_eq in H. }
  erewrite bind_inr by done.
  destruct (gentle_call_driver (drv_process evt2) s2) as (r & s3 & E3 & Q3).
  erewrite bind_inr by done. pose proof (quiet_trans _ _ _ Q12 Q3) as Q13.
  destruct r as [err|b].
  - destruct (gentle_emit TDec I s3) as (? & s4 & E4 & Q4).
    erewrite bind_inl.
    2: { erewrite bind_inr by done. apply handle_error_eq. }
    simpl. pose proof (rejected s4 (A := bool) (quiet_trans _ _ _ Q13 Q4)) as H.
    by rewrite handle_error_eq in H.
  - pose proof (processed_outcome s3 force b Q13) as H.
    erewrite bind_inr in H by done. erewrite bind_inr by done. exact H.
Qed.
End in_order.

Lemma remove_appended (i : nat) l m : m_id m = i -> remove_msg i (l ++ [m]) = remove_msg i l ++ (if decide (i ∈ m_id <$> l) then [m] else []).
Proof.
  intros E. induction l as [|x l IH]; simpl.
  - by rewrite E, Nat.eqb_refl.
  - destruct (Nat.eqb_spec (m_id x) i) as [Hx|Hx].
    + rewrite decide_True by set_solver. done.
    + rewrite IH. simpl. by repeat case_decide; set_solver.
Qed.

Lemma message_outcomes s msg :
  message_outcome s msg (process_message msg s).1 (process_message msg s).2.
Proof.
  unfold process_message. destruct (m_meta msg) as [m|] eqn:Hm.
  2: { erewrite bind_inr by done. rewrite handle_error_eq.
       apply NoMetadata; [done|done|]. simpl. by rewrite <- app_assoc. }
  erewrite bind_inr by done. erewrite bind_inr by done.
  cbn [bp_sequence set_pending]. destruct (Z.eqb_spec (md_consumer_seq m) (bp_sequence s + 1)) as [Hs|Hs].
  2: { erewrite bind_inl.
       2: { erewrite bind_inr by done. apply handle_error_eq. }
       simpl. apply (OutOfOrder s msg m); try done. simpl. by rewrite <- app_assoc. }
  erewrite bind_inr by done. erewrite bind_inr by done.
  change (set_sequence _ _) with (appended s msg m).
  destruct (from_message (m_data msg)) as [evt| |].
  - destruct (should_skip evt) as [[[] evt']|].
    + erewrite bind_inr by done. erewrite bind_inr by done. erewrite bind_inr by done. simpl.
      apply (Skipped s msg m); try done. simpl. by rewrite <- !app_assoc.
    + by apply handle_event_outcome.
    + by apply (Escaped s msg m); [..|left| |].
  - erewrite bind_inr by done. destruct (gentle_emit TDec I (appended s msg m)) as (? & s1 & E1 & Q1).
    injection E1 as <- <-. pose proof (rejected s msg m Hm Hs _ (A := unit) Q1) as H.
    rewrite handle_error_eq in *. exact H.
  - by apply (Escaped s msg m); [..|right| |].
Qed.
(** C4: [process_message] refines the table of outcomes: every message is
    rejected for missing metadata, for a sequence gap, for an undecodable
    event or a failing collaborator (the whole batch is then nak'd and the
    batch emptied), or skipped and acknowledged on its own, or handed to the
    driver and kept in the batch (which then stays below the threshold), or
    handed to the driver and flushed with the batch; only a date error of the
    cutoff check escapes.  A flush acknowledges the whole batch, or naks it
    whole after an error of the driver or the first ack that fails. *)
Theorem process_message_outcomes s msg :
  message_outcome s msg (process_message msg s).1 (process_message msg s).2 /\
  flush_outcome s (flush s).1 (flush s).2.
Proof. split; [apply message_outcomes|apply flush_outcomes]. Qed.
End BatchProcessor.
