(* ===== verification/ConsumerSafety.v ===== *)
(** * Safety of the consumer

    Properties of every run of the batch processor, from the outcome table of
    [BatchProcessor]: no message is acknowledged before its event is durable,
    a failing batch is nak'd as a whole, the batch stays bounded, messages are
    processed in sequence order, and none is lost.  A run is any sequence of
    messages and idle ticks up to the first exception. *)
From stdpp Require Import base tactics list option numbers sets strings.
From S2P Require Import Prelude PyStr PyDict PyFloat GoJson Schema DbChange Interfaces BatchProcessor.

(** ** Justified acknowledgements *)

(** by then the message was skipped, or processed and flushed afterwards *)
#[global] Instance effect_eq_dec : EqDecision effect.
Proof. solve_decision. Defined.

Definition justified (t : list effect) (i : nat) : Prop :=
  TSkip i ∈ t \/ exists a b, t = a ++ TFlush :: b /\ TProcess i ∈ a.

Definition acks_safe (t : list effect) : Prop :=
  forall t1 i ok t2, t = t1 ++ TAck i ok :: t2 -> justified t1 i.

Lemma justified_app t l i : justified t i -> justified (t ++ l) i.
Proof.
  intros [H|(a & b & -> & H)]; [left; set_solver|].
  right. exists a, (b ++ l). split; [by rewrite <- app_assoc|done].
Qed.

Lemma acks_safe_nil : acks_safe [].
Proof. intros t1 i ok t2 E. by destruct t1. Qed.

Lemma acks_safe_snoc t e :
  acks_safe t -> (forall i ok, e = TAck i ok -> justified t i) -> acks_safe (t ++ [e]).
Proof.
  intros Ht He t1 i ok t2 E. destruct t2 as [|x t2 _] using rev_ind.
  - apply app_inj_tail in E as [<- E]. eauto.
  - rewrite app_comm_cons, app_assoc in E. apply app_inj_tail in E as [E _]. eauto.
Qed.

Lemma acks_safe_app t l :
  acks_safe t -> Forall (fun e => forall i ok, e <> TAck i ok) l -> acks_safe (t ++ l).
Proof.
  intros Ht Hl. revert t Ht. induction Hl as [|e l He Hl IH]; intros t Ht; [by rewrite app_nil_r|].
  rewrite (cons_middle e t l), app_assoc. apply IH. apply acks_safe_snoc; [done|]. naive_solver.
Qed.

Lemma acks_safe_acks t l :
  acks_safe t -> Forall (fun m => justified t (m_id m)) l -> acks_safe (t ++ acks l).
Proof.
  intros Ht Hl. revert t Ht Hl. induction l as [|m l IH]; intros t Ht Hl; [by rewrite app_nil_r|].
  apply Forall_cons in Hl as [Hm Hl].
  change (acks (m :: l)) with ([TAck (m_id m) (m_ack_ok m)] ++ [TDec] ++ acks l). rewrite !app_assoc.
  apply IH.
  - apply acks_safe_snoc; [|done]. apply acks_safe_snoc; [done|]. by intros i ok [= <- _].
  - eapply Forall_impl; [exact Hl|]. intros x Hx. by do 2 apply justified_app.
Qed.

Lemma naks_no_ack l : Forall (fun e => forall i ok, e <> TAck i ok) (naks l).
Proof. apply Forall_fmap. by apply Forall_true. Qed.

Lemma benign_no_ack l : Forall benign l -> Forall (fun e => forall i ok, e <> TAck i ok) l.
Proof. intros H. eapply Forall_impl; [done|]. by intros [] ?. Qed.

Lemma naks_elem m l : m ∈ l -> TNak (m_id m) (m_nak_ok m) ∈ naks l.
Proof. intros H. apply list_elem_of_fmap. eauto. Qed.

Lemma acks_elem m l : m ∈ l -> TAck (m_id m) (m_ack_ok m) ∈ acks l.
Proof.
  intros H. unfold acks. apply list_elem_of_In, in_flat_map. exists m.
  split; [by apply list_elem_of_In|by left].
Qed.

Lemma remove_msg_subset i l m : m ∈ remove_msg i l -> m ∈ l.
Proof. induction l as [|x l IH]; simpl; [done|]. destruct (_ =? _)%nat; set_solver. Qed.

Section safety.
Context {D R : Type} `{!Driver D} `{!Registry R}.
Context (cfg : bp_config) (now_at : nat -> Z).
Notation BP := (@BP D R).
Implicit Type s : BP.

(** ** Runs *)

Inductive input : Type := IMsg (m : Msg) | IIdle.

Definition step (i : input) : M BP bp_exn unit :=
  match i with
  | IMsg m => process_message cfg now_at m
  | IIdle => on_idle cfg now_at
  end.

Definition run (inputs : list input) : M BP bp_exn unit := for_each step inputs.

(** an idle tick reads the clock or flushes *)
Lemma on_idle_outcome s :
  (exists s', on_idle cfg now_at s = (inr tt, s') /\ bp_pending s' = bp_pending s /\
     bp_pending_started s' = bp_pending_started s /\ bp_sequence s' = bp_sequence s /\
     bp_trace s' = bp_trace s) \/
  (exists s1, bp_pending s1 = bp_pending s /\ bp_sequence s1 = bp_sequence s /\
     bp_trace s1 = bp_trace s /\
     flush_outcome s1 (on_idle cfg now_at s).1 (on_idle cfg now_at s).2).
Proof.
  unfold on_idle. erewrite bind_inr by done. erewrite bind_inr by done.
  destruct (bp_pending_started s) as [st|] eqn:Es; [|left; by exists s].
  destruct (_ && _); [|left; by exists s].
  erewrite bind_inr by done. destruct (_ <=? _).
  - right. eexists. split; [|split; [|split; [|apply flush_outcomes]]]; done.
  - left. eexists. split; [done|]. done.
Qed.

(** ** Acknowledgements *)

Definition good (s : BP) : Prop :=
  acks_safe (bp_trace s) /\ Forall (fun m => TProcess (m_id m) ∈ bp_trace s) (bp_pending s).

Lemma flush_good s r s' :
  flush_outcome s r s' -> good s -> acks_safe (bp_trace s') /\ bp_pending s' = [].
Proof.
  intros H [Hs Hp].
  assert (forall l, l ⊆ bp_pending s -> acks_safe (bp_trace s ++ TFlush :: acks l)) as Ha.
  { intros l Hl. rewrite cons_middle, app_assoc. apply acks_safe_acks.
    - by apply acks_safe_snoc.
    - apply Forall_forall. intros m Hm. right. exists (bp_trace s), []. split; [done|].
      rewrite Forall_forall in Hp. auto. }
  destruct H as [s' _ (? & _) ->|e s' _ (? & _) ->|l1 m l2 s' E _ _ (? & _) ->]; (split; [|done]).
  - rewrite app_comm_cons, app_assoc. apply acks_safe_snoc; [|done]. by apply Ha.
  - apply acks_safe_app; [done|apply naks_no_ack].
  - rewrite app_comm_cons, app_assoc. apply acks_safe_app; [|apply naks_no_ack].
    apply Ha. rewrite E. set_solver.
Qed.

Lemma message_good s msg r s' :
  message_outcome cfg s msg r s' -> good s ->
  acks_safe (bp_trace s') /\ (r = inr tt -> good s').
Proof.
  intros H G. pose proof G as [Hs Hp].
  assert (forall l s1, Forall benign l -> bp_trace s1 = bp_trace s ++ l ++ [TProcess (m_id msg)] ->
            bp_pending s1 = bp_pending s ++ [msg] -> good s1) as Hproc.
  { intros l s1 Hl Ht Hp1. unfold good. rewrite Ht, Hp1. split.
    - apply acks_safe_app; [done|]. apply Forall_app. split; [by apply benign_no_ack|].
      by repeat constructor.
    - apply Forall_app. split; [|repeat constructor; set_solver].
      eapply Forall_impl; [done|]. set_solver. }
  destruct H.
  - split; [|done]. rewrite H1. apply acks_safe_app; [done|]. constructor; [done|apply naks_no_ack].
  - split; [|done]. rewrite H2. apply acks_safe_app; [done|]. constructor; [done|apply naks_no_ack].
  - split; [by rewrite H3|done].
  - assert (acks_safe (bp_trace s')) as Ha.
    { rewrite H4. change [?a; ?b; ?c] with ([a] ++ [b] ++ [c]). rewrite !app_assoc.
      apply acks_safe_snoc; [|done]. apply acks_safe_snoc; [by apply acks_safe_snoc|].
      intros i ok [= <- _]. left. set_solver. }
    split; [done|]. intros _. split; [done|]. rewrite H2, H4. rewrite remove_appended by done.
    apply Forall_app. split.
    + apply Forall_forall. intros m0 Hm0. apply remove_msg_subset in Hm0.
      rewrite Forall_forall in Hp. set_solver.
    + case_decide as Hd; [|done]. constructor; [|done].
      apply list_elem_of_fmap in Hd as (m0 & Hm0 & Hin). rewrite Hm0.
      rewrite Forall_forall in Hp. set_solver.
  - split; [|done]. rewrite H5. apply acks_safe_app; [done|].
    apply Forall_app. split; [by apply benign_no_ack|apply naks_no_ack].
  - assert (good s') as Hg by (by eapply Hproc). split; [apply Hg|done].
  - assert (good s1) as Hg by (by eapply Hproc).
    destruct (flush_good s1 r s' H5 Hg) as [Ha He]. split; [done|].
    intros _. split; [done|]. by rewrite He.
Qed.

Lemma step_good i : triple good (step i) (fun _ => good) (fun _ s => acks_safe (bp_trace s)).
Proof.
  intros s G. destruct i as [m|]; simpl.
  - pose proof (message_outcomes cfg now_at s m) as H.
    destruct (process_message cfg now_at m s) as [[e|[]] s']; simpl in H;
      destruct (message_good _ _ _ _ H G) as [Ha Hg]; auto.
  - destruct (on_idle_outcome s) as [(s' & -> & P & _ & _ & T)|(s1 & P & _ & T & H)].
    + destruct G as [Ha Hp]. split; [by rewrite T|]. by rewrite P, T.
    + assert (good s1) as G1 by (destruct G; split; [by rewrite T|by rewrite P, T]).
      destruct (on_idle cfg now_at s) as [[e|[]] s']; simpl in H;
        destruct (flush_good _ _ _ H G1) as [Ha Hp]; [done|]. split; [done|]. by rewrite Hp.
Qed.

(** ** Bounds *)

(** the batch is below its threshold, and its clock runs exactly while it is not empty *)
Definition bounded (s : BP) : Prop :=
  Z.of_nat (length (bp_pending s)) < bp_max cfg /\
  (bp_pending s = [] <-> bp_pending_started s = None).

Lemma flush_cleared s r s' : flush_outcome s r s' -> cleared s s'.
Proof. by destruct 1. Qed.

Lemma cleared_bounded s s' : 0 < bp_max cfg -> cleared s s' -> bounded s'.
Proof. intros H (P & S & _). unfold bounded. rewrite P, S. simpl. split; [lia|done]. Qed.

Lemma remove_appended_length l m : length (remove_msg (m_id m) (l ++ [m])) = length l.
Proof.
  induction l as [|x l IH]; simpl; [by rewrite Nat.eqb_refl|].
  destruct (_ =? _)%nat; [rewrite length_app; simpl; lia|]. simpl. by rewrite IH.
Qed.

(** every way to leave [process_message] but an escaped exception keeps the bound *)
Lemma message_bounded s msg r s' :
  0 < bp_max cfg -> message_outcome cfg s msg r s' -> bounded s ->
  r = inl Uncaught \/ r = inl Unmodelled \/ bounded s'.
Proof.
  intros Hmax H [Hl Hs]. destruct H.
  - right; right. by eapply cleared_bounded.
  - right; right. by eapply cleared_bounded.
  - destruct H1; subst; auto.
  - right; right. unfold bounded. pose proof (remove_appended_length (bp_pending s) msg) as Hlen.
    rewrite <- H2 in Hlen. rewrite Hlen, H3. split; [done|]. rewrite <- Hs.
    split; intros E; apply length_zero_iff_nil; [rewrite <- Hlen|rewrite Hlen]; by rewrite E.
  - right; right. unfold bounded. rewrite H2, H3. simpl. split; [lia|done].
  - right; right. unfold bounded. split; [done|]. rewrite H2, H4. by destruct (bp_pending s).
  - right; right. eapply cleared_bounded; [done|]. by eapply flush_cleared.
Qed.

(** an error other than an escaped exception leaves an empty batch *)
Lemma message_error_empty s msg r e s' :
  message_outcome cfg s msg r s' -> r = inl e ->
  e = Uncaught \/ e = Unmodelled \/ bp_pending s' = [].
Proof.
  intros H E. destruct H; try done; try (right; right; done).
  - right; right. by destruct H0.
  - right; right. by destruct H1.
  - injection E as ->. destruct H1; auto.
  - right; right. by destruct (flush_cleared _ _ _ H5).
Qed.

Lemma step_bounded i :
  0 < bp_max cfg ->
  triple bounded (step i) (fun _ => bounded)
    (fun e s => e = Uncaught \/ e = Unmodelled \/ (bounded s /\ bp_pending s = [])).
Proof.
  intros Hmax s B. destruct i as [m|]; simpl.
  - pose proof (message_outcomes cfg now_at s m) as H.
    destruct (process_message cfg now_at m s) as [[e|[]] s']; simpl in H;
      destruct (message_bounded _ _ _ _ Hmax H B) as [E|[E|Hb]]; try done;
      try (injection E as ->; by auto).
    destruct (message_error_empty _ _ _ _ _ H eq_refl) as [|[|]]; auto.
  - destruct (on_idle_outcome s) as [(s' & -> & P & S & _ & T)|(s1 & P & _ & T & H)].
    + unfold bounded in *. by rewrite P, S.
    + apply flush_cleared in H.
      destruct (on_idle cfg now_at s) as [[e|[]] s']; simpl in H.
      * right; right. split; [by eapply cleared_bounded|by destruct H].
      * by eapply cleared_bounded.
Qed.

(** ** Order *)

Definition msgs (inputs : list input) : list Msg :=
  omap (fun i => match i with IMsg m => Some m | IIdle => None end) inputs.

(** the messages handed to the driver, in order *)
Definition processed (t : list effect) : list nat :=
  omap (fun e => match e with TProcess i => Some i | _ => None end) t.

Lemma processed_app t l : processed (t ++ l) = processed t ++ processed l.
Proof. apply omap_app. Qed.

Lemma processed_benign l : Forall benign l -> processed l = [].
Proof. induction 1 as [|[] l He Hl IH]; simpl in *; try done; by apply IH. Qed.

Lemma processed_naks l : processed (naks l) = [].
Proof. induction l as [|m l IH]; [done|]. apply IH. Qed.

Lemma processed_acks l : processed (acks l) = [].
Proof. induction l as [|m l IH]; [done|]. apply IH. Qed.

Lemma flush_processed s r s' : flush_outcome s r s' -> processed (bp_trace s') = processed (bp_trace s).
Proof.
  intros H. destruct H as [s' _ _ ->|e s' _ _ ->|l1 m l2 s' _ _ _ _ ->].
  all: rewrite !processed_app; simpl; rewrite ?processed_app, ?processed_acks, ?processed_naks;
    by rewrite ?app_nil_r.
Qed.

Lemma flush_sequence s r s' : flush_outcome s r s' -> bp_sequence s' = bp_sequence s.
Proof. intros H. by apply flush_cleared in H as (_ & _ & ?). Qed.

Lemma message_order s msg s' :
  message_outcome cfg s msg (inr tt) s' ->
  bp_sequence s' = bp_sequence s + 1 /\
  (exists m, m_meta msg = Some m /\ md_consumer_seq m = bp_sequence s + 1) /\
  (processed (bp_trace s') = processed (bp_trace s) \/
   processed (bp_trace s') = processed (bp_trace s) ++ [m_id msg]).
Proof.
  remember (inr tt) as r eqn:Er. intros H. destruct H; try done.
  - split_and!; [congruence|eauto|]. left. rewrite H4, processed_app. simpl. by rewrite app_nil_r.
  - split_and!; [congruence|eauto|]. right.
    by rewrite H7, !processed_app, (processed_benign l).
  - rewrite (flush_sequence _ _ _ H5), (flush_processed _ _ _ H5).
    split_and!; [congruence|eauto|]. right. by rewrite H4, !processed_app, (processed_benign l).
Qed.

Lemma idle_order s s' :
  on_idle cfg now_at s = (inr tt, s') ->
  bp_sequence s' = bp_sequence s /\ processed (bp_trace s') = processed (bp_trace s).
Proof.
  intros E. destruct (on_idle_outcome s) as [(s1 & E1 & _ & _ & Q & T)|(s1 & _ & Q & T & H)].
  - rewrite E in E1. injection E1 as <-. by rewrite T.
  - rewrite E in H. simpl in H.
    rewrite (flush_sequence _ _ _ H), (flush_processed _ _ _ H). by rewrite T.
Qed.

Lemma run_cons i inputs s s' :
  run (i :: inputs) s = (inr tt, s') ->
  exists s1, step i s = (inr tt, s1) /\ run inputs s1 = (inr tt, s').
Proof.
  unfold run. simpl. intros H. destruct (step i s) as [[e|[]] s1] eqn:E.
  - rewrite (bind_inl _ _ _ e s1) in H by done. done.
  - rewrite (bind_inr _ _ _ tt s1) in H by done. eauto.
Qed.

(** C7: the messages a run accepts carry consecutive consumer sequence
    numbers from the processor's sequence on, which ends at the last of them,
    and the driver is handed a subsequence of them in that order. *)
Theorem processed_in_sequence inputs s s' :
  run inputs s = (inr tt, s') ->
  bp_sequence s' = bp_sequence s + Z.of_nat (length (msgs inputs)) /\
  Forall2 (fun msg k => exists m, m_meta msg = Some m /\ md_consumer_seq m = k)
    (msgs inputs) (seqZ (bp_sequence s + 1) (Z.of_nat (length (msgs inputs)))) /\
  exists ids, processed (bp_trace s') = processed (bp_trace s) ++ ids /\
    ids `sublist_of` (m_id <$> msgs inputs).
Proof.
  revert s. induction inputs as [|[msg|] inputs IH]; intros s H.
  - injection H as <-. split; [simpl; lia|]. split; [constructor|]. exists []. by rewrite app_nil_r.
  - apply run_cons in H as (s1 & E & H). destruct (IH s1 H) as (Q & F & ids & P & Hsub).
    pose proof (message_outcomes cfg now_at s msg) as O. simpl in E. rewrite E in O. simpl in O.
    destruct (message_order _ _ _ O) as (Q1 & Hm & P1). change (msgs (IMsg msg :: inputs)) with (msg :: msgs inputs).
    simpl length. rewrite Q, Q1 in *. split; [lia|]. split.
    + rewrite seqZ_cons by lia. constructor; [done|].
      replace (Z.succ (bp_sequence s + 1)) with (bp_sequence s + 1 + 1) by lia.
      replace (Z.pred (Z.of_nat (S (length (msgs inputs))))) with (Z.of_nat (length (msgs inputs))) by lia.
      done.
    + rewrite P. destruct P1 as [->| ->].
      * exists ids. split; [done|]. by apply sublist_cons.
      * exists (m_id msg :: ids). split; [by rewrite <- app_assoc|]. by apply sublist_skip.
  - apply run_cons in H as (s1 & E & H). destruct (IH s1 H) as (Q & F & ids & P & Hsub).
    destruct (idle_order s s1 E) as [Q1 P1]. rewrite Q1 in *. rewrite P1 in *. eauto.
Qed.

(** ** No message is lost *)

(** The broker took the ack of the message during [t]; or the message was
    skipped and its ack, which is sent at once and whose failure is only logged,
    did not reach the broker, who will deliver the message again. *)
Definition acknowledged (m : Msg) (t : list effect) : Prop :=
  TAck (m_id m) true ∈ t \/ (TSkip (m_id m) ∈ t /\ TAck (m_id m) false ∈ t).

Lemma acknowledged_app m t1 t2 : acknowledged m t1 \/ acknowledged m t2 -> acknowledged m (t1 ++ t2).
Proof. unfold acknowledged. setoid_rewrite elem_of_app. tauto. Qed.

Definition settled (l : list Msg) (s' : BP) (t : list effect) : Prop :=
  forall m, m ∈ l -> m ∈ bp_pending s' \/ acknowledged m t.

Lemma flush_settled s s' :
  flush_outcome s (inr tt) s' ->
  exists t, bp_trace s' = bp_trace s ++ t /\ settled (bp_pending s) s' t /\ bp_pending s' = [].
Proof.
  remember (inr tt) as r eqn:Er. intros H. destruct H as [s' Hok (? & _) ->| |]; try done.
  eexists. split; [done|]. split; [|done]. intros m Hm. right. left.
  pose proof (acks_elem m _ Hm) as Ha. rewrite Forall_forall in Hok. rewrite (Hok m Hm) in Ha.
  apply list_elem_of_further, elem_of_app. by left.
Qed.

Lemma message_settled s msg s' :
  message_outcome cfg s msg (inr tt) s' -> NoDup (m_id <$> bp_pending s ++ [msg]) ->
  exists t, bp_trace s' = bp_trace s ++ t /\ settled (bp_pending s ++ [msg]) s' t /\
    bp_pending s' `sublist_of` bp_pending s ++ [msg].
Proof.
  remember (inr tt) as r eqn:Er. intros H Hn. destruct H; try done.
  - eexists. split; [done|]. rewrite remove_appended in H2 by done.
    rewrite fmap_app in Hn. apply NoDup_app in Hn as (_ & Hn & _).
    assert (m_id msg ∉ m_id <$> bp_pending s) as Hni.
    { intros Hin. eapply Hn; [done|]. apply list_elem_of_here. }
    rewrite decide_False, app_nil_r in H2 by done.
    assert (remove_msg (m_id msg) (bp_pending s) = bp_pending s) as Hr.
    { clear -Hni. induction (bp_pending s) as [|x l IH]; simpl; [done|].
      destruct (Nat.eqb_spec (m_id x) (m_id msg)); [set_solver|]. f_equal. set_solver. }
    rewrite Hr in H2. rewrite H2. split; [|by apply sublist_inserts_r].
    intros m0 [?|Hm0%list_elem_of_singleton]%elem_of_app; [left; congruence|].
    right. subst. unfold acknowledged. destruct (m_ack_ok msg); set_solver.
  - eexists. split; [done|]. split; [|by rewrite H2]. intros m0 Hm0. left. by rewrite H2.
  - subst r. destruct (flush_settled _ _ H5) as (t & Ht & Hs & ->).
    rewrite Ht, H4, <- app_assoc. eexists. split; [done|]. split; [|apply sublist_nil_l].
    rewrite H2 in Hs. intros m0 Hm0. destruct (Hs m0 Hm0) as [?|Ha]; [by left|].
    right. apply acknowledged_app. by right.
Qed.

Lemma idle_settled s s' :
  on_idle cfg now_at s = (inr tt, s') ->
  exists t, bp_trace s' = bp_trace s ++ t /\ settled (bp_pending s) s' t /\
    bp_pending s' `sublist_of` bp_pending s.
Proof.
  intros E. destruct (on_idle_outcome s) as [(s1 & E1 & P & _ & Q & T)|(s1 & P & Q & T & H)].
  - rewrite E in E1. injection E1 as <-. exists []. rewrite T, P, app_nil_r. split; [done|].
    split; [|done]. intros m Hm. left. by rewrite P.
  - rewrite E in H. simpl in H. destruct (flush_settled _ _ H) as (t & Ht & Hs & ->).
    rewrite <- T, <- P. exists t. split; [done|]. split; [done|apply sublist_nil_l].
Qed.

Lemma run_settled inputs s s' :
  run inputs s = (inr tt, s') -> NoDup (m_id <$> bp_pending s ++ msgs inputs) ->
  exists t, bp_trace s' = bp_trace s ++ t /\ settled (bp_pending s ++ msgs inputs) s' t.
Proof.
  revert s. induction inputs as [|i inputs IH]; intros s H Hn.
  { injection H as <-. exists []. rewrite !app_nil_r. split; [done|]. intros m Hm. by left. }
  apply run_cons in H as (s1 & E & H).
  assert (exists l t1, bp_pending s ++ msgs (i :: inputs) = l ++ msgs inputs /\
            bp_trace s1 = bp_trace s ++ t1 /\ settled l s1 t1 /\ bp_pending s1 `sublist_of` l)
    as (l & t1 & El & T1 & S1 & Hsub).
  { destruct i as [msg|].
    - pose proof (message_outcomes cfg now_at s msg) as O. simpl in E. rewrite E in O.
      destruct (message_settled _ _ _ O) as (t1 & T1 & S1 & Hsub).
      { change (msgs (IMsg msg :: inputs)) with ([msg] ++ msgs inputs) in Hn.
        rewrite app_assoc, fmap_app in Hn. by apply NoDup_app in Hn as [? _]. }
      exists (bp_pending s ++ [msg]), t1. by rewrite <- app_assoc.
    - destruct (idle_settled s s1 E) as (t1 & T1 & S1 & Hsub). by exists (bp_pending s), t1. }
  rewrite El in *. destruct (IH s1 H) as (t2 & T2 & S2).
  { eapply sublist_NoDup; [exact Hn|]. apply fmap_sublist. by apply sublist_app. }
  exists (t1 ++ t2). split; [by rewrite T2, T1, app_assoc|].
  intros m [Hm|Hm]%elem_of_app.
  - destruct (S1 m Hm) as [Hm1|Ha]; [|right; apply acknowledged_app; by left].
    destruct (S2 m) as [?|Ha]; [set_solver|by left|right; apply acknowledged_app; by right].
  - destruct (S2 m) as [?|Ha]; [set_solver|by left|right; apply acknowledged_app; by right].
Qed.

(** ** The theorems *)

(** C1: at every point of every run, also one that ends in an exception, an
    acknowledged message had been skipped on its own or had been handed to
    the driver before a flush of the driver that returned. *)
Theorem ack_only_after_flush inputs s :
  bp_trace s = [] -> bp_pending s = [] -> acks_safe (bp_trace (run inputs s).2).
Proof.
  intros Ht Hp. pose proof (triple_for_each good step inputs _ step_good s) as H.
  assert (good s) as G by (split; [rewrite Ht; apply acks_safe_nil|by rewrite Hp]).
  specialize (H G). unfold run. destruct (for_each step inputs s) as [[e|a] s']; apply H.
Qed.

(** C6: a run from an empty batch keeps the batch below its threshold, with
    the batch clock running exactly while the batch is not empty; when it
    stops with a fatal error or a clean stop the batch is empty. *)
Theorem batch_bounded inputs s :
  0 < bp_max cfg -> bp_pending s = [] -> bp_pending_started s = None ->
  match run inputs s with
  | (inr _, s') => Z.of_nat (length (bp_pending s')) < bp_max cfg /\
                   (bp_pending s' = [] <-> bp_pending_started s' = None)
  | (inl e, s') => e = Uncaught \/ e = Unmodelled \/ bp_pending s' = []
  end.
Proof.
  intros Hmax Hp Hs.
  pose proof (triple_for_each bounded step inputs _ (fun i => step_bounded i Hmax) s) as H.
  unfold run. destruct (for_each step inputs s) as [[e|a] s'].
  - destruct H as [|[|[_ ?]]]; auto. unfold bounded. rewrite Hp, Hs. simpl. split; [lia|done].
  - apply H. unfold bounded. rewrite Hp, Hs. simpl. split; [lia|done].
Qed.

(** the messages of a list that were nak'd in [t] *)
Definition nakd (l : list Msg) (t : list effect) : Prop :=
  Forall (fun m => TNak (m_id m) (m_nak_ok m) ∈ t) l.

Lemma error_naks_each s msg e s' :
  process_message cfg now_at msg s = (inl e, s') -> e = Stopped \/ e = Fatal ->
  bp_pending s' = [] /\ bp_pending_started s' = None /\
  exists t, bp_trace s' = bp_trace s ++ t /\
    forall m, m ∈ bp_pending s \/ (m = msg /\ m_meta msg <> None) -> TNak (m_id m) (m_nak_ok m) ∈ t.
Proof.
  intros E He. pose proof (message_outcomes cfg now_at s msg) as H. rewrite E in H.
  simpl in H. remember (inl e) as r eqn:Er.
  assert (forall m, m ∈ bp_pending s \/ (m = msg /\ m_meta msg <> None) -> m ∈ bp_pending s ++ [msg]) as Hin.
  { set_solver. }
  destruct H; try done.
  - destruct H0 as (P & S & _). split_and!; try done. rewrite H1. eexists. split; [done|].
    intros m [Hm|[_ Hm]]; [|done]. apply list_elem_of_further. by apply naks_elem.
  - destruct H1 as (P & S & _). split_and!; try done. rewrite H2. eexists. split; [done|].
    intros m0 Hm0. apply list_elem_of_further. apply naks_elem. auto.
  - injection Er as ->. naive_solver.
  - split_and!; try done. rewrite H5. eexists. split; [done|].
    intros m0 Hm0. apply elem_of_app. right. apply naks_elem. auto.
  - destruct (flush_cleared _ _ _ H5) as (P & S & _). split_and!; try done.
    destruct H5 as [|e' s' _ _ T|l1 m1 l2 s' _ _ _ _ T]; [done| |]; rewrite T, H4, H2, <- app_assoc;
      (eexists; split; [done|]); intros m0 Hm0; pose proof (naks_elem m0 _ (Hin m0 Hm0)); set_solver.
Qed.

(** C5: a message that stops the consumer naks its whole batch: after a
    fatal error or a clean stop, every message that was pending, and the
    message itself unless its metadata was unreadable, has been nak'd during
    this call, and the batch is empty. *)
Theorem error_naks_batch s msg e s' :
  process_message cfg now_at msg s = (inl e, s') -> e = Stopped \/ e = Fatal ->
  bp_pending s' = [] /\ bp_pending_started s' = None /\
  exists t, bp_trace s' = bp_trace s ++ t /\
    nakd (bp_pending s) t /\ (m_meta msg <> None -> nakd [msg] t).
Proof.
  intros E He. destruct (error_naks_each s msg e s' E He) as (P & S & t & T & Hn).
  split_and!; [done|done|]. exists t. split; [done|]. split.
  - apply Forall_forall. auto.
  - intros Hm. apply Forall_singleton. auto.
Qed.

(** C8: no message disappears: after a run that ends normally every message
    that was pending or delivered is still pending, or the broker took its ack
    during the run, or it was skipped during the run and its own ack failed: the
    failed ack of a message of a flushed batch ends the run instead. *)
Theorem no_message_lost inputs s s' :
  run inputs s = (inr tt, s') -> NoDup (m_id <$> bp_pending s ++ msgs inputs) ->
  exists t, bp_trace s' = bp_trace s ++ t /\
    forall m, m ∈ bp_pending s ++ msgs inputs ->
      m ∈ bp_pending s' \/ TAck (m_id m) true ∈ t \/ (TSkip (m_id m) ∈ t /\ TAck (m_id m) false ∈ t).
Proof. apply run_settled. Qed.
End safety.

(** ** Sample collaborators for the witnesses *)

(** a driver that counts the events it buffers, and a registry that knows one table *)
#[local] Instance counting_driver : Driver nat := {|
  drv_process := fun _ n => (inr false, S n);
  drv_flush := fun n => (inr tt, 0%nat);
  drv_max_batch_size := 2;
  drv_supports_migration := false;
  drv_migrate_new_table := fun _ n => (inr tt, n);
  drv_migrate_new_columns := fun _ _ n => (inr tt, n);
  drv_get_destination_schema := fun n => (inr [], n)
|}.

#[local] Instance one_table_registry : Registry unit := {|
  reg_get_latest_schema := fun r => (inr [(u"t", sample_schema)], r);
  reg_get_schema := fun _ _ r => (inr sample_schema, r);
  reg_get_table_version := fun _ r => (inr (true, u"v1"), r);
  reg_set_table_version := fun _ _ r => (inr tt, r)
|}.

Definition sample_cfg : bp_config := mk_bp_config 2 2000 30000 None false true None.
Definition sample_clock (n : nat) : Z := Z.of_nat n.
Definition sample_state : @BP nat unit := mk_bp [] None 0 0 0%nat tt [].

(** a message with a decodable event *)
Definition sample_msg (i : nat) (seq : Z) (ack_ok : bool) : Msg :=
  mk_msg i sample_message (Some (mk_meta seq seq 1 0)) (Some (mk_meta seq seq 1 0)) ack_ok true.

Definition sample_inputs : list input :=
  [IMsg (sample_msg 1 1 true); IIdle; IMsg (sample_msg 2 2 true); IMsg (sample_msg 3 3 true)].

Lemma ack_only_after_flush_witness :
  acks_safe (bp_trace (run sample_cfg sample_clock sample_inputs sample_state).2) /\
  TAck 1 true ∈ bp_trace (run sample_cfg sample_clock sample_inputs sample_state).2.
Proof.
  split; [by apply ack_only_after_flush|].
  apply (bool_decide_eq_true_1 _). by vm_compute.
Defined.

(** [run] on the samples, evaluated *)
Definition sample_result : (bp_exn + unit) * @BP nat unit :=
  Eval vm_compute in run sample_cfg sample_clock sample_inputs sample_state.

Lemma sample_run : run sample_cfg sample_clock sample_inputs sample_state = (inr tt, sample_result.2).
Proof. by vm_compute. Qed.

Lemma batch_bounded_witness :
  length (bp_pending sample_result.2) = 1%nat /\
  (bp_pending sample_result.2 = [] <-> bp_pending_started sample_result.2 = None).
Proof.
  split; [done|].
  pose proof (batch_bounded sample_cfg sample_clock sample_inputs sample_state) as H.
  rewrite sample_run in H. by apply H.
Defined.

(** the second of two messages is out of order *)
Definition gap_state : @BP nat unit :=
  Eval vm_compute in (run sample_cfg sample_clock [IMsg (sample_msg 1 1 true)] sample_state).2.

Lemma error_naks_batch_witness :
  exists s', process_message sample_cfg sample_clock (sample_msg 2 5 true) gap_state = (inl Fatal, s') /\
    bp_pending s' = [] /\
    exists t, bp_trace s' = bp_trace gap_state ++ t /\ TNak 1 true ∈ t /\ TNak 2 true ∈ t.
Proof.
  destruct (process_message sample_cfg sample_clock (sample_msg 2 5 true) gap_state) as [r s'] eqn:E.
  assert (r = inl Fatal) as -> by (vm_compute in E; by injection E).
  exists s'. split; [done|].
  destruct (error_naks_batch sample_cfg sample_clock gap_state (sample_msg 2 5 true) Fatal s' E)
    as (P & _ & t & T & Hn); [by right|].
  split; [done|]. exists t. split; [done|]. destruct Hn as [H1 H2].
  split; [by inversion H1|]. specialize (H2 ltac:(done)). by inversion H2.
Defined.

Lemma processed_in_sequence_witness :
  bp_sequence sample_result.2 = 3 /\
  exists ids, processed (bp_trace sample_result.2) = [] ++ ids /\ ids `sublist_of` [1; 2; 3]%nat.
Proof.
  destruct (processed_in_sequence sample_cfg sample_clock sample_inputs sample_state sample_result.2
              sample_run) as (H1 & _ & H2).
  split; [exact H1|exact H2].
Defined.

Lemma no_message_lost_witness :
  exists t, bp_trace sample_result.2 = bp_trace sample_state ++ t /\
    forall m, m ∈ bp_pending sample_state ++ msgs sample_inputs ->
      m ∈ bp_pending sample_result.2 \/ TAck (m_id m) true ∈ t \/ (TSkip (m_id m) ∈ t /\ TAck (m_id m) false ∈ t).
Proof.
  apply (no_message_lost sample_cfg sample_clock sample_inputs sample_state sample_result.2 sample_run).
  apply (bool_decide_eq_true_1 _). by vm_compute.
Defined.
