(* ===== verification/Durable.v ===== *)
(** * From the stream to the destination

    What an acknowledgement means: over any destination that keeps the
    promises of [DurableDriver], a message is acknowledged only when it was
    skipped or when the item made from its event is stored. *)
From stdpp Require Import base tactics list option numbers sets strings.
From S2P Require Import Prelude PyStr PyDict PyFloat GoJson JsonLoads Schema DbChange Interfaces BatchProcessor ConsumerSafety.

(** ** The event of a message *)

(** what the consumer leaves alone: everything but the diff, the validated
    path and the cached object *)
Definition change_of (e : DBChangeEvent) : DBChangeEvent :=
  mk_event (ev_operation e) (ev_id e) (ev_table e) (ev_key e) (ev_model_version e)
    (ev_company_id e) (ev_location_id e) (ev_user_id e) (ev_before e) (ev_after e) None
    (ev_timestamp e) (ev_mvcc_timestamp e) (ev_imported e) None None.

Definition same_change (e0 e : DBChangeEvent) : Prop := change_of e0 = change_of e.

#[global] Instance same_change_equiv : Equivalence same_change.
Proof. unfold same_change. split; [by intros e|by intros e e' ->|by intros e e' e'' -> ->]. Qed.

Lemma same_change_object o e : same_change e (set_object o e).
Proof. done. Qed.

Lemma same_change_diff d e : same_change e (set_diff d e).
Proof. done. Qed.

Lemma same_change_get_object e : same_change e (get_object e).2.
Proof.
  rewrite get_object_source. destruct (object_source e) as [raw|]; [|done].
  unfold _parse_object, mbind, M_bind, gets, raise, mret, M_ret, modify.
  destruct (ev_object e); [done|]. by destruct (json_loads _ raw) as [[]|].
Qed.

Lemma same_change_omit props e : same_change e (omit_properties props e).2.
Proof.
  unfold omit_properties, mbind, M_bind. pose proof (same_change_get_object e) as H.
  destruct (get_object e) as [[err|[d|]] e']; done.
Qed.

Lemma should_skip_change cfg e0 e b : should_skip cfg e0 = Some (b, e) -> same_change e0 e.
Proof.
  unfold should_skip. destruct (before_cutoff cfg e0) as [[]|]; simpl; [by intros [= _ <-]| |done].
  destruct (bp_validator cfg) as [validate|]; [|by intros [= _ <-]].
  destruct (validate e0) as [| |found valid path]; [by intros [= _ <-]..|].
  destruct (negb found); [by intros [= _ <-]|]. destruct (negb valid); [by intros [= _ <-]|].
  destruct path; by intros [= _ <-].
Qed.

Section durable.
Context {D R Item : Type} `{!Driver D} `{!Registry R} `{!DurableDriver D Item}.
Context (cfg : bp_config) (now_at : nat -> Z).
Notation BP := (@BP D R).
Implicit Type s : BP.

(** [it] was made from the event of a message of [ms] that carries the id [i] *)
Definition made_from (ms : list Msg) (i : nat) (it : Item) : Prop :=
  exists m e0 e, m ∈ ms /\ m_id m = i /\ from_message (m_data m) = FMOk e0 /\
    same_change e0 e /\ renders e it.

Definition safe_at (ms : list Msg) (d : D) (i : nat) : Prop :=
  exists it, made_from ms i it /\ stored d it.
Definition kept_at (ms : list Msg) (d : D) (i : nat) : Prop :=
  exists it, made_from ms i it /\ (held d it \/ stored d it).

Section invariant.
Context (ms : list Msg).
Notation safe := (safe_at ms).
Notation kept := (kept_at ms).

(** every acknowledged message was skipped or is stored *)
Definition acks_stored (s : BP) : Prop :=
  forall i ok, TAck i ok ∈ bp_trace s -> TSkip i ∈ bp_trace s \/ safe (bp_driver s) i.

(** processed, or skipped *)
Definition seen (t : list effect) (m : Msg) : Prop := TProcess (m_id m) ∈ t \/ TSkip (m_id m) ∈ t.

Lemma seen_app t l m : seen t m -> seen (t ++ l) m.
Proof. unfold seen. set_solver. Qed.

(** between two calls: processed messages are kept by the driver, and the batch
    holds messages that were seen, except for [cur] *)
Record keeps (cur : option Msg) (s : BP) : Prop := {
  k_driver : driver_ok (bp_driver s);
  k_processed : forall i, TProcess i ∈ bp_trace s -> kept (bp_driver s) i;
  k_pending : forall m, m ∈ bp_pending s -> seen (bp_trace s) m \/ cur = Some m;
  k_acks : acks_stored s
}.

Lemma safe_mono d d' i : (forall it, stored d it -> stored d' it) -> safe d i -> safe d' i.
Proof. intros H (it & Hm & Hs). exists it. auto. Qed.

Lemma safe_kept d i : safe d i -> kept d i.
Proof. intros (it & Hm & Hs). exists it. auto. Qed.

Definition neutral (e : effect) : Prop :=
  match e with TAck _ _ | TProcess _ => False | _ => True end.

Lemma acks_stored_emit e s :
  (forall i ok, e <> TAck i ok) -> acks_stored s -> acks_stored (set_trace (bp_trace s ++ [e]) s).
Proof.
  intros He H i ok. simpl. rewrite elem_of_app, list_elem_of_singleton.
  intros [Ha|Ha]; [|by destruct (He i ok)]. destruct (H i ok Ha); [left|by right]. set_solver.
Qed.

Lemma emit_acks e X : neutral e -> triple acks_stored (emit e : M BP bp_exn unit) (fun _ => acks_stored) X.
Proof. intros He. apply triple_modify. intros s. apply acks_stored_emit. by destruct e. Qed.

Lemma emit_keeps e cur X : neutral e -> triple (keeps cur) (emit e) (fun _ => keeps cur) X.
Proof.
  intros He. apply triple_modify. intros s [Hd Hp Hm Ha]. split; simpl.
  - done.
  - intros i. rewrite elem_of_app, list_elem_of_singleton. intros [Hi|<-]; [auto|by destruct He].
  - intros m Hin. destruct (Hm m Hin); [left; by apply seen_app|by right].
  - apply acks_stored_emit; [by destruct e|done].
Qed.

(** a rejected batch: everything is nak'd *)
Lemma nack_acks X : triple acks_stored (nack_everything : M BP bp_exn unit) (fun _ => acks_stored) X.
Proof.
  apply triple_gets_bind. intros pending. apply (triple_pre _ acks_stored); [|by intros s []].
  apply (triple_bind _ _ _ (fun _ => acks_stored)).
  { apply triple_for_each. intros m. by apply emit_acks. }
  intros _. apply (triple_bind _ _ _ (fun _ => acks_stored)); [by apply triple_modify|].
  intros _. by apply triple_modify.
Qed.

Lemma error_acks {A} Q : triple acks_stored (_handle_error : M BP bp_exn A) Q (fun _ => acks_stored).
Proof.
  apply (triple_bind _ _ _ (fun _ => acks_stored)); [apply nack_acks|]. intros _. by apply triple_raise.
Qed.

Lemma dec_error_acks {A} Q :
  triple acks_stored (_ ← emit TDec; _handle_error : M BP bp_exn A) Q (fun _ => acks_stored).
Proof.
  apply (triple_bind _ _ _ (fun _ => acks_stored)); [by apply emit_acks|]. intros _. apply error_acks.
Qed.

(** a call of the driver that loses nothing stored *)
Lemma driver_acks {A} (f : method D driver_error A) :
  preserves driver_ok held stored f ->
  forall s, driver_ok (bp_driver s) -> acks_stored s -> acks_stored (set_driver (f (bp_driver s)).2 s).
Proof.
  intros [Hf _] s Hd Ha i ok Hi. destruct (Ha i ok Hi); [by left|right]. simpl.
  eapply safe_mono; [|done]. auto.
Qed.

(** a call of the driver that keeps what it holds when it returns *)
Lemma driver_keeps {A} (f : method D driver_error A) cur :
  preserves driver_ok held stored f ->
  triple (keeps cur) (call_driver f : M BP bp_exn (driver_error + A))
    (fun r s => match r with inl _ => acks_stored s | inr _ => keeps cur s end) (fun _ _ => False).
Proof.
  intros Hf s [Hd Hp Hm Ha]. unfold call_driver.
  pose proof (driver_acks f Hf s Hd Ha) as Ha'. destruct Hf as [Hst Hok]. specialize (Hst (bp_driver s)).
  destruct (f (bp_driver s)) as [[err|a] d] eqn:E; [done|].
  destruct (Hok _ a d Hd E) as [Hd' Hkeep]. split; simpl in *; [done| |done|done].
  intros i Hi. destruct (Hp i Hi) as (it & Hmade & [Hh|Hs]); exists it; auto.
Qed.

(** *** Flush *)

(** after a flush that returned: all that was processed is stored *)
Definition flushed (s : BP) : Prop :=
  driver_ok (bp_driver s) /\ (forall i, TProcess i ∈ bp_trace s -> safe (bp_driver s) i) /\ acks_stored s.

Lemma flush_call_stores :
  triple (keeps None) (call_driver drv_flush : M BP bp_exn (driver_error + unit))
    (fun r s => match r with
                | inl _ => acks_stored s
                | inr _ => flushed s /\ forall m, m ∈ bp_pending s -> seen (bp_trace s) m
                end) (fun _ _ => False).
Proof.
  intros s [Hd Hp Hm Ha]. unfold call_driver.
  pose proof (driver_acks drv_flush flush_preserves s Hd Ha) as Ha'.
  destruct flush_preserves as [Hst Hok]. specialize (Hst (bp_driver s)).
  destruct (drv_flush (bp_driver s)) as [[err|[]] d] eqn:E; [done|]. unfold flushed. split_and!; simpl in *.
  - by destruct (Hok _ _ _ Hd E).
  - intros i Hi. destruct (Hp i Hi) as (it & Hmade & [Hh|Hs]); exists it; [|by auto].
    split; [done|]. by eapply flush_stores.
  - done.
  - intros m Hin. by destruct (Hm m Hin).
Qed.

Lemma flushed_emit e :
  (forall i ok, e <> TAck i ok) -> (forall i, e <> TProcess i) ->
  forall s, flushed s -> flushed (set_trace (bp_trace s ++ [e]) s).
Proof.
  intros He1 He2 s (Hd & Hp & Ha). split_and!; simpl; [done| |by apply acks_stored_emit].
  intros i. rewrite elem_of_app, list_elem_of_singleton. intros [Hi|<-]; [auto|by destruct (He2 i)].
Qed.

Lemma ack_one_stored m :
  triple (fun s => flushed s /\ seen (bp_trace s) m) (ack_one m)
    (fun _ => flushed) (fun _ => acks_stored).
Proof.
  apply (triple_bind _ _ _ (fun _ => flushed)).
  { apply triple_modify. intros s [(Hd & Hp & Ha) Hm]. split_and!; simpl; [done| |].
    - intros i. rewrite elem_of_app, list_elem_of_singleton. intros [Hi|]; [auto|done].
    - intros i ok. simpl. rewrite elem_of_app, list_elem_of_singleton. intros [Hi|Hi].
      + destruct (Ha i ok Hi); [left; set_solver|by right].
      + injection Hi as -> _. destruct Hm as [Hm|Hm]; [right; auto|left; set_solver]. }
  intros _. apply (triple_bind _ _ _ (fun _ => flushed)).
  { apply triple_modify. by apply flushed_emit. }
  intros _. destruct (m_ack_ok m); [by apply triple_ret|].
  apply (triple_pre _ acks_stored); [|by intros s (_ & _ & ?)].
  apply (triple_bind _ _ _ (fun _ => acks_stored)); [apply nack_acks|]. intros _. by apply triple_raise.
Qed.

(** [ack_one] keeps what is in the trace *)
Lemma ack_one_extends m m' :
  triple (fun s => seen (bp_trace s) m') (ack_one m : M BP bp_exn unit)
    (fun _ s => seen (bp_trace s) m') (fun _ _ => True).
Proof.
  intros s He. destruct (m_ack_ok m) eqn:Em.
  - rewrite ack_one_ok by done. simpl. by apply seen_app.
  - by rewrite ack_one_fail.
Qed.

Lemma acks_all_stored l :
  triple (fun s => flushed s /\ Forall (seen (bp_trace s)) l) (for_each ack_one l)
    (fun _ => flushed) (fun _ => acks_stored).
Proof.
  apply (triple_post _ _ _ (fun _ s => flushed s /\ Forall (seen (bp_trace s)) l)
    _ (fun _ => acks_stored)); [|by intros _ s []|done].
  apply triple_for_each_elem. intros m Hm s [Hs Hl].
  pose proof (proj1 (Forall_forall _ _) Hl m Hm) as Hin. simpl in Hin.
  pose proof (ack_one_stored m s (conj Hs Hin)) as H.
  assert (forall m', m' ∈ l -> match ack_one m s with
    (inr _, s') => seen (bp_trace s') m' | _ => True end) as Hx.
  { intros m' Hm'. pose proof (ack_one_extends m m' s) as Hx.
    destruct (ack_one m s) as [[]]; [done|]. apply Hx.
    by apply (proj1 (Forall_forall _ _) Hl m'). }
  destruct (ack_one m s) as [[e|[]] s']; [done|]. split; [done|]. by apply Forall_forall.
Qed.

Lemma now_triple {X} (P : BP -> Prop) :
  (forall n s, P s -> P (set_ticks n s)) -> triple P (now now_at) (fun _ => P) (X : bp_exn -> BP -> Prop).
Proof. intros HP s Hs. by apply HP. Qed.

Lemma now_keeps cur X : triple (keeps cur) (now now_at) (fun _ => keeps cur) (X : bp_exn -> BP -> Prop).
Proof. apply now_triple. intros n s [Hd Hp Hm Ha]. by split. Qed.

Lemma flushed_keeps s : flushed s -> bp_pending s = [] -> keeps None s.
Proof.
  intros (Hd & Hp & Ha) E. split; [done| |rewrite E; by intros m ?%elem_of_nil|done]. intros i Hi. by apply safe_kept, Hp.
Qed.

Lemma flush_keeps : triple (keeps None) (flush now_at) (fun _ => keeps None) (fun _ => acks_stored).
Proof.
  unfold flush. apply (triple_bind _ _ _ (fun _ => keeps None)).
  { apply now_keeps. }
  intros _. apply (triple_bind _ _ _ (fun r s => match r with
    | inl _ => acks_stored s
    | inr _ => flushed s /\ forall m, m ∈ bp_pending s -> seen (bp_trace s) m end)).
  { eapply triple_post; [apply flush_call_stores|done|done]. }
  intros [[]|[]]; [|apply error_acks|].
  { apply (triple_bind _ _ _ (fun _ => acks_stored)); [apply nack_acks|]. intros _. by apply triple_raise. }
  apply (triple_bind _ _ _ (fun _ s => flushed s /\ forall m, m ∈ bp_pending s -> seen (bp_trace s) m)).
  { apply triple_modify. intros s [Hs Hm]. split; [by apply flushed_emit|]. simpl.
    intros m Hin. by apply seen_app, Hm. }
  intros _. apply triple_gets_bind. intros pending.
  apply (triple_bind _ _ _ (fun _ => flushed)).
  { eapply triple_pre; [apply acks_all_stored|]. intros s [[Hs Hm] <-]. split; [done|]. by apply Forall_forall. }
  assert (forall n s, flushed s -> flushed (set_ticks n s)) as Hticks by done.
  intros _. apply triple_gets_bind. intros ps.
  apply (triple_bind _ _ _ (fun _ => flushed)).
  { apply (triple_pre _ flushed); [|by intros s []]. destruct ps; [|by apply triple_ret].
    apply (triple_bind _ _ _ (fun _ => flushed)); [by apply now_triple|]. intros _. by apply triple_ret. }
  intros _. apply (triple_bind _ _ _ (fun _ => flushed)); [by apply now_triple|].
  intros _. apply (triple_bind _ _ _ (fun _ => flushed)).
  { apply triple_modify. by apply flushed_emit. }
  intros _. apply (triple_bind _ _ _ (fun _ s => flushed s /\ bp_pending s = [])); [by apply triple_modify|].
  intros _. apply triple_modify. intros s [Hs E]. by apply flushed_keeps.
Qed.

(** *** Migration and dropping *)

(** what a step before the driver call leaves: an event of the same change, or
    an exception to be handled *)
Definition prepared {A} (cur : option Msg) (event_of : A -> DBChangeEvent) (e0 : DBChangeEvent)
    (r : option A) (s : BP) : Prop :=
  match r with
  | Some a => keeps cur s /\ same_change e0 (event_of a)
  | None => acks_stored s
  end.

Definition never (e : bp_exn) (s : BP) : Prop := False.

Lemma try_registry_keeps {A} cur e0 (f : method R registry_error A) k :
  (forall a, triple (keeps cur) (k a) (prepared cur snd e0) never) ->
  triple (keeps cur) (try_registry f k) (prepared cur snd e0) never.
Proof.
  intros Hk. apply (triple_bind _ _ _ (fun _ => keeps cur)).
  { intros s Hs. unfold call_registry. destruct (f (bp_registry s)) as [r g]. by destruct Hs. }
  intros [err|a]; [|done]. apply triple_ret. intros s Hs. apply Hs.
Qed.

Lemma try_driver_keeps cur e0 (f : method D driver_error unit) k :
  preserves driver_ok held stored f ->
  triple (keeps cur) k (prepared cur snd e0) never ->
  triple (keeps cur) (try_driver f k) (prepared cur snd e0) never.
Proof.
  intros Hf Hk. eapply triple_bind; [by apply driver_keeps|].
  intros [err|[]]; [by apply triple_ret|done].
Qed.

Lemma migration_keeps cur evt :
  triple (keeps cur) (handle_possible_migration cfg evt) (prepared cur snd evt) never.
Proof.
  assert (forall b e', same_change evt e' ->
    triple (keeps cur) (mret (Some (b, e')) : M BP bp_exn (option (bool * DBChangeEvent)))
      (prepared cur snd evt) never) as Hret.
  { intros b e' He. by apply triple_ret. }
  assert (forall table mv (k : M BP bp_exn (option (bool * DBChangeEvent))) e,
    neutral e -> triple (keeps cur) k (prepared cur snd evt) never ->
    triple (keeps cur) (_ ← emit e; try_registry (reg_set_table_version table mv)
      (fun _ => _ ← emit (TSetVersion table mv); k)) (prepared cur snd evt) never) as Hset.
  { intros table mv k e He Hk. apply (triple_bind _ _ _ (fun _ => keeps cur)); [by apply emit_keeps|]. intros _.
    apply try_registry_keeps. intros _. apply (triple_bind _ _ _ (fun _ => keeps cur)); [by apply emit_keeps|]. done. }
  unfold handle_possible_migration. destruct (negb _); [apply triple_ret; apply k_acks|].
  apply try_registry_keeps. intros [found version].
  destruct (found && _); [by apply Hret|].
  apply try_registry_keeps. intros newschema. destruct (negb found).
  - apply try_driver_keeps; [apply table_preserves|].
    apply Hset; [done|by apply Hret].
  - apply try_registry_keeps. intros oldschema.
    destruct (filter _ (schema_columns newschema)) as [|c cols]; [by apply Hret|].
    apply try_driver_keeps; [apply columns_preserves|].
    apply Hset; [done|by apply Hret].
Qed.

Lemma drop_keeps cur evt :
  triple (keeps cur) (drop_unknown cfg evt) (prepared cur id evt) never.
Proof.
  unfold drop_unknown. destruct (_ || _); [by apply triple_ret|].
  apply (triple_bind _ _ _ (fun _ => keeps cur)).
  { intros s Hs. unfold call_registry. destruct (reg_get_schema _ _ _) as [r g]. by destruct Hs. }
  pose proof (same_change_get_object evt) as Ho.
  intros [err|schema]; [apply triple_ret; apply k_acks|].
  destruct (get_object evt) as [[err|[obj|]] evt'];
    [apply triple_ret; apply k_acks| |by apply triple_ret].
  destruct (json_diff _ _); apply triple_ret; intros s Hs; (split; [done|]).
  - done.
  - etrans; [exact Ho|]. apply same_change_omit.
Qed.

(** *** One message *)

Lemma process_call_keeps msg e0 evt :
  msg ∈ ms -> from_message (m_data msg) = FMOk e0 -> same_change e0 evt ->
  triple (keeps (Some msg)) (call_driver (drv_process evt) : M BP bp_exn (driver_error + bool))
    (fun r s => match r with
                | inl _ => acks_stored s
                | inr _ => keeps (Some msg) s /\ kept (bp_driver s) (m_id msg)
                end) (fun _ _ => False).
Proof.
  intros Hm Hf He s Hs.
  pose proof (driver_keeps (drv_process evt) (Some msg) (process_preserves evt) s Hs) as H.
  unfold call_driver in *. destruct (drv_process evt (bp_driver s)) as [[err|b] d] eqn:E; [done|].
  split; [done|]. destruct (process_takes evt _ b d (k_driver _ _ Hs) E) as (it & Hr & Hk).
  exists it. split; [|done]. by exists msg, e0, evt.
Qed.

Lemma emit_process_keeps msg :
  triple (fun s => keeps (Some msg) s /\ kept (bp_driver s) (m_id msg)) (emit (TProcess (m_id msg)))
    (fun _ => keeps None) never.
Proof.
  apply triple_modify. intros s [[Hd Hp Hm Ha] Hk]. split; simpl; [done| | |by apply acks_stored_emit].
  - intros i. rewrite elem_of_app, list_elem_of_singleton. intros [Hi|[= ->]]; auto.
  - intros m Hin. left. destruct (Hm m Hin) as [?|[= <-]]; [by apply seen_app|left; set_solver].
Qed.

Lemma latency_keeps msg :
  triple (keeps None) (latency_flush cfg now_at msg) (fun _ => keeps None) (fun _ => acks_stored).
Proof.
  unfold latency_flush. apply triple_gets_bind. intros ps.
  apply (triple_pre _ (keeps None)); [|by intros s []].
  apply (triple_bind _ _ _ (fun _ => keeps None)).
  { destruct ps; [by apply triple_ret|]. apply (triple_bind _ _ _ (fun _ => keeps None)); [apply now_keeps|]. intros t.
    apply triple_modify. intros s []. by split. }
  intros _. apply triple_gets_bind. intros ps'. apply (triple_pre _ (keeps None)); [|by intros s []].
  apply (triple_bind _ _ _ (fun _ => keeps None)).
  { destruct (_ <? _); [|by apply triple_ret]. apply (triple_bind _ _ _ (fun _ => keeps None)); [apply now_keeps|]. intros t.
    by apply triple_ret. }
  intros []; [by apply triple_ret|]. apply triple_gets_bind. intros pending.
  apply (triple_pre _ (keeps None)); [|by intros s []].
  apply (triple_bind _ _ _ (fun _ => keeps None)).
  { destruct (_ <=? _); [by apply triple_ret|]. apply (triple_bind _ _ _ (fun _ => keeps None)); [apply now_keeps|]. intros t.
    by apply triple_ret. }
  intros []; [|by apply triple_ret]. apply (triple_bind _ _ _ (fun _ => keeps None)); [apply now_keeps|]. intros _. apply flush_keeps.
Qed.

Lemma prepared_or_error {A} cur (event_of : A -> DBChangeEvent) e0 (r : option A) :
  triple (prepared cur event_of e0 r) (match r with None => _handle_error | Some p => mret p end : M BP bp_exn A)
    (fun a s => keeps cur s /\ same_change e0 (event_of a)) (fun _ => acks_stored).
Proof. destruct r; [by apply triple_ret|apply error_acks]. Qed.

Lemma handle_event_keeps msg e0 evt :
  msg ∈ ms -> from_message (m_data msg) = FMOk e0 -> same_change e0 evt ->
  triple (keeps (Some msg)) (handle_event cfg now_at msg evt) (fun _ => keeps None) (fun _ => acks_stored).
Proof.
  intros Hm Hf He. unfold handle_event.
  apply (triple_bind _ _ _ (prepared (Some msg) snd evt)).
  { destruct (bp_supports_migration cfg); [|by apply triple_ret].
    by eapply triple_post; [apply migration_keeps|..]. }
  intros mig. eapply triple_bind; [apply prepared_or_error|]. intros [force evt1].
  apply triple_pure. intros H1. eapply triple_bind.
  { by eapply triple_post; [apply drop_keeps|..]. }
  intros dr. eapply triple_bind; [apply prepared_or_error|]. intros evt2.
  apply triple_pure. intros H2. eapply triple_bind.
  { eapply triple_post; [apply (process_call_keeps msg e0 evt2); [done|done|]|done|done].
    etrans; [exact He|]. etrans; [exact H1|exact H2]. }
  intros r. apply (triple_bind _ _ _ (fun _ => keeps None)).
  { destruct r as [err|b]; [apply dec_error_acks|].
    apply (triple_bind _ _ _ (fun _ => keeps None)); [by eapply triple_post; [apply emit_process_keeps|..]|].
    intros _. by apply triple_ret. }
  intros b. apply triple_gets_bind. intros pending. apply (triple_pre _ (keeps None)); [|by intros s []].
  destruct (_ || _); [apply flush_keeps|apply latency_keeps].
Qed.

Lemma skip_keeps msg :
  triple (keeps (Some msg))
    (_ ← emit (TSkip (m_id msg)); _ ← _ack msg; _ ← _remove_from_pending msg; emit TDec : M BP bp_exn unit)
    (fun _ => keeps None) never.
Proof.
  apply triple_bind with (R := fun _ s => keeps None s /\ TSkip (m_id msg) ∈ bp_trace s).
  { intros s Hs. pose proof (emit_keeps (TSkip (m_id msg)) (Some msg) never I s Hs) as [Hd Hp Hm Ha].
    split; [split; try done|simpl; set_solver].
    intros m Hin. destruct (Hm m Hin) as [?|[= <-]]; [by left|]. left. right. simpl. set_solver. }
  intros _. apply triple_bind with (R := fun _ => keeps None).
  { apply triple_modify. intros s [[Hd Hp Hm Ha] Hskip]. split; simpl; [done| | |].
    - intros i Hi. apply Hp. set_solver.
    - intros m Hin. destruct (Hm m Hin); [left; by apply seen_app|by right].
    - intros i ok. simpl. rewrite elem_of_app, list_elem_of_singleton. intros [Hi|Hi].
      + destruct (Ha i ok Hi); [left; set_solver|by right].
      + injection Hi as -> _. left. set_solver. }
  intros _. apply triple_bind with (R := fun _ => keeps None); [|intros _; by apply emit_keeps].
  apply triple_modify. intros s [Hd Hp Hm Ha]. split; simpl; try done.
  intros m Hin. apply Hm. by eapply remove_msg_subset.
Qed.

Lemma process_message_keeps msg :
  msg ∈ ms ->
  triple (keeps None) (process_message cfg now_at msg) (fun _ => keeps None) (fun _ => acks_stored).
Proof.
  intros Hin. unfold process_message. destruct (m_meta msg) as [m|].
  2: { apply (triple_pre _ acks_stored); [apply dec_error_acks|apply k_acks]. }
  apply triple_bind with (R := fun _ => keeps (Some msg)).
  { apply triple_modify. intros s [Hd Hp Hm Ha]. split; simpl; try done.
    intros m' [Hm'|<-%list_elem_of_singleton]%elem_of_app; [|by right].
    destruct (Hm m' Hm'); [by left|done]. }
  intros _. apply triple_gets_bind. intros seq. apply (triple_pre _ (keeps (Some msg))); [|by intros s []].
  apply triple_bind with (R := fun _ => keeps (Some msg)).
  { destruct (_ =? _); [by apply triple_ret|].
    apply (triple_pre _ acks_stored); [apply dec_error_acks|apply k_acks]. }
  intros _. apply triple_bind with (R := fun _ => keeps (Some msg)).
  { apply triple_modify. intros s [Hd Hp Hm Ha]. by split. }
  intros _. destruct (from_message (m_data msg)) as [evt| |] eqn:Ef.
  - destruct (should_skip cfg evt) as [[[] evt']|] eqn:Es.
    + eapply triple_post; [apply skip_keeps|done|done].
    + apply (handle_event_keeps msg evt evt'); [done|done|]. by eapply should_skip_change.
    + apply triple_raise. apply k_acks.
  - apply (triple_pre _ acks_stored); [apply dec_error_acks|apply k_acks].
  - apply triple_raise. apply k_acks.
Qed.

Lemma on_idle_keeps : triple (keeps None) (on_idle cfg now_at) (fun _ => keeps None) (fun _ => acks_stored).
Proof.
  unfold on_idle. do 2 (apply triple_gets_bind; intros ?; apply (triple_pre _ (keeps None)); [|by intros s []]).
  case_match; [|by apply triple_ret]. case_match; [|by apply triple_ret].
  apply (triple_bind _ _ _ (fun _ => keeps None)); [apply now_keeps|]. intros t.
  case_match; [apply flush_keeps|by apply triple_ret].
Qed.

Lemma run_keeps inputs :
  msgs inputs ⊆ ms ->
  triple (keeps None) (run cfg now_at inputs) (fun _ => keeps None) (fun _ => acks_stored).
Proof.
  intros Hsub. apply triple_for_each_elem. intros [msg|] Hi; simpl.
  - apply process_message_keeps. apply Hsub. apply list_elem_of_omap. by exists (IMsg msg).
  - apply on_idle_keeps.
Qed.
End invariant.

(** an acknowledged message was skipped, or stored by the destination [d] *)
Definition settled_at (ms : list Msg) (t : list effect) (d : D) (i : nat) : Prop :=
  TSkip i ∈ t \/ safe_at ms d i.

Lemma acked_settled inputs s i ok :
  bp_trace s = [] -> bp_pending s = [] -> driver_ok (bp_driver s) ->
  TAck i ok ∈ bp_trace (run cfg now_at inputs s).2 ->
  settled_at (msgs inputs) (bp_trace (run cfg now_at inputs s).2) (bp_driver (run cfg now_at inputs s).2) i.
Proof.
  intros Ht Hp Hd Hi. pose proof (run_keeps (msgs inputs) inputs ltac:(done) s) as H.
  assert (keeps (msgs inputs) None s) as K.
  { split; [done|rewrite Ht|rewrite Hp|intros j ok']; [by intros j ?%elem_of_nil..|].
    rewrite Ht. by intros ?%elem_of_nil. }
  specialize (H K). unfold settled_at. destruct (run cfg now_at inputs s) as [[e|[]] s']; simpl in *; [|apply k_acks in H]; by apply (H i ok).
Qed.

(** C2: over a destination that keeps its promises, at the end of every run, however
    it ends, each acknowledged message was skipped, or what the driver made of
    its event (its change, with the diff, the validated path and the object
    possibly edited) is stored. *)
Theorem acked_is_stored inputs s i ok :
  bp_trace s = [] -> bp_pending s = [] -> driver_ok (bp_driver s) ->
  TAck i ok ∈ bp_trace (run cfg now_at inputs s).2 ->
  settled_at (msgs inputs) (bp_trace (run cfg now_at inputs s).2) (bp_driver (run cfg now_at inputs s).2) i.
Proof. apply acked_settled. Qed.
End durable.
