(* ===== verification/Bufferer.v ===== *)
(** * The drain loop: eds/consumer/bufferer.py

    [Bufferer.run] alternates between draining the queue, checking the hard
    cancel, the idle tick and waiting for one more item.  The queue and the
    cancel event are driven from outside, so an execution is a list of rounds:
    what the queue held when it was drained, whether the cancel event was set,
    and what the bounded wait returned.  A run that uses up its rounds is still
    running. *)
From stdpp Require Import base tactics list option numbers sets strings.
From S2P Require Import Prelude PyStr PyDict PyFloat GoJson Schema DbChange Interfaces BatchProcessor ConsumerSafety.

(** a queue item: a message, or the graceful-drain sentinel [None] *)
Abbreviation item := (option Msg).

Record round := mk_round {
  rd_drained : list item;
  rd_cancel : bool;
  rd_waited : option item   (** [None] is the timeout of [wait_for] *)
}.

(** how an execution ends *)
Inductive run_status : Type :=
| Running                     (** all rounds used *)
| Returned                    (** [run] returned *)
| Died (e : bp_exn).          (** an exception left [run]: the task dies *)

Section Bufferer.
Context {D R : Type} `{!Driver D} `{!Registry R}.
Context (cfg : bp_config) (now_at : nat -> Z).
Notation BP := (@BP D R).

Record BF := mk_bf {
  bf_processor : BP;
  bf_fatals : nat           (** calls of [on_fatal] *)
}.

(** call a method of the processor *)
Definition call (m : M BP bp_exn unit) : M BF bp_exn (bp_exn + unit) :=
  fun s => let '(r, p) := m (bf_processor s) in (inr r, mk_bf p (bf_fatals s)).

Definition on_fatal : M BF bp_exn unit := modify (fun s => mk_bf (bf_processor s) (S (bf_fatals s))).

(** the two handlers around [process_message] and [on_idle]: stop? *)
Definition handled (r : bp_exn + unit) : M BF bp_exn bool :=
  match r with
  | inr _ => mret false
  | inl Stopped => mret true
  | inl Fatal => _ ← on_fatal; mret true
  | inl e => raise e
  end.

(** [try: flush except (ConsumerStoppedError, ConsumerFatalError): pass] *)
Definition _final_flush : M BF bp_exn unit :=
  r ← call (flush now_at);
  match r with
  | inr _ | inl Stopped | inl Fatal => mret tt
  | inl e => raise e
  end.

Definition _handle (i : item) : M BF bp_exn bool :=
  match i with
  | None => _ ← _final_flush; mret true
  | Some msg => r ← call (process_message cfg now_at msg); handled r
  end.

Fixpoint drain (items : list item) : M BF bp_exn bool :=
  match items with
  | [] => mret false
  | i :: rest => stop ← _handle i; if stop : bool then mret true else drain rest
  end.

(** one round; [true] when [run] returns *)
Definition one_round (rd : round) : M BF bp_exn bool :=
  stop ← drain (rd_drained rd);
  if stop : bool then mret true
  else if rd_cancel rd then _ ← call nack_everything; mret true
  else
    r ← call (on_idle cfg now_at);
    stop ← handled r;
    if stop : bool then mret true
    else match rd_waited rd with
         | None => mret false
         | Some i => _handle i
         end.

Fixpoint run_rounds (rounds : list round) (s : BF) : run_status * BF :=
  match rounds with
  | [] => (Running, s)
  | rd :: rest =>
      match one_round rd s with
      | (inl e, s') => (Died e, s')
      | (inr true, s') => (Returned, s')
      | (inr false, s') => run_rounds rest s'
      end
  end.

(** ** Invariants of the loop *)

Definition empty_batch (s : BF) : Prop :=
  bp_pending (bf_processor s) = [] /\ bp_pending_started (bf_processor s) = None.

(** what holds while the loop runs, and what holds once it has returned *)
Definition loop_inv (s : BF) : Prop := good (bf_processor s) /\ bounded cfg (bf_processor s).
Definition loop_end (s : BF) : Prop := acks_safe (bp_trace (bf_processor s)) /\ empty_batch s.

Definition stop_post (stop : bool) (s : BF) : Prop := if stop then loop_end s else loop_inv s.
(** only the two exceptions that no handler names leave the loop *)
Definition died_post (e : bp_exn) (s : BF) : Prop := e = Uncaught \/ e = Unmodelled.

Hypothesis Hmax : 0 < bp_max cfg.

Lemma nack_end s : loop_inv s -> loop_end (mk_bf (nack_everything (bf_processor s)).2 (bf_fatals s)).
Proof.
  intros [[Ha _] _]. rewrite nack_everything_eq. split; [|done]. simpl.
  apply acks_safe_app; [done|apply naks_no_ack].
Qed.

(** a step of the processor, followed by its handlers *)
Lemma step_handled i :
  triple loop_inv (r ← call (step cfg now_at i); handled r) stop_post died_post.
Proof.
  intros s [G B]. pose proof (step_good cfg now_at i _ G) as HG.
  pose proof (step_bounded cfg now_at i Hmax _ B) as HB.
  unfold call. destruct (step cfg now_at i (bf_processor s)) as [[e|[]] p] eqn:E.
  - rewrite (bind_inr _ _ _ (inl e) (mk_bf p (bf_fatals s))) by by rewrite E.
    assert (e <> Uncaught -> e <> Unmodelled -> acks_safe (bp_trace p) /\ bp_pending p = [] /\ bp_pending_started p = None) as Hend.
    { intros H1 H2. destruct HB as [?|[?|[[_ Hb] Hp]]]; [done..|]. split_and!; [done|done|by apply Hb]. }
    destruct e; simpl; try (by left); try (by right);
      destruct Hend as (? & ? & ?); try done; split; done.
  - rewrite (bind_inr _ _ _ (inr tt) (mk_bf p (bf_fatals s))) by by rewrite E. simpl. by split.
Qed.

Lemma final_flush_end : triple loop_inv (_ ← _final_flush; mret true) stop_post died_post.
Proof.
  intros s [G B]. pose proof (flush_outcomes now_at (bf_processor s)) as H.
  unfold _final_flush, call. destruct (flush now_at (bf_processor s)) as [r p] eqn:E. simpl in H.
  destruct (flush_good _ _ _ H G) as [Ha Hp]. pose proof (flush_cleared _ _ _ H) as (_ & Hs & _).
  assert (r = inr tt \/ r = inl Stopped \/ r = inl Fatal) as Hr.
  { destruct H as [|e s' [-> | ->]|]; auto. }
  unfold mbind, M_bind. rewrite E. destruct Hr as [-> |[-> | ->]]; simpl; done.
Qed.

Lemma handle_inv i : triple loop_inv (_handle i) stop_post died_post.
Proof. destruct i as [msg|]; [apply (step_handled (IMsg msg))|apply final_flush_end]. Qed.

Lemma drain_inv items : triple loop_inv (drain items) stop_post died_post.
Proof.
  induction items as [|i items IH]; simpl; [by intros s Hs|].
  eapply triple_bind; [apply handle_inv|]. intros [|]; [by intros s Hs|apply IH].
Qed.

Lemma one_round_inv rd : triple loop_inv (one_round rd) stop_post died_post.
Proof.
  unfold one_round. eapply triple_bind; [apply drain_inv|].
  intros [|]; [by intros s Hs|]. destruct (rd_cancel rd).
  - intros s Hs. pose proof (nack_end s Hs) as H. unfold call, mbind, M_bind.
    destruct (nack_everything (bf_processor s)) as [r p]. done.
  - intros s Hs. pose proof (step_handled IIdle s Hs) as H. unfold mbind, M_bind in *.
    unfold call in *. simpl step in *.
    destruct (on_idle cfg now_at (bf_processor s)) as [r p].
    destruct (handled r _) as [[e|[|]] s']; [done|done|].
    destruct (rd_waited rd) as [i|]; [by apply handle_inv|done].
Qed.

(** C9: whatever the rounds, the drain loop never acknowledges a message
    before a flush; once it returns (clean stop, fatal error, sentinel or hard
    cancel) no message is left in the batch; and an exception leaves it only
    for a date outside the cutoff check's range (or a message outside the
    model). *)
Theorem bufferer_safe rounds p :
  bp_pending p = [] -> bp_pending_started p = None -> bp_trace p = [] ->
  match run_rounds rounds (mk_bf p 0) with
  | (Running, s) => good (bf_processor s) /\ bounded cfg (bf_processor s)
  | (Returned, s) => acks_safe (bp_trace (bf_processor s)) /\ bp_pending (bf_processor s) = []
  | (Died e, s) => e = Uncaught \/ e = Unmodelled
  end.
Proof.
  intros Hp Hs Ht. assert (loop_inv (mk_bf p 0)) as HI.
  { unfold loop_inv, good, bounded. simpl. rewrite Hp, Hs, Ht. simpl.
    split_and!; [apply acks_safe_nil|done|lia|done..]. }
  revert HI. generalize (mk_bf p 0). clear p Hp Hs Ht.
  induction rounds as [|rd rounds IH]; intros s HI; simpl; [done|].
  pose proof (one_round_inv rd s HI) as H. destruct (one_round rd s) as [[e|[|]] s']; [done| |by apply IH].
  by destruct H as [? [? _]].
Qed.

(** an event whose timestamp is not a date of the years 1 to 9999, on a
    table with an export cutoff, escapes every handler: the drain task dies
    with the batch still pending, nothing is nak'd and [on_fatal] is not
    called, unlike for every other bad message. *)
Theorem cutoff_date_error_escapes p n msg m evt cutoff :
  m_meta msg = Some m -> md_consumer_seq m = bp_sequence p + 1 ->
  from_message (m_data msg) = FMOk evt ->
  bp_table_timestamps cfg ≫= dict_get (ev_table evt) = Some (Some cutoff) ->
  fromtimestamp_ms (ev_timestamp evt) = None ->
  _handle (Some msg) (mk_bf p n) = (inl Uncaught, mk_bf (appended p msg m) n).
Proof.
  intros Hm Hs Hf Hc Ht.
  assert (process_message cfg now_at msg p = (inl Uncaught, appended p msg m)) as E.
  { unfold process_message. rewrite Hm. erewrite bind_inr by done. erewrite bind_inr by done.
    cbn [bp_sequence set_pending]. rewrite Hs, Z.eqb_refl.
    erewrite bind_inr by done. erewrite bind_inr by done. rewrite Hf.
    unfold should_skip, before_cutoff. rewrite Hc, Ht. unfold appended. by rewrite Hs. }
  unfold _handle, call, mbind, M_bind. simpl. by rewrite E.
Qed.
End Bufferer.

Lemma bufferer_safe_witness :
  exists s, run_rounds (D := nat) (R := unit) (Driver0 := counting_driver) (Registry0 := one_table_registry)
      sample_cfg sample_clock
      [mk_round [Some (sample_msg 1 1 true)] false (Some (Some (sample_msg 2 2 false)))]
      (mk_bf sample_state 0) = (Returned, s) /\
    acks_safe (bp_trace (bf_processor s)) /\ bp_pending (bf_processor s) = [].
Proof.
  pose proof (bufferer_safe (Driver0 := counting_driver) (Registry0 := one_table_registry)
      sample_cfg sample_clock eq_refl
      [mk_round [Some (sample_msg 1 1 true)] false (Some (Some (sample_msg 2 2 false)))]
      sample_state eq_refl eq_refl eq_refl) as H.
  destruct (run_rounds _ _ _ _) as [st s] eqn:E.
  assert (st = Returned) as -> by (vm_compute in E; by injection E).
  by exists s.
Defined.

(** an event with a timestamp in nanoseconds *)
Definition nanosecond_event : DBChangeEvent :=
  mk_event (u"UPDATE") (u"e1") (u"customer") (Some [u"42"]) (u"v1") None None None
    None None None 1700000000123000000 (Some (u"1.5")) false None None.
Definition nanosecond_msg : Msg :=
  mk_msg 9 (utf8_encode (default [] (to_json nanosecond_event))) (Some (mk_meta 1 1 1 0))
    (Some (mk_meta 1 1 1 0)) true true.
Definition cutoff_cfg : bp_config :=
  mk_bp_config 2 2000 30000 (Some [(u"customer", Some 1700000000000000)]) false true None.

Lemma cutoff_date_error_escapes_witness :
  exists s, _handle (D := nat) (R := unit) (Driver0 := counting_driver) (Registry0 := one_table_registry)
      cutoff_cfg sample_clock (Some nanosecond_msg) (mk_bf sample_state 0) = (inl Uncaught, s) /\
    bp_pending (bf_processor s) = [nanosecond_msg] /\ bf_fatals s = 0%nat /\ bp_trace (bf_processor s) = [].
Proof.
  eexists. split.
  - eapply (cutoff_date_error_escapes (Driver0 := counting_driver) (Registry0 := one_table_registry)
             cutoff_cfg sample_clock sample_state 0 nanosecond_msg (mk_meta 1 1 1 0) nanosecond_event);
      by vm_compute.
  - done.
Defined.
