(* ===== verification/Consumer.v ===== *)
(** * The consumer around the batch processor: eds/consumer/consumer.py, connection.py

    [create] connects, finds or makes the durable consumer of the stream, sets up
    the batch processor and reconciles the destination with the registry;
    [start], [pause], [unpause] and [stop] run it.  JetStream is an instance of
    [Nats]; the tasks the consumer spawns are flags here: what the bufferer task
    does is [Bufferer], what it calls is [BatchProcessor].

    The theorems: a new durable leaves no gap between an import and the stream;
    what the reconciliation does to the destination; and what the methods do to
    the subscription, whatever their order. *)
From stdpp Require Import base tactics list option numbers sets strings.
From S2P Require Import Prelude PyStr PyUrl PyDict PyFloat GoJson Schema DbChange Interfaces Credentials ConsumerConfig BatchProcessor ConsumerSafety.

(** ** JetStream *)

(** the delivery policies of the nats package *)
Inductive DeliverPolicy : Type := ALL | LAST | NEW | BY_START_SEQUENCE | BY_START_TIME | LAST_PER_SUBJECT.
#[global] Instance DeliverPolicy_dec : EqDecision DeliverPolicy.
Proof. solve_decision. Defined.

(** the fields of nats.js.api.ConsumerConfig that are set; the acknowledgement
    policy is always explicit, durations are seconds, times microseconds *)
Record JsConfig := mk_js_config {
  js_durable_name : pystr;
  js_deliver_policy : option DeliverPolicy;
  js_opt_start_time : option Z;
  js_max_ack_pending : Z;
  js_max_deliver : Z;
  js_ack_wait : Z;
  js_filter_subjects : list pystr;
  js_inactive_threshold : Z;
  js_max_waiting : option Z
}.

Record ConsumerInfo := mk_consumer_info {
  ji_deliver_policy : option DeliverPolicy;
  ji_opt_start_time : option Z;
  ji_max_waiting : option Z;
  ji_num_waiting : option Z;
  ji_delivered_seq : Z
}.

Class Nats (W : Type) := {
  (** the content of a file; [None]: it does not exist *)
  nats_file : pystr -> W -> option (list Z);
  nats_uuid : W -> pystr * W;
  (** servers, name, credentials *)
  nats_connect : list pystr -> pystr -> option pystr -> method W unit unit;
  (** [None] is the NotFoundError *)
  js_consumer_info : pystr -> pystr -> method W unit (option ConsumerInfo);
  js_add_consumer : pystr -> JsConfig -> method W unit unit;
  js_pull_subscribe_bind : pystr -> pystr -> method W unit unit;
  psub_unsubscribe : method W unit unit;
  nc_close : method W unit unit
}.

Definition _STREAM : pystr := u"dbchange".
Definition _DEFAULT_NATS_PORT : pystr := u"4222".

(** ** The connection *)

(** [None] is a ValueError *)
Definition _ensure_nats_port (server : pystr) : option pystr :=
  let candidate := if substr_in (u"://") server then server else u"nats://" ++ server in
  match urlsplit candidate with
  | None => None
  | Some parsed =>
      match sp_hostname parsed with
      | None => Some server
      | Some hostname =>
          match sp_port parsed with
          | inl _ => None
          | inr (Some _) => Some server
          | inr None =>
              let host := if char_in 58 hostname then u"[" ++ hostname ++ u"]" else hostname in
              let userinfo := match sp_username parsed with
                              | None => []
                              | Some name => name ++ match sp_password parsed with Some p => u":" ++ p | None => [] end ++ u"@"
                              end in
              Some (sp_scheme parsed ++ u"://" ++ userinfo ++ host ++ u":" ++ _DEFAULT_NATS_PORT ++ parsed_path parsed)
          end
      end
  end.

(** ** The consumer *)

(** ValueErrors of the credentials and of the company ids, an exception of the
    network, ConsumerAlreadyRunningError, RuntimeErrors *)
Inductive consumer_exn : Type :=
| CnCreds (e : cred_error) | CnUrl | CnNats | CnCompany | CnAlreadyRunning
| CnSchema (text : pystr) | CnDriver (e : driver_error) | CnStarted.

(** what the processor is built from *)
Record Processor := mk_processor { pr_config : bp_config; pr_sequence : Z }.

Section consumer.
Context {W D R : Type} `{!Nats W} `{!Driver D} `{!Registry R}.
(** [set_session_id] of a driver that is a DriverSessionHandler, else nothing *)
Context (set_session_id : pystr -> D -> D).
(** of the configuration: the url, the credentials file, the rest, whether there
    is a registry, the validator *)
Context (url credentials : pystr) (cfg : ConsumerConfig) (has_registry : bool)
  (validator : option (DBChangeEvent -> validation)).

Record CS := mk_cs {
  cs_world : W;
  cs_driver : D;
  cs_registry : R;
  cs_nc : bool;              (** [_nc] is not [None] *)
  cs_psub : bool;            (** [_psub] is not [None] *)
  cs_consuming : bool;       (** [_consume_task] is not [None] *)
  cs_running : bool;
  cs_stopping : bool;
  cs_tasks : bool;           (** the bufferer and the heartbeat were spawned *)
  cs_drained : bool;         (** [stop] waited for the bufferer, which ends or gets its sentinel *)
  cs_paused : bool;          (** [_paused_at] is not [None] *)
  cs_session_id : pystr;
  cs_company_ids : list pystr;
  cs_durable : pystr;
  cs_processor : option Processor;
  cs_added : list JsConfig   (** the calls of [add_consumer] that returned *)
}.

Definition fresh_consumer (w : W) (d : D) (r : R) : CS :=
  mk_cs w d r false false false false false false false false [] [] [] None [].

Definition cs_set_world w (s : CS) : CS :=
  mk_cs w (cs_driver s) (cs_registry s) (cs_nc s) (cs_psub s) (cs_consuming s) (cs_running s) (cs_stopping s) (cs_tasks s)
    (cs_drained s) (cs_paused s) (cs_session_id s) (cs_company_ids s) (cs_durable s) (cs_processor s) (cs_added s).
Definition cs_set_driver d (s : CS) : CS :=
  mk_cs (cs_world s) d (cs_registry s) (cs_nc s) (cs_psub s) (cs_consuming s) (cs_running s) (cs_stopping s) (cs_tasks s)
    (cs_drained s) (cs_paused s) (cs_session_id s) (cs_company_ids s) (cs_durable s) (cs_processor s) (cs_added s).
Definition cs_set_registry r (s : CS) : CS :=
  mk_cs (cs_world s) (cs_driver s) r (cs_nc s) (cs_psub s) (cs_consuming s) (cs_running s) (cs_stopping s) (cs_tasks s)
    (cs_drained s) (cs_paused s) (cs_session_id s) (cs_company_ids s) (cs_durable s) (cs_processor s) (cs_added s).
Definition cs_set_session (session_id : pystr) (s : CS) : CS :=
  mk_cs (cs_world s) (cs_driver s) (cs_registry s) true (cs_psub s) (cs_consuming s) (cs_running s) (cs_stopping s) (cs_tasks s)
    (cs_drained s) (cs_paused s) session_id (cs_company_ids s) (cs_durable s) (cs_processor s) (cs_added s).
Definition cs_set_companies (ids : list pystr) (s : CS) : CS :=
  mk_cs (cs_world s) (cs_driver s) (cs_registry s) (cs_nc s) (cs_psub s) (cs_consuming s) (cs_running s) (cs_stopping s) (cs_tasks s)
    (cs_drained s) (cs_paused s) (cs_session_id s) ids (cs_durable s) (cs_processor s) (cs_added s).
Definition cs_set_durable (durable : pystr) (s : CS) : CS :=
  mk_cs (cs_world s) (cs_driver s) (cs_registry s) (cs_nc s) (cs_psub s) (cs_consuming s) (cs_running s) (cs_stopping s) (cs_tasks s)
    (cs_drained s) (cs_paused s) (cs_session_id s) (cs_company_ids s) durable (cs_processor s) (cs_added s).
Definition cs_set_processor (p : Processor) (s : CS) : CS :=
  mk_cs (cs_world s) (cs_driver s) (cs_registry s) (cs_nc s) (cs_psub s) (cs_consuming s) (cs_running s) (cs_stopping s) (cs_tasks s)
    (cs_drained s) (cs_paused s) (cs_session_id s) (cs_company_ids s) (cs_durable s) (Some p) (cs_added s).
Definition cs_log_added (c : JsConfig) (s : CS) : CS :=
  mk_cs (cs_world s) (cs_driver s) (cs_registry s) (cs_nc s) (cs_psub s) (cs_consuming s) (cs_running s) (cs_stopping s) (cs_tasks s)
    (cs_drained s) (cs_paused s) (cs_session_id s) (cs_company_ids s) (cs_durable s) (cs_processor s) (cs_added s ++ [c]).
(** the subscription and its task *)
Definition cs_set_consume (psub consuming : bool) (s : CS) : CS :=
  mk_cs (cs_world s) (cs_driver s) (cs_registry s) (cs_nc s) psub consuming (cs_running s) (cs_stopping s) (cs_tasks s)
    (cs_drained s) (cs_paused s) (cs_session_id s) (cs_company_ids s) (cs_durable s) (cs_processor s) (cs_added s).
Definition cs_set_paused (paused : bool) (s : CS) : CS :=
  mk_cs (cs_world s) (cs_driver s) (cs_registry s) (cs_nc s) (cs_psub s) (cs_consuming s) (cs_running s) (cs_stopping s) (cs_tasks s)
    (cs_drained s) paused (cs_session_id s) (cs_company_ids s) (cs_durable s) (cs_processor s) (cs_added s).
Definition cs_set_running (s : CS) : CS :=
  mk_cs (cs_world s) (cs_driver s) (cs_registry s) (cs_nc s) (cs_psub s) (cs_consuming s) true (cs_stopping s) (cs_tasks s)
    (cs_drained s) (cs_paused s) (cs_session_id s) (cs_company_ids s) (cs_durable s) (cs_processor s) (cs_added s).
Definition cs_set_tasks (s : CS) : CS :=
  mk_cs (cs_world s) (cs_driver s) (cs_registry s) (cs_nc s) (cs_psub s) (cs_consuming s) (cs_running s) (cs_stopping s) true
    (cs_drained s) (cs_paused s) (cs_session_id s) (cs_company_ids s) (cs_durable s) (cs_processor s) (cs_added s).
Definition cs_set_stopping (s : CS) : CS :=
  mk_cs (cs_world s) (cs_driver s) (cs_registry s) (cs_nc s) (cs_psub s) (cs_consuming s) (cs_running s) true (cs_tasks s)
    (cs_drained s) (cs_paused s) (cs_session_id s) (cs_company_ids s) (cs_durable s) (cs_processor s) (cs_added s).
Definition cs_set_drained (s : CS) : CS :=
  mk_cs (cs_world s) (cs_driver s) (cs_registry s) (cs_nc s) (cs_psub s) (cs_consuming s) (cs_running s) (cs_stopping s) (cs_tasks s)
    true (cs_paused s) (cs_session_id s) (cs_company_ids s) (cs_durable s) (cs_processor s) (cs_added s).

Abbreviation CM A := (M CS consumer_exn A).

Definition on_nats {A} (f : method W unit A) : CM A :=
  fun s : CS => let '(r, w) := f (cs_world s) in
    (match r with inl _ => inl CnNats | inr a => inr a end, cs_set_world w s).
(** with the exception suppressed *)
Definition on_nats_quiet (f : method W unit unit) : CM unit :=
  fun s : CS => (inr tt, cs_set_world (f (cs_world s)).2 s).
Definition on_driver {A} (f : method D driver_error A) : CM A :=
  fun s : CS => let '(r, d) := f (cs_driver s) in
    (match r with inl e => inl (CnDriver e) | inr a => inr a end, cs_set_driver d s).
Definition on_registry {A} (text : pystr) (f : method R registry_error A) : CM A :=
  fun s : CS => let '(r, g) := f (cs_registry s) in
    (match r with inl _ => inl (CnSchema text) | inr a => inr a end, cs_set_registry g s).

(** *** Reconciliation *)

Definition new_columns (sch : Schema) (dest_columns : pydict pystr) : list pystr :=
  filter (fun c => c ∉ dict_keys dest_columns) (schema_columns sch).

Definition update_one (dest : DatabaseSchema) (entry : pystr * Schema) : CM unit :=
  let '(table, sch) := entry in
  '(found, _) ← on_registry (u"error getting table version for table: " ++ table) (reg_get_table_version table);
  if negb found then raise (CnSchema (u"error getting table version for table: " ++ table ++ u": not found"))
  else match dict_get table dest with
       | None => on_driver (drv_migrate_new_table sch)
       | Some dest_columns =>
           match new_columns sch dest_columns with
           | [] => mret tt
           | cols => on_driver (drv_migrate_new_columns sch cols)
           end
       end.

Definition update_destination_schema : CM unit :=
  schema ← on_registry (u"error getting latest schema") reg_get_latest_schema;
  dest ← on_driver drv_get_destination_schema;
  for_each (update_one dest) schema.

(** *** Creation *)

Definition fresh_uuid : CM pystr :=
  fun s : CS => let '(id, w) := nats_uuid (cs_world s) in (inr id, cs_set_world w s).

(** the credentials path and what is in it; without credentials the development
    server *)
Definition resolve_credentials : CM (option pystr * CredentialInfo) :=
  match credentials with
  | [] => id ← fresh_uuid; mret (None, mk_cred_info [u"*"] (u"dev") id)
  | _ =>
      w ← gets cs_world;
      match get_nats_creds (nats_file credentials w) with
      | inl e => raise (CnCreds e)
      | inr info => mret (Some credentials, info)
      end
  end.

Definition new_nats_connection : CM CredentialInfo :=
  '(creds_path, info) ← resolve_credentials;
  match mapM (fun server => _ensure_nats_port (strip server)) (split_char 44 url) with
  | None => raise CnUrl
  | Some servers => _ ← on_nats (nats_connect servers (u"eds-" ++ ci_server_id info) creds_path); mret info
  end.

(** the override of the company ids, or those of the credentials *)
Definition resolve_companies (allowed : list pystr) : CM (list pystr) :=
  match cc_company_ids cfg with
  | [] => mret allowed
  | override => match validate_company_ids override allowed with
                | Some ids => mret ids
                | None => _ ← on_nats nc_close; raise CnCompany
                end
  end.

(** where a durable starts: an existing one keeps its policy *)
Definition start_policy (existing : option ConsumerInfo) : option DeliverPolicy * option Z :=
  match existing with
  | Some i => (ji_deliver_policy i, ji_opt_start_time i)
  | None =>
      if cc_deliver_all cfg then (Some ALL, None)
      else match earliest_timestamp (cc_export_table_timestamps cfg) with
           | Some start_at => (Some BY_START_TIME, Some start_at)
           | None => (Some NEW, None)
           end
  end.

Definition js_config (durable : pystr) (companies : list pystr) (existing : option ConsumerInfo) : JsConfig :=
  let '(policy, start_at) := start_policy existing in
  mk_js_config durable policy start_at (batch_max cfg) 20 300 (filter_subjects companies) 259200
    (match existing with Some i => ji_max_waiting i | None => Some 1 end).

Definition processor_config : bp_config :=
  mk_bp_config (batch_max cfg) (effective_min_pending_latency cfg) (effective_max_pending_latency cfg)
    (cc_export_table_timestamps cfg) (drv_supports_migration (D := D)) has_registry validator.

Definition create : CM unit :=
  info ← new_nats_connection;
  _ ← modify (cs_set_session (ci_session_id info));
  companies ← resolve_companies (ci_company_ids info);
  _ ← modify (cs_set_companies companies);
  _ ← modify (fun s : CS => cs_set_driver (set_session_id (ci_session_id info) (cs_driver s)) s);
  let durable := durable_name (ci_server_id info) (cc_suffix cfg) in
  _ ← modify (cs_set_durable durable);
  existing ← on_nats (js_consumer_info _STREAM durable);
  let c := js_config durable companies existing in
  _ ← on_nats (js_add_consumer _STREAM c);
  _ ← modify (cs_log_added c);
  ci ← on_nats (js_consumer_info _STREAM durable);
  match ci with
  | None => raise CnNats
  | Some ci =>
      if 0 <? default 0 (ji_num_waiting ci) then _ ← on_nats nc_close; raise CnAlreadyRunning
      else
        _ ← modify (cs_set_processor (mk_processor processor_config (ji_delivered_seq ci)));
        if drv_supports_migration (D := D) && has_registry then update_destination_schema else mret tt
  end.

(** *** Running *)

Definition unpause : CM unit :=
  psub ← gets cs_psub;
  if psub : bool then raise CnStarted
  else
    durable ← gets cs_durable;
    _ ← on_nats (js_pull_subscribe_bind durable _STREAM);
    _ ← modify (cs_set_consume true true);
    modify (cs_set_paused false).

Definition start : CM unit :=
  running ← gets cs_running;
  if running : bool then raise CnStarted
  else
    _ ← modify cs_set_running;
    _ ← unpause;
    modify cs_set_tasks.

Definition pause : CM unit :=
  _ ← modify (fun s : CS => cs_set_consume (cs_psub s) false s);
  psub ← gets cs_psub;
  _ ← (if psub : bool then _ ← on_nats_quiet psub_unsubscribe; modify (cs_set_consume false false) else mret tt);
  modify (cs_set_paused true).

(** [_psub] and the tasks keep their values *)
Definition stop : CM unit :=
  stopping ← gets cs_stopping;
  if stopping : bool then mret tt
  else
    _ ← modify cs_set_stopping;
    psub ← gets cs_psub;
    _ ← (if psub : bool then on_nats_quiet psub_unsubscribe else mret tt);
    tasks ← gets cs_tasks;
    _ ← (if tasks : bool then modify cs_set_drained else mret tt);
    nc ← gets cs_nc;
    if nc : bool then on_nats_quiet nc_close else mret tt.
End consumer.

(** ** A new durable leaves no gap *)

Section create.
Context {W D R : Type} `{!Nats W} `{!Driver D} `{!Registry R}.
Context (set_session_id : pystr -> D -> D) (url credentials : pystr) (cfg : ConsumerConfig) (has_registry : bool)
  (validator : option (DBChangeEvent -> validation)).
Notation CS := (@CS W D R).
Notation create := (create set_session_id url credentials cfg has_registry validator).
Notation processor_config := (processor_config cfg has_registry validator).
Implicit Type s : CS.

(** what the setup has done *)
Definition so_far (added : list JsConfig) (p : option Processor) s : Prop :=
  cs_added s = added /\ cs_processor s = p.

(** a property of the consumer that a computation keeps, and that the calls of its
    collaborators cannot change *)
Definition stable (I : CS -> Prop) : Prop :=
  (forall s w, I s -> I (cs_set_world w s)) /\ (forall s d, I s -> I (cs_set_driver d s)) /\
  (forall s r, I s -> I (cs_set_registry r s)).

Definition frames {A} (I : CS -> Prop) (m : M CS consumer_exn A) : Prop := triple I m (fun _ => I) (fun _ => I).

Lemma so_far_stable added p : stable (so_far added p).
Proof. by split_and!. Qed.

Section frames.
Context (I : CS -> Prop) (HI : stable I).
Notation frames := (frames I).

Lemma frames_bind {A B} (m : M CS consumer_exn A) (f : A -> M CS consumer_exn B) :
  frames m -> (forall a, frames (f a)) -> frames (m ≫= f).
Proof. intros Hm Hf. eapply triple_bind; [apply Hm|]. exact Hf. Qed.

Lemma frames_ret {A} (a : A) : frames (mret a).
Proof. by intros s. Qed.
Lemma frames_raise {A} e : frames (raise e : M CS consumer_exn A).
Proof. by intros s. Qed.
Lemma frames_gets {A} (f : CS -> A) : frames (gets f).
Proof. by intros s. Qed.
Lemma frames_modify f : (forall s, I s -> I (f s)) -> frames (modify f).
Proof. intros Hf s. apply Hf. Qed.
Lemma frames_nats {A} (f : method W unit A) : frames (on_nats f).
Proof. intros s Hs. unfold on_nats. destruct (f (cs_world s)) as [[] w]; by apply HI. Qed.
Lemma frames_driver {A} (f : method D driver_error A) : frames (on_driver f).
Proof. intros s Hs. unfold on_driver. destruct (f (cs_driver s)) as [[] d]; by apply HI. Qed.
Lemma frames_registry {A} t (f : method R registry_error A) : frames (on_registry t f).
Proof. intros s Hs. unfold on_registry. destruct (f (cs_registry s)) as [[] r]; by apply HI. Qed.
Lemma frames_uuid : frames fresh_uuid.
Proof. intros s Hs. unfold fresh_uuid. destruct (nats_uuid (cs_world s)). by apply HI. Qed.

Create HintDb frames.
#[local] Hint Resolve frames_ret frames_raise frames_gets frames_nats frames_driver frames_registry frames_uuid : frames.

(** one step of a computation that frames *)
Ltac framing := repeat first
  [ solve [eauto with frames]
  | apply frames_bind; [|intros ?]
  | progress case_match
  | apply frames_modify; by auto ].

Lemma frames_update_one dest entry : frames (update_one dest entry).
Proof. unfold update_one. destruct entry. framing. Qed.

Lemma frames_update : frames (update_destination_schema (D := D)).
Proof.
  unfold update_destination_schema. framing. apply triple_for_each. intros entry. apply frames_update_one.
Qed.

Lemma frames_connection : frames (new_nats_connection url credentials).
Proof. unfold new_nats_connection, resolve_credentials. framing. Qed.

Lemma frames_companies allowed : frames (resolve_companies cfg allowed).
Proof. unfold resolve_companies. framing. Qed.

End frames.
#[local] Hint Resolve so_far_stable : frames.

(** the setup keeps what its assignments keep *)
Lemma frames_create I : stable I ->
  (forall s x, I s -> I (cs_set_session x s)) -> (forall s x, I s -> I (cs_set_companies x s)) ->
  (forall s x, I s -> I (cs_set_durable x s)) -> (forall s x, I s -> I (cs_log_added x s)) ->
  (forall s x, I s -> I (cs_set_processor x s)) -> frames I create.
Proof.
  intros HI H1 H2 H3 H4 H5. unfold create. apply frames_bind; [by apply frames_connection|]. intros info.
  apply frames_bind; [apply frames_modify; auto|]. intros _. apply frames_bind; [by apply frames_companies|]. intros companies.
  apply frames_bind; [apply frames_modify; auto|]. intros _.
  apply frames_bind; [apply frames_modify; intros s; by apply HI|]. intros _.
  apply frames_bind; [apply frames_modify; auto|]. intros _. apply frames_bind; [by apply frames_nats|]. intros existing.
  apply frames_bind; [by apply frames_nats|]. intros _. apply frames_bind; [apply frames_modify; auto|]. intros _.
  apply frames_bind; [by apply frames_nats|]. intros [ci|]; [|apply frames_raise].
  destruct (0 <? _); [apply frames_bind; [by apply frames_nats|intros _; apply frames_raise]|].
  apply frames_bind; [apply frames_modify; auto|]. intros _.
  destruct (_ && _); [by apply frames_update|apply frames_ret].
Qed.

(** company ids that are accepted leave the consumer as it is *)
Lemma resolve_companies_same allowed s ids s1 : resolve_companies cfg allowed s = (inr ids, s1) -> s1 = s.
Proof.
  unfold resolve_companies. destruct (cc_company_ids cfg) as [|x l]; [by intros [= _ <-]|].
  destruct (validate_company_ids (x :: l) allowed); [by intros [= _ <-]|]. by intros (? & ? & _ & ?)%bind_split.
Qed.

Lemma on_nats_inr {A} (f : method W unit A) s a s1 : on_nats f s = (inr a, s1) -> exists w, f (cs_world s) = (inr a, w) /\ s1 = cs_set_world w s.
Proof. unfold on_nats. destruct (f (cs_world s)) as [[e|x] w]; [done|]. intros [= <- <-]. by exists w. Qed.

(** the answers of the network a setup that returned has met, in their order, and
    what it made of them *)
Lemma create_run s s' : create s = (inr tt, s') ->
  exists info s1 existing w1 companies w2 ci w3,
    new_nats_connection url credentials s = (inr info, s1) /\
    let durable := durable_name (ci_server_id info) (cc_suffix cfg) in
    let c := js_config cfg durable companies existing in
    js_consumer_info _STREAM durable (cs_world s1) = (inr existing, w1) /\
    js_add_consumer _STREAM c w1 = (inr tt, w2) /\
    js_consumer_info _STREAM durable w2 = (inr (Some ci), w3) /\
    cs_added s' = cs_added s ++ [c] /\ cs_processor s' = Some (mk_processor processor_config (ji_delivered_seq ci)).
Proof.
  unfold create. intros (info & s1 & E1 & H)%bind_split.
  pose proof (frames_connection (fun x => cs_added x = cs_added s) ltac:(by split_and!) s eq_refl) as Ha. rewrite E1 in Ha.
  apply bind_split in H as ([] & ? & [= <-] & H). apply bind_split in H as (companies & ? & ->%resolve_companies_same & H).
  do 3 (apply bind_split in H as ([] & ? & [= <-] & H)).
  apply bind_split in H as (existing & ? & (w1 & E2 & ->)%on_nats_inr & H).
  apply bind_split in H as ([] & ? & (w2 & E3 & ->)%on_nats_inr & H). apply bind_split in H as ([] & ? & [= <-] & H).
  apply bind_split in H as ([ci|] & ? & (w3 & E4 & ->)%on_nats_inr & H); [|done].
  exists info, s1, existing, w1, companies, w2, ci, w3. cbv zeta. split_and!; [done..| |].
  all: destruct (0 <? _); [by apply bind_split in H as (? & ? & _ & ?)|]; apply bind_split in H as ([] & ? & [= <-] & H).
  all: match type of H with ?m ?x = _ =>
    assert (frames (so_far (cs_added x) (cs_processor x)) m) as Hm by (destruct (_ && _); [by apply frames_update|apply frames_ret]);
    specialize (Hm x (conj eq_refl eq_refl)); rewrite H in Hm; destruct Hm as [Hm1 Hm2] end.
  - rewrite Hm1. simpl. by rewrite Ha.
  - by rewrite Hm2.
Qed.

(** the messages a durable delivers by its policy, as JetStream documents it: a
    message stored at a time, for a durable added at another *)
Definition delivers (c : JsConfig) (added_at stored_at : Z) : Prop :=
  match js_deliver_policy c with
  | Some ALL => True
  | Some NEW => added_at <= stored_at
  | Some BY_START_TIME => exists start_at, js_opt_start_time c = Some start_at /\ start_at <= stored_at
  | _ => False
  end.

(** a durable that is created first reaches back to every cutoff *)
Lemma first_durable_delivers c seq evt happened_at stored_at added_at cutoff :
  (js_deliver_policy c, js_opt_start_time c) = start_policy cfg None ->
  dict_get (ev_table evt) (default [] (cc_export_table_timestamps cfg)) = Some (Some cutoff) ->
  fromtimestamp_ms (ev_timestamp evt) = Some happened_at -> happened_at <= stored_at ->
  before_cutoff (pr_config (mk_processor processor_config seq)) evt = Some false -> delivers c added_at stored_at.
Proof.
  intros Hs Hcut Hus Hle Hb. unfold before_cutoff in Hb. cbn [pr_config processor_config bp_table_timestamps] in Hb.
  destruct (cc_export_table_timestamps cfg) as [ts|] eqn:Ets; [|done]. cbn [default mbind option_bind] in *. change (id ts) with ts in Hcut.
  rewrite Hcut, Hus in Hb. cbn [mbind option_bind] in Hb. injection Hb as Hb. apply Z.ltb_ge in Hb.
  unfold start_policy in Hs. rewrite Ets in Hs. unfold delivers.
  destruct (cc_deliver_all cfg); [by injection Hs as -> _|].
  destruct (earliest_timestamp (Some ts)) as [start_at|] eqn:Ee.
  - injection Hs as -> Hstart. exists start_at. split; [done|]. apply earliest_timestamp_Some in Ee as [_ Hmin].
    enough (start_at <= cutoff) by lia. apply Hmin, list_elem_of_fmap. exists (ev_table evt, Some cutoff).
    split; [done|]. by apply dict_get_elem.
  - exfalso. rewrite earliest_timestamp_None in Ee. apply (Ee cutoff), list_elem_of_fmap.
    exists (ev_table evt, Some cutoff). split; [done|]. by apply dict_get_elem.
Qed.

(** C38: When the consumer has been set up, it asked the stream for its durable once
    connected, and added it with a configuration that goes on from the answer.  An
    existing durable keeps its policy and start.  One the stream did not know
    delivers every event of an exported table that the processor does not skip for
    its cutoff, wherever in time the stream stored it after the event happened, so
    that the stream takes over where the import ended.  The processor flushes at
    the number of messages the stream lets through unacknowledged, so a full batch
    never waits for another one, and counts on from the messages delivered. *)
Theorem create_no_gap s s' :
  cs_added s = [] -> create s = (inr tt, s') ->
  exists info s1 existing w1 c w2 ci w3 p,
    new_nats_connection url credentials s = (inr info, s1) /\
    js_consumer_info _STREAM (durable_name (ci_server_id info) (cc_suffix cfg)) (cs_world s1) = (inr existing, w1) /\
    js_add_consumer _STREAM c w1 = (inr tt, w2) /\
    js_consumer_info _STREAM (durable_name (ci_server_id info) (cc_suffix cfg)) w2 = (inr (Some ci), w3) /\
    cs_added s' = [c] /\ js_durable_name c = durable_name (ci_server_id info) (cc_suffix cfg) /\
    cs_processor s' = Some p /\ pr_sequence p = ji_delivered_seq ci /\
    bp_max (pr_config p) = js_max_ack_pending c /\ 0 < js_max_ack_pending c /\
    match existing with
    | Some i => js_deliver_policy c = ji_deliver_policy i /\ js_opt_start_time c = ji_opt_start_time i
    | None =>
        forall evt happened_at stored_at added_at cutoff,
          dict_get (ev_table evt) (default [] (cc_export_table_timestamps cfg)) = Some (Some cutoff) ->
          fromtimestamp_ms (ev_timestamp evt) = Some happened_at -> happened_at <= stored_at ->
          before_cutoff (pr_config p) evt = Some false -> delivers c added_at stored_at
    end.
Proof.
  intros Ha E. destruct (create_run s s' E) as (info & s1 & existing & w1 & companies & w2 & ci & w3 & E1 & E2 & E3 & E4 & Hadded & Hproc).
  set (c := js_config cfg _ companies existing) in *.
  assert (js_durable_name c = durable_name (ci_server_id info) (cc_suffix cfg) /\ js_max_ack_pending c = batch_max cfg /\
    (js_deliver_policy c, js_opt_start_time c) = start_policy cfg existing) as (Hd & Hm & Hs).
  { unfold c, js_config. by destruct (start_policy cfg existing). }
  clearbody c. rewrite Ha in Hadded.
  exists info, s1, existing, w1, c, w2, ci, w3, (mk_processor processor_config (ji_delivered_seq ci)).
  split_and!; try done; [rewrite Hm; apply batch_max_pos|]. destruct existing as [i|]; [by injection Hs as -> ->|].
  intros evt happened_at stored_at added_at cutoff. by apply (first_durable_delivers c (ji_delivered_seq ci)).
Qed.
End create.

(** ** What the reconciliation does *)

(** a call of the driver's migration interface *)
Inductive migration : Type :=
| NewTable (sch : Schema)
| NewColumns (sch : Schema) (cols : list pystr).

Definition plan_one (dest : DatabaseSchema) (entry : pystr * Schema) : list migration :=
  match dict_get entry.1 dest with
  | None => [NewTable entry.2]
  | Some dest_columns => match new_columns entry.2 dest_columns with [] => [] | cols => [NewColumns entry.2 cols] end
  end.

(** the calls for a destination and the latest schemas *)
Definition migration_plan (dest : DatabaseSchema) (schema : pydict Schema) : list migration := schema ≫= plan_one dest.

Section reconcile.
Context {W D R : Type} `{!Nats W} `{!Driver D} `{!Registry R}.
Notation CS := (@CS W D R).
Implicit Type s : CS.

Definition migrate (m : migration) : method D driver_error unit :=
  match m with NewTable sch => drv_migrate_new_table sch | NewColumns sch cols => drv_migrate_new_columns sch cols end.

Fixpoint migrate_all (l : list migration) : method D driver_error unit :=
  match l with
  | [] => fun d => (inr tt, d)
  | m :: l => fun d => match migrate m d with (inl e, d') => (inl e, d') | (inr _, d') => migrate_all l d' end
  end.

Lemma migrate_all_app l1 l2 d d' : migrate_all l1 d = (inr tt, d') -> migrate_all (l1 ++ l2) d = migrate_all l2 d'.
Proof.
  revert d. induction l1 as [|m l1 IH]; intros d E; [by injection E as ->|]. cbn [migrate_all app] in *.
  destruct (migrate m d) as [[e|u] d1]; [done|]. by apply IH.
Qed.

Lemma update_one_effect dest entry s :
  match update_one dest entry s with
  | (inr _, s') => migrate_all (plan_one dest entry) (cs_driver s) = (inr tt, cs_driver s')
  | (inl (CnDriver e), s') => migrate_all (plan_one dest entry) (cs_driver s) = (inl e, cs_driver s')
  | (inl (CnSchema _), s') => cs_driver s' = cs_driver s
  | (inl _, _) => False
  end.
Proof.
  destruct entry as [table sch]. unfold update_one, plan_one, mbind, M_bind, on_registry. simpl.
  destruct (reg_get_table_version table (cs_registry s)) as [[e|[found v]] g]; [done|]. destruct found; [|done]. simpl.
  destruct (dict_get table dest) as [cols|]; unfold on_driver; simpl.
  - destruct (new_columns sch cols) as [|c cs]; [done|]. simpl.
    by destruct (drv_migrate_new_columns sch (c :: cs) (cs_driver s)) as [[e|[]] d].
  - by destruct (drv_migrate_new_table sch (cs_driver s)) as [[e|[]] d].
Qed.

Lemma update_all_effect dest schema s :
  match for_each (update_one dest) schema s with
  | (inr _, s') => migrate_all (migration_plan dest schema) (cs_driver s) = (inr tt, cs_driver s')
  | (inl (CnDriver e), s') => migrate_all (migration_plan dest schema) (cs_driver s) = (inl e, cs_driver s')
  | (inl (CnSchema _), s') => exists l, l `prefix_of` migration_plan dest schema /\
      migrate_all l (cs_driver s) = (inr tt, cs_driver s')
  | (inl _, _) => False
  end.
Proof.
  revert s. induction schema as [|entry schema IH]; intros s; [done|].
  change (migration_plan dest (entry :: schema)) with (plan_one dest entry ++ migration_plan dest schema).
  cbn [for_each]. unfold mbind, M_bind. pose proof (update_one_effect dest entry s) as H1.
  destruct (update_one dest entry s) as [[e|[]] s1].
  - destruct e; try done.
    + exists []. split; [apply prefix_nil|]. by rewrite H1.
    + revert H1. generalize (cs_driver s). induction (plan_one dest entry) as [|m l IHl]; intros d H1; [done|].
      cbn [migrate_all app] in *. destruct (migrate m d) as [[e'|u] d1]; [done|by apply IHl].
  - specialize (IH s1). destruct (for_each (update_one dest) schema s1) as [[e|[]] s2].
    + destruct e; try done.
      * destruct IH as (l & Hl & E). exists (plan_one dest entry ++ l). split; [by apply prefix_app|].
        by rewrite (migrate_all_app _ _ _ _ H1).
      * by rewrite (migrate_all_app _ _ _ _ H1).
    + by rewrite (migrate_all_app _ _ _ _ H1).
Qed.

(** every table and column of the registry that the destination lacks is in the plan *)
Definition plan_complete (dest : DatabaseSchema) (schema : pydict Schema) : Prop :=
  forall table sch c, (table, sch) ∈ schema -> c ∈ schema_columns sch ->
    (exists cols, dict_get table dest = Some cols /\ c ∈ dict_keys cols) \/
    (dict_get table dest = None /\ NewTable sch ∈ migration_plan dest schema) \/
    exists cols, c ∈ cols /\ NewColumns sch cols ∈ migration_plan dest schema.

Lemma migration_plan_complete dest schema : plan_complete dest schema.
Proof.
  intros table sch c Hin Hc.
  assert (forall m, m ∈ plan_one dest (table, sch) -> m ∈ migration_plan dest schema) as Hplan.
  { intros m Hm. apply list_elem_of_bind. by exists (table, sch). }
  unfold plan_one in Hplan. simpl in Hplan. destruct (dict_get table dest) as [cols|].
  - destruct (decide (c ∈ dict_keys cols)) as [|Hno]; [left; eauto|]. right. right.
    assert (c ∈ new_columns sch cols) as Hnew by (by apply list_elem_of_filter).
    destruct (new_columns sch cols) as [|c0 cs]; [by apply elem_of_nil in Hnew|]. exists (c0 :: cs).
    split; [done|]. apply Hplan. by left.
  - right. left. split; [done|]. apply Hplan. by left.
Qed.

(** the reconciliation at the start makes exactly the calls of the plan, in the
    order of the registry, up to the first error; the plan has every table and
    column the destination lacks.  It returns only when all calls did. *)
Theorem reconcile_effect s :
  match update_destination_schema s with
  | (inl (CnSchema _), s') => cs_driver s' = cs_driver s \/
      exists schema g dest d0 l, reg_get_latest_schema (cs_registry s) = (inr schema, g) /\
        drv_get_destination_schema (cs_driver s) = (inr dest, d0) /\
        l `prefix_of` migration_plan dest schema /\ migrate_all l d0 = (inr tt, cs_driver s')
  | (inl (CnDriver e), s') => drv_get_destination_schema (cs_driver s) = (inl e, cs_driver s') \/
      exists schema g dest d0, reg_get_latest_schema (cs_registry s) = (inr schema, g) /\
        drv_get_destination_schema (cs_driver s) = (inr dest, d0) /\
        migrate_all (migration_plan dest schema) d0 = (inl e, cs_driver s')
  | (inl _, _) => False
  | (inr _, s') => exists schema g dest d0, reg_get_latest_schema (cs_registry s) = (inr schema, g) /\
      drv_get_destination_schema (cs_driver s) = (inr dest, d0) /\ plan_complete dest schema /\
      migrate_all (migration_plan dest schema) d0 = (inr tt, cs_driver s')
  end.
Proof.
  unfold update_destination_schema, mbind, M_bind, on_registry, on_driver.
  destruct (reg_get_latest_schema (cs_registry s)) as [[e|schema] g] eqn:Eg; [by left|]. simpl.
  destruct (drv_get_destination_schema (cs_driver s)) as [[e|dest] d0] eqn:Ed; [by left|]. simpl.
  pose proof (update_all_effect dest schema (cs_set_driver d0 (cs_set_registry g s))) as H.
  destruct (for_each (update_one dest) schema _) as [[e|[]] s'].
  - destruct e; try done; right; [|by exists schema, g, dest, d0].
    destruct H as (l & Hl & E). by exists schema, g, dest, d0, l.
  - exists schema, g, dest, d0. split_and!; [done|done|apply migration_plan_complete|done].
Qed.
End reconcile.

(** ** Running and pausing *)

Section lifecycle.
Context {W D R : Type} `{!Nats W} `{!Driver D} `{!Registry R}.
Notation CS := (@CS W D R).
Implicit Type s : CS.

(** between the calls of its methods: the subscription and its task go together,
    and a paused consumer has neither *)
Definition consumer_ok s : Prop :=
  cs_consuming s = cs_psub s /\ (cs_paused s = true -> cs_psub s = false) /\
  (cs_tasks s = true -> cs_running s = true).

Lemma unpause_cases s :
  if cs_psub s then unpause s = (inl CnStarted, s)
  else (exists w, unpause s = (inl CnNats, cs_set_world w s)) \/
       (exists w, unpause s = (inr tt, cs_set_paused false (cs_set_consume true true (cs_set_world w s)))).
Proof.
  unfold unpause, mbind, M_bind, gets, raise. destruct (cs_psub s); [done|]. unfold on_nats, modify.
  destruct (js_pull_subscribe_bind (cs_durable s) _STREAM (cs_world s)) as [[e|[]] w]; [left|right]; by exists w.
Qed.

(** [pause] never raises *)
Lemma pause_result s : exists w, pause s = (inr tt, cs_set_paused true (cs_set_consume false false (cs_set_world w s))).
Proof.
  unfold pause, mbind, M_bind, gets, modify, on_nats_quiet, mret, M_ret. simpl. destruct (cs_psub s) eqn:E.
  - by exists (psub_unsubscribe (cs_world s)).2.
  - exists (cs_world s). destruct s. simpl in *. by subst.
Qed.

(** nor does [stop], which does its work once *)
Lemma stop_result s :
  exists w, stop s = (inr tt, if cs_stopping s then s
    else let s1 := cs_set_stopping (cs_set_world w s) in if cs_tasks s then cs_set_drained s1 else s1).
Proof.
  unfold stop, mbind, M_bind, gets, modify, on_nats_quiet, mret, M_ret. destruct (cs_stopping s) eqn:Es; [by exists (cs_world s)|].
  destruct s as [w d r nc psub ? ? ? tasks]. simpl in *. subst. destruct psub, tasks, nc; simpl; by eexists.
Qed.

Lemma pause_ok s : consumer_ok s -> consumer_ok (pause s).2.
Proof. intros (H1 & H2 & H3). destruct (pause_result s) as [w ->]. by split_and!. Qed.

Lemma stop_ok s : consumer_ok s -> consumer_ok (stop s).2.
Proof.
  intros H. destruct (stop_result s) as [w ->]. simpl. destruct (cs_stopping s); [done|]. by destruct (cs_tasks s) eqn:E.
Qed.

Lemma unpause_ok s : consumer_ok s -> consumer_ok (unpause s).2.
Proof.
  intros (H1 & H2 & H3). pose proof (unpause_cases s) as H. destruct (cs_psub s) eqn:E.
  - rewrite H. unfold consumer_ok. simpl. by rewrite E.
  - destruct H as [[w ->]|[w ->]]; unfold consumer_ok; simpl; by rewrite ?E.
Qed.

(** a pause is undone by an unpause that reaches the stream *)
Lemma pause_unpause s :
  (unpause (pause s).2).1 = inr tt -> cs_psub (unpause (pause s).2).2 = true /\ cs_paused (unpause (pause s).2).2 = false.
Proof.
  destruct (pause_result s) as [w ->]. pose proof (unpause_cases (cs_set_paused true (cs_set_consume false false (cs_set_world w s)))) as H.
  simpl in *. by destruct H as [[w' ->]|[w' ->]].
Qed.
End lifecycle.

Module ConsumerRun.

(** a stream that counts the calls it gets: it knows no durable before one is
    added, and then reports 41 messages delivered *)
#[local] Instance counting_nats : Nats nat := {|
  nats_file := fun _ _ => None;
  nats_uuid := fun n => (u"id", S n);
  nats_connect := fun _ _ _ n => (inr tt, n);
  js_consumer_info := fun _ _ n =>
    (inr (if (n <? 2)%nat then None else Some (mk_consumer_info (Some BY_START_TIME) None None None 41)), n);
  js_add_consumer := fun _ _ n => (inr tt, S n);
  js_pull_subscribe_bind := fun _ _ n => (inr tt, n);
  psub_unsubscribe := fun n => (inr tt, n);
  nc_close := fun n => (inr tt, n)
|}.

(** an import that ended at 1.5 s for one table and at 1 s for another *)
Definition imported : ConsumerConfig :=
  mk_consumer_config [] [] 0 0 (Some 2) (Some [(u"customer", Some 1500000); (u"order", Some 1000000); (u"label", None)])
    false 0 0 0 0.

#[local] Existing Instance ConsumerSafety.counting_driver.
#[local] Existing Instance ConsumerSafety.one_table_registry.

Definition no_session (id : pystr) (d : nat) : nat := d.
Definition ready : @CS nat nat unit := fresh_consumer 0%nat 0%nat tt.
Abbreviation setup := (create no_session (u"nats://localhost,tls://eds.example.com:4443") [] imported true None ready).

Abbreviation nats_url := (u"nats://localhost,tls://eds.example.com:4443").

Lemma create_no_gap_witness :
  exists info s1 existing w1 c w2 ci w3 p,
    new_nats_connection nats_url [] ready = (inr info, s1) /\
    js_consumer_info _STREAM (durable_name (ci_server_id info) (cc_suffix imported)) (cs_world s1) = (inr existing, w1) /\
    js_add_consumer _STREAM c w1 = (inr tt, w2) /\
    js_consumer_info _STREAM (durable_name (ci_server_id info) (cc_suffix imported)) w2 = (inr (Some ci), w3) /\
    cs_added setup.2 = [c] /\ js_durable_name c = durable_name (ci_server_id info) (cc_suffix imported) /\
    cs_processor setup.2 = Some p /\ pr_sequence p = ji_delivered_seq ci /\
    bp_max (pr_config p) = js_max_ack_pending c /\ 0 < js_max_ack_pending c /\
    match existing with
    | Some i => js_deliver_policy c = ji_deliver_policy i /\ js_opt_start_time c = ji_opt_start_time i
    | None =>
        forall evt happened_at stored_at added_at cutoff,
          dict_get (ev_table evt) (default [] (cc_export_table_timestamps imported)) = Some (Some cutoff) ->
          fromtimestamp_ms (ev_timestamp evt) = Some happened_at -> happened_at <= stored_at ->
          before_cutoff (pr_config p) evt = Some false -> delivers c added_at stored_at
    end.
Proof.
  apply (create_no_gap no_session nats_url [] imported true None ready setup.2); [reflexivity|vm_compute; reflexivity].
Defined.

(** the durable that is set up starts at the earliest cutoff *)
Example first_durable : (fun c => (js_deliver_policy c, js_opt_start_time c)) <$> cs_added setup.2 = [(Some BY_START_TIME, Some 1000000)] /\
  pr_sequence <$> cs_processor setup.2 = Some 41.
Proof. split; vm_compute; reflexivity. Qed.

(** a server without a port gets the default one, and one with a port is kept *)
Lemma default_ports :
  _ensure_nats_port (u"nats://host") = Some (u"nats://host:4222") /\
  _ensure_nats_port (u"host") = Some (u"nats://host:4222") /\
  _ensure_nats_port (u"tls://me:pass@[fe80::1]") = Some (u"tls://me:pass@[fe80::1]:4222") /\
  _ensure_nats_port (u"tls://host:443") = Some (u"tls://host:443") /\ _ensure_nats_port (u"nats://host:x") = None.
Proof. by vm_compute. Qed.
End ConsumerRun.
