(* ===== verification/FetchLoop.v ===== *)
(** * The fetch loop and its queue: eds/consumer/consumer.py

    The consume task pulls batches from the stream and puts their messages into a
    bounded queue; the drain loop of [Bufferer] takes them out.  [pause] and
    [stop] cancel the task, a graceful [stop] then puts the sentinel [None].  The
    tasks share the queue only, so an execution is a list of acts, one for each
    moment at which the event loop runs one of them; an act that is not possible
    in a state has no successor.  The record also keeps what was fetched, taken
    and dropped, and the two counters of the metrics.

    The theorems: what goes into the queue comes out once and in the order of the
    stream; a broker that keeps to [max_ack_pending] never finds the queue full,
    so that a cancelled task holds no message; a graceful stop ends with every
    message acknowledged unless a step failed; the gauge of pending events counts
    the messages in the queue and in the batch. *)
From stdpp Require Import base tactics list option numbers sets strings.
From S2P Require Import Prelude PyStr PyDict PyFloat GoJson Schema DbChange Interfaces ConsumerConfig Consumer BatchProcessor ConsumerSafety Bufferer.

(** what a pull returns *)
Inductive pulled : Type := Messages (l : list Msg) | TimedOut | FetchError.

(** the consume task: none, waiting for [fetch], waiting for room to put [m] with
    the rest of its batch to follow *)
Inductive producer : Type := NoTask | Fetching | Putting (m : Msg) (rest : list Msg).

Record FL := mk_fl {
  fl_queue : list item;
  fl_producer : producer;
  fl_stopping : bool;
  fl_sentinel : bool;          (** the sentinel was put *)
  fl_counted : nat;            (** calls of [pending_events_inc] and of [total_events_inc] *)
  fl_fetched : list Msg;
  fl_taken : list item;
  fl_dropped : list Msg        (** fetched, and not put when the task was cancelled *)
}.

Definition fl_set_queue q (s : FL) : FL :=
  mk_fl q (fl_producer s) (fl_stopping s) (fl_sentinel s) (fl_counted s) (fl_fetched s) (fl_taken s) (fl_dropped s).
Definition fl_set_producer p (s : FL) : FL :=
  mk_fl (fl_queue s) p (fl_stopping s) (fl_sentinel s) (fl_counted s) (fl_fetched s) (fl_taken s) (fl_dropped s).
Definition fl_count (s : FL) : FL :=
  mk_fl (fl_queue s) (fl_producer s) (fl_stopping s) (fl_sentinel s) (S (fl_counted s)) (fl_fetched s) (fl_taken s) (fl_dropped s).
Definition fl_log_fetched l (s : FL) : FL :=
  mk_fl (fl_queue s) (fl_producer s) (fl_stopping s) (fl_sentinel s) (fl_counted s) (fl_fetched s ++ l) (fl_taken s) (fl_dropped s).
Definition fl_put i (s : FL) : FL := fl_set_queue (fl_queue s ++ [i]) s.

Definition fresh_fl : FL := mk_fl [] NoTask false false 0 [] [] [].

Inductive fl_act : Type :=
| Pull (r : pulled)   (** [fetch] answers *)
| Room                (** the put that waited goes on *)
| Take                (** the drain loop takes an item *)
| Pause | Unpause | Stop
| PutSentinel.

(** where the sentinel is *)
Lemma sentinel_last (l : list Msg) (taken queue : list item) (b : bool) :
  taken ++ queue = (Some <$> l) ++ (if b then [None] else []) -> None ∈ taken -> queue = [] /\ b = true.
Proof.
  intros Hl Hn. destruct b; [|].
  - split; [|done]. destruct queue as [|i queue] using rev_ind; [done|]. rewrite app_assoc in Hl. apply app_inj_tail in Hl as [Hl _].
    assert ((None : item) ∈ Some <$> l) as H by (rewrite <- Hl; set_solver). by apply list_elem_of_fmap in H as (? & ? & ?).
  - rewrite app_nil_r in Hl. assert ((None : item) ∈ Some <$> l) as H by (rewrite <- Hl; set_solver). by apply list_elem_of_fmap in H as (? & ? & ?).
Qed.

Section fetch_loop.
Context (cfg : ConsumerConfig).

(** [asyncio.Queue(maxsize=config.effective_max_ack_pending())] *)
Definition queue_full (s : FL) : bool := effective_max_ack_pending cfg <=? Z.of_nat (length (fl_queue s)).

(** [for m in msgs]: a put on a full queue waits *)
Fixpoint put_all (l : list Msg) (s : FL) : FL :=
  match l with
  | [] => fl_set_producer Fetching s
  | m :: rest =>
      let s := fl_count s in
      if queue_full s then fl_set_producer (Putting m rest) s else put_all rest (fl_put (Some m) s)
  end.

(** an answer of [fetch]: only messages change anything *)
Definition _consume_loop (r : pulled) (s : FL) : FL :=
  match r with
  | Messages l => put_all l (fl_log_fetched l s)
  | TimedOut | FetchError => s
  end.

(** [_consume_task.cancel()], and the end of the task *)
Definition cancel (s : FL) : FL :=
  mk_fl (fl_queue s) NoTask (fl_stopping s) (fl_sentinel s) (fl_counted s) (fl_fetched s) (fl_taken s)
    (fl_dropped s ++ match fl_producer s with Putting m rest => m :: rest | _ => [] end).

Definition fl_step (a : fl_act) (s : FL) : option FL :=
  match a, fl_producer s with
  | Pull r, Fetching => Some (_consume_loop r s)
  | Room, Putting m rest => if queue_full s then None else Some (put_all rest (fl_put (Some m) s))
  | Take, _ =>
      match fl_queue s with
      | i :: q => Some (mk_fl q (fl_producer s) (fl_stopping s) (fl_sentinel s) (fl_counted s) (fl_fetched s) (fl_taken s ++ [i]) (fl_dropped s))
      | [] => None
      end
  | Pause, _ => Some (cancel s)
  | Unpause, NoTask => if fl_stopping s then None else Some (fl_set_producer Fetching s)
  | Stop, _ =>
      if fl_stopping s then None
      else Some (let s := cancel s in mk_fl (fl_queue s) (fl_producer s) true (fl_sentinel s) (fl_counted s) (fl_fetched s) (fl_taken s) (fl_dropped s))
  | PutSentinel, _ =>
      if negb (fl_stopping s) || fl_sentinel s || queue_full s then None
      else Some (let s := fl_put None s in mk_fl (fl_queue s) (fl_producer s) (fl_stopping s) true (fl_counted s) (fl_fetched s) (fl_taken s) (fl_dropped s))
  | _, _ => None
  end.

Fixpoint fl_run (acts : list fl_act) (s : FL) : option FL :=
  match acts with
  | [] => Some s
  | a :: acts => s' ← fl_step a s; fl_run acts s'
  end.

(** *** The order of the queue *)

Definition in_hand (s : FL) : list Msg := match fl_producer s with Putting m rest => m :: rest | _ => [] end.
Definition messages (l : list item) : list Msg := omap id l.

Lemma messages_some l : messages (Some <$> l) = l.
Proof. induction l as [|m l IH]; simpl; [done|]. by f_equal. Qed.

(** the messages on their way: taken, queued, in the hand of the task *)
Definition moved (s : FL) : list Msg := messages (fl_taken s) ++ messages (fl_queue s) ++ in_hand s.

(** [l] is what is left of [all] without some messages, which are [gone] *)
Definition minus (all l gone : list Msg) : Prop := l `sublist_of` all /\ all ≡ₚ l ++ gone.

(** how the queue stands: the fetched messages are on their way in their order or
    dropped; the queue keeps its bound; the sentinel, once put, is the last item,
    and a stopping consumer has no task *)
Definition ordered (s : FL) : Prop :=
  minus (fl_fetched s) (moved s) (fl_dropped s) /\
  Z.of_nat (length (fl_queue s)) <= effective_max_ack_pending cfg /\
  (fl_stopping s = true -> fl_producer s = NoTask) /\
  (exists l, fl_taken s ++ fl_queue s = (Some <$> l) ++ (if fl_sentinel s then [None] else [])) /\
  (fl_sentinel s = true -> fl_stopping s = true).

Lemma minus_snoc all l gone x : minus all l gone -> minus (all ++ x) (l ++ x) gone.
Proof.
  intros [Hs Hp]. split; [by apply sublist_app|]. rewrite Hp. by rewrite <- !app_assoc, (Permutation_app_comm gone).
Qed.

Lemma minus_drop all l x gone : minus all (l ++ x) gone -> minus all l (gone ++ x).
Proof.
  intros [Hs Hp]. split; [etrans; [by apply sublist_inserts_r|exact Hs]|].
  rewrite Hp, <- app_assoc. by rewrite (Permutation_app_comm gone).
Qed.

(** a running task with [hand] still to put *)
Definition putting (hand : list Msg) (s : FL) : Prop :=
  minus (fl_fetched s) (messages (fl_taken s) ++ messages (fl_queue s) ++ hand) (fl_dropped s) /\
  Z.of_nat (length (fl_queue s)) <= effective_max_ack_pending cfg /\
  fl_stopping s = false /\ fl_sentinel s = false /\ exists l, fl_taken s ++ fl_queue s = Some <$> l.

Lemma messages_app l k : messages (l ++ k) = messages l ++ messages k.
Proof. apply omap_app. Qed.

Lemma putting_step m rest s : putting (m :: rest) s -> queue_full s = false -> putting rest (fl_put (Some m) s).
Proof.
  intros (Hm & Hb & Hs & He & l & Hl) Hf. unfold queue_full in Hf. apply Z.leb_gt in Hf.
  split; [|split; [|split; [done|split; [done|]]]]; simpl.
  - by rewrite messages_app, <- (app_assoc (messages (fl_queue s))).
  - rewrite length_app. simpl. lia.
  - exists (l ++ [m]). by rewrite app_assoc, Hl, fmap_app.
Qed.

Lemma putting_ordered hand s p : putting hand s -> in_hand (fl_set_producer p s) = hand -> ordered (fl_set_producer p s).
Proof.
  intros (Hm & Hb & Hs & He & l & Hl) Hp. unfold ordered, moved. rewrite Hp. simpl.
  rewrite Hs, He. split; [done|]. split; [done|]. split; [done|]. split; [|done]. exists l. by rewrite app_nil_r.
Qed.

Lemma put_all_ordered l s : putting l s -> ordered (put_all l s).
Proof.
  revert s. induction l as [|m l IH]; intros s Hs; simpl; [by apply (putting_ordered [])|].
  change (queue_full (fl_count s)) with (queue_full s). destruct (queue_full s) eqn:Hf; [by apply (putting_ordered (m :: l))|].
  apply IH, putting_step; done.
Qed.

Lemma ordered_putting s : ordered s -> fl_producer s <> NoTask -> putting (in_hand s) s.
Proof.
  intros (Hm & Hb & Hs & (l & Hl) & He) Hp.
  assert (fl_stopping s = false) as Hst by (destruct (fl_stopping s); [by specialize (Hs eq_refl)|done]).
  assert (fl_sentinel s = false) as Hse.
  { destruct (fl_sentinel s); [|done]. rewrite (He eq_refl) in Hst. done. }
  unfold putting. split; [exact Hm|]. split; [done|]. split; [done|]. split; [done|].
  exists l. rewrite Hl, Hse. by rewrite app_nil_r.
Qed.

Lemma cancel_ordered s : ordered s -> ordered (cancel s).
Proof.
  intros (Hm & Hb & Hs & Hl & He). unfold ordered, moved, cancel, in_hand in *. simpl.
  split; [|by split_and!]. apply minus_drop. by rewrite app_nil_r, <- app_assoc.
Qed.

Lemma step_ordered a s s' : ordered s -> fl_step a s = Some s' -> ordered s'.
Proof.
  intros Ho. destruct a as [[l| |]| | | | | |]; unfold fl_step; simpl.
  - destruct (fl_producer s) eqn:Hp; try done. intros [= <-]. apply put_all_ordered.
    destruct (ordered_putting s Ho) as (Hm & Hb & Hs & He & Hl); [congruence|].
    unfold in_hand in Hm. rewrite Hp, app_nil_r in Hm.
    split; [|by split_and!]. simpl. rewrite app_assoc. by apply minus_snoc.
  - destruct (fl_producer s) eqn:Hp; try done. by intros [= <-].
  - destruct (fl_producer s) eqn:Hp; try done. by intros [= <-].
  - destruct (fl_producer s) as [| |m rest] eqn:Hp; try done. destruct (queue_full s) eqn:Hf; [done|]. intros [= <-].
    apply put_all_ordered, putting_step; [|done].
    pose proof (ordered_putting s Ho) as H. unfold in_hand in H. rewrite Hp in H. by apply H.
  - destruct Ho as (Hm & Hb & Hs & (l & Hl) & He). unfold ordered, moved, in_hand in *.
    destruct (fl_producer s) eqn:Hp; destruct (fl_queue s) as [|i q] eqn:Hq; try done; intros [= <-]; simpl in *.
    all: rewrite messages_app, <- app_assoc in *; simpl in *.
    all: split; [destruct i; simpl in *; exact Hm|]; split; [lia|]; split; [done|]; split; [|done]; exists l.
    all: by rewrite <- Hl, <- app_assoc.
  - intros [= <-]. by apply cancel_ordered.
  - destruct (fl_producer s) eqn:Hp; try done. destruct (fl_stopping s) eqn:Hs; [done|]. intros [= <-].
    destruct Ho as (Hm & Hb & Hs' & Hl & He). unfold ordered, moved, in_hand in *. rewrite Hp in Hm. simpl. rewrite Hs in *. by split_and!.
  - destruct (fl_stopping s) eqn:Hs; [done|]. intros [= <-].
    destruct (cancel_ordered s Ho) as (Hm & Hb & Hs' & Hl & He). unfold ordered, moved, in_hand in *. simpl in *. by split_and!.
  - destruct (fl_stopping s) eqn:Hs; [|done]. destruct (fl_sentinel s) eqn:He; [done|]. destruct (queue_full s) eqn:Hf; [done|].
    unfold queue_full in Hf. apply Z.leb_gt in Hf. intros [= <-].
    destruct Ho as (Hm & Hb & Hs' & (l & Hl) & _). unfold ordered, moved, in_hand in *. simpl.
    rewrite messages_app. simpl. rewrite app_nil_r. split; [done|]. split; [rewrite length_app; simpl; lia|].
    split; [by intros _; apply Hs'|]. split; [|done].
    exists l. rewrite app_assoc, Hl, He. by rewrite app_nil_r.
Qed.

Lemma fresh_ordered : ordered fresh_fl.
Proof.
  unfold ordered. simpl. split; [done|]. split; [unfold effective_max_ack_pending, _DEFAULT_MAX_ACK_PENDING; case_match; lia|].
  split; [done|]. split; [by exists []|done].
Qed.

Lemma run_ordered acts s s' : ordered s -> fl_run acts s = Some s' -> ordered s'.
Proof.
  revert s. induction acts as [|a acts IH]; intros s Hs; simpl; [by intros [= <-]|].
  destruct (fl_step a s) as [s1|] eqn:E; [|done]. simpl. intros H. apply (IH s1); [by apply (step_ordered a s)|done].
Qed.

(** *** A broker with a limit *)

(** when the broker answers, the queue and the answer together stay within
    [bound]: the messages of the queue are delivered and not acknowledged *)
Definition within (bound : Z) (a : fl_act) (s : FL) : bool :=
  match a with Pull (Messages l) => Z.of_nat (length l) + Z.of_nat (length (fl_queue s)) <=? bound | _ => true end.

Fixpoint respects (bound : Z) (acts : list fl_act) (s : FL) : bool :=
  match acts with
  | [] => true
  | a :: acts => within bound a s && match fl_step a s with Some s' => respects bound acts s' | None => true end
  end.

(** no message was dropped, none waits for room, each was counted *)
Definition smooth (s : FL) : Prop :=
  fl_dropped s = [] /\ in_hand s = [] /\ fl_counted s = length (fl_fetched s).

Lemma put_all_room l s : Z.of_nat (length l) + Z.of_nat (length (fl_queue s)) <= effective_max_ack_pending cfg ->
  in_hand (put_all l s) = [] /\ fl_dropped (put_all l s) = fl_dropped s /\ fl_fetched (put_all l s) = fl_fetched s /\
  fl_counted (put_all l s) = (length l + fl_counted s)%nat.
Proof.
  revert s. induction l as [|m l IH]; intros s Hl; simpl in *; [done|].
  change (queue_full (fl_count s)) with (queue_full s). unfold queue_full. destruct (Z.leb_spec (effective_max_ack_pending cfg) (Z.of_nat (length (fl_queue s)))) as [H|H]; [lia|].
  destruct (IH (fl_put (Some m) (fl_count s))) as (H1 & H2 & H3 & H4); [simpl; rewrite length_app; simpl; lia|].
  rewrite H1, H2, H3, H4. split_and!; [done..|]. simpl. lia.
Qed.

Lemma step_smooth a s s' bound : bound <= effective_max_ack_pending cfg -> smooth s -> within bound a s = true ->
  fl_step a s = Some s' -> smooth s'.
Proof.
  intros Hb Hs Hw. pose proof Hs as (Hd & Hh & Hc). unfold fl_step. destruct a as [[l| |]| | | | | |]; simpl in *.
  - destruct (fl_producer s) eqn:Hp; try done. intros [= <-]. apply Z.leb_le in Hw.
    destruct (put_all_room l (fl_log_fetched l s)) as (H1 & H2 & H3 & H4); [simpl; lia|].
    unfold smooth. rewrite H1, H2, H3, H4. split_and!; [done..|]. simpl. rewrite length_app, Hc. lia.
  - destruct (fl_producer s) eqn:Hp; try done. by intros [= <-].
  - destruct (fl_producer s) eqn:Hp; try done. by intros [= <-].
  - unfold in_hand in Hh. by destruct (fl_producer s).
  - unfold smooth, in_hand in *. destruct (fl_producer s) eqn:Hp, (fl_queue s); try done; intros [= <-]; simpl; by rewrite ?Hp.
  - intros [= <-]. unfold smooth, cancel, in_hand in *. simpl. destruct (fl_producer s); by rewrite ?Hd.
  - destruct (fl_producer s) eqn:Hp; try done. destruct (fl_stopping s); [done|]. by intros [= <-].
  - destruct (fl_stopping s); [done|]. intros [= <-]. unfold smooth, cancel, in_hand in *. simpl. destruct (fl_producer s); by rewrite ?Hd.
  - destruct (negb (fl_stopping s) || fl_sentinel s || queue_full s); [done|]. by intros [= <-].
Qed.

Lemma run_smooth acts bound s s' : bound <= effective_max_ack_pending cfg -> smooth s -> respects bound acts s = true ->
  fl_run acts s = Some s' -> smooth s'.
Proof.
  intros Hb. revert s. induction acts as [|a acts IH]; intros s Hs Hr; simpl in *; [by intros [= <-]|].
  apply andb_true_iff in Hr as [Hw Hr]. destruct (fl_step a s) as [s1|] eqn:E; [|done]. simpl.
  apply (IH s1); [|done]. by apply (step_smooth a s s1 bound).
Qed.

Lemma max_ack_pending_bound durable companies existing : js_max_ack_pending (js_config cfg durable companies existing) <= effective_max_ack_pending cfg.
Proof. unfold js_config. destruct (start_policy cfg existing). exact (proj1 (batch_max_le cfg)). Qed.

Lemma sublist_same_length {A} (l k : list A) : l `sublist_of` k -> length l = length k -> l = k.
Proof.
  induction 1 as [|x l k Hs IH|x l k Hs IH]; simpl; [done| |].
  - intros [= H]. by rewrite IH.
  - intros H. apply sublist_length in Hs. lia.
Qed.

(** a queue no message of which was dropped *)
Lemma smooth_order s : ordered s -> smooth s -> fl_fetched s = messages (fl_taken s) ++ messages (fl_queue s).
Proof.
  intros ((Hsub & Hp) & _) (Hd & Hh & _). unfold moved in *. rewrite Hh, app_nil_r in *. rewrite Hd, app_nil_r in Hp.
  symmetry. apply sublist_same_length; [done|]. by rewrite Hp.
Qed.

Lemma respects_smooth durable companies existing acts s :
  fl_run acts fresh_fl = Some s ->
  respects (js_max_ack_pending (js_config cfg durable companies existing)) acts fresh_fl = true -> smooth s.
Proof.
  intros Hr Hre. refine (run_smooth acts _ fresh_fl s (max_ack_pending_bound durable companies existing) _ Hre Hr). by split.
Qed.

(** C11: Whatever the tasks do and in whatever order, the messages the drain loop takes,
    those of the queue and the one that waits for room are the fetched ones in the
    order of the stream, less those a cancelled put dropped; the queue never
    outgrows its bound; the sentinel comes after everything.  With a broker that
    keeps to the [max_ack_pending] this consumer asked for, no put ever waits, so a
    pause or a stop drops nothing. *)
Theorem fetched_in_order durable companies existing acts s :
  fl_run acts fresh_fl = Some s ->
  moved s `sublist_of` fl_fetched s /\ fl_fetched s ≡ₚ moved s ++ fl_dropped s /\
  Z.of_nat (length (fl_queue s)) <= effective_max_ack_pending cfg /\
  (None ∈ fl_taken s -> fl_queue s = [] /\ fl_producer s = NoTask) /\
  (respects (js_max_ack_pending (js_config cfg durable companies existing)) acts fresh_fl = true ->
   fl_dropped s = [] /\ fl_fetched s = messages (fl_taken s) ++ messages (fl_queue s)).
Proof.
  intros Hr. pose proof (run_ordered _ _ _ fresh_ordered Hr) as Ho. pose proof Ho as ((Hs & Hp) & Hb & Hst & (l & Hl) & He).
  split_and!; [done..| |].
  - intros Hn. destruct (sentinel_last l (fl_taken s) (fl_queue s) (fl_sentinel s) Hl Hn) as [Hq Hse]. split; [done|]. by apply Hst, He.
  - intros Hre. pose proof (respects_smooth _ _ _ _ _ Hr Hre) as Hsm.
    split; [apply Hsm|by apply smooth_order].
Qed.
End fetch_loop.

(** ** The drain loop on the other side *)

Section drained.
Context {D R : Type} `{!Driver D} `{!Registry R}.
Context (cfg : bp_config) (now_at : nat -> Z).
Notation BP := (@BP D R).
Notation BF := (@BF D R).
Notation run := (ConsumerSafety.run cfg now_at).
Notation run_rounds := (run_rounds cfg now_at).

(** the items a round looks at *)
Definition round_items (rd : round) : list item := rd_drained rd ++ match rd_waited rd with Some i => [i] | None => [] end.
Definition all_items (rounds : list round) : list item := concat (round_items <$> rounds).

(** how a drain loop that returned has ended, from the state [p] of the processor
    and with these items in front of it: a message or an idle tick failed, the
    sentinel made it flush, or the hard cancel refused the batch *)
Inductive ended (p : BP) (items : list item) (cancelled : bool) (p' : BP) : Prop :=
| EndedFailed inputs e : (Some <$> msgs inputs) `prefix_of` items -> e = Stopped \/ e = Fatal -> run inputs p = (inl e, p') -> ended p items cancelled p'
| EndedSentinel inputs p1 r : ((Some <$> msgs inputs) ++ [None]) `prefix_of` items -> run inputs p = (inr tt, p1) ->
    flush now_at p1 = (r, p') -> ended p items cancelled p'
| EndedCancelled inputs p1 : cancelled = true -> (Some <$> msgs inputs) `prefix_of` items -> run inputs p = (inr tt, p1) ->
    p' = (nack_everything p1).2 -> ended p items cancelled p'.

(** what a part of the loop has done: it goes on after its items, or has ended *)
Definition progress (p : BP) (items : list item) (cancelled : bool) (r : bp_exn + bool) (p' : BP) : Prop :=
  match r with
  | inr false => exists inputs, run inputs p = (inr tt, p') /\ Some <$> msgs inputs = items
  | inr true => ended p items cancelled p'
  | inl _ => True
  end.

Lemma run_app inputs more p : run (inputs ++ more) p = match run inputs p with (inr tt, p1) => run more p1 | (inl e, p1) => (inl e, p1) end.
Proof.
  revert p. unfold ConsumerSafety.run. induction inputs as [|i inputs IH]; intros p; [done|]. simpl. unfold mbind, M_bind.
  destruct (step cfg now_at i p) as [[e|[]] p1]; [done|apply IH].
Qed.

Lemma run_one i p : run [i] p = step cfg now_at i p.
Proof. unfold ConsumerSafety.run. simpl. unfold mbind, M_bind. by destruct (step cfg now_at i p) as [[|[]]]. Qed.

Lemma msgs_app inputs more : msgs (inputs ++ more) = msgs inputs ++ msgs more.
Proof. apply omap_app. Qed.

Lemma ended_more p items more c c' p' : ended p items c p' -> ended p (items ++ more) (c || c') p'.
Proof.
  intros [inputs e Hp He H|inputs p1 r Hp H Hf|inputs p1 -> Hp H Hf].
  - eapply EndedFailed; [|done..]. by apply prefix_app_r.
  - eapply EndedSentinel; [|done..]. by apply prefix_app_r.
  - eapply EndedCancelled; [done| |done..]. by apply prefix_app_r.
Qed.

Lemma ended_after p inputs0 items c p1 p' : run inputs0 p = (inr tt, p1) -> ended p1 items c p' -> ended p ((Some <$> msgs inputs0) ++ items) c p'.
Proof.
  intros H0 [inputs e Hp He H|inputs p2 r Hp H Hf|inputs p2 Hc Hp H Hf].
  - apply (EndedFailed _ _ _ _ (inputs0 ++ inputs) e); [|done|by rewrite run_app, H0].
    rewrite msgs_app, fmap_app. by apply prefix_app.
  - apply (EndedSentinel _ _ _ _ (inputs0 ++ inputs) p2 r); [|by rewrite run_app, H0|done].
    rewrite msgs_app, fmap_app, <- app_assoc. by apply prefix_app.
  - apply (EndedCancelled _ _ _ _ (inputs0 ++ inputs) p2); [done| |by rewrite run_app, H0|done].
    rewrite msgs_app, fmap_app. by apply prefix_app.
Qed.

Lemma progress_after p items c p1 items' c' r p' :
  progress p items c (inr false) p1 -> progress p1 items' c' r p' -> progress p (items ++ items') (c || c') r p'.
Proof.
  intros (inputs & H & <-) Hr. destruct r as [e|[|]]; [done| |].
  - rewrite (orb_comm c c'). rewrite <- (app_nil_r (_ ++ items')). by apply ended_more, (ended_after p inputs items' c' p1 p').
  - destruct Hr as (inputs' & H' & <-). exists (inputs ++ inputs'). by rewrite run_app, H, H', msgs_app, fmap_app.
Qed.

Definition progresses (p : BP) (items : list item) (cancelled : bool) (res : (bp_exn + bool) * BF) : Prop :=
  progress p items cancelled res.1 (bf_processor res.2).

Lemma step_progress i p n : progresses p (Some <$> msgs [i]) false ((r ← call (step cfg now_at i); handled r) (mk_bf p n)).
Proof.
  unfold progresses, call, mbind, M_bind. simpl. destruct (step cfg now_at i p) as [r p1] eqn:E. simpl.
  rewrite <- run_one in E. destruct r as [e|[]]; simpl; [|by exists [i]].
  destruct e; simpl; try done; [apply (EndedFailed _ _ _ _ [i] Stopped)|apply (EndedFailed _ _ _ _ [i] Fatal)]; auto.
Qed.

Lemma handle_progress i p n : progresses p [i] false (_handle cfg now_at i (mk_bf p n)).
Proof.
  destruct i as [m|]; [apply (step_progress (IMsg m))|].
  unfold progresses, _handle, _final_flush, call, mbind, M_bind. simpl. destruct (flush now_at p) as [r p1] eqn:E. simpl.
  destruct r as [[]|[]]; simpl; try done; by eapply (EndedSentinel _ _ _ _ [] p).
Qed.

Lemma drain_progress items p n : progresses p items false (drain cfg now_at items (mk_bf p n)).
Proof.
  revert p n. induction items as [|i items IH]; intros p n; unfold progresses; simpl; [by exists []|].
  pose proof (handle_progress i p n) as H. unfold progresses, mbind, M_bind in *. destruct (_handle cfg now_at i (mk_bf p n)) as [[e|[|]] [p1 n1]]; simpl in *; [done| |].
  - by apply (ended_more _ [i] items false false).
  - by apply (progress_after p [i] false p1 items false); [|apply IH].
Qed.

Lemma round_progress rd p n : progresses p (round_items rd) (rd_cancel rd) (one_round cfg now_at rd (mk_bf p n)).
Proof.
  unfold one_round, round_items. pose proof (drain_progress (rd_drained rd) p n) as H. unfold progresses, mbind, M_bind in *.
  destruct (drain cfg now_at (rd_drained rd) (mk_bf p n)) as [[e|[|]] [p1 n1]]; simpl in *; [done| |].
  - destruct (rd_cancel rd); by apply (ended_more _ _ _ false _).
  - apply (progress_after p _ false p1 _ (rd_cancel rd)); [done|]. destruct (rd_cancel rd).
    + unfold call. simpl. destruct (nack_everything p1) as [r p2] eqn:E. simpl.
      apply (EndedCancelled _ _ _ _ [] p1); [done|apply prefix_nil|done|]. by rewrite E.
    + pose proof (step_progress IIdle p1 n1) as Hi. unfold progresses, mbind, M_bind in Hi. simpl step in Hi.
      destruct (call (on_idle cfg now_at) (mk_bf p1 n1)) as [[e|r] s2]; [done|].
      destruct (handled r s2) as [[e|[|]] [p3 n3]]; simpl in *; [done| |].
      * by apply (ended_more _ [] _ false false).
      * destruct (rd_waited rd) as [i|]; [|done]. apply (progress_after p1 [] false p3 [i] false); [done|apply handle_progress].
Qed.

(** the loop runs the processor on a prefix of its items *)
Lemma rounds_progress rounds p n :
  match run_rounds rounds (mk_bf p n) with
  | (Running, s) => exists inputs, run inputs p = (inr tt, bf_processor s) /\ Some <$> msgs inputs = all_items rounds
  | (Returned, s) => ended p (all_items rounds) (existsb rd_cancel rounds) (bf_processor s)
  | (Died _, _) => True
  end.
Proof.
  revert p n. induction rounds as [|rd rounds IH]; intros p n; simpl; [by exists []|].
  pose proof (round_progress rd p n) as H. unfold progresses in H. destruct (one_round cfg now_at rd (mk_bf p n)) as [[e|[|]] [p1 n1]]; simpl in *; [done| |].
  - by apply ended_more.
  - specialize (IH p1 n1). destruct (run_rounds rounds (mk_bf p1 n1)) as [[| |e] s]; [| |done].
    + exact (progress_after p _ (rd_cancel rd) p1 (all_items rounds) false (inr false) _ H IH).
    + exact (progress_after p _ (rd_cancel rd) p1 (all_items rounds) _ (inr true) _ H IH).
Qed.

(** *** A graceful stop *)

Lemma sentinel_prefix (a l : list Msg) : ((Some <$> a) ++ [None]) `prefix_of` ((Some <$> l) ++ [None] : list item) -> a = l.
Proof.
  revert l. induction a as [|m a IH]; intros [|m' l] H; simpl in *; [done| | |].
  - by apply prefix_cons_inv_1 in H.
  - by apply prefix_cons_inv_1 in H.
  - pose proof (prefix_cons_inv_1 _ _ _ _ H) as [= ->]. f_equal. by apply IH, (prefix_cons_inv_2 _ _ _ _ H).
Qed.

Lemma some_prefix (a l : list Msg) : (Some <$> a) `prefix_of` ((Some <$> l) ++ [None] : list item) -> a `prefix_of` l.
Proof.
  revert l. induction a as [|m a IH]; intros [|m' l] H; simpl in *; [done|apply prefix_nil| |].
  - by apply prefix_cons_inv_1 in H.
  - pose proof (prefix_cons_inv_1 _ _ _ _ H) as [= ->]. apply prefix_cons, IH, (prefix_cons_inv_2 _ _ _ _ H).
Qed.

Lemma taken_sentinel c s : ordered c s -> smooth s -> None ∈ fl_taken s -> fl_taken s = (Some <$> fl_fetched s) ++ [None].
Proof.
  intros Ho Hsm Hn. pose proof (smooth_order c s Ho Hsm) as Hf. destruct Ho as (_ & _ & _ & (l & Hl) & _).
  destruct (sentinel_last l _ _ _ Hl Hn) as [Hq Hse]. rewrite Hq, Hse, app_nil_r in *.
  rewrite Hf, Hl, messages_app, messages_some. simpl. by rewrite app_nil_r.
Qed.

(** C10: Between a graceful stop and a broker that keeps to its limit nothing is lost:
    once the drain loop has taken the sentinel, the broker took the ack of every
    message ever fetched, except those that were skipped and whose own ack failed,
    unless the processor refused a message of theirs or the last flush (a failed ack
    of the batch is such a refusal), with what its exception does to the batch. *)
Theorem stop_drains ccfg durable companies existing acts s rounds p s' :
  fl_run ccfg acts fresh_fl = Some s ->
  respects ccfg (js_max_ack_pending (js_config ccfg durable companies existing)) acts fresh_fl = true ->
  None ∈ fl_taken s -> all_items rounds = fl_taken s -> existsb rd_cancel rounds = false ->
  bp_pending p = [] -> NoDup (m_id <$> fl_fetched s) ->
  run_rounds rounds (mk_bf p 0) = (Returned, s') ->
  (exists t, bp_trace (bf_processor s') = bp_trace p ++ t /\
     forall m, m ∈ fl_fetched s -> TAck (m_id m) true ∈ t \/ (TSkip (m_id m) ∈ t /\ TAck (m_id m) false ∈ t)) \/
  exists inputs e, msgs inputs `prefix_of` fl_fetched s /\
    (run inputs p = (inl e, bf_processor s') \/
     exists p1, run inputs p = (inr tt, p1) /\ flush now_at p1 = (inl e, bf_processor s')).
Proof.
  intros Hr Hre Hn Hi Hc Hp Hd E.
  pose proof (run_ordered ccfg _ _ _ (fresh_ordered ccfg) Hr) as Ho.
  pose proof (respects_smooth ccfg _ _ _ _ _ Hr Hre) as Hsm.
  pose proof (taken_sentinel ccfg s Ho Hsm Hn) as Ht. rewrite Ht in Hi.
  pose proof (rounds_progress rounds p 0) as H. rewrite E, Hc, Hi in H. destruct H as [inputs e Hpre He H|inputs p1 r Hpre H Hf|inputs p1 Hx _ _ _]; [| |done].
  - right. exists inputs, e. split; [by apply some_prefix|by left].
  - apply sentinel_prefix in Hpre. destruct r as [e|[]].
    + right. exists inputs, e. split; [by rewrite Hpre|right; by exists p1].
    + left. destruct (run_settled cfg now_at inputs p p1 H) as (t & T & Hs); [by rewrite Hp, Hpre|].
      pose proof (flush_outcomes now_at p1) as Hfo. rewrite Hf in Hfo. destruct (flush_settled _ _ Hfo) as (t2 & T2 & Hs2 & Hnil).
      cbn [snd] in *. exists (t ++ t2). rewrite T2, T. split; [by rewrite app_assoc|]. intros m Hm. apply acknowledged_app.
      destruct (Hs m) as [Hm1|?]; [rewrite Hp, Hpre; done| |by left].
      destruct (Hs2 m Hm1) as [Hx|?]; [rewrite Hnil in Hx; by apply elem_of_nil in Hx|by right].
Qed.
End drained.

(** ** The gauge of pending events *)

Section gauge.
Context {D R : Type} `{!Driver D} `{!Registry R}.
Context (cfg : bp_config) (now_at : nat -> Z).
Notation BP := (@BP D R).
Notation run := (ConsumerSafety.run cfg now_at).

(** the calls of [pending_events_dec] *)
Definition decs (t : list effect) : nat := length (omap (fun e => match e with TDec => Some tt | _ => None end) t).

Definition tally (s : BP) : nat := decs (bp_trace s) + length (bp_pending s).

Lemma decs_app t l : decs (t ++ l) = (decs t + decs l)%nat.
Proof. unfold decs. by rewrite omap_app, length_app. Qed.

Lemma decs_acks l : decs (acks l) = length l.
Proof. unfold acks. induction l as [|m l IH]; simpl; [done|]. change (S (decs (flat_map (fun m => [TAck (m_id m) (m_ack_ok m); TDec]) l)) = S (length l)). by rewrite IH. Qed.

(** a computation that returns with the balance it started with *)
Definition keeps (n : nat) {A} (m : M BP bp_exn A) : Prop := triple (fun s => tally s = n) m (fun _ s => tally s = n) (fun _ _ => True).

Lemma gauge_bind n {A B} (m : M BP bp_exn A) (f : A -> M BP bp_exn B) : keeps n m -> (forall a, keeps n (f a)) -> keeps n (m ≫= f).
Proof. intros Hm Hf. eapply triple_bind; [exact Hm|exact Hf]. Qed.
Lemma gauge_ret n {A} (a : A) : keeps n (mret a).
Proof. by intros s. Qed.
Lemma gauge_gets n {A} (f : BP -> A) : keeps n (gets f).
Proof. by intros s. Qed.
Lemma gauge_emit n e : match e with TDec => False | _ => True end -> keeps n (emit e).
Proof. intros He s Hs. unfold emit, tally in *. simpl. rewrite decs_app. unfold decs at 2. destruct e; simpl in *; try done; lia. Qed.
Lemma gauge_modify n (f : BP -> BP) : (forall s, tally (f s) = tally s) -> keeps n (modify f).
Proof. intros Hf s Hs. simpl. by rewrite Hf. Qed.
Lemma gauge_driver n {A} (f : method D driver_error A) : keeps n (call_driver f).
Proof. intros s Hs. unfold call_driver. by destruct (f (bp_driver s)). Qed.
Lemma gauge_registry n {A} (f : method R registry_error A) : keeps n (call_registry f).
Proof. intros s Hs. unfold call_registry. by destruct (f (bp_registry s)). Qed.
Lemma gauge_now n : keeps n (now now_at).
Proof. by intros s. Qed.

Lemma error_any {A} (P : BP -> Prop) (Q : A -> BP -> Prop) : triple P _handle_error Q (fun _ _ => True).
Proof. intros s _. unfold _handle_error, mbind, M_bind. by destruct (nack_everything s) as [[|[]] s']. Qed.

Lemma counted_error {A} (P : BP -> Prop) (Q : A -> BP -> Prop) : triple P (_ ← emit TDec; _handle_error) Q (fun _ _ => True).
Proof. eapply (triple_bind _ _ _ (fun _ _ => True)); [by intros s|]. intros []. apply error_any. Qed.

Lemma gauge_flush n : keeps n (flush now_at).
Proof.
  intros s Hs. pose proof (flush_outcomes now_at s) as H. destruct (flush now_at s) as [[e|[]] s']; [done|].
  simpl in H. remember (inr tt) as r eqn:Er. destruct H as [s' _ (Hp & _) Ht| |]; try done.
  unfold tally in *. rewrite Ht, Hp. change (TFlush :: acks (bp_pending s) ++ [TObserve (length (bp_pending s))]) with ([TFlush] ++ acks (bp_pending s) ++ [TObserve (length (bp_pending s))]).
  rewrite !decs_app, decs_acks. simpl. unfold decs in *. simpl. lia.
Qed.

#[local] Hint Resolve gauge_ret gauge_gets gauge_driver gauge_registry gauge_now gauge_flush : gauge.

(** one step of a computation that keeps the tally *)
Ltac keeping := repeat first
  [ solve [eauto with gauge]
  | by apply gauge_emit
  | by apply gauge_modify
  | apply error_any
  | apply counted_error
  | apply gauge_bind; [|intros ?]
  | progress case_match ].

Lemma gauge_migration n evt : keeps n (handle_possible_migration cfg evt).
Proof. unfold handle_possible_migration, try_registry, try_driver. keeping. Qed.

Lemma gauge_unknown n evt : keeps n (drop_unknown cfg evt).
Proof. unfold drop_unknown. keeping. Qed.

Lemma gauge_latency n msg : keeps n (latency_flush cfg now_at msg).
Proof. unfold latency_flush. keeping. Qed.
#[local] Hint Resolve gauge_migration gauge_unknown gauge_latency : gauge.

Lemma gauge_event n msg evt : keeps n (handle_event cfg now_at msg evt).
Proof. unfold handle_event. keeping. Qed.

Lemma skip_tally n msg s : tally s = n -> forall l, bp_pending s = l ++ [msg] ->
  match (_ ← emit (TSkip (m_id msg)); _ ← _ack msg; _ ← _remove_from_pending msg; emit TDec) s with
  | (inr _, s') => tally s' = n | (inl _, _) => True end.
Proof.
  intros Hs l Hl. unfold _ack, _remove_from_pending, emit, modify, mbind, M_bind, tally in *. simpl.
  rewrite Hl in *. rewrite remove_appended_length, !decs_app. rewrite length_app in Hs. unfold decs in *. simpl in *. lia.
Qed.

Lemma message_tally n msg : triple (fun s => tally s = n) (process_message cfg now_at msg) (fun _ s => tally s = S n) (fun _ _ => True).
Proof.
  unfold process_message. destruct (m_meta msg) as [m|]; [|apply counted_error].
  eapply (triple_bind _ _ _ (fun _ s => tally s = S n /\ exists l, bp_pending s = l ++ [msg])).
  { intros s Hs. simpl. split; [|by eexists]. unfold tally in *. simpl. rewrite length_app. simpl. lia. }
  intros []. eapply (triple_bind _ _ _ (fun _ s => tally s = S n /\ exists l, bp_pending s = l ++ [msg])); [by intros s|]. intros seq.
  eapply (triple_bind _ _ _ (fun _ s => tally s = S n /\ exists l, bp_pending s = l ++ [msg])).
  { destruct (_ =? _); [by intros s|apply counted_error]. }
  intros []. eapply (triple_bind _ _ _ (fun _ s => tally s = S n /\ exists l, bp_pending s = l ++ [msg])); [by intros s|]. intros [].
  destruct (from_message (m_data msg)) as [evt|e|]; [|apply counted_error|by intros s].
  destruct (should_skip cfg evt) as [[[|] evt']|]; [| |by intros s].
  - intros s [Hs [l Hl]]. by apply (skip_tally _ _ _ Hs l).
  - intros s [Hs _]. by apply gauge_event.
Qed.

Lemma idle_tally n : keeps n (on_idle cfg now_at).
Proof. unfold on_idle. keeping. Qed.

Lemma run_tally inputs p p' : run inputs p = (inr tt, p') -> tally p' = (tally p + length (msgs inputs))%nat.
Proof.
  revert p. induction inputs as [|i inputs IH]; intros p H; [injection H as <-; simpl; lia|].
  apply run_cons in H as (p1 & E & H). rewrite (IH p1 H). destruct i as [msg|]; simpl in E.
  - pose proof (message_tally _ msg p eq_refl) as Hb. rewrite E in Hb. rewrite Hb. simpl. lia.
  - pose proof (idle_tally _ p eq_refl) as Hb. rewrite E in Hb. by rewrite Hb.
Qed.

(** C12: While the drain loop runs, with a broker that keeps to its limit, the gauge of
    pending events is the number of messages in the queue and in the batch, and
    every fetched message was counted once. *)
Theorem gauge_exact ccfg durable companies existing acts s rounds p s' :
  fl_run ccfg acts fresh_fl = Some s ->
  respects ccfg (js_max_ack_pending (js_config ccfg durable companies existing)) acts fresh_fl = true ->
  all_items rounds = fl_taken s ->
  bp_pending p = [] -> bp_trace p = [] ->
  run_rounds cfg now_at rounds (mk_bf p 0) = (Running, s') ->
  fl_counted s = length (fl_fetched s) /\
  (fl_counted s = decs (bp_trace (bf_processor s')) + (length (messages (fl_queue s)) + length (bp_pending (bf_processor s'))))%nat.
Proof.
  intros Hr Hre Hi Hp Ht E.
  pose proof (run_ordered ccfg _ _ _ (fresh_ordered ccfg) Hr) as Ho.
  pose proof (respects_smooth ccfg _ _ _ _ _ Hr Hre) as Hsm.
  pose proof (smooth_order ccfg s Ho Hsm) as Hf. destruct Hsm as (_ & _ & Hc). split; [done|].
  pose proof (rounds_progress cfg now_at rounds p 0) as H. rewrite E in H. destruct H as (inputs & H & Hitems).
  apply run_tally in H. unfold tally in H. rewrite Hp, Ht in H. simpl in H.
  rewrite Hc, Hf, <- Hi, <- Hitems, messages_some, length_app. lia.
Qed.
End gauge.

(** ** An execution: three messages around a pause, then a graceful stop *)
Module FetchRun.
#[local] Existing Instance counting_driver.
#[local] Existing Instance one_table_registry.

Definition config (max_ack_pending : Z) : ConsumerConfig := mk_consumer_config [] [] max_ack_pending 0 None None false 0 0 0 0.
Definition m1 : Msg := sample_msg 1 1 true.
Definition m2 : Msg := sample_msg 2 2 true.
Definition m3 : Msg := sample_msg 3 3 true.

Definition acts : list fl_act :=
  [Unpause; Pull (Messages [m1; m2]); Take; Pause; Pull TimedOut; Unpause; Pull FetchError; Pull (Messages [m3]); Take].
Definition paused_acts : list fl_act := [Unpause; Pull (Messages [m1; m2]); Take; Pause; Unpause; Pull FetchError; Pull (Messages [m3]); Take].
Definition stopped_acts : list fl_act := paused_acts ++ [Stop; Take; PutSentinel; Take].

(** a pull of a paused consumer is not possible *)
Example no_pull : fl_run (config 25) acts fresh_fl = None.
Proof. reflexivity. Qed.

Abbreviation after l := (default fresh_fl (fl_run (config 25) l fresh_fl)).

Lemma fetched_in_order_witness :
  let s := after stopped_acts in
  moved s `sublist_of` fl_fetched s /\ fl_fetched s ≡ₚ moved s ++ fl_dropped s /\
  Z.of_nat (length (fl_queue s)) <= effective_max_ack_pending (config 25) /\
  (None ∈ fl_taken s -> fl_queue s = [] /\ fl_producer s = NoTask) /\
  (respects (config 25) (js_max_ack_pending (js_config (config 25) [] [] None)) stopped_acts fresh_fl = true ->
   fl_dropped s = [] /\ fl_fetched s = messages (fl_taken s) ++ messages (fl_queue s)).
Proof. apply (fetched_in_order (config 25) [] [] None stopped_acts). vm_compute. reflexivity. Defined.

Definition stopped_rounds : list round := [mk_round [Some m1] false None; mk_round [Some m2; Some m3; None] false None].

Abbreviation drained := (run_rounds sample_cfg sample_clock stopped_rounds (mk_bf sample_state 0)).

Lemma stop_drains_witness :
  (exists t, bp_trace (bf_processor drained.2) = bp_trace sample_state ++ t /\
     forall m, m ∈ fl_fetched (after stopped_acts) -> TAck (m_id m) true ∈ t \/ (TSkip (m_id m) ∈ t /\ TAck (m_id m) false ∈ t)) \/
  exists inputs e, msgs inputs `prefix_of` fl_fetched (after stopped_acts) /\
    (run sample_cfg sample_clock inputs sample_state = (inl e, bf_processor drained.2) \/
     exists p1, run sample_cfg sample_clock inputs sample_state = (inr tt, p1) /\ flush sample_clock p1 = (inl e, bf_processor drained.2)).
Proof.
  assert (fl_run (config 25) stopped_acts fresh_fl = Some (after stopped_acts)) as H1 by (vm_compute; reflexivity).
  assert (respects (config 25) (js_max_ack_pending (js_config (config 25) [] [] None)) stopped_acts fresh_fl = true) as H2 by (vm_compute; reflexivity).
  assert (None ∈ fl_taken (after stopped_acts)) as H3.
  { apply (list_elem_of_lookup_2 _ 3). vm_compute. reflexivity. }
  assert (all_items stopped_rounds = fl_taken (after stopped_acts)) as H4 by (vm_compute; reflexivity).
  assert (NoDup (m_id <$> fl_fetched (after stopped_acts))) as H5.
  { apply (bool_decide_eq_true_1 _). vm_compute. reflexivity. }
  assert (drained = (Returned, drained.2)) as H6 by (vm_compute; reflexivity).
  exact (stop_drains sample_cfg sample_clock (config 25) [] [] None stopped_acts _ stopped_rounds sample_state _ H1 H2 H3 H4 eq_refl eq_refl H5 H6).
Defined.

Definition running_rounds : list round := [mk_round [Some m1] false (Some (Some m2))].
Abbreviation running := (run_rounds sample_cfg sample_clock running_rounds (mk_bf sample_state 0)).

Lemma gauge_exact_witness :
  fl_counted (after paused_acts) = length (fl_fetched (after paused_acts)) /\
  (fl_counted (after paused_acts) = decs (bp_trace (bf_processor running.2)) + (length (messages (fl_queue (after paused_acts))) + length (bp_pending (bf_processor running.2))))%nat.
Proof.
  assert (fl_run (config 25) paused_acts fresh_fl = Some (after paused_acts)) as H1 by (vm_compute; reflexivity).
  assert (respects (config 25) (js_max_ack_pending (js_config (config 25) [] [] None)) paused_acts fresh_fl = true) as H2 by (vm_compute; reflexivity).
  assert (all_items running_rounds = fl_taken (after paused_acts)) as H3 by (vm_compute; reflexivity).
  assert (running = (Running, running.2)) as H4 by (vm_compute; reflexivity).
  exact (gauge_exact sample_cfg sample_clock (config 25) [] [] None paused_acts _ running_rounds sample_state _ H1 H2 H3 eq_refl eq_refl H4).
Defined.

(** A broker that delivers past the limit meets a full queue.  A pause then drops
    the message that waits for room, and the next one the processor sees is out of
    order: the batch is refused and the consumer stops. *)
Definition over_limit_acts : list fl_act := [Unpause; Pull (Messages [m1; m2]); Pause; Take; Unpause; Pull (Messages [m3]); Take].
Definition over_limit : FL := default fresh_fl (fl_run (config 1) over_limit_acts fresh_fl).
Abbreviation refused := (run_rounds sample_cfg sample_clock [mk_round (fl_taken over_limit) false None] (mk_bf sample_state 0)).

Lemma over_limit_pause_drops :
  fl_run (config 1) over_limit_acts fresh_fl = Some over_limit /\ fl_dropped over_limit = [m2] /\ fl_taken over_limit = [Some m1; Some m3] /\
  refused.1 = Returned /\ bf_fatals refused.2 = 1%nat /\ TNak 3 true ∈ bp_trace (bf_processor refused.2).
Proof.
  do 5 (split; [vm_compute; reflexivity|]). apply (list_elem_of_lookup_2 _ 3). vm_compute. reflexivity.
Qed.
End FetchRun.
