(* ===== verification/Batcher.v ===== *)
(** * Batching: eds/util/batcher.py and eds/util/hash.py

    [Record] and [Batcher], which accumulates change events, and the FNV-1a
    hash behind [modulo].  A record shares its [object] and [diff] with its
    event in the sources; the model copies them, which no operation below can
    tell apart as long as every event is added once. *)
From stdpp Require Import base tactics list option numbers sets strings.
From S2P Require Import Prelude PyStr PyDict PyFloat GoJson Schema DbChange.

Record BRecord := mk_record {
  r_table : pystr;
  r_id : pystr;
  r_operation : pystr;
  r_diff : option (list pystr);
  r_object : option (pydict pyobj);
  r_event : option DBChangeEvent
}.

Definition record_fields (r : BRecord) : list (pystr * OmitEmpty * pyobj) :=
  [(u"table", NEVER, PStr (r_table r));
   (u"id", NEVER, PStr (r_id r));
   (u"operation", NEVER, PStr (r_operation r));
   (u"diff", NEVER, opt_obj strs_obj (r_diff r));
   (u"object", NEVER, opt_obj PDict (r_object r))].

(** [str(record)] *)
Definition record_str (r : BRecord) : pystr := stringify (PStruct (record_fields r)).

(** [Batcher._records] *)
Abbreviation Batcher := (list BRecord).

(** [Batcher.add]: the error of [get_object] is raised *)
Definition batcher_add (event : DBChangeEvent) (b : Batcher) : (event_error + unit) * Batcher :=
  match (obj ← get_object; pk ← get_primary_key; mret (obj, pk)) event with
  | (inl e, _) => (inl e, b)
  | (inr (obj, pk), event') =>
      (inr tt, b ++ [mk_record (ev_table event) pk (ev_operation event) (ev_diff event) obj (Some event')])
  end.

Definition batcher_clear (b : Batcher) : Batcher := [].
Definition batcher_len (b : Batcher) : nat := length b.

(** ** FNV-1a and [modulo] *)

Definition _FNV32_OFFSET : Z := 2166136261.
Definition _FNV32_PRIME : Z := 16777619.
Definition _UINT32_MASK : Z := 4294967295.

Definition _fnv1a_32 (data : list Z) : Z :=
  foldl (fun h b => Z.land (Z.lxor h b * _FNV32_PRIME) _UINT32_MASK) _FNV32_OFFSET data.

(** [None] is the ZeroDivisionError; Python's [%] has the sign of the divisor *)
Definition modulo (value : pystr) (num : Z) : option Z :=
  if num =? 0 then None
  else
    let partition := _fnv1a_32 (utf8_encode value) mod num in
    Some (if partition <? 0 then - partition else partition).

(** ** Properties *)

Lemma fnv1a_step_bound x : 0 <= Z.land x _UINT32_MASK < 2 ^ 32.
Proof. unfold _UINT32_MASK. change 4294967295 with (Z.ones 32). rewrite Z.land_ones by lia. apply Z.mod_pos_bound. lia. Qed.

Lemma fnv1a_bound data : 0 <= _fnv1a_32 data < 2 ^ 32.
Proof.
  unfold _fnv1a_32. destruct data as [|b data _] using rev_ind; [done|].
  rewrite foldl_app. apply fnv1a_step_bound.
Qed.

(** [modulo] lands in range: for a positive number of partitions the result
    is a partition index, and the 32-bit state of the hash never overflows its
    mask. *)
Theorem modulo_in_range value num :
  0 < num -> exists p, modulo value num = Some p /\ 0 <= p < num /\
    0 <= _fnv1a_32 (utf8_encode value) < 2 ^ 32.
Proof.
  intros Hn. unfold modulo. destruct (Z.eqb_spec num 0); [lia|].
  pose proof (Z.mod_pos_bound (_fnv1a_32 (utf8_encode value)) num Hn) as Hb.
  eexists. split; [done|]. split; [|apply fnv1a_bound]. destruct (Z.ltb_spec (_fnv1a_32 (utf8_encode value) mod num) 0); lia.
Qed.

Lemma modulo_in_range_witness :
  exists p, modulo (u"customer42") 12 = Some p /\ 0 <= p < 12 /\
    0 <= _fnv1a_32 (utf8_encode (u"customer42")) < 2 ^ 32.
Proof. apply (modulo_in_range (u"customer42") 12). lia. Defined.

(** The record of an event that [from_message] accepted. *)
Lemma batcher_add_ok e b r k :
  get_object e = (inr r, e) -> get_primary_key e = (inr k, e) ->
  batcher_add e b =
  (inr tt, b ++ [mk_record (ev_table e) k (ev_operation e) (ev_diff e) r (Some e)]).
Proof.
  intros Ho Hk. unfold batcher_add.
  rewrite (bind_inr get_object _ e r e) by done. rewrite (bind_inr get_primary_key _ e k e) by done. done.
Qed.
