(* ===== verification/FileDriver.v ===== *)
(** * Files: eds/drivers/file

    Every event becomes one file, <directory>/<table>/<second>-<key>.json,
    written when it is processed; a flush does nothing.  The file system is an
    instance of [FileSystem]; [fd_written] records the files that were written,
    in order.

    The theorems: where the file of an event is, that the directory of a form is
    the one the driver writes to, and the promises of [DurableDriver].  Lemmas
    show what the names do not keep apart: changes of a row within a second, and
    rows whose key holds a path. *)
From stdpp Require Import base tactics list option numbers sets strings.
From S2P Require Import Prelude PyStr PyPath PyDict PyFloat GoJson Schema DbChange Interfaces GoUrl DriverConfig Streaming.

Class FileSystem (W : Type) := {
  fs_cwd : W -> pystr;
  (** [eds.util.file.exists] *)
  fs_exists : pystr -> W -> bool;
  fs_makedirs : pystr -> method W unit unit;
  (** open for writing, truncating, and write *)
  fs_write : pystr -> list Z -> method W unit unit;
  (** [is_dir_writable]: a probe file; [Some] is the reason it failed *)
  fs_probe : pystr -> W -> option pystr * W
}.

Inductive file_exn : Type := FileUrl | FileNoPath | FileOs | FileEvent (e : event_error) | FileUnicode.

(** [_DRIVE_LETTER_HOST] *)
Definition drive_letter_host (host : pystr) : bool :=
  match host with [c; 58] => is_alpha c | _ => false end.

Definition get_file_name (table : pystr) (timestamp_ms : Z) (id : pystr) : pystr :=
  table ++ u"/" ++ str_of_Z (timestamp_ms / 1000) ++ u"-" ++ id ++ u".json".

Section driver.
Context {W : Type} `{!FileSystem W}.

Record FD := mk_fd {
  fd_world : W;
  fd_dir : pystr;
  fd_import_dry_run : option bool;   (** of [_import_config] *)
  fd_written : list (pystr * list Z)
}.

Definition fd_set_world (w : W) (s : FD) : FD := mk_fd w (fd_dir s) (fd_import_dry_run s) (fd_written s).
Definition fd_set_dir (d : pystr) (s : FD) : FD := mk_fd (fd_world s) d (fd_import_dry_run s) (fd_written s).
Definition fd_set_dry_run (b : bool) (s : FD) : FD := mk_fd (fd_world s) (fd_dir s) (Some b) (fd_written s).
Definition fd_log (x : pystr * list Z) (s : FD) : FD :=
  mk_fd (fd_world s) (fd_dir s) (fd_import_dry_run s) (fd_written s ++ [x]).

Abbreviation FM A := (M FD file_exn A).

Definition on_fs {A} (f : method W unit A) : FM A :=
  fun s : FD => let '(r, w) := f (fd_world s) in
    (match r with inl _ => inl FileOs | inr a => inr a end, fd_set_world w s).

Definition ensure_dir (directory : pystr) : FM unit :=
  there ← gets (fun s : FD => fs_exists directory (fd_world s));
  if (there : bool) then mret tt else on_fs (fs_makedirs directory).

Definition get_path_from_url (url_string : pystr) : FM pystr :=
  match parse url_string with
  | inl _ => raise FileUrl
  | inr x =>
      directory ← (if drive_letter_host (url_host x) then mret (url_host x ++ url_path x)
                   else match url_path x with [] => raise FileNoPath | p => mret p end);
      cwd ← gets (fun s : FD => fs_cwd (fd_world s));
      let directory := abspath cwd directory in
      _ ← ensure_dir directory;
      _ ← modify (fd_set_dir directory);
      mret directory
  end.

Definition start (url : pystr) : FM unit := _ ← get_path_from_url url; mret tt.
Definition test (url : pystr) : FM unit := _ ← get_path_from_url url; mret tt.
Definition stop : FM unit := mret tt.
Definition max_batch_size : Z := -1.

Definition event_path (dir table : pystr) (timestamp : Z) (pk : pystr) : pystr :=
  path_join dir (split_char slash (get_file_name table timestamp pk)).

Definition write_event (event : DBChangeEvent) (dry_run : bool) : FM unit :=
  '(pk, event) ← on_event FileEvent get_primary_key event;
  buf ← or_raise FileUnicode (event_bytes event);
  dir ← gets fd_dir;
  let fp := event_path dir (ev_table event) (ev_timestamp event) pk in
  if dry_run then mret tt
  else
    _ ← ensure_dir (dirname fp);
    _ ← on_fs (fs_write fp buf);
    modify (fd_log (fp, buf)).

Definition process (event : DBChangeEvent) : FM bool := _ ← write_event event false; mret false.
Definition flush : FM unit := mret tt.

(** *** The import handler *)

Definition import_event (event : DBChangeEvent) : FM unit :=
  dry_run ← gets fd_import_dry_run; write_event event (default false dry_run).
Definition import_completed : FM unit := mret tt.

(** [run_import] up to the replay, and whether it gets there *)
Definition begin_import (schema_only dry_run : bool) (url : pystr) : FM bool :=
  if schema_only then mret false
  else _ ← get_path_from_url url; _ ← modify (fd_set_dry_run dry_run); mret true.

(** *** The form *)

Definition not_writable (parent msg : pystr) : pystr :=
  parent ++ u" directory isn't writable and directory currently does not exist: " ++ msg.

Definition validate (vs : values) : FM (pystr * list FieldError) :=
  let '(directory, err) := get_required_string_value (u"Directory") vs in
  let field_errors := option_errors [err] in
  if str_eqb directory (u"/") then
    mret ([], [mk_field_error (u"Directory") (u"cannot be the root directory")])
  else
    cwd ← gets (fun s : FD => fs_cwd (fd_world s));
    let absdir := abspath cwd directory in
    there ← gets (fun s : FD => fs_exists absdir (fd_world s));
    let probed := if there : bool then absdir else dirname absdir in
    bad ← on_fs (fun w => let '(r, w') := fs_probe probed w in (inr r, w'));
    match bad with
    | Some msg => mret ([], [mk_field_error (u"Directory")
        (if there : bool then absdir ++ u" directory isn't writable" else not_writable probed msg)])
    | None =>
        match field_errors with
        | [] => mret (u"file://" ++ replace_char 92 (u"/") absdir, [])
        | _ => mret ([], field_errors)
        end
    end.

#[export] Instance file_driver : Driver FD := {|
  drv_process := fun e => as_driver (process e);
  drv_flush := as_driver flush;
  drv_max_batch_size := max_batch_size;
  drv_supports_migration := false;
  drv_migrate_new_table := fun _ => as_driver (raise FileOs);
  drv_migrate_new_columns := fun _ _ => as_driver (raise FileOs);
  drv_get_destination_schema := as_driver (raise FileOs)
|}.
End driver.
Arguments FD W : clear implicits.

(** ** Where the file of an event is *)

Definition file_name (timestamp : Z) (pk : pystr) : pystr := str_of_Z (timestamp / 1000) ++ u"-" ++ pk ++ u".json".

Lemma second_no_slash n : slash ∉ str_of_Z n.
Proof.
  assert (forall m, 0 <= m -> slash ∉ str_of_nonneg m) as H.
  { intros m Hm. destruct (str_of_nonneg_digits m Hm) as (c & r & -> & _ & Hd & _).
    intros Hin. rewrite forallb_forall in Hd. by specialize (Hd slash ltac:(by apply list_elem_of_In)). }
  unfold str_of_Z. destruct (Z.ltb_spec n 0); [|by apply H].
  change (u"-" ++ ?t) with (45 :: t). apply not_elem_of_cons. split; [done|]. apply H. lia.
Qed.

Lemma file_name_good timestamp pk : slash ∉ pk -> good (file_name timestamp pk).
Proof.
  intros Hpk. assert (5 < length (file_name timestamp pk))%nat as Hl.
  { unfold file_name. rewrite !length_app. change (length (u"-")) with 1%nat. change (length (u".json")) with 5%nat. lia. }
  unfold good. split_and!; [by intros E; rewrite E in Hl; simpl in Hl; lia..|].
  unfold file_name. rewrite !not_elem_of_app. split_and!; [apply second_no_slash| |done|];
    by apply (bool_decide_eq_false_1 _).
Qed.

Lemma event_path_rooted l table timestamp pk :
  Forall good l -> good table -> slash ∉ pk ->
  event_path (rooted l) table timestamp pk = rooted (l ++ [table; file_name timestamp pk]).
Proof.
  intros Hl Ht Hpk. unfold event_path.
  assert (split_char slash (get_file_name table timestamp pk) = [table; file_name timestamp pk]) as ->.
  { unfold get_file_name. change (table ++ u"/" ++ ?t) with (table ++ slash :: t).
    destruct Ht as (_ & _ & _ & Hs). rewrite split_char_app by done. f_equal. apply split_char_notin.
    by destruct (file_name_good timestamp pk Hpk) as (_ & _ & _ & ?). }
  apply path_join_rooted; [done|]. constructor; [done|]. constructor; [by apply file_name_good|by apply Forall_nil].
Qed.

Lemma event_comps l table timestamp pk :
  Forall good l -> good table -> slash ∉ pk -> Forall good (l ++ [table; file_name timestamp pk]).
Proof.
  intros Hl Ht Hp. apply Forall_app. split; [done|]. apply Forall_cons. split; [done|].
  apply Forall_cons. split; [by apply file_name_good|by apply Forall_nil].
Qed.

(** digits up to the first dash *)
Lemma second_split n m a b : 0 <= n -> 0 <= m -> str_of_Z n ++ u"-" ++ a = str_of_Z m ++ u"-" ++ b -> n = m /\ a = b.
Proof.
  intros Hn Hm E. unfold str_of_Z in E. destruct (Z.ltb_spec n 0); [lia|]. destruct (Z.ltb_spec m 0); [lia|].
  assert (forall k, 0 <= k -> 45 ∉ str_of_nonneg k) as Hd.
  { intros k Hk Hin. destruct (str_of_nonneg_digits k Hk) as (c & r & E' & _ & Hd & _). rewrite E' in Hin.
    rewrite forallb_forall in Hd. by specialize (Hd 45 ltac:(by apply list_elem_of_In)). }
  change (u"-" ++ a) with (45 :: a) in E. change (u"-" ++ b) with (45 :: b) in E.
  pose proof (partition_char_app 45 (str_of_nonneg n) a (Hd n Hn)) as E1. rewrite E in E1.
  rewrite (partition_char_app 45 (str_of_nonneg m) b (Hd m Hm)) in E1. injection E1 as E1 ->.
  split; [|done]. symmetry. by apply str_of_nonneg_inj.
Qed.

(** the file of an event is <directory>/<table>/<second>-<key>.json when the
    table and the key are plain names; two events share a file exactly when
    they are changes of one row within one second. *)
Theorem event_files l table table' timestamp timestamp' pk pk' :
  Forall good l -> good table -> good table' -> slash ∉ pk -> slash ∉ pk' -> 0 <= timestamp -> 0 <= timestamp' ->
  event_path (rooted l) table timestamp pk = rooted (l ++ [table; file_name timestamp pk]) /\
  (event_path (rooted l) table timestamp pk = event_path (rooted l) table' timestamp' pk' <->
   table = table' /\ pk = pk' /\ timestamp / 1000 = timestamp' / 1000).
Proof.
  intros Hl Ht Ht' Hp Hp' H0 H0'. split; [by apply event_path_rooted|].
  rewrite !event_path_rooted by done. split.
  - intros E%rooted_inj; [|by apply event_comps..].
    apply app_inv_head in E. assert (table = table') as <- by congruence.
    assert (file_name timestamp pk = file_name timestamp' pk') as E' by congruence.
    assert (0 <= timestamp / 1000 /\ 0 <= timestamp' / 1000) as [Hs Hs'] by (split; by apply Z.div_pos).
    destruct (second_split _ _ _ _ Hs Hs' E') as [Es Ep].
    by apply app_inv_tail in Ep.
  - intros (-> & -> & E). unfold file_name. by rewrite E.
Qed.

(** ** From the form to the directory *)

Section form.
Context {W : Type} `{!FileSystem W}.
Implicit Type s : FD W.

Lemma rooted_url l :
  Forall good l -> literal path_marks (rooted l) = true ->
  exists x, parse (u"file://" ++ rooted l) = inr x /\ url_host x = [] /\ url_path x = rooted l.
Proof.
  intros Hl Hd. unfold literal, rooted in Hd. rewrite forallb_app in Hd. apply andb_true_iff in Hd as [_ Hd].
  destruct (db_url_parse 0 0 [] eq_refl ltac:(lia) [] [] eq_refl eq_refl (u"file") (join [slash] l) eq_refl Hd) as [raw Hp].
  eexists. split; [exact Hp|]. done.
Qed.

(** a directory the form accepts is the one the driver writes to: the URL the
    form answers with leads back to its absolute form, when no name in it holds
    a character with a meaning in a URL or a backslash.  Making the directory
    is all that can fail then. *)
Theorem file_form_starts s vs url s1 dir :
  validate vs s = (inr (url, []), s1) ->
  startswith [slash] (fs_cwd (fd_world s)) = true ->
  dir = abspath (fs_cwd (fd_world s)) (form_string (u"Directory") vs) ->
  initial_slashes (if startswith [slash] (form_string (u"Directory") vs) then form_string (u"Directory") vs
                   else path_join (fs_cwd (fd_world s)) [form_string (u"Directory") vs]) = 1%nat ->
  literal path_marks dir = true -> char_in 92 dir = false ->
  dict_get (u"Directory") vs = Some (PStr (form_string (u"Directory") vs)) /\
  match start url s1 with
  | (inr _, s2) => fd_dir s2 = dir
  | (inl e, s2) => e = FileOs /\ fs_exists dir (fd_world s1) = false
  end.
Proof.
  intros Hv Hcwd -> Hn Hlit Hb. destruct (abspath_rooted _ _ Hcwd Hn) as (l & Hl & Hdir). rewrite Hdir in *.
  unfold validate in Hv. rewrite (surjective_pairing (get_required_string_value (u"Directory") vs)) in Hv.
  fold (form_string (u"Directory") vs) in Hv. destruct (str_eqb _ _); [done|].
  rewrite (bind_inr _ _ _ (fs_cwd (fd_world s)) s) in Hv by done. cbv zeta in Hv. rewrite Hdir in Hv.
  rewrite (bind_inr _ _ _ (fs_exists (rooted l) (fd_world s)) s) in Hv by done.
  unfold mbind, M_bind, on_fs in Hv. destruct (fs_probe _ _) as [[msg|] w]; [done|].
  destruct (option_errors _) as [|e es] eqn:Ee; [|done].
  rewrite replace_char_absent in Hv by (unfold char_in in Hb; by bool_prop).
  set (t := u"file://" ++ rooted l) in Hv. injection Hv as <- <-.
  split.
  { revert Ee. unfold form_string, get_required_string_value. by destruct (dict_get _ vs) as [[]|]. }
  destruct (rooted_url l Hl Hlit) as (x & Hp & Hh & Hpath).
  unfold start, get_path_from_url. fold t in Hp. rewrite Hp, Hh, Hpath. cbn [drive_letter_host].
  unfold mbind, M_bind, gets, mret, M_ret. unfold rooted at 1. cbn [app]. change (slash :: join [slash] l) with (rooted l).
  rewrite abspath_fixed by done. unfold ensure_dir, mbind, M_bind, gets, on_fs. cbn [fd_world fd_set_world].
  destruct (fs_exists (rooted l) w) eqn:Ex; [done|]. simpl.
  match goal with |- context [fs_makedirs ?a ?b] => destruct (fs_makedirs a b) as [[[]|[]] w2] end; [by split|done].
Qed.

(** *** The promises of a destination *)

(** an item is a file and its content *)
Definition file_of (e : DBChangeEvent) (it : pystr * list Z) : Prop :=
  exists pk e' dir, get_primary_key e = (inr pk, e') /\ event_bytes e' = Some it.2 /\
    it.1 = event_path dir (ev_table e') (ev_timestamp e') pk.

Definition written (s : FD W) (it : pystr * list Z) : Prop := it ∈ fd_written s.
Definition nothing_held (s : FD W) (it : pystr * list Z) : Prop := False.
Definition any_state (s : FD W) : Prop := True.

Lemma ensure_dir_log d s : fd_written (ensure_dir d s).2 = fd_written s.
Proof.
  unfold ensure_dir, mbind, M_bind, gets, on_fs. destruct (fs_exists d (fd_world s)); [done|].
  by destruct (fs_makedirs d (fd_world s)) as [[[]|[]] w].
Qed.

Lemma write_event_cases e s :
  match write_event e false s with
  | (inr _, s') => exists it, file_of e it /\ fd_written s' = fd_written s ++ [it]
  | (inl _, s') => fd_written s' = fd_written s
  end.
Proof.
  unfold write_event, on_event, mbind, M_bind, or_raise.
  destruct (get_primary_key e) as [[err|pk] e'] eqn:Ek; [by simpl|].
  simpl. destruct (event_bytes e') as [buf|] eqn:Eb; [|done].
  unfold mret, M_ret, gets. set (fp := event_path _ _ _ _). pose proof (ensure_dir_log (dirname fp) s) as Hd.
  destruct (ensure_dir (dirname fp) s) as [[err|[]] s1]; [done|]. simpl in Hd. unfold on_fs.
  destruct (fs_write fp buf (fd_world s1)) as [[[]|[]] w]; [done|].
  exists (fp, buf). split; [by exists pk, e', (fd_dir s)|]. simpl. by rewrite Hd.
Qed.

Lemma file_process_cases e s :
  match process e s with
  | (inr _, s') => exists it, file_of e it /\ fd_written s' = fd_written s ++ [it]
  | (inl _, s') => fd_written s' = fd_written s
  end.
Proof.
  pose proof (write_event_cases e s) as H. unfold process, mbind, M_bind.
  by destruct (write_event e false s) as [[err|u] s'].
Qed.

Lemma file_process_preserves e : preserves any_state nothing_held written (drv_process (D := FD W) e).
Proof.
  split; intros s; [|by intros b s' _ _; split].
  intros it _ Hit. simpl. rewrite as_driver_state. pose proof (file_process_cases e s) as H. unfold written in *.
  destruct (process e s) as [[err|b] s']; simpl in *.
  - by rewrite H.
  - destruct H as (new & _ & ->). set_solver.
Qed.

Lemma file_process_takes e s b s' :
  any_state s -> drv_process e s = (inr b, s') -> exists it, file_of e it /\ (nothing_held s' it \/ written s' it).
Proof.
  intros _ E%as_driver_inr. pose proof (file_process_cases e s) as H. rewrite E in H.
  destruct H as (it & Hit & Hw). exists it. split; [done|]. right. unfold written. rewrite Hw. set_solver.
Qed.

Lemma file_nothing {A} (m : M (FD W) file_exn A) : (forall s, (m s).2 = s) -> preserves any_state nothing_held written (as_driver m).
Proof.
  intros Hm. split; [intros s it _; by rewrite as_driver_state, Hm|]. by intros s a s' _ _; split.
Qed.

#[export] Instance file_durable : DurableDriver (FD W) (pystr * list Z) := {|
  renders := file_of;
  driver_ok := any_state;
  held := nothing_held;
  stored := written;
  process_preserves := file_process_preserves;
  flush_preserves := file_nothing flush (fun _ => eq_refl);
  table_preserves := fun _ => file_nothing (raise FileOs) (fun _ => eq_refl);
  columns_preserves := fun _ _ => file_nothing (raise FileOs) (fun _ => eq_refl);
  process_takes := file_process_takes;
  flush_stores := fun s s' it _ _ H => False_ind _ H
|}.
End form.

(** ** Samples *)
Module FileRun.

(** a file system on which everything exists and nothing fails *)
#[local] Instance open_fs : FileSystem (list (pystr * list Z)) := {|
  fs_cwd := fun _ => u"/srv";
  fs_exists := fun _ _ => true;
  fs_makedirs := fun _ w => (inr tt, w);
  fs_write := fun p b w => (inr tt, w ++ [(p, b)]);
  fs_probe := fun _ w => (None, w)
|}.

Definition idle : FD (list (pystr * list Z)) := mk_fd [] [] None [].
Definition form (directory : pystr) : values := [(u"Directory", PStr directory)].

Lemma file_form_starts_witness :
  exists url, (validate (form (u"events/./new")) idle).1 = inr (url, []) /\
    match start url (validate (form (u"events/./new")) idle).2 with
    | (inr _, s2) => fd_dir s2 = u"/srv/events/new"
    | (inl e, s2) => e = FileOs /\ fs_exists (u"/srv/events/new") (fd_world idle) = false
    end.
Proof.
  exists (u"file:///srv/events/new"). split; [by vm_compute|].
  apply (file_form_starts idle (form (u"events/./new")) (u"file:///srv/events/new") _ (u"/srv/events/new")); by vm_compute.
Defined.

Lemma event_files_witness :
  event_path (rooted [u"srv"; u"events"]) (u"customer") 1700000000123 (u"42") =
    u"/srv/events/customer/1700000000-42.json" /\
  (event_path (rooted [u"srv"; u"events"]) (u"customer") 1700000000123 (u"42") =
   event_path (rooted [u"srv"; u"events"]) (u"customer") 1700000000999 (u"42")).
Proof.
  destruct (event_files [u"srv"; u"events"] (u"customer") (u"customer") 1700000000123 1700000000999 (u"42") (u"42"))
    as [H1 H2]; [apply (bool_decide_eq_true_1 _); by vm_compute| | | | |lia|lia|].
  1-4: apply (bool_decide_eq_true_1 _); by vm_compute.
  split; [rewrite H1; by vm_compute|]. apply H2. by vm_compute.
Defined.

(** a fragment mark in the directory cuts the path: the form accepts one
    directory, the driver writes to another *)
Lemma hash_directory_cut :
  match validate (form (u"/data/a#b")) idle with
  | (inr (url, []), s1) => fd_dir (start url s1).2 = u"/data/a"
  | _ => False
  end.
Proof. by vm_compute. Qed.

(** a key that holds a path leads out of the directory *)
Lemma key_leaves_directory :
  normpath (event_path (u"/srv/events") (u"customer") 0 (u"/../../../etc/x")) = u"/srv/etc/x.json".
Proof. by vm_compute. Qed.
End FileRun.
