(* ===== verification/S3.v ===== *)
(** * S3: eds/drivers/s3

    The driver collects events under their object keys and uploads a batch at a
    flush with a pool of workers.  The service is an instance of [S3Client];
    which of the running uploads takes effect next is decided by the argument
    [pick].  [s3_puts] records the objects the service accepted, in order.

    The theorems: what a flush stores whatever the order of the workers, that
    the bucket, the prefix and the credentials of a form reach the client, and
    that joining a key collapses its slashes.  Lemmas show the order of the
    workers when keys repeat, and an endpoint that is taken for a bucket. *)
From stdpp Require Import base tactics list option numbers sets strings.
From S2P Require Import Prelude PyStr PyDict PyFloat GoJson Schema DbChange Interfaces GoUrl DriverConfig Streaming.

Definition _MAX_BATCH_SIZE : Z := 1000.
Definition _DEFAULT_UPLOAD_TASKS : Z := 4.

Inductive S3Provider : Type := AWS | GOOGLE | LOCALSTACK.
#[global] Instance S3Provider_dec : EqDecision S3Provider.
Proof. solve_decision. Defined.

(** [eds.util.file.is_localhost] *)
Definition is_localhost (url : pystr) : bool :=
  substr_in (u"localhost") url || substr_in (u"127.0.0.1") url || substr_in (u"0.0.0.0") url.

Definition get_cloud_provider (host : pystr) : S3Provider :=
  if is_localhost host then LOCALSTACK else if substr_in (u"googleapis.com") host then GOOGLE else AWS.

Definition add_final_slash (s : pystr) : pystr :=
  match s with [] => [] | _ => if negb (endswith (u"/") s) then s ++ u"/" else s end.

Definition _trim_leading_slash (s : pystr) : pystr := if startswith (u"/") s then tail s else s.

Definition get_bucket_info (host path : pystr) (provider : S3Provider) : pystr * pystr * pystr :=
  match provider with
  | AWS => ([], host, add_final_slash (_trim_leading_slash path))
  | _ =>
      let '(bucket, prefix) := match split_char 47 (_trim_leading_slash path) with
                               | b :: rest => (b, add_final_slash (join (u"/") rest))
                               | [] => ([], [])
                               end in
      ((match provider with LOCALSTACK => u"http://" | _ => u"https://" end) ++ host, bucket, prefix)
  end.

(** [joined.replace("//", "/")] *)
Fixpoint replace_double (s : pystr) : pystr :=
  match s with
  | [] => []
  | c :: r =>
      match r with
      | d :: r' => if (c =? 47) && (d =? 47) then 47 :: replace_double r' else c :: replace_double r
      | [] => [c]
      end
  end.

(** the loop; a round shortens the text *)
Fixpoint collapse (fuel : nat) (s : pystr) : pystr :=
  match fuel with
  | O => s
  | S fuel => if substr_in (u"//") s then collapse fuel (replace_double s) else s
  end.

Definition nonempty_parts (parts : list pystr) : list pystr := filter (fun p => p <> []) parts.
Definition _path_join (parts : list pystr) : pystr :=
  let joined := join (u"/") (nonempty_parts parts) in collapse (length joined) joined.

(** the key of an event, which parses it when it has no validated path *)
Definition object_key (prefix : pystr) : EvM pystr :=
  path ← gets ev_schema_validated_path;
  match path with
  | Some p => mret (_path_join [prefix; p])
  | None =>
      table ← gets ev_table;
      timestamp ← gets ev_timestamp;
      pk ← get_primary_key;
      mret (_path_join [prefix; table; str_of_Z (timestamp / 1000) ++ u"-" ++ pk ++ u".json"])
  end.

(** ** The form *)

Definition set_nonempty (key value : pystr) (v : Values) : Values :=
  match value with [] => v | _ => values_set key value v end.

Definition form_values (region accesskey secret : pystr) : Values :=
  set_nonempty (u"secret-access-key") secret (set_nonempty (u"access-key-id") accesskey (set_nonempty (u"region") region [])).

(** the host and the path of the URL *)
Definition form_location (bucket prefix endpoint : pystr) : pystr * pystr :=
  let '(host, path) := match endpoint with [] => (bucket, []) | _ => (endpoint, bucket) end in
  (host, match prefix with [] => path | _ => match path with [] => prefix | _ => _path_join [path; prefix] end end).

(** [None]: a value that cannot be encoded *)
Definition validate_config (vs : values) : option (pystr * list FieldError) :=
  let '(bucket, err) := get_required_string_value (u"Bucket") vs in
  let opt name := get_optional_string_value name [] vs in
  let '(host, path) := form_location bucket (opt (u"Prefix")) (opt (u"Endpoint")) in
  match values_encode (form_values (opt (u"Region")) (opt (u"Access Key ID")) (opt (u"Secret Access Key"))) with
  | inl _ => None
  | inr raw_query =>
      match option_errors [err] with
      | [] => match url_str (mk_url (u"s3") [] None host path [] false raw_query [] []) with
              | inl _ => None
              | inr t => Some (t, [])
              end
      | errors => Some ([], errors)
      end
  end.

(** ** The driver *)

(** what the client is made with *)
Record S3Options := mk_s3_options {
  so_access_key_id : pystr;
  so_secret_access_key : pystr;
  so_session_token : pystr;
  so_region : pystr;
  so_endpoint : option pystr;
  so_max_retries : Z
}.

Inductive s3_exn : Type :=
| S3Url | S3Client_ | S3Value (text : pystr) | S3Event (e : event_error) | S3Encode | S3NoClient
| S3Upload (errors : list pystr).

Class S3Client (W : Type) := {
  s3_client : S3Options -> method W unit unit;
  (** bucket, key, body; the text of the exception *)
  s3_put : pystr -> pystr -> list Z -> method W pystr unit
}.

Section driver.
(** the environment, the scheduler of the pool and which queued uploads are
    cancelled after an exception *)
Context {W : Type} `{!S3Client W} (environ : pystr -> option pystr) (pick : nat -> nat) (cancels : nat -> bool).

Record S3D := mk_s3 {
  s3_world : W;
  s3_connected : bool;                 (** [_client] is not [None] *)
  s3_bucket : pystr;
  s3_prefix : pystr;
  s3_upload_tasks : Z;
  s3_import_dry_run : option bool;     (** of [_import_config] *)
  s3_pending : list (pystr * DBChangeEvent);
  s3_ticks : nat;                      (** decisions of the scheduler *)
  s3_puts : list (pystr * list Z)
}.

Definition s3_set_world (w : W) (s : S3D) : S3D :=
  mk_s3 w (s3_connected s) (s3_bucket s) (s3_prefix s) (s3_upload_tasks s) (s3_import_dry_run s) (s3_pending s)
    (s3_ticks s) (s3_puts s).
Definition s3_set_connected (s : S3D) : S3D :=
  mk_s3 (s3_world s) true (s3_bucket s) (s3_prefix s) (s3_upload_tasks s) (s3_import_dry_run s) (s3_pending s)
    (s3_ticks s) (s3_puts s).
Definition s3_set_location (bucket prefix : pystr) (s : S3D) : S3D :=
  mk_s3 (s3_world s) (s3_connected s) bucket prefix (s3_upload_tasks s) (s3_import_dry_run s) (s3_pending s)
    (s3_ticks s) (s3_puts s).
Definition s3_set_tasks (n : Z) (s : S3D) : S3D :=
  mk_s3 (s3_world s) (s3_connected s) (s3_bucket s) (s3_prefix s) n (s3_import_dry_run s) (s3_pending s)
    (s3_ticks s) (s3_puts s).
Definition s3_set_dry_run (b : bool) (s : S3D) : S3D :=
  mk_s3 (s3_world s) (s3_connected s) (s3_bucket s) (s3_prefix s) (s3_upload_tasks s) (Some b) (s3_pending s)
    (s3_ticks s) (s3_puts s).
Definition s3_set_pending (p : list (pystr * DBChangeEvent)) (s : S3D) : S3D :=
  mk_s3 (s3_world s) (s3_connected s) (s3_bucket s) (s3_prefix s) (s3_upload_tasks s) (s3_import_dry_run s) p
    (s3_ticks s) (s3_puts s).
Definition s3_tick (s : S3D) : S3D :=
  mk_s3 (s3_world s) (s3_connected s) (s3_bucket s) (s3_prefix s) (s3_upload_tasks s) (s3_import_dry_run s)
    (s3_pending s) (S (s3_ticks s)) (s3_puts s).
Definition s3_log (x : pystr * list Z) (s : S3D) : S3D :=
  mk_s3 (s3_world s) (s3_connected s) (s3_bucket s) (s3_prefix s) (s3_upload_tasks s) (s3_import_dry_run s)
    (s3_pending s) (s3_ticks s) (s3_puts s ++ [x]).

Abbreviation S3M A := (M S3D s3_exn A).

(** *** Connection *)

(** [os.environ.get(name)], where an empty value counts as none *)
Definition env_nonempty (name : pystr) : option pystr :=
  match environ name with Some (c :: v) => Some (c :: v) | _ => None end.

Definition _resolve_region (q : Values) : pystr :=
  if dict_has (u"region") q then values_get (u"region") q
  else match env_nonempty (u"AWS_REGION") with
       | Some r => r
       | None => default (u"us-west-2") (env_nonempty (u"AWS_DEFAULT_REGION"))
       end.

Definition _query_or_env (q : Values) (key env_var : pystr) : pystr :=
  if dict_has key q then values_get key q else default [] (environ env_var).

Definition _resolve_max_retries (q : Values) : Z :=
  if negb (dict_has (u"max-retries") q) then 5 else default 5 (_atoi (values_get (u"max-retries") q)).

Definition _resolve_positive_int (q : Values) (key : pystr) (def : Z) : S3M Z :=
  match values_get key q with
  | [] => mret def
  | raw =>
      match _atoi raw with
      | None => raise (S3Value (u"unable to parse " ++ key ++ u": " ++ raw))
      | Some n => mret (if n <=? 0 then def else n)
      end
  end.

Definition client_options (provider : S3Provider) (endpoint region : pystr) (q : Values) : S3Options :=
  let '(region_name, endpoint_url) :=
    match provider with
    | GOOGLE => (u"auto", Some (u"https://storage.googleapis.com"))
    | _ => (region, match endpoint with [] => None | e => Some e end)
    end in
  mk_s3_options (_query_or_env q (u"access-key-id") (u"AWS_ACCESS_KEY_ID"))
    (_query_or_env q (u"secret-access-key") (u"AWS_SECRET_ACCESS_KEY"))
    (_query_or_env q (u"session-token") (u"AWS_SESSION_TOKEN"))
    region_name endpoint_url (_resolve_max_retries q).

Definition on_s3 {A} (f : method W unit A) : S3M A :=
  fun s : S3D => let '(r, w) := f (s3_world s) in
    (match r with inl _ => inl S3Client_ | inr a => inr a end, s3_set_world w s).

Definition _connect (url_string : pystr) : S3M unit :=
  match parse url_string with
  | inl _ => raise S3Url
  | inr x =>
      let provider := get_cloud_provider (url_host x) in
      let '(endpoint, bucket, prefix) := get_bucket_info (url_host x) (url_path x) provider in
      _ ← modify (s3_set_location bucket prefix);
      match query x with
      | inl _ => raise S3Url
      | inr q =>
          _ ← _resolve_positive_int q (u"maxBatchSize") _MAX_BATCH_SIZE;
          tasks ← _resolve_positive_int q (u"uploadTasks") _DEFAULT_UPLOAD_TASKS;
          _ ← modify (s3_set_tasks tasks);
          _ ← on_s3 (s3_client (client_options provider endpoint (_resolve_region q) q));
          modify s3_set_connected
      end
  end.

Definition start (url : pystr) : S3M unit := _connect url.
Definition test (url : pystr) : S3M unit := _connect url.
Definition stop : S3M unit := mret tt.
Definition max_batch_size : Z := _MAX_BATCH_SIZE.

(** *** Streaming *)

Definition _process (event : DBChangeEvent) (dry_run : bool) : S3M bool :=
  prefix ← gets s3_prefix;
  '(key, event) ← on_event S3Event (object_key prefix) event;
  if dry_run then mret false
  else
    _ ← modify (fun s : S3D => s3_set_pending (s3_pending s ++ [(key, event)]) s);
    mret false.

Definition process (event : DBChangeEvent) : S3M bool := _process event false.

Definition upload_error (bucket key e : pystr) : pystr :=
  u"error storing s3 object to " ++ bucket ++ u":" ++ key ++ u": " ++ e.

(** one upload: [Some] is the error it collects *)
Definition put_object (key : pystr) (buf : list Z) : S3M (option pystr) :=
  fun s : S3D =>
    if s3_connected s then
      let '(r, w) := s3_put (s3_bucket s) key buf (s3_world s) in
      match r with
      | inl e => (inr (Some (upload_error (s3_bucket s) key e)), s3_set_world w s)
      | inr _ => (inr None, s3_log (key, buf) (s3_set_world w s))
      end
    else (inr (Some (upload_error (s3_bucket s) key (u"'NoneType' object has no attribute 'put_object'"))), s).

(** the pool: one of the first [workers] jobs that are left takes effect next.
    [failed]: an event could not be encoded, which cancels some of the others. *)
Fixpoint run_pool (n : nat) (workers : nat) (jobs : list (pystr * DBChangeEvent)) (failed : bool)
    (errors : list pystr) : S3M (bool * list pystr) :=
  match n, jobs with
  | S n, _ :: _ =>
      t ← gets s3_ticks;
      _ ← modify s3_tick;
      let i := (pick t mod Nat.min workers (length jobs))%nat in
      match jobs !! i with
      | None => mret (failed, errors)
      | Some (key, event) =>
          let rest := delete i jobs in
          if failed && cancels t then run_pool n workers rest failed errors
          else
            match event_bytes event with
            | None => run_pool n workers rest true errors
            | Some buf =>
                r ← put_object key buf;
                run_pool n workers rest failed (errors ++ match r with Some e => [e] | None => [] end)
            end
      end
  | _, _ => mret (failed, errors)
  end.

Definition flush : S3M unit :=
  jobs ← gets s3_pending;
  match jobs with
  | [] => mret tt
  | _ =>
      _ ← modify (s3_set_pending []);
      tasks ← gets s3_upload_tasks;
      _ ← (if tasks <=? 0 then raise (S3Value (u"max_workers must be greater than 0")) else mret tt);
      '(failed, errors) ← run_pool (length jobs) (Z.to_nat tasks) jobs false [];
      if (failed : bool) then raise S3Encode
      else match errors with [] => mret tt | _ => raise (S3Upload errors) end
  end.

(** *** The import handler *)

Definition import_event (event : DBChangeEvent) : S3M unit :=
  dry_run ← gets s3_import_dry_run; _ ← _process event (default false dry_run); mret tt.
Definition import_completed : S3M unit := flush.

(** [run_import] up to the replay, and whether it gets there *)
Definition begin_import (schema_only dry_run : bool) (url : pystr) : S3M bool :=
  if schema_only then mret false
  else _ ← modify (s3_set_dry_run dry_run); _ ← _connect url; mret true.

#[export] Instance s3_driver : Driver S3D := {|
  drv_process := fun e => as_driver (process e);
  drv_flush := as_driver flush;
  drv_max_batch_size := max_batch_size;
  drv_supports_migration := false;
  drv_migrate_new_table := fun _ => as_driver (raise S3NoClient);
  drv_migrate_new_columns := fun _ _ => as_driver (raise S3NoClient);
  drv_get_destination_schema := as_driver (raise S3NoClient)
|}.
End driver.
Arguments S3D W : clear implicits.

(** ** Keys *)

(** the reference: every run of slashes is one *)
Fixpoint squeeze (s : pystr) : pystr :=
  match s with
  | [] => []
  | c :: r => if (c =? 47) && startswith (u"/") r then squeeze r else c :: squeeze r
  end.

Lemma replace_cons c d r : replace_double (c :: d :: r) =
  if (c =? 47) && (d =? 47) then 47 :: replace_double r else c :: replace_double (d :: r).
Proof. done. Qed.

Lemma squeeze_cons c r : squeeze (c :: r) = if (c =? 47) && startswith (u"/") r then squeeze r else c :: squeeze r.
Proof. done. Qed.

Lemma slash_head (d : Z) r : startswith (u"/") (d :: r) = (47 =? d).
Proof. change (u"/") with [47]. cbn [startswith]. by rewrite andb_true_r. Qed.

Lemma double_slash s : substr_in (u"//") s = match s with
  | c :: d :: r => (c =? 47) && (d =? 47) || substr_in (u"//") (d :: r)
  | _ => false
  end.
Proof.
  change (u"//") with [47; 47]. destruct s as [|c [|d r]]; [done| |].
  - cbn [substr_in startswith]. by destruct (47 =? c).
  - cbn [substr_in startswith]. rewrite !andb_true_r, (Z.eqb_sym 47 c), (Z.eqb_sym 47 d). done.
Qed.

(** one replacement, two characters at a time *)
Lemma replace_double_ind (P : pystr -> Prop) :
  P [] -> (forall c, P [c]) ->
  (forall r, P r -> P (47 :: 47 :: r)) ->
  (forall c d r, (c =? 47) && (d =? 47) = false -> P (d :: r) -> P (c :: d :: r)) ->
  forall s, P s.
Proof.
  intros H0 H1 H2 H3 s. remember (length s) as n eqn:En. assert (length s <= n)%nat as Hn by lia. clear En.
  revert s Hn. induction n as [|n IH]; intros [|c [|d r]] Hn; simpl in Hn; try done; try lia.
  destruct ((c =? 47) && (d =? 47)) eqn:E.
  - bool_prop. subst. apply H2, IH. lia.
  - apply H3; [done|]. apply IH. simpl. lia.
Qed.

Lemma squeeze_replace s : squeeze (replace_double s) = squeeze s /\
  startswith (u"/") (replace_double s) = startswith (u"/") s.
Proof.
  induction s as [|c|r [IH1 IH2]|c d r E [IH1 IH2]] using replace_double_ind; [done..| |].
  - rewrite replace_cons. change ((47 =? 47) && (47 =? 47)) with true. cbv iota.
    rewrite !squeeze_cons, IH1, IH2, !slash_head. done.
  - rewrite replace_cons, E. rewrite !(squeeze_cons c), IH1, IH2. by rewrite !slash_head.
Qed.

Lemma squeeze_single s : substr_in (u"//") s = false -> squeeze s = s.
Proof.
  induction s as [|c s IH]; [done|]. intros H. cbn [squeeze]. destruct s as [|d r].
  - change (u"/") with [47]. cbn [startswith squeeze]. by rewrite andb_false_r.
  - rewrite double_slash in H. apply orb_false_iff in H as [H1 H2]. rewrite slash_head, (Z.eqb_sym 47 d), H1.
    by rewrite IH.
Qed.

Lemma replace_shorter s : substr_in (u"//") s = true -> (length (replace_double s) < length s)%nat.
Proof.
  assert (forall t, length (replace_double t) <= length t)%nat as Hle.
  { intros t. induction t as [|c|r IH|c d r E IH] using replace_double_ind; [done..| |].
    - rewrite replace_cons. change ((47 =? 47) && (47 =? 47)) with true. simpl. lia.
    - rewrite replace_cons, E. cbn [length] in *. lia. }
  induction s as [|c|r IH|c d r E IH] using replace_double_ind; rewrite double_slash; [done..| |].
  - intros _. rewrite replace_cons. change ((47 =? 47) && (47 =? 47)) with true. simpl. specialize (Hle r). lia.
  - rewrite E. cbn [orb]. intros H. rewrite replace_cons, E. specialize (IH H). cbn [length] in *. lia.
Qed.

Lemma collapse_squeeze fuel s : (length s <= fuel)%nat -> collapse fuel s = squeeze s.
Proof.
  revert s. induction fuel as [|fuel IH]; intros s Hf; cbn [collapse].
  - by destruct s; [|simpl in Hf; lia].
  - destruct (substr_in (u"//") s) eqn:E; [|by rewrite squeeze_single].
    pose proof (replace_shorter s E). rewrite IH by lia. apply squeeze_replace.
Qed.

(** joining a key puts one slash between its parts and makes one slash of every
    run of slashes; the loop of replacements ends. *)
Theorem path_join_squeezes parts : _path_join parts = squeeze (join (u"/") (nonempty_parts parts)).
Proof. unfold _path_join. by apply collapse_squeeze. Qed.

(** ** What a flush stores *)

Section pool.
Context {W : Type} `{!S3Client W} (pick : nat -> nat) (cancels : nat -> bool).
Notation S3D := (S3D W).
Implicit Type s : S3D.

(** an upload of a job *)
Definition uploaded (job : pystr * DBChangeEvent) (put : pystr * list Z) : Prop :=
  put.1 = job.1 /\ event_bytes job.2 = Some put.2.

(** what a pool leaves alone *)
Record pooled (ls : list (pystr * list Z)) (s s' : S3D) : Prop := {
  pl_pending : s3_pending s' = s3_pending s;
  pl_location : s3_prefix s' = s3_prefix s /\ s3_bucket s' = s3_bucket s;
  pl_puts : s3_puts s' = s3_puts s ++ ls
}.

Lemma pooled_refl s : pooled [] s s.
Proof. split; [done|done|by rewrite app_nil_r]. Qed.

Lemma pooled_trans ls ls' s1 s2 s3 : pooled ls s1 s2 -> pooled ls' s2 s3 -> pooled (ls ++ ls') s1 s3.
Proof. intros [P1 [L1 L1'] E1] [P2 [L2 L2'] E2]. split; [congruence|split; congruence|]. by rewrite E2, E1, app_assoc. Qed.

Lemma put_object_result key buf s :
  exists r s', put_object key buf s = (inr r, s') /\
    pooled (match r with None => [(key, buf)] | Some _ => [] end) s s'.
Proof.
  unfold put_object. destruct (s3_connected s).
  - destruct (s3_put _ _ _ _) as [[e|u] w]; do 2 eexists; (split; [done|]); by split; rewrite ?app_nil_r.
  - do 2 eexists. split; [done|]. apply pooled_refl.
Qed.

(** the jobs that were done, in their order *)
Definition pool_done (n workers : nat) (jobs : list (pystr * DBChangeEvent)) (ls : list (pystr * list Z)) : Prop :=
  (length jobs <= n)%nat -> (0 < workers)%nat ->
  exists l, l ≡ₚ jobs /\ Forall2 uploaded l ls /\ (workers = 1%nat -> l = jobs).

Lemma run_pool_step n workers jobs failed errors s :
  jobs <> [] ->
  run_pool pick cancels (S n) workers jobs failed errors s =
  let i := (pick (s3_ticks s) mod Nat.min workers (length jobs))%nat in
  match jobs !! i with
  | None => (inr (failed, errors), s3_tick s)
  | Some (key, event) =>
      if failed && cancels (s3_ticks s) then run_pool pick cancels n workers (delete i jobs) failed errors (s3_tick s)
      else match event_bytes event with
           | None => run_pool pick cancels n workers (delete i jobs) true errors (s3_tick s)
           | Some buf =>
               match put_object key buf (s3_tick s) with
               | (inl e, s') => (inl e, s')
               | (inr r, s') => run_pool pick cancels n workers (delete i jobs) failed
                   (errors ++ match r with Some e => [e] | None => [] end) s'
               end
           end
  end.
Proof.
  intros Hne. destruct jobs as [|j jobs]; [done|]. cbn [run_pool]. unfold gets, modify, mbind, M_bind. cbv zeta.
  set (i := (pick (s3_ticks s) mod _)%nat). destruct ((j :: jobs) !! i) as [[key event]|]; [|done].
  destruct (_ && _); [done|]. destruct (event_bytes event); [|done]. by destruct (put_object _ _ _) as [[]].
Qed.

Lemma run_pool_ok n workers jobs failed errors s :
  exists failed' errors' ls s', run_pool pick cancels n workers jobs failed errors s = (inr (failed', errors'), s') /\
    pooled ls s s' /\ (failed = true -> failed' = true) /\ (errors <> [] -> errors' <> []) /\
    (failed' = false -> errors' = [] -> pool_done n workers jobs ls).
Proof.
  revert jobs failed errors s. induction n as [|n IH]; intros jobs failed errors s.
  { exists failed, errors, [], s. split_and!; try done; [apply pooled_refl|]. intros _ _ Hlen _. destruct jobs; [|simpl in Hlen; lia].
    exists []. by split_and!; [|constructor|]. }
  destruct jobs as [|j0 jobs0].
  { exists failed, errors, [], s. split_and!; try done; [apply pooled_refl|]. intros _ _ _ _.
    exists []. by split_and!; [|constructor|]. }
  set (jobs := j0 :: jobs0) in *. rewrite run_pool_step by done. cbv zeta.
  set (i := (pick (s3_ticks s) mod Nat.min workers (length jobs))%nat).
  assert (pooled [] s (s3_tick s)) as Htick by (split; simpl; [done|done|by rewrite app_nil_r]).
  destruct (jobs !! i) as [[key event]|] eqn:Ei.
  2: { exists failed, errors, [], (s3_tick s). split_and!; try done. intros _ _ _ Hw. exfalso.
    apply lookup_ge_None in Ei. assert (i < Nat.min workers (length jobs))%nat by (apply Nat.mod_upper_bound; simpl; lia). lia. }
  assert (length (delete i jobs) <= n <-> length jobs <= S n)%nat as Hlen.
  { rewrite length_delete by (by eexists). simpl. lia. }
  assert (workers = 1%nat -> i = 0%nat) as Hseq.
  { intros ->. unfold i. replace (Nat.min 1 (length jobs)) with 1%nat by (simpl; lia). apply Nat.mod_1_r. }
  destruct (failed && cancels (s3_ticks s)) eqn:Ec.
  { destruct (IH (delete i jobs) failed errors (s3_tick s)) as (f' & e' & ls & s' & Er & Hp & Hf & He & _).
    exists f', e', ls, s'. apply andb_true_iff in Ec as [-> _]. specialize (Hf eq_refl). subst f'.
    split_and!; try done. by apply (pooled_trans [] ls s (s3_tick s)). }
  destruct (event_bytes event) as [buf|] eqn:Eb.
  2: { destruct (IH (delete i jobs) true errors (s3_tick s)) as (f' & e' & ls & s' & Er & Hp & Hf & He & _).
    exists f', e', ls, s'. specialize (Hf eq_refl). subst f'. split_and!; try done.
    by apply (pooled_trans [] ls s (s3_tick s)). }
  destruct (put_object_result key buf (s3_tick s)) as (r & s1 & -> & Hput).
  destruct (IH (delete i jobs) failed (errors ++ match r with Some e => [e] | None => [] end) s1)
    as (f' & e' & ls & s' & Er & Hp & Hf & He & Hd).
  exists f', e', (match r with None => [(key, buf)] | Some _ => [] end ++ ls), s'. split; [exact Er|]. split.
  { apply (pooled_trans [] _ s (s3_tick s)); [done|]. by eapply pooled_trans. }
  split; [done|]. split; [intros Hne; apply He; by destruct errors|].
  intros Hf' He' Hn Hw. destruct r as [e|]; [exfalso; apply He; [by destruct errors|done]|].
  destruct (Hd Hf' He') as (l & Hl & HF & H1); [by apply Hlen|done|].
  exists ((key, event) :: l). split; [|split; [by constructor|]].
  - rewrite Hl. symmetry. by apply delete_Permutation.
  - intros Hone. rewrite (H1 Hone). unfold jobs in *. rewrite (Hseq Hone) in *. by injection Ei as ->.
Qed.

Lemma s3_flush_result s :
  match flush pick cancels s with
  | (inr _, s') => s3_prefix s' = s3_prefix s /\ s3_pending s' = [] /\
      exists l ls, l ≡ₚ s3_pending s /\ Forall2 uploaded l ls /\ s3_puts s' = s3_puts s ++ ls /\
        (s3_upload_tasks s = 1 -> l = s3_pending s)
  | (inl _, s') => s3_prefix s' = s3_prefix s /\ s3_pending s' = [] /\ exists ls, s3_puts s' = s3_puts s ++ ls
  end.
Proof.
  unfold flush. rewrite (bind_inr _ _ _ (s3_pending s) s) by done.
  destruct (s3_pending s) as [|j jobs0] eqn:Ep.
  { split_and!; [done|done|]. exists [], []. by rewrite app_nil_r. }
  set (jobs := j :: jobs0). rewrite (bind_inr _ _ _ tt (s3_set_pending [] s)) by done.
  rewrite (bind_inr _ _ _ (s3_upload_tasks s) (s3_set_pending [] s)) by done.
  destruct (Z.leb_spec (s3_upload_tasks s) 0) as [|Ht].
  { rewrite (bind_inl _ _ _ (S3Value (u"max_workers must be greater than 0")) (s3_set_pending [] s)) by done.
    split_and!; [done|done|]. exists []. by rewrite app_nil_r. }
  rewrite (bind_inr _ _ _ tt (s3_set_pending [] s)) by done.
  destruct (run_pool_ok (length jobs) (Z.to_nat (s3_upload_tasks s)) jobs false [] (s3_set_pending [] s))
    as (failed & errors & ls & s' & Er & [Hpend [Hpre _] Hputs] & _ & _ & Hd).
  rewrite (bind_inr _ _ _ (failed, errors) s') by exact Er. clear Er. simpl in *.
  destruct failed; [split_and!; [done|done|by exists ls]|].
  destruct errors as [|e es]; [|split_and!; [done|done|by exists ls]]. split_and!; [done|done|].
  destruct (Hd eq_refl eq_refl) as (l & Hl & HF & Hone); [unfold jobs; simpl; lia|lia|].
  exists l, ls. split_and!; [done|done|done|]. intros H1. apply Hone. lia.
Qed.

(** every flush takes the batch.  One that returns has stored each of its
    events under its key, in an order of the workers' choosing, which is the
    order of the batch when there is one worker; one that raises may have
    stored any of them. *)
Theorem s3_flush_uploads s :
  match flush pick cancels s with
  | (inr _, s') => s3_pending s' = [] /\
      exists l ls, l ≡ₚ s3_pending s /\ Forall2 uploaded l ls /\ s3_puts s' = s3_puts s ++ ls /\
        (s3_upload_tasks s = 1 -> l = s3_pending s)
  | (inl _, s') => s3_pending s' = [] /\ exists ls, s3_puts s' = s3_puts s ++ ls
  end.
Proof. pose proof (s3_flush_result s) as H. destruct (flush pick cancels s) as [[e|u] s']; by destruct H as (_ & ? & ?). Qed.
End pool.

(** the object a key holds after puts: the last one *)
Definition object_at (key : pystr) (puts : list (pystr * list Z)) : option (list Z) :=
  snd <$> List.find (fun x => str_eqb x.1 key) (rev puts).

Definition put_of (job : pystr * DBChangeEvent) : pystr * list Z := (job.1, default [] (event_bytes job.2)).

Lemma uploaded_put l ls : Forall2 uploaded l ls -> ls = put_of <$> l.
Proof.
  induction 1 as [|j x l ls [H1 H2] _ IH]; [done|]. cbn [fmap list_fmap]. rewrite <- IH. f_equal.
  destruct x as [key buf]. unfold put_of. rewrite H2. simpl in *. by rewrite <- H1.
Qed.

Lemma object_at_app key old ls :
  object_at key (old ++ ls) = match object_at key ls with Some b => Some b | None => object_at key old end.
Proof.
  unfold object_at. rewrite rev_app_distr. induction (rev ls) as [|x l IH]; [done|]. cbn [app List.find].
  by destruct (str_eqb x.1 key).
Qed.

Lemma object_at_single key x : object_at key [x] = if str_eqb x.1 key then Some x.2 else None.
Proof. unfold object_at. simpl. by destruct (str_eqb x.1 key). Qed.

(** with one put per key the order of the puts does not matter *)
Lemma object_at_elem key ls b : NoDup ls.*1 -> object_at key ls = Some b <-> (key, b) ∈ ls.
Proof.
  induction ls as [|x ls IH] using rev_ind; [intros _; split; [done|by intros ?%elem_of_nil]|].
  rewrite fmap_app, NoDup_app. intros (Hn & Hd & _). rewrite object_at_app, object_at_single, elem_of_app, list_elem_of_singleton.
  unfold str_eqb. destruct (bool_decide_reflect (x.1 = key)) as [<-|Hne].
  - split; [intros [= <-]; right; by destruct x|]. intros [Hin|<-]; [|done]. exfalso.
    apply (Hd x.1); [apply list_elem_of_fmap; by exists (x.1, b)|]. simpl. by left.
  - rewrite IH by done. split; [by left|]. intros [H|<-]; [done|]. done.
Qed.

Lemma object_at_permute key ls ls' : NoDup ls.*1 -> ls ≡ₚ ls' -> object_at key ls = object_at key ls'.
Proof.
  intros Hn Hp. assert (NoDup ls'.*1) as Hn' by (by rewrite <- Hp).
  apply option_eq. intros b. rewrite !object_at_elem by done. by rewrite Hp.
Qed.

(** C24: with distinct keys in the batch, what the bucket holds after a flush that
    returns does not depend on the order in which the workers got through. *)
Theorem s3_schedules_agree {W} `{!S3Client W} pick pick' cancels cancels' (s s1 s2 : S3D W) key :
  NoDup (s3_pending s).*1 ->
  flush pick cancels s = (inr tt, s1) -> flush pick' cancels' s = (inr tt, s2) ->
  object_at key (s3_puts s1) = object_at key (s3_puts s2).
Proof.
  intros Hn E1 E2. pose proof (s3_flush_result pick cancels s) as H1. pose proof (s3_flush_result pick' cancels' s) as H2.
  rewrite E1 in H1. rewrite E2 in H2.
  destruct H1 as (_ & _ & l1 & ls1 & Hl1 & ->%uploaded_put & Ep1 & _).
  destruct H2 as (_ & _ & l2 & ls2 & Hl2 & ->%uploaded_put & Ep2 & _).
  assert (put_of <$> l1 ≡ₚ put_of <$> l2) as Hp by (by rewrite Hl1, Hl2).
  assert (NoDup (put_of <$> l1).*1) as Hk.
  { rewrite <- list_fmap_compose. change (fst ∘ put_of) with (@fst pystr DBChangeEvent). by rewrite Hl1. }
  by rewrite Ep1, Ep2, !object_at_app, (object_at_permute key _ _ Hk Hp).
Qed.

(** ** The promises of a destination *)

Section durable.
Context {W : Type} `{!S3Client W} (environ : pystr -> option pystr) (pick : nat -> nat) (cancels : nat -> bool).
Notation S3D := (S3D W).
Implicit Type s : S3D.

(** an item is an event under its key *)
Definition job_of (e : DBChangeEvent) (job : pystr * DBChangeEvent) : Prop :=
  exists prefix, object_key prefix e = (inr job.1, job.2).
Definition collected (s : S3D) (job : pystr * DBChangeEvent) : Prop := job ∈ s3_pending s.
Definition put (s : S3D) (job : pystr * DBChangeEvent) : Prop :=
  exists x, x ∈ s3_puts s /\ uploaded job x.
Definition always (s : S3D) : Prop := True.

Lemma put_more s s' ls job : s3_puts s' = s3_puts s ++ ls -> put s job -> put s' job.
Proof. intros E (x & Hx & Hu). exists x. rewrite E. split; [set_solver|done]. Qed.

Lemma flush_puts s : exists ls, s3_puts (flush pick cancels s).2 = s3_puts s ++ ls.
Proof.
  pose proof (s3_flush_result pick cancels s) as H. destruct (flush pick cancels s) as [[e|u] s'].
  - by destruct H as (_ & _ & H).
  - destruct H as (_ & _ & l & ls & _ & _ & E & _). by exists ls.
Qed.

Lemma s3_flush_stores s s' job :
  always s -> drv_flush (Driver := s3_driver pick cancels) s = (inr tt, s') -> collected s job -> put s' job.
Proof.
  intros _ E%as_driver_inr Hj. pose proof (s3_flush_result pick cancels s) as H. rewrite E in H.
  destruct H as (_ & _ & l & ls & Hl & HF & Ep & _). unfold collected in Hj. rewrite <- Hl in Hj.
  apply list_elem_of_lookup in Hj as [i Hi]. destruct (Forall2_lookup_l _ _ _ _ _ HF Hi) as (x & Hx & Hu).
  exists x. split; [|done]. rewrite Ep. apply elem_of_app. right. by eapply list_elem_of_lookup_2.
Qed.

Lemma s3_flush_preserves : preserves always collected put (drv_flush (Driver := s3_driver pick cancels)).
Proof.
  split.
  - intros s job _. simpl. rewrite as_driver_state. destruct (flush_puts s) as [ls E]. by apply (put_more _ _ ls).
  - intros s [] s' H E. split; [done|]. intros job Hj. right. by eapply s3_flush_stores.
Qed.

Lemma s3_process_result e s :
  (exists err, process e s = (inl err, s)) \/
  exists job, job_of e job /\ process e s = (inr false, s3_set_pending (s3_pending s ++ [job]) s).
Proof.
  unfold process, _process, on_event, mbind, M_bind, gets.
  destruct (object_key (s3_prefix s) e) as [[err|key] e'] eqn:Ek; [left; by eexists|].
  right. exists (key, e'). split; [by exists (s3_prefix s)|done].
Qed.

Lemma s3_process_preserves e : preserves always collected put (drv_process (Driver := s3_driver pick cancels) e).
Proof.
  split; intros s; simpl.
  - intros job _ Hj. rewrite as_driver_state. by destruct (s3_process_result e s) as [[err ->]|(new & _ & ->)].
  - intros b s' H E%as_driver_inr. split; [done|]. intros job Hj. left. unfold collected in *.
    destruct (s3_process_result e s) as [[err E']|(new & _ & E')]; rewrite E in E'; [done|].
    injection E' as _ ->. simpl. set_solver.
Qed.

Lemma s3_process_takes e s b s' :
  always s -> drv_process (Driver := s3_driver pick cancels) e s = (inr b, s') ->
  exists job, job_of e job /\ (collected s' job \/ put s' job).
Proof.
  intros _ E%as_driver_inr. destruct (s3_process_result e s) as [[err E']|(new & Hn & E')]; rewrite E in E'; [done|].
  injection E' as _ ->. exists new. split; [done|]. left. unfold collected. simpl. set_solver.
Qed.

Lemma s3_raise_preserves {A} e : preserves always collected put (as_driver (raise e : M S3D s3_exn A)).
Proof. by split. Qed.

#[export] Instance s3_durable : @DurableDriver S3D (pystr * DBChangeEvent) (s3_driver pick cancels) := {|
  renders := job_of;
  driver_ok := always;
  held := collected;
  stored := put;
  process_preserves := s3_process_preserves;
  flush_preserves := s3_flush_preserves;
  table_preserves := fun _ => s3_raise_preserves _;
  columns_preserves := fun _ _ => s3_raise_preserves _;
  process_takes := s3_process_takes;
  flush_stores := s3_flush_stores
|}.
End durable.

(** ** From the form to the client *)

Section form.
Context {W : Type} `{!S3Client W} (environ : pystr -> option pystr).
Implicit Type s : S3D W.

(** the value of the form, or of the environment *)
Definition form_or_env (value env_var : pystr) : pystr :=
  match value with [] => default [] (environ env_var) | _ => value end.

Lemma form_values_get region accesskey secret :
  dict_get (u"region") (form_values region accesskey secret) = (match region with [] => None | _ => Some [region] end) /\
  dict_get (u"access-key-id") (form_values region accesskey secret) = (match accesskey with [] => None | _ => Some [accesskey] end) /\
  dict_get (u"secret-access-key") (form_values region accesskey secret) = (match secret with [] => None | _ => Some [secret] end) /\
  (forall k, k ∉ [u"region"; u"access-key-id"; u"secret-access-key"] -> dict_get k (form_values region accesskey secret) = None).
Proof.
  unfold form_values, set_nonempty, values_set. split_and!; [by destruct region, accesskey, secret..|].
  intros k Hk. assert (k <> u"region" /\ k <> u"access-key-id" /\ k <> u"secret-access-key") as (H1 & H2 & H3) by set_solver.
  destruct region, accesskey, secret; rewrite ?dict_get_set, ?(decide_False (P := _ = _)) by congruence; done.
Qed.

Lemma form_values_ok region accesskey secret :
  forallb scalar region = true -> forallb scalar accesskey = true -> forallb scalar secret = true ->
  values_ok (form_values region accesskey secret).
Proof.
  intros Hr Ha Hs. split.
  - destruct region, accesskey, secret; apply (bool_decide_eq_true_1 _); by vm_compute.
  - unfold form_values, set_nonempty, values_set.
    assert (forall k c v, forallb scalar k = true -> forallb scalar (c :: v) = true ->
      forallb scalar (k, [c :: v]).1 = true /\ (k, [c :: v]).2 <> [] /\ Forall (fun x => forallb scalar x = true) (k, [c :: v]).2) as Hone.
    { intros k c v Hk Hv. split_and!; [done|done|]. by apply Forall_singleton. }
    destruct region, accesskey, secret; repeat (apply List.Forall_cons; [by apply Hone|]); apply List.Forall_nil.
Qed.

(** *** The printed URL *)

(** the path as it is printed after a host *)
Definition lead (p : pystr) : pystr :=
  match p with [] => [] | _ => if startswith (u"/") p then p else 47 :: p end.

Definition slash_kept (mode : encode_mode) (b : Z) : bool :=
  match escape_byte mode b with [] => false | c :: _ => negb (47 =? c) || (b =? 47) end.

Lemma enc_head mode c r :
  scalar c = true -> c <> 47 -> exists x t, enc mode (c :: r) = x :: t /\ x <> 47.
Proof.
  intros Hc Hne. change (c :: r) with ([c] ++ r). rewrite enc_app. unfold enc at 1, utf8_encode. cbn [flat_map].
  rewrite app_nil_r. destruct (utf8_char c) as [|b bs] eqn:Eb; [unfold utf8_char in Eb; by repeat case_match|].
  destruct (utf8_char_bytes c b Hc) as [Hb Heq]; [rewrite Eb; by left|]. cbn [flat_map].
  assert (slash_kept mode b = true) as H by (apply byte_check; [by vm_compute|done]). unfold slash_kept in H.
  destruct (escape_byte mode b) as [|x t]; [done|]. exists x, ((t ++ flat_map (escape_byte mode) bs) ++ enc mode r).
  split; [done|]. intros ->. cbn [Z.eqb Pos.eqb negb orb] in H. apply Z.eqb_eq in H. subst b. apply Hne. symmetry. apply Heq. lia.
Qed.

Lemma url_str_lead host path raw_query :
  nonempty host = true -> forallb scalar path = true ->
  url_str (mk_url (u"s3") [] None host path [] false raw_query [] []) =
  url_str (mk_url (u"s3") [] None host (lead path) [] false raw_query [] []).
Proof.
  intros Hh Hp. destruct path as [|c r]; [done|]. unfold lead.
  destruct (startswith (u"/") (c :: r)) eqn:Es; [done|].
  assert (c <> 47) as Hc by (intros ->; by vm_compute in Es).
  assert (scalar c = true) as Hsc by (simpl in Hp; by bool_prop).
  destruct (enc_head ENCODE_PATH c r Hsc Hc) as (x & t & Ex & Hx).
  unfold url_str, url_authority, _escaped_path, escaped_as. cbn [url_scheme url_opaque url_user url_host url_path
    url_raw_path url_fragment nonempty orb].
  rewrite (enc_escape _ (c :: r)), (enc_escape _ (47 :: c :: r)) by done.
  change (47 :: c :: r) with ([47] ++ c :: r). rewrite enc_app, enc_char_kept, Ex by done. cbn [app nonempty andb].
  unfold mbind, res_bind, mret, res_ret. destruct (_escape host ENCODE_HOST) as [e|h]; [by rewrite Hh|].
  rewrite Hh. cbn [nonempty u]. rewrite !slash_head. destruct (Z.eqb_spec 47 x); [congruence|]. done.
Qed.

(** *** Validate and connect *)

(** a bucket of AWS, no endpoint, and values that can be encoded *)
Definition s3_form_ok (vs : values) : bool :=
  let bucket := form_string (u"Bucket") vs in
  nonempty bucket && host_ok bucket &&
  bool_decide (get_cloud_provider bucket = AWS) && negb (nonempty (form_optional (u"Endpoint") vs)) &&
  forallb scalar (form_optional (u"Prefix") vs) && forallb scalar (form_optional (u"Region") vs) &&
  forallb scalar (form_optional (u"Access Key ID") vs) && forallb scalar (form_optional (u"Secret Access Key") vs).

Definition form_query (vs : values) : Values :=
  form_values (form_optional (u"Region") vs) (form_optional (u"Access Key ID") vs) (form_optional (u"Secret Access Key") vs).

Definition form_options (vs : values) : S3Options :=
  mk_s3_options (form_or_env (form_optional (u"Access Key ID") vs) (u"AWS_ACCESS_KEY_ID"))
    (form_or_env (form_optional (u"Secret Access Key") vs) (u"AWS_SECRET_ACCESS_KEY"))
    (default [] (environ (u"AWS_SESSION_TOKEN")))
    (match form_optional (u"Region") vs with [] => _resolve_region environ [] | r => r end) None 5.

(** the URL of a form, parsed *)
Definition s3_url (vs : values) (raw_query : pystr) : GoUrl :=
  mk_url (u"s3") [] None (form_string (u"Bucket") vs) (lead (form_optional (u"Prefix") vs)) [] false raw_query [] [].

Lemma lead_path_ok p : forallb scalar p = true -> path_ok (lead p) = true.
Proof.
  intros Hp. unfold path_ok, lead. destruct p as [|c r]; [done|]. destruct (startswith (u"/") (c :: r)) eqn:E.
  - by rewrite Hp, E.
  - cbn [forallb nonempty negb orb]. apply andb_true_iff. split; [by apply andb_true_iff|]. by rewrite slash_head.
Qed.

Lemma trim_lead p : _trim_leading_slash (lead p) = _trim_leading_slash p.
Proof.
  unfold _trim_leading_slash, lead. destruct p as [|c r]; [done|]. destruct (startswith (u"/") (c :: r)) eqn:E; [by rewrite E|].
  by rewrite slash_head.
Qed.

Lemma form_url_parses vs url :
  s3_form_ok vs = true -> validate_config vs = Some (url, []) ->
  exists raw_query, parse url = inr (s3_url vs raw_query) /\ query (s3_url vs raw_query) = inr (sorted_values (form_query vs)).
Proof.
  intros Hf Hv. unfold s3_form_ok in Hf. bool_prop. destruct (form_optional (u"Endpoint") vs) eqn:Ee; [|done].
  unfold validate_config in Hv. rewrite (surjective_pairing (get_required_string_value (u"Bucket") vs)) in Hv.
  fold (form_string (u"Bucket") vs) (form_optional (u"Prefix") vs) (form_optional (u"Endpoint") vs)
    (form_optional (u"Region") vs) (form_optional (u"Access Key ID") vs) (form_optional (u"Secret Access Key") vs) in Hv.
  rewrite Ee in Hv. cbn [form_location] in Hv. fold (form_query vs) in Hv.
  assert (values_ok (form_query vs)) as Hq by (by apply form_values_ok).
  destruct (values_encode_query _ (mk_url [] [] None [] [] [] false [] [] []) Hq) as (raw & Er & _). rewrite Er in Hv.
  destruct (option_errors _); [|done].
  assert ((match form_optional (u"Prefix") vs with [] => [] | _ :: _ => form_optional (u"Prefix") vs end) =
    form_optional (u"Prefix") vs) as Hpath by (by destruct (form_optional (u"Prefix") vs)).
  rewrite Hpath, url_str_lead in Hv by done. fold (s3_url vs raw) in Hv.
  assert (canonical (s3_url vs raw) = true) as Hc.
  { unfold canonical, s3_url. cbn [url_scheme url_opaque url_user url_host url_path url_raw_path url_force_query
      url_raw_query url_fragment url_raw_fragment user_ok nonempty forallb negb orb andb].
    rewrite H6, lead_path_ok by done. cbn [andb]. pose proof (values_encode_clean _ _ Er) as Hcl. unfold clean in Hcl.
    by rewrite Hcl. }
  destruct (parse_str _ Hc) as (t & Et & Hparse). rewrite Et in Hv. injection Hv as <-.
  exists raw. split; [done|].
  destruct (values_encode_query _ (s3_url vs raw) Hq) as (raw' & Er' & Hquery & _).
  rewrite Er in Er'. injection Er' as <-. by apply Hquery.
Qed.

Lemma form_query_get vs k : dict_get k (sorted_values (form_query vs)) = dict_get k (form_query vs).
Proof. apply sorted_values_get. Qed.

(** a form for a bucket of AWS is accepted as a URL on which the driver connects
    to this bucket, under the prefix of the form with one slash at its end, with
    a client for the region and the keys of the form, or of the environment
    where the form has none. *)
Theorem s3_form_connects vs url s :
  s3_form_ok vs = true -> validate_config vs = Some (url, []) ->
  let r := s3_client (form_options vs) (s3_world s) in
  let s1 := s3_set_world r.2 (s3_set_tasks 4 (s3_set_location (form_string (u"Bucket") vs)
              (add_final_slash (_trim_leading_slash (form_optional (u"Prefix") vs))) s)) in
  _connect environ url s = match r.1 with inl _ => (inl S3Client_, s1) | inr _ => (inr tt, s3_set_connected s1) end.
Proof.
  intros Hf Hv. destruct (form_url_parses vs url Hf Hv) as (raw & Hp & Hq). cbv zeta.
  assert (get_cloud_provider (form_string (u"Bucket") vs) = AWS) as Haws by (unfold s3_form_ok in Hf; by bool_prop).
  unfold _connect. rewrite Hp. cbn [url_host url_path s3_url]. rewrite Haws. cbn [get_bucket_info]. rewrite trim_lead.
  fold (s3_url vs raw). rewrite Hq.
  destruct (form_values_get (form_optional (u"Region") vs) (form_optional (u"Access Key ID") vs)
    (form_optional (u"Secret Access Key") vs)) as (Hr & Ha & Hs & Hother). fold (form_query vs) in *.
  assert (forall k, k ∉ [u"region"; u"access-key-id"; u"secret-access-key"] ->
    values_get k (sorted_values (form_query vs)) = [] /\ dict_has k (sorted_values (form_query vs)) = false) as Hno.
  { intros k Hk. unfold values_get, dict_has. by rewrite form_query_get, Hother. }
  assert (client_options environ AWS [] (_resolve_region environ (sorted_values (form_query vs)))
    (sorted_values (form_query vs)) = form_options vs) as Hopts.
  { unfold client_options, form_options, _query_or_env, _resolve_max_retries, form_or_env.
    destruct (Hno (u"session-token")) as [_ ->]; [by apply (bool_decide_eq_false_1 _)|].
    destruct (Hno (u"max-retries")) as [_ ->]; [by apply (bool_decide_eq_false_1 _)|].
    unfold _resolve_region, dict_has, values_get. rewrite !form_query_get, Hr, Ha, Hs.
    by destruct (form_optional (u"Region") vs), (form_optional (u"Access Key ID") vs), (form_optional (u"Secret Access Key") vs). }
  unfold _resolve_positive_int.
  destruct (Hno (u"maxBatchSize")) as [-> _]; [by apply (bool_decide_eq_false_1 _)|].
  destruct (Hno (u"uploadTasks")) as [-> _]; [by apply (bool_decide_eq_false_1 _)|].
  rewrite Hopts. unfold mbind, M_bind, modify, mret, M_ret, on_s3. simpl.
  by destruct (s3_client (form_options vs) (s3_world s)) as [[e|[]] w].
Qed.
End form.

Module S3Run.

(** a service that takes everything, and an environment with nothing set *)
#[local] Instance open_bucket : S3Client unit := {|
  s3_client := fun _ w => (inr tt, w);
  s3_put := fun _ _ _ w => (inr tt, w)
|}.
Definition no_environ (name : pystr) : option pystr := None.
Definition never (t : nat) : bool := false.

(** the pool that takes its first job, and the one that takes its last *)
Definition in_order (t : nat) : nat := 0.
Definition youngest (t : nat) : nat := 1.

Definition idle : S3D unit := mk_s3 tt true (u"eds") [] 2 None [] 0 [].

(** two versions of a row within a second *)
Definition older : DBChangeEvent := sample_event.
Definition newer : DBChangeEvent :=
  mk_event (u"UPDATE") (u"e2") (u"customer") (Some [u"us"; u"42"]) (u"v1") (Some (u"c1")) None None
    None (Some (u"{" ++ dq ++ u"id" ++ dq ++ u":" ++ dq ++ u"42" ++ dq ++ u"," ++ dq ++ u"n" ++ dq ++ u":8}"))
    (Some [u"n"]) 1900 (Some (u"1900.5")) true None None.

Definition taken (events : list DBChangeEvent) : S3D unit :=
  fold_left (fun s e => (process e s).2) events idle.

Definition other_row : DBChangeEvent :=
  mk_event (u"INSERT") (u"e3") (u"customer") (Some [u"us"; u"43"]) (u"v1") (Some (u"c1")) None None
    None (Some (u"{" ++ dq ++ u"id" ++ dq ++ u":" ++ dq ++ u"43" ++ dq ++ u"}"))
    None 1900 (Some (u"1900.6")) true None None.

Definition row_key : pystr := u"customer/1-42.json".

Lemma s3_schedules_agree_witness :
  object_at row_key (s3_puts (flush in_order never (taken [older; other_row])).2) = event_bytes (set_object (Some
    [(u"id", PStr (u"42")); (u"n", PFloat (FFin false 7 0))]) older) /\
  object_at row_key (s3_puts (flush in_order never (taken [older; other_row])).2) =
  object_at row_key (s3_puts (flush youngest never (taken [older; other_row])).2).
Proof.
  split; [vm_compute; reflexivity|].
  apply (s3_schedules_agree in_order youngest never never (taken [older; other_row])).
  - apply (bool_decide_eq_true_1 _). vm_compute. reflexivity.
  - vm_compute. reflexivity.
  - vm_compute. reflexivity.
Defined.

(** two versions of a row within a second share a key, and with two workers the
    older one can be the one that stays *)
Lemma older_version_wins :
  (s3_pending (taken [older; newer])).*1 = [row_key; row_key] /\
  object_at row_key (s3_puts (flush in_order never (taken [older; newer])).2) = event_bytes newer /\
  object_at row_key (s3_puts (flush youngest never (taken [older; newer])).2) = event_bytes older /\
  event_bytes newer <> event_bytes older.
Proof. split_and!; [by vm_compute..|]. apply (bool_decide_eq_false_1 _). by vm_compute. Qed.

Definition aws_form : values :=
  [(u"Bucket", PStr (u"eds-changes")); (u"Prefix", PStr (u"prod//data")); (u"Region", PStr (u"eu-west-1"));
   (u"Access Key ID", PStr (u"AKIA+1")); (u"Secret Access Key", PStr (u"s/e&c=t"))].

Definition aws_url : pystr := default [] (fst <$> validate_config aws_form).

Lemma s3_form_connects_witness :
  let s := (_connect no_environ aws_url idle).2 in
  s3_bucket s = u"eds-changes" /\ s3_prefix s = u"prod//data/" /\
  so_secret_access_key (form_options no_environ aws_form) = u"s/e&c=t".
Proof.
  pose proof (s3_form_connects no_environ aws_form aws_url idle ltac:(vm_compute; reflexivity)
    ltac:(vm_compute; reflexivity)) as H.
  cbv zeta. rewrite H. vm_compute. split; [reflexivity|split; reflexivity].
Defined.

(** a form for a provider that is compatible with AWS *)
Definition minio_form : values := aws_form ++ [(u"Endpoint", PStr (u"minio.internal:9000"))].

(** its endpoint becomes the bucket, its bucket becomes the prefix, and the
    client is made without an endpoint *)
Lemma endpoint_taken_for_bucket :
  exists url, validate_config minio_form = Some (url, []) /\
    let s := (_connect no_environ url idle).2 in
    s3_connected s = true /\ s3_bucket s = u"minio.internal:9000" /\ s3_prefix s = u"eds-changes/prod/data/" /\
    get_bucket_info (u"minio.internal:9000") (u"/eds-changes/prod/data")
      (get_cloud_provider (u"minio.internal:9000")) = ([], u"minio.internal:9000", u"eds-changes/prod/data/").
Proof. eexists. split; [vm_compute; reflexivity|]. by vm_compute. Qed.
End S3Run.
