(* ===== verification/Worker.v ===== *)
(** * The worker: eds/cmd/fork.py, eds/cmd/exit_codes.py

    The child process that runs the consumer: the setup, the loop over control
    commands and the ends of the consumer, and the clean-up.  An execution is a
    list of wakes: what [asyncio.wait] found done, with what the consumer's own
    tasks did in the meantime; a run that uses up its wakes is still running.
    [trace] records the shutdown of the parts in order.

    The theorems: which exit code each run ends with, and that the driver is
    stopped only after the consumer. *)
From stdpp Require Import base tactics list option numbers sets strings.
From S2P Require Import Prelude ExitCodes PyStr PyDict PyFloat GoJson Schema DbChange Interfaces S3 ConsumerConfig BatchProcessor ConsumerSafety Consumer.

Definition MAX_FAILURES : Z := 5.

(** ** Wakes *)

(** the paths of the control server *)
Inductive control : Type := CtlPause | CtlUnpause | CtlRestart | CtlShutdown.

(** the stop a consumer starts itself, on a fatal error or a lost connection:
    it may still be under way when the loop wakes up *)
Inductive self_stop : Type := NoStop | StopBegun | StopDone.

Record wake (St : Type) := mk_wake {
  wk_control : option control;       (** the command of [control_task], when it is done *)
  wk_fatal : bool;
  wk_disconnected : bool;
  wk_self_stop : self_stop;
  wk_work : St -> St                 (** the work of the other tasks on the world, the driver and the registry *)
}.
Arguments mk_wake {_}. Arguments wk_control {_}. Arguments wk_fatal {_}. Arguments wk_disconnected {_}.
Arguments wk_self_stop {_}. Arguments wk_work {_}.

(** the parts that are shut down, in order *)
Inductive shutdown_step : Type :=
| DConsumer (settled : bool)      (** [consumer.stop] returned; is no bufferer left that was not drained? *)
| DDriver
| DTracker
| DServer
| DSink.

(** what the setup met, in the order of the code *)
Record setup_facts := mk_setup {
  su_sink_ok : bool;           (** the log file sink, when there is a logs directory *)
  su_has_creds : bool;
  su_nats_url : pystr;
  su_validator_ok : bool;      (** the validator, when there is one *)
  su_tracker_ok : bool;
  su_driver_ok : bool;         (** the registry, the export record and the driver *)
  su_server_ok : bool          (** the control server could bind its port *)
}.

Section worker.
Context {W D R : Type} `{!Nats W} `{!Driver D} `{!Registry R}.
Context (set_session_id : pystr -> D -> D) (url credentials : pystr) (cfg : ConsumerConfig) (has_registry : bool)
  (validator : option (DBChangeEvent -> validation)).
(** [driver.stop()] *)
Context (driver_stop : method D unit unit).
Notation CS := (@CS W D R).
Notation wake := (wake (W * D * R)).

Record WS := mk_ws {
  ws_consumer : CS;
  ws_has_consumer : bool;           (** [consumer] is not [None] *)
  ws_exit_code : Z;
  ws_trace : list shutdown_step
}.

Definition ws_set_consumer (c : CS) (s : WS) : WS := mk_ws c (ws_has_consumer s) (ws_exit_code s) (ws_trace s).
Definition ws_drop_consumer (s : WS) : WS := mk_ws (ws_consumer s) false (ws_exit_code s) (ws_trace s).
Definition ws_set_code (n : Z) (s : WS) : WS := mk_ws (ws_consumer s) (ws_has_consumer s) n (ws_trace s).
Definition ws_log (x : shutdown_step) (s : WS) : WS := mk_ws (ws_consumer s) (ws_has_consumer s) (ws_exit_code s) (ws_trace s ++ [x]).

(** an exception that leaves [run_fork] *)
Inductive panic : Type := Panic.
Abbreviation WM A := (M WS panic A).

(** a method of the consumer, whose exception is a value *)
Definition call_consumer (m : M CS consumer_exn unit) : WM (consumer_exn + unit) :=
  fun s : WS => let '(r, c) := m (ws_consumer s) in (inr r, ws_set_consumer c s).
Definition must {A} (r : consumer_exn + A) : WM A := match r with inl _ => raise Panic | inr a => mret a end.

(** every bufferer that was spawned has ended *)
Definition settled (c : CS) : bool := negb (cs_tasks c) || cs_drained c.

Definition stop_consumer : WM unit :=
  _ ← call_consumer stop;
  c ← gets ws_consumer;
  modify (ws_log (DConsumer (settled c))).

(** the other tasks since the last wake *)
Definition background (w : wake) (c : CS) : CS :=
  let '(world, d, r) := wk_work w (cs_world c, cs_driver c, cs_registry c) in
  let c := cs_set_registry r (cs_set_driver d (cs_set_world world c)) in
  match wk_self_stop w with
  | NoStop => c
  | StopBegun => cs_set_stopping c
  | StopDone => (stop c).2
  end.

(** *** The loop *)

Definition do_control (cmd : control) : WM bool :=
  match cmd with
  | CtlRestart => _ ← modify (ws_set_code EXIT_RESTART); _ ← stop_consumer; _ ← modify ws_drop_consumer; mret true
  | CtlShutdown => _ ← stop_consumer; _ ← modify ws_drop_consumer; mret true
  | CtlPause => r ← call_consumer pause; _ ← must r; mret false
  | CtlUnpause => r ← call_consumer unpause; _ ← must r; mret false
  end.

(** one turn: is the run complete?  A wake without a cause is the shutdown
    signal. *)
Definition turn (w : wake) : WM bool :=
  _ ← modify (fun s : WS => ws_set_consumer (background w (ws_consumer s)) s);
  match wk_control w with
  | Some cmd => do_control cmd
  | None =>
      if wk_fatal w then _ ← modify (ws_set_code EXIT_ERROR); mret true
      else if wk_disconnected w then _ ← modify (ws_set_code EXIT_NATS_DISCONNECTED); mret true
      else mret true
  end.

(** [true]: complete; [false]: still running *)
Fixpoint turns (wakes : list wake) : WM bool :=
  match wakes with
  | [] => mret false
  | w :: rest => done ← turn w; if done : bool then mret true else turns rest
  end.

(** the consumer is made in the first turn; a failure ends the loop *)
Definition main_loop (wakes : list wake) : WM bool :=
  r ← call_consumer (_ ← create set_session_id url credentials cfg has_registry validator; start);
  match r with
  | inl _ => _ ← stop_consumer; _ ← modify (ws_set_code EXIT_ERROR); _ ← modify ws_drop_consumer; mret true
  | inr _ => turns wakes
  end.

(** the [finally] *)
Definition clean_up (has_sink : bool) : WM unit :=
  has ← gets ws_has_consumer;
  _ ← (if has : bool then stop_consumer else mret tt);
  s ← gets (fun s : WS => s);
  let '(r, d) := driver_stop (cs_driver (ws_consumer s)) in
  _ ← modify (ws_set_consumer (cs_set_driver d (ws_consumer s)));
  match r with
  | inl _ => raise Panic
  | inr _ =>
      _ ← modify (ws_log DDriver);
      _ ← modify (ws_log DTracker);
      _ ← modify (ws_log DServer);
      if has_sink then modify (ws_log DSink) else mret tt
  end.

(** *** The process *)

(** [None]: the setup is complete *)
Definition setup_code (f : setup_facts) : option Z :=
  if negb (su_sink_ok f) then Some EXIT_INCORRECT_USAGE
  else if negb (su_has_creds f) && negb (is_localhost (su_nats_url f)) then Some EXIT_INCORRECT_USAGE
  else if negb (su_validator_ok f) then Some EXIT_ERROR
  else if negb (su_tracker_ok f) then Some EXIT_INCORRECT_USAGE
  else if negb (su_driver_ok f) then Some EXIT_INCORRECT_USAGE
  else if negb (su_server_ok f) then Some EXIT_ERROR
  else None.

(** the loop and its clean-up, which runs also when an exception leaves the
    loop; [None]: still running.  An exception ends the process with the code of
    a panic (eds/cmd/root.py, [main]). *)
Definition run_loop (has_sink : bool) (wakes : list wake) (s : WS) : option Z * WS :=
  match main_loop wakes s with
  | (inr false, s1) => (None, s1)
  | (inr true, s1) =>
      match clean_up has_sink s1 with
      | (inl _, s2) => (Some EXIT_PANIC, s2)
      | (inr _, s2) => (Some (ws_exit_code s2), s2)
      end
  | (inl _, s1) => (Some EXIT_PANIC, (clean_up has_sink s1).2)
  end.

Definition fresh_worker (w : W) (d : D) (r : R) : WS := mk_ws (fresh_consumer w d r) true EXIT_SUCCESS [].

Definition run_fork (f : setup_facts) (has_sink : bool) (wakes : list wake) (s : WS) : option Z * WS :=
  match setup_code f with
  | Some code => (Some code, s)
  | None => run_loop has_sink wakes s
  end.
End worker.
Arguments WS : clear implicits.

(** ** How a run ends *)

(** the specification: the code of the wake that ends a run *)
Definition ending {St} (w : wake St) : option Z :=
  match wk_control w with
  | Some CtlRestart => Some EXIT_RESTART
  | Some CtlShutdown => Some EXIT_SUCCESS
  | Some CtlPause | Some CtlUnpause => None
  | None => Some (if wk_fatal w then EXIT_ERROR else if wk_disconnected w then EXIT_NATS_DISCONNECTED else EXIT_SUCCESS)
  end.

(** no stop of the consumer's own is cut off by the end of the run *)
Definition calm {St} (wakes : list (wake St)) : Prop := Forall (fun w => wk_self_stop w <> StopBegun) wakes.

Section ends.
Context {W D R : Type} `{!Nats W} `{!Driver D} `{!Registry R}.
Context (set_session_id : pystr -> D -> D) (url credentials : pystr) (cfg : ConsumerConfig) (has_registry : bool)
  (validator : option (DBChangeEvent -> validation)) (driver_stop : method D unit unit).
Notation CS := (@CS W D R).
Notation WS := (WS W D R).
Notation wake := (wake (W * D * R)).
Notation main_loop := (main_loop set_session_id url credentials cfg has_registry validator).
Notation run_loop := (run_loop set_session_id url credentials cfg has_registry validator driver_stop).
Implicit Type s : WS.

(** a consumer that stopped is settled *)
Definition clean (c : CS) : Prop := cs_stopping c = true -> settled c = true.

Lemma stop_clean c : clean c -> clean (stop c).2 /\ settled (stop c).2 = true.
Proof.
  intros H. assert (settled (stop c).2 = true) as Hs; [|split; [by intros _|done]].
  destruct (stop_result c) as [w ->]. simpl. destruct (cs_stopping c) eqn:E; [by apply H|]. unfold settled.
  by destruct (cs_tasks c) eqn:Et; simpl; rewrite ?Et.
Qed.

Lemma pause_clean c : clean c -> clean (pause c).2.
Proof. intros H. by destruct (pause_result c) as [w ->]. Qed.

Lemma unpause_clean c : clean c -> clean (unpause c).2.
Proof.
  intros H. pose proof (unpause_cases c) as Hc. destruct (cs_psub c); [by rewrite Hc|].
  by destruct Hc as [[w ->]|[w ->]].
Qed.

Lemma start_clean (c : CS) : cs_stopping c = false -> cs_stopping (start c).2 = false.
Proof.
  intros H. unfold start, mbind, M_bind, gets, modify. destruct (cs_running c); [done|].
  pose proof (unpause_cases (cs_set_running c)) as Hc. destruct (cs_psub (cs_set_running c)); [by rewrite Hc|].
  by destruct Hc as [[w ->]|[w ->]].
Qed.

Lemma background_clean (w : wake) c : wk_self_stop w <> StopBegun -> clean c -> clean (background w c).
Proof.
  intros Hw H. unfold background. destruct (wk_work w _) as [[world d] r]. destruct (wk_self_stop w); [done|done|].
  by apply (stop_clean (cs_set_registry r (cs_set_driver d (cs_set_world world c)))).
Qed.

Section loop.
(** whether the whole run is calm *)
Context (tidy : Prop).

(** the loop goes on *)
Definition ready s : Prop :=
  ws_exit_code s = EXIT_SUCCESS /\ ws_has_consumer s = true /\ ws_trace s = [] /\ (tidy -> clean (ws_consumer s)).

(** the loop is over, before the clean-up *)
Definition over s : Prop :=
  if ws_has_consumer s then ws_trace s = [] /\ (tidy -> clean (ws_consumer s))
  else exists b, ws_trace s = [DConsumer b] /\ (tidy -> b = true).

Lemma ready_over s : ready s -> over s.
Proof. intros (_ & H1 & H2 & H3). unfold over. by rewrite H1. Qed.

Lemma stop_consumer_over (s : WS) :
  ws_trace s = [] -> (tidy -> clean (ws_consumer s)) ->
  exists c b, stop_consumer s = (inr tt, mk_ws c (ws_has_consumer s) (ws_exit_code s) [DConsumer b]) /\ (tidy -> b = true).
Proof.
  intros Ht Hc. unfold stop_consumer, call_consumer, mbind, M_bind, gets, modify, ws_log, ws_set_consumer. simpl.
  destruct (stop (ws_consumer s)) as [r c] eqn:E. exists c, (settled c). simpl. rewrite Ht. split; [done|].
  intros H. pose proof (stop_clean _ (Hc H)) as [_ Hd]. by rewrite E in Hd.
Qed.

Lemma turn_ends (w : wake) : (tidy -> wk_self_stop w <> StopBegun) ->
  triple ready (turn w)
    (fun done s => if done then over s /\ ending w = Some (ws_exit_code s) else ready s /\ ending w = None)
    (fun _ s => over s /\ wk_control w = Some CtlUnpause).
Proof.
  intros Hcalm s (H1 & H2 & H3 & H4). unfold turn. rewrite (bind_inr _ _ _ tt (ws_set_consumer (background w (ws_consumer s)) s)) by done.
  set (s1 := ws_set_consumer _ s).
  assert (ready s1) as (R1 & R2 & R3 & R4).
  { unfold ready. split_and!; [done..|]. intros H. apply background_clean; auto. }
  unfold ending. destruct (wk_control w) as [[]|].
  - unfold do_control. destruct (pause_result (ws_consumer s1)) as [x E]. unfold call_consumer, mbind, M_bind. rewrite E. simpl.
    split; [|done]. unfold ready. split_and!; [done..|]. intros H. pose proof (pause_clean _ (R4 H)) as Hc. by rewrite E in Hc.
  - unfold do_control, call_consumer, mbind, M_bind. pose proof (unpause_clean (ws_consumer s1)) as Hc.
    destruct (unpause (ws_consumer s1)) as [[e|[]] c]; simpl.
    + split; [|done]. unfold over. simpl. change (ws_has_consumer s) with (ws_has_consumer s1). rewrite R2. split; [done|auto].
    + split; [|done]. unfold ready. split_and!; [done..|]. auto.
  - unfold do_control. rewrite (bind_inr _ _ _ tt (ws_set_code EXIT_RESTART s1)) by done.
    destruct (stop_consumer_over (ws_set_code EXIT_RESTART s1)) as (c & b & E & Hb); [done|done|].
    rewrite (bind_inr _ _ _ _ _ E). simpl. split; [|done]. by exists b.
  - unfold do_control. destruct (stop_consumer_over s1) as (c & b & E & Hb); [done|done|].
    rewrite (bind_inr _ _ _ _ _ E). simpl. change (ws_exit_code s) with (ws_exit_code s1). rewrite R1. split; [|done]. by exists b.
  - destruct (wk_fatal w), (wk_disconnected w); simpl; (split; [unfold over; simpl; change (ws_has_consumer s) with (ws_has_consumer s1); by rewrite R2|]);
      rewrite ?H1; done.
Qed.

(** the wakes before the one that ends a run *)
Definition run_ends (wakes : list wake) (P : wake -> Prop) : Prop :=
  exists l w rest, wakes = l ++ w :: rest /\ Forall (fun w => ending w = None) l /\ P w.

Lemma run_ends_cons w wakes P : ending w = None -> run_ends wakes P -> run_ends (w :: wakes) P.
Proof.
  intros Hw (l & w' & rest & -> & Hl & Hp). exists (w :: l), w', rest. split_and!; [done|by constructor|done].
Qed.

Lemma turns_end (wakes : list wake) : (tidy -> calm wakes) ->
  triple ready (turns wakes)
    (fun done s => if done then over s /\ run_ends wakes (fun w => ending w = Some (ws_exit_code s))
                   else ready s /\ Forall (fun w => ending w = None) wakes)
    (fun _ s => over s /\ run_ends wakes (fun w => wk_control w = Some CtlUnpause)).
Proof.
  intros Hcalm. induction wakes as [|w wakes IH].
  { intros s Hs. by split. }
  assert (forall P s, P w -> run_ends (w :: wakes) (fun w => P w)) as Hfirst by (by intros P s Hw; exists [], w, wakes).
  intros s Hs. cbn [turns]. pose proof (turn_ends w ltac:(intros H; specialize (Hcalm H); by apply Forall_cons in Hcalm as [? _]) s Hs) as Ht.
  unfold mbind, M_bind. destruct (turn w s) as [[e|[]] s1].
  - destruct Ht as [Ho Hw]. split; [done|]. by exists [], w, wakes.
  - destruct Ht as [Ho Hw]. split; [done|]. by exists [], w, wakes.
  - destruct Ht as [Hr Hw].
    pose proof (IH ltac:(intros H; specialize (Hcalm H); by apply Forall_cons in Hcalm as [_ ?]) s1 Hr) as Hrest.
    destruct (turns wakes s1) as [[e|[]] s2]; destruct Hrest as [Ho Hw2]; (split; [done|]).
    + by apply run_ends_cons.
    + by apply run_ends_cons.
    + by constructor.
Qed.

(** how the loop ends from the first turn on; a consumer that cannot be made
    ends it with the code of an error *)
Definition made s : Prop := exists c, (_ ← create set_session_id url credentials cfg has_registry validator; start) (ws_consumer s) = (inr tt, c).

Lemma main_loop_ends (wakes : list wake) s : (tidy -> calm wakes) -> ready s -> cs_stopping (ws_consumer s) = false ->
  match main_loop wakes s with
  | (inr false, s') => ready s' /\ Forall (fun w => ending w = None) wakes
  | (inr true, s') => over s' /\ ((made s /\ run_ends wakes (fun w => ending w = Some (ws_exit_code s'))) \/
      (~ made s /\ ws_exit_code s' = EXIT_ERROR))
  | (inl _, s') => over s' /\ made s /\ run_ends wakes (fun w => wk_control w = Some CtlUnpause)
  end.
Proof.
  intros Hcalm (R1 & R2 & R3 & R4) Hstop. unfold main_loop, call_consumer.
  set (m := _ ← create set_session_id url credentials cfg has_registry validator; start).
  assert (cs_stopping (m (ws_consumer s)).2 = false) as Hm.
  { unfold m, mbind, M_bind. pose proof (frames_create set_session_id url credentials cfg has_registry validator
      (fun c : CS => cs_stopping c = false) ltac:(by split_and!) ltac:(done) ltac:(done) ltac:(done) ltac:(done) ltac:(done)
      (ws_consumer s) Hstop) as H.
    destruct (create _ _ _ _ _ _ _) as [[e|[]] c]; [done|]. by apply start_clean. }
  unfold made. fold m. destruct (m (ws_consumer s)) as [[e|[]] c] eqn:E; simpl in Hm.
  - unfold mbind at 1, M_bind at 1. rewrite E. cbn [fst snd].
    destruct (stop_consumer_over (ws_set_consumer c s)) as (c' & b & Es & Hb); [done|simpl; unfold clean; by rewrite Hm|].
    rewrite (bind_inr _ _ _ _ _ Es). simpl. split; [by exists b|]. right. split; [|done]. intros [c0 Hc]. congruence.
  - unfold mbind, M_bind. rewrite E.
    assert (ready (ws_set_consumer c s)) as Hr by (unfold ready; split_and!; [done..|]; simpl; unfold clean; by rewrite Hm).
    pose proof (turns_end wakes Hcalm _ Hr) as H. destruct (turns wakes (ws_set_consumer c s)) as [[e|[]] s2]; [| |done].
    + destruct H as [H1 H2]. split; [done|]. split; [by exists c|done].
    + destruct H as [H1 H2]. split; [done|]. left. split; [by exists c|done].
Qed.

Definition shutdown_order (has_sink : bool) (b : bool) : list shutdown_step :=
  DConsumer b :: DDriver :: DTracker :: DServer :: if has_sink then [DSink] else [].

Lemma clean_up_result has_sink s : over s ->
  exists b d, (tidy -> b = true) /\ cs_driver (ws_consumer (clean_up driver_stop has_sink s).2) = (driver_stop d).2 /\
    match (driver_stop d).1, clean_up driver_stop has_sink s with
    | inr _, (inr _, s') => ws_trace s' = shutdown_order has_sink b /\ ws_exit_code s' = ws_exit_code s
    | inl _, (inl _, s') => ws_trace s' = [DConsumer b]
    | _, _ => False
    end.
Proof.
  intros Ho. assert (exists b c, (tidy -> b = true) /\
    (if ws_has_consumer s then stop_consumer else mret tt) s =
      (inr tt, mk_ws c (ws_has_consumer s) (ws_exit_code s) [DConsumer b])) as (b & c & Hb & E).
  { unfold over in Ho. destruct (ws_has_consumer s) eqn:Eh.
    - destruct Ho as [Ht Hc]. destruct (stop_consumer_over s Ht Hc) as (c & b & E & Hb). exists b, c. by rewrite E, Eh.
    - destruct Ho as (b & Ht & Hb). exists b, (ws_consumer s). split; [done|]. destruct s. simpl in *. by subst. }
  exists b, (cs_driver c). split; [done|]. unfold clean_up. rewrite (bind_inr _ _ _ (ws_has_consumer s) s) by done.
  rewrite (bind_inr _ _ _ _ _ E). unfold mbind, M_bind, gets, modify, raise. simpl.
  destruct (driver_stop (cs_driver c)) as [[[]|[]] d'] eqn:Ed; simpl; [done|]. by destruct has_sink.
Qed.
End loop.

Lemma fresh_ready (tidy : Prop) w d r : ready tidy (fresh_worker w d r : WS).
Proof. by split_and!. Qed.

(** can a consumer be made here? *)
Abbreviation can_start w d r := (made (fresh_worker w d r)).
Definition driver_raises : Prop := exists d d', driver_stop d = (inl tt, d').

(** the exit code of the worker.  A run that is still going has met only pauses
    and unpauses; else the first other wake decides: a restart, a shutdown, a
    fatal error, a lost connection or a signal.  The code is that of an error
    when the consumer could not be made, and that of a panic only when an
    unpause or the stop of the driver raised. *)
Theorem worker_exit_code has_sink wakes w d r :
  match run_loop has_sink wakes (fresh_worker w d r) with
  | (None, _) => Forall (fun x => ending x = None) wakes
  | (Some code, _) =>
      (can_start w d r /\ run_ends wakes (fun x => ending x = Some code)) \/
      (~ can_start w d r /\ code = EXIT_ERROR) \/
      (code = EXIT_PANIC /\ (driver_raises \/ run_ends wakes (fun x => wk_control x = Some CtlUnpause)))
  end.
Proof.
  pose proof (main_loop_ends False wakes (fresh_worker w d r) ltac:(done) (fresh_ready _ w d r) eq_refl) as H.
  unfold run_loop. destruct (main_loop wakes (fresh_worker w d r)) as [[e|[]] s1]; [| |apply H].
  - right. right. split; [done|]. right. apply H.
  - destruct H as [Ho Hends]. destruct (clean_up_result False has_sink s1 Ho) as (b & d0 & _ & _ & Hc).
    destruct (clean_up driver_stop has_sink s1) as [[e|[]] s2], (driver_stop d0) as [[[]|[]] d1] eqn:Ed; try done.
    + right. right. split; [done|]. left. by exists d0, d1.
    + destruct Hc as [_ ->]. destruct Hends as [Hm|[Hm ->]]; [by left|]. right. by left.
Qed.

(** C39: A run that ends stops its consumer first and then the driver, also when an
    exception ended the loop.  If the driver's stop returns, the tracker, the
    control server and the log sink are closed after it, in this order; if it
    raises, they are not, and the worker ends with the code of a panic.  The
    bufferer is drained before the driver stops unless a stop of the consumer's
    own was still under way when the loop ended. *)
Theorem worker_cleans_up has_sink wakes w d r code s' :
  run_loop has_sink wakes (fresh_worker w d r) = (Some code, s') ->
  exists b d1, (calm wakes -> b = true) /\ cs_driver (ws_consumer s') = (driver_stop d1).2 /\
    match (driver_stop d1).1 with
    | inr _ => ws_trace s' = shutdown_order has_sink b
    | inl _ => ws_trace s' = [DConsumer b] /\ code = EXIT_PANIC
    end.
Proof.
  pose proof (main_loop_ends (calm wakes) wakes (fresh_worker w d r) ltac:(done) (fresh_ready _ w d r) eq_refl) as H.
  unfold run_loop. destruct (main_loop wakes (fresh_worker w d r)) as [[e|[]] s1]; [| |done];
    destruct H as [Ho _]; destruct (clean_up_result (calm wakes) has_sink s1 Ho) as (b & d1 & Hb & Hd & Hc);
    destruct (clean_up driver_stop has_sink s1) as [[e'|[]] s2]; intros [= <- <-]; exists b, d1; (split; [done|]); (split; [done|]);
    destruct (driver_stop d1).1; try done; by destruct Hc.
Qed.
End ends.

Module WorkerRun.

#[local] Existing Instance ConsumerRun.counting_nats.
#[local] Existing Instance ConsumerSafety.counting_driver.
#[local] Existing Instance ConsumerSafety.one_table_registry.

Definition stops (d : nat) : (unit + unit) * nat := (inr tt, d).
Definition wait (cmd : option control) (disconnected : bool) (own : self_stop) : wake (nat * nat * unit) :=
  mk_wake cmd false disconnected own id.

Abbreviation worker wakes :=
  (run_loop ConsumerRun.no_session (u"nats://localhost") [] ConsumerRun.imported true None stops true wakes
     (fresh_worker 0%nat 0%nat tt)).

Definition paused_and_restarted : list (wake (nat * nat * unit)) :=
  [wait (Some CtlPause) false NoStop; wait (Some CtlUnpause) false NoStop; wait (Some CtlRestart) false NoStop].

Lemma worker_cleans_up_witness :
  exists b d1, (calm paused_and_restarted -> b = true) /\
    cs_driver (ws_consumer (worker paused_and_restarted).2) = (stops d1).2 /\
    match (stops d1).1 with
    | inr _ => ws_trace (worker paused_and_restarted).2 = shutdown_order true b
    | inl _ => ws_trace (worker paused_and_restarted).2 = [DConsumer b] /\ EXIT_RESTART = EXIT_PANIC
    end.
Proof.
  apply (worker_cleans_up ConsumerRun.no_session (u"nats://localhost") [] ConsumerRun.imported true None stops true
    paused_and_restarted 0%nat 0%nat tt EXIT_RESTART). vm_compute. reflexivity.
Defined.

(** a driver whose stop raises leaves the tracker, the control server and the sink open *)
Lemma failed_stop_skips_rest :
  let s := run_loop ConsumerRun.no_session (u"nats://localhost") [] ConsumerRun.imported true None
             (fun d => (inl tt, d)) true paused_and_restarted (fresh_worker 0%nat 0%nat tt) in
  s.1 = Some EXIT_PANIC /\ ws_trace s.2 = [DConsumer true].
Proof. by vm_compute. Qed.

(** an unpause of a consumer that is not paused ends the worker with a panic *)
Lemma unpause_panics : (worker [wait (Some CtlUnpause) false NoStop]).1 = Some EXIT_PANIC.
Proof. by vm_compute. Qed.

(** on a lost connection the driver is stopped while the stop of the consumer,
    which drains its batch, is still under way *)
Lemma disconnect_skips_drain :
  (worker [wait None true StopBegun]).1 = Some EXIT_NATS_DISCONNECTED /\
  ws_trace (worker [wait None true StopBegun]).2 = shutdown_order true false.
Proof. by vm_compute. Qed.
End WorkerRun.
