(* ===== verification/Supervisor.v ===== *)
(** * The wrapper and the control plane: eds/cmd/server.py

    Two loops of processes: [Wrapper] supervises the control plane, restarts it
    with a growing pause and stops it on a signal; [ControlPlane] opens a session
    with the service, runs a worker for it and decides from the worker's exit
    code what to do next.

    The wrapper shares a queue of events with three kinds of threads, so it is a
    transition system: an act is a step of the loop, of a child, of the thread
    that waits for a child, or a request.  The control plane runs on a list of
    rounds, what the outside answers to each session.

    The theorems: how many children there are and how many were started; what
    each run of the control plane did for its sessions, and when it ends. *)
From stdpp Require Import base tactics list option numbers sets strings.
From S2P Require Import Prelude ExitCodes PyStr PyPath PyDict PyFloat GoJson Interfaces Credentials DriverConfig Config Worker.

(** ** The wrapper *)

Module Wrapper.

(** a child process: running, or ended with its waiter thread still to put the
    event, or with the event put *)
Inductive child : Type := Running | Exited (code : Z) | Reported (code : Z).

(** the events of the queue.  The code's event holds the exit code only; the
    child is for the statements. *)
Inductive event : Type := EvRestart | EvShutdown | EvExited (child : nat) (code : Z).

(** where the loop is: at its condition, in [events.get], in [_terminate], in
    [_drain_exited], in the wait of a shutdown, or gone *)
Inductive place : Type :=
| Top | Waiting (i : nat) | Terminating (i : nat) | Draining | Stopping (i : nat) | Returned (code : Z) | Raised.

Record WR := mk_wr {
  wr_place : place;
  wr_children : list child;      (** every child that was spawned *)
  wr_queue : list event;
  wr_failures : Z;
  wr_completed : bool;
  wr_exit_code : Z;
  wr_signalled : bool;           (** the signal's thread has put its event and ended *)
  wr_sleeps : list Z;            (** the calls of [time.sleep] *)
  wr_restarts : nat;             (** the restart events that were taken *)
  wr_late : nat                  (** the exit events that were taken for another child's *)
}.

Definition fresh_wrapper : WR := mk_wr Top [] [] 0 false 1 false [] 0 0.

Definition goto (p : place) (s : WR) : WR :=
  mk_wr p (wr_children s) (wr_queue s) (wr_failures s) (wr_completed s) (wr_exit_code s) (wr_signalled s) (wr_sleeps s) (wr_restarts s) (wr_late s).
Definition set_queue (q : list event) (s : WR) : WR :=
  mk_wr (wr_place s) (wr_children s) q (wr_failures s) (wr_completed s) (wr_exit_code s) (wr_signalled s) (wr_sleeps s) (wr_restarts s) (wr_late s).
Definition set_children (l : list child) (s : WR) : WR :=
  mk_wr (wr_place s) l (wr_queue s) (wr_failures s) (wr_completed s) (wr_exit_code s) (wr_signalled s) (wr_sleeps s) (wr_restarts s) (wr_late s).
Definition put (e : event) (s : WR) : WR := set_queue (wr_queue s ++ [e]) s.
Definition complete (code : Z) (s : WR) : WR :=
  mk_wr Top (wr_children s) (wr_queue s) (wr_failures s) true code (wr_signalled s) (wr_sleeps s) (wr_restarts s) (wr_late s).
(** [failures += 1; time.sleep(failures)] *)
Definition fail (code : Z) (s : WR) : WR :=
  mk_wr Top (wr_children s) (wr_queue s) (wr_failures s + 1) (wr_completed s) code (wr_signalled s)
    (wr_sleeps s ++ [wr_failures s + 1]) (wr_restarts s) (wr_late s).
Definition take_restart (i : nat) (s : WR) : WR :=
  mk_wr (Terminating i) (wr_children s) (wr_queue s) (wr_failures s) (wr_completed s) (wr_exit_code s) (wr_signalled s)
    (wr_sleeps s) (S (wr_restarts s)) (wr_late s).
Definition count_late (i j : nat) (s : WR) : WR :=
  mk_wr (wr_place s) (wr_children s) (wr_queue s) (wr_failures s) (wr_completed s) (wr_exit_code s) (wr_signalled s) (wr_sleeps s)
    (wr_restarts s) (if decide (i = j) then wr_late s else S (wr_late s)).

Definition exited (i : nat) (s : WR) : bool :=
  match wr_children s !! i with Some Running | None => false | Some _ => true end.

(** [while failures < MAX_FAILURES and not completed] *)
Definition goes_on (s : WR) : bool := (wr_failures s <? MAX_FAILURES) && negb (wr_completed s).

(** the event the loop took *)
Definition handle (i : nat) (e : event) (s : WR) : WR :=
  match e with
  | EvRestart => take_restart i s
  | EvShutdown => goto (Stopping i) s
  | EvExited j code =>
      let s := count_late i j s in
      if (code =? EXIT_SUCCESS) || (code =? 1) then complete code s else fail code s
  end.

(** a step of the loop; [None]: it is blocked or gone *)
Definition loop_step (s : WR) : option WR :=
  match wr_place s with
  | Top =>
      if goes_on s then Some (goto (Waiting (length (wr_children s))) (set_children (wr_children s ++ [Running]) s))
      else Some (goto (Returned (wr_exit_code s)) s)
  | Waiting i =>
      match wr_queue s with
      | [] => None
      | e :: q => Some (handle i e (set_queue q s))
      end
  | Terminating i => if exited i s then Some (goto Draining s) else None
  | Draining =>
      match wr_queue s with
      | [] => Some (goto Top s)
      | _ :: q => Some (set_queue q s)
      end
  | Stopping i => if exited i s then Some (complete EXIT_SUCCESS s) else None
  | Returned _ | Raised => None
  end.

Inductive act : Type :=
| Loop                             (** a step of the loop *)
| SpawnFails                       (** [Popen] raises *)
| Exits (i : nat) (code : Z)       (** a child ends, by itself or because it was terminated *)
| Reports (i : nat)                (** the waiter of a child puts its event *)
| RestartRequest                   (** the HTTP request of the control plane *)
| Signal.                          (** SIGINT or SIGTERM *)

Definition step (a : act) (s : WR) : option WR :=
  match a with
  | Loop => loop_step s
  | SpawnFails => match wr_place s with Top => if goes_on s then Some (goto Raised s) else None | _ => None end
  | Exits i code => match wr_children s !! i with
                    | Some Running => Some (set_children (<[i:=Exited code]> (wr_children s)) s)
                    | _ => None
                    end
  | Reports i => match wr_children s !! i with
                 | Some (Exited code) => Some (put (EvExited i code) (set_children (<[i:=Reported code]> (wr_children s)) s))
                 | _ => None
                 end
  | RestartRequest => Some (put EvRestart s)
  | Signal =>
      if wr_signalled s then None
      else Some (put EvShutdown (mk_wr (wr_place s) (wr_children s) (wr_queue s) (wr_failures s) (wr_completed s)
                                   (wr_exit_code s) true (wr_sleeps s) (wr_restarts s) (wr_late s)))
  end.

Inductive reachable : WR -> Prop :=
| reachable_start : reachable fresh_wrapper
| reachable_step a s s' : reachable s -> step a s = Some s' -> reachable s'.

Fixpoint run_acts (l : list act) (s : WR) : option WR :=
  match l with [] => Some s | a :: l => s' ← step a s; run_acts l s' end.

Lemma run_acts_reachable l s s' : reachable s -> run_acts l s = Some s' -> reachable s'.
Proof.
  revert s. induction l as [|a l IH]; simpl; intros s Hs; [by intros [= <-]|].
  destruct (step a s) as [s1|] eqn:E; simpl; [|done]. apply IH. by eapply reachable_step.
Qed.

(** *** Counting children *)

Definition is_running (c : child) : bool := match c with Running => true | _ => false end.
Definition count {A} (p : A -> bool) (l : list A) : nat := length (filter (fun x => p x = true) l).

Definition running (s : WR) : nat := count is_running (wr_children s).

Lemma count_app {A} (p : A -> bool) l k : count p (l ++ k) = (count p l + count p k)%nat.
Proof. unfold count. by rewrite filter_app, length_app. Qed.

Lemma count_cons {A} (p : A -> bool) x l : count p (x :: l) = (Nat.b2n (p x) + count p l)%nat.
Proof. unfold count. rewrite filter_cons. by destruct (p x). Qed.

Lemma count_insert {A} (p : A -> bool) l i (x y : A) : l !! i = Some x ->
  (count p (<[i:=y]> l) + Nat.b2n (p x) = count p l + Nat.b2n (p y))%nat.
Proof.
  revert i. induction l as [|z l IH]; intros [|i] Hi; try done; simpl in *.
  - injection Hi as ->. rewrite !count_cons. lia.
  - rewrite !count_cons. specialize (IH i Hi). lia.
Qed.

(** *** The invariant *)

(** the outcome the code of a returned wrapper tells *)
Definition outcome_ok (s : WR) : Prop :=
  if wr_completed s then wr_exit_code s = 0 \/ wr_exit_code s = 1
  else wr_failures s = MAX_FAILURES -> wr_exit_code s <> 0 /\ wr_exit_code s <> 1.

(** every exit in the queue is of a child that ended *)
Definition queue_ok (s : WR) : Prop :=
  forall i code, EvExited i code ∈ wr_queue s -> wr_children s !! i = Some (Reported code).

(** apart from the child the loop is concerned with, a child runs only if a late
    event was taken *)
Definition place_ok (s : WR) : Prop :=
  let spawned := Z.of_nat (length (wr_children s)) in
  let base := wr_failures s + Z.of_nat (wr_restarts s) in
  let bound := MAX_FAILURES + Z.of_nat (wr_restarts s) in
  let but i := (running s <= wr_late s + Nat.b2n (negb (exited i s)))%nat in
  match wr_place s with
  | Top => (running s <= wr_late s)%nat /\ if wr_completed s then spawned <= bound else spawned = base
  | Waiting i | Stopping i => but i /\ spawned = base + 1 /\ wr_completed s = false /\ wr_failures s < MAX_FAILURES
  | Terminating i => but i /\ spawned = base /\ wr_completed s = false /\ wr_failures s < MAX_FAILURES
  | Draining => (running s <= wr_late s)%nat /\ spawned = base /\ wr_completed s = false /\ wr_failures s < MAX_FAILURES
  | Returned code => (running s <= wr_late s)%nat /\ spawned <= bound /\ code = wr_exit_code s /\
      (wr_completed s = true \/ wr_failures s = MAX_FAILURES)
  | Raised => (running s <= wr_late s)%nat /\ spawned <= bound
  end.

(** the pauses of a number of failures: 1, 2, 3, ... *)
Definition backoff (failures : Z) : list Z := Z.of_nat <$> seq 1 (Z.to_nat failures).

Lemma backoff_snoc failures : 0 <= failures -> backoff (failures + 1) = backoff failures ++ [failures + 1].
Proof.
  intros H. unfold backoff. replace (Z.to_nat (failures + 1)) with (S (Z.to_nat failures)) by lia.
  rewrite seq_S, fmap_app. simpl. do 2 f_equal. lia.
Qed.

Record wrapper_ok (s : WR) : Prop := {
  wo_place : place_ok s;
  wo_failures : 0 <= wr_failures s <= MAX_FAILURES;
  wo_sleeps : wr_sleeps s = backoff (wr_failures s);
  wo_outcome : outcome_ok s;
  wo_queue : queue_ok s
}.

(** *** The acts of the threads *)

(** what the other threads keep *)
Lemma wrapper_keeps s s' :
  wr_place s' = wr_place s -> length (wr_children s') = length (wr_children s) -> wr_failures s' = wr_failures s ->
  wr_completed s' = wr_completed s -> wr_exit_code s' = wr_exit_code s -> wr_restarts s' = wr_restarts s -> wr_late s' = wr_late s ->
  wr_sleeps s' = wr_sleeps s -> (running s' <= running s)%nat ->
  (forall i, running s' + Nat.b2n (negb (exited i s)) <= running s + Nat.b2n (negb (exited i s')))%nat -> queue_ok s' ->
  wrapper_ok s -> wrapper_ok s'.
Proof.
  intros E1 E2 E3 E4 E5 E6 E7 E8 Hr Hbut Hq [H1 H2 H3 H4 H5]. split; [|by rewrite E3|by rewrite E8, E3| |done].
  - unfold place_ok in *. rewrite E1, E2, E3, E4, E5, E6, E7.
    destruct (wr_place s) as [|i|i| |i| |]; try (specialize (Hbut i)); [destruct (wr_completed s)|..]; intuition lia.
  - unfold outcome_ok in *. by rewrite E3, E4, E5.
Qed.

Lemma put_keeps e s : (forall i code, e <> EvExited i code) -> wrapper_ok s -> wrapper_ok (put e s).
Proof.
  intros He Hok. apply (wrapper_keeps s); try done.
  intros i code [Hin|Hin%list_elem_of_singleton]%elem_of_app; [by apply (wo_queue s Hok)|by destruct (He i code)].
Qed.

Lemma exits_keeps i code s s' : step (Exits i code) s = Some s' -> wrapper_ok s -> wrapper_ok s'.
Proof.
  simpl. destruct (wr_children s !! i) as [[| |]|] eqn:Ei; try done. intros [= <-] Hok.
  pose proof (count_insert is_running _ _ _ (Exited code) Ei) as Hc. unfold is_running in Hc at 2 4. simpl in Hc.
  apply (wrapper_keeps s); try done; simpl; [by rewrite length_insert|unfold running; simpl; lia|..].
  - intros j. unfold running, exited. simpl. destruct (decide (i = j)) as [->|].
    + rewrite list_lookup_insert_eq by (by apply lookup_lt_Some in Ei). rewrite Ei. simpl. lia.
    + rewrite list_lookup_insert_ne by done. lia.
  - intros j c Hin%(wo_queue s Hok). simpl. destruct (decide (i = j)) as [->|]; [congruence|]. by rewrite list_lookup_insert_ne.
Qed.

Lemma reports_keeps i s s' : step (Reports i) s = Some s' -> wrapper_ok s -> wrapper_ok s'.
Proof.
  simpl. destruct (wr_children s !! i) as [[|code|]|] eqn:Ei; try done. intros [= <-] Hok.
  pose proof (count_insert is_running _ _ _ (Reported code) Ei) as Hc. unfold is_running in Hc at 2 4. simpl in Hc.
  assert (i < length (wr_children s))%nat as Hi by (by apply lookup_lt_Some in Ei).
  apply (wrapper_keeps s); try done; simpl; [by rewrite length_insert|unfold running; simpl; lia|..].
  - intros j. unfold running, exited. simpl. destruct (decide (i = j)) as [->|].
    + rewrite list_lookup_insert_eq by done. rewrite Ei. simpl. lia.
    + rewrite list_lookup_insert_ne by done. lia.
  - intros j c [Hin|[= -> ->]%list_elem_of_singleton]%elem_of_app; simpl; [|by apply list_lookup_insert_eq].
    apply (wo_queue s Hok) in Hin. destruct (decide (i = j)) as [->|]; [congruence|]. by rewrite list_lookup_insert_ne.
Qed.

(** *** The steps of the loop *)

Lemma handle_ok i e q s : wr_place s = Waiting i -> wr_queue s = e :: q -> wrapper_ok s -> wrapper_ok (handle i e (set_queue q s)).
Proof.
  intros Ep Eq [H1 H2 H3 H4 H5]. unfold place_ok in H1. rewrite Ep in H1. destruct H1 as (Hb & Hs & Hc & Hf).
  assert (queue_ok (set_queue q s)) as Hq by (intros j c Hin; apply H5; rewrite Eq; by right).
  unfold outcome_ok in H4. rewrite Hc in H4. destruct e as [| |j code].
  - split; [|done|done| |done]; unfold place_ok, outcome_ok; simpl; [|by rewrite Hc]. split_and!; try done. lia.
  - split; [|done|done| |done]; unfold place_ok, outcome_ok; simpl; [|by rewrite Hc]. by split_and!.
  - assert (running s <= if decide (i = j) then wr_late s else S (wr_late s))%nat as Hr.
    { case_decide as E; [subst j|].
      - assert (exited i s = true) as Hx; [|rewrite Hx in Hb; simpl in Hb; lia].
        unfold exited. by rewrite (H5 i code) by (rewrite Eq; left).
      - destruct (exited i s); simpl in Hb; lia. }
    unfold handle. destruct ((code =? EXIT_SUCCESS) || (code =? 1)) eqn:Ec.
    + split; [|done|done| |done]; unfold place_ok, outcome_ok; simpl.
      * unfold running in *. simpl. unfold MAX_FAILURES in *. split; [done|lia].
      * unfold EXIT_SUCCESS in Ec. bool_prop. lia.
    + split; unfold place_ok, outcome_ok; simpl; [|lia| | |done].
      * rewrite Hc. unfold running in *. simpl. split; [done|lia].
      * rewrite H3. by rewrite backoff_snoc by lia.
      * rewrite Hc. intros _. unfold EXIT_SUCCESS in Ec. bool_prop. lia.
Qed.

Lemma spawn_ok s : wrapper_ok s -> wr_place s = Top -> goes_on s = true ->
  wrapper_ok (goto (Waiting (length (wr_children s))) (set_children (wr_children s ++ [Running]) s)).
Proof.
  intros [H1 H2 H3 H4 H5] Ep Hg. unfold goes_on in Hg. apply andb_true_iff in Hg as [Hf Hc%negb_true_iff]. bool_prop.
  unfold place_ok in H1. rewrite Ep, Hc in H1. destruct H1 as [Hr Hs]. split; [|done|done|done|].
  - unfold place_ok. simpl. rewrite length_app. split_and!; [|simpl; lia|done|done].
    unfold exited, running in *. simpl. rewrite list_lookup_middle by done. rewrite count_app, count_cons. simpl.
    change (count is_running []) with 0%nat. lia.
  - intros j code Hin%H5. simpl. by apply lookup_app_l_Some.
Qed.

Lemma loop_keeps s s' : loop_step s = Some s' -> wrapper_ok s -> wrapper_ok s'.
Proof.
  intros Hstep Hok. pose proof Hok as [H1 H2 H3 H4 H5]. unfold loop_step in Hstep. unfold place_ok in H1.
  destruct (wr_place s) as [|i|i| |i|code|] eqn:Ep; try done.
  - destruct (goes_on s) eqn:Eg; injection Hstep as <-; [by apply spawn_ok|]. split; [|done..]. unfold place_ok. simpl.
    unfold goes_on in Eg. destruct H1 as [Hr Hs]. split_and!; [done| |done|].
    + destruct (wr_completed s); lia.
    + destruct (wr_completed s); [by left|right]. rewrite andb_true_r in Eg. bool_prop. lia.
  - destruct (wr_queue s) as [|e q] eqn:Eq; [done|]. injection Hstep as <-. by apply handle_ok.
  - destruct (exited i s) eqn:Ei; [|done]. injection Hstep as <-. split; [|done..]. unfold place_ok. simpl.
    destruct H1 as (Hb & Hs & Hc & Hf). simpl in Hb. unfold running in *. simpl. split_and!; try done. lia.
  - destruct (wr_queue s) as [|e q] eqn:Eq; injection Hstep as <-; (split; [|done|done|done|]).
    + unfold place_ok. simpl. destruct H1 as (Hr & Hs & Hc & Hf). by rewrite Hc.
    + done.
    + unfold place_ok. simpl. by rewrite Ep.
    + intros j c Hin. apply H5. rewrite Eq. by right.
  - destruct (exited i s) eqn:Ei; [|done]. injection Hstep as <-. destruct H1 as (Hb & Hs & Hc & Hf). simpl in Hb.
    split; [|done|done| |done]; unfold place_ok, outcome_ok; simpl; [|by left]. unfold running in *. simpl. unfold MAX_FAILURES in *. split; lia.
Qed.

Lemma reachable_ok s : reachable s -> wrapper_ok s.
Proof.
  induction 1 as [|a s s' Hs IH Hstep].
  { split; [by split|done|done| |]; [intros H; discriminate H|]. by intros i code ?%elem_of_nil. }
  destruct a as [| |i code|i| |].
  - by eapply loop_keeps.
  - simpl in Hstep. destruct (wr_place s) eqn:Ep; try done. destruct (goes_on s) eqn:Eg; [|done]. injection Hstep as <-.
    destruct IH as [H1 H2 H3 H4 H5]. unfold place_ok in H1. rewrite Ep in H1. unfold goes_on in Eg.
    apply andb_true_iff in Eg as [Hf Hc%negb_true_iff]. bool_prop. rewrite Hc in H1. split; [|done..]. unfold place_ok. simpl.
    destruct H1. unfold running in *. simpl. split; [done|lia].
  - by eapply exits_keeps.
  - by eapply reports_keeps.
  - injection Hstep as <-. by apply put_keeps.
  - simpl in Hstep. destruct (wr_signalled s); [done|]. injection Hstep as <-. apply put_keeps; [done|].
    pose proof (wo_queue s IH). revert IH. by apply wrapper_keeps.
Qed.

(** C25: whatever the order of the threads, at most one child process runs, but for
    one more with each exit event that reached the loop too late, after the child
    had been replaced; and a wrapper that returned left no other child running. *)
Theorem wrapper_children s : reachable s ->
  (running s <= S (wr_late s))%nat /\
  (forall code, wr_place s = Returned code -> (running s <= wr_late s)%nat).
Proof.
  intros [H _ _ _ _]%reachable_ok. unfold place_ok in H.
  assert (forall b, Nat.b2n b <= 1)%nat as Hb by (intros []; simpl; lia).
  destruct (wr_place s) as [|i|i| |i| |]; split; intros; try done; try (specialize (Hb (negb (exited i s)))); intuition lia.
Qed.

(** apart from the restarts, at most five children are started; each failure is
    followed by a pause, one second longer each time; and a wrapper that returns
    was stopped, or its last child was a success or an error, or five children
    failed. *)
Theorem wrapper_attempts s : reachable s ->
  Z.of_nat (length (wr_children s)) <= MAX_FAILURES + Z.of_nat (wr_restarts s) /\
  wr_sleeps s = backoff (wr_failures s) /\
  (forall code, wr_place s = Returned code -> code = 0 \/ code = 1 \/ wr_failures s = MAX_FAILURES).
Proof.
  intros [H H2 H3 H4 H5]%reachable_ok. unfold place_ok, outcome_ok in *. split_and!; [|done|].
  - destruct (wr_place s); [destruct (wr_completed s)|..]; intuition lia.
  - intros code E. rewrite E in H. destruct H as (_ & _ & -> & H). destruct (wr_completed s); intuition auto. discriminate.
Qed.

(** *** Runs *)

(** the state after some acts, the first one where they are not possible *)
Definition after (l : list act) : WR := default fresh_wrapper (run_acts l fresh_wrapper).

Lemma after_reachable l : reachable (after l).
Proof.
  unfold after. destruct (run_acts l fresh_wrapper) as [s|] eqn:E; [|constructor].
  eapply run_acts_reachable; [constructor|exact E].
Qed.

(** a child that is started and crashes *)
Definition crash (i : nat) : list act := [Loop; Exits i 2; Reports i; Loop].
Definition five_crashes : list act := concat (crash <$> seq 0 5) ++ [Loop].

Lemma wrapper_children_witness : wr_place (after five_crashes) = Returned 2 /\
  (running (after five_crashes) <= 1)%nat /\
  (forall code, wr_place (after five_crashes) = Returned code -> (running (after five_crashes) <= 0)%nat).
Proof.
  split; [vm_compute; reflexivity|].
  apply (wrapper_children (after five_crashes)). apply after_reachable.
Defined.

(** the fifth failure is followed by a pause of five seconds too *)
Lemma wrapper_attempts_witness : wr_sleeps (after five_crashes) = [1; 2; 3; 4; 5] /\
  Z.of_nat (length (wr_children (after five_crashes))) <= MAX_FAILURES + Z.of_nat (wr_restarts (after five_crashes)) /\
  wr_sleeps (after five_crashes) = backoff (wr_failures (after five_crashes)) /\
  (forall code, wr_place (after five_crashes) = Returned code -> code = 0 \/ code = 1 \/ wr_failures (after five_crashes) = MAX_FAILURES).
Proof.
  split; [vm_compute; reflexivity|].
  apply (wrapper_attempts (after five_crashes)). apply after_reachable.
Defined.

(** a restart whose child's waiter is slower than [_drain_exited] *)
Definition late_report (code : Z) : list act :=
  [Loop; RestartRequest; Loop; Exits 0 code; Loop; Loop; Loop; Reports 0; Loop].

(** the late event of the old child is taken for the new one's: a terminated
    child counts as a failure and a second child is started beside the first *)
Lemma late_report_starts_second_child :
  let s := after (late_report (-15) ++ [Loop]) in running s = 2%nat /\ wr_failures s = 1.
Proof. by vm_compute. Qed.

(** ... and when the old child ended with 0, as one that handles SIGTERM does,
    the wrapper returns and leaves the new child behind *)
Lemma late_report_orphans_child :
  let s := after (late_report 0 ++ [Loop]) in wr_place s = Returned 0 /\ running s = 1%nat.
Proof. by vm_compute. Qed.

(** a signal that arrives while a restart is under way is dropped with the
    drained events, and there is no second one: the new child runs on *)
Lemma drained_signal_is_lost :
  let s := after [Loop; RestartRequest; Loop; Signal; Exits 0 (-15); Loop; Loop; Loop; Loop] in
  wr_signalled s = true /\ wr_place s = Waiting 1 /\ running s = 1%nat /\ wr_queue s = [] /\ step Signal s = None.
Proof. by vm_compute. Qed.

End Wrapper.

(** ** The control plane *)

Module ControlPlane.

(** how a run ends: with a code that is returned, with [logger.fatal], or with
    an exception *)
Inductive cp_exit : Type := Code (c : Z) | Fatal | Panic.
Definition exit_code (e : cp_exit) : Z := match e with Code c => c | Fatal => 1 | Panic => EXIT_PANIC end.

(** *** Setup *)

(** the parsed arguments of the server, with the directory as [abspath] gives it *)
Record server_args := mk_args {
  sa_eds_id : pystr;
  sa_api_key : pystr;
  sa_url : pystr;
  sa_keep_logs : bool;
  sa_nats_url : pystr;
  sa_api_url : option pystr;
  sa_port : Z;
  sa_health_port : Z;
  sa_mode : option IngestMode;
  sa_no_restart : bool;
  sa_data_dir : pystr
}.

(** what the sessions use *)
Record plan := mk_plan {
  pl_server_id : pystr;
  pl_api_key : pystr;
  pl_api_url : pystr;
  pl_nats_url : pystr;
  pl_keep_logs : bool;
  pl_no_restart : bool;
  pl_data_dir : pystr;
  pl_base_args : list pystr
}.

Definition or_config (other_str : pyobj -> pystr) (arg key : pystr) (c : Config) : pystr :=
  match arg with [] => get_string other_str key [] c | _ => arg end.

(** the answers to the prompt, with the exit code of [eds enroll] for each; an
    answer is [None] at the end of the input.  The configuration is read when an
    enrolment succeeded; a list that is used up means the prompt is still open
    ([inr None]). *)
Fixpoint interactive_enroll (answers : list (option pystr * Z)) : bool + unit :=
  match answers with
  | [] => inr tt
  | (None, _) :: _ => inl false
  | (Some line, code) :: rest =>
      match strip line with
      | [] => inl false
      | _ => if code =? 0 then inl true else interactive_enroll rest
      end
  end.

Definition api_url_of (args : server_args) (api_key : pystr) : cp_exit + pystr :=
  match sa_api_url args with
  | Some url => inr url
  | None => match get_api_url_from_jwt api_key with inl _ => inl Fatal | inr url => inr url end
  end.

(** the setup, with the configuration that is read at the start, and the one
    that is read after an enrolment, if there is one *)
Definition setup (loads : pystr -> option Config) (other_str : pyobj -> pystr) (args : server_args) (argv : list pystr)
    (config : Config) : M (option (list Z)) cp_exit (plan * pystr) :=
  let api_key := or_config other_str (sa_api_key args) (u"token") config in
  match api_key with
  | [] => raise Fatal
  | _ =>
      match api_url_of args api_key with
      | inl e => raise e
      | inr url =>
          let api_url := rstrip_char 47 url in
          let nats_url := if substr_in (u"localhost") api_url then u"nats://localhost:4222" else sa_nats_url args in
          let port := if 0 <? sa_health_port args then sa_health_port args else sa_port args in
          r ← catch (m ← resolve_ingest_mode loads other_str (sa_mode args) config; mret m) (fun _ => raise Panic);
          match r with
          | None => raise Panic
          | Some mode =>
              let base := collect_command_args (drop 1 argv) ++
                [u"--port"; str_of_Z port; u"--data-dir"; sa_data_dir args; u"--server"; nats_url; u"--api-url"; api_url;
                 u"--mode"; mode_value mode] in
              mret (mk_plan (or_config other_str (sa_eds_id args) (u"server_id") config) api_key api_url nats_url
                      (sa_keep_logs args || get_bool (u"keep_logs") false config) (sa_no_restart args) (sa_data_dir args) base,
                    or_config other_str (sa_url args) (u"url") config)
          end
      end
  end.

(** *** Sessions *)

Inductive start_result : Type := AlreadyRunning | StartFailed | Started (session_id : pystr) (has_credential : bool).
Inductive runner_result : Type := RunnerUp | RunnerNatsError | RunnerOtherError.
Record fork_result := mk_fork { fr_exit_code : Z; fr_last_error_lines : pystr }.

(** what the outside answers in one turn of the loop *)
Record round := mk_round {
  rd_start : start_result;
  rd_creds_ok : bool;                        (** the session's directory and its credentials file were written *)
  rd_runner : runner_result;
  rd_wait : option (option pystr);           (** of an unconfigured server: [None]: the signal came; else configured, with a new url? *)
  rd_fork : option fork_result;              (** [None]: the worker could not be started *)
  rd_logs : option (list pystr);             (** the files of the logs directory; [None]: an OSError *)
  rd_upload : option pystr;                  (** the path of the uploaded log; [None]: the upload raised *)
  rd_new_url : option pystr;                 (** a [configure] while the worker ran *)
  rd_stop_ok : bool                          (** [runner.stop] returned in time; stopped once, it does nothing more *)
}.

(** the effects, in order *)
Inductive cp_event : Type :=
| EStart (driver_url : pystr)
| ECreds (file : pystr)
| ERunner (creds_file : pystr)
| EWorker (args : list pystr)
| EExit (code : Z)                  (** the worker ended *)
| EEnd (session_id : pystr) (errored : bool) (log_file : pystr)
| EReport (path session_id : pystr)
| ESleep (seconds : Z)
| ERemoveDir (dir : pystr)
| EStopRunner.

Record CP := mk_cp {
  cp_failures : Z;
  cp_configured : bool;
  cp_driver_url : pystr;
  cp_fork_running : bool;
  cp_creds_file : option pystr;    (** [current_creds_file] *)
  cp_files : list pystr;           (** the credentials files on disk *)
  cp_trace : list cp_event
}.

Definition fresh_cp (driver_url : pystr) : CP :=
  mk_cp 0 (match driver_url with [] => false | _ => true end) driver_url false None [] [].

Definition cp_set_failures n (s : CP) : CP :=
  mk_cp n (cp_configured s) (cp_driver_url s) (cp_fork_running s) (cp_creds_file s) (cp_files s) (cp_trace s).
Definition cp_set_url (u : option pystr) (s : CP) : CP :=
  mk_cp (cp_failures s) (cp_configured s) (default (cp_driver_url s) u) (cp_fork_running s) (cp_creds_file s) (cp_files s) (cp_trace s).
Definition cp_set_configured (s : CP) : CP :=
  mk_cp (cp_failures s) true (cp_driver_url s) (cp_fork_running s) (cp_creds_file s) (cp_files s) (cp_trace s).
Definition cp_set_running b (s : CP) : CP :=
  mk_cp (cp_failures s) (cp_configured s) (cp_driver_url s) b (cp_creds_file s) (cp_files s) (cp_trace s).
Definition cp_add_creds (file : pystr) (s : CP) : CP :=
  mk_cp (cp_failures s) (cp_configured s) (cp_driver_url s) (cp_fork_running s) (Some file)
    (if str_in file (cp_files s) then cp_files s else cp_files s ++ [file]) (cp_trace s ++ [ECreds file]).
Definition cp_remove (file : pystr) (s : CP) : CP :=
  mk_cp (cp_failures s) (cp_configured s) (cp_driver_url s) (cp_fork_running s) (cp_creds_file s)
    (filter (fun f => f <> file) (cp_files s)) (cp_trace s).
Definition cp_log (e : cp_event) (s : CP) : CP :=
  mk_cp (cp_failures s) (cp_configured s) (cp_driver_url s) (cp_fork_running s) (cp_creds_file s) (cp_files s) (cp_trace s ++ [e]).

Abbreviation CPM A := (M CP cp_exit A).
Definition log (e : cp_event) : CPM unit := modify (cp_log e).
Definition add_failure : CPM unit := modify (fun s => cp_set_failures (cp_failures s + 1) s).

(** [try: m finally: f] *)
Definition finally {A} (m : CPM A) (f : CPM unit) : CPM A :=
  fun s => let '(r, s1) := m s in
    match f s1 with (inl e, s2) => (inl e, s2) | (inr _, s2) => (r, s2) end.

Section sessions.
Context (pl : plan).

Definition session_dir (session_id : pystr) : pystr := path_join (pl_data_dir pl) [session_id].
Definition creds_file (session_id : pystr) : pystr := path_join (session_dir session_id) [u"nats.creds"].

Definition stop_runner (r : round) : CPM unit :=
  _ ← log EStopRunner;
  if rd_stop_ok r then mret tt else raise Panic.

(** eds/cmd/session.py: the last of the logs *)
Definition get_remaining_log (files : list pystr) : pystr :=
  default [] (last (filter (fun f => endswith (u".log") f = true) (sorted_strs files))).

Definition errored (code : Z) : bool := negb (code =? EXIT_SUCCESS) && negb (code =? EXIT_RESTART).

Definition end_session (r : round) (session_id : pystr) (code : Z) : CPM unit :=
  let log_file := match rd_logs r with None => [] | Some files => get_remaining_log files end in
  _ ← log (EEnd session_id (errored code) log_file);
  match rd_upload r with
  | None => mret tt
  | Some path => log (EReport path session_id)
  end.

(** arguments the worker does not understand *)
Definition usage_error (res : fork_result) : bool :=
  (fr_exit_code res =? EXIT_INCORRECT_USAGE) ||
  ((fr_exit_code res =? 1) &&
   (substr_in (u"error: required flag") (fr_last_error_lines res) || substr_in (u"Global Flags") (fr_last_error_lines res))).

Definition worker_ended (r : round) (session_id : pystr) (res : fork_result) : CPM unit :=
  let ec := fr_exit_code res in
  _ ← log (EExit ec);
  _ ← modify (cp_set_running false);
  if pl_no_restart pl then raise (Code ec)
  else
    _ ← (if negb (ec =? EXIT_INCORRECT_USAGE) then end_session r session_id ec else mret tt);
    if ec =? EXIT_NATS_DISCONNECTED then log (ESleep 5)
    else if ec =? EXIT_SUCCESS then
      _ ← (if pl_keep_logs pl then mret tt
           else _ ← modify (cp_remove (creds_file session_id)); log (ERemoveDir (session_dir session_id)));
      raise (Code EXIT_SUCCESS)
    else if usage_error res then raise (Code ec)
    else if ec =? EXIT_RESTART then mret tt
    else add_failure.

Definition fork_args (session_id driver_url : pystr) : list pystr :=
  pl_base_args pl ++ [u"--creds"; creds_file session_id; u"--logs-dir"; path_join (session_dir session_id) [u"logs"];
                      u"--url"; driver_url; u"--server"; pl_nats_url pl].

Definition run_worker (r : round) (session_id : pystr) : CPM unit :=
  url ← gets cp_driver_url;
  finally
    (_ ← modify (cp_set_running true);
     _ ← log (EWorker (fork_args session_id url));
     _ ← modify (cp_set_url (rd_new_url r));
     match rd_fork r with
     | None => add_failure
     | Some res => worker_ended r session_id res
     end)
    (_ ← modify (cp_set_running false); stop_runner r).

(** the remote control is up, or is stopped because it failed for another reason
    than the network *)
Definition supervise (r : round) (session_id : pystr) : CPM unit :=
  configured ← gets cp_configured;
  if configured : bool then run_worker r session_id
  else match rd_wait r with
       | None => _ ← stop_runner r; raise (Code EXIT_SUCCESS)
       | Some url => _ ← modify (cp_set_url url); _ ← modify cp_set_configured; run_worker r session_id
       end.

(** one turn of the loop *)
Definition session (r : round) : CPM unit :=
  url ← gets cp_driver_url;
  _ ← log (EStart url);
  match rd_start r with
  | AlreadyRunning => log (ESleep 5)
  | StartFailed => raise Fatal
  | Started session_id has_credential =>
      if negb has_credential then raise Fatal
      else if negb (rd_creds_ok r) then raise Panic
      else
        _ ← modify (cp_add_creds (creds_file session_id));
        _ ← log (ERunner (creds_file session_id));
        match rd_runner r with
        | RunnerNatsError => _ ← stop_runner r; log (ESleep 5)
        | RunnerOtherError => _ ← stop_runner r; supervise r session_id
        | RunnerUp => supervise r session_id
        end
  end.

(** [while failures < MAX_FAILURES]; rounds that are used up mean that the loop
    still runs *)
Fixpoint sessions (rounds : list round) : CPM unit :=
  failures ← gets cp_failures;
  if failures <? MAX_FAILURES then
    match rounds with
    | [] => mret tt
    | r :: rest => _ ← session r; sessions rest
    end
  else raise Fatal.

(** the last credentials file is removed, whatever ended the loop *)
Definition scrub (s : CP) : CP := match cp_creds_file s with Some f => cp_remove f s | None => s end.

(** [None]: still running *)
Definition run_sessions (rounds : list round) (s : CP) : option Z * CP :=
  match sessions rounds s with
  | (inr _, s1) => (None, s1)
  | (inl e, s1) => (Some (exit_code e), scrub s1)
  end.
End sessions.

(** *** What a run does for its sessions *)

(** the specification: a monitor of the effects of the turns of the loop.  The
    remote control and the worker get the credentials of the session of their
    turn; a session whose worker ended is closed with the service before the
    remote control is stopped, with the error flag of the exit code, unless the
    code is that of an incorrect usage or the worker is not to be restarted.  The
    monitor forgets a session that a turn leaves open with the service; which
    ones those are the ledger below says. *)
Inductive stage : Type :=
| Idle
| Asked
| Holding (session_id : pystr)
| Controlled (session_id : pystr)
| Working (session_id : pystr)
| Ended (session_id : pystr) (code : Z)     (** the session is still to be closed *)
| Closed (session_id : pystr) (code : Z)
| Down (session_id : pystr).                (** the remote control was stopped, before a worker *)

Section monitor.
Context (pl : plan).

(** must the session of a worker that ended with a code be closed? *)
Definition to_close (code : Z) : bool := negb (pl_no_restart pl) && negb (code =? EXIT_INCORRECT_USAGE).

Definition watch (m : stage) (e : cp_event) : option stage :=
  match m, e with
  | Idle, EStart _ => Some Asked
  | Asked, ESleep _ => Some Idle
  | Asked, ECreds file => Some (Holding file)
  | Holding file, ERunner file' => if str_eqb file' file then Some (Controlled file) else None
  | Controlled file, EWorker args | Down file, EWorker args => if str_in file args then Some (Working file) else None
  | Controlled file, EStopRunner | Down file, EStopRunner => Some (Down file)
  | Working file, EExit code => Some (if to_close code then Ended file code else Closed file code)
  | Working _, EStopRunner => Some Idle
  | Ended file code, EEnd session_id failed _ =>
      if str_eqb (creds_file pl session_id) file && eqb failed (negb ((code =? 0) || (code =? 4))) then Some (Closed file code) else None
  | Closed file code, EReport _ session_id => if str_eqb (creds_file pl session_id) file && to_close code then Some (Closed file code) else None
  | Closed file code, ESleep _ => if code =? EXIT_NATS_DISCONNECTED then Some (Closed file code) else None
  | Closed file code, ERemoveDir dir => if (code =? EXIT_SUCCESS) && negb (pl_keep_logs pl) then Some (Closed file code) else None
  | Closed _ _, EStopRunner => Some Idle
  | Down _, ESleep _ => Some Idle
  | _, _ => None
  end.

Definition watch_all (l : list cp_event) : option stage := foldl (fun m e => m ≫= (fun m => watch m e)) (Some Idle) l.

Definition watched (m : stage) (s : CP) : Prop := watch_all (cp_trace s) = Some m.

(** the remote control is not left up *)
Definition at_rest (m : stage) : bool := match m with Idle | Asked | Holding _ | Down _ => true | _ => false end.
Definition over (_ : cp_exit) (s : CP) : Prop := exists m, watched m s /\ at_rest m = true.

Lemma watch_log m e m' X : watch m e = Some m' -> triple (watched m) (log e) (fun _ => watched m') X.
Proof.
  intros H. apply triple_modify. intros s Hs. unfold watched, watch_all in *. simpl. rewrite foldl_app, Hs. done.
Qed.

Lemma watch_keep m (f : CP -> CP) (X : cp_exit -> CP -> Prop) : (forall s, cp_trace (f s) = cp_trace s) -> triple (watched m) (modify f) (fun _ => watched m) X.
Proof. intros H. apply triple_modify. intros s Hs. unfold watched. by rewrite H. Qed.

Lemma triple_finally {A} P (m : CPM A) (f : CPM unit) Q R X :
  triple P m (fun _ => R) (fun _ => R) -> triple R f (fun _ => Q) X ->
  triple P (finally m f) (fun _ => Q) (fun e s => Q s \/ X e s).
Proof.
  intros Hm Hf s Hs. unfold finally. specialize (Hm s Hs). destruct (m s) as [[e|a] s1]; specialize (Hf s1 Hm);
    destruct (f s1) as [[e'|[]] s2]; auto.
Qed.

(** the runner can be stopped *)
Definition stoppable (s : CP) : Prop := exists m, watched m s /\ watch m EStopRunner = Some Idle.

Lemma stoppable_intro m s : watch m EStopRunner = Some Idle -> watched m s -> stoppable s.
Proof. intros H Hs. by exists m. Qed.

Lemma stop_runner_watched r : triple stoppable (stop_runner r) (fun _ => watched Idle) (fun _ => watched Idle).
Proof.
  intros s (m & Hm & Hw). unfold stop_runner. pose proof (watch_log m EStopRunner Idle (fun _ => watched Idle) Hw s Hm) as H.
  unfold mbind, M_bind. unfold log, modify in *. destruct (rd_stop_ok r); exact H.
Qed.

Lemma str_eqb_refl s : str_eqb s s = true.
Proof. by apply bool_decide_eq_true_2. Qed.

Lemma end_session_watched r id code X : to_close code = true ->
  triple (watched (Ended (creds_file pl id) code)) (end_session r id code) (fun _ => watched (Closed (creds_file pl id) code)) X.
Proof.
  intros Hc. unfold end_session. eapply triple_bind.
  - apply watch_log. simpl. unfold errored. by rewrite str_eqb_refl, negb_orb, eqb_reflx.
  - intros []. destruct (rd_upload r); [|by apply triple_ret]. apply watch_log. simpl. by rewrite str_eqb_refl, Hc.
Qed.

Lemma worker_ended_watched r id res :
  triple (watched (Working (creds_file pl id))) (worker_ended pl r id res) (fun _ => stoppable) (fun _ => stoppable).
Proof.
  set (c := creds_file pl id). set (ec := fr_exit_code res).
  assert (forall e : cp_exit, triple (watched (Closed c ec)) (raise e) (fun _ : unit => stoppable) (fun _ => stoppable)) as Hraise.
  { intros e. apply triple_raise. intros s. by apply stoppable_intro. }
  unfold worker_ended. fold ec. eapply triple_bind; [by apply watch_log|]. intros []. eapply triple_bind; [by apply watch_keep|]. intros [].
  destruct (pl_no_restart pl) eqn:En.
  { unfold to_close. rewrite En. apply Hraise. }
  eapply (triple_bind _ _ _ (fun _ => watched (Closed c ec))).
  { unfold to_close. rewrite En. simpl. destruct (ec =? EXIT_INCORRECT_USAGE) eqn:E; simpl; [by apply triple_ret|].
    apply end_session_watched. unfold to_close. by rewrite En, E. }
  intros []. assert (forall Q : CP -> Prop, triple (watched (Closed c ec)) (mret tt : CPM unit) (fun _ => stoppable) (fun _ => Q)) as Hret.
  { intros Q. apply triple_ret. intros s. by apply stoppable_intro. }
  destruct (ec =? EXIT_NATS_DISCONNECTED) eqn:E5.
  { eapply triple_post; [apply (watch_log _ _ (Closed c ec) (fun _ _ => False)); simpl; by rewrite E5| |done]. intros [] s. by apply stoppable_intro. }
  destruct (ec =? EXIT_SUCCESS) eqn:E0.
  { eapply (triple_bind _ _ _ (fun _ => watched (Closed c ec))); [|by intros []].
    destruct (pl_keep_logs pl) eqn:Ek; [by apply triple_ret|]. eapply triple_bind; [by apply watch_keep|]. intros [].
    apply watch_log. simpl. by rewrite E0, Ek. }
  destruct (usage_error res); [done|]. destruct (ec =? EXIT_RESTART); [done|].
  apply triple_modify. intros s Hs. by apply (stoppable_intro (Closed c ec)).
Qed.

(** a worker may start with the credentials of the session *)
Definition serving (m : stage) (id : pystr) : Prop := m = Controlled (creds_file pl id) \/ m = Down (creds_file pl id).

Lemma run_worker_watched m0 r id : serving m0 id ->
  triple (watched m0) (run_worker pl r id) (fun _ => watched Idle) over.
Proof.
  intros Hm0. unfold run_worker. apply triple_gets_bind. intros url. eapply triple_pre; [|by intros s [H _]].
  eapply triple_post; [apply (triple_finally _ _ _ (watched Idle) stoppable (fun _ => watched Idle))|done|].
  - eapply triple_bind; [by apply watch_keep|]. intros []. eapply triple_bind.
    { apply (watch_log _ _ (Working (creds_file pl id))).
      assert (str_in (creds_file pl id) (fork_args pl id url) = true) as Hin.
      { apply bool_decide_eq_true_2. unfold fork_args. rewrite elem_of_app, !elem_of_cons. auto. }
      destruct Hm0 as [->| ->]; simpl; by rewrite Hin. }
    intros []. eapply triple_bind; [by apply watch_keep|]. intros []. destruct (rd_fork r) as [res|]; [apply worker_ended_watched|].
    apply triple_modify. intros s Hs. by apply (stoppable_intro (Working (creds_file pl id))).
  - apply (triple_bind _ _ _ (fun _ => stoppable)); [|intros []; apply stop_runner_watched]. apply triple_modify. by intros s (m & Hm & Hw); exists m.
  - intros e s [H|H]; by exists Idle.
Qed.

Lemma session_watched r : triple (watched Idle) (session pl r) (fun _ => watched Idle) over.
Proof.
  assert (forall m (e : cp_exit), at_rest m = true -> triple (watched m) (raise e) (fun _ : unit => watched Idle) over) as Hraise.
  { intros m e Hm. apply triple_raise. intros s Hs. by exists m. }
  unfold session. apply triple_gets_bind. intros url. eapply triple_pre; [|by intros s [H _]].
  eapply triple_bind; [by apply watch_log|]. intros []. destruct (rd_start r) as [| |id has]; [by apply watch_log|by apply Hraise|].
  destruct has; [|by apply Hraise]. simpl. destruct (rd_creds_ok r); [|by apply Hraise]. simpl.
  eapply (triple_bind _ _ _ (fun _ => watched (Holding (creds_file pl id)))).
  { apply triple_modify. intros s Hs. unfold watched, watch_all in *. simpl. by rewrite foldl_app, Hs. }
  intros []. eapply triple_bind; [apply (watch_log _ _ (Controlled (creds_file pl id))); simpl; by rewrite str_eqb_refl|]. intros [].
  assert (forall m, serving m id -> triple (watched m) (stop_runner r) (fun _ => watched (Down (creds_file pl id))) over) as Hstop.
  { intros m Hm. unfold stop_runner. eapply triple_bind; [apply watch_log; by destruct Hm as [->| ->]|]. intros [].
    destruct (rd_stop_ok r); [by apply triple_ret|]. apply triple_raise. intros s Hs. by exists (Down (creds_file pl id)). }
  assert (forall m, serving m id -> triple (watched m) (supervise pl r id) (fun _ => watched Idle) over) as Hsup.
  { intros m Hm. unfold supervise. apply triple_gets_bind. intros configured. eapply triple_pre; [|by intros s [H _]].
    destruct configured; [by apply run_worker_watched|]. destruct (rd_wait r) as [u|].
    - eapply triple_bind; [by apply watch_keep|]. intros []. eapply triple_bind; [by apply watch_keep|]. intros []. by apply run_worker_watched.
    - eapply triple_bind; [by apply Hstop|]. intros []. apply triple_raise. intros s Hs. by exists (Down (creds_file pl id)). }
  destruct (rd_runner r); [by apply Hsup; left| |]; (eapply triple_bind; [by apply Hstop; left|]); intros [];
    [by apply watch_log|by apply Hsup; right].
Qed.

Lemma sessions_watched rounds : triple (watched Idle) (sessions pl rounds) (fun _ => watched Idle) over.
Proof.
  assert (forall Q : unit -> CP -> Prop, triple (watched Idle) (raise Fatal) Q over) as Hraise.
  { intros Q. apply triple_raise. intros s Hs. by exists Idle. }
  induction rounds as [|r rounds IH]; cbn [sessions]; apply triple_gets_bind; intros failures; (eapply triple_pre; [|by intros s [H _]]);
    (destruct (failures <? MAX_FAILURES); [|done]).
  - by apply triple_ret.
  - eapply triple_bind; [apply session_watched|]. by intros [].
Qed.
End monitor.

(** *** How a run ends *)

Section ends.
Context (pl : plan).

(** does the round get as far as the worker, when the server is configured? *)
Definition reached (r : round) : bool :=
  match rd_start r with
  | Started _ has_credential => has_credential && rd_creds_ok r && match rd_runner r with RunnerUp => true | RunnerNatsError => false | RunnerOtherError => rd_stop_ok r end
  | _ => false
  end.

(** the rounds that count as failures, among those after which the loop goes on *)
Definition failed (r : round) : bool :=
  reached r &&
  match rd_fork r with
  | None => true
  | Some res => negb (fr_exit_code res =? EXIT_RESTART) && negb (fr_exit_code res =? EXIT_NATS_DISCONNECTED)
  end.

(** a round that ends the run, with the exit code *)
Inductive ends_with (r : round) : Z -> Prop :=
| ends_start : rd_start r = StartFailed -> ends_with r 1
| ends_credential id : rd_start r = Started id false -> ends_with r 1
| ends_creds : rd_creds_ok r = false -> ends_with r EXIT_PANIC
| ends_stop : rd_stop_ok r = false -> ends_with r EXIT_PANIC
| ends_waiting : rd_wait r = None -> ends_with r EXIT_SUCCESS
| ends_worker res : rd_fork r = Some res -> pl_no_restart pl = true \/ fr_exit_code res = EXIT_SUCCESS \/ usage_error res = true ->
    ends_with r (fr_exit_code res).
#[local] Hint Constructors ends_with : core.

(** the failures a computation adds, or the code it ends the run with *)
Definition adds (n : Z) (r : round) (m : CPM unit) : Prop :=
  forall s, match m s with
            | (inr _, s') => cp_failures s' = cp_failures s + n
            | (inl e, _) => ends_with r (exit_code e)
            end.

Lemma adds_bind n k r (m : CPM unit) f : adds n r m -> adds k r (f tt) -> adds (n + k) r (m ≫= f).
Proof.
  intros Hm Hf s. unfold mbind, M_bind. specialize (Hm s). destruct (m s) as [[e|[]] s1]; [done|].
  specialize (Hf s1). destruct (f tt s1) as [[e|[]] s2]; [done|]. lia.
Qed.

Lemma adds_modify r f : (forall s, cp_failures (f s) = cp_failures s) -> adds 0 r (modify f).
Proof. intros H s. simpl. rewrite H. lia. Qed.

Lemma adds_raise n r e : ends_with r (exit_code e) -> adds n r (raise e).
Proof. by intros H s. Qed.

Lemma adds_ret r : adds 0 r (mret tt).
Proof. intros s. simpl. lia. Qed.

Lemma adds_gets {A} n r (f : CP -> A) (k : A -> CPM unit) : (forall a, adds n r (k a)) -> adds n r (gets f ≫= k).
Proof. intros H s. apply (H (f s) s). Qed.

Lemma adds_finally n r (m f : CPM unit) : adds n r m -> adds 0 r f -> adds n r (finally m f).
Proof.
  intros Hm Hf s. unfold finally. specialize (Hm s). destruct (m s) as [[e|[]] s1]; specialize (Hf s1);
    destruct (f s1) as [[e'|[]] s2]; try done. lia.
Qed.

Lemma adds_stop r : adds 0 r (stop_runner r).
Proof.
  apply (adds_bind 0 0); [by apply adds_modify|]. destruct (rd_stop_ok r) eqn:E; [apply adds_ret|by apply adds_raise, ends_stop].
Qed.

Lemma adds_worker_ended r id res : rd_fork r = Some res ->
  adds (Z.b2z (negb (fr_exit_code res =? EXIT_RESTART) && negb (fr_exit_code res =? EXIT_NATS_DISCONNECTED))) r (worker_ended pl r id res).
Proof.
  intros Hr. unfold worker_ended. set (n := Z.b2z _). apply (adds_bind 0 n); [by apply adds_modify|].
  apply (adds_bind 0 n); [by apply adds_modify|]. destruct (pl_no_restart pl) eqn:En; [apply adds_raise; eapply ends_worker; eauto|].
  apply (adds_bind 0 n).
  { case_match; [|apply adds_ret]. apply (adds_bind 0 0); [by apply adds_modify|]. destruct (rd_upload r); [by apply adds_modify|apply adds_ret]. }
  subst n. unfold usage_error in *. destruct (Z.eqb_spec (fr_exit_code res) EXIT_NATS_DISCONNECTED) as [E5|E5].
  { rewrite andb_false_r. by apply adds_modify. }
  rewrite andb_true_r. destruct (Z.eqb_spec (fr_exit_code res) EXIT_SUCCESS) as [E0|E0].
  { apply (adds_bind 0); [destruct (pl_keep_logs pl); [apply adds_ret|]; apply (adds_bind 0 0); by apply adds_modify|].
    apply adds_raise. simpl. rewrite <- E0. eapply ends_worker; eauto. }
  fold (usage_error res). destruct (usage_error res) eqn:Eu; [apply adds_raise; eapply ends_worker; eauto|].
  destruct (Z.eqb_spec (fr_exit_code res) EXIT_RESTART); [apply adds_ret|]. intros s. done.
Qed.

Lemma adds_run_worker r id : reached r = true -> adds (Z.b2z (failed r)) r (run_worker pl r id).
Proof.
  intros Hr. unfold run_worker. apply adds_gets. intros url. apply adds_finally.
  - set (n := Z.b2z _). do 3 (apply (adds_bind 0 n); [by apply adds_modify|]). subst n. unfold failed. rewrite Hr. simpl.
    destruct (rd_fork r) as [res|] eqn:Ef; [by apply adds_worker_ended|]. intros s. done.
  - apply (adds_bind 0 0); [by apply adds_modify|apply adds_stop].
Qed.

Lemma adds_session r : adds (Z.b2z (failed r)) r (session pl r).
Proof.
  unfold session. apply adds_gets. intros url. set (n := Z.b2z _). apply (adds_bind 0 n); [by apply adds_modify|]. subst n.
  destruct (rd_start r) as [| |id has] eqn:Es.
  - unfold failed, reached. rewrite Es. by apply adds_modify.
  - by apply adds_raise, ends_start.
  - destruct has; [|apply adds_raise; by eapply ends_credential]. simpl. destruct (rd_creds_ok r) eqn:Ec; [|by apply adds_raise, ends_creds].
    simpl. set (n := Z.b2z _). do 2 (apply (adds_bind 0 n); [by apply adds_modify|]). subst n.
    assert (reached r = true -> adds (Z.b2z (failed r)) r (supervise pl r id)) as Hsup.
    { intros Hr. unfold supervise. apply adds_gets. intros [|]; [by apply adds_run_worker|]. destruct (rd_wait r) eqn:Ew.
      - set (n := Z.b2z _). do 2 (apply (adds_bind 0 n); [by apply adds_modify|]). by apply adds_run_worker.
      - apply (adds_bind 0); [apply adds_stop|]. by apply adds_raise, ends_waiting. }
    destruct (rd_runner r) eqn:Er.
    + apply Hsup. unfold reached. by rewrite Es, Ec, Er.
    + unfold failed, reached. rewrite Es, Er, !andb_false_r. apply (adds_bind 0 0); [apply adds_stop|by apply adds_modify].
    + destruct (rd_stop_ok r) eqn:Eo.
      * apply (adds_bind 0); [apply adds_stop|]. apply Hsup. unfold reached. by rewrite Es, Ec, Er, Eo.
      * intros s. unfold stop_runner, mbind, M_bind. rewrite Eo. by apply ends_stop.
Qed.

(** the failures of some rounds *)
Definition failures (rounds : list round) : Z := foldr (fun r n => Z.b2z (failed r) + n) 0 rounds.

Lemma sessions_end rounds s :
  match sessions pl rounds s with
  | (inr _, s') => cp_failures s' = cp_failures s + failures rounds /\ cp_failures s' < MAX_FAILURES
  | (inl e, _) => exists l rest, rounds = l ++ rest /\
      ((exit_code e = 1 /\ MAX_FAILURES <= cp_failures s + failures l) \/
       exists r rest', rest = r :: rest' /\ cp_failures s + failures l < MAX_FAILURES /\ ends_with r (exit_code e))
  end.
Proof.
  revert s. induction rounds as [|r rounds IH]; intros s; cbn [sessions]; unfold mbind at 1, M_bind at 1, gets;
    destruct (Z.ltb_spec (cp_failures s) MAX_FAILURES) as [Hf|Hf].
  - simpl. lia.
  - exists [], []. split; [done|]. left. simpl. split; [done|lia].
  - unfold mbind, M_bind. pose proof (adds_session r s) as H. destruct (session pl r s) as [[e|[]] s1].
    + exists [], (r :: rounds). split; [done|]. right. exists r, rounds. split_and!; [done|simpl; lia|done].
    + specialize (IH s1). destruct (sessions pl rounds s1) as [[e|[]] s2].
      * destruct IH as (l & rest & -> & Hx). exists (r :: l), rest. split; [done|]. simpl. destruct Hx as [[? ?]|(r' & rest' & -> & ? & ?)].
        -- left. split; [done|lia].
        -- right. exists r', rest'. split_and!; [done|lia|done].
      * simpl. lia.
  - exists [], (r :: rounds). split; [done|]. left. simpl. split; [done|lia].
Qed.

(** *** Which sessions are closed with the service *)

Inductive line : Type := TurnStarts | SessionEnds (session_id : pystr) (errored : bool).

Definition line_of (e : cp_event) : option line :=
  match e with EStart _ => Some TurnStarts | EEnd id failed _ => Some (SessionEnds id failed) | _ => None end.
Definition ledger (t : list cp_event) : list line := omap line_of t.

(** the specification: a turn closes its session when its worker was started and
    ended with a code to close; it leaves open the session of a remote control
    that met an error of the network or that could not be stopped after another,
    of a worker that could not be started, that
    ended with the code of an incorrect usage or is not to be restarted, and of a
    server that is stopped before it is configured *)
Definition closing (configured : bool) (r : round) : list line :=
  if reached r && (configured || match rd_wait r with Some _ => true | None => false end) then
    match rd_start r, rd_fork r with
    | Started id _, Some res =>
        if to_close pl (fr_exit_code res)
        then [SessionEnds id (negb ((fr_exit_code res =? EXIT_SUCCESS) || (fr_exit_code res =? EXIT_RESTART)))]
        else []
    | _, _ => []
    end
  else [].

Fixpoint expected (configured : bool) (rounds : list round) : list line :=
  match rounds with
  | [] => []
  | r :: rest => TurnStarts :: closing configured r ++ expected (configured || reached r) rest
  end.

(** a computation that adds [l] to the ledger, whether it returns or raises *)
Definition books (l : list line) (m : CPM unit) : Prop :=
  forall s, ledger (cp_trace (m s).2) = ledger (cp_trace s) ++ l /\ cp_configured (m s).2 = cp_configured s.

Lemma ledger_app t t' : ledger (t ++ t') = ledger t ++ ledger t'.
Proof. apply omap_app. Qed.

Lemma books_ret : books [] (mret tt).
Proof. intros s. by rewrite app_nil_r. Qed.
Lemma books_raise e : books [] (raise e).
Proof. intros s. by rewrite app_nil_r. Qed.
Lemma books_modify f : (forall s, cp_trace (f s) = cp_trace s /\ cp_configured (f s) = cp_configured s) -> books [] (modify f).
Proof. intros H s. simpl. destruct (H s) as [-> ->]. by rewrite app_nil_r. Qed.
Lemma books_log e : books (ledger [e]) (log e).
Proof. intros s. simpl. by rewrite ledger_app. Qed.

(** [l] is added before the rest, which adds nothing *)
Lemma books_then l (m : CPM unit) f : books l m -> books [] (f tt) -> books l (m ≫= f).
Proof.
  intros Hm Hf s. unfold mbind, M_bind. specialize (Hm s). destruct (m s) as [[e|[]] s1]; [exact Hm|].
  destruct (Hf s1) as [H1 H2], Hm as [H3 H4]. simpl in *. rewrite H1, H2, H3, H4. by rewrite app_nil_r.
Qed.

(** [m], which does not raise, adds nothing *)
Lemma books_after l (g : CP -> CP) (f : unit -> CPM unit) : books [] (modify g) -> books l (f tt) -> books l (modify g ≫= f).
Proof.
  intros Hm Hf s. destruct (Hm s) as [H1 H2], (Hf (g s)) as [H3 H4]. simpl in *.
  unfold mbind, M_bind, modify. rewrite H3, H4, H1, H2. by rewrite app_nil_r.
Qed.

Lemma books_gets {A} l (f : CP -> A) (k : A -> CPM unit) : (forall a, books l (k a)) -> books l (gets f ≫= k).
Proof. intros H s. apply (H (f s) s). Qed.

Lemma gets_run {A} (f : CP -> A) (k : A -> CPM unit) s : (gets f ≫= k) s = k (f s) s.
Proof. done. Qed.

Lemma books_finally l (m f : CPM unit) : books l m -> books [] f -> books l (finally m f).
Proof.
  intros Hm Hf s. unfold finally. specialize (Hm s). destruct (m s) as [x s1], Hm as [H1 H2], (Hf s1) as [H3 H4]. simpl in *.
  rewrite app_nil_r in H3. destruct (f s1) as [[e'|[]] s2]; simpl in *; by rewrite H3, H4.
Qed.

Lemma books_stop r : books [] (stop_runner r).
Proof. unfold stop_runner. apply books_then; [exact (books_log EStopRunner)|]. destruct (rd_stop_ok r); [apply books_ret|apply books_raise]. Qed.

Lemma books_end r id code : books [SessionEnds id (errored code)] (end_session r id code).
Proof.
  unfold end_session. apply books_then; [by apply (books_log (EEnd _ _ _))|].
  destruct (rd_upload r); [by apply (books_log (EReport _ _))|apply books_ret].
Qed.

#[local] Hint Resolve books_ret books_raise books_stop : core.

Lemma books_worker_ended r id res :
  books (if to_close pl (fr_exit_code res) then [SessionEnds id (errored (fr_exit_code res))] else []) (worker_ended pl r id res).
Proof.
  unfold worker_ended, to_close. apply books_after; [by apply (books_log (EExit _))|]. apply books_after; [by apply books_modify|].
  destruct (pl_no_restart pl); [done|]. apply books_then.
  { simpl. destruct (_ =? EXIT_INCORRECT_USAGE); [apply books_ret|apply books_end]. }
  destruct (_ =? EXIT_NATS_DISCONNECTED); [by apply (books_log (ESleep _))|].
  destruct (_ =? EXIT_SUCCESS).
  { apply books_then; [|done]. destruct (pl_keep_logs pl); [done|]. apply books_then; [by apply books_modify|by apply (books_log (ERemoveDir _))]. }
  destruct (usage_error res); [done|]. destruct (_ =? EXIT_RESTART); [done|]. by apply books_modify.
Qed.

Lemma books_run_worker r id :
  books (match rd_fork r with
         | Some res => if to_close pl (fr_exit_code res) then [SessionEnds id (errored (fr_exit_code res))] else []
         | None => [] end) (run_worker pl r id).
Proof.
  unfold run_worker. apply books_gets. intros url. apply books_finally.
  - do 3 (apply books_after; [first [by apply books_modify | by apply (books_log (EWorker _))]|]).
    destruct (rd_fork r) as [res|]; [apply books_worker_ended|by apply books_modify].
  - apply books_then; [by apply books_modify|done].
Qed.

Lemma supervise_books r id s has : rd_start r = Started id has -> reached r = true ->
  ledger (cp_trace (supervise pl r id s).2) = ledger (cp_trace s) ++ closing (cp_configured s) r /\
  ((supervise pl r id s).1 = inr tt -> cp_configured (supervise pl r id s).2 = true).
Proof.
  intros Es Hr. unfold supervise, closing. rewrite Hr, Es, gets_run.
  assert (forall res, errored (fr_exit_code res) = negb ((fr_exit_code res =? EXIT_SUCCESS) || (fr_exit_code res =? EXIT_RESTART))) as He.
  { intros res. unfold errored. by rewrite negb_orb. }
  destruct (cp_configured s) eqn:Ec; simpl.
  - destruct (books_run_worker r id s) as [H1 H2]. rewrite H1. split; [|intros _; exact (eq_trans H2 Ec)]. destruct (rd_fork r); [|done]. by rewrite He.
  - destruct (rd_wait r) as [u|]; simpl.
    + set (s2 := cp_set_configured (cp_set_url u s)). destruct (books_run_worker r id s2) as [H1 H2].
      assert ((modify (cp_set_url u) ≫= fun _ => modify cp_set_configured ≫= fun _ => run_worker pl r id) s = run_worker pl r id s2) as -> by done.
      rewrite H1. split; [|intros _; exact H2]. destruct (rd_fork r); [|done]. by rewrite He.
    + destruct (books_then [] (stop_runner r) (fun _ => raise (Code EXIT_SUCCESS)) (books_stop r) (books_raise _) s) as [H1 _].
      rewrite H1. split; [done|]. unfold mbind, M_bind. by destruct (stop_runner r s) as [[] ?].
Qed.

Lemma session_books r s :
  ledger (cp_trace (session pl r s).2) = ledger (cp_trace s) ++ TurnStarts :: closing (cp_configured s) r /\
  ((session pl r s).1 = inr tt -> cp_configured (session pl r s).2 = cp_configured s || reached r).
Proof.
  unfold session. rewrite gets_run. set (s1 := cp_log (EStart (cp_driver_url s)) s).
  assert (ledger (cp_trace s1) = ledger (cp_trace s) ++ [TurnStarts]) as H1 by apply ledger_app.
  assert (forall m : CPM unit, reached r = false -> books [] m ->
    ledger (cp_trace ((log (EStart (cp_driver_url s)) ≫= fun _ => m) s).2) = ledger (cp_trace s) ++ TurnStarts :: closing (cp_configured s) r /\
    (((log (EStart (cp_driver_url s)) ≫= fun _ => m) s).1 = inr tt ->
     cp_configured ((log (EStart (cp_driver_url s)) ≫= fun _ => m) s).2 = cp_configured s || reached r)) as Hdone.
  { intros m Hr Hm. destruct (Hm s1) as [H2 H3]. unfold mbind, M_bind, log, modify. fold s1. rewrite H2, H3, H1. unfold closing. rewrite Hr.
    rewrite app_nil_r, orb_false_r. by split. }
  destruct (rd_start r) as [| |id has] eqn:Es.
  - apply Hdone; [unfold reached; by rewrite Es|by apply (books_log (ESleep _))].
  - apply Hdone; [unfold reached; by rewrite Es|done].
  - destruct has; [|apply Hdone; [unfold reached; by rewrite Es|done]]. simpl.
    destruct (rd_creds_ok r) eqn:Ec; [|apply Hdone; [unfold reached; by rewrite Es, Ec|done]]. simpl.
    assert (books [] (modify (cp_add_creds (creds_file pl id)))) as Hadd.
    { intros s0. simpl. by rewrite ledger_app. }
    set (s3 := cp_log (ERunner (creds_file pl id)) (cp_add_creds (creds_file pl id) s1)).
    assert (forall s4, ledger (cp_trace s4) = ledger (cp_trace s) ++ [TurnStarts] -> cp_configured s4 = cp_configured s -> reached r = true ->
      ledger (cp_trace (supervise pl r id s4).2) = ledger (cp_trace s) ++ TurnStarts :: closing (cp_configured s) r /\
      ((supervise pl r id s4).1 = inr tt -> cp_configured (supervise pl r id s4).2 = cp_configured s || reached r)) as Hup.
    { intros s4 H6 Hcf Hr. destruct (supervise_books r id s4 true Es Hr) as [H4 H5].
      rewrite H4, H6, Hcf, Hr, orb_true_r, <- app_assoc. by split. }
    assert (ledger (cp_trace s3) = ledger (cp_trace s) ++ [TurnStarts]) as H3 by (rewrite <- H1; subst s3; simpl; by rewrite !ledger_app, !app_nil_r).
    destruct (rd_runner r) eqn:Er.
    + apply Hup; [done|done|]. unfold reached. by rewrite Es, Ec, Er.
    + apply Hdone; [unfold reached; by rewrite Es, Er, andb_false_r|]. apply books_after; [exact Hadd|].
      apply books_after; [by apply (books_log (ERunner _))|]. apply books_then; [done|by apply (books_log (ESleep _))].
    + destruct (rd_stop_ok r) eqn:Eo.
      * assert ((log (EStart (cp_driver_url s)) ≫= fun _ => modify (cp_add_creds (creds_file pl id)) ≫= fun _ =>
          log (ERunner (creds_file pl id)) ≫= fun _ => stop_runner r ≫= fun _ => supervise pl r id) s =
          supervise pl r id (cp_log EStopRunner s3)) as -> by (unfold stop_runner, mbind, M_bind, log, modify; by rewrite Eo).
        apply Hup; [|done|unfold reached; by rewrite Es, Ec, Er, Eo]. rewrite <- H3. simpl. by rewrite ledger_app, app_nil_r.
      * assert (forall s4, stop_runner r s4 = (inl Panic, cp_log EStopRunner s4)) as Hst by (intros s4; unfold stop_runner, mbind, M_bind, log, modify; by rewrite Eo).
        apply Hdone; [unfold reached; by rewrite Es, Ec, Er, Eo|]. apply books_after; [exact Hadd|].
        apply books_after; [by apply (books_log (ERunner _))|]. intros s4. unfold mbind, M_bind. rewrite Hst. simpl. by rewrite ledger_app.
Qed.

Lemma sessions_books rounds s :
  exists turns rest, rounds = turns ++ rest /\
    ledger (cp_trace (sessions pl rounds s).2) = ledger (cp_trace s) ++ expected (cp_configured s) turns /\
    ((sessions pl rounds s).1 = inr tt -> rest = []).
Proof.
  revert s. induction rounds as [|r rounds IH]; intros s; cbn [sessions]; rewrite gets_run;
    destruct (cp_failures s <? MAX_FAILURES).
  - exists [], []. split_and!; [done|by rewrite app_nil_r|done].
  - exists [], []. split_and!; [done|by rewrite app_nil_r|done].
  - unfold mbind, M_bind. destruct (session_books r s) as [H1 H2]. destruct (session pl r s) as [[e|[]] s1]; simpl in *.
    + exists [r], rounds. split_and!; [done| |done]. simpl. by rewrite app_nil_r.
    + destruct (IH s1) as (turns & rest & -> & H3 & H4). exists (r :: turns), rest. split_and!; [done| |done].
      rewrite H3, H1, (H2 eq_refl). simpl. by rewrite <- app_assoc.
  - exists [], (r :: rounds). split_and!; [done|by rewrite app_nil_r|done].
Qed.

(** C26: The turns of the control plane, one after the other.  The remote control and
    the worker run with the credentials of the session of their turn, and the
    remote control is stopped before the next turn and before the end (the
    monitor).  The sessions closed with the service are, in their order and with
    their error flags, exactly those of the turns whose worker was started and
    ended with a code that is to be closed, each before the next turn starts (the
    ledger); no other session of the run is closed. *)
Theorem control_plane_sessions driver_url rounds :
  let '(code, s) := run_sessions pl rounds (fresh_cp driver_url) in
  (exists m, watch_all pl (cp_trace s) = Some m /\ at_rest m = true /\ (code = None -> m = Idle)) /\
  exists turns rest, rounds = turns ++ rest /\ (code = None -> rest = []) /\
    ledger (cp_trace s) = expected (cp_configured (fresh_cp driver_url)) turns.
Proof.
  pose proof (sessions_watched pl rounds (fresh_cp driver_url) eq_refl) as H. unfold run_sessions.
  destruct (sessions_books rounds (fresh_cp driver_url)) as (turns & rest & -> & Hl & Hr).
  destruct (sessions pl (turns ++ rest) (fresh_cp driver_url)) as [[e|[]] s]; simpl in Hl, Hr.
  - assert (cp_trace (scrub s) = cp_trace s) as Ht by (unfold scrub; by destruct (cp_creds_file s)). rewrite Ht. split.
    + destruct H as (m & Hm & Hat). by exists m.
    + by exists turns, rest.
  - split; [by exists Idle|]. exists turns, rest. split_and!; [done| |done]. intros _. by apply Hr.
Qed.

(** a run that is still going has met fewer than five failures; one that ended
    met five, or the last session decided: it could not be opened, the server
    was stopped before it was configured, or the worker ended with success or
    with an error of its usage, whose code the server returns. *)
Theorem control_plane_ends driver_url rounds :
  match run_sessions pl rounds (fresh_cp driver_url) with
  | (None, _) => failures rounds < MAX_FAILURES
  | (Some code, _) => exists l rest, rounds = l ++ rest /\
      ((code = 1 /\ MAX_FAILURES <= failures l) \/
       exists r rest', rest = r :: rest' /\ failures l < MAX_FAILURES /\ ends_with r code)
  end.
Proof.
  pose proof (sessions_end rounds (fresh_cp driver_url)) as H. unfold run_sessions.
  destruct (sessions pl rounds (fresh_cp driver_url)) as [[e|[]] s]; [exact H|]. simpl in H. lia.
Qed.
End ends.

Module ControlRun.

Definition demo : plan := mk_plan (u"srv") (u"key") (u"https://api") (u"nats://h") false false (u"/data") [u"--port"; u"1"].

(** a session whose worker ends with a code *)
Definition ran (session_id : pystr) (code : Z) : round :=
  mk_round (Started session_id true) true RunnerUp None (Some (mk_fork code [])) (Some []) (Some (u"logs/1")) None true.

(** the credentials of the session before a restart stay on disk, when the last
    ones are removed *)
Lemma earlier_credentials_stay :
  let '(code, s) := run_sessions demo [ran (u"a") EXIT_RESTART; ran (u"b") EXIT_SUCCESS] (fresh_cp (u"file:///x")) in
  code = Some EXIT_SUCCESS /\ cp_files s = [u"/data/a/nats.creds"].
Proof. by vm_compute. Qed.

(** the session of a remote control that met an error of the network, and that of a
    worker that could not be started, are never closed with the service *)
Lemma sessions_left_open :
  let again id runner fork := mk_round (Started id true) true runner None fork (Some []) None None true in
  ledger (cp_trace (run_sessions demo
      [again (u"a") RunnerNatsError None; again (u"b") RunnerUp None; ran (u"c") EXIT_SUCCESS] (fresh_cp (u"file:///x"))).2) =
    [TurnStarts; TurnStarts; TurnStarts; SessionEnds (u"c") false].
Proof. by vm_compute. Qed.

(** a shutdown while a notification is still being handled, such as an import:
    [runner.stop] waits for it, gives up after 30 seconds and raises, so the
    server ends with the code of a panic, after which the wrapper starts it again *)
Lemma slow_notification_panics :
  (run_sessions demo [mk_round (Started (u"a") true) true RunnerUp None (Some (mk_fork EXIT_SUCCESS [])) None None None false]
     (fresh_cp (u"file:///x"))).1 = Some EXIT_PANIC.
Proof. by vm_compute. Qed.
End ControlRun.

End ControlPlane.
