(* ===== verification/Notifications.v ===== *)
(** * Remote control: eds/cmd/notification_wiring.py, eds/notification/

    The service sends notifications to the control plane, which answers them and
    controls the worker over its loopback server.  [Host] is what the closures
    reach: the worker's server, the import process, the service's API, files and
    the message broker.  A notification is dispatched as a whole; the import it
    may start runs as a job of its own, so an execution is a sequence of
    deliveries, jobs, and starts and ends of the worker.

    [Ctx] is the [ControlPlaneContext] with the pending jobs; its trace records
    every call of the host in order.

    The theorems: which answers a notification gets, what an import does to the
    worker, and what a configuration changes. *)
From stdpp Require Import base tactics list option numbers sets strings.
From S2P Require Import Prelude ExitCodes PyStr PyPath PyDict PyFloat GoJson Interfaces DriverConfig Mask Worker Supervisor.
Import ControlPlane(fork_result, mk_fork, fr_exit_code, fr_last_error_lines).

(** ** Messages (eds/notification/dtos.py) *)

Record Notification := mk_notification { nt_action : pystr; nt_data : pydict pyobj }.

Record InitBackfillResponse := mk_init { ib_success : bool; ib_message : option pystr; ib_session_id : pystr; ib_job_id : pystr }.
Record ConfigureResponse := mk_configured {
  cf_success : bool; cf_message : option pystr; cf_masked_url : option pystr; cf_session_id : pystr; cf_backfill : bool; cf_log_path : option pystr }.
Record DriverConfigResponse := mk_drivers { dc_drivers : pydict (DriverMetadata * list DriverField); dc_session_id : pystr }.
Record ValidateResponse := mk_validated {
  vd_success : bool; vd_message : pystr; vd_field_errors : list FieldError; vd_session_id : pystr; vd_url : pystr }.
Record SendLogsResponse := mk_logs { sl_path : pystr; sl_session_id : pystr }.
Record GenericResponse := mk_generic { gr_success : bool; gr_message : option pystr; gr_session_id : pystr; gr_action : pystr }.
Record ImportResponse := mk_imported { ir_success : bool; ir_message : option pystr; ir_session_id : pystr; ir_log_path : option pystr }.
Record UpgradeResponse := mk_upgraded { up_success : bool; up_message : pystr; up_session_id : pystr; up_version : pystr }.

Definition opt_str (s : option pystr) : pyobj := match s with Some s => PStr s | None => PNone end.

Abbreviation wire := (list (pystr * OmitEmpty * pyobj)).

Definition init_fields (r : InitBackfillResponse) : wire :=
  [(u"success", NEVER, PBool (ib_success r)); (u"message", IF_NONE, opt_str (ib_message r));
   (u"sessionId", NEVER, PStr (ib_session_id r)); (u"jobId", NEVER, PStr (ib_job_id r))].
(** the log path is not on the wire *)
Definition configure_fields (r : ConfigureResponse) : wire :=
  [(u"success", NEVER, PBool (cf_success r)); (u"message", IF_NONE, opt_str (cf_message r));
   (u"maskedURL", IF_NONE, opt_str (cf_masked_url r)); (u"sessionId", NEVER, PStr (cf_session_id r));
   (u"backfill", NEVER, PBool (cf_backfill r))].
Definition metadata_fields (m : DriverMetadata) : wire :=
  [(u"scheme", NEVER, PStr (dm_scheme m)); (u"name", NEVER, PStr (dm_name m)); (u"description", NEVER, PStr (dm_description m));
   (u"exampleURL", NEVER, PStr (dm_example_url m)); (u"help", NEVER, PStr (dm_help m));
   (u"supportsImport", NEVER, PBool (dm_supports_import m)); (u"supportsMigration", NEVER, PBool (dm_supports_migration m))].
Definition configurator (c : DriverMetadata * list DriverField) : pyobj :=
  PStruct [(u"metadata", NEVER, PStruct (metadata_fields c.1)); (u"fields", NEVER, PList ((fun f => PStruct (field_fields f)) <$> c.2))].
Definition drivers_fields (r : DriverConfigResponse) : wire :=
  [(u"drivers", NEVER, PDict ((fun kv => (kv.1, configurator kv.2)) <$> dc_drivers r)); (u"sessionId", NEVER, PStr (dc_session_id r))].
Definition field_error (e : FieldError) : pyobj :=
  PStruct [(u"field", NEVER, PStr (fe_field e)); (u"error", NEVER, PStr (fe_message e))].
(** the key of the message has three s *)
Definition validate_fields (r : ValidateResponse) : wire :=
  [(u"success", NEVER, PBool (vd_success r)); (u"messsage", IF_FALSY, PStr (vd_message r));
   (u"field_errors", IF_FALSY, PList (field_error <$> vd_field_errors r)); (u"sessionId", NEVER, PStr (vd_session_id r));
   (u"url", IF_FALSY, PStr (vd_url r))].
Definition logs_fields (r : SendLogsResponse) : wire := [(u"path", NEVER, PStr (sl_path r)); (u"sessionId", NEVER, PStr (sl_session_id r))].
Definition generic_fields (r : GenericResponse) : wire :=
  [(u"success", NEVER, PBool (gr_success r)); (u"message", IF_NONE, opt_str (gr_message r));
   (u"sessionId", NEVER, PStr (gr_session_id r)); (u"action", NEVER, PStr (gr_action r))].
Definition import_fields (r : ImportResponse) : wire :=
  [(u"success", NEVER, PBool (ir_success r)); (u"message", IF_NONE, opt_str (ir_message r));
   (u"sessionId", NEVER, PStr (ir_session_id r)); (u"jobId", NEVER, PStr [])].
Definition upgrade_fields (r : UpgradeResponse) : wire :=
  [(u"success", NEVER, PBool (up_success r)); (u"message", IF_FALSY, PStr (up_message r));
   (u"sessionId", NEVER, PStr (up_session_id r)); (u"version", NEVER, PStr (up_version r))].

(** the dict that is packed *)
Definition msgpack_dict (fs : wire) : pydict pyobj :=
  omap (fun f => let '(key, rule, v) := f in if _omitted rule v then None else Some (key, v)) fs.

(** ** The host *)

Class Host (W : Type) := {
  (** a request of a path of the worker's server; errors are texts *)
  h_control : pystr -> method W pystr pystr;
  h_import : list pystr -> method W pystr fork_result;
  h_create_export_job : method W pystr pystr;
  h_log_upload_url : pystr -> method W pystr pystr;
  (** [None]: there is no such file *)
  h_file_size : pystr -> W -> option Z;
  h_upload_log : pystr -> pystr -> method W pystr pystr;
  h_remove : pystr -> method W pystr unit;
  h_set_config : pystr -> pystr -> method W pystr unit;
  h_in_docker : W -> bool;
  (** the broker: a packed message to a subject, raw bytes to a subject, the
      reply to a request *)
  h_publish : pystr -> pydict pyobj -> method W pystr unit;
  h_pong : pystr -> method W pystr unit;
  h_respond : pystr -> method W pystr unit
}.

(** the calls of the host *)
Inductive call : Type :=
| CControl (path : pystr)
| CImport (args : list pystr)
| CExportJob
| CUploadUrl (session_id : pystr)
| CUpload (url file : pystr)
| CRemove (file : pystr)
| CConfig (key value : pystr)
| CPublish (subject : pystr) (body : pydict pyobj)
| CPong (subject : pystr)
| CRespond (text : pystr) (sent : bool).     (** a reply that was tried, and whether the broker took it *)

(** [sys.exit] inside a closure *)
Inductive closure_exn : Type := SysExit (code : Z).

(** what does not change *)
Record constants := mk_constants {
  cn_api_key : pystr;
  cn_data_dir : pystr;
  cn_verbose : bool;
  cn_no_restart : bool;
  cn_keep_logs : bool;
  cn_registries : Registries
}.

Record import_job := mk_job { ij_backfill : bool; ij_job_id : pystr }.

Section closures.
Context {W : Type} `{!Host W} (cn : constants).

Record Ctx := mk_ctx {
  cx_world : W;
  cx_driver_url : pystr;
  cx_configured : bool;
  cx_session_id : pystr;
  cx_session_dir : pystr;
  cx_fork_running : bool;
  cx_event : bool;                 (** [configure_event] is set *)
  cx_jobs : list import_job;       (** the import jobs that were started and not yet run *)
  cx_trace : list call
}.

Definition cx_set_world w (s : Ctx) : Ctx :=
  mk_ctx w (cx_driver_url s) (cx_configured s) (cx_session_id s) (cx_session_dir s) (cx_fork_running s) (cx_event s) (cx_jobs s) (cx_trace s).
Definition cx_set_url url (s : Ctx) : Ctx :=
  mk_ctx (cx_world s) url (cx_configured s) (cx_session_id s) (cx_session_dir s) (cx_fork_running s) (cx_event s) (cx_jobs s) (cx_trace s).
Definition cx_set_event (s : Ctx) : Ctx :=
  mk_ctx (cx_world s) (cx_driver_url s) (cx_configured s) (cx_session_id s) (cx_session_dir s) (cx_fork_running s) true (cx_jobs s) (cx_trace s).
Definition cx_set_jobs jobs (s : Ctx) : Ctx :=
  mk_ctx (cx_world s) (cx_driver_url s) (cx_configured s) (cx_session_id s) (cx_session_dir s) (cx_fork_running s) (cx_event s) jobs (cx_trace s).
Definition cx_log (c : call) (s : Ctx) : Ctx :=
  mk_ctx (cx_world s) (cx_driver_url s) (cx_configured s) (cx_session_id s) (cx_session_dir s) (cx_fork_running s) (cx_event s) (cx_jobs s)
    (cx_trace s ++ [c]).

Abbreviation NM A := (M Ctx closure_exn A).

(** a call of the host, whose exception is a value *)
Definition try_call {A} (c : call) (f : method W pystr A) : NM (pystr + A) :=
  fun s : Ctx => let '(r, w) := f (cx_world s) in (inr r, cx_log c (cx_set_world w s)).

(** ** The closures *)

Definition _control_get (path : pystr) : NM (pystr + pystr) := try_call (CControl path) (h_control path).

Definition restart : NM unit :=
  running ← gets cx_fork_running;
  if running : bool then _ ← _control_get (u"restart"); mret tt else mret tt.

(** the configuration is written only after the worker accepted *)
Definition shutdown (deleted : bool) : NM unit :=
  running ← gets cx_fork_running;
  if running : bool then
    r ← _control_get (u"shutdown");
    match r with
    | inl _ => mret tt
    | inr _ => if deleted then _ ← try_call (CConfig (u"server_id") []) (h_set_config (u"server_id") []); mret tt else mret tt
    end
  else mret tt.

(** [None], or the text of the error *)
Definition control_when_running (path : pystr) : NM (option pystr) :=
  running ← gets cx_fork_running;
  if running : bool then
    r ← _control_get path;
    mret match r with inl e => Some e | inr _ => None end
  else mret None.
Definition pause : NM (option pystr) := control_when_running (u"pause").
Definition unpause : NM (option pystr) := control_when_running (u"unpause").

Definition upgrade (version : pystr) : NM UpgradeResponse :=
  s ← gets id;
  mret (mk_upgraded false
    (if h_in_docker (cx_world s) then u"upgrade is not supported inside a virtualized container system"
     else u"self-upgrade requires the packaged binary (not yet available)")
    (cx_session_id s) version).

Definition upload_log_file (url file : pystr) : NM (pystr + pystr) := try_call (CUpload url file) (h_upload_log url file).
Definition get_log_upload_url (session_id : pystr) : NM (pystr + pystr) := try_call (CUploadUrl session_id) (h_log_upload_url session_id).

(** every exception counts as no logs *)
Definition send_logs : NM (option SendLogsResponse) :=
  session_id ← gets cx_session_id;
  match session_id with
  | [] => mret None
  | _ =>
      log_file ← _control_get (u"logfile");
      match log_file with
      | inl _ | inr [] => mret None
      | inr file =>
          upload_url ← get_log_upload_url session_id;
          match upload_url with
          | inl _ => mret None
          | inr upload_url =>
              storage ← upload_log_file upload_url file;
              match storage with
              | inl _ => mret None
              | inr storage =>
                  _ ← (if cn_keep_logs cn then mret tt else _ ← try_call (CRemove file) (h_remove file); mret tt);
                  mret (Some (mk_logs storage session_id))
              end
          end
      end
  end.

(** *** The import process *)

Record ImportRunResult := mk_import_run { is_success : bool; is_validated : bool; is_message : option pystr; is_log_path : option pystr }.

Definition import_args (url : pystr) (schema_only validate_only : bool) (job_id : pystr) : list pystr :=
  [u"--url"; url; u"--api-key"; cn_api_key cn; u"--no-confirm"; u"--data-dir"; cn_data_dir cn]
  ++ (if schema_only then [u"--schema-only"] else [])
  ++ (match job_id with [] => [] | _ => [u"--job-id"; job_id] end)
  ++ (if validate_only then [u"--validate-only"; u"--silent"]
      else if cn_verbose cn then [u"--verbose"] else []).

(** the last line of the errors *)
Definition refusal (last_error_lines : pystr) : pystr :=
  match split_char 10 (rstrip_char 10 last_error_lines) with
  | _ :: _ :: _ as lines => default [] (last lines)
  | _ => strip last_error_lines
  end.

(** the path of a file's upload, if the file is there, is not empty and could be
    uploaded *)
Definition upload_output (upload_url file : pystr) : NM (option pystr) :=
  w ← gets cx_world;
  match h_file_size file w with
  | Some n => if 0 <? n then r ← upload_log_file upload_url file; mret match r with inr p => Some p | inl _ => None end
              else mret None
  | None => mret None
  end.

(** the outputs of a failed import are uploaded *)
Definition upload_outputs : NM pystr :=
  s ← gets id;
  url ← get_log_upload_url (cx_session_id s);
  match url with
  | inl _ => mret []
  | inr url =>
      path ← upload_output url (path_join (cx_session_dir s) [u"import_stdout.txt"]);
      _ ← upload_output url (path_join (cx_session_dir s) [u"import_stderr.txt"]);
      mret (default [] path)
  end.

Definition _run_import (url : pystr) (schema_only validate_only : bool) (job_id : pystr) : NM ImportRunResult :=
  let args := import_args url schema_only validate_only job_id in
  r ← try_call (CImport args) (h_import args);
  match r with
  | inl _ => mret (mk_import_run true false (Some (u"Error importing data. Please contact support for assistance.")) None)
  | inr result =>
      let ec := fr_exit_code result in
      if cn_no_restart cn then raise (SysExit ec)
      else if ec =? EXIT_SUCCESS then mret (mk_import_run true true None None)
      else if ec =? EXIT_INCORRECT_USAGE then mret (mk_import_run false false (Some (refusal (fr_last_error_lines result))) None)
      else
        path ← upload_outputs;
        mret (mk_import_run true false
          (Some (u"Error importing data. See the error logs for more details or contact support for further assistance.")) (Some path))
  end.

Definition configure (url : pystr) (backfill : bool) : NM ConfigureResponse :=
  r ← _run_import url false true [];
  masked ← (if is_success r && is_validated r then
              _ ← try_call (CConfig (u"url") url) (h_set_config (u"url") url);
              _ ← modify (cx_set_url url);
              configured ← gets cx_configured;
              _ ← (if configured : bool then mret tt else restart);
              mret (mask_url url)
            else mret None);
  session_id ← gets cx_session_id;
  mret (mk_configured (is_validated r) (is_message r) masked session_id backfill (is_log_path r)).

Definition backfill_init (backfill : bool) : NM InitBackfillResponse :=
  session_id ← gets cx_session_id;
  if backfill then
    r ← try_call CExportJob h_create_export_job;
    mret match r with
         | inl e => mk_init false (Some e) session_id []
         | inr job_id => mk_init true None session_id job_id
         end
  else mret (mk_init true None session_id []).

(** pause, import, then restart or the start of the first worker *)
Definition import_action (job : import_job) : NM ImportResponse :=
  _ ← pause;
  url ← gets cx_driver_url;
  r ← _run_import url (negb (ij_backfill job)) false (ij_job_id job);
  session_id ← gets cx_session_id;
  if negb (is_success r) then mret (mk_imported false (is_message r) session_id (is_log_path r))
  else
    configured ← gets cx_configured;
    _ ← (if configured : bool then restart else modify cx_set_event);
    mret (mk_imported (is_success r) (is_message r) session_id (is_log_path r)).

Definition driver_config : NM DriverConfigResponse :=
  session_id ← gets cx_session_id;
  mret (mk_drivers (get_driver_configurations (cn_registries cn)) session_id).

Definition validate_form (driver : pystr) (vs : pydict pyobj) : NM ValidateResponse :=
  session_id ← gets cx_session_id;
  mret match validate driver vs (cn_registries cn) with
       | inl e => mk_validated false e [] session_id []
       | inr (url, errors) => mk_validated (negb (str_eqb url [])) [] errors session_id url
       end.

(** ** The dispatch (eds/notification/__init__.py) *)

(** the session of the connection's credentials *)
Context (own_session : pystr).

Definition get_bool (v : option pyobj) : bool :=
  match v with
  | Some (PBool b) => b
  | Some (PStr s) => str_eqb s (u"true")
  | _ => false
  end.

Definition _publish (sid action kind : pystr) (fs : wire) : NM (pystr + unit) :=
  let subject := u"eds.client." ++ sid ++ u"." ++ action ++ u"-" ++ kind in
  try_call (CPublish subject (msgpack_dict fs)) (h_publish subject (msgpack_dict fs)).
Definition _publish_response (sid action : pystr) (fs : wire) : NM (pystr + unit) := _publish sid action (u"response") fs.
Definition _publish_status (sid action : pystr) (fs : wire) : NM (pystr + unit) := _publish sid action (u"status") fs.

Definition _publish_simple_status (action err_msg : pystr) : NM unit :=
  _ ← _publish_status own_session action (generic_fields (mk_generic (str_eqb err_msg []) (Some err_msg) own_session action));
  mret tt.

Definition publish_send_logs_response (r : SendLogsResponse) : NM unit :=
  _ ← _publish_response (sl_session_id r) (u"sendlogs") (logs_fields r);
  mret tt.
Definition publish_log_path (path : option pystr) (session_id : pystr) : NM unit :=
  match path with Some p => publish_send_logs_response (mk_logs p session_id) | None => mret tt end.

Definition respond_generically (action : pystr) (err : option pystr) : NM unit :=
  _ ← _publish_response own_session action
        (generic_fields (mk_generic (match err with None => true | _ => false end) err own_session action));
  mret tt.

(** [msg.respond(resp.__gojson__().encode())]: was it sent?  Text with a surrogate
    cannot be encoded, which is logged like an error of the broker *)
Definition respond (fs : wire) : NM bool :=
  match gojson_struct fs with
  | None => mret false
  | Some text =>
      if forallb scalar text then
        fun s => let '(r, w) := h_respond text (cx_world s) in
                 let sent := match r with inr _ => true | inl _ => false end in
                 (inr sent, cx_log (CRespond text sent) (cx_set_world w s))
      else mret false
  end.

Definition call_send_logs : NM unit :=
  r ← send_logs;
  match r with Some r => publish_send_logs_response r | None => mret tt end.

Definition _configure (url : pystr) (backfill : bool) : NM unit :=
  r ← configure url backfill;
  ok ← respond (configure_fields r);
  if ok : bool then publish_log_path (cf_log_path r) (cf_session_id r) else mret tt.

Definition _upgrade (version : pystr) : NM unit :=
  r ← upgrade version;
  _ ← _publish_response (up_session_id r) (u"upgrade") (upgrade_fields r);
  mret tt.

(** the import runs as a job of its own *)
Definition _importaction (backfill : bool) : NM unit :=
  init ← backfill_init backfill;
  ok ← respond (init_fields init);
  if negb ok then mret tt
  else if negb (ib_success init) then mret tt
  else
    _ ← _publish_simple_status (u"import") [];
    modify (fun s => cx_set_jobs (cx_jobs s ++ [mk_job backfill (ib_job_id init)]) s).

Definition run_import_job (job : import_job) : NM unit :=
  r ← import_action job;
  sent ← _publish_response (ir_session_id r) (u"import") (import_fields r);
  match sent with
  | inl _ => mret tt
  | inr _ => publish_log_path (ir_log_path r) (ir_session_id r)
  end.

Definition notification_text (n : Notification) : option pystr :=
  gojson_struct [(u"action", NEVER, PStr (nt_action n)); (u"data", IF_FALSY, PDict (nt_data n))].

(** [text] is the notification as JSON *)
Definition dispatch (n : Notification) (text : pystr) : NM unit :=
  let is_action name := str_eqb (nt_action n) name in
  let get key := dict_get key (nt_data n) in
  if is_action (u"restart") then
    _ ← _publish_simple_status (u"restart") [];
    _ ← restart;
    respond_generically (nt_action n) None
  else if is_action (u"ping") then
    match get (u"subject") with
    | Some (PStr subject) => _ ← try_call (CPong subject) (h_pong subject); mret tt
    | _ => mret tt
    end
  else if is_action (u"shutdown") then
    match get (u"message") with
    | Some (PStr _) => shutdown (get_bool (get (u"deleted")))
    | _ => mret tt
    end
  else if is_action (u"pause") then err ← pause; respond_generically (nt_action n) err
  else if is_action (u"unpause") then err ← unpause; respond_generically (nt_action n) err
  else if is_action (u"upgrade") then
    match get (u"version") with
    | Some (PStr version) => _ ← _publish_simple_status (u"upgrade") []; _upgrade version
    | _ => _publish_simple_status (u"upgrade") (u"invalid upgrade notification. missing version for: " ++ text)
    end
  else if is_action (u"sendlogs") then call_send_logs
  else if is_action (u"configure") then
    _configure (match get (u"url") with Some (PStr url) => url | _ => [] end) (get_bool (get (u"backfill")))
  else if is_action (u"import") then _importaction (get_bool (get (u"backfill")))
  else if is_action (u"driverconfig") then r ← driver_config; _ ← respond (drivers_fields r); mret tt
  else if is_action (u"validate") then
    match get (u"driver"), get (u"config") with
    | Some (PStr driver), Some (PDict config) => r ← validate_form driver config; _ ← respond (validate_fields r); mret tt
    | _, _ => mret tt
    end
  else mret tt.

(** a decoded message; one that is no object, or cannot be printed, is dropped *)
Definition notification_of (raw : pyobj) : option Notification :=
  match raw with
  | PDict d =>
      Some (mk_notification (match dict_get (u"action") d with Some (PStr a) => a | _ => [] end)
                            (match dict_get (u"data") d with Some (PDict x) => x | _ => [] end))
  | _ => None
  end.
Definition _callback (raw : pyobj) : NM unit :=
  match notification_of raw with
  | None => mret tt
  | Some n => match notification_text n with None => mret tt | Some text => dispatch n text end
  end.

(** ** What the closures do *)

Definition is_control (c : call) : bool := match c with CControl _ => true | _ => false end.
Definition is_config (c : call) : bool := match c with CConfig _ _ => true | _ => false end.

(** a computation that returns, logs calls of one kind only, and keeps the
    context but for the world *)
Definition quiet (keep : call -> bool) {A} (m : NM A) : Prop :=
  forall s, exists a w l, m s = (inr a, mk_ctx w (cx_driver_url s) (cx_configured s) (cx_session_id s) (cx_session_dir s)
      (cx_fork_running s) (cx_event s) (cx_jobs s) (cx_trace s ++ l)) /\ forallb keep l = true.

Lemma quiet_ret keep {A} (a : A) : quiet keep (mret a).
Proof. intros s. exists a, (cx_world s), []. rewrite app_nil_r. by destruct s. Qed.

Lemma quiet_bind keep {A B} (m : NM A) (f : A -> NM B) : quiet keep m -> (forall a, quiet keep (f a)) -> quiet keep (m ≫= f).
Proof.
  intros Hm Hf s. destruct (Hm s) as (a & w & l & E & Hl). unfold mbind, M_bind. rewrite E.
  destruct (Hf a (mk_ctx w (cx_driver_url s) (cx_configured s) (cx_session_id s) (cx_session_dir s) (cx_fork_running s) (cx_event s) (cx_jobs s) (cx_trace s ++ l)))
    as (b & w' & l' & E' & Hl'). exists b, w', (l ++ l'). rewrite E'. simpl. by rewrite app_assoc, forallb_app, Hl, Hl'.
Qed.

Lemma quiet_gets keep {A} (f : Ctx -> A) : quiet keep (gets f).
Proof. intros s. exists (f s), (cx_world s), []. rewrite app_nil_r. by destruct s. Qed.

Lemma quiet_call (keep : call -> bool) {A} c (f : method W pystr A) : keep c = true -> quiet keep (try_call c f).
Proof.
  intros Hc s. unfold try_call. destruct (f (cx_world s)) as [r w]. exists r, w, [c]. simpl. by rewrite Hc.
Qed.

(** neither a request to the worker nor a change of the configuration *)
Definition aside (c : call) : bool := negb (is_control c) && negb (is_config c).

Ltac quiet_steps := repeat first
  [ apply quiet_ret | apply quiet_gets | (apply quiet_bind; [|intros]) | (apply quiet_call; reflexivity) | case_match ].

Lemma quiet_upload_outputs : quiet aside upload_outputs.
Proof. unfold upload_outputs, upload_output, get_log_upload_url, upload_log_file. quiet_steps. Qed.

Definition refused (r : pystr + fork_result) : bool :=
  match r with inr result => fr_exit_code result =? EXIT_INCORRECT_USAGE | inl _ => false end.

(** the import process runs once, with the arguments, and its answer decides *)
Lemma run_import_quiet url schema_only validate_only job_id s : cn_no_restart cn = false ->
  exists r w l, _run_import url schema_only validate_only job_id s =
      (inr r, mk_ctx w (cx_driver_url s) (cx_configured s) (cx_session_id s) (cx_session_dir s) (cx_fork_running s) (cx_event s)
                (cx_jobs s) (cx_trace s ++ l)) /\ forallb aside l = true /\
    is_success r = negb (refused (h_import (import_args url schema_only validate_only job_id) (cx_world s)).1) /\
    (is_validated r = true -> is_success r = true).
Proof.
  intros Hn. unfold _run_import. set (args := import_args _ _ _ _). unfold mbind, M_bind, try_call.
  destruct (h_import args (cx_world s)) as [[e|result] w] eqn:E; simpl.
  - eexists _, w, [CImport args]. by split_and!.
  - rewrite Hn. destruct (fr_exit_code result =? EXIT_SUCCESS) eqn:E0.
    { eexists _, w, [CImport args]. split_and!; [done|done| |done]. bool_prop. by rewrite E0. }
    destruct (fr_exit_code result =? EXIT_INCORRECT_USAGE); [by eexists _, w, [CImport args]|].
    destruct (quiet_upload_outputs (cx_log (CImport args) (cx_set_world w s))) as (path & w' & l & El & Hl).
    rewrite El. eexists _, w', (CImport args :: l). simpl. rewrite <- app_assoc. by split_and!.
Qed.

Definition controls (s : Ctx) : list call := filter (fun c => is_control c = true) (cx_trace s).

Lemma controls_aside l : forallb aside l = true -> filter (fun c => is_control c = true) l = [].
Proof.
  induction l as [|c l IH]; [done|]. simpl. intros [Hc Hl]%andb_true_iff. unfold aside in Hc.
  rewrite filter_cons_False; [by apply IH|]. by destruct (is_control c).
Qed.

(** a request to the worker, when it runs *)
Lemma control_result path s :
  exists r w, control_when_running path s =
    (inr r, mk_ctx w (cx_driver_url s) (cx_configured s) (cx_session_id s) (cx_session_dir s) (cx_fork_running s) (cx_event s)
              (cx_jobs s) (cx_trace s ++ if cx_fork_running s then [CControl path] else [])).
Proof.
  unfold control_when_running, _control_get, try_call, mbind, M_bind, gets. destruct (cx_fork_running s) eqn:E.
  - destruct (h_control path (cx_world s)) as [r w]. simpl. eexists _, w. unfold cx_log, cx_set_world. simpl. by rewrite E.
  - eexists _, (cx_world s). rewrite app_nil_r. destruct s. simpl in *. by subst.
Qed.

Lemma restart_result s :
  exists w, restart s =
    (inr tt, mk_ctx w (cx_driver_url s) (cx_configured s) (cx_session_id s) (cx_session_dir s) (cx_fork_running s) (cx_event s)
              (cx_jobs s) (cx_trace s ++ if cx_fork_running s then [CControl (u"restart")] else [])).
Proof.
  unfold restart, _control_get, try_call, mbind, M_bind, gets. destruct (cx_fork_running s) eqn:E.
  - destruct (h_control (u"restart") (cx_world s)) as [r w]. exists w. unfold cx_log, cx_set_world. simpl. by rewrite E.
  - exists (cx_world s). rewrite app_nil_r. destruct s. simpl in *. by subst.
Qed.

(** an import pauses the running worker, runs the import process once, and then
    restarts the worker, or lets an unconfigured server start its first one:
    whatever the outcome of the import, unless its arguments were refused. *)
Theorem import_resumes job s : cn_no_restart cn = false ->
  exists resp s' w, import_action job s = (inr resp, s') /\
    ir_success resp = negb (refused (h_import (import_args (cx_driver_url s) (negb (ij_backfill job)) false (ij_job_id job)) w).1) /\
    controls s' = controls s ++ (if cx_fork_running s then [CControl (u"pause")] else []) ++
      (if ir_success resp && cx_configured s && cx_fork_running s then [CControl (u"restart")] else []) /\
    cx_event s' = cx_event s || (ir_success resp && negb (cx_configured s)).
Proof.
  intros Hn. destruct (control_result (u"pause") s) as (r0 & w0 & E0). unfold import_action.
  rewrite (bind_inr _ _ _ _ _ E0). unfold mbind at 1, M_bind at 1, gets at 1.
  set (s1 := mk_ctx w0 _ _ _ _ _ _ _ _). change (cx_driver_url s1) with (cx_driver_url s).
  destruct (run_import_quiet (cx_driver_url s) (negb (ij_backfill job)) false (ij_job_id job) s1 Hn) as (r & w & l & E & Hl & Hs & _).
  rewrite (bind_inr _ _ _ _ _ E). unfold mbind at 1, M_bind at 1, gets at 1. change (cx_world s1) with w0 in Hs.
  set (s2 := mk_ctx w _ _ _ _ _ _ _ _).
  assert (controls s2 = controls s ++ (if cx_fork_running s then [CControl (u"pause")] else [])) as Hc2.
  { unfold controls, s2. simpl. rewrite filter_app, (controls_aside l Hl), app_nil_r, filter_app. by destruct (cx_fork_running s). }
  destruct (refused _) eqn:Er; simpl in Hs; rewrite Hs; simpl.
  - eexists _, s2, w0. split; [reflexivity|]. rewrite Er. simpl. split_and!; [done|by rewrite app_nil_r|by rewrite orb_false_r].
  - unfold mbind, M_bind, gets. change (cx_configured s2) with (cx_configured s). destruct (cx_configured s).
    + destruct (restart_result s2) as (w2 & E2). rewrite E2. eexists _, _, w0. split; [reflexivity|]. simpl. rewrite Er. simpl.
      split_and!; [done| |by rewrite orb_false_r]. 
      transitivity (controls s2 ++ filter (fun c => is_control c = true) (if cx_fork_running s then [CControl (u"restart")] else []));
        [apply filter_app|]. rewrite Hc2, <- app_assoc. by destruct (cx_fork_running s).
    + eexists _, _, w0. split; [reflexivity|]. simpl. rewrite Er. simpl.
      split_and!; [done| |by rewrite orb_true_r]. change (controls s2 = controls s ++ (if cx_fork_running s then [CControl (u"pause")] else []) ++ []). by rewrite Hc2, app_nil_r.
Qed.

(** an accepted configuration stores the url and uses it for the next worker; one
    that is not accepted changes neither. *)
Theorem configure_effect url backfill s : cn_no_restart cn = false ->
  exists resp s' l, configure url backfill s = (inr resp, s') /\ cx_trace s' = cx_trace s ++ l /\
    cx_driver_url s' = (if cf_success resp then url else cx_driver_url s) /\
    filter (fun c => is_config c = true) l = (if cf_success resp then [CConfig (u"url") url] else []) /\
    cf_masked_url resp = (if cf_success resp then mask_url url else None).
Proof.
  intros Hn. unfold configure. destruct (run_import_quiet url false true [] s Hn) as (r & w & l & E & Hl & Hs & Hv).
  rewrite (bind_inr _ _ _ _ _ E). set (s1 := mk_ctx w _ _ _ _ _ _ _ _).
  assert (filter (fun c => is_config c = true) l = []) as Hcl.
  { clear -Hl. induction l as [|c l IH]; [done|]. simpl in Hl. apply andb_true_iff in Hl as [Hc Hl]. unfold aside in Hc.
    rewrite filter_cons_False; [by apply IH|]. destruct (is_config c); [|done]. by rewrite andb_false_r in Hc. }
  destruct (is_validated r) eqn:Ev.
  - rewrite (Hv eq_refl). simpl. unfold try_call. unfold mbind, M_bind, gets, modify. simpl.
    destruct (h_set_config (u"url") url w) as [rc wc]. simpl.
    destruct (cx_configured s) eqn:Ec.
    + eexists _, _, (l ++ [CConfig (u"url") url]). split; [reflexivity|]. simpl. rewrite <- app_assoc, filter_app, Hcl. by split_and!.
    + set (s2 := cx_set_url url _). destruct (restart_result s2) as (w2 & E2). rewrite E2. simpl.
      eexists _, _, (l ++ [CConfig (u"url") url] ++ if cx_fork_running s then [CControl (u"restart")] else []). split; [reflexivity|].
      simpl. rewrite <- !app_assoc, !filter_app, Hcl. split_and!; try done. by destruct (cx_fork_running s).
  - rewrite andb_false_r. unfold mbind, M_bind, gets. simpl. eexists _, _, l. split; [reflexivity|]. simpl. by rewrite Hcl.
Qed.

(** *** Answers *)

(** the replies among the calls, with what the broker said *)
Definition sent_replies (l : list call) : list (pystr * bool) :=
  omap (fun c => match c with CRespond text sent => Some (text, sent) | _ => None end) l.

(** a computation that returns, having made these replies *)
Definition replies (rs : list (pystr * bool)) {A} (m : NM A) : Prop :=
  forall s, exists a s' l, m s = (inr a, s') /\ cx_trace s' = cx_trace s ++ l /\ sent_replies l = rs.

Lemma replies_ret {A} (a : A) : replies [] (mret a).
Proof. intros s. exists a, s, []. by rewrite app_nil_r. Qed.

Lemma replies_gets {A} (f : Ctx -> A) : replies [] (gets f).
Proof. intros s. exists (f s), s, []. by rewrite app_nil_r. Qed.

Lemma replies_modify (f : Ctx -> Ctx) : (forall s, cx_trace (f s) = cx_trace s) -> replies [] (modify f).
Proof. intros H s. exists tt, (f s), []. by rewrite app_nil_r. Qed.

Lemma replies_call {A} c (f : method W pystr A) : match c with CRespond _ _ => False | _ => True end -> replies [] (try_call c f).
Proof.
  intros Hc s. unfold try_call. destruct (f (cx_world s)) as [r w]. eexists r, _, [c]. split; [reflexivity|]. by destruct c.
Qed.

(** one step without a reply, then the rest *)
Lemma replies_then {A B} rs (m : NM A) (f : A -> NM B) : replies [] m -> (forall a, replies rs (f a)) -> replies rs (m ≫= f).
Proof.
  intros Hm Hf s. destruct (Hm s) as (a & s1 & l1 & E1 & T1 & C1). destruct (Hf a s1) as (b & s2 & l2 & E2 & T2 & C2).
  exists b, s2, (l1 ++ l2). unfold mbind, M_bind. rewrite E1. split_and!; [done|by rewrite T2, T1, app_assoc|].
  unfold sent_replies in *. by rewrite omap_app, C1, C2.
Qed.

Ltac silent := repeat first
  [ apply replies_ret | apply replies_gets | (apply replies_modify; reflexivity) | (apply replies_then; [|intros])
  | (apply replies_call; exact I) | case_match ].

Lemma silent_restart : replies [] restart.
Proof. unfold restart, _control_get. silent. Qed.

Lemma silent_control path : replies [] (control_when_running path).
Proof. unfold control_when_running, _control_get. silent. Qed.

Lemma silent_publish sid action kind fs : replies [] (_publish sid action kind fs).
Proof. unfold _publish. silent. Qed.

Lemma silent_logs r : replies [] (publish_send_logs_response r).
Proof. unfold publish_send_logs_response, _publish_response. apply replies_then; [apply silent_publish|intros; apply replies_ret]. Qed.

Lemma silent_status action msg : replies [] (_publish_simple_status action msg).
Proof. unfold _publish_simple_status, _publish_status. apply replies_then; [apply silent_publish|intros; apply replies_ret]. Qed.

Lemma silent_generic action err : replies [] (respond_generically action err).
Proof. unfold respond_generically, _publish_response. apply replies_then; [apply silent_publish|intros; apply replies_ret]. Qed.

Lemma silent_run_import url schema_only validate_only job_id : cn_no_restart cn = false ->
  replies [] (_run_import url schema_only validate_only job_id).
Proof.
  intros Hn. unfold _run_import. rewrite Hn. unfold upload_outputs, upload_output, get_log_upload_url, upload_log_file. silent.
Qed.

Lemma silent_configure url backfill : cn_no_restart cn = false -> replies [] (configure url backfill).
Proof.
  intros Hn. unfold configure. apply replies_then; [by apply silent_run_import|]. intros r.
  apply replies_then; [|intros; silent]. case_match; [|apply replies_ret].
  do 3 (apply replies_then; [silent|]; intros). apply replies_then; [|intros; apply replies_ret].
  case_match; [apply replies_ret|apply silent_restart].
Qed.

Lemma silent_backfill_init backfill : replies [] (backfill_init backfill).
Proof. unfold backfill_init. silent. Qed.

Lemma silent_send_logs : replies [] send_logs.
Proof. unfold send_logs, _control_get, get_log_upload_url, upload_log_file. silent. Qed.

(** a value without floats is always encoded *)
Fixpoint no_float (v : pyobj) : bool :=
  match v with
  | PFloat _ => false
  | PList l => forallb no_float l
  | PDict d => forallb (fun kv => no_float kv.2) d
  | PStruct fs => forallb (fun f => no_float f.2) fs
  | _ => true
  end.

Lemma mapM_total {A B} (f : A -> option B) l : Forall (fun x => exists y, f x = Some y) l -> exists k, mapM f l = Some k.
Proof.
  induction 1 as [|x l [y Hy] _ [k Hk]]; [by exists []|]. exists (y :: k). simpl. by rewrite Hy, Hk.
Qed.

Lemma no_float_encodes v sk : no_float v = true -> exists t, _encode sk v = Some t.
Proof.
  revert sk. induction v as [|b|n|f|s|s|fs IH|l IH|d IH] using pyobj_nested_ind; intros sk Hv; simpl in *; try discriminate Hv; try by eexists.
  - apply forallb_Forall in Hv. destruct (mapM_total (fun f => let '(key, rule, x) := f in
        if _omitted rule x then Some [] else t ← _encode true x; Some [field_text key t]) fs) as [k ->]; [|by eexists].
    rewrite Forall_forall in *. intros [[key rule] x] Hin. specialize (IH _ Hin). specialize (Hv _ Hin). simpl in *.
    destruct (_omitted rule x); [by eexists|]. destruct (IH true Hv) as [t ->]. by eexists.
  - apply forallb_Forall in Hv. destruct (mapM_total (_encode sk) l) as [k ->]; [|by eexists].
    rewrite Forall_forall in *. intros x Hin. by apply IH, Hv.
  - apply forallb_Forall in Hv. destruct (mapM_total (fun kv : pystr * pyobj => let '(k, x) := kv in t ← _encode sk x; Some (k, t)) d) as [k ->]; [|by eexists].
    rewrite Forall_forall in *. intros [key x] Hin. specialize (IH _ Hin). specialize (Hv _ Hin). simpl in *.
    destruct (IH sk Hv) as [t ->]. by eexists.
Qed.

(** the answer to a request is the reply text of what [m] returns; a text that
    cannot be encoded leaves the request without a reply *)
Definition answered (answer : NM wire) (m : NM unit) : Prop :=
  forall s, exists fs s1 text s' l, answer s = (inr fs, s1) /\ gojson_struct fs = Some text /\
    m s = (inr tt, s') /\ cx_trace s' = cx_trace s ++ l /\
    sent_replies l = if forallb scalar text then [(text, match (h_respond text (cx_world s1)).1 with inr _ => true | inl _ => false end)] else [].

Lemma answered_reply {A} (m : NM A) (fields : A -> wire) (k : A -> bool -> NM unit) :
  replies [] m -> (forall a, forallb (fun f => no_float f.2) (fields a) = true) -> (forall a ok, replies [] (k a ok)) ->
  answered (a ← m; mret (fields a)) (a ← m; ok ← respond (fields a); k a ok).
Proof.
  intros Hm Hf Hk s. destruct (Hm s) as (a & s1 & l1 & E1 & T1 & C1).
  destruct (no_float_encodes (PStruct (fields a)) true (Hf a)) as [text Ht].
  assert (exists ok s2 l2, respond (fields a) s1 = (inr ok, s2) /\ cx_trace s2 = cx_trace s1 ++ l2 /\
    sent_replies l2 = if forallb scalar text then [(text, match (h_respond text (cx_world s1)).1 with inr _ => true | inl _ => false end)] else [])
    as (ok & s2 & l2 & E2 & T2 & C2).
  { unfold respond, gojson_struct, marshal. rewrite Ht. destruct (forallb scalar text).
    - destruct (h_respond text (cx_world s1)) as [x w]. by eexists _, _, [_].
    - exists false, s1, []. by rewrite app_nil_r. }
  destruct (Hk a ok s2) as ([] & s3 & l3 & E3 & T3 & C3). exists (fields a), s1, text, s3, (l1 ++ l2 ++ l3).
  unfold mbind, M_bind. rewrite E1. split; [done|]. split; [exact Ht|]. rewrite E2, E3. split; [done|].
  split; [by rewrite T3, T2, T1, !app_assoc|]. unfold sent_replies in *. by rewrite !omap_app, C1, C2, C3, app_nil_r.
Qed.

Lemma no_float_opt s : no_float (opt_str s) = true.
Proof. by destruct s. Qed.

Lemma no_float_drivers r : forallb (fun f : pystr * OmitEmpty * pyobj => no_float f.2) (drivers_fields r) = true.
Proof.
  unfold drivers_fields. simpl. rewrite andb_true_r. apply forallb_Forall, Forall_fmap, Forall_true. intros [k [m fields]]. simpl.
  rewrite andb_true_r. apply forallb_Forall, Forall_fmap, Forall_true. intros f. simpl. destruct (df_password f), (df_default f); done.
Qed.

(** the requests, which are to be replied to, with the handler that answers each *)
Definition answer_of (n : Notification) : option (NM wire) :=
  let get key := dict_get key (nt_data n) in
  let is_action name := str_eqb (nt_action n) name in
  if is_action (u"configure") then
    Some (r ← configure (match get (u"url") with Some (PStr url) => url | _ => [] end) (get_bool (get (u"backfill"))); mret (configure_fields r))
  else if is_action (u"import") then Some (r ← backfill_init (get_bool (get (u"backfill"))); mret (init_fields r))
  else if is_action (u"driverconfig") then Some (r ← driver_config; mret (drivers_fields r))
  else if is_action (u"validate") then
    match get (u"driver"), get (u"config") with
    | Some (PStr driver), Some (PDict config) => Some (r ← validate_form driver config; mret (validate_fields r))
    | _, _ => None
    end
  else None.

Lemma answered_import backfill : answered (r ← backfill_init backfill; mret (init_fields r)) (_importaction backfill).
Proof.
  apply answered_reply; [apply silent_backfill_init|intros r; unfold init_fields; simpl; by rewrite no_float_opt|]. intros init ok.
  destruct (negb ok); [apply replies_ret|]. destruct (negb (ib_success init)); [apply replies_ret|].
  apply replies_then; [apply silent_status|]. intros. by apply replies_modify.
Qed.

Lemma answered_configure url backfill : cn_no_restart cn = false ->
  answered (r ← configure url backfill; mret (configure_fields r)) (_configure url backfill).
Proof.
  intros Hn. apply answered_reply; [by apply silent_configure|intros r; unfold configure_fields; simpl; by rewrite !no_float_opt|]. intros r ok.
  unfold publish_log_path. destruct ok; [|apply replies_ret]. destruct (cf_log_path r); [apply silent_logs|apply replies_ret].
Qed.

Lemma answered_drivers : answered (r ← driver_config; mret (drivers_fields r)) (r ← driver_config; _ ← respond (drivers_fields r); mret tt).
Proof. apply (answered_reply _ _ (fun _ _ => mret tt)); [unfold driver_config; silent|apply no_float_drivers|intros; apply replies_ret]. Qed.

Lemma answered_validate driver config :
  answered (r ← validate_form driver config; mret (validate_fields r)) (r ← validate_form driver config; _ ← respond (validate_fields r); mret tt).
Proof.
  apply (answered_reply _ _ (fun _ _ => mret tt)); [unfold validate_form; silent| |intros; apply replies_ret].
  intros r. unfold validate_fields. simpl. rewrite andb_true_r. apply forallb_Forall, Forall_fmap, Forall_true.
  by intros [field message].
Qed.

(** evaluates the tests of closed strings *)
Ltac eval_names :=
  repeat match goal with
  | |- context [str_eqb ?a ?b] => let r := eval vm_compute in (str_eqb a b) in
      lazymatch r with true => idtac | false => idtac end; change (str_eqb a b) with r
  | |- context [str_in ?a ?b] => let r := eval vm_compute in (str_in a b) in
      lazymatch r with true => idtac | false => idtac end; change (str_in a b) with r
  end; cbn [orb andb].

(** the branch of an action *)
Ltac on_action := match goal with
  | H : str_eqb (nt_action _) _ = true |- _ => apply bool_decide_eq_true in H; unfold answer_of; rewrite H; eval_names
  end.

(** C27: With a server that may restart its worker, every dispatch returns.  A request
    (configure, import, driverconfig, a well-formed validate) is replied to once,
    with the JSON of its handler's answer, whatever the import process, the worker,
    the service and the broker answer - the broker may refuse the reply, which is
    not repeated - or, when that text cannot be encoded, not at all; no other
    notification is replied to. *)
Theorem requests_answered n text s : cn_no_restart cn = false ->
  exists s' l, dispatch n text s = (inr tt, s') /\ cx_trace s' = cx_trace s ++ l /\
    match answer_of n with
    | Some answer => exists fs s1 t, answer s = (inr fs, s1) /\ gojson_struct fs = Some t /\
        sent_replies l = if forallb scalar t then [(t, match (h_respond t (cx_world s1)).1 with inr _ => true | inl _ => false end)] else []
    | None => sent_replies l = []
    end.
Proof.
  intros Hn. enough (match answer_of n with Some answer => answered answer (dispatch n text) | None => replies [] (dispatch n text) end) as H.
  { destruct (answer_of n) as [answer|].
    - destruct (H s) as (fs & s1 & t & s' & l & H1 & H2 & H3 & H4 & H5). exists s', l. split_and!; [done..|]. by exists fs, s1, t.
    - destruct (H s) as ([] & s' & l & H'). by exists s', l. }
  unfold dispatch.
  repeat match goal with
  | |- context [if str_eqb (nt_action n) ?name then _ else _] => destruct (str_eqb (nt_action n) name) eqn:?E; [on_action|]
  end.
  - apply replies_then; [apply silent_status|intros]. apply replies_then; [apply silent_restart|intros]. apply silent_generic.
  - silent.
  - repeat case_match; try apply replies_ret. unfold shutdown, _control_get. silent.
  - apply replies_then; [apply silent_control|intros]. apply silent_generic.
  - apply replies_then; [apply silent_control|intros]. apply silent_generic.
  - repeat case_match; try apply silent_status. apply replies_then; [apply silent_status|intros]. unfold _upgrade.
    apply replies_then; [unfold upgrade; silent|intros]. apply replies_then; [apply silent_publish|intros; apply replies_ret].
  - unfold call_send_logs. apply replies_then; [apply silent_send_logs|intros]. case_match; [apply silent_logs|apply replies_ret].
  - by apply answered_configure.
  - apply answered_import.
  - apply answered_drivers.
  - destruct (dict_get (u"driver") (nt_data n)) as [[]|]; try apply replies_ret.
    destruct (dict_get (u"config") (nt_data n)) as [[]|]; try apply replies_ret. apply answered_validate.
  - assert (answer_of n = None) as ->; [|apply replies_ret]. unfold answer_of. by rewrite E6, E7, E8, E9.
Qed.
End closures.

(** ** Executions *)

Section executions.
Context {W : Type} `{!Host W} (cn : constants) (own_session : pystr).

(** a notification arrives; a job runs; the control plane starts a worker, or
    its worker ended *)
Inductive nstep : Type :=
| Deliver (raw : pyobj)
| RunJob (i : nat)
| WorkerStarts
| WorkerEnds.

Definition cx_worker (running : bool) (s : Ctx (W := W)) : Ctx :=
  mk_ctx (cx_world s) (cx_driver_url s) (cx_configured s || running) (cx_session_id s) (cx_session_dir s) running
    (cx_event s) (cx_jobs s) (cx_trace s).

(** a server that is not configured starts its worker once the event is set *)
Definition nexec (x : nstep) : M (Ctx (W := W)) closure_exn unit :=
  match x with
  | Deliver raw => _callback cn own_session raw
  | RunJob i =>
      jobs ← gets cx_jobs;
      match jobs !! i with
      | Some job => _ ← modify (cx_set_jobs (delete i jobs)); run_import_job cn job
      | None => mret tt
      end
  | WorkerStarts =>
      s ← gets id;
      if cx_configured s || cx_event s then modify (cx_worker true) else mret tt
  | WorkerEnds => modify (cx_worker false)
  end.

Definition nrun (l : list nstep) : M (Ctx (W := W)) closure_exn unit := for_each nexec l.
End executions.

(** ** Runs *)

Module NotificationRun.

(** a host whose worker and service accept everything; the state is the exit
    code of the import process *)
#[local] Instance demo_host : Host Z := {|
  h_control path w := (inr [], w);
  h_import args w := (inr (mk_fork w (u"the last line")), w);
  h_create_export_job w := (inr (u"job-1"), w);
  h_log_upload_url session_id w := (inr (u"https://upload"), w);
  h_file_size file w := None;
  h_upload_log url file w := (inr (u"logs/1"), w);
  h_remove file w := (inr tt, w);
  h_set_config key value w := (inr tt, w);
  h_in_docker w := false;
  h_publish subject body w := (inr tt, w);
  h_pong subject w := (inr tt, w);
  h_respond text w := (inr tt, w)
|}.

Definition demo : constants := mk_constants (u"key") (u"/data") false false false reset_registries.
(** a context in which the import process ends with a code *)
Definition context (code : Z) (configured running : bool) : Ctx :=
  mk_ctx code (u"mysql://db") configured (u"s1") (u"/data/s1") running false [] [].
Definition message (action : pystr) (data : pydict pyobj) : pyobj := PDict [(u"action", PStr action); (u"data", PDict data)].

Lemma import_resumes_witness : exists resp s' w,
  import_action demo (mk_job true (u"job-1")) (context EXIT_SUCCESS true true) = (inr resp, s') /\
  ir_success resp = negb (refused (h_import (import_args demo (u"mysql://db") false false (u"job-1")) w).1) /\
  controls s' = [] ++ [CControl (u"pause")] ++ (if ir_success resp && true && true then [CControl (u"restart")] else []) /\
  cx_event s' = false || (ir_success resp && negb true).
Proof. apply (import_resumes demo (mk_job true (u"job-1")) (context EXIT_SUCCESS true true)). reflexivity. Defined.

Lemma configure_effect_witness : exists resp s' l,
  configure demo (u"kafka://b/t") true (context EXIT_SUCCESS true true) = (inr resp, s') /\ cx_trace s' = [] ++ l /\
  cx_driver_url s' = (if cf_success resp then u"kafka://b/t" else u"mysql://db") /\
  filter (fun c => is_config c = true) l = (if cf_success resp then [CConfig (u"url") (u"kafka://b/t")] else []) /\
  cf_masked_url resp = (if cf_success resp then mask_url (u"kafka://b/t") else None).
Proof. apply (configure_effect demo (u"kafka://b/t") true (context EXIT_SUCCESS true true)). reflexivity. Defined.

Abbreviation import_request := (mk_notification (u"import") [(u"backfill", PBool true)]).

Lemma requests_answered_witness : exists s' l,
  dispatch demo (u"s1") import_request [] (context EXIT_SUCCESS true true) = (inr tt, s') /\
  cx_trace s' = [] ++ l /\
  match answer_of demo import_request with
  | Some answer => exists fs s1 t, answer (context EXIT_SUCCESS true true) = (inr fs, s1) /\ gojson_struct fs = Some t /\
      sent_replies l = if forallb scalar t then [(t, match (h_respond t (cx_world s1)).1 with inr _ => true | inl _ => false end)] else []
  | None => sent_replies l = []
  end.
Proof. apply (requests_answered demo (u"s1") import_request [] (context EXIT_SUCCESS true true)). reflexivity. Defined.

(** the reply to the request *)
Example import_reply : sent_replies (cx_trace (dispatch demo (u"s1") import_request [] (context EXIT_SUCCESS true true)).2) =
  [(u"{" ++ dq ++ u"success" ++ dq ++ u":true," ++ dq ++ u"sessionId" ++ dq ++ u":" ++ dq ++ u"s1" ++ dq ++ u"," ++ dq ++ u"jobId" ++ dq ++
     u":" ++ dq ++ u"job-1" ++ dq ++ u"}", true)].
Proof. by vm_compute. Qed.

(** a server whose worker is not to be restarted exits inside a [configure], which
    then gets no reply *)
Lemma no_restart_unanswered :
  let cn := mk_constants (u"key") (u"/data") false true false reset_registries in
  let '(r, s) := dispatch cn (u"s1") (mk_notification (u"configure") [(u"url", PStr (u"kafka://b/t"))]) [] (context EXIT_SUCCESS true true) in
  r = inl (SysExit EXIT_SUCCESS) /\ sent_replies (cx_trace s) = [].
Proof. by vm_compute. Qed.

Definition import_notification : list nstep := [Deliver (message (u"import") [(u"backfill", PBool true)]); RunJob 0].

(** an import whose arguments are refused leaves the worker paused *)
Lemma refused_import_stays_paused :
  controls (nrun demo (u"s1") import_notification (context EXIT_INCORRECT_USAGE true true)).2 = [CControl (u"pause")].
Proof. by vm_compute. Qed.

(** an import that failed, by a crash or a fatal error, lets an unconfigured
    server start its first worker, and is reported as a success *)
Lemma failed_import_starts_worker :
  let s := (nrun demo (u"s1") (import_notification ++ [WorkerStarts]) (context EXIT_PANIC false false)).2 in
  cx_fork_running s = true /\
  match cx_trace s !! 5%nat with
  | Some (CPublish subject body) => subject = u"eds.client.s1.import-response" /\ dict_get (u"success") body = Some (PBool true)
  | _ => False
  end.
Proof. split; [by vm_compute|]. by vm_compute. Qed.
End NotificationRun.
