(* ===== verification/Kafka.v ===== *)
(** * Kafka: eds/drivers/kafka

    The driver buffers encoded messages and hands the batch to the client
    library at a flush.  The library, the clock and the broker are an instance
    of [KafkaClient] over a world [W]; a delivery report names the producing
    call (its callback) and the message.  [kd_produced] and [kd_delivered]
    record what the client took and what the broker acknowledged.  Log lines
    are left out; instants are in milliseconds.

    The theorems: how a flush ends and what was delivered then, that it ends,
    where the messages of one row go, and the promises of [DurableDriver] over a
    client that reports every message while its leaders are available.  Without
    either, lemmas show a batch that is dropped by a flush that returns. *)
From stdpp Require Import base tactics list option numbers sets strings.
From S2P Require Import Prelude PyStr PyDict PyFloat GoJson Schema DbChange Interfaces Batcher GoUrl DriverConfig Streaming.

(** ** Data *)

(** an exception: is it a KafkaException with the code LEADER_NOT_AVAILABLE,
    and its text; texts that nothing inspects are abbreviated *)
Record kafka_exn := mk_kexn { kx_leader : bool; kx_text : pystr }.

Record KafkaMessage := mk_kmsg {
  km_topic : pystr;
  km_partition : Z;
  km_key : list Z;
  km_value : list Z;
  km_header : list Z      (** the value of the header eds-partitionkey *)
}.

Record TopicMetadata := mk_topic_md { tm_error : option kafka_exn; tm_partitions : nat }.

(** a call of [on_delivery]: of which [produce] round, for which message, with
    which error *)
Record DeliveryReport := mk_report { dr_round : nat; dr_message : KafkaMessage; dr_error : option kafka_exn }.

Class KafkaClient (W : Type) := {
  kc_producer : pystr -> method W kafka_exn unit;
  kc_topic : pystr -> method W kafka_exn (option TopicMetadata);
  kc_produce : nat -> KafkaMessage -> method W kafka_exn unit;
  (** the reports that are delivered while it waits *)
  kc_flush : method W kafka_exn (list DeliveryReport);
  kc_monotonic : W -> Z * W;
  kc_sleep : Z -> W -> W
}.

(** ** Keys and partitions *)

Definition _MAX_IMPORT_BATCH_SIZE : nat := 1000.

Definition zero_division : kafka_exn := mk_kexn false (u"integer modulo by zero").

(** [hash] is the hash of the xxhash package *)
Definition balance (hash : pystr -> pystr) (partition_key_header : option pystr) (msg_key : pystr)
    (partition_count : Z) : option Z :=
  if partition_count =? 1 then Some 0
  else modulo (hash (default msg_key partition_key_header)) partition_count.

Definition is_leader_not_available (e : kafka_exn) : bool :=
  kx_leader e || substr_in (u"leader not available") (lower_full (kx_text e)).

Definition validate_config (vs : values) : pystr * list FieldError :=
  let '(hostname, err1) := get_required_string_value (u"Hostname") vs in
  let port := get_optional_int_value (u"Port") 9092 vs in
  let '(topic, err2) := get_required_string_value (u"Topic") vs in
  match option_errors [err1; err2] with
  | [] => (u"kafka://" ++ hostname ++ u":" ++ str_of_Z port ++ u"/" ++ topic, [])
  | errors => ([], errors)
  end.

(** ** The driver *)

Section driver.
Context {W : Type} `{!KafkaClient W} (hash : pystr -> pystr).

Record KD := mk_kd {
  kd_world : W;
  kd_producer : bool;             (** [_producer] is not [None] *)
  kd_topic : pystr;
  kd_host : pystr;
  kd_partition_count : Z;
  kd_import_dry_run : option bool;   (** of [_import_config] *)
  kd_pending : list (list Z * list Z * pystr);
  kd_rounds : nat;                   (** calls of [_produce_all] *)
  kd_produced : list KafkaMessage;
  kd_delivered : list KafkaMessage
}.

Definition kd_set_world (w : W) (s : KD) : KD :=
  mk_kd w (kd_producer s) (kd_topic s) (kd_host s) (kd_partition_count s) (kd_import_dry_run s) (kd_pending s)
    (kd_rounds s) (kd_produced s) (kd_delivered s).
Definition kd_set_producer (b : bool) (s : KD) : KD :=
  mk_kd (kd_world s) b (kd_topic s) (kd_host s) (kd_partition_count s) (kd_import_dry_run s) (kd_pending s)
    (kd_rounds s) (kd_produced s) (kd_delivered s).
Definition kd_set_topic (topic host : pystr) (s : KD) : KD :=
  mk_kd (kd_world s) (kd_producer s) topic host 0 (kd_import_dry_run s) (kd_pending s)
    (kd_rounds s) (kd_produced s) (kd_delivered s).
Definition kd_set_count (n : Z) (s : KD) : KD :=
  mk_kd (kd_world s) (kd_producer s) (kd_topic s) (kd_host s) n (kd_import_dry_run s) (kd_pending s)
    (kd_rounds s) (kd_produced s) (kd_delivered s).
Definition kd_set_dry_run (b : option bool) (s : KD) : KD :=
  mk_kd (kd_world s) (kd_producer s) (kd_topic s) (kd_host s) (kd_partition_count s) b (kd_pending s)
    (kd_rounds s) (kd_produced s) (kd_delivered s).
Definition kd_set_pending (p : list (list Z * list Z * pystr)) (s : KD) : KD :=
  mk_kd (kd_world s) (kd_producer s) (kd_topic s) (kd_host s) (kd_partition_count s) (kd_import_dry_run s) p
    (kd_rounds s) (kd_produced s) (kd_delivered s).
Definition kd_next_round (s : KD) : KD :=
  mk_kd (kd_world s) (kd_producer s) (kd_topic s) (kd_host s) (kd_partition_count s) (kd_import_dry_run s)
    (kd_pending s) (S (kd_rounds s)) (kd_produced s) (kd_delivered s).
Definition kd_log (p d : list KafkaMessage) (s : KD) : KD :=
  mk_kd (kd_world s) (kd_producer s) (kd_topic s) (kd_host s) (kd_partition_count s) (kd_import_dry_run s)
    (kd_pending s) (kd_rounds s) (kd_produced s ++ p) (kd_delivered s ++ d).

Abbreviation KM A := (M KD kafka_exn A).

Definition py_error (text : pystr) : kafka_exn := mk_kexn false text.
Definition no_attribute : kafka_exn := py_error (u"'NoneType' object has no attribute").
Definition unicode_error : kafka_exn := py_error (u"surrogates not allowed").
Definition event_exn (e : event_error) : kafka_exn := py_error (u"event").
Definition unresolved (topic : pystr) : kafka_exn :=
  py_error (u"unable to resolve partition count for topic " ++ topic).

(** a call of the client *)
Definition on_client {A} (f : method W kafka_exn A) : KM A :=
  fun s : KD => let '(r, w) := f (kd_world s) in (r, kd_set_world w s).

(** a call of a method of [self._producer] *)
Definition on_producer {A} (f : method W kafka_exn A) : KM A :=
  open ← gets kd_producer; if (open : bool) then on_client f else raise no_attribute.

Definition monotonic : KM Z := on_client (fun w => let '(t, w') := kc_monotonic w in (inr t, w')).
Definition sleep (ms : Z) : KM unit := modify (fun s : KD => kd_set_world (kc_sleep ms (kd_world s)) s).

(** reports of an earlier round go to a list nobody reads *)
Definition round_errors (round : nat) (reports : list DeliveryReport) : list kafka_exn :=
  omap dr_error (filter (fun r => dr_round r = round) reports).
Definition reported_ok (reports : list DeliveryReport) : list KafkaMessage :=
  dr_message <$> filter (fun r => dr_error r = None) reports.

Definition producer_flush : KM (list DeliveryReport) :=
  reports ← on_producer kc_flush;
  _ ← modify (kd_log [] (reported_ok reports));
  mret reports.

Definition _connect (url_string : pystr) : KM unit :=
  match parse url_string with
  | inl _ => raise (py_error url_string)
  | inr x =>
      match url_path x with
      | [] => raise (py_error (u"kafka url requires a path which is the topic"))
      | _ :: topic =>
          _ ← modify (kd_set_topic topic (url_host x));
          _ ← on_client (kc_producer (url_host x));
          modify (kd_set_producer true)
      end
  end.

Definition close_producer : KM unit :=
  open ← gets kd_producer;
  if (open : bool) then _ ← producer_flush; modify (kd_set_producer false) else mret tt.

Definition start (url : pystr) : KM unit := _connect url.
Definition stop : KM unit := close_producer.
Definition test (url : pystr) : KM unit := _ ← _connect url; close_producer.
Definition max_batch_size : Z := -1.

Definition _resolve_partition_count : KM Z :=
  count ← gets kd_partition_count;
  if 0 <? count then mret count
  else
    topic ← gets kd_topic;
    md ← on_producer (kc_topic topic);
    match md with
    | None => raise (unresolved topic)
    | Some md =>
        match tm_error md with
        | Some e => raise e
        | None =>
            match tm_partitions md with
            | O => raise (unresolved topic)
            | n => _ ← modify (kd_set_count (Z.of_nat n)); mret (Z.of_nat n)
            end
        end
    end.

Definition produce_one (round : nat) (count : Z) (entry : list Z * list Z * pystr) : KM unit :=
  let '(key, value, pkey) := entry in
  text ← or_raise unicode_error (utf8_decode key);
  partition ← or_raise zero_division (balance hash (Some pkey) text count);
  topic ← gets kd_topic;
  header ← or_raise unicode_error (encode pkey);
  let msg := mk_kmsg topic partition key value header in
  _ ← on_producer (kc_produce round msg);
  modify (kd_log [msg] []).

Definition _produce_all : KM unit :=
  round ← gets kd_rounds;
  _ ← modify kd_next_round;
  count ← _resolve_partition_count;
  pending ← gets kd_pending;
  _ ← for_each (produce_one round count) pending;
  reports ← producer_flush;
  match round_errors round reports with
  | [] => mret tt
  | e :: _ => raise e
  end.

Definition publish_error (e : kafka_exn) : kafka_exn := py_error (u"error publishing message. " ++ kx_text e).

(** not an exception: the loop is still running *)
Definition still_running : kafka_exn := py_error (u"running").

(** [true] when a batch was published before the time was up *)
Fixpoint flush_loop (fuel : nat) (started : Z) : KM bool :=
  match fuel with
  | O => raise still_running
  | S fuel =>
      t ← monotonic;
      if t - started <? 10000 then
        r ← attempt _produce_all;
        match r with
        | inr _ => mret true
        | inl e => if is_leader_not_available e then _ ← sleep 1000; flush_loop fuel started
                   else raise (publish_error e)
        end
      else mret false
  end.

(** ten pauses of a second and the last look at the clock *)
Definition flush_fuel : nat := 11.

Definition flush : KM unit :=
  pending ← gets kd_pending;
  match pending with
  | [] => mret tt
  | _ =>
      started ← monotonic;
      _ ← flush_loop flush_fuel started;
      modify (kd_set_pending [])
  end.

Definition _process (event : DBChangeEvent) (dry_run : bool) : KM unit :=
  let key := message_key (ev_table event) (ev_operation event) (ev_company_id event) (ev_location_id event)
    (ev_id event) in
  '(pk, event) ← on_event event_exn get_primary_key event;
  let pkey := partition_key (ev_table event) (ev_company_id event) (ev_location_id event) pk in
  if dry_run then mret tt
  else
    k ← or_raise unicode_error (encode key);
    v ← or_raise unicode_error (event_bytes event);
    pending ← gets kd_pending;
    let pending := pending ++ [(k, v, pkey)] in
    _ ← modify (kd_set_pending pending);
    if (_MAX_IMPORT_BATCH_SIZE <=? length pending)%nat then flush else mret tt.

Definition process (event : DBChangeEvent) : KM bool := _ ← _process event false; mret false.

(** *** The import handler *)

Definition import_event (event : DBChangeEvent) : KM unit :=
  dry_run ← gets kd_import_dry_run; _process event (default false dry_run).
Definition import_completed : KM unit := _ ← flush; close_producer.

(** [run_import] up to the replay, and whether it gets there *)
Definition begin_import (schema_only dry_run : bool) (url : pystr) : KM bool :=
  if schema_only then mret false
  else _ ← modify (kd_set_dry_run (Some dry_run)); _ ← _connect url; mret true.

#[export] Instance kafka_driver : Driver KD := {|
  drv_process := fun e => as_driver (process e);
  drv_flush := as_driver flush;
  drv_max_batch_size := max_batch_size;
  drv_supports_migration := false;
  drv_migrate_new_table := fun _ => as_driver (raise no_attribute);
  drv_migrate_new_columns := fun _ _ => as_driver (raise no_attribute);
  drv_get_destination_schema := as_driver (raise no_attribute)
|}.
End driver.
Arguments KD W : clear implicits.

(** ** What the client is relied on for *)

Section theorems.
Context {W : Type} `{!KafkaClient W} (hash : pystr -> pystr).
Notation KD := (KD W).
Implicit Type s : KD.

(** the message an entry of the batch becomes *)
Definition message_of (topic : pystr) (count : Z) (entry : list Z * list Z * pystr) (m : KafkaMessage) : Prop :=
  km_topic m = topic /\ (km_key m, km_value m) = entry.1 /\ encode entry.2 = Some (km_header m) /\
  exists text, utf8_decode entry.1.1 = Some text /\ balance hash (Some entry.2) text count = Some (km_partition m).

(** what the operations of the client leave alone *)
Record extends (s0 s : KD) : Prop := {
  ex_producer : kd_producer s = kd_producer s0;
  ex_topic : kd_topic s = kd_topic s0;
  ex_dry_run : kd_import_dry_run s = kd_import_dry_run s0;
  ex_pending : kd_pending s = kd_pending s0;
  ex_count : 0 < kd_partition_count s0 -> kd_partition_count s = kd_partition_count s0;
  ex_produced : kd_produced s0 `prefix_of` kd_produced s;
  ex_delivered : kd_delivered s0 `prefix_of` kd_delivered s
}.

#[local] Instance extends_preorder : PreOrder extends.
Proof.
  split; [by intros s; split|]. intros s1 s2 s3 [] []. split; try congruence; [|by etrans..].
  intros H. rewrite <- ex_count0 by done. apply ex_count1. by rewrite ex_count0.
Qed.

Definition step_ok {A} (m : M KD kafka_exn A) : Prop :=
  forall s0, triple (extends s0) m (fun _ => extends s0) (fun _ => extends s0).

Lemma step_intro {A} (m : M KD kafka_exn A) : (forall s, extends s (m s).2) -> step_ok m.
Proof. intros H s0 s Hs. specialize (H s). destruct (m s) as [[]]; by etrans. Qed.

Lemma step_extends {A} (m : M KD kafka_exn A) s : step_ok m -> extends s (m s).2.
Proof. intros H. specialize (H s s ltac:(done)). by destruct (m s) as [[]]. Qed.

Lemma step_bind {A B} (m : M KD kafka_exn A) (f : A -> M KD kafka_exn B) :
  step_ok m -> (forall a, step_ok (f a)) -> step_ok (m ≫= f).
Proof. intros Hm Hf s0. eapply triple_bind; [apply Hm|]. intros a. apply Hf. Qed.

Lemma step_ret {A} (a : A) : step_ok (mret a).
Proof. by apply step_intro. Qed.
Lemma step_raise {A} e : step_ok (raise e : M KD kafka_exn A).
Proof. by apply step_intro. Qed.
Lemma step_gets {A} (f : KD -> A) : step_ok (gets f).
Proof. by apply step_intro. Qed.
Lemma step_or_raise {A} e (o : option A) : step_ok (or_raise e o).
Proof. destruct o; [apply step_ret|apply step_raise]. Qed.
Lemma step_client {A} (f : method W kafka_exn A) : step_ok (on_client f).
Proof. apply step_intro. intros s. unfold on_client. by destruct (f (kd_world s)). Qed.
Lemma step_log p d : step_ok (modify (kd_log p d)).
Proof. apply step_intro. intros s. split; simpl; try done; by eexists. Qed.
Lemma step_producer {A} (f : method W kafka_exn A) : step_ok (on_producer f).
Proof. apply step_bind; [apply step_gets|]. intros []; [apply step_client|apply step_raise]. Qed.
Lemma step_modify f : (forall s, extends s (f s)) -> step_ok (modify f).
Proof. intros H. by apply step_intro. Qed.
#[local] Hint Resolve step_ret step_raise step_gets step_or_raise step_client step_log step_producer : eds.

Lemma step_flush : step_ok producer_flush.
Proof. apply step_bind; [auto with eds|]. intros r. apply step_bind; auto with eds. Qed.

Lemma step_resolve : step_ok _resolve_partition_count.
Proof.
  intros s0. apply triple_gets_bind. intros count. destruct (Z.ltb_spec 0 count) as [|Hc].
  { apply triple_ret. by intros s []. }
  apply (triple_pre _ (fun s => extends s0 s /\ kd_partition_count s0 <= 0)).
  2: { intros s [Hs <-]. split; [done|]. pose proof (ex_count _ _ Hs). lia. }
  apply triple_pure. intros H0.
  assert (step_ok (topic ← gets kd_topic; on_producer (kc_topic topic))) as Hmd.
  { apply step_bind; auto with eds. }
  specialize (Hmd s0). intros s Hs. specialize (Hmd s Hs). revert Hmd.
  unfold mbind, M_bind, gets. destruct (on_producer _ s) as [[e|[md|]] s1]; [done| |done].
  destruct (tm_error md); [done|]. destruct (tm_partitions md); [done|].
  intros []. split; simpl; try done. lia.
Qed.

(** ** A round *)

Lemma set_same_world s : kd_set_world (kd_world s) s = s.
Proof. by destruct s. Qed.

Definition produce_raises (round : nat) (e : kafka_exn) (s : KD) : Prop :=
  e ∈ [unicode_error; zero_division; no_attribute] \/ exists m w, kc_produce round m (kd_world s) = (inl e, w).

Lemma produce_one_cases round count entry s :
  (exists e w, produce_one hash round count entry s = (inl e, kd_set_world w s) /\ produce_raises round e s) \/
  (exists m w, message_of (kd_topic s) count entry m /\ kd_producer s = true /\
     kc_produce round m (kd_world s) = (inr tt, w) /\
     produce_one hash round count entry s = (inr tt, kd_log [m] [] (kd_set_world w s))).
Proof.
  destruct entry as [[key value] pkey]. unfold produce_one.
  assert (forall e, e ∈ [unicode_error; zero_division; no_attribute] ->
    exists e' w, (inl e, s) = (inl e' : kafka_exn + unit, kd_set_world w s) /\ produce_raises round e' s) as Hstay.
  { intros e He. exists e, (kd_world s). rewrite set_same_world. by split; [|left]. }
  assert (unicode_error ∈ [unicode_error; zero_division; no_attribute]) as Hu by set_solver.
  assert (zero_division ∈ [unicode_error; zero_division; no_attribute]) as Hz by set_solver.
  assert (no_attribute ∈ [unicode_error; zero_division; no_attribute]) as Hn by set_solver.
  destruct (utf8_decode key) as [text|] eqn:Ek; [|left; exact (Hstay _ Hu)].
  rewrite (bind_inr (or_raise _ (Some text)) _ s text s) by done.
  destruct (balance hash (Some pkey) text count) as [p|] eqn:Eb; [|left; exact (Hstay _ Hz)].
  rewrite (bind_inr (or_raise _ (Some p)) _ s p s) by done.
  rewrite (bind_inr (gets kd_topic) _ s (kd_topic s) s) by done.
  destruct (encode pkey) as [header|] eqn:Eh; [|left; exact (Hstay _ Hu)].
  rewrite (bind_inr (or_raise _ (Some header)) _ s header s) by done.
  cbv zeta. set (m := mk_kmsg _ _ _ _ _).
  assert (on_producer (kc_produce round m) s = if kd_producer s then on_client (kc_produce round m) s else (inl no_attribute, s)) as Ep.
  { unfold on_producer, mbind, M_bind, gets. by destruct (kd_producer s). }
  unfold mbind, M_bind. rewrite Ep. destruct (kd_producer s); [|left; exact (Hstay _ Hn)].
  unfold on_client. destruct (kc_produce round m (kd_world s)) as [[e|[]] w] eqn:Ec.
  - left. exists e, w. split; [done|]. right. by exists m, w.
  - right. exists m, w. split; [|done]. split_and!; try done. by exists text.
Qed.

Lemma extends_world s w : extends s (kd_set_world w s).
Proof. by split. Qed.
Lemma extends_log s p d : extends s (kd_log p d s).
Proof. split; simpl; try done; by eexists. Qed.

Lemma step_produce round count entry : step_ok (produce_one hash round count entry).
Proof.
  apply step_intro. intros s. destruct (produce_one_cases round count entry s) as [(e & w & -> & _)|(m & w & _ & _ & _ & ->)].
  - apply extends_world.
  - etrans; [apply extends_world|apply extends_log].
Qed.

Lemma step_for_each {A} (f : A -> M KD kafka_exn unit) l : (forall a, step_ok (f a)) -> step_ok (for_each f l).
Proof. intros Hf s0. apply triple_for_each. intros a. apply Hf. Qed.

Lemma step_next_round : step_ok (modify kd_next_round).
Proof. by apply step_modify. Qed.
#[local] Hint Resolve step_flush step_resolve step_produce step_for_each step_next_round : eds.

Lemma step_produce_all : step_ok (_produce_all hash).
Proof.
  unfold _produce_all. repeat (apply step_bind; [auto with eds|intros ?]). case_match; auto with eds.
Qed.

(** the entries [l] became messages after [pre], in their order *)
Definition handed (s0 : KD) (count : Z) (pre : list KafkaMessage) (l : list (list Z * list Z * pystr)) (s : KD) : Prop :=
  kd_topic s = kd_topic s0 /\
  exists ms, kd_produced s = pre ++ ms /\ Forall2 (message_of (kd_topic s0) count) l ms.

Lemma produce_batch s0 round count pre l l' :
  triple (handed s0 count pre l) (for_each (produce_one hash round count) l')
    (fun _ => handed s0 count pre (l ++ l')) (fun _ _ => True).
Proof.
  revert l. induction l' as [|x l' IH]; intros l.
  { rewrite app_nil_r. by apply triple_ret. }
  cbn [for_each]. apply (triple_bind _ _ _ (fun _ => handed s0 count pre (l ++ [x]))).
  - intros s (Ht & ms & Hp & Hms). destruct (produce_one_cases round count x s) as [(e & w & -> & _)|(m & w & Hm & _ & _ & ->)]; [done|].
    split; [done|]. exists (ms ++ [m]). simpl. rewrite Hp, app_assoc. split; [done|].
    apply Forall2_app; [done|]. constructor; [by rewrite <- Ht|constructor].
  - intros _. replace (l ++ x :: l') with ((l ++ [x]) ++ l') by (by rewrite <- app_assoc). apply IH.
Qed.

(** what resolving the partitions answers is kept in the driver *)
Lemma resolve_count (P : KD -> Prop) :
  (forall s w, P s -> P (kd_set_world w s)) -> (forall s n, P s -> kd_partition_count s <= 0 -> 0 < n -> P (kd_set_count n s)) ->
  triple P _resolve_partition_count (fun n s => P s /\ kd_partition_count s = n /\ 0 < n) (fun _ => P).
Proof.
  intros Hw Hn. apply triple_gets_bind. intros count. destruct (Z.ltb_spec 0 count) as [|Hc].
  { apply triple_ret. by intros s [? ->]. }
  apply (triple_pre _ (fun s => P s /\ kd_partition_count s <= 0)); [|by intros s [? <-]].
  apply triple_gets_bind. intros topic.
  apply (triple_bind _ _ _ (fun _ s => P s /\ kd_partition_count s <= 0)).
  - intros s [[Hs Hle] _]. unfold on_producer, mbind, M_bind, gets, on_client.
    destruct (kd_producer s); [|done]. destruct (kc_topic topic (kd_world s)) as [[e|md] w]; auto.
  - intros [md|]; [|by apply triple_raise; intros s []].
    destruct (tm_error md); [by apply triple_raise; intros s []|].
    destruct (tm_partitions md) as [|n]; [by apply triple_raise; intros s []|].
    intros s [Hs Hle]. split; [apply Hn; [done|done|lia]|]. split; [done|lia].
Qed.

Lemma flush_loop_pending fuel started : step_ok (flush_loop hash fuel started).
Proof.
  induction fuel as [|fuel IH]; [apply step_raise|]. cbn [flush_loop]. apply step_bind; [apply step_client|].
  intros t. case_match; [|auto with eds]. apply step_bind.
  - apply step_intro. intros s. rewrite attempt_eq. exact (step_extends _ s step_produce_all).
  - intros [e|[]]; [|auto with eds]. case_match; [|auto with eds]. apply step_bind; [|done].
    apply step_modify. intros s. apply extends_world.
Qed.

(** ** How a flush ends *)

(** the whole batch went to the client in one round, in its order *)
Definition published (s s' : KD) : Prop :=
  exists pre ms, kd_produced s' = pre ++ ms /\ kd_produced s `prefix_of` pre /\
    Forall2 (message_of (kd_topic s) (kd_partition_count s')) (kd_pending s) ms.

(** the time was up *)
Definition timed_out (s s' : KD) : Prop :=
  exists w t, kc_monotonic w = (t, kd_world s') /\ 10000 <= t - (kc_monotonic (kd_world s)).1.

Lemma produce_all_published s0 :
  triple (extends s0) (_produce_all hash) (fun _ s => extends s0 s /\ published s0 s) (fun _ => extends s0).
Proof.
  intros s1 H1. pose proof (step_produce_all s0 s1 H1) as Hstep.
  assert (triple (extends s0) (_produce_all hash) (fun _ s => published s0 s) (fun _ _ => True)) as H.
  { unfold _produce_all. apply triple_gets_bind. intros round.
    apply (triple_bind _ _ _ (fun _ => extends s0)).
    { apply triple_modify. intros s [[] _]. by split. }
    intros _. apply (triple_bind _ _ _ (fun count s => extends s0 s /\ kd_partition_count s = count /\ 0 < count)).
    { eapply triple_post; [apply (resolve_count (extends s0))|done|done].
      - intros s w Hs. etrans; [exact Hs|apply extends_world].
      - intros s n [] Hle Hn. split; simpl; try done. lia. }
    intros count. apply triple_gets_bind. intros pending.
    apply (triple_bind _ _ _ (fun _ s => kd_partition_count s = count /\ exists pre ms, kd_produced s = pre ++ ms /\
      kd_produced s0 `prefix_of` pre /\ Forall2 (message_of (kd_topic s0) count) (kd_pending s0) ms)).
    - intros s [(Hs & Hc & Hpos) Hp]. pose proof (ex_pending _ _ Hs) as Hp0. rewrite Hp0 in Hp. subst pending.
      pose proof (produce_batch s0 round count (kd_produced s) [] (kd_pending s0) s) as Hb.
      pose proof (step_extends (for_each (produce_one hash round count) (kd_pending s0)) s ltac:(auto with eds)) as He.
      destruct (for_each _ _ s) as [[e|[]] s']; [done|]. simpl in He.
      destruct Hb as (_ & ms & Hms & HF); [split; [apply (ex_topic _ _ Hs)|]; exists []; by rewrite app_nil_r|].
      split; [by rewrite (ex_count _ _ He), Hc by lia|]. exists (kd_produced s), ms.
      split_and!; [done|apply Hs|done].
    - intros _. apply (triple_bind _ _ _ (fun _ s => published s0 s)).
      + intros s [Hc (pre & ms & Hp & Hpre & HF)]. unfold producer_flush, on_producer, mbind, M_bind, gets, on_client.
        destruct (kd_producer s); [|done]. destruct (kc_flush (kd_world s)) as [[e|reports] w]; [done|].
        exists pre, ms. simpl. rewrite app_nil_r, Hc. done.
      + intros reports. destruct (round_errors round reports); [by apply triple_ret|by apply triple_raise]. }
  specialize (H s1 H1). by destruct (_produce_all hash s1) as [[e|[]] s'].
Qed.

Lemma flush_loop_outcomes fuel started s0 :
  triple (extends s0) (flush_loop hash fuel started)
    (fun b s => extends s0 s /\
       if b : bool then published s0 s
       else exists w t, kc_monotonic w = (t, kd_world s) /\ 10000 <= t - started)
    (fun _ => extends s0).
Proof.
  induction fuel as [|fuel IH]; [by apply triple_raise|]. cbn [flush_loop].
  apply (triple_bind _ _ _ (fun t s => extends s0 s /\ exists w, kc_monotonic w = (t, kd_world s))).
  { intros s Hs. unfold monotonic, on_client. destruct (kc_monotonic (kd_world s)) as [t w] eqn:E.
    split; [etrans; [exact Hs|apply extends_world]|]. by exists (kd_world s). }
  intros t. destruct (Z.ltb_spec (t - started) 10000) as [|Ht].
  2: { apply triple_ret. intros s [Hs (w & E)]. split; [done|]. by exists w, t. }
  apply (triple_bind _ _ _ (fun r s => extends s0 s /\ match r with inr _ => published s0 s | inl _ => True end)).
  { intros s [Hs _]. rewrite attempt_eq. pose proof (produce_all_published s0 s Hs) as Hp.
    destruct (_produce_all hash s) as [[e|[]] s']; [done|exact Hp]. }
  intros [e|[]]; [|by apply triple_ret]. destruct (is_leader_not_available e).
  - apply (triple_bind _ _ _ (fun _ => extends s0)); [|intros _; apply IH].
    apply triple_modify. intros s [Hs _]. etrans; [exact Hs|apply extends_world].
  - apply triple_raise. by intros s [].
Qed.

(** a flush that raises keeps the batch; one that returns empties it, after it
    handed the whole batch to the client in order in one round, each entry with
    its key, value and header and the partition of the header - or after ten
    seconds without success. *)
Theorem kafka_flush_outcomes s :
  match flush hash s with
  | (inl _, s') => kd_pending s' = kd_pending s
  | (inr _, s') => kd_pending s' = [] /\ (kd_pending s = [] \/ published s s' \/ timed_out s s')
  end.
Proof.
  unfold flush. rewrite (bind_inr _ _ _ (kd_pending s) s) by done.
  destruct (kd_pending s) as [|x l] eqn:Ep; [by split; [|left]|].
  unfold monotonic at 1, on_client. unfold mbind at 1, M_bind at 1.
  destruct (kc_monotonic (kd_world s)) as [started w] eqn:Ew.
  pose proof (flush_loop_outcomes flush_fuel started (kd_set_world w s) (kd_set_world w s) ltac:(done)) as H.
  unfold mbind, M_bind, modify. destruct (flush_loop _ _ _ _) as [[e|b] s'].
  - rewrite (ex_pending _ _ H). exact Ep.
  - split; [done|]. right. destruct H as [Hs H]. unfold published, timed_out. destruct b; [left|right].
    + destruct H as (pre & ms & Hp & Hpre & HF). exists pre, ms. by split_and!.
    + destruct H as (w' & t & Hw & Ht). exists w', t. by rewrite Ew.
Qed.

(** ** Where the messages of a row go *)

(** the partition is the one of the header among [n] *)
Definition placed (n : Z) (m : KafkaMessage) : Prop :=
  exists pkey, encode pkey = Some (km_header m) /\ balance hash (Some pkey) [] n = Some (km_partition m).

Definition well_placed (s : KD) : Prop :=
  kd_produced s = [] \/ 0 < kd_partition_count s /\ Forall (placed (kd_partition_count s)) (kd_produced s).

Lemma encode_inj a b x : encode a = Some x -> encode b = Some x -> a = b.
Proof. intros Ha%encode_decode Hb%encode_decode. congruence. Qed.

Lemma placed_range n m : 0 < n -> placed n m -> 0 <= km_partition m < n.
Proof.
  intros Hn (pkey & _ & E). unfold balance in E. destruct (Z.eqb_spec n 1); [by injection E as <-; lia|].
  simpl in E. destruct (modulo_in_range (hash pkey) n Hn) as (p & Ep & Hp & _). rewrite Ep in E. by injection E as <-.
Qed.

Lemma placed_header n m m' : placed n m -> placed n m' -> km_header m = km_header m' -> km_partition m = km_partition m'.
Proof.
  intros (p & Hp & E) (p' & Hp' & E') Eh. rewrite Eh in Hp. pose proof (encode_inj _ _ _ Hp Hp'). congruence.
Qed.

Lemma message_placed topic n x m : message_of topic n x m -> placed n m.
Proof. intros (_ & _ & Hh & text & _ & Hb). by exists x.2. Qed.

Definition keeps_placed {A} (m : M KD kafka_exn A) : Prop := triple well_placed m (fun _ => well_placed) (fun _ => well_placed).

Lemma produce_all_placed : keeps_placed (_produce_all hash).
Proof.
  set (I n s := (well_placed s /\ kd_partition_count s = n /\ 0 < n)).
  apply triple_gets_bind. intros round. apply (triple_pre _ well_placed); [|by intros s []].
  apply (triple_bind _ _ _ (fun _ => well_placed)); [by apply triple_modify|]. intros _.
  apply (triple_bind _ _ _ I); [|intros n].
  { apply resolve_count; [done|]. intros s n [Hs|[Hpos _]] Hle Hn; [by left|lia]. }
  assert (forall A (m : M KD kafka_exn A), (forall s, extends s (m s).2 /\ kd_produced (m s).2 = kd_produced s) ->
    triple (I n) m (fun _ => I n) (fun _ => well_placed)) as Hsame.
  { intros A m Hm s (Hs & Hc & Hn). destruct (Hm s) as [He Hp].
    assert (kd_partition_count (m s).2 = n) as Hc' by (rewrite (ex_count _ _ He); lia).
    assert (well_placed (m s).2) as Hw by (unfold well_placed in *; rewrite Hp, Hc'; by rewrite Hc in Hs).
    by destruct (m s) as [[e|a] s']. }
  apply triple_gets_bind. intros pending. apply (triple_pre _ (I n)); [|by intros s []].
  apply (triple_bind _ _ _ (fun _ => I n)).
  - apply (triple_post _ _ _ (fun _ => I n) _ (fun _ => I n)); [|done|by intros e s []].
    apply triple_for_each. intros x s (Hs & Hc & Hn).
    destruct (produce_one_cases round n x s) as [(e & w & -> & _)|(m & w & Hm & _ & _ & ->)]; [done|].
    split; [right|done]. simpl. rewrite Hc. split; [done|]. apply Forall_app. split.
    + destruct Hs as [->|[_ Hs]]; [constructor|]. by rewrite Hc in Hs.
    + apply Forall_singleton. by eapply message_placed.
  - intros _. apply (triple_bind _ _ _ (fun _ => I n)).
    + apply Hsame. intros s. split; [apply step_extends, step_flush|].
      unfold producer_flush, on_producer, mbind, M_bind, gets, on_client. destruct (kd_producer s); [|done].
      destruct (kc_flush (kd_world s)) as [[e|r] w]; [done|]. simpl. by rewrite app_nil_r.
    + intros reports. destruct (round_errors round reports); [apply triple_ret|apply triple_raise]; by intros s [].
Qed.

Lemma flush_loop_placed fuel started : keeps_placed (flush_loop hash fuel started).
Proof.
  induction fuel as [|fuel IH]; [by apply triple_raise|]. cbn [flush_loop].
  apply (triple_bind _ _ _ (fun _ => well_placed)).
  { intros s Hs. unfold monotonic, on_client. by destruct (kc_monotonic (kd_world s)). }
  intros t. case_match; [|by apply triple_ret].
  apply (triple_bind _ _ _ (fun _ => well_placed)).
  { intros s Hs. rewrite attempt_eq. pose proof (produce_all_placed s Hs). by destruct (_produce_all hash s) as [[]]. }
  intros [e|[]]; [|by apply triple_ret]. case_match; [|by apply triple_raise].
  apply (triple_bind _ _ _ (fun _ => well_placed)); [by apply triple_modify|]. by intros _.
Qed.

Lemma flush_placed : keeps_placed (flush hash).
Proof.
  apply triple_gets_bind. intros pending. apply (triple_pre _ well_placed); [|by intros s []].
  destruct pending; [by apply triple_ret|].
  apply (triple_bind _ _ _ (fun _ => well_placed)).
  { intros s Hs. unfold monotonic, on_client. by destruct (kc_monotonic (kd_world s)). }
  intros t. apply (triple_bind _ _ _ (fun _ => well_placed)); [apply flush_loop_placed|].
  intros b. by apply triple_modify.
Qed.

Lemma process_placed event dry_run : keeps_placed (_process hash event dry_run).
Proof.
  apply (triple_bind _ _ _ (fun _ => well_placed)).
  { apply triple_on_event. }
  intros [pk e]. destruct dry_run; [by apply triple_ret|].
  do 2 (apply (triple_bind _ _ _ (fun _ => well_placed)); [apply triple_or_raise|intros ?]).
  apply triple_gets_bind. intros pending. apply (triple_pre _ well_placed); [|by intros s []].
  apply (triple_bind _ _ _ (fun _ => well_placed)); [by apply triple_modify|]. intros _.
  case_match; [apply flush_placed|by apply triple_ret].
Qed.

(** calls of a driver that stays connected, whether they return or raise *)
Inductive kafka_call : Type := KProcess (e : DBChangeEvent) | KImport (e : DBChangeEvent) | KFlush.

Definition kafka_step (c : kafka_call) : M KD kafka_exn unit :=
  match c with
  | KProcess e => _ ← process hash e; mret tt
  | KImport e => import_event hash e
  | KFlush => flush hash
  end.
Definition kafka_run (calls : list kafka_call) : M KD kafka_exn unit :=
  for_each (fun c => _ ← attempt (kafka_step c); mret tt) calls.

Lemma step_placed c : keeps_placed (kafka_step c).
Proof.
  destruct c as [e|e|]; simpl.
  - apply (triple_bind _ _ _ (fun _ => well_placed)); [|intros b; by apply triple_ret].
    apply (triple_bind _ _ _ (fun _ => well_placed)); [apply process_placed|intros b; by apply triple_ret].
  - apply triple_gets_bind. intros b. apply (triple_pre _ well_placed); [|by intros s []]. apply process_placed.
  - apply flush_placed.
Qed.

(** as long as the driver stays connected, every message it hands over goes to
    a partition of the topic, and messages with the same partition key, those
    of one row, all go to the same. *)
Theorem kafka_rows_stay calls s :
  kd_produced s = [] ->
  forall m m', m ∈ kd_produced (kafka_run calls s).2 -> m' ∈ kd_produced (kafka_run calls s).2 ->
  0 <= km_partition m < kd_partition_count (kafka_run calls s).2 /\
  (km_header m = km_header m' -> km_partition m = km_partition m').
Proof.
  intros Hs. assert (well_placed (kafka_run calls s).2) as H.
  { assert (keeps_placed (kafka_run calls)) as Hk.
    { apply triple_for_each. intros c. apply (triple_bind _ _ _ (fun _ => well_placed)); [|intros r; by apply triple_ret].
      intros s1 H1. rewrite attempt_eq. pose proof (step_placed c s1 H1). by destruct (kafka_step c s1) as [[]]. }
    specialize (Hk s ltac:(by left)). by destruct (kafka_run calls s) as [[]]. }
  destruct H as [->|[Hn H]]; [by intros m m' ?%elem_of_nil|]. rewrite Forall_forall in H. intros m m' Hm Hm'.
  split; [by apply placed_range; auto|]. intros E. by eapply placed_header; eauto.
Qed.

(** ** Termination *)

(** the clock does not go back, and a pause takes its time *)
Class KafkaClock := {
  kc_time : W -> Z;
  clock_producer : forall b w, kc_time w <= kc_time (kc_producer b w).2;
  clock_topic : forall t w, kc_time w <= kc_time (kc_topic t w).2;
  clock_produce : forall n m w, kc_time w <= kc_time (kc_produce n m w).2;
  clock_flush : forall w, kc_time w <= kc_time (kc_flush w).2;
  clock_monotonic : forall w, kc_time w <= (kc_monotonic w).1 <= kc_time (kc_monotonic w).2;
  clock_sleep : forall ms w, kc_time w + ms <= kc_time (kc_sleep ms w)
}.

Context `{!KafkaClock}.
Definition not_before (t : Z) (s : KD) : Prop := t <= kc_time (kd_world s).
Definition keeps_time {A} (m : M KD kafka_exn A) : Prop :=
  forall t, triple (not_before t) m (fun _ => not_before t) (fun _ => not_before t).

Lemma time_intro {A} (m : M KD kafka_exn A) : (forall s, kc_time (kd_world s) <= kc_time (kd_world (m s).2)) -> keeps_time m.
Proof. intros Hm t s Hs. specialize (Hm s). unfold not_before in *. destruct (m s) as [[]]; simpl in *; lia. Qed.
Lemma time_bind {A B} (m : M KD kafka_exn A) (f : A -> M KD kafka_exn B) :
  keeps_time m -> (forall a, keeps_time (f a)) -> keeps_time (m ≫= f).
Proof. intros Hm Hf t. eapply triple_bind; [apply Hm|]. intros a. apply Hf. Qed.
Lemma time_pure {A} (m : M KD kafka_exn A) : (forall s, kd_world (m s).2 = kd_world s) -> keeps_time m.
Proof. intros Hm. apply time_intro. intros s. by rewrite Hm. Qed.
Lemma time_or_raise {A} e (o : option A) : keeps_time (or_raise e o).
Proof. intros t. apply triple_or_raise. Qed.
Lemma time_producer {A} (f : method W kafka_exn A) :
  (forall w, kc_time w <= kc_time (f w).2) -> keeps_time (on_producer f).
Proof.
  intros Hf. apply time_bind; [by apply time_pure|]. intros []; [|by apply time_pure].
  apply time_intro. intros s. unfold on_client. specialize (Hf (kd_world s)). by destruct (f (kd_world s)).
Qed.

Lemma time_resolve : keeps_time _resolve_partition_count.
Proof.
  apply time_bind; [by apply time_pure|]. intros n. case_match; [by apply time_pure|].
  apply time_bind; [by apply time_pure|]. intros topic.
  apply time_bind; [apply time_producer, clock_topic|]. intros [md|]; [|by apply time_pure].
  destruct (tm_error md); [by apply time_pure|]. destruct (tm_partitions md); by apply time_pure.
Qed.

Lemma time_produce_one round n x : keeps_time (produce_one hash round n x).
Proof.
  destruct x as [[key value] pkey]. unfold produce_one. do 2 (apply time_bind; [apply time_or_raise|intros ?]).
  apply time_bind; [by apply time_pure|]. intros topic. apply time_bind; [apply time_or_raise|]. intros header.
  apply time_bind; [apply time_producer, clock_produce|]. intros _. by apply time_pure.
Qed.

Lemma time_produce_all : keeps_time (_produce_all hash).
Proof.
  do 2 (apply time_bind; [by apply time_pure|intros ?]). apply time_bind; [apply time_resolve|]. intros n.
  apply time_bind; [by apply time_pure|]. intros pending. apply time_bind.
  { intros t. apply triple_for_each. intros x. apply time_produce_one. }
  intros _. apply time_bind.
  { apply time_bind; [apply time_producer, clock_flush|]. intros r.
    apply time_bind; [by apply time_pure|intros _; by apply time_pure]. }
  intros r. destruct (round_errors _ r); by apply time_pure.
Qed.

Lemma produce_all_round r :
  triple (fun s => kd_rounds s = r) (_produce_all hash) (fun _ s => (kd_rounds s <= S r)%nat) (fun _ s => (kd_rounds s <= S r)%nat).
Proof.
  apply triple_gets_bind. intros round. set (P s := (kd_rounds s <= S r)%nat).
  apply (triple_bind _ _ _ (fun _ => P)); [apply triple_modify; intros s [<- _]; unfold P; simpl; lia|]. intros _.
  apply (triple_bind _ _ _ (fun _ => P)).
  { eapply triple_post; [by apply (resolve_count P)|by intros n s []|done]. }
  intros n.
  apply triple_gets_bind. intros pending. apply (triple_pre _ P); [|by intros s []].
  apply (triple_bind _ _ _ (fun _ => P)).
  - apply triple_for_each. intros x s Hs.
    by destruct (produce_one_cases round n x s) as [(e & w & -> & _)|(m & w & _ & _ & _ & ->)].
  - intros _. apply (triple_bind _ _ _ (fun _ => P)).
    + intros s Hs. unfold producer_flush, on_producer, mbind, M_bind, gets, on_client. destruct (kd_producer s); [|done].
      by destruct (kc_flush (kd_world s)) as [[e|reports] w].
    + intros reports. destruct (round_errors round reports); [by apply triple_ret|by apply triple_raise].
Qed.

Lemma publish_not_running e : publish_error e <> still_running.
Proof. unfold publish_error, py_error, still_running. intros E. by injection E. Qed.

(** with [n] pauses left to the end of the ten seconds the loop needs no more
    fuel, and does not use it up *)
Lemma flush_loop_ends n fuel started s :
  (n < fuel)%nat -> started + 10000 <= kc_time (kd_world s) + 1000 * Z.of_nat n ->
  (forall k, flush_loop hash (fuel + k) started s = flush_loop hash fuel started s) /\
  (flush_loop hash fuel started s).1 <> inl still_running /\
  (kd_rounds (flush_loop hash fuel started s).2 <= kd_rounds s + n)%nat.
Proof.
  revert n s. induction fuel as [|fuel IH]; intros n s Hn Ht; [lia|]. cbn [Nat.add flush_loop].
  unfold monotonic, on_client. pose proof (clock_monotonic (kd_world s)) as Hclock.
  unfold mbind, M_bind. destruct (kc_monotonic (kd_world s)) as [t w]. simpl in Hclock.
  destruct (Z.ltb_spec (t - started) 10000); [|by split_and!; simpl; [|done|lia]].
  destruct n as [|n]; [lia|]. rewrite attempt_eq.
  pose proof (time_produce_all (kc_time w) (kd_set_world w s) ltac:(apply Z.le_refl)) as Htime.
  pose proof (produce_all_round (kd_rounds s) (kd_set_world w s) eq_refl) as Hround.
  destruct (_produce_all hash (kd_set_world w s)) as [[e|[]] s']; simpl in *.
  2: { split_and!; [done|done|lia]. }
  destruct (is_leader_not_available e).
  2: { split_and!; simpl; [done|intros [= E]; by apply (publish_not_running e)|lia]. }
  unfold not_before in Htime. pose proof (clock_sleep 1000 (kd_world s')) as Hsleep.
  destruct (IH n (kd_set_world (kc_sleep 1000 (kd_world s')) s') ltac:(lia)) as (H1 & H2 & H3).
  { simpl. lia. }
  split_and!; [exact H1|exact H2|]. unfold sleep, modify. simpl in *. lia.
Qed.

(** C23: a flush ends, after at most ten rounds: the loop needs no more than its
    eleven looks at the clock. *)
Theorem kafka_flush_terminates s :
  (flush hash s).1 <> inl still_running /\ (kd_rounds (flush hash s).2 <= kd_rounds s + 10)%nat /\
  forall started w k, kc_monotonic (kd_world s) = (started, w) ->
    flush_loop hash (flush_fuel + k) started (kd_set_world w s) = flush_loop hash flush_fuel started (kd_set_world w s).
Proof.
  assert (forall started w, kc_monotonic (kd_world s) = (started, w) ->
    (10 < flush_fuel)%nat /\ started + 10000 <= kc_time (kd_world (kd_set_world w s)) + 1000 * Z.of_nat 10) as Hstart.
  { intros started w E. pose proof (clock_monotonic (kd_world s)) as Hc. rewrite E in Hc. unfold flush_fuel. simpl in *. lia. }
  split_and!.
  3: { intros started w k E. destruct (Hstart started w E) as [H1 H2]. pose proof (flush_loop_ends 10 _ _ _ H1 H2) as (Hk & _). exact (Hk k). }
  all: unfold flush; rewrite (bind_inr _ _ _ (kd_pending s) s) by done; destruct (kd_pending s); [first [done|simpl; lia]|].
  all: unfold monotonic at 1, on_client; unfold mbind at 1, M_bind at 1.
  all: destruct (kc_monotonic (kd_world s)) as [started w]; destruct (Hstart started w eq_refl) as [H1 H2].
  all: destruct (flush_loop_ends 10 _ _ _ H1 H2) as (_ & H3 & H4).
  all: unfold mbind, M_bind, modify; destruct (flush_loop _ _ _ _) as [[e|b] s'];
    [first [exact H4|intros [= ->]; by apply H3]|first [done|exact H4]].
Qed.
End theorems.

(** ** The promises of a destination *)

Section durable.
Context {W : Type} `{!KafkaClient W} (hash : pystr -> pystr).
Notation KD := (KD W).
Implicit Type s : KD.

(** a client that reports every message it took, whose leaders are available
    and whose clock readings in a row are less than ten seconds apart *)
Class KafkaReliable := {
  kr_queue : W -> list (nat * KafkaMessage);
  produce_queues : forall n m w w', kc_produce n m w = (inr tt, w') ->
    (n, m) ∈ kr_queue w' /\ forall x, x ∈ kr_queue w -> x ∈ kr_queue w';
  flush_reports : forall w reports w', kc_flush w = (inr reports, w') ->
    forall n m, (n, m) ∈ kr_queue w -> exists r, r ∈ reports /\ dr_round r = n /\ dr_message r = m;
  clock_prompt : forall w t w1, kc_monotonic w = (t, w1) -> (kc_monotonic w1).1 - t < 10000;
  topic_leader : forall t w e w', kc_topic t w = (inl e, w') -> is_leader_not_available e = false;
  metadata_leader : forall t w md w' e, kc_topic t w = (inr (Some md), w') -> tm_error md = Some e ->
    is_leader_not_available e = false;
  produce_leader : forall n m w e w', kc_produce n m w = (inl e, w') -> is_leader_not_available e = false;
  flush_leader : forall w e w', kc_flush w = (inl e, w') -> is_leader_not_available e = false;
  report_leader : forall w reports w' r e, kc_flush w = (inr reports, w') -> r ∈ reports -> dr_error r = Some e ->
    is_leader_not_available e = false
}.
Context `{!KafkaReliable}.

(** the name of the topic does not read like the error *)
Definition topic_ok (s : KD) : Prop := is_leader_not_available (unresolved (kd_topic s)) = false.

(** an entry of the batch is an item *)
Definition delivered (s : KD) (it : list Z * list Z * pystr) : Prop :=
  exists m, m ∈ kd_delivered s /\ (km_key m, km_value m) = it.1 /\ encode it.2 = Some (km_header m).
Definition buffered (s : KD) (it : list Z * list Z * pystr) : Prop := it ∈ kd_pending s.

Definition entry_of (event : DBChangeEvent) (it : list Z * list Z * pystr) : Prop :=
  exists pk event', get_primary_key event = (inr pk, event') /\
    encode (message_key (ev_table event) (ev_operation event) (ev_company_id event) (ev_location_id event)
      (ev_id event)) = Some it.1.1 /\
    event_bytes event' = Some it.1.2 /\
    it.2 = partition_key (ev_table event') (ev_company_id event') (ev_location_id event') pk.

(** an exception is no leader error; a value comes with [Q] *)
Definition settles {A} (P : KD -> Prop) (m : M KD kafka_exn A) (Q : A -> KD -> Prop) : Prop :=
  triple (fun s => topic_ok s /\ P s) m (fun a s => topic_ok s /\ Q a s) (fun e _ => is_leader_not_available e = false).

Lemma settles_bind {A B} P (m : M KD kafka_exn A) (f : A -> M KD kafka_exn B) R Q :
  settles P m R -> (forall a, settles (R a) (f a) Q) -> settles P (m ≫= f) Q.
Proof. intros Hm Hf. by eapply triple_bind. Qed.

Lemma settles_gets {A B} P (f : KD -> A) (g : A -> M KD kafka_exn B) Q :
  (forall a, settles (fun s => P s /\ f s = a) (g a) Q) -> settles P (gets f ≫= g) Q.
Proof. intros Hg s [Ht Hs]. by apply (Hg (f s) s). Qed.

Lemma settles_resolve : settles (fun _ => True) _resolve_partition_count (fun _ _ => True).
Proof.
  apply settles_gets. intros n. case_match; [by intros s [? _]|].
  apply settles_gets. intros topic.
  apply (settles_bind _ _ _ (fun r s => kd_topic s = topic /\
    match r with Some md => forall e, tm_error md = Some e -> is_leader_not_available e = false | None => True end)).
  - intros s [Ht [_ <-]]. unfold on_producer, mbind, M_bind, gets, on_client. destruct (kd_producer s); [|done].
    destruct (kc_topic _ (kd_world s)) as [[e|[md|]] w] eqn:E; [by eapply topic_leader| |done].
    split; [done|]. split; [done|]. intros e He. by eapply metadata_leader.
  - intros [md|]; [|intros s (Ht & <- & _); exact Ht].
    destruct (tm_error md) as [e|] eqn:Ee; [intros s (Ht & _ & He); by apply He|].
    destruct (tm_partitions md); intros s (Ht & <- & _); exact Ht || by split.
Qed.

(** the entries are queued as messages of the round *)
Definition queued (round : nat) (l : list (list Z * list Z * pystr)) (s : KD) : Prop :=
  forall x, x ∈ l -> exists m, (round, m) ∈ kr_queue (kd_world s) /\ (km_key m, km_value m) = x.1 /\ encode x.2 = Some (km_header m).

Lemma settles_produce round n l l' :
  settles (queued round l) (for_each (produce_one hash round n) l') (fun _ => queued round (l ++ l')).
Proof.
  revert l. induction l' as [|x l' IH]; intros l.
  { rewrite app_nil_r. by apply triple_ret. }
  cbn [for_each]. apply (settles_bind _ _ _ (fun _ => queued round (l ++ [x]))).
  2: { intros _. replace (l ++ x :: l') with ((l ++ [x]) ++ l') by (by rewrite <- app_assoc). apply IH. }
  intros s [Ht Hq]. destruct (produce_one_cases hash round n x s) as [(e & w & -> & He)|(m & w & Hm & _ & Ec & ->)].
  - destruct He as [He|(m & w' & He)]; [|by eapply produce_leader].
    repeat (apply elem_of_cons in He as [->|He]; [done|]). by apply elem_of_nil in He.
  - destruct (produce_queues _ _ _ _ Ec) as [Hin Hkeep]. split; [done|].
    intros y [Hy| ->%list_elem_of_singleton]%elem_of_app.
    + destruct (Hq y Hy) as (m' & Hm' & HE). exists m'. auto.
    + exists m. destruct Hm as (_ & Hkv & Hh & _). auto.
Qed.

Lemma settles_pending {A} P (m : M KD kafka_exn A) Q l :
  settles P m Q -> step_ok m ->
  settles (fun s => P s /\ kd_pending s = l) m (fun a s => Q a s /\ kd_pending s = l).
Proof.
  intros Hm Hs s (Ht & HP & Hl). specialize (Hm s (conj Ht HP)). pose proof (step_extends m s Hs) as He.
  destruct (m s) as [[e|a] s']; [done|]. destruct Hm as [Ht' HQ]. split; [done|]. split; [done|].
  exact (eq_trans (ex_pending _ _ He) Hl).
Qed.

Lemma reported_delivered round reports (l : list (list Z * list Z * pystr)) s w w' :
  kc_flush w = (inr reports, w') -> (forall x, x ∈ l -> exists m, (round, m) ∈ kr_queue w /\
    (km_key m, km_value m) = x.1 /\ encode x.2 = Some (km_header m)) ->
  round_errors round reports = [] ->
  forall x, x ∈ l -> delivered (kd_log [] (reported_ok reports) s) x.
Proof.
  intros Hf Hq He x Hx. destruct (Hq x Hx) as (m & Hin & Hkv & Hh).
  destruct (flush_reports _ _ _ Hf round m Hin) as (r & Hr & Hn & Hm).
  exists m. split; [|done]. simpl. apply elem_of_app. right. apply list_elem_of_fmap. exists r. split; [done|].
  apply list_elem_of_filter. split; [|done]. destruct (dr_error r) as [e|] eqn:Ee; [|done]. exfalso.
  assert (e ∈ round_errors round reports) as Hbad.
  { unfold round_errors. apply list_elem_of_omap. exists r. split; [|done]. by apply list_elem_of_filter. }
  rewrite He in Hbad. by apply elem_of_nil in Hbad.
Qed.

Lemma settles_flush_reports round l :
  settles (queued round l) producer_flush
    (fun reports s => Forall (fun e => is_leader_not_available e = false) (round_errors round reports) /\
       (round_errors round reports = [] -> forall x, x ∈ l -> delivered s x)).
Proof.
  intros s [Ht Hq]. unfold producer_flush, on_producer, mbind, M_bind, gets, on_client.
  destruct (kd_producer s); [|done]. destruct (kc_flush (kd_world s)) as [[e|reports] w] eqn:Ef; [by eapply flush_leader|].
  split; [done|]. split.
  - apply Forall_forall. intros e He. unfold round_errors in He. apply list_elem_of_omap in He as (r & Hr & Hre).
    apply list_elem_of_filter in Hr as [_ Hr]. by eapply report_leader.
  - intros He. by eapply reported_delivered.
Qed.

Lemma settles_produce_all l :
  settles (fun s => kd_pending s = l) (_produce_all hash) (fun _ s => forall x, x ∈ l -> delivered s x).
Proof.
  unfold _produce_all. apply settles_gets. intros round.
  apply (settles_bind _ _ _ (fun _ s => kd_pending s = l)); [by intros s (? & ? & _)|]. intros _.
  apply (settles_bind _ _ _ (fun _ s => kd_pending s = l)).
  { eapply triple_pre; [eapply triple_post; [apply (settles_pending _ _ _ l settles_resolve step_resolve)|
      by intros n s (? & _ & ?)|done]|]. by intros s []. }
  intros n.
  apply settles_gets. intros pending.
  eapply triple_pre; [apply (triple_pure topic_ok (pending = l))|by intros s (? & <- & <-)]. intros ->.
  eapply triple_pre; [apply (settles_bind (fun _ => True) _ _ (fun _ => queued round l))|by intros s].
  { eapply triple_pre; [apply (settles_produce round n [] l)|]. intros s [Ht _]. split; [done|]. by intros x ?%elem_of_nil. }
  intros _. eapply settles_bind; [apply settles_flush_reports|]. intros reports. cbv beta.
  intros s (Ht & Hl & Hd). destruct (round_errors round reports) as [|e es]; [by split; [|apply Hd]|].
  simpl. by apply Forall_cons in Hl as [].
Qed.

Lemma flush_delivers s :
  topic_ok s ->
  match flush hash s with
  | (inr _, s') => topic_ok s' /\ forall x, x ∈ kd_pending s -> delivered s' x
  | (inl _, _) => True
  end.
Proof.
  intros Ht. unfold flush. rewrite (bind_inr _ _ _ (kd_pending s) s) by done.
  destruct (kd_pending s) as [|x l] eqn:Ep; [by split; [|intros y ?%elem_of_nil]|].
  unfold flush_fuel. cbn [flush_loop]. unfold monotonic, on_client. unfold mbind, M_bind, modify.
  destruct (kc_monotonic (kd_world s)) as [started w] eqn:Ew. pose proof (clock_prompt _ _ _ Ew) as Hprompt. simpl.
  destruct (kc_monotonic w) as [t w2]. simpl in Hprompt.
  assert (t - started <? 10000 = true) as -> by (by apply Z.ltb_lt). rewrite attempt_eq.
  pose proof (settles_produce_all (x :: l) (kd_set_world w2 (kd_set_world w s)) (conj Ht Ep)) as H'.
  destruct (_produce_all hash _) as [[e|[]] s']; simpl; [|done]. by rewrite H'.
Qed.

Lemma kafka_flush_grows s :
  kd_topic (flush hash s).2 = kd_topic s /\ kd_delivered s `prefix_of` kd_delivered (flush hash s).2.
Proof.
  unfold flush. rewrite (bind_inr _ _ _ (kd_pending s) s) by done. destruct (kd_pending s); [done|].
  assert (step_ok (started ← monotonic; flush_loop hash flush_fuel started)) as Hs.
  { apply step_bind; [apply step_client|]. intros t. apply flush_loop_pending. }
  pose proof (step_extends _ s Hs) as He. revert He. unfold mbind, M_bind, modify.
  destruct (monotonic s) as [[e|t] s1]; [by intros []|]. destruct (flush_loop _ _ _ _) as [[e|b] s2]; by intros [].
Qed.

Lemma process_cases e s :
  (exists err, process hash e s = (inl err, s)) \/
  exists it, entry_of e it /\
    let s1 := kd_set_pending (kd_pending s ++ [it]) s in
    process hash e s = (inr false, s1) \/
    process hash e s = (match (flush hash s1).1 with inl err => inl err | inr _ => inr false end, (flush hash s1).2).
Proof.
  unfold process, _process, on_event. generalize _MAX_IMPORT_BATCH_SIZE. intros limit.
  destruct (get_primary_key e) as [[err|pk] e'] eqn:Ek; [by left; eexists|].
  unfold mbind, M_bind, or_raise.
  destruct (encode (message_key _ _ _ _ _)) as [k|] eqn:E1; [|by left; eexists].
  simpl. destruct (event_bytes e') as [v|] eqn:E2; [|by left; eexists].
  right. exists (k, v, partition_key (ev_table e') (ev_company_id e') (ev_location_id e') pk).
  split; [by exists pk, e'|]. simpl. unfold gets, modify. destruct (limit <=? _)%nat; [right|by left].
  unfold mret, M_ret. by destruct (flush hash _) as [[err|[]] s'].
Qed.

Lemma delivered_mono s s' it : kd_delivered s `prefix_of` kd_delivered s' -> delivered s it -> delivered s' it.
Proof. intros [l E] (m & Hm & H'). exists m. rewrite E. split; [set_solver|done]. Qed.

(** a call that raised or returned, with a flush inside or without *)
Lemma flush_result s x s' :
  topic_ok s -> flush hash s = (inr x, s') -> topic_ok s' /\ forall it, buffered s it -> delivered s' it.
Proof. intros Ht E. pose proof (flush_delivers s Ht) as Hd. by rewrite E in Hd. Qed.

Lemma process_result e s b s' :
  topic_ok s -> process hash e s = (inr b, s') ->
  topic_ok s' /\ exists new, entry_of e new /\ forall it, buffered s it \/ it = new -> buffered s' it \/ delivered s' it.
Proof.
  intros Ht E. destruct (process_cases e s) as [[err E']|(new & Hnew & [E'|E'])]; rewrite E in E'; [done| |].
  - injection E' as _ ->. split; [done|]. exists new. split; [done|]. intros it [Hit| ->]; left; unfold buffered; simpl; set_solver.
  - set (s1 := kd_set_pending _ s) in *. destruct (flush hash s1) as [[err|u] s2] eqn:Ef; [done|]. injection E' as _ ->.
    destruct (flush_result s1 u s2 Ht Ef) as [Ht2 Hd]. split; [done|]. exists new. split; [done|].
    intros it Hit. right. apply Hd. unfold buffered. simpl. destruct Hit as [Hit| ->]; set_solver.
Qed.

Lemma process_delivered e s : kd_delivered s `prefix_of` kd_delivered (process hash e s).2.
Proof.
  destruct (process_cases e s) as [[err ->]|(new & _ & [->|E])]; [done..|]. rewrite E. simpl.
  destruct (kafka_flush_grows (kd_set_pending (kd_pending s ++ [new]) s)) as [_ Hd]. exact Hd.
Qed.

Lemma kafka_process_preserves e : preserves topic_ok buffered delivered (drv_process (Driver := kafka_driver hash) e).
Proof.
  split.
  - intros s it _. simpl. rewrite as_driver_state. apply delivered_mono, process_delivered.
  - intros s b s' Ht E%as_driver_inr. destruct (process_result e s b s' Ht E) as (Ht' & new & _ & Hk). auto.
Qed.

Lemma kafka_flush_preserves : preserves topic_ok buffered delivered (drv_flush (Driver := kafka_driver hash)).
Proof.
  split.
  - intros s it _. simpl. rewrite as_driver_state. apply delivered_mono. by destruct (kafka_flush_grows s).
  - intros s [] s' Ht E%as_driver_inr. destruct (flush_result s _ s' Ht E). auto.
Qed.

Lemma kafka_raise_preserves {A} e : preserves topic_ok buffered delivered (as_driver (raise e : M KD kafka_exn A)).
Proof. by split. Qed.

Lemma kafka_process_takes e s b s' :
  topic_ok s -> drv_process (Driver := kafka_driver hash) e s = (inr b, s') ->
  exists it, entry_of e it /\ (buffered s' it \/ delivered s' it).
Proof.
  intros Ht E%as_driver_inr. destruct (process_result e s b s' Ht E) as (_ & new & Hn & Hk).
  exists new. auto.
Qed.

Lemma kafka_flush_stores s s' it :
  topic_ok s -> drv_flush (Driver := kafka_driver hash) s = (inr tt, s') -> buffered s it -> delivered s' it.
Proof. intros Ht E%as_driver_inr. by apply (flush_result s tt s' Ht E). Qed.

#[export] Instance kafka_durable : @DurableDriver KD (list Z * list Z * pystr) (kafka_driver hash) := {|
  renders := entry_of;
  driver_ok := topic_ok;
  held := buffered;
  stored := delivered;
  process_preserves := kafka_process_preserves;
  flush_preserves := kafka_flush_preserves;
  table_preserves := fun _ => kafka_raise_preserves _;
  columns_preserves := fun _ _ => kafka_raise_preserves _;
  process_takes := kafka_process_takes;
  flush_stores := kafka_flush_stores
|}.
End durable.

(** ** From the form to the connection *)

(** no value of the form holds a character with a meaning in the URL *)
Definition kafka_form_ok (vs : values) : bool :=
  plain_host (form_string (u"Hostname") vs) && (0 <=? form_port 9092 vs) && literal path_marks (form_string (u"Topic") vs).

Definition broker_of (vs : values) : pystr := form_string (u"Hostname") vs ++ u":" ++ str_of_Z (form_port 9092 vs).

(** a form is answered with its missing fields, or with a URL on which the
    driver connects: the producer is made for the host and port of the form
    (9092 when it has none), the topic is the topic of the form, and the
    partition count of an earlier topic is forgotten. *)
Theorem kafka_form_connects {W} `{!KafkaClient W} vs url errors (s : KD W) :
  validate_config vs = (url, errors) ->
  errors = missing_fields [u"Hostname"; u"Topic"] vs /\
  (errors = [] -> kafka_form_ok vs = true ->
   let r := kc_producer (broker_of vs) (kd_world s) in
   let s1 := kd_set_world r.2 (kd_set_topic (form_string (u"Topic") vs) (broker_of vs) s) in
   _connect url s = match r.1 with inl e => (inl e, s1) | inr _ => (inr tt, kd_set_producer true s1) end).
Proof.
  intros E. unfold validate_config in E.
  rewrite (surjective_pairing (get_required_string_value (u"Hostname") vs)) in E.
  rewrite (surjective_pairing (get_required_string_value (u"Topic") vs)) in E.
  change (option_errors _) with (missing_fields [u"Hostname"; u"Topic"] vs) in E.
  destruct (missing_fields [u"Hostname"; u"Topic"] vs) as [|e es]; [|by injection E as <- <-].
  injection E as <- <-. split; [done|]. intros _ Hf. unfold kafka_form_ok in Hf. bool_prop.
  fold (form_string (u"Hostname") vs) (form_string (u"Topic") vs) (form_port 9092 vs).
  destruct (db_url_parse 9092 (form_port 9092 vs) (form_string (u"Hostname") vs) H H1 [] [] eq_refl eq_refl
    (u"kafka") (form_string (u"Topic") vs) eq_refl H0) as [raw Hp].
  cbv zeta. match goal with |- _connect ?x s = _ => assert (parse x = parse (u"kafka" ++ u"://" ++
    db_authority [] [] (db_host 9092 (form_string (u"Hostname") vs) (form_port 9092 vs)) ++ u"/" ++
    form_string (u"Topic") vs)) as Hx end.
  { unfold db_authority, db_host. change (nonempty []) with false. change (0 <? 9092) with true. cbv iota.
    f_equal. rewrite <- !app_assoc. unfold u. simpl. do 8 f_equal. }
  unfold _connect. rewrite Hx, Hp. cbn [url_path url_host]. unfold mbind, M_bind, modify, on_client. simpl.
  change (db_host 9092 (form_string (u"Hostname") vs) (form_port 9092 vs)) with (broker_of vs).
  by destruct (kc_producer (broker_of vs) (kd_world s)) as [[e|[]] w].
Qed.

(** ** Clients *)
Module KafkaRun.

(** a clock and a queue *)
Record Broker := mk_broker { br_now : Z; br_queue : list (nat * KafkaMessage) }.
Definition br_take (n : nat) (m : KafkaMessage) (w : Broker) : Broker := mk_broker (br_now w) (br_queue w ++ [(n, m)]).
Definition br_pause (ms : Z) (w : Broker) : Broker := mk_broker (br_now w + Z.max 0 ms) (br_queue w).

(** a topic of three partitions, and a broker that acknowledges everything *)
Definition sample_client : KafkaClient Broker := {|
  kc_producer := fun _ w => (inr tt, w);
  kc_topic := fun _ w => (inr (Some (mk_topic_md None 3)), w);
  kc_produce := fun n m w => (inr tt, br_take n m w);
  kc_flush := fun w => (inr ((fun x => mk_report x.1 x.2 None) <$> br_queue w), mk_broker (br_now w) []);
  kc_monotonic := fun w => (br_now w, w);
  kc_sleep := br_pause
|}.

(** the leader is never available *)
Definition outage_client : KafkaClient Broker := {|
  kc_producer := fun _ w => (inr tt, w);
  kc_topic := fun _ w => (inr (Some (mk_topic_md (Some (mk_kexn true (u"Broker: Leader not available"))) 0)), w);
  kc_produce := fun n m w => (inr tt, br_take n m w);
  kc_flush := fun w => (inr [], w);
  kc_monotonic := fun w => (br_now w, w);
  kc_sleep := br_pause
|}.

(** the broker does not answer within the ten seconds [Producer.flush] waits *)
Definition slow_client : KafkaClient Broker := {|
  kc_producer := fun _ w => (inr tt, w);
  kc_topic := fun _ w => (inr (Some (mk_topic_md None 3)), w);
  kc_produce := fun n m w => (inr tt, br_take n m w);
  kc_flush := fun w => (inr [], br_pause 10000 w);
  kc_monotonic := fun w => (br_now w, w);
  kc_sleep := br_pause
|}.

Definition xxhash_stub (s : pystr) : pystr := s.

Definition connected : KD Broker := mk_kd (mk_broker 0 []) true (u"changes") (u"kafka:9092") 0 None [] 0 [] [].

#[local] Instance sample_clock : @KafkaClock Broker sample_client.
Proof. refine {| kc_time := br_now |}; intros; simpl; lia. Defined.

Lemma sample_reliable : @KafkaReliable Broker sample_client.
Proof.
  refine {| kr_queue := br_queue |}; simpl.
  - intros n m w w' [= <-]. simpl. split; [set_solver|]. intros x Hx. set_solver.
  - intros w reports w' [= <- <-] n m Hx. exists (mk_report n m None). split; [|done].
    apply list_elem_of_fmap. by exists (n, m).
  - intros w t w1 [= <- <-]. lia.
  - done.
  - by intros t w md w' e [= <- <-].
  - done.
  - done.
  - intros w reports w' r e [= <- <-] Hr He. apply list_elem_of_fmap in Hr as (x & -> & _). done.
Qed.

Definition two_changes : list kafka_call := [KProcess sample_event; KFlush; KProcess sample_event; KFlush].

Lemma kafka_rows_stay_witness :
  length (kd_produced (kafka_run (KafkaClient0 := sample_client) xxhash_stub two_changes connected).2) = 2%nat /\
  forall m m', m ∈ kd_produced (kafka_run (KafkaClient0 := sample_client) xxhash_stub two_changes connected).2 ->
    m' ∈ kd_produced (kafka_run (KafkaClient0 := sample_client) xxhash_stub two_changes connected).2 ->
    0 <= km_partition m < 3 /\ (km_header m = km_header m' -> km_partition m = km_partition m').
Proof.
  split; [vm_compute; reflexivity|].
  exact (kafka_rows_stay (KafkaClient0 := sample_client) xxhash_stub two_changes connected eq_refl).
Defined.

Definition loaded : KD Broker := kd_set_pending [([107], [118], u"t.c.l.1")] connected.

Lemma kafka_flush_terminates_witness :
  (flush (KafkaClient0 := sample_client) xxhash_stub loaded).1 <> inl still_running.
Proof. exact (proj1 (kafka_flush_terminates (KafkaClient0 := sample_client) xxhash_stub loaded)). Defined.

Definition kafka_form : values :=
  [(u"Hostname", PStr (u"kafka.example.com")); (u"Port", PStr (u"9093")); (u"Topic", PStr (u"eds changes"))].

Lemma kafka_form_connects_witness :
  let s := (_connect (KafkaClient0 := sample_client) (validate_config kafka_form).1 connected).2 in
  kd_topic s = u"eds changes" /\ kd_host s = u"kafka.example.com:9093".
Proof.
  destruct (kafka_form_connects (KafkaClient0 := sample_client) kafka_form (validate_config kafka_form).1 [] connected)
    as [_ H]; [by vm_compute|].
  cbv zeta. rewrite (H eq_refl ltac:(by vm_compute)). by vm_compute.
Defined.

(** while the leader stays unavailable a flush returns after ten rounds with the
    batch gone and nothing handed to the client *)
Lemma outage_drops_batch :
  let r := flush (KafkaClient0 := outage_client) xxhash_stub loaded in
  r.1 = inr tt /\ kd_pending r.2 = [] /\ kd_produced r.2 = [] /\ kd_rounds r.2 = 10%nat.
Proof. by vm_compute. Qed.

(** messages that are still in the client's queue when its flush times out count
    as published *)
Lemma slow_broker_drops_batch :
  let r := flush (KafkaClient0 := slow_client) xxhash_stub loaded in
  r.1 = inr tt /\ kd_pending r.2 = [] /\ kd_delivered r.2 = [] /\ length (br_queue (kd_world r.2)) = 1%nat.
Proof. by vm_compute. Qed.
End KafkaRun.
