(* ===== verification/EventHub.v ===== *)
(** * Azure Event Hubs: eds/drivers/eventhub

    Events collect in a [Batcher]; a flush groups neighbours with the same
    partition key, builds a batch per group and sends the batches in order.  The
    SDK is an instance of [HubClient]; [hd_sent] records the batches a send
    returned for, with the events that were added to them.

    The theorems: what a plan is, what a flush sends, that the connection string
    of a form reaches the SDK as it was given, and the promises of
    [DurableDriver]. *)
From stdpp Require Import base tactics list option numbers sets strings.
From S2P Require Import Prelude PyStr PyDict PyFloat GoJson Schema DbChange Interfaces Batcher GoUrl DriverConfig Streaming.

Definition _MAX_IMPORT_BATCH_SIZE : nat := 100.
Definition _CONTENT_TYPE : pystr := u"application/json".

(** ** Connection string *)

Definition parse_connection_string (url_string : pystr) : res pystr :=
  x ← parse url_string;
  t ← url_str (mk_url (u"sb") (url_opaque x) (url_user x) (url_host x) (url_path x) (url_raw_path x)
                 (url_force_query x) (url_raw_query x) (url_fragment x) (url_raw_fragment x));
  mret (u"Endpoint=" ++ t).

Definition validate_config (vs : values) : pystr * list FieldError :=
  let '(val, err) := get_required_string_value (u"Connection String") vs in
  match err with
  | Some e => ([], [e])
  | None =>
      if negb (startswith (u"Endpoint=") val) then
        ([], [mk_field_error (u"Connection String") (u"expected to start with the prefix Endpoint=")])
      else
        match find_str (u"://") val with
        | None => ([], [mk_field_error (u"Connection String") (u"expected a url scheme after Endpoint= prefix")])
        | Some i => (u"eventhub://" ++ drop (i + 3) val, [])
        end
  end.

(** ** Plan *)

Definition new_partition_key : pystr -> option pystr -> option pystr -> pystr -> pystr := partition_key.

Definition get_keys (table operation company_id location_id id : pystr) : pystr * pystr :=
  (message_key table operation (Some company_id) (Some location_id) id,
   new_partition_key table (Some company_id) (Some location_id) id).

Record EventBatchGroup := mk_group { g_partition_key : pystr; g_events : list (BRecord * pystr) }.

(** a field of the object, when it is a string *)
Definition object_str (name : pystr) (record : BRecord) : pystr :=
  match r_object record with
  | Some d => match dict_get name d with Some (PStr v) => v | _ => [] end
  | None => []
  end.

Definition record_keys (record : BRecord) : pystr * pystr :=
  get_keys (r_table record) (r_operation record) (object_str (u"companyId") record)
    (object_str (u"locationId") record) (r_id record).

(** [groups[-1].events.append(...)] *)
Fixpoint append_last (x : BRecord * pystr) (groups : list EventBatchGroup) : list EventBatchGroup :=
  match groups with
  | [] => []
  | [g] => [mk_group (g_partition_key g) (g_events g ++ [x])]
  | g :: rest => g :: append_last x rest
  end.

(** one round of the loop over the groups and [pending_partition_key] *)
Definition plan_step (acc : list EventBatchGroup * option pystr) (record : BRecord) :
    list EventBatchGroup * option pystr :=
  let '(groups, pending) := acc in
  let '(key, pkey) := record_keys record in
  if bool_decide (pending = Some pkey) && (match groups with [] => false | _ => true end)
  then (append_last (record, key) groups, pending)
  else (groups ++ [mk_group pkey [(record, key)]], Some pkey).

Definition plan_batches (records : list BRecord) : list EventBatchGroup := (foldl plan_step ([], None) records).1.

(** ** The driver *)

Record EventData := mk_data {
  ed_body : list Z;
  ed_message_id : pystr;
  ed_content_type : pystr;
  ed_object_id : pystr
}.

Inductive hub_exn : Type := HubConnect | HubClientError | HubEvent (e : event_error) | HubUnicode | HubAssertion | HubNoProducer.

Class HubClient (W : Type) := {
  HBatch : Type;
  hc_connect : pystr -> method W unit unit;
  hc_create_batch : pystr -> method W unit HBatch;
  (** raises when the batch is full *)
  hc_add : EventData -> HBatch -> unit + HBatch;
  hc_send_batch : HBatch -> method W unit unit;
  hc_close : method W unit unit
}.

Section driver.
Context {W : Type} `{!HubClient W}.

Record HD := mk_hd {
  hd_world : W;
  hd_producer : bool;
  hd_batcher : list BRecord;
  hd_dry_run : bool;
  hd_stopped : bool;
  hd_sent : list (pystr * list EventData)
}.

Definition hd_set_world (w : W) (s : HD) : HD :=
  mk_hd w (hd_producer s) (hd_batcher s) (hd_dry_run s) (hd_stopped s) (hd_sent s).
Definition hd_set_producer (s : HD) : HD :=
  mk_hd (hd_world s) true (hd_batcher s) (hd_dry_run s) (hd_stopped s) (hd_sent s).
Definition hd_set_batcher (b : list BRecord) (s : HD) : HD :=
  mk_hd (hd_world s) (hd_producer s) b (hd_dry_run s) (hd_stopped s) (hd_sent s).
Definition hd_set_dry_run (b : bool) (s : HD) : HD :=
  mk_hd (hd_world s) (hd_producer s) (hd_batcher s) b (hd_stopped s) (hd_sent s).
Definition hd_set_stopped (s : HD) : HD :=
  mk_hd (hd_world s) (hd_producer s) (hd_batcher s) (hd_dry_run s) true (hd_sent s).
Definition hd_log (x : pystr * list EventData) (s : HD) : HD :=
  mk_hd (hd_world s) (hd_producer s) (hd_batcher s) (hd_dry_run s) (hd_stopped s) (hd_sent s ++ [x]).

Abbreviation HM A := (M HD hub_exn A).

Definition on_hub {A} (f : method W unit A) : HM A :=
  fun s : HD => let '(r, w) := f (hd_world s) in
    (match r with inl _ => inl HubClientError | inr a => inr a end, hd_set_world w s).

(** a call of a method of [self._producer] *)
Definition on_producer {A} (f : method W unit A) : HM A :=
  open ← gets hd_producer; if (open : bool) then on_hub f else raise HubNoProducer.

Definition _connect (url_string : pystr) : HM unit :=
  match parse_connection_string url_string with
  | inl _ => raise HubConnect
  | inr conn =>
      r ← attempt (on_hub (hc_connect conn));
      match r with
      | inl _ => raise HubConnect
      | inr _ => modify hd_set_producer
      end
  end.

Definition start (url : pystr) : HM unit := _ ← modify (hd_set_batcher []); _connect url.
Definition max_batch_size : Z := -1.

Definition add_event (event : DBChangeEvent) : HM unit :=
  b ← gets hd_batcher;
  let '(r, b') := batcher_add event b in
  _ ← modify (hd_set_batcher b');
  match r with inl e => raise (HubEvent e) | inr _ => mret tt end.

Definition process (event : DBChangeEvent) : HM bool := _ ← add_event event; mret false.

Definition _snapshot_and_plan : HM (nat * list EventBatchGroup) :=
  records ← gets hd_batcher;
  match records with
  | [] => mret (0%nat, [])
  | _ => _ ← modify (hd_set_batcher (batcher_clear records)); mret (length records, plan_batches records)
  end.

(** the EventData of a record *)
Definition data_of (x : BRecord * pystr) : hub_exn + EventData :=
  match r_event x.1 with
  | None => inl HubAssertion
  | Some event =>
      match event_bytes event with
      | None => inl HubUnicode
      | Some body => inr (mk_data body (ev_id event) _CONTENT_TYPE x.2)
      end
  end.

(** the loop over the events of a group: the batch, and what was added *)
Fixpoint fill (events : list (BRecord * pystr)) (batch : HBatch) (added : list EventData) : HM (HBatch * list EventData) :=
  match events with
  | [] => mret (batch, added)
  | x :: rest =>
      match data_of x with
      | inl e => raise e
      | inr data =>
          match hc_add data batch with
          | inl _ => raise HubClientError
          | inr batch => fill rest batch (added ++ [data])
          end
      end
  end.

Fixpoint build (groups : list EventBatchGroup) : HM (list (HBatch * (pystr * list EventData))) :=
  match groups with
  | [] => mret []
  | g :: rest =>
      batch ← on_producer (hc_create_batch (g_partition_key g));
      '(batch, added) ← fill (g_events g) batch [];
      built ← build rest;
      mret ((batch, (g_partition_key g, added)) :: built)
  end.

Definition send_one (x : HBatch * (pystr * list EventData)) : HM unit :=
  dry_run ← gets hd_dry_run;
  if (dry_run : bool) then mret tt
  else _ ← on_producer (hc_send_batch x.1); modify (hd_log x.2).

Definition flush : HM unit :=
  '(count, groups) ← _snapshot_and_plan;
  if (count =? 0)%nat then mret tt
  else
    built ← build groups;
    for_each send_one built.

Definition close_producer : HM unit :=
  open ← gets hd_producer; if (open : bool) then on_hub hc_close else mret tt.

Definition stop : HM unit :=
  stopped ← gets hd_stopped;
  if (stopped : bool) then mret tt
  else _ ← modify hd_set_stopped; _ ← flush; close_producer.

Definition test (url : pystr) : HM unit := _ ← _connect url; close_producer.

(** *** The import handler *)

Definition import_event (event : DBChangeEvent) : HM unit :=
  _ ← add_event event;
  b ← gets hd_batcher;
  if (_MAX_IMPORT_BATCH_SIZE <=? batcher_len b)%nat then flush else mret tt.

Definition import_completed : HM unit := flush.

(** [run_import] up to the replay, and whether it gets there *)
Definition begin_import (schema_only dry_run : bool) (url : pystr) : HM bool :=
  if schema_only then mret false
  else
    _ ← _connect url;
    _ ← modify (hd_set_dry_run dry_run);
    _ ← modify (hd_set_batcher []);
    mret true.

#[export] Instance hub_driver : Driver HD := {|
  drv_process := fun e => as_driver (process e);
  drv_flush := as_driver flush;
  drv_max_batch_size := max_batch_size;
  drv_supports_migration := false;
  drv_migrate_new_table := fun _ => as_driver (raise HubAssertion);
  drv_migrate_new_columns := fun _ _ => as_driver (raise HubAssertion);
  drv_get_destination_schema := as_driver (raise HubAssertion)
|}.
End driver.
Arguments HD W : clear implicits.

(** ** What a plan is *)

Definition keyed (r : BRecord) : BRecord * pystr := (r, (record_keys r).1).
Definition pkey_of (r : BRecord) : pystr := (record_keys r).2.

(** a group holds events of its key only, and at least one *)
Definition group_ok (g : EventBatchGroup) : Prop :=
  g_events g <> [] /\ Forall (fun x => pkey_of x.1 = g_partition_key g) (g_events g).

(** neighbours have different keys *)
Definition apart (gs : list EventBatchGroup) : Prop :=
  forall l a b r, gs = l ++ a :: b :: r -> g_partition_key a <> g_partition_key b.

Record plan_ok (done : list BRecord) (gs : list EventBatchGroup) (pending : option pystr) : Prop := {
  po_events : concat (g_events <$> gs) = keyed <$> done;
  po_groups : Forall group_ok gs;
  po_pending : pending = g_partition_key <$> last gs;
  po_apart : apart gs
}.

Lemma append_last_snoc x gs g :
  append_last x (gs ++ [g]) = gs ++ [mk_group (g_partition_key g) (g_events g ++ [x])].
Proof.
  induction gs as [|h gs IH]; [done|]. cbn [app append_last]. rewrite IH. by destruct gs.
Qed.

Lemma apart_snoc gs g :
  apart gs -> (forall h, last gs = Some h -> g_partition_key h <> g_partition_key g) -> apart (gs ++ [g]).
Proof.
  intros Ha Hl l a b r E. destruct r as [|c r _] using rev_ind.
  - replace (l ++ [a; b]) with ((l ++ [a]) ++ [b]) in E by (by rewrite <- app_assoc).
    apply app_inj_tail in E as [-> ->]. apply Hl. by rewrite last_snoc.
  - replace (l ++ a :: b :: r ++ [c]) with ((l ++ a :: b :: r) ++ [c]) in E by (by rewrite <- app_assoc).
    apply app_inj_tail in E as [-> _]. by eapply Ha.
Qed.

Lemma apart_same_key gs g g' :
  g_partition_key g' = g_partition_key g -> apart (gs ++ [g]) -> apart (gs ++ [g']).
Proof.
  intros Hk Ha. apply apart_snoc.
  - intros l a b r E. apply (Ha l a b (r ++ [g])). rewrite E. by rewrite <- app_assoc.
  - intros h Hh. apply last_Some in Hh as [l ->]. rewrite Hk. apply (Ha l h g []). by rewrite <- app_assoc.
Qed.

Lemma plan_step_ok done gs pending r :
  plan_ok done gs pending -> plan_ok (done ++ [r]) (plan_step (gs, pending) r).1 (plan_step (gs, pending) r).2.
Proof.
  intros [He Hg Hp Ha]. unfold plan_step. rewrite (surjective_pairing (record_keys r)).
  fold (pkey_of r). change (r, (record_keys r).1) with (keyed r).
  destruct (bool_decide_reflect (pending = Some (pkey_of r))) as [Ep|Ep]; cbn [andb].
  - destruct gs as [|g gs _] using rev_ind; [by rewrite Hp in Ep|].
    rewrite last_snoc in Hp. assert (g_partition_key g = pkey_of r) as Hk by (rewrite Hp in Ep; by injection Ep).
    assert ((match gs ++ [g] with [] => false | _ => true end) = true) as -> by (by destruct gs).
    simpl. rewrite append_last_snoc. apply Forall_app in Hg as [Hgs Hg]. apply Forall_singleton in Hg as [Hne Hall].
    split.
    + rewrite !fmap_app, concat_app in *. simpl in *. rewrite app_nil_r in *. by rewrite app_assoc, He.
    + apply Forall_app. split; [done|]. apply Forall_singleton. split; simpl; [by destruct (g_events g)|].
      apply Forall_app. split; [done|]. by apply Forall_singleton.
    + by rewrite last_snoc, Hp.
    + exact (apart_same_key gs g (mk_group (g_partition_key g) (g_events g ++ [keyed r])) eq_refl Ha).
  - simpl. split.
    + rewrite !fmap_app, concat_app, He. simpl. done.
    + apply Forall_app. split; [done|]. apply Forall_singleton. split; [done|]. by apply Forall_singleton.
    + by rewrite last_snoc.
    + apply apart_snoc; [done|]. intros h Hh Hk. apply Ep. rewrite Hp, Hh. simpl. by rewrite Hk.
Qed.

Lemma plan_loop_ok l done gs pending :
  plan_ok done gs pending ->
  plan_ok (done ++ l) (foldl plan_step (gs, pending) l).1 (foldl plan_step (gs, pending) l).2.
Proof.
  revert done gs pending. induction l as [|r l IH]; intros done gs pending H; [by rewrite app_nil_r|].
  cbn [foldl]. rewrite (surjective_pairing (plan_step (gs, pending) r)).
  replace (done ++ r :: l) with ((done ++ [r]) ++ l) by (by rewrite <- app_assoc). by apply IH, plan_step_ok.
Qed.

Lemma plan_batches_ok l : plan_ok l (plan_batches l) (g_partition_key <$> last (plan_batches l)).
Proof.
  assert (plan_ok [] [] None) as H0 by (split; [done|constructor|done|by intros [] ? ? ? ?]).
  destruct (plan_loop_ok l [] [] None H0) as [He Hg Hp Ha]. by split.
Qed.

(** a plan holds every record once and in order under its message key; a batch
    holds records of one partition key only, and no two neighbours could have
    been one batch. *)
Theorem plan_batches_spec l :
  concat (g_events <$> plan_batches l) = keyed <$> l /\ Forall group_ok (plan_batches l) /\ apart (plan_batches l).
Proof. by destruct (plan_batches_ok l). Qed.

(** ** What a flush sends *)

Section theorems.
Context {W : Type} `{!HubClient W}.
Notation HD := (HD W).
Implicit Type s : HD.

(** the batches of groups, with what was added to each *)
Definition batch_of (g : EventBatchGroup) (d : pystr * list EventData) : Prop :=
  d.1 = g_partition_key g /\ Forall2 (fun x y => data_of x = inr y) (g_events g) d.2.

(** the attributes that matter to a flush *)
Definition fixed (b : list BRecord) (dry : bool) (sent : list (pystr * list EventData)) (s : HD) : Prop :=
  hd_batcher s = b /\ hd_dry_run s = dry /\ hd_sent s = sent.

Lemma producer_fixed {A} (f : method W unit A) b dry sent :
  triple (fixed b dry sent) (on_producer f) (fun _ => fixed b dry sent) (fun _ => fixed b dry sent).
Proof.
  apply triple_gets_bind. intros open. apply (triple_pre _ (fixed b dry sent)); [|by intros s []].
  destruct open; [|by apply triple_raise]. intros s Hs. unfold on_hub.
  by destruct (f (hd_world s)) as [[] w].
Qed.

Lemma fill_fixed events batch added b dry sent :
  triple (fixed b dry sent) (fill events batch added)
    (fun r s => fixed b dry sent s /\ exists l, r.2 = added ++ l /\ Forall2 (fun x y => data_of x = inr y) events l)
    (fun _ => fixed b dry sent).
Proof.
  revert batch added. induction events as [|x rest IH]; intros batch added; cbn [fill].
  - apply triple_ret. intros s Hs. split; [done|]. exists []. by rewrite app_nil_r.
  - destruct (data_of x) as [e|data] eqn:Ex; [by apply triple_raise|].
    destruct (hc_add data batch) as [[]|batch']; [by apply triple_raise|].
    eapply triple_post; [apply IH| |done]. intros r s (Hs & l & -> & HF). split; [done|].
    exists (data :: l). rewrite <- app_assoc. split; [done|by constructor].
Qed.

Lemma build_fixed groups b dry sent :
  triple (fixed b dry sent) (build groups)
    (fun built s => fixed b dry sent s /\ Forall2 (fun g x => batch_of g x.2) groups built)
    (fun _ => fixed b dry sent).
Proof.
  induction groups as [|g groups IH]; cbn [build]; [by apply triple_ret|].
  apply (triple_bind _ _ _ (fun _ => fixed b dry sent)); [apply producer_fixed|]. intros batch.
  eapply triple_bind; [apply fill_fixed|]. intros [batch' added]. apply triple_pure. intros (l & Hl & HF). simpl in Hl. subst added.
  eapply triple_bind; [apply IH|]. intros built. apply triple_ret. intros s [Hs HB].
  split; [done|]. by constructor.
Qed.

(** sending gets through the built batches in order, up to an exception *)
Lemma send_fixed built b sent :
  triple (fixed b false sent) (for_each send_one built)
    (fun _ s => fixed b false (sent ++ built.*2) s)
    (fun _ s => exists n, fixed b false (sent ++ take n built.*2) s).
Proof.
  revert sent. induction built as [|x built IH]; intros sent; cbn [for_each].
  { apply triple_ret. intros s Hs. by rewrite app_nil_r. }
  apply (triple_bind _ _ _ (fun _ => fixed b false (sent ++ [x.2]))).
  - apply triple_gets_bind. intros dry. apply (triple_pre _ (fun s => fixed b false sent s /\ dry = false)).
    2: { intros s [Hs <-]. split; [done|]. by destruct Hs as (_ & -> & _). }
    apply triple_pure. intros ->. apply (triple_bind _ _ _ (fun _ => fixed b false sent)).
    + eapply triple_post; [apply producer_fixed|done|]. intros e s Hs. exists 0%nat. by rewrite app_nil_r.
    + intros _. apply triple_modify. intros s (Hb & Hd & Hs). unfold fixed. simpl. by rewrite Hb, Hd, Hs.
  - intros _. eapply triple_post; [apply IH|intros u s|intros e s [n Hn]; exists (S n)]; by rewrite <- app_assoc in *.
Qed.

(** what was sent of a plan: all of it, or a beginning *)
Definition sent_plan (gs : list EventBatchGroup) (sent sent' : list (pystr * list EventData)) : Prop :=
  exists ds, Forall2 batch_of gs ds /\ sent' = sent ++ ds.

Lemma flush_core s :
  hd_dry_run s = false ->
  match flush s with
  | (inr _, s') => exists ds, Forall2 batch_of (plan_batches (hd_batcher s)) ds /\ fixed [] false (hd_sent s ++ ds) s'
  | (inl _, s') => exists n ds, Forall2 batch_of (take n (plan_batches (hd_batcher s))) ds /\ fixed [] false (hd_sent s ++ ds) s'
  end.
Proof.
  intros Hdry. unfold flush, _snapshot_and_plan. unfold mbind at 1, M_bind at 1.
  rewrite (bind_inr _ _ _ (hd_batcher s) s) by done.
  destruct (hd_batcher s) as [|r l] eqn:Eb; [exists []; rewrite app_nil_r; by repeat split|].
  rewrite (bind_inr _ _ _ tt (hd_set_batcher [] s)) by done. cbn [mret M_ret length Nat.eqb].
  assert (fixed [] false (hd_sent s) (hd_set_batcher [] s)) as H0 by done.
  pose proof (build_fixed (plan_batches (r :: l)) [] false (hd_sent s) _ H0) as Hb.
  unfold mbind, M_bind. destruct (build _ _) as [[e|built] s1].
  { exists 0%nat, []. by rewrite app_nil_r. }
  destruct Hb as [H1 HB]. pose proof (send_fixed built [] (hd_sent s) s1 H1) as Hsend.
  assert (Forall2 batch_of (plan_batches (r :: l)) built.*2) as HB2 by (by apply Forall2_fmap_r).
  destruct (for_each send_one built s1) as [[e|[]] s2].
  - destruct Hsend as [n Hs]. exists n, (take n built.*2). split; [by apply Forall2_take|done].
  - by exists built.*2.
Qed.

(** a flush empties the batcher.  When it returns, every group of the plan was
    sent as one batch under its partition key, with the encoded events in
    order; when it raises, a beginning of the plan was. *)
Theorem hub_flush_effect s :
  hd_dry_run s = false ->
  match flush s with
  | (inr _, s') => hd_batcher s' = [] /\ sent_plan (plan_batches (hd_batcher s)) (hd_sent s) (hd_sent s')
  | (inl _, s') => hd_batcher s' = [] /\
      exists n, sent_plan (take n (plan_batches (hd_batcher s))) (hd_sent s) (hd_sent s')
  end.
Proof.
  intros Hdry. pose proof (flush_core s Hdry) as H. unfold sent_plan. destruct (flush s) as [[e|u] s'].
  - destruct H as (n & ds & HF & Hb & _ & Hs). eauto.
  - destruct H as (ds & HF & Hb & _ & Hs). eauto.
Qed.

(** ** The promises of a destination *)

Definition record_of (e : DBChangeEvent) (r : BRecord) : Prop := batcher_add e [] = (inr tt, [r]).
Definition batched (s : HD) (r : BRecord) : Prop := r ∈ hd_batcher s.
Definition sent (s : HD) (r : BRecord) : Prop :=
  exists d data, d ∈ hd_sent s /\ data ∈ d.2 /\ data_of (keyed r) = inr data.
Definition live (s : HD) : Prop := hd_dry_run s = false.

Lemma sent_more (s s' : HD) ds r : hd_sent s' = hd_sent s ++ ds -> sent s r -> sent s' r.
Proof. intros E (d & data & Hd & H). exists d, data. rewrite E. split; [set_solver|done]. Qed.

Lemma plan_sends l ds r : Forall2 batch_of (plan_batches l) ds -> r ∈ l ->
  exists d data, d ∈ ds /\ data ∈ d.2 /\ data_of (keyed r) = inr data.
Proof.
  intros HF Hr. destruct (plan_batches_ok l) as [He _ _ _].
  assert (keyed r ∈ concat (g_events <$> plan_batches l)) as Hin by (rewrite He; by apply list_elem_of_fmap_2).
  clear He Hr. induction HF as [|g d gs ds [_ Hg] _ IH]; [by apply elem_of_nil in Hin|].
  cbn [fmap list_fmap concat] in Hin. apply elem_of_app in Hin as [Hin|Hin].
  - apply list_elem_of_lookup in Hin as [i Hi].
    destruct (Forall2_lookup_l _ _ _ _ _ Hg Hi) as (data & Hd & Hdata).
    exists d, data. split_and!; [by left|by eapply list_elem_of_lookup_2|done].
  - destruct (IH Hin) as (d' & data & Hd & H'). exists d', data. split; [by right|done].
Qed.


Lemma hub_flush_result s :
  live s -> live (flush s).2 /\ (exists ds, hd_sent (flush s).2 = hd_sent s ++ ds) /\
  ((flush s).1 = inr tt -> forall r, batched s r -> sent (flush s).2 r).
Proof.
  intros Hl. pose proof (flush_core s Hl) as H. destruct (flush s) as [[e|[]] s'].
  - destruct H as (n & ds & _ & _ & Hd & Hs). split_and!; [done|by exists ds|done].
  - destruct H as (ds & HF & _ & Hd & Hs). split_and!; [done|by exists ds|]. intros _ r Hr.
    destruct (plan_sends _ ds r HF Hr) as (d & data & Hin & H'). exists d, data. simpl. rewrite Hs. set_solver.
Qed.

Lemma batcher_add_result e b :
  (exists err, batcher_add e b = (inl err, b)) \/ exists r, record_of e r /\ batcher_add e b = (inr tt, b ++ [r]).
Proof.
  unfold record_of, batcher_add. destruct ((obj ← get_object; _) e) as [[err|[obj pk]] e']; [left; by exists err|].
  right. by eexists.
Qed.

Lemma hub_process_result e s :
  (exists err, process e s = (inl err, s)) \/
  exists r, record_of e r /\ process e s = (inr false, hd_set_batcher (hd_batcher s ++ [r]) s).
Proof.
  assert (hd_set_batcher (hd_batcher s) s = s) as Hsame by (by destruct s).
  unfold process, add_event, mbind, M_bind, gets. destruct (batcher_add_result e (hd_batcher s)) as [[err ->]|(r & Hr & ->)].
  - left. exists (HubEvent err). unfold modify, raise. by rewrite Hsame.
  - right. by exists r.
Qed.

Lemma hub_process_preserves e : preserves live batched sent (drv_process (D := HD) e).
Proof.
  split; intros s; simpl.
  - intros r _ Hr. rewrite as_driver_state.
    by destruct (hub_process_result e s) as [[err ->]|(r' & _ & ->)].
  - intros b s' Hl E%as_driver_inr. destruct (hub_process_result e s) as [[err E']|(r' & _ & E')]; rewrite E in E'; [done|].
    injection E' as _ ->. split; [done|]. intros r Hr. left. unfold batched in *. simpl. set_solver.
Qed.

Lemma hub_flush_preserves : preserves live batched sent (drv_flush (D := HD)).
Proof.
  split; intros s; simpl.
  - intros r Hl Hr. rewrite as_driver_state. destruct (hub_flush_result s Hl) as (_ & [ds Hs] & _). by eapply sent_more.
  - intros [] s' Hl E%as_driver_inr. destruct (hub_flush_result s Hl) as (Hl' & _ & H). rewrite E in *. auto.
Qed.

Lemma hub_raise_preserves {A} e : preserves live batched sent (as_driver (raise e : M HD hub_exn A)).
Proof. by split. Qed.

Lemma hub_process_takes e s b s' :
  live s -> drv_process e s = (inr b, s') -> exists r, record_of e r /\ (batched s' r \/ sent s' r).
Proof.
  intros _ E%as_driver_inr. destruct (hub_process_result e s) as [[err E']|(r & Hr & E')]; rewrite E in E'; [done|].
  injection E' as _ ->. exists r. split; [done|]. left. unfold batched. simpl. set_solver.
Qed.

Lemma hub_flush_stores s s' r : live s -> drv_flush s = (inr tt, s') -> batched s r -> sent s' r.
Proof. intros Hl E%as_driver_inr. destruct (hub_flush_result s Hl) as (_ & _ & H). rewrite E in H. by apply H. Qed.

#[export] Instance hub_durable : DurableDriver HD BRecord := {|
  renders := record_of;
  driver_ok := live;
  held := batched;
  stored := sent;
  process_preserves := hub_process_preserves;
  flush_preserves := hub_flush_preserves;
  table_preserves := fun _ => hub_raise_preserves _;
  columns_preserves := fun _ _ => hub_raise_preserves _;
  process_takes := hub_process_takes;
  flush_stores := hub_flush_stores
|}.
End theorems.

(** ** The connection string of a form reaches the SDK *)

Lemma drop_app_3 {A} (a b c : list A) : length b = 3%nat -> drop (length a + 3) (a ++ b ++ c) = c.
Proof. intros Hb. rewrite app_assoc, drop_app_length'; [done|]. rewrite length_app. lia. Qed.

(** a URL whose texts stand for themselves *)
Definition hub_url (scheme host path : pystr) : GoUrl := mk_url scheme [] None host path [] false [] [] [].
Definition hub_parts_ok (host path : pystr) : bool :=
  nonempty host && host_ok host && plain ENCODE_HOST host && path_ok path && plain ENCODE_PATH path.

Lemma hub_url_text scheme host path :
  scheme_ok scheme = true -> hub_parts_ok host path = true ->
  url_str (hub_url scheme host path) = inr (scheme ++ u"://" ++ host ++ path) /\
  parse (scheme ++ u"://" ++ host ++ path) = inr (hub_url scheme host path).
Proof.
  intros Hs Hp. unfold hub_parts_ok in Hp. bool_prop.
  assert (canonical (hub_url scheme host path) = true) as Hc.
  { unfold canonical, hub_url. cbn [url_scheme url_opaque url_user url_host url_path url_raw_path url_force_query
      url_raw_query url_fragment url_raw_fragment user_ok nonempty forallb negb orb andb].
    by rewrite Hs, H3, H1. }
  destruct (parse_str _ Hc) as (t & Et & Ht). pose proof (url_str_text _ Hc) as Hstr.
  assert (url_scheme (hub_url scheme host path) ++ [58] ++ hier_text (hub_url scheme host path) ++
    query_text (hub_url scheme host path) ++ fragment_text (hub_url scheme host path) =
    scheme ++ u"://" ++ host ++ path) as Htext.
  { unfold hub_url, hier_text, query_text, fragment_text. cbn [url_scheme url_user url_host url_path url_force_query
      url_raw_query url_fragment user_text nonempty orb]. rewrite H. cbn [orb app].
    rewrite !enc_plain by done. by rewrite !app_nil_r. }
  rewrite Htext in Hstr. rewrite Hstr in Et. split; [exact Hstr|]. by injection Et as <-.
Qed.

(** a connection string Endpoint=<scheme>://<host><path> is accepted, and the
    URL the form answers with makes the driver connect with the same host and
    path, under the scheme sb. *)
Theorem connection_string_reaches vs scheme host path :
  dict_get (u"Connection String") vs = Some (PStr (u"Endpoint=" ++ scheme ++ u"://" ++ host ++ path)) ->
  char_in 58 scheme = false -> hub_parts_ok host path = true ->
  exists url, validate_config vs = (url, []) /\
    parse_connection_string url = inr (u"Endpoint=" ++ u"sb://" ++ host ++ path).
Proof.
  intros Hv Hs Hp. exists (u"eventhub://" ++ host ++ path). split.
  - unfold validate_config, get_required_string_value. rewrite Hv. cbv beta iota zeta.
    rewrite startswith_app. cbn [negb].
    assert (u"Endpoint=" ++ scheme ++ u"://" ++ host ++ path = (u"Endpoint=" ++ scheme) ++ u"://" ++ host ++ path) as ->
      by (by rewrite app_assoc).
    assert (58 ∉ u"Endpoint=" ++ scheme) as Hn.
    { apply not_elem_of_app. split; [by apply (bool_decide_eq_false_1 _)|]. unfold char_in in Hs. by bool_prop. }
    pose proof (find_str_first (u"//") (u"Endpoint=" ++ scheme) (host ++ path) 58 Hn) as Hf.
    change (58 :: u"//") with (u"://") in Hf. rewrite Hf.
    by rewrite drop_app_3.
  - unfold parse_connection_string.
    destruct (hub_url_text (u"eventhub") host path eq_refl Hp) as [_ Hparse].
    change (u"eventhub://" ++ host ++ path) with (u"eventhub" ++ u"://" ++ host ++ path). rewrite Hparse.
    unfold mbind, res_bind. cbn [url_opaque url_user url_host url_path url_raw_path url_force_query url_raw_query
      url_fragment url_raw_fragment hub_url].
    destruct (hub_url_text (u"sb") host path eq_refl Hp) as [Hstr _]. unfold hub_url in Hstr. by rewrite Hstr.
Qed.

(** ** Samples *)
Module HubRun.

Definition console_string : pystr :=
  u"Endpoint=sb://eds.servicebus.windows.net/;SharedAccessKeyName=send;SharedAccessKey=ab+/c=;EntityPath=changes".

Lemma connection_string_reaches_witness :
  exists url, validate_config [(u"Connection String", PStr console_string)] = (url, []) /\
    parse_connection_string url = inr console_string.
Proof.
  exact (connection_string_reaches [(u"Connection String", PStr console_string)] (u"sb")
    (u"eds.servicebus.windows.net") (u"/;SharedAccessKeyName=send;SharedAccessKey=ab+/c=;EntityPath=changes")
    eq_refl eq_refl eq_refl).
Defined.

(** an SDK whose batches hold two events *)
#[local] Instance small_hub : HubClient (list (list EventData)) := {|
  HBatch := list EventData;
  hc_connect := fun _ w => (inr tt, w);
  hc_create_batch := fun _ w => (inr [], w);
  hc_add := fun d b => if (length b <? 2)%nat then inr (b ++ [d]) else inl tt;
  hc_send_batch := fun b w => (inr tt, w ++ [b]);
  hc_close := fun w => (inr tt, w)
|}.

Definition two_rows : list BRecord :=
  [mk_record (u"t") (u"1") (u"INSERT") None None (Some sample_event);
   mk_record (u"t") (u"1") (u"UPDATE") None None (Some sample_event);
   mk_record (u"t") (u"2") (u"INSERT") None None (Some sample_event)].

Definition full : HD (list (list EventData)) := mk_hd [] true two_rows false false [].

Lemma hub_flush_effect_witness :
  (flush full).1 = inr tt /\
  sent_plan (plan_batches two_rows) [] (hd_sent (flush full).2) /\ length (plan_batches two_rows) = 2%nat.
Proof.
  pose proof (hub_flush_effect full eq_refl) as H.
  split; [vm_compute; reflexivity|]. split; [|vm_compute; reflexivity].
  replace (flush full) with (inr tt : hub_exn + unit, (flush full).2) in H by (vm_compute; reflexivity).
  exact (proj2 H).
Defined.
End HubRun.
