(* ===== verification/Optimize.v ===== *)
(** * Record optimisation: eds/util/optimize.py

    [sort_records_by_mvcc_timestamp] and [combine_records_with_same_primary_key]:
    what the Snowflake driver does to a batch before it generates statements.
    The specification is the effect of a list of records on a table store; the
    theorems show that sorting is a stable ascending sort and that combining
    keeps the effect, provided the grouping key tells the rows apart. *)
From stdpp Require Import base tactics list option numbers sets sorting strings gmap.
From S2P Require Import Prelude PyStr PyDict PyFloat GoJson JsonLoads Schema DbChange Batcher.

(** ** Sorting *)

(** [float(text)] on ASCII text: surrounding whitespace, a sign, [inf] /
    [infinity] / [nan] in any case, or digits with single underscores between
    them, a point and an exponent; [None] is the ValueError *)
Definition py_space (c : Z) : bool := (c =? 32) || ((9 <=? c) && (c <=? 13)) || ((28 <=? c) && (c <=? 31)).
Fixpoint lstrip_ws (s : pystr) : pystr :=
  match s with c :: s' => if py_space c then lstrip_ws s' else s | [] => [] end.
Definition strip_ws (s : pystr) : pystr := rev (lstrip_ws (rev (lstrip_ws s))).

(** every underscore is between two digits *)
Fixpoint underscores_ok (prev : bool) (s : pystr) : bool :=
  match s with
  | [] => true
  | c :: s' =>
      (if c =? 95 then prev && match s' with d :: _ => is_digit d | [] => false end else true)
      && underscores_ok (is_digit c) s'
  end.

(** a decimal literal that ends with the text *)
Definition parse_decimal (neg : bool) (s : pystr) : option pyfloat :=
  let '(ip, s1) := span_digits s in
  let '(fr, s2) := match s1 with
                   | c :: r => if c =? 46 then span_digits r else ([], s1)
                   | [] => ([], [])
                   end in
  match ip ++ fr with
  | [] => None
  | ds =>
      let '(ex, s3) := scan_exp s2 in
      match s3 with
      | [] => Some (float_of_decimal neg (digits_val ds)
                      (match ex with Some e => signed_val e | None => 0 end - Z.of_nat (length fr)))
      | _ => None
      end
  end.

Definition py_float (text : pystr) : option pyfloat :=
  let s := strip_ws text in
  if negb (underscores_ok false s) then None
  else
    let s := filter (fun c => c <> 95) s in
    let '(neg, body) := match s with
                        | c :: r => if c =? 45 then (true, r) else if c =? 43 then (false, r) else (false, s)
                        | [] => (false, s)
                        end in
    let low := lower body in
    if str_eqb low (u"inf") || str_eqb low (u"infinity") then Some (FInf neg)
    else if str_eqb low (u"nan") then Some FNan
    else parse_decimal neg body.

Definition float_zero : pyfloat := FFin false 0 0.

Definition mvcc_key (r : BRecord) : pyfloat :=
  match r_event r with
  | None => float_zero
  | Some e => match ev_mvcc_timestamp e with
              | Some t => default float_zero (py_float t)
              | None => float_zero
              end
  end.

(** the comparison of the sort: not [key(b) < key(a)], which for keys that are
    not NaN is [key(a) <= key(b)]; the order of NaN keys is the sort's own *)
Definition record_leb (a b : BRecord) : bool := float_leb (mvcc_key a) (mvcc_key b).

Definition sort_records_by_mvcc_timestamp (records : list BRecord) : list BRecord :=
  py_sorted record_leb records.

(** ** Combining *)

Inductive batch_type : Type := delete_with_batch | update_with_batch | without_batch.

Definition _batch_type (record previous : BRecord) : batch_type :=
  if str_eqb (r_operation record) (u"DELETE") then delete_with_batch
  else if str_eqb (r_operation record) (u"UPDATE") then
    if str_eqb (r_operation previous) (u"UPDATE") then update_with_batch else without_batch
  else without_batch.

(** [for d in record.diff or []: if d not in pdiff: pdiff.append(d)] *)
Definition union_diff (pdiff rdiff : list pystr) : list pystr :=
  foldl (fun p d => if str_in d p then p else p ++ [d]) pdiff rdiff.

(** the [update_with_batch] branch on [previous] *)
Definition merge_update (previous record : BRecord) : BRecord :=
  mk_record (r_table previous) (r_id previous) (r_operation previous)
    (Some (union_diff (default [] (r_diff previous)) (default [] (r_diff record))))
    (Some (dict_update (default [] (r_object previous)) (default [] (r_object record))))
    (r_event record).

(** [previous] is always the last element of [collapsed]; [init] is the rest of it *)
Fixpoint combine_loop (init : list BRecord) (previous : BRecord) (records : list BRecord) : list BRecord :=
  match records with
  | [] => init ++ [previous]
  | record :: rest =>
      match _batch_type record previous with
      | delete_with_batch => combine_loop [] record rest
      | update_with_batch => combine_loop init (merge_update previous record) rest
      | without_batch => combine_loop (init ++ [previous]) record rest
      end
  end.

Definition _combine (records : list BRecord) : list BRecord :=
  match records with
  | [] => []
  | r :: rest => combine_loop [] r rest
  end.

Definition group_key (r : BRecord) : pystr := r_table r ++ r_id r.

(** [groups] in first-seen order; [order] is its list of keys *)
Definition add_group (groups : pydict (list BRecord)) (r : BRecord) : pydict (list BRecord) :=
  dict_set (group_key r) (default [] (dict_get (group_key r) groups) ++ [r]) groups.

Definition combine_records_with_same_primary_key (records : list BRecord) : list BRecord :=
  flat_map (fun kv => _combine kv.2) (foldl add_group [] records).

(** ** The order of floats *)

Lemma dec_ltb_scale m s1 e1 s2 e2 :
  m <= e1 -> m <= e2 -> dec_ltb s1 e1 s2 e2 = (s1 * 10 ^ (e1 - m) <? s2 * 10 ^ (e2 - m)).
Proof.
  intros H1 H2. unfold dec_ltb. set (k := Z.min e1 e2). assert (m <= k) by lia.
  replace (e1 - m) with ((e1 - k) + (k - m)) by lia.
  replace (e2 - m) with ((e2 - k) + (k - m)) by lia.
  rewrite !Z.pow_add_r, !Z.mul_assoc by lia.
  assert (0 < 10 ^ (k - m)) by (apply Z.pow_pos_nonneg; lia).
  destruct (Z.ltb_spec (s1 * 10 ^ (e1 - k)) (s2 * 10 ^ (e2 - k)));
    symmetry; [apply Z.ltb_lt|apply Z.ltb_ge]; nia.
Qed.

(** a total order on all floats that agrees with [<=] on those that are numbers *)
Definition float_leb_total (x y : pyfloat) : bool :=
  match x, y with
  | FNan, _ => true
  | _, FNan => false
  | _, _ => float_leb x y
  end.

Lemma float_leb_total_total x y : float_leb_total x y = true \/ float_leb_total y x = true.
Proof.
  destruct x as [|n1|n1 s1 e1], y as [|n2|n2 s2 e2]; simpl; auto;
    try (destruct n1; auto; try destruct n2; auto); try (destruct n2; auto);
    rewrite !(dec_ltb_scale (Z.min e1 e2)) by lia; rewrite !negb_true_iff, !Z.ltb_ge; lia.
Qed.

Lemma float_leb_total_trans x y z :
  float_leb_total x y = true -> float_leb_total y z = true -> float_leb_total x z = true.
Proof.
  destruct x as [|n1|n1 s1 e1], y as [|n2|n2 s2 e2], z as [|n3|n3 s3 e3]; simpl; try done;
    try (destruct n1; done); try (destruct n2; done); try (destruct n3; done);
    try (destruct n1; destruct n2; done); try (destruct n2; destruct n3; done);
    try (destruct n1; destruct n3; done); try (destruct n1; destruct n2; destruct n3; done).
  rewrite !negb_true_iff.
  rewrite !(dec_ltb_scale (Z.min e1 (Z.min e2 e3))) by lia. rewrite !Z.ltb_ge. lia.
Qed.

Lemma py_sorted_ext {A} (le le' : A -> A -> bool) l :
  (forall x y, x ∈ l -> y ∈ l -> le x y = le' x y) -> py_sorted le l = py_sorted le' l.
Proof.
  induction l as [|x l IH]; intros H; simpl; [done|].
  rewrite IH by (intros; apply H; set_solver).
  assert (forall y, y ∈ py_sorted le' l -> le x y = le' x y) as Hx.
  { intros y Hy%py_sorted_elem. apply H; set_solver. }
  clear IH H. induction (py_sorted le' l) as [|y l' IHl]; simpl; [done|].
  rewrite (Hx y) by set_solver. destruct (le' x y); [done|]. f_equal. apply IHl.
  intros z Hz. apply Hx. set_solver.
Qed.

Definition key_is_number (r : BRecord) : bool := match mvcc_key r with FNan => false | _ => true end.

Lemma record_leb_total_eq l x y :
  Forall (fun r => key_is_number r = true) l -> x ∈ l -> y ∈ l ->
  record_leb x y = float_leb_total (mvcc_key x) (mvcc_key y).
Proof.
  intros Hl Hx Hy. rewrite Forall_forall in Hl. pose proof (Hl x Hx). pose proof (Hl y Hy).
  unfold record_leb, key_is_number in *. by destruct (mvcc_key x), (mvcc_key y).
Qed.

(** sorting by MVCC timestamp permutes the batch into ascending order of
    the timestamps (a missing or unparsable one counts as zero) and keeps the
    arrival order of records with equal timestamps. *)
Theorem sort_records_stable l :
  Forall (fun r => key_is_number r = true) l ->
  let l' := sort_records_by_mvcc_timestamp l in
  l' ≡ₚ l /\ StronglySorted (fun a b => float_leb (mvcc_key a) (mvcc_key b) = true) l' /\
  forall k, filter (fun r => mvcc_key r = k) l' = filter (fun r => mvcc_key r = k) l.
Proof.
  intros Hl. cbv zeta. split; [apply py_sorted_perm|]. unfold sort_records_by_mvcc_timestamp.
  set (le := fun a b => float_leb_total (mvcc_key a) (mvcc_key b)).
  assert (py_sorted record_leb l = py_sorted le l) as E.
  { apply py_sorted_ext. intros x y. by apply record_leb_total_eq. }
  rewrite E. split.
  - assert (StronglySorted (le_rel le) (py_sorted le l)) as HS.
    { apply py_sorted_StronglySorted; unfold le; eauto using float_leb_total_total, float_leb_total_trans. }
    assert (Forall (fun r => key_is_number r = true) (py_sorted le l)) as Hn by by rewrite py_sorted_perm.
    clear E. generalize dependent (py_sorted le l). intros l0 HS Hn.
    induction HS as [|x l' HS IH Hx]; [constructor|]. apply Forall_cons in Hn as [Hn Hns].
    constructor; [by apply IH|]. rewrite Forall_forall in *. intros y Hy. specialize (Hx y Hy).
    unfold le_rel, le, float_leb_total, key_is_number in *. specialize (Hns y Hy).
    by destruct (mvcc_key x), (mvcc_key y).
  - intros k.
    pose proof (py_sorted_stable le (fun r => bool_decide (mvcc_key r = k)) l) as Hst.
    rewrite !(list_filter_iff (fun r => mvcc_key r = k) (fun r => bool_decide (mvcc_key r = k) = true))
      by (intros r; by rewrite bool_decide_eq_true).
    apply Hst. intros x y Hx%bool_decide_eq_true Hy%bool_decide_eq_true. unfold le. rewrite Hx, Hy.
    destruct (float_leb_total_total k k); done.
Qed.

(** ** The effect of records on a store *)

Abbreviation row := (gmap pystr pyobj).

Definition row_key (r : BRecord) : pystr * pystr := (r_table r, r_id r).

(** a DELETE removes the row, anything else sets the columns of its object *)
Definition apply_row (r : BRecord) (o : option row) : option row :=
  if str_eqb (r_operation r) (u"DELETE") then None
  else Some (dict_to_gmap (default [] (r_object r)) ∪ default ∅ o).

Definition apply_record (st : gmap (pystr * pystr) row) (r : BRecord) : gmap (pystr * pystr) row :=
  partial_alter (apply_row r) (row_key r) st.

Definition apply_all (l : list BRecord) (st : gmap (pystr * pystr) row) : gmap (pystr * pystr) row :=
  foldl apply_record st l.

Definition rows_after (l : list BRecord) (o : option row) : option row :=
  foldl (fun o r => apply_row r o) o l.

(** the store after a list, row by row *)
Lemma apply_all_lookup l st k :
  apply_all l st !! k = rows_after (filter (fun r => row_key r = k) l) (st !! k).
Proof.
  revert st. induction l as [|r l IH]; intros st; [done|].
  change (apply_all (r :: l) st) with (apply_all l (apply_record st r)).
  rewrite IH, filter_cons. unfold apply_record. case_decide as E.
  - by rewrite <- E, lookup_partial_alter_eq.
  - by rewrite lookup_partial_alter_ne by done.
Qed.

Definition object_ok (r : BRecord) : Prop := NoDup (dict_keys (default [] (r_object r))).

Lemma dict_update_union {V} (d1 d2 : pydict V) :
  NoDup (dict_keys d2) -> dict_to_gmap (dict_update d1 d2) = dict_to_gmap d2 ∪ dict_to_gmap d1.
Proof.
  intros H. apply map_eq. intros k. rewrite lookup_union, !dict_to_gmap_lookup, dict_update_get by done.
  by destruct (dict_get k d2), (dict_get k d1).
Qed.

(** merging two updates has the effect of both *)
Lemma merge_update_effect p r o :
  str_eqb (r_operation p) (u"UPDATE") = true -> str_eqb (r_operation r) (u"UPDATE") = true ->
  object_ok r -> apply_row (merge_update p r) o = apply_row r (apply_row p o).
Proof.
  intros Hp Hr Hok. unfold apply_row, merge_update. cbn [r_operation r_object default].
  assert (forall x, str_eqb x (u"UPDATE") = true -> str_eqb x (u"DELETE") = false) as Hne.
  { intros x Hx. unfold str_eqb in *. bool_prop. by subst. }
  rewrite (Hne _ Hp), (Hne _ Hr). f_equal. simpl.
  rewrite dict_update_union by done. symmetry. apply map_union_assoc.
Qed.

Lemma rows_after_app l1 l2 o : rows_after (l1 ++ l2) o = rows_after l2 (rows_after l1 o).
Proof. apply foldl_app. Qed.

Lemma merge_update_ok p r : object_ok p -> object_ok (merge_update p r).
Proof. intros H. unfold object_ok, merge_update. simpl. by apply dict_update_NoDup. Qed.

(** collapsing a group of one row keeps its effect *)
Lemma combine_loop_effect rest init p o :
  object_ok p -> Forall object_ok rest ->
  rows_after (combine_loop init p rest) o = rows_after (init ++ p :: rest) o.
Proof.
  revert init p. induction rest as [|r rest IH]; intros init p Hp Hrest; simpl; [done|].
  apply Forall_cons in Hrest as [Hr Hrest]. unfold _batch_type.
  destruct (str_eqb (r_operation r) (u"DELETE")) eqn:Ed.
  - assert (forall o, apply_row r o = None) as Hd by (intros; unfold apply_row; by rewrite Ed).
    rewrite IH by done. rewrite !rows_after_app. simpl. by rewrite !Hd.
  - destruct (str_eqb (r_operation r) (u"UPDATE")) eqn:Eu; [|rewrite IH by done; by rewrite <- app_assoc].
    destruct (str_eqb (r_operation p) (u"UPDATE")) eqn:Ep; [|rewrite IH by done; by rewrite <- app_assoc].
    rewrite IH by auto using merge_update_ok. rewrite !rows_after_app. simpl.
    by rewrite merge_update_effect.
Qed.

(** a collapsed group holds records of the same table and id *)
Lemma combine_loop_keys (P : BRecord -> Prop) rest init p :
  (forall r r', row_key r = row_key r' -> P r -> P r') ->
  Forall P init -> P p -> Forall P rest -> Forall P (combine_loop init p rest).
Proof.
  intros HP. revert init p. induction rest as [|r rest IH]; intros init p Hi Hp Hr; simpl.
  - apply Forall_app. auto.
  - apply Forall_cons in Hr as [Hr Hrest]. destruct (_batch_type r p); apply IH; auto.
    + by apply (HP p).
    + apply Forall_app. auto.
Qed.

(** ** Groups *)

Lemma groups_get l acc g :
  dict_get g (foldl add_group acc l) =
  match filter (fun r => group_key r = g) l with
  | [] => dict_get g acc
  | rs => Some (default [] (dict_get g acc) ++ rs)
  end.
Proof.
  revert acc. induction l as [|r l IH]; intros acc; [done|].
  cbn [foldl]. rewrite IH, filter_cons. unfold add_group. rewrite !dict_get_set.
  case_decide as E; [|done].
  destruct (filter _ l) as [|r' rs]; [by rewrite E|]. simpl. rewrite E. by rewrite <- app_assoc.
Qed.

Lemma groups_NoDup l acc : NoDup (dict_keys acc) -> NoDup (dict_keys (foldl add_group acc l)).
Proof.
  revert acc. induction l as [|r l IH]; intros acc H; [done|]. apply IH. by apply dict_set_NoDup.
Qed.

Lemma elem_dict_get {V} (d : pydict V) k v : NoDup (dict_keys d) -> (k, v) ∈ d -> dict_get k d = Some v.
Proof.
  induction d as [|[k' v'] d IH]; [set_solver|]. intros [Hk Hd]%NoDup_cons Hin. simpl.
  apply elem_of_cons in Hin as [[= -> ->]|Hin]; [by rewrite decide_True|].
  rewrite decide_False; [auto|]. intros ->. apply Hk. apply list_elem_of_fmap. by exists (k, v).
Qed.

Lemma group_members l g rs :
  (g, rs) ∈ foldl add_group [] l -> rs = filter (fun r => group_key r = g) l /\ rs <> [].
Proof.
  intros Hin. apply elem_dict_get in Hin; [|apply groups_NoDup, NoDup_nil_2].
  rewrite groups_get in Hin. destruct (filter _ l) as [|r rs'] eqn:E; [done|].
  simpl in Hin. injection Hin as <-. done.
Qed.

Lemma combine_group_key l g rs r :
  (g, rs) ∈ foldl add_group [] l -> r ∈ _combine rs -> group_key r = g.
Proof.
  intros Hin Hr. destruct (group_members l g rs Hin) as [Hrs Hne].
  assert (Forall (fun r => group_key r = g) rs) as Hall.
  { rewrite Hrs. apply Forall_forall. intros x Hx. by apply list_elem_of_filter in Hx as [? _]. }
  destruct rs as [|x rs]; [done|]. apply Forall_cons in Hall as [Hx Hall].
  assert (Forall (fun r => group_key r = g) (_combine (x :: rs))) as Hc.
  { apply combine_loop_keys; auto. intros a b Hab Ha. unfold group_key, row_key in *. congruence. }
  rewrite Forall_forall in Hc. auto.
Qed.

(** of the groups, only the one of the row's group key contributes to a row *)
Lemma filter_one_group {A} (f : A -> list BRecord) (P : BRecord -> Prop) `{!forall x, Decision (P x)}
    (d : pydict A) g a :
  NoDup (dict_keys d) -> (g, a) ∈ d ->
  (forall g' a', (g', a') ∈ d -> g' <> g -> filter P (f a') = []) ->
  filter P (flat_map (fun kv => f kv.2) d) = filter P (f a).
Proof.
  induction d as [|[g' a'] d IH]; [set_solver|]. intros [Hk Hd]%NoDup_cons Hin Ho. simpl.
  rewrite filter_app. apply elem_of_cons in Hin as [[= <- <-]|Hin].
  - replace (filter P (flat_map _ d)) with (@nil BRecord); [by rewrite app_nil_r|].
    symmetry. clear IH. assert (forall g' a', (g', a') ∈ d -> filter P (f a') = []) as Ho'.
    { intros g1 a1 Hin. apply (Ho g1 a1); [set_solver|]. intros ->. apply Hk.
      apply list_elem_of_fmap. by exists (g, a1). }
    clear Ho Hk Hd. induction d as [|[g1 a1] d IH]; [done|]. simpl.
    rewrite filter_app, (Ho' g1 a1), IH by set_solver. done.
  - rewrite (Ho g' a'), IH; [done|done|done| | |].
    + intros g1 a1 H1. apply Ho. set_solver.
    + set_solver.
    + intros ->. apply Hk. apply list_elem_of_fmap. by exists (g, a).
Qed.

(** the grouping key tells the rows of the batch apart *)
Definition keys_separate (l : list BRecord) : Prop :=
  forall r r', r ∈ l -> r' ∈ l -> group_key r = group_key r' -> row_key r = row_key r'.

Lemma dict_get_in {V} (d : pydict V) k v : dict_get k d = Some v -> (k, v) ∈ d.
Proof.
  induction d as [|[k' v'] d IH]; simpl; [done|]. case_decide; [intros [= <-]|]; set_solver.
Qed.

Lemma filter_agree {A} (P Q : A -> Prop) `{!forall x, Decision (P x)} `{!forall x, Decision (Q x)} (l : list A) :
  (forall x, x ∈ l -> P x <-> Q x) -> filter P l = filter Q l.
Proof.
  induction l as [|x l IH]; intros Hiff; [done|]. rewrite !filter_cons.
  rewrite IH by (intros; apply Hiff; set_solver). pose proof (Hiff x (list_elem_of_here x l)).
  repeat case_decide; naive_solver.
Qed.

Lemma filter_none {A} (P : A -> Prop) `{!forall x, Decision (P x)} l : Forall (fun x => ~ P x) l -> filter P l = [].
Proof. induction 1 as [|x l Hx Hl IH]; [done|]. by rewrite filter_cons_False. Qed.

(** the records of one group key, when it tells rows apart, are those of one row *)
Lemma group_is_row l k rs :
  keys_separate l -> rs = filter (fun r => group_key r = k.1 ++ k.2) l -> rs <> [] ->
  (rs = filter (fun r => row_key r = k) l /\ Forall (fun r => row_key r = k) rs) \/
  (filter (fun r => row_key r = k) l = [] /\ Forall (fun r => row_key r <> k) rs).
Proof.
  intros Hsep Hrs Hne. destruct rs as [|x rs']; [done|]. rewrite Hrs. clear Hne.
  assert (x ∈ filter (fun r => group_key r = k.1 ++ k.2) l) as Hx by (rewrite <- Hrs; set_solver).
  apply list_elem_of_filter in Hx as [Hgx Hx]. clear Hrs.
  assert (forall r, r ∈ l -> group_key r = k.1 ++ k.2 -> row_key r = row_key x) as Hall.
  { intros r Hr Hg. apply Hsep; [done|done|congruence]. }
  assert (forall r, row_key r = k -> group_key r = k.1 ++ k.2) as Hkey.
  { intros r <-. done. }
  destruct (decide (row_key x = k)) as [Hk|Hk].
  - left. split.
    + apply filter_agree. intros r Hr. split; [|apply Hkey].
      intros Hg. by rewrite (Hall r Hr Hg).
    + apply Forall_forall. intros r [Hg Hr]%list_elem_of_filter. by rewrite (Hall r Hr Hg).
  - right. split.
    + apply filter_none, Forall_forall. intros r Hr E. apply Hk. rewrite <- E. symmetry. auto.
    + apply Forall_forall. intros r [Hg Hr]%list_elem_of_filter. rewrite (Hall r Hr Hg). done.
Qed.

Lemma combine_keys rs (Q : pystr * pystr -> Prop) :
  Forall (fun r => Q (row_key r)) rs -> Forall (fun r => Q (row_key r)) (_combine rs).
Proof.
  destruct rs as [|x rs]; [done|]. intros [Hx Hrs]%Forall_cons.
  apply combine_loop_keys; auto. intros a b E. by rewrite E.
Qed.

Lemma combined_row l k o :
  keys_separate l -> Forall object_ok l ->
  rows_after (filter (fun r => row_key r = k) (combine_records_with_same_primary_key l)) o =
  rows_after (filter (fun r => row_key r = k) l) o.
Proof.
  intros Hsep Hok. set (g := k.1 ++ k.2). unfold combine_records_with_same_primary_key.
  pose proof (groups_NoDup l [] NoDup_nil_2) as Hnd.
  assert (forall g' rs, (g', rs) ∈ foldl add_group [] l -> g' <> g ->
            filter (fun r => row_key r = k) (_combine rs) = []) as Hother.
  { intros g' rs Hin Hne. apply filter_none, Forall_forall. intros x Hx Hk. apply Hne.
    rewrite <- (combine_group_key l g' rs x Hin Hx). unfold g, group_key. by rewrite <- Hk. }
  destruct (dict_get g (foldl add_group [] l)) as [rs|] eqn:Eg.
  - apply dict_get_in in Eg. rewrite (filter_one_group _combine _ _ g rs) by done.
    destruct (group_members l g rs Eg) as [Hrs Hne].
    destruct (group_is_row l k rs Hsep Hrs Hne) as [[-> Hall]|[-> Hall]].
    + rewrite filter_all by (apply (combine_keys _ (fun x => x = k)); done).
      destruct (filter (fun r => row_key r = k) l) as [|x xs] eqn:E; [done|].
      assert (Forall object_ok (x :: xs)) as [Hx Hxs]%Forall_cons.
      { rewrite <- E. apply Forall_forall. intros r [_ Hr]%list_elem_of_filter.
        rewrite Forall_forall in Hok. auto. }
      by apply combine_loop_effect.
    + by rewrite filter_none by (apply (combine_keys _ (fun x => x <> k)); done).
  - rewrite groups_get in Eg. destruct (filter (fun r => group_key r = g) l) eqn:E; [|done].
    rewrite (filter_none _ l).
    + f_equal. apply filter_none, Forall_forall. intros x Hx Hk.
      apply list_elem_of_In, in_flat_map in Hx as ([g' rs] & Hin & Hx).
      apply list_elem_of_In in Hin, Hx. destruct (decide (g' = g)) as [->|Hne].
      * destruct (group_members l g rs Hin) as [-> Hne]. by rewrite E in Hne.
      * assert (x ∈ filter (fun r => row_key r = k) (_combine rs)) as Hf.
        { apply list_elem_of_filter. done. }
        rewrite (Hother g' rs Hin Hne) in Hf. set_solver.
    + apply Forall_forall. intros x Hx Hk.
      assert (x ∈ filter (fun r => group_key r = g) l) as Hf.
      { apply list_elem_of_filter. split; [|done]. unfold g, group_key. by rewrite <- Hk. }
      rewrite E in Hf. set_solver.
Qed.

(** C35: when no two rows of a batch share the concatenation of table and id, and
    no object has a key twice, combining the batch keeps its effect: on every
    store, the combined records leave the same rows as the original ones.  Without
    the first condition a row is lost ([combine_key_collision]). *)
Theorem combine_preserves_effect l st :
  keys_separate l -> Forall object_ok l ->
  apply_all (combine_records_with_same_primary_key l) st = apply_all l st.
Proof.
  intros Hsep Hok. apply map_eq. intros k. rewrite !apply_all_lookup. by apply combined_row.
Qed.

Definition sample_update (table id : pystr) (obj : pydict pyobj) : BRecord :=
  mk_record table id (u"UPDATE") (Some (dict_keys obj)) (Some obj) None.

Lemma sort_records_stable_witness :
  let e t := mk_event (u"UPDATE") [] (u"t") None [] None None None None None None 0 (Some t) false None None in
  let r i t := mk_record (u"t") i (u"UPDATE") None None (Some (e t)) in
  let l := [r (u"1") (u"20.5"); r (u"2") (u"3"); r (u"3") (u"x"); r (u"4") (u"3.0")] in
  Forall (fun r => key_is_number r = true) l /\
  (r_id <$> sort_records_by_mvcc_timestamp l) = [u"3"; u"2"; u"4"; u"1"] /\
  sort_records_by_mvcc_timestamp l ≡ₚ l.
Proof.
  intros e r l. assert (Forall (fun r => key_is_number r = true) l) as H by by repeat constructor.
  split; [done|]. split; [by vm_compute|]. by apply (sort_records_stable l).
Defined.

Lemma combine_preserves_effect_witness :
  let l := [sample_update (u"t") (u"1") [(u"a", PInt 1)]; sample_update (u"t") (u"1") [(u"b", PInt 2)]] in
  length (combine_records_with_same_primary_key l) = 1%nat /\
  apply_all (combine_records_with_same_primary_key l) ∅ = apply_all l ∅.
Proof.
  intros l. split; [by vm_compute|]. apply (combine_preserves_effect l ∅).
  - intros r r' Hr Hr'. apply elem_of_cons in Hr as [->|Hr%list_elem_of_singleton];
      apply elem_of_cons in Hr' as [->|Hr'%list_elem_of_singleton]; by subst.
  - repeat constructor; set_solver.
Defined.

(** the grouping key is the plain concatenation of table and id, so two
    updates of different rows whose concatenations coincide are merged into one
    record of the first row: the update of the second row is lost. *)
Theorem combine_key_collision r1 r2 st :
  str_eqb (r_operation r1) (u"UPDATE") = true -> str_eqb (r_operation r2) (u"UPDATE") = true ->
  group_key r1 = group_key r2 -> row_key r1 <> row_key r2 ->
  combine_records_with_same_primary_key [r1; r2] = [merge_update r1 r2] /\
  apply_all (combine_records_with_same_primary_key [r1; r2]) st !! row_key r2 = st !! row_key r2.
Proof.
  intros H1 H2 Hg Hk.
  assert (combine_records_with_same_primary_key [r1; r2] = [merge_update r1 r2]) as ->.
  { unfold combine_records_with_same_primary_key. cbn [foldl]. unfold add_group. cbn [dict_get dict_set].
    rewrite Hg, decide_True, decide_True by done. simpl. unfold _batch_type.
    assert (str_eqb (r_operation r2) (u"DELETE") = false) as ->.
    { unfold str_eqb in *. bool_prop. by rewrite H2. }
    by rewrite H2, H1. }
  split; [done|]. rewrite apply_all_lookup. rewrite filter_none; [done|].
  repeat constructor. exact Hk.
Qed.

Lemma combine_key_collision_witness :
  let r1 := sample_update (u"ab") (u"c") [(u"x", PInt 1)] in
  let r2 := sample_update (u"a") (u"bc") [(u"y", PInt 2)] in
  combine_records_with_same_primary_key [r1; r2] = [merge_update r1 r2] /\
  apply_all (combine_records_with_same_primary_key [r1; r2]) ∅ !! row_key r2 = None.
Proof.
  intros r1 r2.
  destruct (combine_key_collision r1 r2 ∅) as [H1 H2];
    [by vm_compute|by vm_compute|by vm_compute|done|].
  split; [exact H1|]. by rewrite H2.
Defined.
