(* ===== verification/SqlUtil.v ===== *)
(** * SQL helpers: eds/util/sql.py

    The coercions shared by the SQL builders: an empty value of a required
    array or object column becomes an empty JSON literal, and a JSON scalar in
    an object column is quoted.  [scalar_value] is the asymmetric regular
    expression [_SCALAR_VALUE]: a number at the start, or [true] / [false] at
    the end. *)
From stdpp Require Import base tactics list option numbers sets strings.
From S2P Require Import Prelude PyStr PyDict PyFloat GoFloat GoJson JsonLoads Schema.

(** the trivial wrap of [util.sql.quote_identifier] *)
Definition util_quote_identifier (name : pystr) : pystr := dq ++ name ++ dq.
Definition quote_string_identifiers (vals : list pystr) : list pystr := util_quote_identifier <$> vals.

Definition is_empty_val (val : pystr) : bool :=
  str_in val [sq ++ sq; []; u"NULL"; u"null"].

(** [[+-]?([0-9]*[.])?[0-9]+] at the start *)
Definition number_prefix (s : pystr) : bool :=
  let s' := match s with c :: r => if (c =? 43) || (c =? 45) then r else s | [] => s end in
  match span_digits s' with
  | (_ :: _, _) => true
  | ([], c :: d :: _) => (c =? 46) && is_digit d
  | _ => false
  end.

Definition scalar_value (s : pystr) : bool :=
  number_prefix s || endswith (u"true") s || endswith (u"false") s.

Definition quote_json_scalar (val : pystr) (prop : SchemaProperty) : pystr :=
  if str_eqb (sp_type prop) (u"object") && scalar_value val then sq ++ val ++ sq else val.

Definition to_json_string_val (val : pystr) (prop : SchemaProperty) (quote_scalar : bool) : pystr :=
  if is_array_or_json prop && is_not_null prop && is_empty_val val then
    if str_eqb (sp_type prop) (u"array") then sq ++ u"[]" ++ sq
    else sq ++ u"{}" ++ sq
  else if quote_scalar then quote_json_scalar val prop
  else val.

(** the zero value [SchemaProperty()] used for a column without a property *)
Definition empty_prop : SchemaProperty := mk_prop [] [] false None None None None.
Definition prop_of (model : Schema) (name : pystr) : SchemaProperty :=
  default empty_prop (dict_get name (sc_properties model)).

(** the object of an event's raw [after], re-parsed with [parse_int=float]: the
    empty dict when it is absent or not an object; [None] is a decode error *)
Definition after_object (after : option pystr) : option (pydict pyobj) :=
  match after with
  | None | Some [] => Some []
  | Some raw =>
      v ← json_loads opts_float raw;
      Some (match v with PDict d => d | _ => [] end)
  end.

(** ** Audit columns, the same names in every driver *)

Definition _EDS_SEQ : pystr := u"_eds_seq".
Definition _EDS_OPERATION : pystr := u"_eds_operation".
Definition _EDS_MVCC : pystr := u"_eds_mvcc_timestamp".
Definition _EDS_TIMESTAMP : pystr := u"_eds_timestamp".
Definition _EDS_APPENDED_AT : pystr := u"_eds_appended_at".

(** [keys[pks.index(name)]] for a primary key column *)
Fixpoint key_of (name : pystr) (pks keys : list pystr) : option pystr :=
  match pks, keys with
  | pk :: pks', k :: keys' => if str_eqb pk name then Some k else key_of name pks' keys'
  | _, _ => None
  end.
