(* ===== verification/SqlLex.v ===== *)
(** * SQL tokens: the lexical syntax the builders have to respect

    The specification side of the SQL builders: how a database reads one
    quoted literal, quoted identifier or bare word from the front of a text.
    Nothing here is code of the repository; the theorems about each builder say
    that its output is read back by these functions as the values it was built
    from.  [lex_quoted q] reads up to the closing quote [q], a doubled quote
    being the quote itself (standard strings, quoted identifiers); [lex_until]
    reads the body of a dollar quote.  [parse_insert] reads the head of an
    INSERT statement: table, column list and value list; [value_of] and [coerce]
    say which values are meant. *)
From stdpp Require Import base tactics list option numbers sets strings.
From S2P Require Import Prelude PyStr PyDict PyFloat GoFloat GoJson Schema SqlUtil.

(** the body of a quoted token, and what follows its closing quote *)
Fixpoint lex_quoted (q : Z) (s : pystr) : option (pystr * pystr) :=
  match s with
  | [] => None
  | c :: r =>
      if c =? q then
        match r with
        | d :: r' => if d =? q then prod_map (cons q) id <$> lex_quoted q r' else Some ([], r)
        | [] => Some ([], [])
        end
      else prod_map (cons c) id <$> lex_quoted q r
  end.

(** the text before the first occurrence of [tag], and what follows it *)
Fixpoint lex_until (tag s : pystr) : option (pystr * pystr) :=
  if startswith tag s then Some ([], drop (length tag) s)
  else match s with
       | [] => None
       | c :: r => prod_map (cons c) id <$> lex_until tag r
       end.

(** [starts_with_char q s] *)
Definition head_is (q : Z) (s : pystr) : bool :=
  match s with c :: _ => c =? q | [] => false end.

(** a bare word: the characters before the first comma, parenthesis, semicolon or space *)
Fixpoint lex_word (s : pystr) : pystr * pystr :=
  match s with
  | [] => ([], [])
  | c :: r => if (c =? 44) || (c =? 40) || (c =? 41) || (c =? 59) || (c =? 32) then ([], s)
              else let '(w, t) := lex_word r in (c :: w, t)
  end.

(** removing a character that does not occur *)
Lemma filter_absent (x : Z) (s : pystr) : x ∉ s -> filter (fun c => c <> x) s = s.
Proof.
  induction s as [|c s IH]; [done|]. intros [Hc Hs]%not_elem_of_cons.
  rewrite filter_cons_True by congruence. by rewrite IH.
Qed.

(** ** Doubling *)

Lemma lex_quoted_double q s rest :
  head_is q rest = false ->
  lex_quoted q (replace_char q [q; q] s ++ q :: rest) = Some (s, rest).
Proof.
  intros Hr. induction s as [|c s IH].
  - simpl. rewrite Z.eqb_refl. destruct rest as [|d r]; [done|]. simpl in Hr. by rewrite Hr.
  - unfold replace_char in *. cbn [flat_map]. destruct (Z.eqb_spec c q) as [->|Hc].
    + cbn [app]. simpl. rewrite !Z.eqb_refl, IH. done.
    + cbn [app]. simpl. destruct (Z.eqb_spec c q); [done|]. by rewrite IH.
Qed.

(** a text without the quote is its own body *)
Lemma lex_quoted_plain q s rest :
  q ∉ s -> head_is q rest = false -> lex_quoted q (s ++ q :: rest) = Some (s, rest).
Proof. intros Hs Hr. rewrite <- (replace_char_absent q [q; q] s Hs) at 1. by apply lex_quoted_double. Qed.

(** ** Dollar quotes *)

Lemma startswith_app_short p s t :
  (length p <= length s)%nat -> startswith p (s ++ t) = startswith p s.
Proof.
  revert s. induction p as [|x p IH]; intros [|y s] H; simpl in *; try done; try lia.
  rewrite IH by lia. done.
Qed.

Lemma startswith_self_app p t : startswith p (p ++ t) = true.
Proof. apply startswith_app. Qed.

(** [tag] does not begin before the end of [s] in [s ++ tag] *)
Fixpoint clear_of (tag s : pystr) : bool :=
  match s with
  | [] => true
  | _ :: r => negb (startswith tag (s ++ tag)) && clear_of tag r
  end.

Lemma lex_until_clear tag s rest :
  lex_until tag (s ++ tag ++ rest) = Some (s, rest) <-> clear_of tag s = true.
Proof.
  induction s as [|c s IH].
  - split; [done|]. intros _. destruct tag as [|x tag]; simpl; [by destruct rest|].
    rewrite Z.eqb_refl, startswith_app. simpl. by rewrite drop_app_length.
  - cbn [clear_of]. rewrite andb_true_iff, negb_true_iff.
    change ((c :: s) ++ tag ++ rest) with (c :: (s ++ tag ++ rest)).
    assert (startswith tag (c :: s ++ tag ++ rest) = startswith tag ((c :: s) ++ tag)) as Hs.
    { replace (c :: s ++ tag ++ rest) with (((c :: s) ++ tag) ++ rest) by (simpl; by rewrite <- app_assoc).
      apply startswith_app_short. rewrite length_app. lia. }
    cbn [lex_until]. rewrite Hs. destruct (startswith tag ((c :: s) ++ tag)).
    + split; [by intros [=]|by intros [? _]].
    + rewrite <- IH. destruct (lex_until tag (s ++ tag ++ rest)) as [[a b]|]; simpl; [|naive_solver].
      unfold prod_map. simpl. naive_solver.
Qed.

(** an occurrence of the tag ends the literal early: the rest of the value is
    read as SQL *)
Lemma lex_until_early tag a b rest :
  clear_of tag a = true -> lex_until tag (a ++ tag ++ b ++ rest) = Some (a, b ++ rest).
Proof. intros Ha. by apply lex_until_clear. Qed.

(** ** Words and lists *)

(** a list item ends at a comma, a closing parenthesis, a semicolon or a space *)
Definition delimited (rest : pystr) : Prop :=
  head_is 44 rest || head_is 41 rest || head_is 59 rest || head_is 32 rest = true.

Definition word_char (c : Z) : bool := negb ((c =? 44) || (c =? 40) || (c =? 41) || (c =? 59) || (c =? 32)).

Lemma delimited_head q rest :
  delimited rest -> q <> 44 -> q <> 41 -> q <> 59 -> q <> 32 -> head_is q rest = false.
Proof.
  unfold delimited, head_is. destruct rest as [|c rest]; [done|].
  rewrite !orb_true_iff, !Z.eqb_eq. intros. apply Z.eqb_neq. lia.
Qed.

Lemma lex_word_app w rest :
  forallb word_char w = true -> match rest with c :: _ => word_char c = false | [] => True end ->
  lex_word (w ++ rest) = (w, rest).
Proof.
  intros Hw Hr. induction w as [|c w IH]; simpl.
  - destruct rest as [|c rest]; [done|]. unfold word_char in Hr. apply negb_false_iff in Hr.
    simpl. by rewrite Hr.
  - simpl in Hw. apply andb_true_iff in Hw as [Hc Hw]. unfold word_char in Hc.
    apply negb_true_iff in Hc. rewrite Hc, IH by done. done.
Qed.

Section list_lexer.
Context {A : Type} (lex : pystr -> option (A * pystr)) (close : Z).

(** a comma-separated list up to the closing character *)
Fixpoint lex_list (fuel : nat) (s : pystr) : option (list A * pystr) :=
  match fuel with
  | O => None
  | S f =>
      '(a, r) ← lex s;
      match r with
      | c :: r' => if c =? 44 then '(l, t) ← lex_list f r'; Some (a :: l, t)
                   else if c =? close then Some ([a], r')
                   else None
      | [] => None
      end
  end.

(** a printed list is read back when each item is *)
Lemma lex_list_printed {B} (print : B -> pystr) (mean : B -> A) fuel (l : list B) rest :
  l <> [] -> (length l <= fuel)%nat -> close = 41 \/ close = 59 \/ close = 32 ->
  (forall b r, b ∈ l -> delimited r -> lex (print b ++ r) = Some (mean b, r)) ->
  lex_list fuel (join (u",") (print <$> l) ++ close :: rest) = Some (mean <$> l, rest).
Proof.
  intros Hne Hf Hcl. revert fuel Hne Hf. induction l as [|a l IH]; intros fuel Hne Hf Hlex; [done|].
  destruct fuel as [|fuel]; [simpl in Hf; lia|]. cbn [lex_list].
  change (print <$> a :: l) with (print a :: (print <$> l)). rewrite join_cons.
  destruct l as [|b l].
  - simpl. rewrite app_nil_r. rewrite (Hlex a (close :: rest)); [|set_solver|].
    + destruct Hcl as [-> |[-> | ->]]; done.
    + destruct Hcl as [-> |[-> | ->]]; done.
  - cbn [fmap list_fmap]. change (u",") with [44]. rewrite <- !app_assoc.
    rewrite (Hlex a); [|set_solver|done]. cbn [mbind option_bind app].
    change (print b :: (print <$> l)) with (print <$> b :: l).
    change [44] with (u","). rewrite Z.eqb_refl. rewrite IH; [done|done|simpl in *; lia|].
    intros x r Hx. apply Hlex. set_solver.
Qed.

(** one item that cannot be read makes the whole list unreadable *)
Lemma lex_list_broken {B} (print : B -> pystr) (mean : B -> A) (bad : B -> Prop) fuel (l : list B) rest :
  (forall b r, b ∈ l -> ~ bad b -> delimited r -> lex (print b ++ r) = Some (mean b, r)) ->
  (forall b r, bad b -> lex (print b ++ r) = None) -> (forall b, Decision (bad b)) ->
  Exists bad l ->
  lex_list fuel (join (u",") (print <$> l) ++ close :: rest) = None.
Proof.
  intros Hok Hbad Hdec Hex. revert fuel Hok. induction l as [|a l IH]; intros fuel Hok; [inversion Hex|].
  destruct fuel as [|fuel]; [done|]. cbn [lex_list].
  change (print <$> a :: l) with (print a :: (print <$> l)). rewrite join_cons.
  destruct (decide (bad a)) as [Ha|Ha]; [by rewrite <- app_assoc, Hbad|].
  apply Exists_cons in Hex as [?|Hex]; [done|]. destruct l as [|b l]; [inversion Hex|].
  cbn [fmap list_fmap]. change (u",") with [44]. rewrite <- !app_assoc.
  rewrite (Hok a); [|set_solver|done|done]. cbn [mbind option_bind app].
  change (print b :: (print <$> l)) with (print <$> b :: l).
  change [44] with (u","). rewrite Z.eqb_refl. rewrite IH; [done|done|].
  intros x r Hx. apply Hok. set_solver.
Qed.
End list_lexer.

Lemma join_length (l : list pystr) : (length l <= S (length (join (u",") l)))%nat.
Proof.
  induction l as [|x l IH]; simpl; [lia|]. destruct l as [|y l]; [simpl; lia|].
  rewrite !length_app. change (length (u",")) with 1%nat. simpl in *. lia.
Qed.

(** ** Values *)

(** what a database reads: a string literal, a bare word (number, keyword) or a
    function applied to a literal *)
Inductive sqlval : Type :=
| VLit (s : pystr)
| VWord (w : pystr)
| VCall (f s : pystr).

#[export] Instance sqlval_eq_dec : EqDecision sqlval.
Proof. solve_decision. Defined.

(** the characters of the bare words the builders print *)
Definition token_char (c : Z) : bool := is_alpha c || is_digit c || char_in c (u"+-.").

(** the value meant by an entry of the object, given what a string means *)
Definition value_of (clean : pystr -> pystr) (v : option pyobj) : sqlval :=
  match v with
  | None => VWord (u"NULL")
  | Some PNone => VWord (u"null")
  | Some (PBool b) => VWord (if b then u"true" else u"false")
  | Some (PInt n) => VWord (str_of_Z n)
  | Some (PFloat f) => VWord (format_f f)
  | Some (PStr s) => VLit (clean s)
  | Some v => VLit (clean (stringify v))
  end.

(** the value after the coercion to the column's type *)
Definition coerce (quote_scalar : bool) (prop : SchemaProperty) (v : sqlval) : sqlval :=
  if is_array_or_json prop && is_not_null prop
     && bool_decide (v ∈ [VLit []; VWord (u"NULL"); VWord (u"null")]) then
    VLit (if str_eqb (sp_type prop) (u"array") then u"[]" else u"{}")
  else
    match v with
    | VWord w => if quote_scalar && str_eqb (sp_type prop) (u"object") && scalar_value w then VLit w else v
    | VLit _ | VCall _ _ => v
    end.

Lemma quoted_not_scalar w : scalar_value (sq ++ w ++ sq) = false.
Proof.
  unfold scalar_value, endswith. rewrite app_assoc, rev_app_distr. unfold sq.
  cbn [rev app]. unfold number_prefix. vm_compute. by destruct w.
Qed.

Lemma quoted_empty w : is_empty_val (sq ++ w ++ sq) = true <-> w = [].
Proof.
  unfold is_empty_val, str_in. rewrite bool_decide_eq_true.
  split; [|by intros ->; set_solver]. intros Hin.
  destruct w as [|c w]; [done|]. change (u"NULL") with [78; 85; 76; 76] in Hin.
  change (u"null") with [110; 117; 108; 108] in Hin. unfold sq in Hin. set_unfold.
  destruct Hin as [H|[H|[H|[H|[]]]]]; try done. simpl in H. injection H as -> H. by destruct w.
Qed.

Section value_lexer.
Context (lit : pystr -> option (pystr * pystr)).

Definition lex_value (s : pystr) : option (sqlval * pystr) :=
  match lit s with
  | Some (x, r) => Some (VLit x, r)
  | None => match lex_word s with
            | ([], _) => None
            | (w, r) =>
                if head_is 40 r then
                  '(x, r) ← lit (drop 1 r);
                  if head_is 41 r then Some (VCall w x, drop 1 r) else None
                else Some (VWord w, r)
            end
  end.

(** [t] is the text of [v] before a comma or a closing parenthesis *)
Definition prints (t : pystr) (v : sqlval) : Prop :=
  (forall rest, delimited rest -> lex_value (t ++ rest) = Some (v, rest)) /\
  match v with
  | VWord w => t = w /\ w <> [] /\ forallb token_char w = true
  | VLit x => scalar_value t = false /\ (is_empty_val t = true <-> x = [])
  | VCall _ _ => scalar_value t = false /\ is_empty_val t = false
  end.

(** what the literal syntax of a dialect has to provide *)
Hypothesis lit_word : forall w rest, forallb token_char w = true -> w <> [] -> lit (w ++ rest) = None.
Hypothesis lit_plain : forall w rest,
  forallb (fun c => token_char c || char_in c (u"[]{}")) w = true -> delimited rest ->
  lit (sq ++ w ++ sq ++ rest) = Some (w, rest).

Lemma token_word_char c : token_char c = true -> word_char c = true.
Proof.
  unfold word_char. rewrite negb_true_iff. destruct ((c =? 44) || (c =? 40) || (c =? 41) || (c =? 59) || (c =? 32)) eqn:E; [|done].
  rewrite !orb_true_iff, !Z.eqb_eq in E. intros H. destruct E as [[[[->| ->]| ->]| ->]| ->]; by vm_compute in H.
Qed.

Lemma prints_word w : w <> [] -> forallb token_char w = true -> prints w (VWord w).
Proof.
  intros Hne Hw. split; [|done]. intros rest Hr. unfold lex_value.
  rewrite lit_word by done. rewrite lex_word_app.
  - rewrite (delimited_head 40) by done. by destruct w.
  - eapply forallb_mono, Hw. apply token_word_char.
  - unfold delimited, head_is in Hr. destruct rest as [|c rest]; [done|].
    unfold word_char. apply negb_false_iff. rewrite !orb_true_iff in *. tauto.
Qed.

Lemma prints_plain w :
  forallb (fun c => token_char c || char_in c (u"[]{}")) w = true -> prints (sq ++ w ++ sq) (VLit w).
Proof.
  intros Hw. split.
  - intros rest Hr. unfold lex_value. rewrite <- !app_assoc. by rewrite lit_plain.
  - split; [apply quoted_not_scalar|apply quoted_empty].
Qed.

(** the empty test on the text is the one on the value *)
Lemma prints_empty t v :
  prints t v -> is_empty_val t = bool_decide (v ∈ [VLit []; VWord (u"NULL"); VWord (u"null")]).
Proof.
  intros [Hlex Hv]. apply eq_bool_prop_intro. rewrite Is_true_true. rewrite bool_decide_spec.
  destruct v as [x|w|f x].
  - destruct Hv as [_ ->]. set_solver.
  - destruct Hv as (-> & Hne & Hw). unfold is_empty_val, str_in. rewrite bool_decide_eq_true.
    split; [|set_solver].
    intros [->|[->|[->|[->|[]%elem_of_nil]%elem_of_cons]%elem_of_cons]%elem_of_cons]%elem_of_cons;
      [done|done|set_solver..].
  - destruct Hv as [_ ->]. split; [done|set_solver].
Qed.

(** the coercion of a printed value prints the coerced value *)
Lemma prints_coerce t v prop quote_scalar :
  prints t v -> prints (to_json_string_val t prop quote_scalar) (coerce quote_scalar prop v).
Proof.
  intros Hp. unfold to_json_string_val, coerce. rewrite (prints_empty t v Hp). destruct Hp as [Hlex Hv].
  destruct (is_array_or_json prop && is_not_null prop && _).
  { destruct (str_eqb (sp_type prop) (u"array")); by apply prints_plain. }
  destruct quote_scalar; [|by destruct v; split].
  unfold quote_json_scalar. simpl andb. destruct v as [x|w|f x].
  - destruct Hv as [Hs He]. rewrite Hs, andb_false_r. by split.
  - destruct Hv as (-> & Hne & Hw). destruct (_ && scalar_value w); [|by split].
    apply prints_plain. eapply forallb_mono, Hw. by intros c ->.
  - destruct Hv as [Hs He]. rewrite Hs, andb_false_r. by split.
Qed.

(** a function of a literal *)
Lemma prints_call f t x :
  forallb word_char f = true -> f <> [] -> (forall rest, lit (f ++ u"(" ++ rest) = None) ->
  (forall rest, delimited rest -> lit (t ++ rest) = Some (x, rest)) ->
  scalar_value (f ++ u"(" ++ t ++ u")") = false -> is_empty_val (f ++ u"(" ++ t ++ u")") = false ->
  prints (f ++ u"(" ++ t ++ u")") (VCall f x).
Proof.
  intros Hf Hne Hlit Ht Hs He. split; [|done]. intros rest Hr. unfold lex_value.
  rewrite <- !app_assoc, Hlit. rewrite lex_word_app by done.
  destruct f as [|c f]; [done|]. change (u"(" ++ t ++ u")" ++ rest) with (40 :: (t ++ 41 :: rest)).
  cbn [head_is]. rewrite Z.eqb_refl. change (drop 1 (40 :: (t ++ 41 :: rest))) with (t ++ 41 :: rest).
  rewrite Ht by done. done.
Qed.


(** ** Statements *)

Context (ident : pystr -> option (pystr * pystr)).

Definition strip_prefix (p s : pystr) : option pystr :=
  if startswith p s then Some (drop (length p) s) else None.

(** [columns) VALUES (values)], and the text after it *)
Definition parse_row (s : pystr) : option (list pystr * list sqlval * pystr) :=
  '(cols, s) ← lex_list ident 41 (length s) s;
  s ← strip_prefix (u" VALUES (") s;
  '(vals, rest) ← lex_list lex_value 41 (length s) s;
  Some (cols, vals, rest).

(** [<head> table (columns) VALUES (values)], and the text after it *)
Definition parse_insert (head s : pystr) : option (pystr * list pystr * list sqlval * pystr) :=
  s ← strip_prefix head s;
  '(table, s) ← ident s;
  s ← strip_prefix (u" (") s;
  '(cols, vals, rest) ← parse_row s;
  Some (table, cols, vals, rest).

Lemma strip_prefix_app p s : strip_prefix p (p ++ s) = Some s.
Proof. unfold strip_prefix. by rewrite startswith_app, drop_app_length. Qed.

(** a row is read back when each identifier and value is *)
Lemma parse_row_printed {B} (q : pystr -> pystr) (cols : list pystr)
    (pval : B -> pystr) (mean : B -> sqlval) (vals : list B) rest :
  (forall name r, name ∈ cols -> delimited r -> ident (q name ++ r) = Some (name, r)) ->
  cols <> [] -> vals <> [] -> (forall v, v ∈ vals -> prints (pval v) (mean v)) ->
  parse_row (join (u",") (q <$> cols) ++ u") VALUES (" ++ join (u",") (pval <$> vals) ++ u")" ++ rest)
  = Some (cols, mean <$> vals, rest).
Proof.
  intros Hid Hc Hv Hp. unfold parse_row.
  change (u") VALUES (") with (41 :: u" VALUES ("). change (u")") with [41]. rewrite <- !app_comm_cons.
  assert (forall (l : list pystr) t, (length l <= length (join (u",") l ++ 41%Z :: t))%nat) as Hlen.
  { intros l t. pose proof (join_length l). rewrite length_app. simpl. lia. }
  rewrite (lex_list_printed ident 41 q id); [|done| |by left|].
  - rewrite list_fmap_id. cbn [mbind option_bind]. rewrite strip_prefix_app. cbn [mbind option_bind app].
    rewrite (lex_list_printed lex_value 41 pval mean); [done|done| |by left|].
    + pose proof (Hlen (pval <$> vals) rest) as H. by rewrite length_fmap in H.
    + intros b r Hb Hr. by apply Hp.
  - match goal with |- context [_ ++ 41 :: ?t] => pose proof (Hlen (q <$> cols) t) as H end.
    by rewrite length_fmap in H.
  - intros b r Hb Hr. by apply Hid.
Qed.

Lemma parse_insert_printed {B} head (q : pystr -> pystr) table (cols : list pystr)
    (pval : B -> pystr) (mean : B -> sqlval) (vals : list B) rest :
  (forall name r, name ∈ table :: cols -> delimited r -> ident (q name ++ r) = Some (name, r)) ->
  cols <> [] -> vals <> [] -> (forall v, v ∈ vals -> prints (pval v) (mean v)) ->
  parse_insert head (head ++ q table ++ u" (" ++ join (u",") (q <$> cols) ++ u") VALUES ("
                     ++ join (u",") (pval <$> vals) ++ u")" ++ rest)
  = Some (table, cols, mean <$> vals, rest).
Proof.
  intros Hid Hc Hv Hp. unfold parse_insert. rewrite strip_prefix_app. cbn [mbind option_bind].
  rewrite Hid by (set_solver || done). cbn [mbind option_bind]. rewrite strip_prefix_app. cbn [mbind option_bind].
  rewrite (parse_row_printed q cols pval mean); [done| |done|done|done].
  intros name r Hn. apply Hid. set_solver.
Qed.

(** [column=value] *)
Definition lex_assign (s : pystr) : option ((pystr * sqlval) * pystr) :=
  '(name, s) ← ident s;
  s ← strip_prefix (u"=") s;
  '(v, s) ← lex_value s;
  Some ((name, v), s).

(** a comma-separated list of assignments up to the closing character *)
Definition lex_assigns (close : Z) (s : pystr) : option (list (pystr * sqlval) * pystr) :=
  lex_list lex_assign close (length s) s.

Lemma lex_assigns_printed {B} close (pname pval : B -> pystr) (name : B -> pystr) (mean : B -> sqlval) (l : list B) rest :
  l <> [] -> close = 59 \/ close = 32 ->
  (forall b r, b ∈ l -> ident (pname b ++ u"=" ++ r) = Some (name b, u"=" ++ r)) ->
  (forall b, b ∈ l -> prints (pval b) (mean b)) ->
  lex_assigns close (join (u",") ((fun b => pname b ++ u"=" ++ pval b) <$> l) ++ close :: rest)
  = Some ((fun b => (name b, mean b)) <$> l, rest).
Proof.
  intros Hne Hcl Hn Hv. unfold lex_assigns.
  rewrite (lex_list_printed lex_assign close _ (fun b => (name b, mean b))); [done|done| |tauto|].
  - rewrite length_app. cbn [length].
    pose proof (join_length ((fun b => pname b ++ u"=" ++ pval b) <$> l)) as H.
    rewrite length_fmap in H. lia.
  - intros b r Hb Hr. unfold lex_assign. rewrite <- !app_assoc, Hn by done. cbn [mbind option_bind].
    rewrite strip_prefix_app. cbn [mbind option_bind]. by rewrite (proj1 (Hv b Hb)).
Qed.
End value_lexer.

Lemma token_char_digit c : is_digit c = true -> token_char c = true.
Proof. unfold token_char. intros ->. by rewrite orb_true_r. Qed.

Lemma digits_tokens ds : Forall (fun c => is_digit c = true) ds -> forallb token_char ds = true.
Proof. intros H. apply forallb_Forall. eapply Forall_impl; [done|]. apply token_char_digit. Qed.

Lemma str_of_Z_tokens n : str_of_Z n <> [] /\ forallb token_char (str_of_Z n) = true.
Proof.
  unfold str_of_Z. destruct (Z.ltb_spec n 0).
  - destruct (str_of_nonneg_spec (- n)) as (_ & Hd & _); [lia|]. split; [done|].
    cbn [forallb]. by rewrite digits_tokens.
  - destruct (str_of_nonneg_spec n) as (Hne & Hd & _); [lia|]. split; [done|]. by apply digits_tokens.
Qed.

Lemma plain_tokens ds pp :
  ds <> [] -> Forall (fun c => is_digit c = true) ds ->
  plain ds pp <> [] /\ forallb token_char (plain ds pp) = true.
Proof.
  intros Hne Hd. assert (forall n, forallb token_char (repeat_char 48 n) = true) as Hz.
  { intros n. apply digits_tokens, repeat_zeros_digits. }
  unfold plain. destruct (pp <=? 0); [|destruct (_ <=? pp)].
  - split; [done|]. by rewrite !forallb_app, Hz, (digits_tokens ds).
  - split; [by destruct ds|]. by rewrite forallb_app, Hz, digits_tokens.
  - split; [by destruct (take _ ds)|]. rewrite !forallb_app.
    by rewrite (digits_tokens (take _ ds)), (digits_tokens (drop _ ds)) by eauto using Forall_take, Forall_drop.
Qed.

Lemma format_f_tokens f :
  valid_float f = true -> format_f f <> [] /\ forallb token_char (format_f f) = true.
Proof.
  destruct f as [|neg|neg sig exp]; [done|by destruct neg|]. intros Hv.
  destruct (valid_float_inv _ _ _ Hv) as [[-> ->]|(Hs & Hm & _)]; [by destruct neg|].
  rewrite format_f_eq by done.
  destruct (str_of_nonneg_spec sig) as (Hne & Hd & _); [lia|].
  destruct (plain_tokens (str_of_nonneg sig) (decpt sig exp) Hne Hd) as [H1 H2].
  split; [by destruct neg|]. rewrite forallb_app, H2. by destruct neg.
Qed.

Lemma mantissa_tokens ds :
  ds <> [] -> Forall (fun c => is_digit c = true) ds ->
  mantissa ds <> [] /\ forallb token_char (mantissa ds) = true.
Proof.
  intros Hne Hd. destruct ds as [|d [|e r]]; [done| |].
  - split; [done|]. by apply digits_tokens.
  - split; [done|]. inversion Hd; subst.
    change (token_char d && forallb token_char (e :: r) = true).
    by rewrite token_char_digit, digits_tokens.
Qed.

Lemma format_g_tokens f :
  valid_float f = true -> format_g f <> [] /\ forallb token_char (format_g f) = true.
Proof.
  destruct f as [|neg|neg sig exp]; [done|by destruct neg|]. intros Hv.
  destruct (valid_float_inv _ _ _ Hv) as [[-> ->]|(Hs & Hm & _)]; [by destruct neg|].
  rewrite format_g_eq by done. cbv zeta.
  destruct (str_of_nonneg_spec sig) as (Hne & Hd & _); [lia|].
  match goal with |- sign neg ++ ?b <> [] /\ _ => assert (b <> [] /\ forallb token_char b = true) as [H1 H2] end.
  { destruct (_ || _); [|by apply plain_tokens].
    destruct (mantissa_tokens _ Hne Hd) as [H1 H2].
    destruct (exponent2_digits (decpt sig exp - 1)) as (x & a & -> & Hx & _ & Ha).
    split; [by destruct (mantissa _)|]. rewrite forallb_app, H2. cbn [forallb]. rewrite digits_tokens by done.
    by destruct Hx as [-> | ->]. }
  split; [by destruct neg|]. rewrite forallb_app, H2. by destruct neg.
Qed.

(** a monadic map that succeeds is the map of its results *)
Lemma mapM_default {A} (f : A -> option pystr) (l : list A) vals :
  mapM f l = Some vals ->
  vals = (fun x => default [] (f x)) <$> l /\ Forall (fun x => f x = Some (default [] (f x))) l.
Proof.
  intros H%mapM_Some_1. induction H as [|x v l vs Hx _ [-> IH]]; [done|]. simpl. rewrite Hx. split; [done|].
  constructor; [by rewrite Hx|done].
Qed.

Lemma forallb_absent (P : Z -> bool) s x : forallb P s = true -> P x = false -> x ∉ s.
Proof. intros H Hx Hin%list_elem_of_In. rewrite forallb_forall in H. rewrite (H x Hin) in Hx. done. Qed.

(** ** A schema and a row for the examples *)

Definition example_model : Schema :=
  mk_schema [(u"id", mk_prop (u"string") [] false None None None None);
             (u"name", mk_prop (u"string") [] true None None None None);
             (u"tags", mk_prop (u"array") [] false None None None None)]
    [u"id"; u"tags"] [u"id"] (u"customer") (u"1") None.

Definition example_object : pydict pyobj :=
  [(u"id", PStr (u"1")); (u"name", PStr (u"O'Brien")); (u"tags", PStr [])].

(** an entry of an explicit dict *)
Lemma dict_get_In {A} (k : pystr) (d : pydict A) v : dict_get k d = Some v -> exists k', (k', v) ∈ d.
Proof.
  induction d as [|[k' v'] d IH]; [done|]. simpl. case_decide; intros Hg.
  - injection Hg as ->. exists k'. set_solver.
  - destruct (IH Hg) as [k'' ?]. exists k''. set_solver.
Qed.

(** a property of all values of an explicit dict *)
Lemma dict_values_ok {A} (P : A -> bool) (d : pydict A) :
  forallb (fun e => P e.2) d = true -> forall k v, dict_get k d = Some v -> P v = true.
Proof.
  intros H k v [k' Hin%list_elem_of_In]%dict_get_In. rewrite forallb_forall in H. exact (H (k', v) Hin).
Qed.
