(* ===== verification/SqlBase.v ===== *)
(** * The shared SQL driver: eds/drivers/sql_base.py

    [SqlDriverBase] over two interfaces: the dialect (SQL generation and
    quoting, supplied by each driver) and the database adapter [SqlDb].  The
    methods run in [M] over the driver's attributes and the database, whose
    state is abstract.  An execution records the batches the database accepted,
    so that the theorems can say which statements are durable: every processed
    statement is either in an accepted transaction or still buffered, once and
    in order, also across failed flushes; the byte-batched import executes all
    statements in order with bounded batches. *)
From stdpp Require Import base tactics list option numbers sets strings.
From S2P Require Import Prelude PyStr PyDict PyFloat GoJson Schema DbChange Interfaces SqlUtil.

(** an exception of the driver: a builder, the registry or the database failed *)
Inductive sql_error : Type := BuildError | RegistryFailed | DbError.

(** ** The interfaces *)

(** the per-driver hooks; [None] is an exception raised while building SQL *)
Class SqlDialect := {
  dl_quote_identifier : pystr -> pystr;
  dl_to_sql : DBChangeEvent -> Schema -> option pystr;
  dl_to_append_sql : DBChangeEvent -> Schema -> option pystr;
  dl_to_sql_from_object : pystr -> Schema -> pystr -> pydict pyobj -> option (list pystr) -> option pystr;
  dl_create_table_sql : Schema -> pystr;
  dl_create_append_table_sql : Schema -> pystr;
  dl_create_current_view_sql : Schema -> pystr;
  dl_create_timeline_view_sql : Schema -> pystr;
  dl_drop_views_sql : Schema -> list pystr;
  dl_add_new_columns_sql : list pystr -> Schema -> DatabaseSchema -> list pystr;
  dl_schema_column : pystr;
  dl_db_name_function : pystr;
  dl_max_batch_size : Z
}.

(** the database adapter; a call that fails leaves no effect of its own SQL *)
Class SqlDb (DB : Type) := {
  db_query_single_value : pystr -> method DB unit pystr;
  db_build_schema : pystr -> pystr -> bool -> method DB unit DatabaseSchema;
  db_execute_in_transaction : pystr -> method DB unit unit;
  db_exec : pystr -> method DB unit unit;
  db_drop_table : pystr -> method DB unit unit;
  (** the executor of [create_import_executor] *)
  db_import_exec : pystr -> method DB unit unit
}.

Definition MAX_BYTES_SIZE_INSERT : Z := 5000000.

Section SqlDriver.
Context {DB R : Type} `{dialect : !SqlDialect} `{!SqlDb DB} `{!Registry R}.

Record SD := mk_sd {
  sd_db : DB;
  sd_registry : R;
  sd_pending : list pystr;
  sd_count : Z;
  sd_size : Z;
  sd_dbname : pystr;
  sd_dbschema : DatabaseSchema;
  sd_mode : IngestMode;
  sd_single : bool;             (** [import_config.single] *)
  sd_tables : list pystr;       (** [import_config.tables] *)
  sd_committed : list pystr     (** the batches the database accepted, in order *)
}.

Abbreviation SDM A := (M SD sql_error A).

Definition sd_set_db (d : DB) (s : SD) : SD :=
  mk_sd d (sd_registry s) (sd_pending s) (sd_count s) (sd_size s) (sd_dbname s) (sd_dbschema s)
    (sd_mode s) (sd_single s) (sd_tables s) (sd_committed s).
Definition sd_set_registry (r : R) (s : SD) : SD :=
  mk_sd (sd_db s) r (sd_pending s) (sd_count s) (sd_size s) (sd_dbname s) (sd_dbschema s)
    (sd_mode s) (sd_single s) (sd_tables s) (sd_committed s).
Definition sd_set_buffer (p : list pystr) (c sz : Z) (s : SD) : SD :=
  mk_sd (sd_db s) (sd_registry s) p c sz (sd_dbname s) (sd_dbschema s)
    (sd_mode s) (sd_single s) (sd_tables s) (sd_committed s).
Definition sd_set_schema (n : pystr) (d : DatabaseSchema) (s : SD) : SD :=
  mk_sd (sd_db s) (sd_registry s) (sd_pending s) (sd_count s) (sd_size s) n d
    (sd_mode s) (sd_single s) (sd_tables s) (sd_committed s).
Definition sd_commit (b : pystr) (s : SD) : SD :=
  mk_sd (sd_db s) (sd_registry s) (sd_pending s) (sd_count s) (sd_size s) (sd_dbname s) (sd_dbschema s)
    (sd_mode s) (sd_single s) (sd_tables s) (sd_committed s ++ [b]).

(** calls of the database and the registry *)
Definition on_db {A} (f : method DB unit A) : SDM A :=
  fun s => let '(r, d) := f (sd_db s) in
    (match r with inl _ => inl DbError | inr a => inr a end, sd_set_db d s).
Definition on_registry {A} (f : method R registry_error A) : SDM A :=
  fun s => let '(r, g) := f (sd_registry s) in
    (match r with inl _ => inl RegistryFailed | inr a => inr a end, sd_set_registry g s).
Definition built (sql : option pystr) : SDM pystr :=
  match sql with Some t => mret t | None => raise BuildError end.

(** ** Schema refresh *)

Definition _refresh_schema (fail_if_empty : bool) : SDM unit :=
  name ← gets sd_dbname;
  name ← (match name with
          | [] => on_db (db_query_single_value dl_db_name_function)
          | _ => mret name
          end);
  _ ← modify (fun s => sd_set_schema name (sd_dbschema s) s);
  d ← on_db (db_build_schema dl_schema_column name fail_if_empty);
  modify (sd_set_schema name d).

(** ** Streaming *)

Definition process (event : DBChangeEvent) : SDM bool :=
  '(_, version) ← on_registry (reg_get_table_version (ev_table event));
  schema ← on_registry (reg_get_schema (ev_table event) version);
  mode ← gets sd_mode;
  sql ← built (match mode with
               | APPEND => dl_to_append_sql event schema
               | UPSERT => dl_to_sql event schema
               end);
  _ ← modify (fun s => sd_set_buffer (sd_pending s ++ [sql]) (sd_count s + 1) (sd_size s) s);
  mret false.

Definition flush : SDM unit :=
  count ← gets sd_count;
  _ ← (if 0 <? count then
         pending ← gets sd_pending;
         let batch := concat pending in
         _ ← on_db (db_execute_in_transaction batch);
         modify (sd_commit batch)
       else mret tt);
  modify (fun s => sd_set_buffer [] 0 (sd_size s) s).

(** ** Migration *)

Definition exec_all (stmts : list pystr) : SDM unit := for_each (fun sql => on_db (db_exec sql)) stmts.

Definition migrate_new_table (schema : Schema) : SDM unit :=
  mode ← gets sd_mode;
  match mode with
  | APPEND =>
      _ ← exec_all [dl_create_append_table_sql schema; dl_create_current_view_sql schema;
                    dl_create_timeline_view_sql schema];
      _refresh_schema true
  | UPSERT =>
      db ← gets sd_dbschema;
      _ ← (if dict_has (sc_table schema) db
           then on_db (db_drop_table (dl_quote_identifier (sc_table schema)))
           else mret tt);
      _ ← on_db (db_exec (dl_create_table_sql schema));
      _refresh_schema true
  end.

Definition migrate_new_columns (schema : Schema) (columns : list pystr) : SDM unit :=
  mode ← gets sd_mode;
  db ← gets sd_dbschema;
  match mode with
  | APPEND =>
      _ ← exec_all (dl_drop_views_sql schema);
      _ ← exec_all (dl_add_new_columns_sql columns schema db);
      _ ← exec_all [dl_create_current_view_sql schema; dl_create_timeline_view_sql schema];
      _refresh_schema true
  | UPSERT =>
      _ ← exec_all (dl_add_new_columns_sql columns schema db);
      _refresh_schema true
  end.

Definition get_destination_schema : SDM DatabaseSchema := gets sd_dbschema.

(** ** Import *)

(** [None] of the lookup is the KeyError of [schema[table]] *)
Definition create_datasource (schema : pydict Schema) : SDM unit :=
  tables ← gets sd_tables;
  for_each (fun table =>
    match dict_get table schema with
    | None => raise BuildError
    | Some data => on_db (db_import_exec (dl_create_table_sql data))
    end) tables.

Definition _flush_import : SDM unit :=
  pending ← gets sd_pending;
  let batch := concat pending in
  _ ← on_db (db_import_exec batch);
  _ ← modify (sd_commit batch);
  modify (fun s => sd_set_buffer [] (sd_count s) 0 s).

(** [event.get_object() or {}] *)
Definition import_object (event : DBChangeEvent) : option (pydict pyobj) :=
  match get_object event with
  | (inl _, _) => None
  | (inr o, _) => Some (default [] o)
  end.

Definition byte_len (sql : pystr) : Z := Z.of_nat (length (utf8_encode sql)).

Definition import_event (event : DBChangeEvent) (data : Schema) : SDM unit :=
  sql ← built (o ← import_object event;
               dl_to_sql_from_object (u"INSERT") data (ev_table event) o None);
  _ ← modify (fun s => sd_set_buffer (sd_pending s ++ [sql]) (sd_count s + 1) (sd_size s) s);
  _ ← (if forallb scalar sql then mret tt else raise BuildError);   (** [sql.encode("utf-8")] *)
  _ ← modify (fun s => sd_set_buffer (sd_pending s) (sd_count s) (sd_size s + byte_len sql) s);
  size ← gets sd_size;
  single ← gets sd_single;
  if (MAX_BYTES_SIZE_INSERT <=? size) || (single : bool) then _flush_import else mret tt.

(** the final flush does not reset the buffer *)
Definition import_completed : SDM unit :=
  size ← gets sd_size;
  if 0 <? size then
    pending ← gets sd_pending;
    let batch := concat pending in
    _ ← on_db (db_import_exec batch);
    modify (sd_commit batch)
  else mret tt.

Definition flush_imported : SDM unit :=
  size ← gets sd_size;
  if 0 <? size then _flush_import else mret tt.

(** ** Durability of the stream *)

(** the calls of the runner between flushes *)
Inductive stream_op : Type :=
| OpProcess (e : DBChangeEvent)
| OpFlush
| OpMigrateTable (schema : Schema)
| OpMigrateColumns (schema : Schema) (columns : list pystr).

Definition stream_step (op : stream_op) (s : SD) : SD :=
  match op with
  | OpProcess e => (process e s).2
  | OpFlush => (flush s).2
  | OpMigrateTable schema => (migrate_new_table schema s).2
  | OpMigrateColumns schema cols => (migrate_new_columns schema cols s).2
  end.

(** the statement an event is turned into; [None] when a collaborator fails *)
Definition stmt_of (event : DBChangeEvent) (s : SD) : option pystr :=
  match reg_get_table_version (ev_table event) (sd_registry s) with
  | (inl _, _) => None
  | (inr (_, version), g) =>
      match reg_get_schema (ev_table event) version g with
      | (inl _, _) => None
      | (inr schema, _) =>
          match sd_mode s with
          | APPEND => dl_to_append_sql event schema
          | UPSERT => dl_to_sql event schema
          end
      end
  end.

Fixpoint stream_run (ops : list stream_op) (s : SD) : SD :=
  match ops with
  | [] => s
  | op :: rest => stream_run rest (stream_step op s)
  end.

(** the statements of the events that [process] took, in order *)
Fixpoint statements (ops : list stream_op) (s : SD) : list pystr :=
  match ops with
  | [] => []
  | op :: rest =>
      match op with OpProcess e => option_list (stmt_of e s) | _ => [] end
      ++ statements rest (stream_step op s)
  end.

(** the buffer, what was committed and the mode are untouched *)
Definition same_buffer (s s' : SD) : Prop :=
  sd_pending s' = sd_pending s /\ sd_count s' = sd_count s /\ sd_size s' = sd_size s /\
  sd_committed s' = sd_committed s /\ sd_mode s' = sd_mode s /\ sd_single s' = sd_single s.

(** a computation that leaves the buffer alone, however it ends *)
Definition bufferless {A} (m : SDM A) : Prop := forall s, same_buffer s (m s).2.

Lemma same_buffer_trans s1 s2 s3 : same_buffer s1 s2 -> same_buffer s2 s3 -> same_buffer s1 s3.
Proof. unfold same_buffer. naive_solver congruence. Qed.

Lemma bufferless_ret {A} (a : A) : bufferless (mret a).
Proof. intros s. done. Qed.

Lemma bufferless_raise {A} e : bufferless (raise (A := A) e).
Proof. intros s. done. Qed.

Lemma bufferless_gets {A} (f : SD -> A) : bufferless (gets f).
Proof. intros s. done. Qed.

Lemma bufferless_bind {A B} (m : SDM A) (f : A -> SDM B) :
  bufferless m -> (forall a, bufferless (f a)) -> bufferless (m ≫= f).
Proof.
  intros Hm Hf s. specialize (Hm s). unfold mbind, M_bind. destruct (m s) as [[e|a] s']; [done|].
  eapply same_buffer_trans; [exact Hm|apply Hf].
Qed.

Lemma bufferless_on_db {A} (f : method DB unit A) : bufferless (on_db f).
Proof. intros s. unfold on_db. by destruct (f (sd_db s)) as [[] d]. Qed.

Lemma bufferless_on_registry {A} (f : method R registry_error A) : bufferless (on_registry f).
Proof. intros s. unfold on_registry. by destruct (f (sd_registry s)) as [[] d]. Qed.

Lemma bufferless_for_each {A} (f : A -> SDM unit) l : (forall a, bufferless (f a)) -> bufferless (for_each f l).
Proof.
  intros Hf. induction l as [|a l IH]; simpl; [apply bufferless_ret|]. by apply bufferless_bind.
Qed.

Lemma bufferless_refresh b : bufferless (_refresh_schema b).
Proof.
  apply bufferless_bind; [apply bufferless_gets|]. intros name.
  apply bufferless_bind; [destruct name; [apply bufferless_on_db|apply bufferless_ret]|]. intros n.
  apply bufferless_bind; [by intros s|]. intros _.
  apply bufferless_bind; [apply bufferless_on_db|]. intros d s. done.
Qed.

Lemma bufferless_exec_all l : bufferless (exec_all l).
Proof. apply bufferless_for_each. intros a. apply bufferless_on_db. Qed.

Lemma bufferless_migrate_table schema : bufferless (migrate_new_table schema).
Proof.
  apply bufferless_bind; [apply bufferless_gets|]. intros [].
  - apply bufferless_bind; [apply bufferless_gets|]. intros db.
    apply bufferless_bind; [destruct (dict_has _ db); [apply bufferless_on_db|apply bufferless_ret]|].
    intros _. apply bufferless_bind; [apply bufferless_on_db|]. intros _. apply bufferless_refresh.
  - apply bufferless_bind; [apply bufferless_exec_all|]. intros _. apply bufferless_refresh.
Qed.

Lemma bufferless_migrate_columns schema cols : bufferless (migrate_new_columns schema cols).
Proof.
  apply bufferless_bind; [apply bufferless_gets|]. intros mode.
  apply bufferless_bind; [apply bufferless_gets|]. intros db. destruct mode.
  - apply bufferless_bind; [apply bufferless_exec_all|]. intros _. apply bufferless_refresh.
  - do 3 (apply bufferless_bind; [apply bufferless_exec_all|]; intros _). apply bufferless_refresh.
Qed.

(** the counter is the length of the buffer *)
Definition count_ok (s : SD) : Prop := sd_count s = Z.of_nat (length (sd_pending s)).

(** what is durable and what is still buffered *)
Definition durable (s : SD) : pystr := concat (sd_committed s).
Definition buffered (s : SD) : pystr := concat (sd_pending s).

Lemma process_spec e s :
  match stmt_of e s with
  | Some sql => (process e s).1 = inr false /\ sd_pending (process e s).2 = sd_pending s ++ [sql] /\
                sd_count (process e s).2 = sd_count s + 1
  | None => (exists err, (process e s).1 = inl err) /\ sd_pending (process e s).2 = sd_pending s /\
            sd_count (process e s).2 = sd_count s
  end /\ sd_committed (process e s).2 = sd_committed s.
Proof.
  unfold stmt_of, process, on_registry, mbind, M_bind.
  destruct (reg_get_table_version (ev_table e) (sd_registry s)) as [[err|[found version]] g] eqn:E1.
  { simpl. eauto. }
  simpl. destruct (reg_get_schema (ev_table e) version g) as [[err|schema] g'] eqn:E2.
  { simpl. eauto. }
  simpl. destruct (match sd_mode s with UPSERT => _ | APPEND => _ end) as [sql|]; simpl; eauto.
Qed.

Lemma flush_spec s :
  (exists s', flush s = (inr tt, s') /\ sd_pending s' = [] /\ sd_count s' = 0 /\
     sd_committed s' = if 0 <? sd_count s then sd_committed s ++ [concat (sd_pending s)]
                       else sd_committed s) \/
  (exists s', flush s = (inl DbError, s') /\ sd_pending s' = sd_pending s /\ sd_count s' = sd_count s /\
     sd_committed s' = sd_committed s).
Proof.
  unfold flush, on_db, mbind, M_bind, gets. destruct (0 <? sd_count s).
  - destruct (db_execute_in_transaction (concat (sd_pending s)) (sd_db s)) as [[[]|[]] d].
    + right. eexists. split; [done|]. done.
    + left. eexists. split; [done|]. done.
  - left. eexists. split; [done|]. done.
Qed.

Lemma stream_step_inv op s :
  count_ok s ->
  count_ok (stream_step op s) /\
  durable (stream_step op s) ++ buffered (stream_step op s) =
  durable s ++ buffered s ++
    concat (match op with OpProcess e => option_list (stmt_of e s) | _ => [] end).
Proof.
  intros Hc. unfold count_ok, durable, buffered in *. destruct op as [e| |schema|schema cols]; simpl.
  - destruct (process_spec e s) as [Hps Hcm]. rewrite Hcm. destruct (stmt_of e s) as [sql|].
    + destruct Hps as (_ & -> & ->). rewrite length_app, concat_app. simpl. rewrite app_nil_r.
      split; [lia|done].
    + destruct Hps as (_ & -> & ->). simpl. by rewrite app_nil_r.
  - rewrite app_nil_r.
    destruct (flush_spec s) as [(s' & E & Hp & Hn & Hm)|(s' & E & Hp & Hn & Hm)]; rewrite E; simpl;
      rewrite Hp, Hn, Hm; [|done].
    split; [done|]. rewrite app_nil_r. destruct (Z.ltb_spec 0 (sd_count s)).
    + rewrite concat_app. simpl. by rewrite app_nil_r.
    + destruct (sd_pending s); [by rewrite app_nil_r|simpl in Hc; lia].
  - destruct (bufferless_migrate_table schema s) as (-> & -> & _ & -> & _). by rewrite app_nil_r.
  - destruct (bufferless_migrate_columns schema cols s) as (-> & -> & _ & -> & _). by rewrite app_nil_r.
Qed.

(** C13: whatever the order of process, flush and migration calls and whichever
    of them fail, the text of the transactions the database accepted followed
    by the buffer is the text of all processed statements, each once and in
    order: a failed flush keeps its batch for the next one, a flush that
    returns leaves nothing behind. *)
Theorem stream_exactly_once ops s :
  count_ok s ->
  durable (stream_run ops s) ++ buffered (stream_run ops s) =
  durable s ++ buffered s ++ concat (statements ops s) /\
  ((flush (stream_run ops s)).1 = inr tt ->
   durable (flush (stream_run ops s)).2 = durable s ++ buffered s ++ concat (statements ops s)).
Proof.
  intros Hc.
  assert (count_ok (stream_run ops s) /\ durable (stream_run ops s) ++ buffered (stream_run ops s) =
    durable s ++ buffered s ++ concat (statements ops s)) as [Hc' Hall].
  { revert s Hc. induction ops as [|op ops IH]; intros s Hc; simpl.
    - by rewrite app_nil_r.
    - destruct (stream_step_inv op s Hc) as [Hc1 H1]. destruct (IH _ Hc1) as [Hc2 ->].
      split; [done|]. rewrite concat_app, !app_assoc in *. by rewrite H1. }
  split; [done|]. intros Hf. destruct (stream_step_inv OpFlush _ Hc') as [_ H2]. simpl in H2.
  destruct (flush_spec (stream_run ops s)) as [(s' & E & P & _)|(s' & E & _)]; rewrite E in *; [|done].
  unfold buffered in H2 at 1. simpl in H2 |- *. rewrite P in H2. simpl in H2.
  rewrite !app_nil_r in H2. by rewrite H2.
Qed.

(** ** The import *)

(** the calls of the importer: one event, or the end of a table *)
Inductive import_op : Type :=
| ImpEvent (e : DBChangeEvent) (data : Schema)
| ImpTableDone.

Definition import_step (op : import_op) : SDM unit :=
  match op with
  | ImpEvent e data => import_event e data
  | ImpTableDone => flush_imported
  end.

Definition import_run (ops : list import_op) : SDM unit :=
  _ ← for_each import_step ops; import_completed.

Definition import_stmt (op : import_op) : option pystr :=
  match op with
  | ImpEvent e data => o ← import_object e; dl_to_sql_from_object (u"INSERT") data (ev_table e) o None
  | ImpTableDone => None
  end.

(** the size is that of the buffer and below the limit; batches are bounded *)
Definition import_ok (L : Z) (s : SD) : Prop :=
  sd_size s = byte_len (concat (sd_pending s)) /\ sd_size s < MAX_BYTES_SIZE_INSERT /\
  Forall (fun b => byte_len b < MAX_BYTES_SIZE_INSERT + L) (sd_committed s).

Lemma byte_len_app a b : byte_len (a ++ b) = byte_len a + byte_len b.
Proof. unfold byte_len, utf8_encode. rewrite flat_map_app, length_app. lia. Qed.

Lemma byte_len_nonneg a : 0 <= byte_len a.
Proof. unfold byte_len. lia. Qed.

Lemma utf8_char_nonempty c : utf8_char c <> [].
Proof. unfold utf8_char. by repeat case_match. Qed.

Lemma byte_len_zero a : byte_len a <= 0 -> a = [].
Proof.
  destruct a as [|c a]; [done|]. unfold byte_len. simpl. rewrite length_app.
  pose proof (utf8_char_nonempty c). destruct (utf8_char c); simpl; [done|lia].
Qed.

Lemma flush_import_spec s :
  (exists s', _flush_import s = (inr tt, s') /\ sd_pending s' = [] /\ sd_size s' = 0 /\
     sd_committed s' = sd_committed s ++ [concat (sd_pending s)]) \/
  (exists s', _flush_import s = (inl DbError, s')).
Proof.
  unfold _flush_import, on_db, mbind, M_bind, gets.
  destruct (db_import_exec (concat (sd_pending s)) (sd_db s)) as [[[]|[]] d]; [right|left]; eauto 6.
Qed.

Lemma flush_import_ok L s s' :
  0 <= L -> sd_size s = byte_len (concat (sd_pending s)) -> sd_size s < MAX_BYTES_SIZE_INSERT + L ->
  Forall (fun b => byte_len b < MAX_BYTES_SIZE_INSERT + L) (sd_committed s) ->
  _flush_import s = (inr tt, s') ->
  import_ok L s' /\ durable s' ++ buffered s' = durable s ++ buffered s.
Proof.
  intros HL Hs Hlt Hb E. destruct (flush_import_spec s) as [(s1 & E1 & P & Z & C)|(s1 & E1)]; [|by rewrite E in E1].
  rewrite E in E1. injection E1 as <-. unfold import_ok, durable, buffered. rewrite P, Z, C. split.
  - split; [done|]. split; [done|]. apply Forall_app. split; [done|]. apply Forall_singleton. lia.
  - rewrite concat_app. simpl. by rewrite !app_nil_r.
Qed.

Lemma import_event_ok L e data s s' :
  0 <= L -> (forall sql, import_stmt (ImpEvent e data) = Some sql -> byte_len sql <= L) ->
  import_ok L s -> import_event e data s = (inr tt, s') ->
  import_ok L s' /\ exists sql, import_stmt (ImpEvent e data) = Some sql /\
    durable s' ++ buffered s' = durable s ++ buffered s ++ sql.
Proof.
  intros HL Hsz (Hs & Hlt & Hb) E. unfold import_event in E. unfold import_stmt in *.
  destruct (import_object e ≫= _) as [sql|] eqn:Es; [|done]. specialize (Hsz sql eq_refl).
  unfold mbind, M_bind in E. simpl in E. destruct (forallb scalar sql); [|done]. simpl in E.
  set (s1 := sd_set_buffer _ _ _ (sd_set_buffer _ _ _ s)) in E.
  assert (sd_size s1 = byte_len (concat (sd_pending s1))) as Hs1.
  { simpl. rewrite concat_app. simpl. rewrite app_nil_r, byte_len_app. lia. }
  assert (durable s1 ++ buffered s1 = durable s ++ buffered s ++ sql) as Hd1.
  { unfold durable, buffered. simpl. rewrite concat_app. simpl. by rewrite app_nil_r. }
  assert (sd_size s1 = sd_size s + byte_len sql) as Hz1 by done.
  destruct (Z.leb_spec MAX_BYTES_SIZE_INSERT (sd_size s + byte_len sql)) as [Hge|Hge]; simpl in E.
  - destruct (flush_import_ok L s1 s' HL Hs1) as [Hok Hd]; try done; [lia|].
    split; [done|]. exists sql. split; [done|]. by rewrite Hd.
  - destruct (sd_single s); simpl in E.
    + destruct (flush_import_ok L s1 s' HL Hs1) as [Hok Hd]; try done; [lia|].
      split; [done|]. exists sql. split; [done|]. by rewrite Hd.
    + injection E as <-. split; [|by exists sql]. split; [done|]. split; [lia|done].
Qed.

Lemma import_step_ok L op s s' :
  0 <= L -> (forall sql, import_stmt op = Some sql -> byte_len sql <= L) ->
  import_ok L s -> import_step op s = (inr tt, s') ->
  import_ok L s' /\ durable s' ++ buffered s' = durable s ++ buffered s ++ default [] (import_stmt op).
Proof.
  intros HL Hsz Hok E. destruct op as [e data|].
  - destruct (import_event_ok L e data s s' HL Hsz Hok E) as (Hok' & sql & Hsql & Hd).
    rewrite Hsql. done.
  - simpl in *. rewrite app_nil_r. unfold flush_imported, mbind, M_bind, gets in E. destruct Hok as (Hs & Hlt & Hb).
    destruct (0 <? sd_size s).
    + eapply flush_import_ok; try done. lia.
    + by injection E as <-.
Qed.

Lemma import_steps_ok L ops s s' :
  0 <= L -> (forall op sql, op ∈ ops -> import_stmt op = Some sql -> byte_len sql <= L) ->
  import_ok L s -> for_each import_step ops s = (inr tt, s') ->
  import_ok L s' /\ durable s' ++ buffered s' = durable s ++ buffered s ++ concat (omap import_stmt ops).
Proof.
  intros HL. revert s. induction ops as [|op ops IH]; intros s Hsz Hok E.
  { injection E as <-. simpl. by rewrite app_nil_r. }
  simpl in E. destruct (import_step op s) as [[err|[]] s1] eqn:E1.
  { by rewrite (bind_inl _ _ _ err s1) in E. }
  rewrite (bind_inr _ _ _ tt s1) in E by done.
  destruct (import_step_ok L op s s1 HL) as [Hok1 Hd1]; [|done|done|]. { intros. eapply Hsz; set_solver. }
  destruct (IH s1) as [Hok2 Hd2]; [|done|done|]. { intros. eapply Hsz; set_solver. }
  split; [done|]. rewrite Hd2, app_assoc, Hd1. simpl.
  destruct (import_stmt op); simpl; by rewrite <- ?app_assoc, ?app_nil_r.
Qed.

(** an import that returns has executed the statements of all its events,
    each once and in order, whatever the table boundaries; no batch holds more
    than the byte limit plus one statement. *)
Theorem import_executes_all L ops s s' :
  0 <= L -> (forall op sql, op ∈ ops -> import_stmt op = Some sql -> byte_len sql <= L) ->
  sd_pending s = [] -> sd_size s = 0 -> sd_committed s = [] ->
  import_run ops s = (inr tt, s') ->
  durable s' = concat (omap import_stmt ops) /\
  Forall (fun b => byte_len b < MAX_BYTES_SIZE_INSERT + L) (sd_committed s').
Proof.
  intros HL Hsz Hp Hz Hc E. unfold import_run in E.
  destruct (for_each import_step ops s) as [[err|[]] s1] eqn:E1.
  { by rewrite (bind_inl _ _ _ err s1) in E. }
  rewrite (bind_inr _ _ _ tt s1) in E by done.
  destruct (import_steps_ok L ops s s1 HL Hsz) as [(Hs & Hlt & Hb) Hd]; [|done|].
  { unfold import_ok. rewrite Hp, Hz, Hc. split; [done|]. split; [done|constructor]. }
  unfold durable, buffered in *. rewrite Hp, Hc in Hd. simpl in Hd.
  unfold import_completed, on_db, mbind, M_bind, gets in E.
  destruct (Z.ltb_spec 0 (sd_size s1)).
  - destruct (db_import_exec (concat (sd_pending s1)) (sd_db s1)) as [[[]|[]] d]; [done|].
    injection E as <-. simpl. rewrite concat_app. simpl. rewrite app_nil_r. split; [done|].
    apply Forall_app. split; [done|]. apply Forall_singleton. lia.
  - injection E as <-. split; [|done].
    rewrite (byte_len_zero (concat (sd_pending s1))), app_nil_r in Hd by lia. done.
Qed.

(** ** The driver the consumer uses *)

Definition lift_driver {A} (m : SDM A) : method SD driver_error A :=
  fun s => let '(r, s') := m s in (match r with inl _ => inl DriverFailed | inr a => inr a end, s').

#[export] Instance sql_driver : Driver SD := {|
  drv_process := fun e => lift_driver (process e);
  drv_flush := lift_driver flush;
  drv_max_batch_size := dl_max_batch_size;
  drv_supports_migration := true;
  drv_migrate_new_table := fun s => lift_driver (migrate_new_table s);
  drv_migrate_new_columns := fun s cols => lift_driver (migrate_new_columns s cols);
  drv_get_destination_schema := lift_driver get_destination_schema
|}.
End SqlDriver.
