(* ===== verification/PgSql.v ===== *)
(** * PostgreSQL SQL generation: eds/drivers/postgresql/sql.py

    Quoting (single quotes for strings of safe characters, a dollar quote with
    the tag [$_H_$] otherwise), the upsert / update / delete statements, the
    DDL, and the append-mode statements and views.  [None] is an exception (an
    event with fewer key values than the table has primary keys, or an [after]
    that is not JSON).

    The specification is the lexical syntax of PostgreSQL literals and quoted
    identifiers: [lex_literal] and [lex_identifier] read one token from the
    front of a text.  The theorems say when a quoted value is read back as one
    token with the value it was made from and when it is not, and that an
    upsert is read back as its table, columns, values and assignments. *)
From stdpp Require Import base tactics list option numbers sets strings.
From S2P Require Import Prelude PyStr PyDict PyFloat GoFloat GoJson JsonLoads Schema DbChange Interfaces SqlUtil SqlLex SqlBase.

Module Pg.

Definition _MAGIC_ESCAPE : pystr := u"$_H_$".

(** [_SAFE_CHARACTERS]: the characters of the class *)
Definition safe_char (c : Z) : bool :=
  is_alpha c || is_digit c || char_in c (dq ++ u"/.,;:$%@!#^&*(){}[]|\<>?~_- ").

Definition quote_string (s0 : pystr) : pystr :=
  let s := filter (fun c => c <> 0) s0 in
  if forallb safe_char s then sq ++ s ++ sq
  else _MAGIC_ESCAPE ++ s ++ _MAGIC_ESCAPE.

Definition quote_bytes (buf : list Z) : pystr := sq ++ bsl ++ u"x" ++ flat_map hex2 buf ++ sq.

(** truncate at the first NUL, double the quotes *)
Definition quote_identifier (val : pystr) : pystr :=
  let '(head, _, _) := partition_char 0 val in
  dq ++ replace_char 34 (dq ++ dq) head ++ dq.

Definition quote_value (arg : pyobj) : pystr :=
  match arg with
  | PNone => u"null"
  | PBool b => if b then u"true" else u"false"
  | PInt n => str_of_Z n
  | PFloat f => format_f f
  | PStr s => quote_string s
  | _ => quote_string (stringify arg)
  end.

(** ** Upsert *)

Definition val_or_null (model : Schema) (o : pydict pyobj) (name : pystr) : pystr :=
  to_json_string_val (match dict_get name o with Some v => quote_value v | None => u"NULL" end)
    (prop_of model name) true.

Definition assign (name v : pystr) : pystr := quote_identifier name ++ u"=" ++ v.

(** the SET list of an UPDATE: a diff column that is missing from the object
    contributes a bare value with no column name *)
Definition update_set (model : Schema) (o : pydict pyobj) (diff columns : list pystr) : list pystr :=
  omap (fun name =>
    if negb (str_in name columns) || str_eqb name (u"id") then None
    else Some (if dict_has name o then assign name (val_or_null model o name)
               else val_or_null model o name)) diff.

(** the SET list of an INSERT *)
Definition insert_set (model : Schema) (o : pydict pyobj) (columns : list pystr) : list pystr :=
  omap (fun name =>
    if dict_has name o && str_eqb name (u"id") then None
    else Some (assign name (val_or_null model o name))) columns.

Definition to_sql_from_object (operation : pystr) (model : Schema) (table : pystr)
    (o : pydict pyobj) (diff : option (list pystr)) : pystr :=
  let columns := schema_columns model in
  let update_vals :=
    if str_eqb operation (u"UPDATE") then update_set model o (default [] diff) columns
    else insert_set model o columns in
  let insert_vals := val_or_null model o <$> columns in
  let cols := join (u",") (quote_identifier <$> columns) in
  let vals := join (u",") insert_vals in
  let tail := match update_vals with
              | [] => u"NOTHING"
              | _ => u"UPDATE SET " ++ join (u",") update_vals
              end in
  u"INSERT INTO " ++ quote_identifier table ++ u" (" ++ cols ++ u") VALUES (" ++ vals
  ++ u") ON CONFLICT (id) DO " ++ tail ++ u";" ++ nl.

(** [keys[i]] for each primary key; [None] is the IndexError *)
Fixpoint key_conditions (pks keys : list pystr) : option (list pystr) :=
  match pks, keys with
  | [], _ => Some []
  | _ :: _, [] => None
  | pk :: pks', k :: keys' => cons (assign pk (quote_string k)) <$> key_conditions pks' keys'
  end.

Definition to_sql (c : DBChangeEvent) (model : Schema) : option pystr :=
  if str_eqb (ev_operation c) (u"DELETE") then
    conds ← key_conditions (sc_primary_keys model) (default [] (ev_key c));
    Some (u"DELETE FROM " ++ quote_identifier (ev_table c) ++ u" WHERE "
          ++ join (u" AND ") conds ++ u";" ++ nl)
  else
    o ← after_object (ev_after c);
    Some (to_sql_from_object (ev_operation c) model (ev_table c) o (ev_diff c)).

(** ** DDL *)

Definition prop_type_to_sql_type (prop : SchemaProperty) : pystr :=
  let t := sp_type prop in
  if str_eqb t (u"string") then
    if str_eqb (sp_format prop) (u"date-time") then u"TIMESTAMP WITH TIME ZONE" else u"TEXT"
  else if str_eqb t (u"integer") then u"BIGINT"
  else if str_eqb t (u"number") then u"DOUBLE PRECISION"
  else if str_eqb t (u"boolean") then u"BOOLEAN"
  else if str_eqb t (u"object") then u"JSONB"
  else if str_eqb t (u"array") then
    match sp_items prop with
    | Some (mk_items _ (Some _) _) => u"VARCHAR(64)"
    | _ => u"JSONB"
    end
  else u"TEXT".

Definition column_line (model : Schema) (not_null : bool) (name : pystr) : pystr :=
  tab ++ quote_identifier name ++ u" " ++ prop_type_to_sql_type (prop_of model name)
  ++ (if not_null then u" NOT NULL" else []) ++ u"," ++ nl.

Definition create_sql (s : Schema) : pystr :=
  let lines := (fun name =>
    column_line s (str_in name (sc_required s) && negb (sp_nullable (prop_of s name))) name)
    <$> schema_columns s in
  let body := concat lines ++
    match sc_primary_keys s with
    | [] => []
    | pks => tab ++ u"PRIMARY KEY (" ++ join (u", ") (quote_identifier <$> pks) ++ u")"
    end in
  let table := quote_identifier (sc_table s) in
  u"DROP TABLE IF EXISTS " ++ table ++ u";" ++ nl ++ u"CREATE TABLE " ++ table ++ u" (" ++ nl
  ++ body ++ nl ++ u");" ++ nl.

Definition add_new_columns_sql (columns : list pystr) (s : Schema) (db : DatabaseSchema) : list pystr :=
  omap (fun column =>
    if (db_get_type db (sc_table s) column).1 then None
    else Some (u"ALTER TABLE " ++ quote_identifier (sc_table s) ++ u" ADD COLUMN "
               ++ quote_identifier column ++ u" " ++ prop_type_to_sql_type (prop_of s column) ++ u";"))
    columns.

(** ** Append mode *)

(** the values of the object columns of an appended row *)
Definition append_vals (c : DBChangeEvent) (model : Schema) : option (list pystr) :=
  let columns := schema_columns model in
  if str_eqb (ev_operation c) (u"DELETE") then
    mapM (fun name =>
      if str_in name (sc_primary_keys model)
      then quote_string <$> key_of name (sc_primary_keys model) (default [] (ev_key c))
      else Some (u"NULL")) columns
  else
    o ← after_object (ev_after c);
    Some ((fun name => if dict_has name o then val_or_null model o name else u"NULL") <$> columns).

Definition to_append_sql (c : DBChangeEvent) (model : Schema) : option pystr :=
  vals ← append_vals c model;
  let all := vals ++ [quote_string (ev_operation c);
                      match ev_mvcc_timestamp c with Some (x :: t) => x :: t | _ => u"NULL" end;
                      str_of_Z (ev_timestamp c)] in
  let cols := join (u",") (quote_identifier <$> schema_columns model ++ [_EDS_OPERATION; _EDS_MVCC; _EDS_TIMESTAMP]) in
  Some (u"INSERT INTO " ++ quote_identifier (ev_table c) ++ u" (" ++ cols ++ u") VALUES ("
        ++ join (u",") all ++ u");" ++ nl).

Definition create_append_sql (s : Schema) : pystr :=
  let table := quote_identifier (sc_table s) in
  let lines := (fun name => column_line s (str_in name (sc_primary_keys s)) name) <$> schema_columns s in
  let body := concat lines
    ++ tab ++ quote_identifier _EDS_SEQ ++ u" BIGINT GENERATED ALWAYS AS IDENTITY PRIMARY KEY," ++ nl
    ++ tab ++ quote_identifier _EDS_OPERATION ++ u" TEXT NOT NULL," ++ nl
    ++ tab ++ quote_identifier _EDS_MVCC ++ u" NUMERIC(38,10)," ++ nl
    ++ tab ++ quote_identifier _EDS_TIMESTAMP ++ u" BIGINT NOT NULL," ++ nl
    ++ tab ++ quote_identifier _EDS_APPENDED_AT ++ u" TIMESTAMP WITH TIME ZONE NOT NULL DEFAULT now()" in
  let idx_cols := join (u",") (quote_identifier <$> sc_primary_keys s) ++ u", "
    ++ join (u", ") [quote_identifier _EDS_MVCC ++ u" DESC"; quote_identifier _EDS_TIMESTAMP ++ u" DESC";
                     quote_identifier _EDS_SEQ ++ u" DESC"] in
  let idx := quote_identifier (sc_table s ++ u"__eds_history_idx") in
  u"DROP TABLE IF EXISTS " ++ table ++ u" CASCADE;" ++ nl
  ++ u"CREATE TABLE " ++ table ++ u" (" ++ nl ++ body ++ nl ++ u");" ++ nl
  ++ u"CREATE INDEX " ++ idx ++ u" ON " ++ table ++ u" (" ++ idx_cols ++ u");" ++ nl.

Definition create_current_view_sql (s : Schema) : pystr :=
  let obj_csv := join (u",") (quote_identifier <$> schema_columns s) in
  let distinct := join (u",") (quote_identifier <$> sc_primary_keys s) in
  let order_by := distinct ++ u", "
    ++ join (u", ") [quote_identifier _EDS_MVCC ++ u" DESC NULLS LAST";
                     quote_identifier _EDS_TIMESTAMP ++ u" DESC"; quote_identifier _EDS_SEQ ++ u" DESC"] in
  u"CREATE OR REPLACE VIEW " ++ quote_identifier (sc_table s ++ u"_current") ++ u" AS" ++ nl
  ++ u"SELECT " ++ obj_csv ++ nl
  ++ u"FROM (" ++ nl
  ++ tab ++ u"SELECT DISTINCT ON (" ++ distinct ++ u")" ++ nl
  ++ tab ++ tab ++ obj_csv ++ u"," ++ quote_identifier _EDS_OPERATION ++ nl
  ++ tab ++ u"FROM " ++ quote_identifier (sc_table s) ++ nl
  ++ tab ++ u"ORDER BY " ++ order_by ++ nl
  ++ u") " ++ dq ++ u"latest" ++ dq ++ nl
  ++ u"WHERE " ++ quote_identifier _EDS_OPERATION ++ u" <> 'DELETE';" ++ nl.

Definition create_timeline_view_sql (s : Schema) : pystr :=
  let obj_csv := join (u",") (quote_identifier <$> schema_columns s) in
  let partition := join (u",") (quote_identifier <$> sc_primary_keys s) in
  let order_by := join (u", ") [quote_identifier _EDS_MVCC ++ u" ASC"; quote_identifier _EDS_TIMESTAMP ++ u" ASC";
                                quote_identifier _EDS_SEQ ++ u" ASC"] in
  u"CREATE OR REPLACE VIEW " ++ quote_identifier (sc_table s ++ u"_timeline") ++ u" AS" ++ nl
  ++ u"SELECT" ++ nl
  ++ tab ++ obj_csv ++ u"," ++ nl
  ++ tab ++ quote_identifier _EDS_OPERATION ++ u"," ++ nl
  ++ tab ++ quote_identifier _EDS_MVCC ++ u" AS " ++ quote_identifier (u"valid_from") ++ u"," ++ nl
  ++ tab ++ u"LEAD(" ++ quote_identifier _EDS_MVCC ++ u") OVER (" ++ nl
  ++ tab ++ tab ++ u"PARTITION BY " ++ partition ++ nl
  ++ tab ++ tab ++ u"ORDER BY " ++ order_by ++ nl
  ++ tab ++ u") AS " ++ quote_identifier (u"valid_to") ++ nl
  ++ u"FROM " ++ quote_identifier (sc_table s) ++ u";" ++ nl.

Definition drop_views_sql (s : Schema) : list pystr :=
  [u"DROP VIEW IF EXISTS " ++ quote_identifier (sc_table s ++ u"_timeline") ++ u";";
   u"DROP VIEW IF EXISTS " ++ quote_identifier (sc_table s ++ u"_current") ++ u";"].

(** ** The dialect *)

#[export] Instance pg_dialect : SqlDialect := {|
  dl_quote_identifier := quote_identifier;
  dl_to_sql := to_sql;
  dl_to_append_sql := to_append_sql;
  dl_to_sql_from_object := fun op m t o d => Some (to_sql_from_object op m t o d);
  dl_create_table_sql := create_sql;
  dl_create_append_table_sql := create_append_sql;
  dl_create_current_view_sql := create_current_view_sql;
  dl_create_timeline_view_sql := create_timeline_view_sql;
  dl_drop_views_sql := drop_views_sql;
  dl_add_new_columns_sql := add_new_columns_sql;
  dl_schema_column := u"table_catalog";
  dl_db_name_function := u"current_database()";
  dl_max_batch_size := 500
|}.

(** ** Reading the statements back *)

(** a string literal: standard quotes, or the dollar quote with tag [_H_] *)
Definition lex_literal (s : pystr) : option (pystr * pystr) :=
  if head_is 39 s then lex_quoted 39 (drop 1 s)
  else if startswith _MAGIC_ESCAPE s then lex_until _MAGIC_ESCAPE (drop 5 s)
  else None.

Definition lex_identifier (s : pystr) : option (pystr * pystr) :=
  if head_is 34 s then lex_quoted 34 (drop 1 s) else None.

(** the text a database can hold: NUL characters are stripped *)
Definition clean (s : pystr) : pystr := filter (fun c => c <> 0) s.

(** the strings [quote_string] is safe for *)
Definition literal_safe (s : pystr) : bool :=
  forallb safe_char (clean s) || clear_of _MAGIC_ESCAPE (clean s).

Lemma safe_no_quote s : forallb safe_char s = true -> 39 ∉ s.
Proof. intros H Hin. rewrite forallb_forall in H. specialize (H 39 (proj1 (list_elem_of_In _ _) Hin)). by vm_compute in H. Qed.

Lemma magic_head s t : head_is 39 (_MAGIC_ESCAPE ++ s ++ t) = false.
Proof. done. Qed.

(** a quoted string is read back as one literal with the NUL characters
    stripped exactly when it consists of safe characters or the dollar tag does
    not begin inside it. *)
Theorem quote_string_reads_back s rest :
  head_is 39 rest = false ->
  lex_literal (quote_string s ++ rest) = Some (clean s, rest) <-> literal_safe s = true.
Proof.
  intros Hr. unfold literal_safe, quote_string, clean. set (c := filter _ s). clearbody c.
  destruct (forallb safe_char c) eqn:E.
  - split; [done|]. intros _. unfold sq. rewrite <- !app_assoc. unfold lex_literal. simpl.
    by apply lex_quoted_plain; [apply safe_no_quote|].
  - rewrite <- !app_assoc. unfold lex_literal. rewrite magic_head, startswith_app.
    change 5%nat with (length _MAGIC_ESCAPE). rewrite drop_app_length. apply lex_until_clear.
Qed.

Lemma quote_string_reads_back_witness :
  lex_literal (quote_string (u"O'Brien $ x") ++ u",1") = Some (u"O'Brien $ x", u",1").
Proof. apply (quote_string_reads_back (u"O'Brien $ x") (u",1") eq_refl). by vm_compute. Defined.

(** the dollar tag is not escaped.  A string that holds the tag and an
    unsafe character ends its literal early: the database reads the rest of the
    string as SQL. *)
Theorem quote_string_injection a b rest :
  0 ∉ a -> 0 ∉ b -> clear_of _MAGIC_ESCAPE a = true ->
  forallb safe_char (a ++ _MAGIC_ESCAPE ++ b) = false ->
  lex_literal (quote_string (a ++ _MAGIC_ESCAPE ++ b) ++ rest) = Some (a, b ++ _MAGIC_ESCAPE ++ rest).
Proof.
  intros Ha Hb Hc Hs.
  assert (clean (a ++ _MAGIC_ESCAPE ++ b) = a ++ _MAGIC_ESCAPE ++ b) as Hcl.
  { apply filter_absent. rewrite !not_elem_of_app. split_and!; [done| |done].
    apply (bool_decide_eq_false_1 _). by vm_compute. }
  unfold quote_string. unfold clean in Hcl. rewrite Hcl, Hs. unfold lex_literal.
  rewrite <- !app_assoc, magic_head, startswith_app.
  change 5%nat with (length _MAGIC_ESCAPE) at 1. rewrite drop_app_length. by apply lex_until_clear.
Qed.

(** the classic payload: the row's text closes the literal and goes on in SQL *)
Lemma quote_string_injection_witness :
  lex_literal (quote_string (u"x'" ++ _MAGIC_ESCAPE ++ u"); DROP TABLE t; --") ++ u")")
  = Some (u"x'", u"); DROP TABLE t; --" ++ _MAGIC_ESCAPE ++ u")").
Proof.
  apply (quote_string_injection (u"x'") (u"); DROP TABLE t; --") (u")"));
    [apply (bool_decide_eq_false_1 _); by vm_compute..|by vm_compute|by vm_compute].
Defined.

Lemma lex_identifier_quoted name rest :
  0 ∉ name -> head_is 34 rest = false -> lex_identifier (quote_identifier name ++ rest) = Some (name, rest).
Proof.
  intros H0 Hr. unfold quote_identifier. rewrite partition_char_none by done.
  unfold dq. rewrite <- !app_assoc. unfold lex_identifier. simpl. by apply lex_quoted_double.
Qed.

(** the values an upsert can carry: valid floats and safe strings *)
Definition value_ok (v : pyobj) : bool :=
  match v with
  | PNone | PBool _ | PInt _ => true
  | PFloat f => valid_float f
  | PStr s => literal_safe s
  | _ => literal_safe (stringify v)
  end.

Lemma lit_word w rest : forallb token_char w = true -> w <> [] -> lex_literal (w ++ rest) = None.
Proof.
  intros Hw Hne. destruct w as [|c w]; [done|]. simpl in Hw. apply andb_true_iff in Hw as [Hc _].
  unfold lex_literal. change _MAGIC_ESCAPE with [36; 95; 72; 95; 36].
  cbn [app head_is startswith].
  assert (c =? 39 = false) as -> by (apply Z.eqb_neq; intros ->; by vm_compute in Hc).
  by assert (36 =? c = false) as -> by (apply Z.eqb_neq; intros <-; by vm_compute in Hc).
Qed.

Lemma lit_plain w rest :
  forallb (fun c => token_char c || char_in c (u"[]{}")) w = true -> delimited rest ->
  lex_literal (sq ++ w ++ sq ++ rest) = Some (w, rest).
Proof.
  intros Hw Hr. unfold lex_literal, sq. simpl. apply lex_quoted_plain; [|by apply delimited_head].
  intros Hin%list_elem_of_In. rewrite forallb_forall in Hw. specialize (Hw 39 Hin). by vm_compute in Hw.
Qed.

Lemma magic_not_scalar s : scalar_value (_MAGIC_ESCAPE ++ s ++ _MAGIC_ESCAPE) = false.
Proof. unfold scalar_value, endswith. rewrite app_assoc, rev_app_distr. by vm_compute. Qed.

Lemma prints_quote_string s : literal_safe s = true -> prints lex_literal (quote_string s) (VLit (clean s)).
Proof.
  intros Hs. split.
  - intros rest Hr. unfold lex_value.
    assert (lex_literal (quote_string s ++ rest) = Some (clean s, rest)) as ->; [|done].
    unfold literal_safe, quote_string, clean in *. destruct (forallb safe_char (filter _ s)) eqn:E.
    + unfold lex_literal, sq. rewrite <- !app_assoc. simpl.
      apply lex_quoted_plain; [by apply safe_no_quote|by apply delimited_head].
    + unfold lex_literal. rewrite <- !app_assoc, magic_head, startswith_app.
      change 5%nat with (length _MAGIC_ESCAPE) at 1. rewrite drop_app_length. by apply lex_until_clear.
  - unfold quote_string. fold (clean s). destruct (forallb safe_char (clean s)) eqn:E.
    + split; [apply quoted_not_scalar|]. apply quoted_empty.
    + split; [apply magic_not_scalar|]. split; [|intros Hc; by rewrite Hc in E].
      unfold is_empty_val, str_in. rewrite bool_decide_eq_true. intros Hin. set_unfold. naive_solver.
Qed.

Lemma prints_quote_value v : value_ok v = true -> prints lex_literal (quote_value v) (value_of clean (Some v)).
Proof.
  pose proof lit_word. destruct v as [|b|n|f|s|s|fs|l|d]; cbn [value_ok quote_value value_of]; intros Hok;
    try (by apply prints_quote_string).
  - by apply prints_word.
  - destruct b; by apply prints_word.
  - destruct (str_of_Z_tokens n). by apply prints_word.
  - destruct (format_f_tokens f Hok). by apply prints_word.
Qed.

Lemma prints_val_or_null model o name :
  (forall v, dict_get name o = Some v -> value_ok v = true) ->
  prints lex_literal (val_or_null model o name)
    (coerce true (prop_of model name) (value_of clean (dict_get name o))).
Proof.
  intros Hok. unfold val_or_null. apply prints_coerce; [apply lit_word|apply lit_plain|].
  destruct (dict_get name o) as [v|]; [by apply prints_quote_value, Hok|].
  by apply prints_word; [apply lit_word|..].
Qed.

(** the statement of an upsert: head, conflict action *)
Definition parse_upsert (s : pystr)
    : option (pystr * list pystr * list sqlval * list (pystr * sqlval)) :=
  '(table, cols, vals, s) ← parse_insert lex_literal lex_identifier (u"INSERT INTO ") s;
  s ← strip_prefix (u" ON CONFLICT (id) DO ") s;
  if str_eqb s (u"NOTHING;" ++ nl) then Some (table, cols, vals, [])
  else
    s ← strip_prefix (u"UPDATE SET ") s;
    '(set, s) ← lex_assigns lex_literal lex_identifier 59 s;
    if str_eqb s nl then Some (table, cols, vals, set) else None.

(** the columns an upsert assigns when the row exists *)
Definition set_columns (operation : pystr) (model : Schema) (o : pydict pyobj) (diff : option (list pystr)) : list pystr :=
  if str_eqb operation (u"UPDATE") then
    filter (fun n => n ∈ schema_columns model /\ n <> u"id") (default [] diff)
  else filter (fun n => ~ (dict_has n o = true /\ n = u"id")) (schema_columns model).

(** the value of a column *)
Definition column_value (model : Schema) (o : pydict pyobj) (name : pystr) : sqlval :=
  coerce true (prop_of model name) (value_of clean (dict_get name o)).

Lemma omap_filter {A B} (P : A -> Prop) `{forall x, Decision (P x)} (f : A -> B) (g : A -> option B) (l : list A) :
  (forall x, x ∈ l -> g x = if decide (P x) then Some (f x) else None) ->
  omap g l = f <$> filter P l.
Proof.
  induction l as [|x l IH]; intros Hg; [done|].
  change (omap g (x :: l)) with (match g x with Some y => y :: omap g l | None => omap g l end).
  rewrite Hg by set_solver. rewrite IH by set_solver.
  rewrite filter_cons. by case_decide.
Qed.

Lemma set_list_eq operation model o diff :
  (operation = u"UPDATE" -> forall n, n ∈ set_columns operation model o diff -> dict_has n o = true) ->
  (if str_eqb operation (u"UPDATE") then update_set model o (default [] diff) (schema_columns model)
   else insert_set model o (schema_columns model))
  = (fun n => quote_identifier n ++ u"=" ++ val_or_null model o n) <$> set_columns operation model o diff.
Proof.
  unfold set_columns, str_eqb. intros Hd. case_bool_decide as Hop.
  - specialize (Hd Hop). unfold update_set.
    apply omap_filter. intros n Hn. unfold str_in, str_eqb.
    case_decide as Hc.
    + rewrite bool_decide_eq_true_2, bool_decide_eq_false_2 by tauto. simpl.
      rewrite Hd; [done|]. apply list_elem_of_filter. done.
    + case_bool_decide; [|done]. case_bool_decide; [done|]. tauto.
  - unfold insert_set. apply omap_filter. intros n Hn. unfold str_eqb.
    case_decide as Hc; destruct (dict_has n o) eqn:E; simpl; try done.
    + case_bool_decide; [|done]. tauto.
    + case_bool_decide; [done|]. tauto.
    + naive_solver.
Qed.

(** the statement with a given SET list *)
Definition upsert_text (model : Schema) (table : pystr) (o : pydict pyobj) (set : list pystr) : pystr :=
  u"INSERT INTO " ++ quote_identifier table ++ u" (" ++ join (u",") (quote_identifier <$> schema_columns model)
  ++ u") VALUES (" ++ join (u",") (val_or_null model o <$> schema_columns model) ++ u") ON CONFLICT (id) DO "
  ++ match set with [] => u"NOTHING" | _ => u"UPDATE SET " ++ join (u",") set end ++ u";" ++ nl.

(** the head of the statement is read back whatever the SET list *)
Lemma parse_upsert_head model table o set :
  schema_columns model <> [] -> Forall (fun n => 0 ∉ n) (table :: schema_columns model) ->
  (forall n v, dict_get n o = Some v -> value_ok v = true) ->
  parse_upsert (upsert_text model table o set) =
    let row := column_value model o <$> schema_columns model in
    match set with
    | [] => Some (table, schema_columns model, row, [])
    | _ => '(set, s) ← lex_assigns lex_literal lex_identifier 59 (join (u",") set ++ 59 :: nl);
           if str_eqb s nl then Some (table, schema_columns model, row, set) else None
    end.
Proof.
  intros Hc Hn Hv. unfold parse_upsert, upsert_text.
  change (u") ON CONFLICT (id) DO ") with (u")" ++ u" ON CONFLICT (id) DO "). rewrite <- !app_assoc.
  rewrite (parse_insert_printed lex_literal lit_word lit_plain lex_identifier _ quote_identifier table
    (schema_columns model) (val_or_null model o) (column_value model o)); try done.
  - cbn [mbind option_bind]. rewrite strip_prefix_app. cbn [mbind option_bind]. destruct set as [|x set]; [done|].
    set (T := x :: set).
    assert (str_eqb ((u"UPDATE SET " ++ join (u",") T) ++ u";" ++ nl) (u"NOTHING;" ++ nl) = false) as ->.
    { apply bool_decide_eq_false. change (u"UPDATE SET ") with (85 :: u"PDATE SET "). done. }
    by rewrite <- app_assoc, strip_prefix_app.
  - intros n r Hin Hr. apply lex_identifier_quoted; [by eapply Forall_forall in Hn|by apply delimited_head].
  - intros n _. by apply prints_val_or_null, Hv.
Qed.

Lemma set_columns_in operation model o diff n :
  n ∈ set_columns operation model o diff -> n ∈ schema_columns model.
Proof. unfold set_columns. destruct (str_eqb _ _); rewrite list_elem_of_filter; tauto. Qed.

(** C36: an upsert whose names have no NUL character, whose values are safe - valid
    floats, and texts that do not hold the dollar tag where they are quoted with
    it - and, for an UPDATE, whose changed columns are in the object, is read back
    as what it says: its table, its columns, the value of the object under each
    column (a string is itself without NUL characters), and on conflict the
    assignment of the same values to the changed columns (an UPDATE) or to all
    columns but a present [id].  Without the conditions it is not
    ([quote_string_injection], [update_missing_column_unreadable]). *)
Theorem upsert_reads_back operation model table o diff :
  schema_columns model <> [] -> Forall (fun n => 0 ∉ n) (table :: schema_columns model) ->
  (forall n v, dict_get n o = Some v -> value_ok v = true) ->
  (operation = u"UPDATE" -> forall n, n ∈ set_columns operation model o diff -> dict_has n o = true) ->
  parse_upsert (to_sql_from_object operation model table o diff) =
    Some (table, schema_columns model, column_value model o <$> schema_columns model,
          (fun n => (n, column_value model o n)) <$> set_columns operation model o diff).
Proof.
  intros Hc Hn Hv Hd. unfold to_sql_from_object. rewrite set_list_eq by done.
  set (T := (fun n => _) <$> set_columns _ _ _ _). change (parse_upsert (upsert_text model table o T) =
    Some (table, schema_columns model, column_value model o <$> schema_columns model,
          (fun n => (n, column_value model o n)) <$> set_columns operation model o diff)).
  rewrite parse_upsert_head by done. subst T. cbv zeta.
  pose proof (set_columns_in operation model o diff) as Hset.
  destruct (set_columns operation model o diff) as [|n l]; [done|].
  set (P := fun n => quote_identifier n ++ u"=" ++ val_or_null model o n).
  change (P <$> n :: l) with (P n :: (P <$> l)). cbv iota. change (P n :: (P <$> l)) with (P <$> n :: l).
  subst P. rewrite (lex_assigns_printed lex_literal lex_identifier 59 quote_identifier (val_or_null model o) id
    (column_value model o)); [done|done|by left| |].
  - intros n' r Hin. apply lex_identifier_quoted; [|done].
    eapply Forall_forall in Hn; [exact Hn|]. apply list_elem_of_further, Hset. exact Hin.
  - intros n' _. by apply prints_val_or_null, Hv.
Qed.

Lemma upsert_reads_back_witness :
  parse_upsert (to_sql_from_object (u"UPDATE") example_model (u"customer") example_object (Some [u"name"])) =
    Some (u"customer", [u"id"; u"name"; u"tags"], [VLit (u"1"); VLit (u"O'Brien"); VLit (u"[]")],
          [(u"name", VLit (u"O'Brien"))]).
Proof.
  rewrite (upsert_reads_back (u"UPDATE") example_model (u"customer") example_object (Some [u"name"]));
    [by vm_compute|by vm_compute| | |].
  - apply (bool_decide_eq_true_1 _). by vm_compute.
  - apply dict_values_ok. by vm_compute.
  - intros _. change (forall n, n ∈ [u"name"] -> dict_has n example_object = true).
    intros n ->%list_elem_of_singleton. by vm_compute.
Defined.

(** the text of a value never begins like a quoted identifier *)
Lemma null_not_identifier prop rest : lex_identifier (to_json_string_val (u"NULL") prop true ++ rest) = None.
Proof.
  unfold to_json_string_val, quote_json_scalar. change (scalar_value (u"NULL")) with false. rewrite andb_false_r.
  destruct (is_array_or_json prop && is_not_null prop && is_empty_val (u"NULL")); [|done].
  by destruct (str_eqb _ _).
Qed.

Definition set_item (model : Schema) (o : pydict pyobj) (n : pystr) : pystr :=
  if dict_has n o then assign n (val_or_null model o n) else val_or_null model o n.

Lemma update_set_items model o diff :
  update_set model o diff (schema_columns model) =
  set_item model o <$> set_columns (u"UPDATE") model o (Some diff).
Proof.
  unfold update_set, set_columns, set_item. change (str_eqb (u"UPDATE") (u"UPDATE")) with true.
  cbn [default from_option id]. apply omap_filter. intros n Hin. unfold str_in, str_eqb. case_decide as Hd.
  - by rewrite bool_decide_eq_true_2, bool_decide_eq_false_2 by tauto.
  - case_bool_decide; [|done]. case_bool_decide; [done|]. tauto.
Qed.

(** an UPDATE whose diff names a column that the object lacks is not a
    readable statement: the SET list holds a value without a column. *)
Theorem update_missing_column_unreadable model table o diff :
  schema_columns model <> [] -> Forall (fun n => 0 ∉ n) (table :: schema_columns model) ->
  (forall n v, dict_get n o = Some v -> value_ok v = true) ->
  Exists (fun n => dict_has n o = false) (set_columns (u"UPDATE") model o (Some diff)) ->
  parse_upsert (to_sql_from_object (u"UPDATE") model table o (Some diff)) = None.
Proof.
  intros Hc Hn Hv Hex. unfold to_sql_from_object. change (str_eqb (u"UPDATE") (u"UPDATE")) with true.
  cbn [default from_option id]. rewrite update_set_items.
  set (T := set_item model o <$> _). change (parse_upsert (upsert_text model table o T) = None).
  rewrite parse_upsert_head by done. subst T. cbv zeta.
  pose proof (set_columns_in (u"UPDATE") model o (Some diff)) as Hset.
  destruct (set_columns (u"UPDATE") model o (Some diff)) as [|n l]; [inversion Hex|].
  unfold lex_assigns.
  set (P := set_item model o). change (P <$> n :: l) with (P n :: (P <$> l)). cbv iota.
  change (P n :: (P <$> l)) with (P <$> n :: l). subst P.
  rewrite (lex_list_broken (lex_assign lex_literal lex_identifier) 59 (set_item model o)
    (fun n => (n, column_value model o n)) (fun n => dict_has n o = false)); [done| | |intros; apply _|done].
  - intros b r Hb Hh Hr. unfold set_item. destruct (dict_has b o); [|done]. unfold lex_assign, assign.
    rewrite <- !app_assoc, lex_identifier_quoted;
      [|by eapply Forall_forall in Hn; [exact Hn|]; apply list_elem_of_further, Hset|done].
    cbn [mbind option_bind]. rewrite strip_prefix_app. cbn [mbind option_bind].
    by rewrite (proj1 (prints_val_or_null model o b (Hv b))).
  - intros b r Hb. unfold set_item, lex_assign. rewrite Hb. unfold val_or_null.
    unfold dict_has in Hb. destruct (dict_get b o) as [|]; [done|]. by rewrite null_not_identifier.
Qed.

Lemma update_missing_column_unreadable_witness :
  to_sql_from_object (u"UPDATE") example_model (u"customer") [(u"id", PStr (u"1"))] (Some [u"name"]) =
    u"INSERT INTO " ++ dq ++ u"customer" ++ dq ++ u" (" ++ dq ++ u"id" ++ dq ++ u"," ++ dq ++ u"name" ++ dq
    ++ u"," ++ dq ++ u"tags" ++ dq ++ u") VALUES ('1',NULL,'[]') ON CONFLICT (id) DO UPDATE SET NULL;" ++ nl /\
  parse_upsert (to_sql_from_object (u"UPDATE") example_model (u"customer") [(u"id", PStr (u"1"))] (Some [u"name"]))
    = None.
Proof.
  split; [by vm_compute|].
  apply (update_missing_column_unreadable example_model (u"customer") [(u"id", PStr (u"1"))] [u"name"]).
  - by vm_compute.
  - apply (bool_decide_eq_true_1 _). by vm_compute.
  - apply dict_values_ok. by vm_compute.
  - change (Exists (fun n => dict_has n [(u"id", PStr (u"1"))] = false) [u"name"]). by apply Exists_cons; left.
Defined.
End Pg.

(** ** The driver on a concrete run *)
Module PgRun.

#[local] Existing Instance Pg.pg_dialect.

(** a database that refuses its first transaction, and a fixed registry *)
#[local] Instance flaky_db : SqlDb nat := {|
  db_query_single_value := fun _ d => (inr (u"eds"), d);
  db_build_schema := fun _ _ _ d => (inr [], d);
  db_execute_in_transaction := fun _ d => match d with O => (inl tt, 1%nat) | _ => (inr tt, d) end;
  db_exec := fun _ d => (inr tt, d);
  db_drop_table := fun _ d => (inr tt, d);
  db_import_exec := fun _ d => (inr tt, d)
|}.

#[local] Instance fixed_registry : Registry unit := {|
  reg_get_latest_schema := fun r => (inr [(u"customer", example_model)], r);
  reg_get_schema := fun _ _ r => (inr example_model, r);
  reg_get_table_version := fun _ r => (inr (true, u"1"), r);
  reg_set_table_version := fun _ _ r => (inr tt, r)
|}.

Definition start : SD (DB := nat) (R := unit) :=
  mk_sd 0%nat tt [] 0 0 (u"eds") [] UPSERT false [] [].

Definition delete_event (id : pystr) : DBChangeEvent :=
  mk_event (u"DELETE") (u"x") (u"customer") (Some [id]) (u"1") None None None None None None 0 None false None None.

Definition delete_stmt (id : pystr) : pystr :=
  u"DELETE FROM " ++ dq ++ u"customer" ++ dq ++ u" WHERE " ++ dq ++ u"id" ++ dq ++ u"='" ++ id ++ u"';" ++ nl.

Definition run_ops : list stream_op :=
  [OpProcess (delete_event (u"1")); OpFlush; OpProcess (delete_event (u"2"))].

(** the flush of the first statement fails; the next flush commits both *)
Lemma stream_exactly_once_witness :
  durable (stream_run run_ops start) = [] /\
  durable (flush (stream_run run_ops start)).2 = delete_stmt (u"1") ++ delete_stmt (u"2").
Proof.
  destruct (stream_exactly_once run_ops start) as [_ H]; [done|]. split; [by vm_compute|].
  rewrite H; by vm_compute.
Defined.

Definition insert_event : DBChangeEvent :=
  mk_event (u"INSERT") (u"x") (u"customer") (Some [u"1"]) (u"1") None None None None
    (Some (u"{" ++ dq ++ u"id" ++ dq ++ u":7}")) None 0 None false None None.

Definition imported : list import_op := [ImpEvent insert_event example_model; ImpTableDone; ImpEvent insert_event example_model].

Definition insert_stmt : pystr :=
  default [] (import_stmt (ImpEvent insert_event example_model)).

Lemma import_executes_all_witness :
  durable (import_run imported start).2 = insert_stmt ++ insert_stmt /\ insert_stmt <> [].
Proof.
  destruct (import_executes_all 1000 imported start (import_run imported start).2) as [H _].
  - apply Z.leb_le. by vm_compute.
  - assert (forallb (fun op => match import_stmt op with Some sql => byte_len sql <=? 1000 | None => true end)
      imported = true) as Hall by (by vm_compute).
    intros op sql Hop%list_elem_of_In Hs. rewrite forallb_forall in Hall. specialize (Hall op Hop).
    rewrite Hs in Hall. by apply Z.leb_le.
  - by vm_compute.
  - by vm_compute.
  - by vm_compute.
  - by vm_compute.
  - rewrite H. split; by vm_compute.
Defined.
End PgRun.
