(* ===== verification/ConsumerSql.v ===== *)
(** * The consumer over a SQL database: eds/consumer with eds/drivers/sql_base.py

    The shared SQL driver keeps the promises of [DurableDriver], so what the
    consumer acknowledges is in a transaction the database accepted.  The
    consumer and the driver share one registry object in the sources; here each
    has its own, about whose answers nothing is assumed. *)
From stdpp Require Import base tactics list option numbers sets strings.
From S2P Require Import Prelude PyStr PyDict PyFloat GoJson Schema DbChange Interfaces BatchProcessor ConsumerSafety Durable SqlBase SqlLex PgSql.

Section sql.
Context {DB R : Type} `{dialect : !SqlDialect} `{!SqlDb DB} `{!Registry R}.
Notation SD := (@SD DB R).
Implicit Type d : SD.

(** the statement is part of a transaction the database accepted *)
Definition committed (d : SD) (sql : pystr) : Prop :=
  exists batch pre post, batch ∈ sd_committed d /\ batch = pre ++ sql ++ post.

(** the statement is what the dialect makes of the event under some schema *)
Definition statement_of (e : DBChangeEvent) (sql : pystr) : Prop :=
  exists schema, dl_to_sql e schema = Some sql \/ dl_to_append_sql e schema = Some sql.

Lemma stmt_of_statement e d sql : stmt_of e d = Some sql -> statement_of e sql.
Proof.
  unfold stmt_of. destruct (reg_get_table_version _ _) as [[|[found version]] g]; [done|].
  destruct (reg_get_schema _ _ g) as [[|schema] g']; [done|].
  intros E. exists schema. destruct (sd_mode d); auto.
Qed.

Lemma lift_inr {A} (m : M SD sql_error A) d a d' : lift_driver m d = (inr a, d') -> m d = (inr a, d').
Proof. unfold lift_driver. destruct (m d) as [[]]; by intros [= -> ->]. Qed.

Lemma lift_state {A} (m : M SD sql_error A) d : (lift_driver m d).2 = (m d).2.
Proof. unfold lift_driver. by destruct (m d) as [[]]. Qed.

Definition pending_stmt (d : SD) (sql : pystr) : Prop := sql ∈ sd_pending d.

Lemma committed_same d d' sql : sd_committed d' = sd_committed d -> committed d sql -> committed d' sql.
Proof. unfold committed. by intros ->. Qed.

(** the buffer only grows, the transactions stay *)
Lemma grows_preserves {A} (m : M SD sql_error A) :
  (forall d, count_ok d -> sd_committed (m d).2 = sd_committed d) ->
  (forall d a d', count_ok d -> m d = (inr a, d') -> count_ok d' /\ sd_pending d `prefix_of` sd_pending d') ->
  preserves count_ok pending_stmt committed (lift_driver m).
Proof.
  intros Hc Hp. split.
  - intros d sql Hd. rewrite lift_state. apply committed_same. auto.
  - intros d a d' Hd E%lift_inr. destruct (Hp d a d' Hd E) as [Hd' [l Hl]]. split; [done|].
    intros sql Hin. left. unfold pending_stmt in *. rewrite Hl. set_solver.
Qed.

Lemma bufferless_preserves {A} (m : M SD sql_error A) :
  bufferless m -> preserves count_ok pending_stmt committed (lift_driver m).
Proof.
  intros Hm. apply grows_preserves.
  - intros d _. by destruct (Hm d) as (_ & _ & _ & -> & _).
  - intros d a d' Hd E. destruct (Hm d) as (Hp & Hn & _). rewrite E in *. simpl in *.
    unfold count_ok in *. by rewrite Hn, Hp.
Qed.

Lemma process_state e d b d' :
  process e d = (inr b, d') ->
  exists sql, statement_of e sql /\ sd_pending d' = sd_pending d ++ [sql] /\ sd_count d' = sd_count d + 1.
Proof.
  intros E. destruct (process_spec e d) as [H _]. rewrite E in *. simpl in *.
  destruct (stmt_of e d) as [sql|] eqn:Es; [|by destruct H as ((err & ?) & _)].
  destruct H as (_ & Hp & Hn). exists sql. split; [by eapply stmt_of_statement|done].
Qed.

Lemma sql_process_preserves e : preserves count_ok pending_stmt committed (drv_process (D := SD) e).
Proof.
  apply grows_preserves.
  - intros d _. by destruct (process_spec e d) as [_ ->].
  - intros d b d' Hd E. destruct (process_state e d b d' E) as (sql & _ & Hp & Hn).
    unfold count_ok in *. rewrite Hn, Hp, length_app. split; [simpl; lia|by eexists].
Qed.

Lemma sql_process_takes e d b d' :
  count_ok d -> drv_process e d = (inr b, d') -> exists sql, statement_of e sql /\ (pending_stmt d' sql \/ committed d' sql).
Proof.
  intros _ E%lift_inr. destruct (process_state e d b d' E) as (sql & Hs & Hp & _).
  exists sql. split; [done|left]. unfold pending_stmt. rewrite Hp. set_solver.
Qed.

Lemma flush_state d :
  count_ok d ->
  (forall sql, committed d sql -> committed (flush d).2 sql) /\
  ((flush d).1 = inr tt -> count_ok (flush d).2 /\ forall sql, pending_stmt d sql -> committed (flush d).2 sql).
Proof.
  unfold count_ok, committed, pending_stmt. intros Hc.
  destruct (flush_spec d) as [(d' & -> & Hp & Hn & Hcm)|(d' & -> & _ & _ & Hcm)]; simpl; rewrite Hcm; [|done].
  rewrite Hp, Hn. split; [|intros _; split; [done|]].
  - intros sql (b & pre & post & Hb & E). exists b, pre, post. split; [|done]. case_match; set_solver.
  - intros sql (l1 & l2 & Hl)%list_elem_of_split. destruct (Z.ltb_spec 0 (sd_count d)).
    + exists (concat (sd_pending d)), (concat l1), (concat l2). split; [set_solver|].
      by rewrite Hl, concat_app.
    + rewrite Hl, length_app in Hc. simpl in Hc. lia.
Qed.

Lemma sql_flush_stores d d' sql :
  count_ok d -> drv_flush d = (inr tt, d') -> pending_stmt d sql -> committed d' sql.
Proof. intros Hd E%lift_inr. destruct (flush_state d Hd) as [_ H]. rewrite E in H. by apply H. Qed.

Lemma sql_flush_preserves : preserves count_ok pending_stmt committed (drv_flush (D := SD)).
Proof.
  split.
  - intros d sql Hd. simpl. rewrite lift_state. by apply flush_state.
  - intros d [] d' Hd E%lift_inr. destruct (flush_state d Hd) as [_ H]. rewrite E in H.
    destruct (H eq_refl). auto.
Qed.

#[export] Instance sql_durable : DurableDriver SD pystr := {|
  renders := statement_of;
  driver_ok := count_ok;
  held := pending_stmt;
  stored := committed;
  process_preserves := sql_process_preserves;
  flush_preserves := sql_flush_preserves;
  table_preserves := fun sch => bufferless_preserves _ (bufferless_migrate_table sch);
  columns_preserves := fun sch cols => bufferless_preserves _ (bufferless_migrate_columns sch cols);
  process_takes := sql_process_takes;
  flush_stores := sql_flush_stores
|}.
End sql.

(** ** A run into PostgreSQL *)
Module ConsumerSqlRun.

#[local] Existing Instance Pg.pg_dialect.

(** a database that accepts every transaction, and a registry of one table *)
#[local] Instance open_db : SqlDb unit := {|
  db_query_single_value := fun _ d => (inr (u"eds"), d);
  db_build_schema := fun _ _ _ d => (inr [], d);
  db_execute_in_transaction := fun _ d => (inr tt, d);
  db_exec := fun _ d => (inr tt, d);
  db_drop_table := fun _ d => (inr tt, d);
  db_import_exec := fun _ d => (inr tt, d)
|}.

#[local] Instance customer_registry : Registry unit := {|
  reg_get_latest_schema := fun r => (inr [(u"customer", example_model)], r);
  reg_get_schema := fun _ _ r => (inr example_model, r);
  reg_get_table_version := fun _ r => (inr (true, u"v1"), r);
  reg_set_table_version := fun _ _ r => (inr tt, r)
|}.

Definition start : @BP (@SD unit unit) unit :=
  mk_bp [] None 0 0%nat (mk_sd tt tt [] 0 0 (u"eds") [] UPSERT false [] []) tt [].

Abbreviation outcome := (run sample_cfg sample_clock sample_inputs start).2.

(** the first message is acknowledged and its statement committed *)
Lemma acked_is_stored_witness :
  TAck 1 true ∈ bp_trace outcome /\ safe_at (Item := pystr) (msgs sample_inputs) (bp_driver outcome) 1.
Proof.
  assert (TAck 1 true ∈ bp_trace outcome) as H.
  { apply (bool_decide_eq_true_1 _). vm_compute. reflexivity. }
  split; [exact H|].
  destruct (acked_is_stored (Item := pystr) sample_cfg sample_clock sample_inputs start 1 true) as [Hs|Hs];
    [reflexivity|reflexivity|reflexivity|exact H| |exact Hs].
  exfalso. revert Hs. apply (bool_decide_eq_false_1 _). vm_compute. reflexivity.
Defined.
End ConsumerSqlRun.
