(* ===== verification/ConsumerStream.v ===== *)
(** * The consumer over the streaming drivers: eds/consumer with Kafka, Event Hub and S3

    The three drivers keep the promises of [DurableDriver], so an acknowledged
    message was skipped, or the destination took a body that decodes to its
    event.  The promise of Kafka needs a broker that answers in time: the
    module at the end runs the consumer against one that does not. *)
From stdpp Require Import base tactics list option numbers sets strings.
From S2P Require Import Prelude PyStr PyDict PyFloat GoJson Schema DbChange Interfaces Streaming BatchProcessor ConsumerSafety Durable Batcher S3 Kafka EventHub.

Lemma same_change_primary_key e : same_change e (get_primary_key e).2.
Proof.
  unfold get_primary_key, mbind, M_bind, gets. destruct (default [] (ev_key e)); [|done].
  pose proof (same_change_get_object e) as H. by destruct (get_object e) as [[err|obj] e'].
Qed.

Lemma same_change_key prefix e : same_change e (object_key prefix e).2.
Proof.
  unfold object_key, mbind, M_bind, gets. destruct (ev_schema_validated_path e); [done|].
  pose proof (same_change_primary_key e) as H. by destruct (get_primary_key e) as [[err|pk] e'].
Qed.

Lemma same_change_record e r : record_of e r -> exists e', r_event r = Some e' /\ same_change e e'.
Proof.
  unfold record_of, batcher_add, mbind, M_bind. pose proof (same_change_get_object e) as Ho.
  destruct (get_object e) as [[err|obj] e1]; [done|]. pose proof (same_change_primary_key e1) as Hk.
  destruct (get_primary_key e1) as [[err|pk] e2]; [done|]. intros [= <-]. exists e2. split; [done|]. by etransitivity.
Qed.

(** the body is the text of the event of a message with the id [i], up to what
    the consumer may edit *)
Definition body_of_message (ms : list Msg) (i : nat) (body : list Z) : Prop :=
  exists m e0 e, m ∈ ms /\ m_id m = i /\ from_message (m_data m) = FMOk e0 /\
    same_change e0 e /\ event_bytes e = Some body.

Section stream.
Context {D R Item : Type} `{!Driver D} `{!Registry R} `{!DurableDriver D Item} (cfg : bp_config) (now_at : nat -> Z).

(** the destination took a body of the event *)
Definition takes_body (takes : D -> list Z -> Prop) : Prop :=
  forall d e it, renders e it -> stored d it -> exists e' body, same_change e e' /\ event_bytes e' = Some body /\ takes d body.

Lemma acked_body takes inputs (s : @BP D R) i ok :
  takes_body takes ->
  bp_trace s = [] -> bp_pending s = [] -> driver_ok (bp_driver s) ->
  let s' := (run cfg now_at inputs s).2 in
  TAck i ok ∈ bp_trace s' ->
  TSkip i ∈ bp_trace s' \/ exists body, takes (bp_driver s') body /\ body_of_message (msgs inputs) i body.
Proof.
  intros Ht H1 H2 H3 s' Hi.
  destruct (acked_settled cfg now_at inputs s i ok H1 H2 H3 Hi) as [Hs|(it & (m & e0 & e & Hm & Hid & Hf & Hs & Hr) & Hst)];
    [by left|right].
  destruct (Ht _ e it Hr Hst) as (e' & body & Hs' & Hb & Hd). exists body. split; [done|].
  exists m, e0, e'. split_and!; [done..|by etransitivity|done].
Qed.
End stream.

(** what each destination took *)
Definition acknowledged_body {W} (s : KD W) (body : list Z) : Prop := exists m, m ∈ kd_delivered s /\ km_value m = body.
Definition object_body {W} (s : S3D W) (body : list Z) : Prop := exists key, (key, body) ∈ s3_puts s.
Definition sent_body {W} `{!HubClient W} (s : HD W) (body : list Z) : Prop :=
  exists b data, b ∈ hd_sent s /\ data ∈ b.2 /\ ed_body data = body.

Lemma kafka_takes {W} `{!KafkaClient W} `{!KafkaReliable} hash : takes_body (DurableDriver0 := kafka_durable hash) acknowledged_body.
Proof.
  intros d e it (pk & e' & Hpk & _ & Hb & _) (m & Hm & Hkv & _). exists e', it.1.2. split_and!.
  - pose proof (same_change_primary_key e) as Hc. by rewrite Hpk in Hc.
  - done.
  - exists m. split; [done|]. by rewrite <- Hkv.
Qed.

Lemma s3_takes {W} `{!S3Client W} pick cancels : takes_body (DurableDriver0 := s3_durable pick cancels) object_body.
Proof.
  intros d e job (prefix & Hk) (x & Hx & _ & Hb). exists job.2, x.2. split_and!.
  - pose proof (same_change_key prefix e) as Hc. by rewrite Hk in Hc.
  - done.
  - exists x.1. by destruct x.
Qed.

Lemma hub_takes {W} `{!HubClient W} : takes_body (D := HD W) sent_body.
Proof.
  intros d e r Hr (b & data & Hb & Hd & Hdata). destruct (same_change_record e r Hr) as (e' & He & Hs).
  unfold data_of, keyed in Hdata. simpl in Hdata. rewrite He in Hdata.
  destruct (event_bytes e') as [body|] eqn:Eb; [|done]. injection Hdata as <-.
  exists e', body. split_and!; [done..|]. by exists b, (mk_data body (ev_id e') _CONTENT_TYPE (record_keys r).1).
Qed.

Section acked.
Context {R W : Type} `{!Registry R} (cfg : bp_config) (now_at : nat -> Z).

(** C22: every message the consumer acknowledges over Kafka was skipped, or the
    broker acknowledged the text of its event, for a broker that reports in
    time and never lacks a leader. *)
Theorem kafka_acked_acknowledged `{!KafkaClient W} `{!KafkaReliable} hash inputs (s : @BP (KD W) R) i ok :
  bp_trace s = [] -> bp_pending s = [] -> topic_ok (bp_driver s) ->
  let s' := (run (Driver0 := kafka_driver hash) cfg now_at inputs s).2 in
  TAck i ok ∈ bp_trace s' ->
  TSkip i ∈ bp_trace s' \/
  exists body, acknowledged_body (bp_driver s') body /\ body_of_message (msgs inputs) i body.
Proof. exact (acked_body (DurableDriver0 := kafka_durable hash) cfg now_at acknowledged_body inputs s i ok (kafka_takes hash)). Qed.

(** every message the consumer acknowledges over S3 was skipped, or the service
    stored the text of its event as an object. *)
Theorem s3_acked_uploaded `{!S3Client W} pick cancels inputs (s : @BP (S3D W) R) i ok :
  bp_trace s = [] -> bp_pending s = [] ->
  let s' := (run (Driver0 := s3_driver pick cancels) cfg now_at inputs s).2 in
  TAck i ok ∈ bp_trace s' ->
  TSkip i ∈ bp_trace s' \/ exists body, object_body (bp_driver s') body /\ body_of_message (msgs inputs) i body.
Proof.
  intros H1 H2.
  exact (acked_body (DurableDriver0 := s3_durable pick cancels) cfg now_at object_body inputs s i ok
    (s3_takes pick cancels) H1 H2 I).
Qed.

(** every message the consumer acknowledges over Event Hub was skipped, or the
    text of its event was in a batch the hub accepted. *)
Theorem hub_acked_sent `{!HubClient W} inputs (s : @BP (HD W) R) i ok :
  bp_trace s = [] -> bp_pending s = [] -> hd_dry_run (bp_driver s) = false ->
  let s' := (run cfg now_at inputs s).2 in
  TAck i ok ∈ bp_trace s' ->
  TSkip i ∈ bp_trace s' \/ exists body, sent_body (bp_driver s') body /\ body_of_message (msgs inputs) i body.
Proof. exact (acked_body (DurableDriver0 := hub_durable) cfg now_at sent_body inputs s i ok hub_takes). Qed.
End acked.

(** ** Runs of the consumer *)
Module StreamRun.

#[local] Instance customer_registry : Registry unit := {|
  reg_get_latest_schema := fun r => (inr [(u"customer", sample_schema)], r);
  reg_get_schema := fun _ _ r => (inr sample_schema, r);
  reg_get_table_version := fun _ r => (inr (true, u"v1"), r);
  reg_set_table_version := fun _ _ r => (inr tt, r)
|}.

(** the consumer over a driver, before its first message *)
Definition before {D} (d : D) : @BP D unit := mk_bp [] None 0 0%nat d tt [].

(** ** Kafka *)

Abbreviation over_kafka client :=
  (run (Driver0 := @kafka_driver _ client KafkaRun.xxhash_stub) sample_cfg sample_clock sample_inputs
    (before KafkaRun.connected)).2.

Lemma kafka_acked_acknowledged_witness :
  TAck 1 true ∈ bp_trace (over_kafka KafkaRun.sample_client) /\
  exists body, acknowledged_body (bp_driver (over_kafka KafkaRun.sample_client)) body /\
    body_of_message (msgs sample_inputs) 1 body.
Proof.
  assert (TAck 1 true ∈ bp_trace (over_kafka KafkaRun.sample_client)) as H.
  { apply (bool_decide_eq_true_1 _). vm_compute. reflexivity. }
  split; [exact H|].
  destruct (kafka_acked_acknowledged (KafkaClient0 := KafkaRun.sample_client)
    (H := KafkaRun.sample_reliable) sample_cfg sample_clock KafkaRun.xxhash_stub sample_inputs
    (before KafkaRun.connected) 1 true) as [Hs|Hs]; [reflexivity|reflexivity|vm_compute; reflexivity|exact H| |exact Hs].
  exfalso. revert Hs. apply (bool_decide_eq_false_1 _). vm_compute. reflexivity.
Defined.

(** while the leader is unavailable messages are acknowledged that were never
    handed to the Kafka client *)
Lemma outage_acks_unsent :
  TAck 1 true ∈ bp_trace (over_kafka KafkaRun.outage_client) /\
  TSkip 1 ∉ bp_trace (over_kafka KafkaRun.outage_client) /\
  kd_produced (bp_driver (over_kafka KafkaRun.outage_client)) = [].
Proof.
  split_and!; [apply (bool_decide_eq_true_1 _)|apply (bool_decide_eq_false_1 _)|]; vm_compute; reflexivity.
Qed.

(** and with a broker that does not answer in time, messages it has not
    acknowledged *)
Lemma slow_broker_acks_undelivered :
  TAck 1 true ∈ bp_trace (over_kafka KafkaRun.slow_client) /\
  TSkip 1 ∉ bp_trace (over_kafka KafkaRun.slow_client) /\
  kd_delivered (bp_driver (over_kafka KafkaRun.slow_client)) = [].
Proof.
  split_and!; [apply (bool_decide_eq_true_1 _)|apply (bool_decide_eq_false_1 _)|]; vm_compute; reflexivity.
Qed.

(** ** S3 *)

#[local] Existing Instance S3Run.open_bucket.

Abbreviation over_s3 :=
  (run (Driver0 := s3_driver S3Run.youngest S3Run.never) sample_cfg sample_clock sample_inputs (before S3Run.idle)).2.

Lemma s3_acked_uploaded_witness :
  TAck 1 true ∈ bp_trace over_s3 /\
  exists body, object_body (bp_driver over_s3) body /\ body_of_message (msgs sample_inputs) 1 body.
Proof.
  assert (TAck 1 true ∈ bp_trace over_s3) as H by (apply (bool_decide_eq_true_1 _); vm_compute; reflexivity).
  split; [exact H|].
  destruct (s3_acked_uploaded sample_cfg sample_clock S3Run.youngest S3Run.never sample_inputs (before S3Run.idle) 1 true)
    as [Hs|Hs]; [reflexivity|reflexivity|exact H| |exact Hs].
  exfalso. revert Hs. apply (bool_decide_eq_false_1 _). vm_compute. reflexivity.
Defined.

(** ** Event Hub *)

#[local] Existing Instance HubRun.small_hub.

Definition fresh_hub : HD (list (list EventData)) := mk_hd [] true [] false false [].
Abbreviation over_hub :=
  (run sample_cfg sample_clock sample_inputs (before fresh_hub)).2.

Lemma hub_acked_sent_witness :
  TAck 1 true ∈ bp_trace over_hub /\
  exists body, sent_body (bp_driver over_hub) body /\ body_of_message (msgs sample_inputs) 1 body.
Proof.
  assert (TAck 1 true ∈ bp_trace over_hub) as H by (apply (bool_decide_eq_true_1 _); vm_compute; reflexivity).
  split; [exact H|].
  destruct (hub_acked_sent sample_cfg sample_clock sample_inputs (before fresh_hub) 1 true)
    as [Hs|Hs]; [reflexivity|reflexivity|reflexivity|exact H| |exact Hs].
  exfalso. revert Hs. apply (bool_decide_eq_false_1 _). vm_compute. reflexivity.
Defined.
End StreamRun.
