(* ===== verification/RfcTime.v ===== *)
(** * JSON timestamps in SQL values: eds/drivers/mysql/sql.py, eds/drivers/sqlserver/sql.py

    Both drivers detect an RFC 3339 string by a regular expression, parse it,
    floor years before 1970 and print it in the database's format.  The two
    modules hold the same code; it is translated once here.  [None] is the
    ValueError for a string that has the shape of a timestamp and is none.
    [strptime] is modelled on the strings it gets, which begin with the nineteen
    characters the expression fixes. *)
From stdpp Require Import base tactics list option numbers sets strings.
From S2P Require Import Prelude PyStr.

(** match a template, in which [d] stands for a digit, and return the rest *)
Fixpoint match_template (t s : pystr) : option pystr :=
  match t, s with
  | [], _ => Some s
  | _ :: _, [] => None
  | x :: t', c :: s' => if (if x =? 100 then is_digit c else c =? x) then match_template t' s' else None
  end.

Definition ts_template : pystr := u"dddd-dd-ddTdd:dd:dd".

(** [(.[0-9]{1,})?Z\Z]: any character but a newline before the fraction *)
Definition ts_tail (r : pystr) : bool :=
  str_eqb r (u"Z") ||
  match r with
  | c :: r' =>
      negb (c =? 10) &&
      match rev r' with
      | z :: ds => (z =? 90) && negb (str_eqb ds []) && forallb is_digit ds
      | [] => false
      end
  | [] => false
  end.

(** [_JSON_TS.match(v)] *)
Definition looks_like_json_ts (v : pystr) : bool :=
  match match_template ts_template v with
  | Some r => ts_tail r
  | None => false
  end.

Record datetime := mk_dt {
  dt_year : Z; dt_month : Z; dt_day : Z; dt_hour : Z; dt_minute : Z; dt_second : Z; dt_micro : Z
}.

Definition is_leap (y : Z) : bool := (y mod 4 =? 0) && (negb (y mod 100 =? 0) || (y mod 400 =? 0)).

Definition days_in_month (y m : Z) : Z :=
  if m =? 2 then (if is_leap y then 29 else 28)
  else if (m =? 4) || (m =? 6) || (m =? 9) || (m =? 11) then 30 else 31.

(** the digits at a position, as a number *)
Definition num_at (i n : nat) (s : pystr) : Z := digits_val (take n (drop i s)).

(** [datetime.strptime(base, "%Y-%m-%dT%H:%M:%S")] *)
Definition strptime (base : pystr) : option datetime :=
  match match_template ts_template base with
  | Some [] =>
      let y := num_at 0 4 base in let mo := num_at 5 2 base in let d := num_at 8 2 base in
      let h := num_at 11 2 base in let mi := num_at 14 2 base in let s := num_at 17 2 base in
      if (1 <=? y) && (1 <=? mo) && (mo <=? 12) && (1 <=? d) && (d <=? days_in_month y mo)
         && (h <=? 23) && (mi <=? 59) && (s <=? 59)
      then Some (mk_dt y mo d h mi s 0) else None
  | _ => None
  end.

Definition _parse_rfc3339 (v : pystr) : option datetime :=
  if negb (endswith (u"Z") v) then None
  else
    let body := take (length v - 1) v in
    let '(base, dot, frac) := partition_char 46 body in
    if dot then
      if negb (str_eqb frac []) && forallb is_digit frac then
        d ← strptime base;
        Some (mk_dt (dt_year d) (dt_month d) (dt_day d) (dt_hour d) (dt_minute d) (dt_second d)
                (digits_val (take 6 (frac ++ u"000000"))))
      else None
    else strptime body.

(** zero-padded decimals *)
Fixpoint pad (n : nat) (x : Z) : pystr :=
  match n with
  | O => []
  | S n' => pad n' (x / 10) ++ [48 + x mod 10]
  end.

(** for years of four digits, which is all it gets *)
Definition _format_ts (t : datetime) : pystr :=
  let s := pad 4 (dt_year t) ++ u"-" ++ pad 2 (dt_month t) ++ u"-" ++ pad 2 (dt_day t) ++ u" "
           ++ pad 2 (dt_hour t) ++ u":" ++ pad 2 (dt_minute t) ++ u":" ++ pad 2 (dt_second t) in
  if dt_micro t =? 0 then s else s ++ u"." ++ rstrip_char 48 (pad 6 (dt_micro t)).

Definition epoch_floor : datetime := mk_dt 1970 1 1 0 0 1 0.

(** the text of a string that looks like a timestamp; the outer [None] is no
    timestamp, the inner one the ValueError *)
Definition coerce_ts (v : pystr) : option (option pystr) :=
  if looks_like_json_ts v then
    let orig_year := num_at 0 4 v in
    let parse_target := if orig_year <? 1 then u"2000" ++ drop 4 v else v in
    Some (t ← _parse_rfc3339 parse_target;
          Some (_format_ts (if orig_year <? 1970 then epoch_floor else t)))
  else None.

(** ** What the coercion does *)

Lemma pad_digits n ds :
  length ds = n -> Forall (fun c => is_digit c = true) ds -> pad n (digits_val ds) = ds.
Proof.
  revert ds. induction n as [|n IH]; intros ds Hl Hd; [by destruct ds|].
  destruct ds as [|c r _] using rev_ind; [done|]. rewrite length_app in Hl. simpl in Hl.
  apply Forall_app in Hd as [Hr Hc]. apply Forall_inv in Hc. unfold is_digit in Hc. bool_prop.
  unfold digits_val. rewrite foldl_app. cbn [foldl pad]. fold (digits_val r).
  replace ((digits_val r * 10 + (c - 48)) / 10) with (digits_val r)
    by (apply (Z.div_unique _ _ _ (c - 48)); lia).
  replace ((digits_val r * 10 + (c - 48)) mod 10) with (c - 48)
    by (apply (Z.mod_unique _ _ (digits_val r)); lia).
  rewrite IH; [|lia|done]. repeat f_equal. lia.
Qed.

(** a date and time of the shape the expression fixes, from its digits *)
Definition ts_date (y mo d : pystr) : pystr := y ++ u"-" ++ mo ++ u"-" ++ d.
Definition ts_time (h mi s : pystr) : pystr := h ++ u":" ++ mi ++ u":" ++ s.

Definition digits (n : nat) (ds : pystr) : Prop := length ds = n /\ Forall (fun c => is_digit c = true) ds.

Lemma digits2 ds : digits 2 ds -> exists a b, ds = [a; b] /\ is_digit a = true /\ is_digit b = true.
Proof.
  intros [Hl Hd]. destruct ds as [|a [|b [|]]]; try done. inversion Hd as [|? ? ? Hd2]; subst.
  inversion Hd2; subst. eauto.
Qed.

Lemma digits4 ds : digits 4 ds ->
  exists a b c d, ds = [a; b; c; d] /\ is_digit a = true /\ is_digit b = true /\ is_digit c = true /\ is_digit d = true.
Proof.
  intros [Hl Hd]. destruct ds as [|a [|b [|c [|d [|]]]]]; try done.
  repeat match goal with H : Forall _ (_ :: _) |- _ => inversion H; clear H; subst end. eauto 10.
Qed.

Section timestamp.
Context (y mo d h mi s : pystr).
Hypothesis Hy : digits 4 y.
Hypothesis Hmo : digits 2 mo.
Hypothesis Hd : digits 2 d.
Hypothesis Hh : digits 2 h.
Hypothesis Hmi : digits 2 mi.
Hypothesis Hs : digits 2 s.

Let base : pystr := ts_date y mo d ++ u"T" ++ ts_time h mi s.

Lemma base_template rest : match_template ts_template (base ++ rest) = Some rest.
Proof.
  destruct (digits4 y Hy) as (? & ? & ? & ? & Ey & ? & ? & ? & ?).
  destruct (digits2 mo Hmo) as (? & ? & Emo & ? & ?). destruct (digits2 d Hd) as (? & ? & Ed & ? & ?).
  destruct (digits2 h Hh) as (? & ? & Eh & ? & ?). destruct (digits2 mi Hmi) as (? & ? & Emi & ? & ?).
  destruct (digits2 s Hs) as (? & ? & Es & ? & ?).
  unfold base, ts_date, ts_time. rewrite Ey, Emo, Ed, Eh, Emi, Es.
  change ts_template with [100;100;100;100;45;100;100;45;100;100;84;100;100;58;100;100;58;100;100].
  change (u"-") with [45]. change (u"T") with [84]. change (u":") with [58].
  cbn [app match_template]. cbn [Z.eqb Pos.eqb].
  repeat match goal with H : is_digit _ = true |- _ => rewrite H; clear H end. done.
Qed.

Lemma base_numbers rest :
  num_at 0 4 (base ++ rest) = digits_val y /\ num_at 5 2 (base ++ rest) = digits_val mo /\
  num_at 8 2 (base ++ rest) = digits_val d /\ num_at 11 2 (base ++ rest) = digits_val h /\
  num_at 14 2 (base ++ rest) = digits_val mi /\ num_at 17 2 (base ++ rest) = digits_val s.
Proof.
  destruct (digits4 y Hy) as (? & ? & ? & ? & Ey & _). destruct (digits2 mo Hmo) as (? & ? & Emo & _).
  destruct (digits2 d Hd) as (? & ? & Ed & _). destruct (digits2 h Hh) as (? & ? & Eh & _).
  destruct (digits2 mi Hmi) as (? & ? & Emi & _). destruct (digits2 s Hs) as (? & ? & Es & _).
  unfold base, ts_date, ts_time. rewrite Ey, Emo, Ed, Eh, Emi, Es. split_and!; reflexivity.
Qed.

(** the fraction of a timestamp, and its six digits without trailing zeros *)
Definition ts_fraction (frac : option pystr) : pystr :=
  match frac with Some f => u"." ++ f | None => [] end.

Definition micro_text (frac : option pystr) : pystr :=
  match frac with
  | Some f => match rstrip_char 48 (take 6 (f ++ u"000000")) with [] => [] | r => u"." ++ r end
  | None => []
  end.

(** the date exists (in a leap year for year 0) and the time is in range *)
Definition ts_valid : bool :=
  let yr := if digits_val y <? 1 then 2000 else digits_val y in
  (1 <=? digits_val mo) && (digits_val mo <=? 12) && (1 <=? digits_val d)
  && (digits_val d <=? days_in_month yr (digits_val mo)) && (digits_val h <=? 23)
  && (digits_val mi <=? 59) && (digits_val s <=? 59).

Lemma base_no_dot : 46 ∉ base.
Proof.
  assert (forall n ds, digits n ds -> 46 ∉ ds) as H.
  { intros n ds [_ Hds] Hin. rewrite Forall_forall in Hds. by specialize (Hds 46 Hin). }
  unfold base, ts_date, ts_time. rewrite !not_elem_of_app.
  split_and!; try (by eapply H); apply (bool_decide_eq_false_1 _); by vm_compute.
Qed.

(** the parse of the base *)
Definition ts_datetime (micro : Z) : datetime :=
  mk_dt (digits_val y) (digits_val mo) (digits_val d) (digits_val h) (digits_val mi) (digits_val s) micro.

Lemma strptime_base : 1 <= digits_val y -> strptime base = if ts_valid then Some (ts_datetime 0) else None.
Proof.
  intros Hyr. unfold strptime. pose proof (base_template []) as Ht. pose proof (base_numbers []) as Hn.
  rewrite app_nil_r in Ht, Hn. rewrite Ht. destruct Hn as (-> & -> & -> & -> & -> & ->). unfold ts_valid.
  destruct (Z.ltb_spec (digits_val y) 1); [lia|].
  replace (1 <=? digits_val y) with true by (symmetry; by apply Z.leb_le). done.
Qed.

Lemma parse_base frac :
  1 <= digits_val y -> match frac with Some f => f <> [] /\ Forall (fun c => is_digit c = true) f | None => True end ->
  _parse_rfc3339 (base ++ ts_fraction frac ++ u"Z") =
  if ts_valid then Some (ts_datetime (match frac with Some f => digits_val (take 6 (f ++ u"000000")) | None => 0 end))
  else None.
Proof.
  intros Hyr Hf. unfold _parse_rfc3339, endswith. rewrite app_assoc, rev_app_distr. change (rev (u"Z")) with [90].
  rewrite startswith_app. cbn [negb].
  replace (length ((base ++ ts_fraction frac) ++ u"Z") - 1)%nat with (length (base ++ ts_fraction frac))
    by (rewrite (length_app (base ++ _)); change (length (u"Z")) with 1%nat; lia).
  rewrite take_app_length. destruct frac as [f|]; simpl ts_fraction.
  - change (u"." ++ f) with (46 :: f). rewrite partition_char_app by apply base_no_dot.
    destruct Hf as [Hne Hd']. apply forallb_Forall in Hd'. rewrite Hd', strptime_base by done.
    unfold str_eqb. rewrite bool_decide_eq_false_2 by done. simpl. by destruct ts_valid.
  - rewrite app_nil_r, partition_char_none by apply base_no_dot. by rewrite strptime_base.
Qed.

End timestamp.

Lemma ts_tail_fraction frac :
  match frac with Some f => f <> [] /\ Forall (fun c => is_digit c = true) f | None => True end ->
  ts_tail (ts_fraction frac ++ u"Z") = true.
Proof.
  intros Hf. destruct frac as [f|]; [|done]. destruct Hf as [Hne Hd]. unfold ts_tail. apply orb_true_iff. right.
  change (ts_fraction (Some f) ++ u"Z") with (46 :: (f ++ [90])). cbv beta iota.
  rewrite rev_app_distr. simpl.
  rewrite andb_true_iff. split.
  - apply negb_true_iff, bool_decide_eq_false. intros H. apply Hne. by rewrite <- (rev_involutive f), H.
  - apply forallb_Forall, Forall_rev. done.
Qed.

Lemma digits_val_zero l :
  Forall (fun c => is_digit c = true) l -> digits_val l = 0 <-> rstrip_char 48 l = [].
Proof.
  intros Hl. unfold rstrip_char. rewrite <- (rev_involutive l) at 1. apply Forall_rev in Hl.
  assert (forall r : pystr, rev r = [] <-> r = []) as Hrev.
  { intros r. split; [|by intros ->]. intros H. by rewrite <- (rev_involutive r), H. }
  rewrite Hrev. induction Hl as [|c r Hc Hr IH]; [done|]. cbn [rev drop_char].
  unfold digits_val in *. rewrite foldl_app. cbn [foldl]. unfold is_digit in Hc. bool_prop.
  assert (0 <= foldl (fun acc c => acc * 10 + (c - 48)) 0 (rev r)).
  { clear IH. apply Forall_rev in Hr. revert Hr. generalize (rev r) as ds. intros ds Hds.
    assert (forall a, 0 <= a -> 0 <= foldl (fun acc c => acc * 10 + (c - 48)) a ds) as Hpos; [|by apply Hpos].
    induction Hds as [|x ds Hx _ IHd]; intros a Ha; simpl; [done|]. apply IHd. unfold is_digit in Hx. bool_prop. lia. }
  destruct (Z.eqb_spec c 48) as [->|Hc].
  - rewrite <- IH. lia.
  - split; [lia|done].
Qed.

Lemma take6_digits f :
  Forall (fun c => is_digit c = true) f -> digits 6 (take 6 (f ++ u"000000")).
Proof.
  intros Hf. split.
  - rewrite length_take, length_app. change (length (u"000000")) with 6%nat. lia.
  - apply Forall_take, Forall_app. split; [done|]. apply (bool_decide_eq_true_1 _). by vm_compute.
Qed.

Lemma format_parsed y mo d h mi s frac :
  digits 4 y -> digits 2 mo -> digits 2 d -> digits 2 h -> digits 2 mi -> digits 2 s ->
  match frac with Some f => f <> [] /\ Forall (fun c => is_digit c = true) f | None => True end ->
  _format_ts (ts_datetime y mo d h mi s (match frac with Some f => digits_val (take 6 (f ++ u"000000")) | None => 0 end))
  = ts_date y mo d ++ u" " ++ ts_time h mi s ++ micro_text frac.
Proof.
  intros [Ly Hy] [Lmo Hmo] [Ld Hd] [Lh Hh] [Lmi Hmi] [Ls Hs] Hf. unfold _format_ts, ts_datetime.
  cbn [dt_year dt_month dt_day dt_hour dt_minute dt_second dt_micro].
  rewrite !pad_digits by done. unfold ts_date, ts_time. destruct frac as [f|].
  - destruct Hf as [_ Hf]. destruct (take6_digits f Hf) as [L6 H6]. unfold micro_text.
    pose proof (digits_val_zero _ H6) as Hz. destruct (Z.eqb_spec (digits_val (take 6 (f ++ u"000000"))) 0) as [E|E].
    + apply Hz in E. rewrite E. by rewrite app_nil_r, <- !app_assoc.
    + rewrite pad_digits by done. destruct (rstrip_char 48 (take 6 (f ++ u"000000"))) as [|c r].
      * destruct E. by apply Hz.
      * by rewrite <- !app_assoc.
  - rewrite Z.eqb_refl. unfold micro_text. by rewrite app_nil_r, <- !app_assoc.
Qed.

(** the timestamp coercion of the MySQL and SQL Server drivers.  A string
    of the shape [YYYY-MM-DDTHH:MM:SS(.f+)?Z] is an error unless date and time
    exist; otherwise it becomes the same date and time with a fraction
    truncated to microseconds without trailing zeros, or the floor
    [1970-01-01 00:00:01] for a year before 1970. *)
Theorem timestamp_coercion y mo d h mi s frac :
  digits 4 y -> digits 2 mo -> digits 2 d -> digits 2 h -> digits 2 mi -> digits 2 s ->
  match frac with Some f => f <> [] /\ Forall (fun c => is_digit c = true) f | None => True end ->
  coerce_ts (ts_date y mo d ++ u"T" ++ ts_time h mi s ++ ts_fraction frac ++ u"Z") =
  Some (if ts_valid y mo d h mi s then
          Some (if digits_val y <? 1970 then u"1970-01-01 00:00:01"
                else ts_date y mo d ++ u" " ++ ts_time h mi s ++ micro_text frac)
        else None).
Proof.
  intros Hy Hmo Hd Hh Hmi Hs Hf.
  replace (ts_date y mo d ++ u"T" ++ ts_time h mi s ++ ts_fraction frac ++ u"Z")
    with ((ts_date y mo d ++ u"T" ++ ts_time h mi s) ++ ts_fraction frac ++ u"Z") by (by rewrite <- !app_assoc).
  unfold coerce_ts, looks_like_json_ts. rewrite base_template by done. rewrite ts_tail_fraction by done.
  destruct (base_numbers y mo d h mi s Hy Hmo Hd Hh Hmi Hs (ts_fraction frac ++ u"Z")) as (-> & _).
  f_equal. destruct (Z.ltb_spec (digits_val y) 1) as [H1|H1].
  - assert (digits_val y <? 1970 = true) as -> by (apply Z.ltb_lt; lia).
    assert (digits 4 (u"2000")) as Hy0 by (split; [done|]; apply (bool_decide_eq_true_1 _); by vm_compute).
    replace (u"2000" ++ drop 4 ((ts_date y mo d ++ u"T" ++ ts_time h mi s) ++ ts_fraction frac ++ u"Z"))
      with ((ts_date (u"2000") mo d ++ u"T" ++ ts_time h mi s) ++ ts_fraction frac ++ u"Z")
      by (unfold ts_date; rewrite <- !app_assoc; rewrite drop_app_length'; [done|symmetry; apply Hy]).
    rewrite parse_base by done.
    assert (ts_valid (u"2000") mo d h mi s = ts_valid y mo d h mi s) as ->.
    { unfold ts_valid. by assert (digits_val y <? 1 = true) as -> by (by apply Z.ltb_lt). }
    by destruct (ts_valid y mo d h mi s).
  - rewrite parse_base by done. destruct (ts_valid y mo d h mi s); [|done]. cbn [mbind option_bind]. f_equal.
    destruct (digits_val y <? 1970); [done|]. apply format_parsed; done.
Qed.

Lemma timestamp_coercion_witness :
  coerce_ts (u"2024-02-29T23:59:59.120000999Z") = Some (Some (u"2024-02-29 23:59:59.12")) /\
  coerce_ts (u"2023-02-29T00:00:00Z") = Some None.
Proof.
  pose proof (timestamp_coercion (u"2024") (u"02") (u"29") (u"23") (u"59") (u"59") (Some (u"120000999"))) as H1.
  pose proof (timestamp_coercion (u"2023") (u"02") (u"29") (u"00") (u"00") (u"00") None) as H2.
  assert (forall n ds, bool_decide (length ds = n /\ Forall (fun c => is_digit c = true) ds) = true -> digits n ds)
    as Hd by (intros n ds H; exact (bool_decide_eq_true_1 _ H)).
  split.
  - apply H1; try (apply Hd; by vm_compute). split; [done|]. apply (bool_decide_eq_true_1 _). by vm_compute.
  - apply H2; try (apply Hd; by vm_compute). done.
Defined.

(** ** The characters of a printed timestamp *)

Lemma pad_is_digits n x : Forall (fun c => is_digit c = true) (pad n x).
Proof.
  revert x. induction n as [|n IH]; intros x; [constructor|]. simpl. apply Forall_app. split; [apply IH|].
  constructor; [|constructor]. pose proof (Z.mod_pos_bound x 10). unfold is_digit.
  apply andb_true_iff. rewrite !Z.leb_le. lia.
Qed.

Lemma drop_char_Forall (P : Z -> Prop) c l : Forall P l -> Forall P (drop_char c l).
Proof.
  induction 1 as [|x l Hx Hl IH]; [constructor|]. simpl. destruct (x =? c); [done|]. by constructor.
Qed.

Definition ts_char (c : Z) : bool := is_digit c || char_in c (u"-: .").

Lemma format_ts_chars t : forallb ts_char (_format_ts t) = true.
Proof.
  assert (forall l, Forall (fun c => is_digit c = true) l -> forallb ts_char l = true) as Hd.
  { intros l Hl. apply forallb_Forall. eapply Forall_impl; [exact Hl|]. intros c Hc. unfold ts_char. by rewrite Hc. }
  unfold _format_ts. cbv zeta.
  assert (forall n x, forallb ts_char (pad n x) = true) as Hp by (intros; apply Hd, pad_is_digits).
  destruct (dt_micro t =? 0); rewrite !forallb_app, ?Hp; [done|].
  rewrite (Hd (rstrip_char _ _)); [done|]. unfold rstrip_char. apply Forall_rev, drop_char_Forall, Forall_rev, pad_is_digits.
Qed.

Lemma coerce_ts_chars v t : coerce_ts v = Some (Some t) -> forallb ts_char t = true.
Proof.
  unfold coerce_ts. destruct (looks_like_json_ts v); [|done]. intros [= H].
  destruct (_parse_rfc3339 _); [|done]. simpl in H. injection H as <-. apply format_ts_chars.
Qed.
