(* ===== verification/MySqlSql.v ===== *)
(** * MySQL SQL generation: eds/drivers/mysql/sql.py

    Backtick identifiers without escaping, backslash-escaped strings, booleans
    as 1 and 0, floats in Go's [g] format, timestamps in the database's format,
    and full-column REPLACE statements that ignore the diff.  [None] is an
    exception: an [after] that is not JSON, too few key values, or a string that
    looks like a timestamp and is none.

    The theorems read the text back with MySQL's literal syntax. *)
From stdpp Require Import base tactics list option numbers sets strings.
From S2P Require Import Prelude PyStr PyDict PyFloat GoFloat GoJson JsonLoads Schema DbChange Interfaces SqlUtil SqlLex SqlBase RfcTime.

Module My.

Definition bt : pystr := u"`".

Definition quote_identifier (val : pystr) : pystr := bt ++ val ++ bt.

(** the table [_ESCAPE] *)
Definition escape_char (c : Z) : pystr :=
  if c =? 0 then bsl ++ u"0"
  else if c =? 10 then bsl ++ u"n"
  else if c =? 13 then bsl ++ u"r"
  else if c =? 26 then bsl ++ u"Z"
  else if c =? 39 then bsl ++ sq
  else if c =? 34 then bsl ++ dq
  else if c =? 92 then bsl ++ bsl
  else [c].

Definition escape_string (s : pystr) : pystr := flat_map escape_char s.

Definition _quote_string_value (v : pystr) : option pystr :=
  match coerce_ts v with
  | Some t => (fun s => sq ++ s ++ sq) <$> t
  | None => Some (sq ++ escape_string v ++ sq)
  end.

Definition quote_value (arg : pyobj) : option pystr :=
  match arg with
  | PNone => Some (u"NULL")
  | PBool b => Some (if b then u"1" else u"0")
  | PFloat f => Some (format_g f)
  | PInt n => Some (str_of_Z n)
  | PStr s => _quote_string_value s
  | PRaw s => Some (sq ++ escape_string s ++ sq)
  | _ => Some (sq ++ escape_string (stringify arg) ++ sq)
  end.

(** ** Upsert *)

Definition insert_val (model : Schema) (o : pydict pyobj) (name : pystr) : option pystr :=
  v ← match dict_get name o with Some v => quote_value v | None => Some (u"NULL") end;
  Some (to_json_string_val v (prop_of model name) true).

Definition to_sql_from_object (operation : pystr) (model : Schema) (table : pystr)
    (o : pydict pyobj) (diff : option (list pystr)) : option pystr :=
  let cols := quote_identifier <$> schema_columns model in
  insert_vals ← mapM (insert_val model o) (schema_columns model);
  Some (u"REPLACE INTO " ++ quote_identifier table ++ u" (" ++ join (u",") cols
        ++ u") VALUES (" ++ join (u",") insert_vals ++ u");" ++ nl).

Fixpoint key_predicates (pks keys : list pystr) : option (list pystr) :=
  match pks, keys with
  | [], _ => Some []
  | _ :: _, [] => None
  | pk :: pks', k :: keys' =>
      v ← quote_value (PStr k);
      cons (quote_identifier pk ++ u"=" ++ v) <$> key_predicates pks' keys'
  end.

Definition to_sql (c : DBChangeEvent) (model : Schema) : option pystr :=
  if str_eqb (ev_operation c) (u"DELETE") then
    preds ← key_predicates (sc_primary_keys model) (default [] (ev_key c));
    Some (u"DELETE FROM " ++ quote_identifier (ev_table c) ++ u" WHERE "
          ++ join (u" AND ") preds ++ u";" ++ nl)
  else
    o ← import_object c;
    to_sql_from_object (ev_operation c) model (ev_table c) o (ev_diff c).

(** ** DDL *)

Definition prop_type_to_sql_type (prop : SchemaProperty) (is_primary_key : bool) : pystr :=
  let t := sp_type prop in
  if str_eqb t (u"string") then
    if is_primary_key then u"VARCHAR(64)"
    else if str_eqb (sp_format prop) (u"date-time") then u"TIMESTAMP" else u"TEXT"
  else if str_eqb t (u"integer") then u"BIGINT"
  else if str_eqb t (u"number") then u"FLOAT"
  else if str_eqb t (u"boolean") then u"BOOLEAN"
  else if str_eqb t (u"object") then u"JSON"
  else if str_eqb t (u"array") then
    match sp_items prop with
    | Some (mk_items _ (Some _) _) => u"VARCHAR(64)"
    | _ => u"JSON"
    end
  else u"TEXT".

Definition column_line (model : Schema) (not_null : bool) (name : pystr) : pystr :=
  tab ++ quote_identifier name ++ u" "
  ++ prop_type_to_sql_type (prop_of model name) (str_in name (sc_primary_keys model))
  ++ (if not_null then u" NOT NULL" else []) ++ u"," ++ nl.

Definition create_sql (s : Schema) : pystr :=
  let lines := (fun name =>
    column_line s (str_in name (sc_required s) && negb (sp_nullable (prop_of s name))) name)
    <$> schema_columns s in
  let body := concat lines ++
    match sc_primary_keys s with
    | [] => tab ++ u"PRIMARY KEY (id)"
    | pks => tab ++ u"PRIMARY KEY (" ++ join (u", ") (quote_identifier <$> pks) ++ u")"
    end in
  let table := quote_identifier (sc_table s) in
  u"DROP TABLE IF EXISTS " ++ table ++ u";" ++ nl ++ u"CREATE TABLE " ++ table ++ u" (" ++ nl
  ++ body ++ nl ++ u") CHARACTER SET=utf8mb4;" ++ nl.

Definition add_new_columns_sql (columns : list pystr) (s : Schema) (db : DatabaseSchema) : list pystr :=
  omap (fun column =>
    if (db_get_type db (sc_table s) column).1 then None
    else Some (u"ALTER TABLE " ++ quote_identifier (sc_table s) ++ u" ADD COLUMN "
               ++ quote_identifier column ++ u" " ++ prop_type_to_sql_type (prop_of s column) false ++ u";"))
    columns.

(** ** Append mode *)

Definition append_vals (c : DBChangeEvent) (model : Schema) : option (list pystr) :=
  let columns := schema_columns model in
  if str_eqb (ev_operation c) (u"DELETE") then
    mapM (fun name =>
      if str_in name (sc_primary_keys model)
      then k ← key_of name (sc_primary_keys model) (default [] (ev_key c)); quote_value (PStr k)
      else Some (u"NULL")) columns
  else
    o ← import_object c;
    mapM (fun name => if dict_has name o then insert_val model o name else Some (u"NULL")) columns.

Definition to_append_sql (c : DBChangeEvent) (model : Schema) : option pystr :=
  vals ← append_vals c model;
  op ← quote_value (PStr (ev_operation c));
  let all := vals ++ [op; match ev_mvcc_timestamp c with Some (x :: t) => x :: t | _ => u"NULL" end;
                      str_of_Z (ev_timestamp c)] in
  let cols := join (u",") (quote_identifier <$> schema_columns model ++ [_EDS_OPERATION; _EDS_MVCC; _EDS_TIMESTAMP]) in
  Some (u"INSERT INTO " ++ quote_identifier (ev_table c) ++ u" (" ++ cols ++ u") VALUES ("
        ++ join (u",") all ++ u");" ++ nl).

Definition drop_view (name : pystr) : pystr := u"DROP VIEW IF EXISTS " ++ quote_identifier name ++ u";".

Definition create_append_sql (s : Schema) : pystr :=
  let table := quote_identifier (sc_table s) in
  let lines := (fun name => column_line s (str_in name (sc_primary_keys s)) name) <$> schema_columns s in
  let idx_cols := join (u",") (quote_identifier <$> sc_primary_keys s) ++ u", "
    ++ join (u", ") [quote_identifier _EDS_MVCC ++ u" DESC"; quote_identifier _EDS_TIMESTAMP ++ u" DESC";
                     quote_identifier _EDS_SEQ ++ u" DESC"] in
  let body := concat lines
    ++ tab ++ quote_identifier _EDS_SEQ ++ u" BIGINT NOT NULL AUTO_INCREMENT," ++ nl
    ++ tab ++ quote_identifier _EDS_OPERATION ++ u" VARCHAR(16) NOT NULL," ++ nl
    ++ tab ++ quote_identifier _EDS_MVCC ++ u" DECIMAL(38,10)," ++ nl
    ++ tab ++ quote_identifier _EDS_TIMESTAMP ++ u" BIGINT," ++ nl
    ++ tab ++ quote_identifier _EDS_APPENDED_AT ++ u" TIMESTAMP(6) NOT NULL DEFAULT CURRENT_TIMESTAMP(6)," ++ nl
    ++ tab ++ u"PRIMARY KEY (" ++ quote_identifier _EDS_SEQ ++ u")," ++ nl
    ++ tab ++ u"KEY " ++ quote_identifier (sc_table s ++ u"_eds_history_idx") ++ u" (" ++ idx_cols ++ u")" in
  drop_view (sc_table s ++ u"_timeline") ++ nl
  ++ drop_view (sc_table s ++ u"_current") ++ nl
  ++ u"DROP TABLE IF EXISTS " ++ table ++ u";" ++ nl
  ++ u"CREATE TABLE " ++ table ++ u" (" ++ nl ++ body ++ nl ++ u") CHARACTER SET=utf8mb4;" ++ nl.

Definition create_current_view_sql (s : Schema) : pystr :=
  let obj_csv := join (u", ") (quote_identifier <$> schema_columns s) in
  let partition := join (u",") (quote_identifier <$> sc_primary_keys s) in
  let order_by := join (u", ") [quote_identifier _EDS_MVCC ++ u" DESC"; quote_identifier _EDS_TIMESTAMP ++ u" DESC";
                                quote_identifier _EDS_SEQ ++ u" DESC"] in
  u"CREATE VIEW " ++ quote_identifier (sc_table s ++ u"_current") ++ u" AS" ++ nl
  ++ u"SELECT " ++ obj_csv ++ nl
  ++ u"FROM (" ++ nl
  ++ tab ++ u"SELECT " ++ obj_csv ++ u", " ++ quote_identifier _EDS_OPERATION ++ u"," ++ nl
  ++ tab ++ tab ++ u"ROW_NUMBER() OVER (" ++ nl
  ++ tab ++ tab ++ tab ++ u"PARTITION BY " ++ partition ++ nl
  ++ tab ++ tab ++ tab ++ u"ORDER BY " ++ order_by ++ nl
  ++ tab ++ tab ++ u") AS " ++ quote_identifier (u"_eds_rn") ++ nl
  ++ tab ++ u"FROM " ++ quote_identifier (sc_table s) ++ nl
  ++ u") AS " ++ quote_identifier (u"_eds_ranked") ++ nl
  ++ u"WHERE " ++ quote_identifier (u"_eds_rn") ++ u" = 1 AND " ++ quote_identifier _EDS_OPERATION
  ++ u" <> 'DELETE';" ++ nl.

Definition create_timeline_view_sql (s : Schema) : pystr :=
  let obj_csv := join (u", ") (quote_identifier <$> schema_columns s) in
  let partition := join (u",") (quote_identifier <$> sc_primary_keys s) in
  let order_by := join (u", ") [quote_identifier _EDS_MVCC ++ u" ASC"; quote_identifier _EDS_TIMESTAMP ++ u" ASC";
                                quote_identifier _EDS_SEQ ++ u" ASC"] in
  u"CREATE VIEW " ++ quote_identifier (sc_table s ++ u"_timeline") ++ u" AS" ++ nl
  ++ u"SELECT " ++ obj_csv ++ u", " ++ quote_identifier _EDS_OPERATION ++ u"," ++ nl
  ++ tab ++ quote_identifier _EDS_MVCC ++ u" AS " ++ quote_identifier (u"valid_from") ++ u"," ++ nl
  ++ tab ++ u"LEAD(" ++ quote_identifier _EDS_MVCC ++ u") OVER (" ++ nl
  ++ tab ++ tab ++ u"PARTITION BY " ++ partition ++ nl
  ++ tab ++ tab ++ u"ORDER BY " ++ order_by ++ nl
  ++ tab ++ u") AS " ++ quote_identifier (u"valid_to") ++ nl
  ++ u"FROM " ++ quote_identifier (sc_table s) ++ u";" ++ nl.

Definition drop_views_sql (s : Schema) : list pystr :=
  [drop_view (sc_table s ++ u"_timeline"); drop_view (sc_table s ++ u"_current")].

#[export] Instance mysql_dialect : SqlDialect := {|
  dl_quote_identifier := quote_identifier;
  dl_to_sql := to_sql;
  dl_to_append_sql := to_append_sql;
  dl_to_sql_from_object := to_sql_from_object;
  dl_create_table_sql := create_sql;
  dl_create_append_table_sql := create_append_sql;
  dl_create_current_view_sql := create_current_view_sql;
  dl_create_timeline_view_sql := create_timeline_view_sql;
  dl_drop_views_sql := drop_views_sql;
  dl_add_new_columns_sql := add_new_columns_sql;
  dl_schema_column := u"table_schema";
  dl_db_name_function := u"DATABASE()";
  dl_max_batch_size := 500
|}.

(** ** Reading the statements back *)

(** a backslash sequence; the wildcard sequences keep their backslash *)
Definition unescape (d : Z) : pystr :=
  if d =? 48 then [0] else if d =? 110 then [10] else if d =? 114 then [13] else if d =? 90 then [26]
  else if d =? 116 then [9] else if d =? 98 then [8]
  else if (d =? 37) || (d =? 95) then [92; d] else [d].

(** the body of a MySQL string *)
Fixpoint lex_escaped (s : pystr) : option (pystr * pystr) :=
  match s with
  | [] => None
  | c :: r =>
      if c =? 92 then
        match r with
        | d :: r' => prod_map (app (unescape d)) id <$> lex_escaped r'
        | [] => None
        end
      else if c =? 39 then
        match r with
        | d :: r' => if d =? 39 then prod_map (cons 39) id <$> lex_escaped r' else Some ([], r)
        | [] => Some ([], [])
        end
      else prod_map (cons c) id <$> lex_escaped r
  end.

Definition lex_literal (s : pystr) : option (pystr * pystr) :=
  if head_is 39 s then lex_escaped (drop 1 s) else None.

Definition lex_identifier (s : pystr) : option (pystr * pystr) :=
  if head_is 96 s then lex_quoted 96 (drop 1 s) else None.

Lemma lex_escaped_char c t :
  lex_escaped (escape_char c ++ t) = prod_map (cons c) id <$> lex_escaped t.
Proof.
  unfold escape_char. repeat (case_match; [bool_prop; subst; done|]). bool_prop. simpl.
  destruct (Z.eqb_spec c 92); [lia|]. destruct (Z.eqb_spec c 39); [lia|]. done.
Qed.

Lemma lex_escaped_string s rest :
  head_is 39 rest = false -> lex_escaped (escape_string s ++ 39 :: rest) = Some (s, rest).
Proof.
  intros Hr. induction s as [|c s IH].
  - simpl. destruct rest as [|d r]; [done|]. simpl in Hr. by rewrite Hr.
  - cbn [escape_string flat_map]. rewrite <- app_assoc, lex_escaped_char. fold (escape_string s). by rewrite IH.
Qed.

Lemma lex_escaped_plain s rest :
  39 ∉ s -> 92 ∉ s -> head_is 39 rest = false -> lex_escaped (s ++ 39 :: rest) = Some (s, rest).
Proof.
  intros H1 H2 Hr. induction s as [|c s IH].
  - simpl. destruct rest as [|d r]; [done|]. simpl in Hr. by rewrite Hr.
  - apply not_elem_of_cons in H1 as [? ?]. apply not_elem_of_cons in H2 as [? ?]. simpl.
    destruct (Z.eqb_spec c 92); [lia|]. destruct (Z.eqb_spec c 39); [lia|]. by rewrite IH.
Qed.

(** the value a database reads for an entry of the object *)
Definition value_of (v : option pyobj) : sqlval :=
  match v with
  | None | Some PNone => VWord (u"NULL")
  | Some (PBool b) => VWord (if b then u"1" else u"0")
  | Some (PFloat f) => VWord (format_g f)
  | Some (PInt n) => VWord (str_of_Z n)
  | Some (PStr s) => VLit (match coerce_ts s with Some (Some t) => t | _ => s end)
  | Some (PRaw s) => VLit s
  | Some v => VLit (stringify v)
  end.

Definition value_ok (v : pyobj) : bool :=
  match v with PFloat f => valid_float f | _ => true end.

Lemma my_lit_word w rest : forallb token_char w = true -> w <> [] -> lex_literal (w ++ rest) = None.
Proof.
  intros Hw Hne. destruct w as [|c w]; [done|]. simpl in Hw. apply andb_true_iff in Hw as [Hc _].
  unfold lex_literal. cbn [app head_is].
  by assert (c =? 39 = false) as -> by (apply Z.eqb_neq; intros ->; by vm_compute in Hc).
Qed.

Lemma my_lit_plain w rest :
  forallb (fun c => token_char c || char_in c (u"[]{}")) w = true -> delimited rest ->
  lex_literal (sq ++ w ++ sq ++ rest) = Some (w, rest).
Proof.
  intros Hw Hr. unfold lex_literal, sq. simpl.
  apply lex_escaped_plain; [by eapply forallb_absent|by eapply forallb_absent|by apply delimited_head].
Qed.

Lemma prints_escaped s : prints lex_literal (sq ++ escape_string s ++ sq) (VLit s).
Proof.
  split.
  - intros rest Hr. unfold lex_value, lex_literal, sq. rewrite <- !app_assoc. simpl.
    by rewrite drop_0, lex_escaped_string by (by apply delimited_head).
  - split; [apply quoted_not_scalar|]. rewrite quoted_empty. split; [|by intros ->].
    destruct s as [|c s]; [done|]. cbn [escape_string flat_map]. unfold escape_char. by repeat case_match.
Qed.

Lemma prints_ts v t : coerce_ts v = Some (Some t) -> prints lex_literal (sq ++ t ++ sq) (VLit t).
Proof.
  intros H%coerce_ts_chars. split.
  - intros rest Hr. unfold lex_value, lex_literal, sq. rewrite <- !app_assoc. simpl.
    rewrite drop_0, lex_escaped_plain; [done|by eapply forallb_absent|by eapply forallb_absent|by apply delimited_head].
  - split; [apply quoted_not_scalar|apply quoted_empty].
Qed.

Lemma my_prints_quote_value v t :
  value_ok v = true -> quote_value v = Some t -> prints lex_literal t (value_of (Some v)).
Proof.
  pose proof my_lit_word as Hw.
  destruct v as [|b|n|f|s|s|fs|l|d]; cbn [value_ok quote_value value_of]; intros Hok H;
    try (injection H as <-; apply prints_escaped).
  - injection H as <-. by apply prints_word.
  - injection H as <-. destruct b; by apply prints_word.
  - injection H as <-. destruct (str_of_Z_tokens n). by apply prints_word.
  - injection H as <-. destruct (format_g_tokens f Hok). by apply prints_word.
  - unfold _quote_string_value in H. destruct (coerce_ts s) as [[t'|]|] eqn:E; simpl in H; simplify_eq.
    + by eapply prints_ts.
    + apply prints_escaped.
Qed.

Definition column_value (model : Schema) (o : pydict pyobj) (name : pystr) : sqlval :=
  coerce true (prop_of model name) (value_of (dict_get name o)).

Lemma prints_insert_val model o name t :
  (forall v, dict_get name o = Some v -> value_ok v = true) -> insert_val model o name = Some t ->
  prints lex_literal t (column_value model o name).
Proof.
  intros Hok H. unfold insert_val in H. unfold column_value.
  destruct (match dict_get name o with Some v => _ | None => _ end) as [t'|] eqn:E; [|done].
  injection H as <-. apply prints_coerce; [apply my_lit_word|apply my_lit_plain|].
  destruct (dict_get name o) as [v|]; [by apply my_prints_quote_value; [apply Hok|]|].
  injection E as <-. by apply prints_word; [apply my_lit_word|..].
Qed.

(** the columns whose string looks like a timestamp and is none *)
Definition bad_timestamp (o : pydict pyobj) (name : pystr) : Prop :=
  exists s, dict_get name o = Some (PStr s) /\ coerce_ts s = Some None.

Lemma insert_val_None model o name : insert_val model o name = None -> bad_timestamp o name.
Proof.
  unfold insert_val, bad_timestamp. destruct (dict_get name o) as [v|]; [|done].
  destruct v as [|b|n|f|s|s|fs|l|d]; try done. cbn [quote_value]. unfold _quote_string_value.
  destruct (coerce_ts s) as [[t|]|] eqn:E; try done. eauto.
Qed.

(** a MySQL REPLACE is read back as its table, all columns of the schema
    and the object's value under each (any string, whatever its characters; a
    timestamp in the database's format).  It fails only when a string has the
    shape of a timestamp and is none. *)
Theorem replace_reads_back operation model table o diff :
  schema_columns model <> [] -> Forall (fun n => 96 ∉ n) (table :: schema_columns model) ->
  (forall n v, dict_get n o = Some v -> value_ok v = true) ->
  match to_sql_from_object operation model table o diff with
  | Some sql =>
      parse_insert lex_literal lex_identifier (u"REPLACE INTO ") sql =
      Some (table, schema_columns model, column_value model o <$> schema_columns model, u";" ++ nl)
  | None => Exists (bad_timestamp o) (schema_columns model)
  end.
Proof.
  intros Hc Hn Hv. unfold to_sql_from_object.
  destruct (mapM (insert_val model o) (schema_columns model)) as [vals|] eqn:E; cbn [mbind option_bind].
  - apply mapM_default in E as [-> E]. change (u");" ++ nl) with (u")" ++ (u";" ++ nl)).
    rewrite (parse_insert_printed lex_literal my_lit_word my_lit_plain lex_identifier _ quote_identifier table
      (schema_columns model) (fun n => default [] (insert_val model o n)) (column_value model o)); try done.
    + intros n r Hin Hr. unfold lex_identifier, quote_identifier, bt. change (u"`") with [96].
      rewrite <- !app_assoc. simpl. apply lex_quoted_plain; [by eapply Forall_forall in Hn|by apply delimited_head].
    + intros n Hin. apply prints_insert_val; [by apply Hv|]. by eapply Forall_forall in E.
  - apply mapM_None_1 in E. eapply Exists_impl; [exact E|]. intros n. apply insert_val_None.
Qed.

Definition stamped_object : pydict pyobj :=
  [(u"id", PStr (u"a'b" ++ bsl)); (u"name", PStr (u"2024-01-02T03:04:05.600Z"))].

Lemma replace_reads_back_witness :
  match to_sql_from_object (u"INSERT") example_model (u"customer") stamped_object None with
  | Some sql => parse_insert lex_literal lex_identifier (u"REPLACE INTO ") sql =
      Some (u"customer", [u"id"; u"name"; u"tags"],
            [VLit (u"a'b" ++ bsl); VLit (u"2024-01-02 03:04:05.6"); VLit (u"[]")], u";" ++ nl)
  | None => False
  end.
Proof.
  pose proof (replace_reads_back (u"INSERT") example_model (u"customer") stamped_object None) as H.
  destruct (to_sql_from_object _ _ _ stamped_object _) as [sql|] eqn:E; [|by vm_compute in E].
  rewrite H; [by vm_compute|by vm_compute| |].
  - apply (bool_decide_eq_true_1 _). by vm_compute.
  - apply dict_values_ok. by vm_compute.
Defined.
End My.
