(* ===== verification/SqlServerSql.v ===== *)
(** * SQL Server SQL generation: eds/drivers/sqlserver/sql.py

    Bracketed identifiers, strings in which the quote is doubled and the other
    special characters take a backslash, MERGE statements keyed on [id].
    [None] is an exception: an object without [id], too few key values, a
    string that looks like a timestamp and is none.

    The theorems read the statements back with the literal syntax of T-SQL,
    which knows the doubled quote and no backslash. *)
From stdpp Require Import base tactics list option numbers sets strings.
From S2P Require Import Prelude PyStr PyDict PyFloat GoFloat GoJson JsonLoads Schema DbChange Interfaces SqlUtil SqlLex SqlBase RfcTime.

Module Ms.

(** [repr] of a list or dict, which an f-string would print for such an id *)
Section SqlServer.
Context (py_repr : pyobj -> pystr).

Definition quote_identifier (val : pystr) : pystr := u"[" ++ val ++ u"]".

Definition escape_char (c : Z) : pystr :=
  if c =? 0 then bsl ++ u"0"
  else if c =? 10 then bsl ++ u"n"
  else if c =? 13 then bsl ++ u"r"
  else if c =? 26 then bsl ++ u"Z"
  else if c =? 39 then sq ++ sq
  else if c =? 34 then bsl ++ dq
  else if c =? 92 then bsl ++ bsl
  else [c].

Definition escape_string (s : pystr) : pystr := flat_map escape_char s.

Definition _quote_string_value (v : pystr) : option pystr :=
  match coerce_ts v with
  | Some t => (fun s => sq ++ s ++ sq) <$> t
  | None => Some (sq ++ escape_string v ++ sq)
  end.

Definition quote_value (arg : pyobj) : option pystr :=
  match arg with
  | PNone => Some (u"NULL")
  | PBool b => Some (if b then u"1" else u"0")
  | PFloat f => Some (format_g f)
  | PInt n => Some (str_of_Z n)
  | PStr s => _quote_string_value s
  | PRaw s => Some (sq ++ escape_string s ++ sq)
  | _ => Some (sq ++ escape_string (stringify arg) ++ sq)
  end.

Definition handle_schema_property (prop : SchemaProperty) (v : pystr) : pystr :=
  let t := sp_type prop in
  if str_eqb t (u"object") then v
  else if str_eqb t (u"boolean") then
    if str_eqb (lower v) (u"true") || str_eqb v (u"1") then u"1"
    else if (negb (sp_nullable prop) && str_eqb v []) || str_eqb (lower v) (u"false") || str_eqb (lower v) (u"null")
    then u"0"
    else v
  else if str_eqb t (u"integer") then
    if str_eqb v (u"NULL") then u"0" else v
  else if str_eqb t (u"array") then
    if negb (sp_nullable prop) && str_eqb v (u"NULL") then sq ++ sq else v
  else v.

(** ** Upsert *)

(** [f"{o['id']}"] *)
Definition format_value (v : pyobj) : pystr :=
  match v with
  | PStr s => s
  | PInt n => str_of_Z n
  | PFloat f => repr_float f
  | PBool b => if b then u"True" else u"False"
  | PNone => u"None"
  | _ => py_repr v
  end.

Definition update_value (model : Schema) (o : pydict pyobj) (name : pystr) : option pystr :=
  match dict_get name o with
  | Some x => v ← quote_value x;
              Some (quote_identifier name ++ u"=" ++ to_json_string_val v (prop_of model name) false)
  | None => Some (quote_identifier name ++ u"=NULL")
  end.

Definition insert_val (model : Schema) (o : pydict pyobj) (name : pystr) : option pystr :=
  let prop := prop_of model name in
  match dict_get name o with
  | Some x => v ← quote_value x;
              let v := to_json_string_val v prop false in
              Some (if str_eqb name (u"id") then v else handle_schema_property prop v)
  | None => Some (handle_schema_property prop (u"NULL"))
  end.

(** [diff if diff else columns] without unknown columns and [id] *)
Definition update_columns (model : Schema) (diff : option (list pystr)) : list pystr :=
  let columns := schema_columns model in
  filter (fun n => n ∈ columns /\ n <> u"id")
    (match diff with Some (d :: l) => d :: l | _ => columns end).

Definition to_sql_from_object (model : Schema) (table : pystr) (o : pydict pyobj) (diff : option (list pystr))
    : option pystr :=
  let columns := schema_columns model in
  update_values ← mapM (update_value model o) (update_columns model diff);
  insert_vals ← mapM (insert_val model o) columns;
  id ← dict_get (u"id") o;
  Some (u"MERGE " ++ quote_identifier table ++ u" AS target USING (VALUES('" ++ format_value id
        ++ u"')) AS source (id) ON target.id=source.id"
        ++ match update_values with
           | [] => []
           | _ => u" WHEN MATCHED THEN UPDATE SET " ++ join (u",") update_values
           end
        ++ u" WHEN NOT MATCHED THEN INSERT (" ++ join (u",") (quote_identifier <$> columns)
        ++ u") VALUES (" ++ join (u",") insert_vals ++ u");").

Fixpoint key_predicates (pks keys : list pystr) : option (list pystr) :=
  match pks, keys with
  | [], _ => Some []
  | _ :: _, [] => None
  | pk :: pks', k :: keys' =>
      v ← quote_value (PStr k);
      cons (quote_identifier pk ++ u"=" ++ v) <$> key_predicates pks' keys'
  end.

Definition to_sql (c : DBChangeEvent) (model : Schema) : option pystr :=
  if str_eqb (ev_operation c) (u"DELETE") then
    preds ← key_predicates (sc_primary_keys model) (default [] (ev_key c));
    Some (u"DELETE FROM " ++ quote_identifier (ev_table c) ++ u" WHERE "
          ++ join (u" AND ") preds ++ u";" ++ nl)
  else
    o ← import_object c;
    to_sql_from_object model (ev_table c) o (ev_diff c).

(** ** DDL *)

Definition prop_type_to_sql_type (prop : SchemaProperty) (is_primary_key : bool) : pystr :=
  let t := sp_type prop in
  if str_eqb t (u"string") then (if is_primary_key then u"VARCHAR(64)" else u"NVARCHAR(MAX)")
  else if str_eqb t (u"integer") then u"BIGINT"
  else if str_eqb t (u"number") then u"FLOAT"
  else if str_eqb t (u"boolean") then u"BIT"
  else if str_eqb t (u"object") then u"NVARCHAR(MAX)"
  else if str_eqb t (u"array") then
    match sp_items prop with
    | Some (mk_items _ (Some _) _) => u"VARCHAR(64)"
    | _ => u"NVARCHAR(MAX)"
    end
  else u"NVARCHAR(MAX)".

Definition column_line (model : Schema) (not_null : bool) (name : pystr) : pystr :=
  tab ++ quote_identifier name ++ u" "
  ++ prop_type_to_sql_type (prop_of model name) (str_in name (sc_primary_keys model))
  ++ (if not_null then u" NOT NULL" else []) ++ u"," ++ nl.

Definition create_sql (s : Schema) : pystr :=
  let lines := (fun name =>
    column_line s (str_in name (sc_required s) && negb (sp_nullable (prop_of s name))) name)
    <$> schema_columns s in
  let body := concat lines ++
    match sc_primary_keys s with
    | [] => []
    | pks => tab ++ u"PRIMARY KEY (" ++ join (u", ") (quote_identifier <$> pks) ++ u")"
    end in
  let table := quote_identifier (sc_table s) in
  u"DROP TABLE IF EXISTS " ++ table ++ u";" ++ nl ++ u"CREATE TABLE " ++ table ++ u" (" ++ nl
  ++ body ++ nl ++ u")".

Definition add_new_columns_sql (columns : list pystr) (s : Schema) (db : DatabaseSchema) : list pystr :=
  omap (fun column =>
    if (db_get_type db (sc_table s) column).1 then None
    else Some (u"ALTER TABLE " ++ quote_identifier (sc_table s) ++ u" ADD "
               ++ quote_identifier column ++ u" " ++ prop_type_to_sql_type (prop_of s column) false ++ u";"))
    columns.

(** ** Append mode *)

Definition append_vals (c : DBChangeEvent) (model : Schema) : option (list pystr) :=
  let columns := schema_columns model in
  if str_eqb (ev_operation c) (u"DELETE") then
    mapM (fun name =>
      if str_in name (sc_primary_keys model)
      then k ← key_of name (sc_primary_keys model) (default [] (ev_key c)); quote_value (PStr k)
      else Some (u"NULL")) columns
  else
    o ← import_object c;
    mapM (fun name =>
      match dict_get name o with
      | Some x => v ← quote_value x; Some (to_json_string_val v (prop_of model name) false)
      | None => Some (u"NULL")
      end) columns.

Definition to_append_sql (c : DBChangeEvent) (model : Schema) : option pystr :=
  vals ← append_vals c model;
  op ← quote_value (PStr (ev_operation c));
  let all := vals ++ [op; match ev_mvcc_timestamp c with Some (x :: t) => x :: t | _ => u"NULL" end;
                      str_of_Z (ev_timestamp c)] in
  let cols := join (u",") (quote_identifier <$> schema_columns model ++ [_EDS_OPERATION; _EDS_MVCC; _EDS_TIMESTAMP]) in
  Some (u"INSERT INTO " ++ quote_identifier (ev_table c) ++ u" (" ++ cols ++ u") VALUES ("
        ++ join (u",") all ++ u");" ++ nl).

Definition drop_view (name : pystr) : pystr := u"DROP VIEW IF EXISTS " ++ quote_identifier name ++ u";".

Definition create_append_sql (s : Schema) : pystr :=
  let table := quote_identifier (sc_table s) in
  let lines := (fun name => column_line s (str_in name (sc_primary_keys s)) name) <$> schema_columns s in
  let body := concat lines
    ++ tab ++ quote_identifier _EDS_SEQ ++ u" BIGINT IDENTITY(1,1) PRIMARY KEY," ++ nl
    ++ tab ++ quote_identifier _EDS_OPERATION ++ u" NVARCHAR(16) NOT NULL," ++ nl
    ++ tab ++ quote_identifier _EDS_MVCC ++ u" DECIMAL(38,10)," ++ nl
    ++ tab ++ quote_identifier _EDS_TIMESTAMP ++ u" BIGINT," ++ nl
    ++ tab ++ quote_identifier _EDS_APPENDED_AT ++ u" DATETIME2(6) NOT NULL DEFAULT SYSUTCDATETIME()" in
  let idx_cols := join (u",") (quote_identifier <$> sc_primary_keys s) ++ u", "
    ++ join (u", ") [quote_identifier _EDS_MVCC ++ u" DESC"; quote_identifier _EDS_TIMESTAMP ++ u" DESC";
                     quote_identifier _EDS_SEQ ++ u" DESC"] in
  let idx := quote_identifier (u"ix_" ++ sc_table s ++ u"_id_mvcc") in
  drop_view (sc_table s ++ u"_timeline") ++ nl
  ++ drop_view (sc_table s ++ u"_current") ++ nl
  ++ u"DROP TABLE IF EXISTS " ++ table ++ u";" ++ nl
  ++ u"CREATE TABLE " ++ table ++ u" (" ++ nl ++ body ++ nl ++ u")" ++ nl
  ++ u"CREATE INDEX " ++ idx ++ u" ON " ++ table ++ u" (" ++ idx_cols ++ u")".

Definition create_current_view_sql (s : Schema) : pystr :=
  let obj_csv := join (u",") (quote_identifier <$> schema_columns s) in
  let partition := join (u",") (quote_identifier <$> sc_primary_keys s) in
  let order_by := join (u", ") [quote_identifier _EDS_MVCC ++ u" DESC"; quote_identifier _EDS_TIMESTAMP ++ u" DESC";
                                quote_identifier _EDS_SEQ ++ u" DESC"] in
  u"CREATE VIEW " ++ quote_identifier (sc_table s ++ u"_current") ++ u" AS" ++ nl
  ++ u"SELECT " ++ obj_csv ++ nl
  ++ u"FROM (" ++ nl
  ++ tab ++ u"SELECT " ++ obj_csv ++ u"," ++ quote_identifier _EDS_OPERATION ++ u"," ++ nl
  ++ tab ++ tab ++ u"ROW_NUMBER() OVER (" ++ nl
  ++ tab ++ tab ++ tab ++ u"PARTITION BY " ++ partition ++ nl
  ++ tab ++ tab ++ tab ++ u"ORDER BY " ++ order_by ++ nl
  ++ tab ++ tab ++ u") AS _eds_rn" ++ nl
  ++ tab ++ u"FROM " ++ quote_identifier (sc_table s) ++ nl
  ++ u") AS ranked" ++ nl
  ++ u"WHERE _eds_rn = 1 AND " ++ quote_identifier _EDS_OPERATION ++ u" <> 'DELETE'".

Definition create_timeline_view_sql (s : Schema) : pystr :=
  let obj_csv := join (u",") (quote_identifier <$> schema_columns s) in
  let partition := join (u",") (quote_identifier <$> sc_primary_keys s) in
  let order_by := join (u", ") [quote_identifier _EDS_MVCC ++ u" ASC"; quote_identifier _EDS_TIMESTAMP ++ u" ASC";
                                quote_identifier _EDS_SEQ ++ u" ASC"] in
  u"CREATE VIEW " ++ quote_identifier (sc_table s ++ u"_timeline") ++ u" AS" ++ nl
  ++ u"SELECT " ++ obj_csv ++ u"," ++ quote_identifier _EDS_OPERATION ++ u"," ++ nl
  ++ tab ++ quote_identifier _EDS_MVCC ++ u" AS valid_from," ++ nl
  ++ tab ++ u"LEAD(" ++ quote_identifier _EDS_MVCC ++ u") OVER (" ++ nl
  ++ tab ++ tab ++ u"PARTITION BY " ++ partition ++ nl
  ++ tab ++ tab ++ u"ORDER BY " ++ order_by ++ nl
  ++ tab ++ u") AS valid_to" ++ nl
  ++ u"FROM " ++ quote_identifier (sc_table s).

Definition drop_views_sql (s : Schema) : list pystr :=
  [drop_view (sc_table s ++ u"_timeline"); drop_view (sc_table s ++ u"_current")].

Definition sqlserver_dialect : SqlDialect := {|
  dl_quote_identifier := quote_identifier;
  dl_to_sql := to_sql;
  dl_to_append_sql := to_append_sql;
  dl_to_sql_from_object := fun _ model table o diff => to_sql_from_object model table o diff;
  dl_create_table_sql := create_sql;
  dl_create_append_table_sql := create_append_sql;
  dl_create_current_view_sql := create_current_view_sql;
  dl_create_timeline_view_sql := create_timeline_view_sql;
  dl_drop_views_sql := drop_views_sql;
  dl_add_new_columns_sql := add_new_columns_sql;
  dl_schema_column := u"table_catalog";
  dl_db_name_function := u"DB_NAME()";
  dl_max_batch_size := 500
|}.
End SqlServer.

(** ** Reading the statements back *)

Definition lex_literal (s : pystr) : option (pystr * pystr) :=
  if head_is 39 s then lex_quoted 39 (drop 1 s) else None.

Definition lex_identifier (s : pystr) : option (pystr * pystr) :=
  if head_is 91 s then lex_quoted 93 (drop 1 s) else None.

(** what T-SQL reads for an escaped string: the backslashes are text *)
Definition mangle (s : pystr) : pystr := flat_map (fun c => if c =? 39 then [c] else escape_char c) s.

Lemma lex_literal_escaped s rest :
  head_is 39 rest = false -> lex_quoted 39 (escape_string s ++ 39 :: rest) = Some (mangle s, rest).
Proof.
  intros Hr. induction s as [|c s IH].
  - simpl. destruct rest as [|d r]; [done|]. simpl in Hr. by rewrite Hr.
  - cbn [escape_string mangle flat_map]. fold (escape_string s) (mangle s). rewrite <- app_assoc.
    destruct (Z.eqb_spec c 39) as [->|Hc].
    + change (escape_char 39) with [39; 39]. simpl. by rewrite IH.
    + assert (39 ∉ escape_char c) as Hno.
      { unfold escape_char. rewrite (proj2 (Z.eqb_neq c 39) Hc). repeat (case_match; [apply (bool_decide_eq_false_1 _); by vm_compute|]).
        intros Hin%list_elem_of_singleton. congruence. }
      clear Hc. induction (escape_char c) as [|x l IHl]; [done|].
      apply not_elem_of_cons in Hno as [? ?]. cbn [app lex_quoted].
      destruct (Z.eqb_spec x 39); [lia|]. rewrite IHl by done. done.
Qed.

(** the characters the escaping changes *)
Definition special_char (c : Z) : bool := (c =? 0) || (c =? 10) || (c =? 13) || (c =? 26) || (c =? 34) || (c =? 92).

Lemma mangle_length s : (length s <= length (mangle s))%nat.
Proof.
  induction s as [|c s IH]; [done|]. cbn [mangle flat_map length]. fold (mangle s). rewrite length_app.
  assert (1 <= length (if (c =? 39)%Z then [c] else escape_char c))%nat; [|lia].
  unfold escape_char. repeat case_match; simpl; lia.
Qed.

Lemma special_escape c : special_char c = true -> length (escape_char c) = 2%nat.
Proof.
  unfold special_char. rewrite !orb_true_iff, !Z.eqb_eq.
  intros [[[[[-> | ->]| ->]| ->]| ->]| ->]; by vm_compute.
Qed.

Lemma plain_escape c : special_char c = false -> c <> 39 -> escape_char c = [c].
Proof.
  unfold special_char, escape_char. intros H Hc. bool_prop. bool_lia. done.
Qed.

(** SQL Server reads a quoted string back as itself exactly when none of
    its characters is escaped with a backslash: NUL, newline, carriage return,
    control-Z, double quote and backslash are stored as two characters.  The
    quote always survives. *)
Theorem backslash_escapes_are_stored s rest :
  head_is 39 rest = false -> coerce_ts s = None ->
  exists t, quote_value (PStr s) = Some t /\
    (lex_literal (t ++ rest) = Some (s, rest) <-> forallb (fun c => negb (special_char c)) s = true).
Proof.
  intros Hr Hts. unfold quote_value, _quote_string_value. rewrite Hts. eexists. split; [done|].
  unfold lex_literal, sq. rewrite <- !app_assoc. cbn [app head_is drop]. rewrite Z.eqb_refl, drop_0.
  rewrite lex_literal_escaped by done.
  assert (mangle s = s <-> forallb (fun c => negb (special_char c)) s = true) as <-; [|split; congruence].
  clear. induction s as [|c s IH]; [done|]. cbn [mangle flat_map forallb]. fold (mangle s).
  pose proof (mangle_length s) as Hl.
  destruct (Z.eqb_spec c 39) as [->|Hc]; [rewrite <- IH; simpl; split; congruence|].
  destruct (special_char c) eqn:Es; simpl.
  - split; [|done]. intros H%(f_equal length). rewrite length_app, special_escape in H by done. simpl in H. lia.
  - rewrite plain_escape by done. rewrite <- IH. simpl. split; congruence.
Qed.

Lemma backslash_escapes_are_stored_witness :
  lex_literal (u"'a" ++ bsl ++ u"nb'") = Some (u"a" ++ bsl ++ u"nb", []) /\
  ~ lex_literal (u"'a" ++ bsl ++ u"nb'" ++ []) = Some (u"a" ++ nl ++ u"b", []).
Proof.
  destruct (backslash_escapes_are_stored (u"a" ++ nl ++ u"b") [] eq_refl) as (t & Ht & H); [by vm_compute|].
  split; [by vm_compute|]. vm_compute in Ht. injection Ht as <-. intros E. apply H in E. by vm_compute in E.
Defined.

(** ** MERGE *)

Definition value_of (v : option pyobj) : sqlval :=
  match v with
  | None | Some PNone => VWord (u"NULL")
  | Some (PBool b) => VWord (if b then u"1" else u"0")
  | Some (PFloat f) => VWord (format_g f)
  | Some (PInt n) => VWord (str_of_Z n)
  | Some (PStr s) => VLit (match coerce_ts s with Some (Some t) => t | _ => mangle s end)
  | Some (PRaw s) => VLit (mangle s)
  | Some v => VLit (mangle (stringify v))
  end.

Definition value_ok (v : pyobj) : bool :=
  match v with PFloat f => valid_float f | _ => true end.

(** the insert coercion on values: a missing boolean or integer is 0, a missing
    array that may not be null is empty *)
Definition property_value (prop : SchemaProperty) (v : sqlval) : sqlval :=
  let t := sp_type prop in
  match v with
  | VWord w =>
      if str_eqb t (u"boolean") then
        if str_eqb (lower w) (u"true") || str_eqb w (u"1") then VWord (u"1")
        else if str_eqb (lower w) (u"false") || str_eqb (lower w) (u"null") then VWord (u"0") else v
      else if str_eqb t (u"integer") && str_eqb w (u"NULL") then VWord (u"0")
      else if str_eqb t (u"array") && negb (sp_nullable prop) && str_eqb w (u"NULL") then VLit []
      else v
  | _ => v
  end.

(** a printed value whose literals begin with a quote *)
Definition quoted_prints (t : pystr) (v : sqlval) : Prop :=
  prints lex_literal t v /\ match v with VWord _ => True | _ => head_is 39 t = true end.

Lemma ms_lit_word w rest : forallb token_char w = true -> w <> [] -> lex_literal (w ++ rest) = None.
Proof.
  intros Hw Hne. destruct w as [|c w]; [done|]. simpl in Hw. apply andb_true_iff in Hw as [Hc _].
  unfold lex_literal. cbn [app head_is].
  by assert (c =? 39 = false) as -> by (apply Z.eqb_neq; intros ->; by vm_compute in Hc).
Qed.

Lemma ms_lit_plain w rest :
  forallb (fun c => token_char c || char_in c (u"[]{}")) w = true -> delimited rest ->
  lex_literal (sq ++ w ++ sq ++ rest) = Some (w, rest).
Proof.
  intros Hw Hr. unfold lex_literal, sq. simpl.
  apply lex_quoted_plain; [by eapply forallb_absent|by apply delimited_head].
Qed.

Lemma ms_prints_escaped s : quoted_prints (sq ++ escape_string s ++ sq) (VLit (mangle s)).
Proof.
  split; [|done]. split.
  - intros rest Hr. unfold lex_value, lex_literal, sq. rewrite <- !app_assoc. simpl.
    by rewrite drop_0, lex_literal_escaped by (by apply delimited_head).
  - split; [apply quoted_not_scalar|]. rewrite quoted_empty. destruct s as [|c s]; [done|].
    split; cbn [escape_string mangle flat_map]; unfold escape_char; by repeat case_match.
Qed.

Lemma prints_word_quoted w : w <> [] -> forallb token_char w = true -> quoted_prints w (VWord w).
Proof. intros. split; [|done]. apply prints_word; [apply ms_lit_word|done|done]. Qed.

Lemma ms_prints_quote_value v t :
  value_ok v = true -> quote_value v = Some t -> quoted_prints t (value_of (Some v)).
Proof.
  destruct v as [|b|n|f|s|s|fs|l|d]; cbn [value_ok quote_value value_of]; intros Hok H;
    try (injection H as <-; apply ms_prints_escaped).
  - injection H as <-. by apply prints_word_quoted.
  - injection H as <-. destruct b; by apply prints_word_quoted.
  - injection H as <-. destruct (str_of_Z_tokens n). by apply prints_word_quoted.
  - injection H as <-. destruct (format_g_tokens f Hok). by apply prints_word_quoted.
  - unfold _quote_string_value in H. destruct (coerce_ts s) as [[t'|]|] eqn:E; cbn [fmap option_fmap option_map] in H; simplify_eq.
    + apply coerce_ts_chars in E. split; [|done]. split; [|split; [apply quoted_not_scalar|apply quoted_empty]].
      intros rest Hr. unfold lex_value, lex_literal, sq. rewrite <- !app_assoc. simpl.
      rewrite drop_0, lex_quoted_plain; [done|by eapply forallb_absent|by apply delimited_head].
    + apply ms_prints_escaped.
Qed.

(** what is written for a present column *)
Lemma prints_coerced t v prop : quoted_prints t v -> quoted_prints (to_json_string_val t prop false) (coerce false prop v).
Proof.
  intros [Hp Hq]. split; [apply prints_coerce; [apply ms_lit_word|apply ms_lit_plain|done]|].
  unfold to_json_string_val, coerce.
  assert (is_empty_val t = bool_decide (v ∈ [VLit []; VWord (u"NULL"); VWord (u"null")])) as ->.
  { exact (prints_empty lex_literal ms_lit_word ms_lit_plain t v Hp). }
  destruct (_ && bool_decide _); [by destruct (str_eqb _ _)|]. by destruct v.
Qed.

Lemma head_quote_not t w : head_is 39 t = true -> head_is 39 w = false -> str_eqb t w = false.
Proof. intros Ht Hw. apply bool_decide_eq_false. intros ->. congruence. Qed.

Lemma head_quote_lower t : head_is 39 t = true -> head_is 39 (lower t) = true.
Proof. destruct t as [|c t]; [done|]. simpl. by intros ->%Z.eqb_eq. Qed.

Lemma prints_property t v prop : quoted_prints t v -> quoted_prints (handle_schema_property prop t) (property_value prop v).
Proof.
  intros [Hp Hq]. unfold handle_schema_property, property_value.
  assert (quoted_prints (u"0") (VWord (u"0"))) as H0 by (by apply prints_word_quoted).
  assert (quoted_prints (u"1") (VWord (u"1"))) as H1 by (by apply prints_word_quoted).
  assert (quoted_prints (sq ++ sq) (VLit [])) as He by (apply (ms_prints_escaped [])).
  destruct v as [x|w|f x].
  1,3: (pose proof (head_quote_lower _ Hq) as Hl;
    rewrite !(head_quote_not t), !(head_quote_not (lower t)) by done;
    rewrite ?andb_false_r; simpl; repeat case_match; by split).
  destruct (proj2 Hp) as (-> & Hne & _).
  destruct (str_eqb (sp_type prop) (u"object")) eqn:Eo.
  { apply bool_decide_eq_true in Eo. rewrite Eo. by split. }
  destruct (str_eqb (sp_type prop) (u"boolean")) eqn:Eb.
  { destruct (str_eqb (lower w) (u"true") || str_eqb w (u"1")); [done|].
    assert (str_eqb w [] = false) as -> by (by apply bool_decide_eq_false). rewrite andb_false_r. simpl.
    destruct (_ || _); [done|by split]. }
  destruct (str_eqb (sp_type prop) (u"integer")) eqn:Ei.
  { destruct (str_eqb w (u"NULL")); [done|]. simpl. rewrite andb_false_r. by split. }
  simpl. destruct (str_eqb (sp_type prop) (u"array")); [|by split]. simpl.
  destruct (negb (sp_nullable prop) && str_eqb w (u"NULL")); [done|by split].
Qed.

(** the statement: table, id, assignments, columns and values *)
Definition parse_merge (s : pystr)
    : option (pystr * pystr * list (pystr * sqlval) * list pystr * list sqlval) :=
  s ← strip_prefix (u"MERGE ") s;
  '(table, s) ← lex_identifier s;
  s ← strip_prefix (u" AS target USING (VALUES(") s;
  '(id, s) ← lex_literal s;
  s ← strip_prefix (u")) AS source (id) ON target.id=source.id") s;
  '(set, s) ← match strip_prefix (u" WHEN MATCHED THEN UPDATE SET ") s with
              | Some s => '(set, s) ← lex_assigns lex_literal lex_identifier 32 s; Some (set, 32 :: s)
              | None => Some ([], s)
              end;
  s ← strip_prefix (u" WHEN NOT MATCHED THEN INSERT (") s;
  '(cols, vals, s) ← parse_row lex_literal lex_identifier s;
  if str_eqb s (u";") then Some (table, id, set, cols, vals) else None.

(** the value assigned to a column, and the one inserted *)
Definition set_value (model : Schema) (o : pydict pyobj) (name : pystr) : sqlval :=
  match dict_get name o with
  | Some x => coerce false (prop_of model name) (value_of (Some x))
  | None => VWord (u"NULL")
  end.

Definition row_value (model : Schema) (o : pydict pyobj) (name : pystr) : sqlval :=
  let v := set_value model o name in
  if str_eqb name (u"id") && dict_has name o then v else property_value (prop_of model name) v.

Definition bad_timestamp (o : pydict pyobj) (name : pystr) : Prop :=
  exists s, dict_get name o = Some (PStr s) /\ coerce_ts s = Some None.

Lemma quote_value_None v : quote_value v = None -> exists s, v = PStr s /\ coerce_ts s = Some None.
Proof.
  destruct v as [|b|n|f|s|s|fs|l|d]; try done. cbn [quote_value]. unfold _quote_string_value.
  destruct (coerce_ts s) as [[t|]|] eqn:E; try done. eauto.
Qed.

Lemma update_value_spec model o name :
  (forall v, dict_get name o = Some v -> value_ok v = true) ->
  match update_value model o name with
  | Some t => exists v, t = quote_identifier name ++ u"=" ++ v /\ prints lex_literal v (set_value model o name)
  | None => bad_timestamp o name
  end.
Proof.
  intros Hok. unfold update_value, set_value, bad_timestamp. destruct (dict_get name o) as [x|].
  - destruct (quote_value x) as [v|] eqn:E; cbn [mbind option_bind].
    + eexists. split; [done|]. apply prints_coerced, ms_prints_quote_value; [by apply Hok|done].
    + destruct (quote_value_None x E) as (s & -> & ?). eauto.
  - exists (u"NULL"). split; [done|]. by apply prints_word; [apply ms_lit_word|..].
Qed.

Lemma insert_val_spec model o name :
  (forall v, dict_get name o = Some v -> value_ok v = true) ->
  match insert_val model o name with
  | Some t => prints lex_literal t (row_value model o name)
  | None => bad_timestamp o name
  end.
Proof.
  intros Hok. unfold insert_val, row_value, set_value, bad_timestamp, dict_has.
  destruct (dict_get name o) as [x|].
  - destruct (quote_value x) as [v|] eqn:E; cbn [mbind option_bind].
    + pose proof (prints_coerced v _ (prop_of model name) (ms_prints_quote_value x v (Hok _ eq_refl) E)) as Hp.
      rewrite andb_true_r. destruct (str_eqb name (u"id")); [apply Hp|]. by apply prints_property.
    + destruct (quote_value_None x E) as (s & -> & ?). eauto.
  - rewrite andb_false_r. by apply prints_property, prints_word_quoted.
Qed.

Lemma lex_identifier_bracket name rest :
  93 ∉ name -> head_is 93 rest = false -> lex_identifier (quote_identifier name ++ rest) = Some (name, rest).
Proof.
  intros Hn Hr. unfold lex_identifier, quote_identifier. change (u"[") with [91]. change (u"]") with [93].
  rewrite <- !app_assoc. simpl. by apply lex_quoted_plain.
Qed.

Lemma lex_literal_plain s rest :
  39 ∉ s -> head_is 39 rest = false -> lex_literal (39 :: s ++ 39 :: rest) = Some (s, rest).
Proof. intros Hs Hr. unfold lex_literal. simpl. by apply lex_quoted_plain. Qed.

(** related lists as one list of pairs *)
Lemma Forall2_pairs {A B} (R : A -> B -> Prop) l k :
  Forall2 R l k -> exists ps : list (A * B), ps.*1 = l /\ ps.*2 = k /\ Forall (fun b => R b.1 b.2) ps.
Proof.
  induction 1 as [|x y l k H _ (ps & <- & <- & Hps)]; [by exists []|]. exists ((x, y) :: ps). auto.
Qed.

(** the text after the id, for given assignments *)
Lemma parse_set_clause model o (cols : list pystr) (texts : list pystr) rest :
  Forall2 (fun n t => exists v, t = quote_identifier n ++ u"=" ++ v /\ prints lex_literal v (set_value model o n))
    cols texts ->
  Forall (fun n => 93 ∉ n) cols ->
  match strip_prefix (u" WHEN MATCHED THEN UPDATE SET ")
          (match texts with [] => [] | _ => u" WHEN MATCHED THEN UPDATE SET " ++ join (u",") texts end
           ++ u" WHEN NOT MATCHED THEN INSERT (" ++ rest) with
  | Some s => '(set, s) ← lex_assigns lex_literal lex_identifier 32 s; Some (set, 32 :: s)
  | None => Some ([], match texts with [] => [] | _ => u" WHEN MATCHED THEN UPDATE SET " ++ join (u",") texts end
           ++ u" WHEN NOT MATCHED THEN INSERT (" ++ rest)
  end = Some ((fun n => (n, set_value model o n)) <$> cols, u" WHEN NOT MATCHED THEN INSERT (" ++ rest).
Proof.
  intros H Hn. destruct H as [|n t cols texts Ht H]; [done|].
  set (T := t :: texts). change (match T with [] => [] | _ :: _ => u" WHEN MATCHED THEN UPDATE SET " ++ join (u",") T end)
    with (u" WHEN MATCHED THEN UPDATE SET " ++ join (u",") T).
  rewrite <- app_assoc, strip_prefix_app.
  assert (Forall2 (fun n t => exists v, t = quote_identifier n ++ u"=" ++ v /\
    prints lex_literal v (set_value model o n)) (n :: cols) T) as HT by (by constructor).
  assert (exists l : list (pystr * pystr), l.*1 = n :: cols /\
    T = (fun b => quote_identifier b.1 ++ u"=" ++ b.2) <$> l /\
    Forall (fun b => prints lex_literal b.2 (set_value model o b.1)) l) as (l & Hl & -> & Hp).
  { clear -HT. induction HT as [|x y xs ys (v & -> & Hv) _ (l & <- & -> & Hl)]; [by exists []|].
    exists ((x, v) :: l). split; [done|]. split; [done|]. by constructor. }
  change (u" WHEN NOT MATCHED THEN INSERT (" ++ rest) with (32 :: u"WHEN NOT MATCHED THEN INSERT (" ++ rest).
  rewrite (lex_assigns_printed lex_literal lex_identifier 32 (fun b => quote_identifier b.1) (fun b => b.2)
    (fun b => b.1) (fun b => set_value model o b.1)).
  - cbn [mbind option_bind]. rewrite <- Hl, <- list_fmap_compose. done.
  - by destruct l.
  - by right.
  - intros b r Hb. apply lex_identifier_bracket; [|done]. rewrite <- Hl, Forall_fmap, Forall_forall in Hn. by apply Hn.
  - rewrite Forall_forall in Hp. done.
Qed.

Lemma mapM_spec {A B} (f : A -> option B) (R : A -> B -> Prop) (bad : A -> Prop) (l : list A) :
  (forall x, x ∈ l -> match f x with Some t => R x t | None => bad x end) ->
  match mapM f l with Some ts => Forall2 R l ts | None => Exists bad l end.
Proof.
  intros Hf. destruct (mapM f l) as [ts|] eqn:E.
  - apply mapM_Some_1 in E. induction E as [|x t l ts Hx _ IH]; [done|].
    constructor; [specialize (Hf x); rewrite Hx in Hf; apply Hf; set_solver|]. apply IH. intros. apply Hf. set_solver.
  - apply mapM_None_1 in E. rewrite Exists_exists in *. destruct E as (x & Hx & Hn).
    exists x. split; [done|]. specialize (Hf x Hx). by rewrite Hn in Hf.
Qed.

(** a MERGE is read back as its table, its id, the values of the changed
    columns and the inserted row, when the id holds no quote; it fails only when
    a string has the shape of a timestamp and is none. *)
Theorem merge_reads_back repr model table o diff id :
  schema_columns model <> [] -> Forall (fun n => 93 ∉ n) (table :: schema_columns model) ->
  (forall n v, dict_get n o = Some v -> value_ok v = true) ->
  dict_get (u"id") o = Some (PStr id) -> 39 ∉ id ->
  match to_sql_from_object repr model table o diff with
  | Some sql =>
      parse_merge sql = Some (table, id, (fun n => (n, set_value model o n)) <$> update_columns model diff,
                              schema_columns model, row_value model o <$> schema_columns model)
  | None => Exists (bad_timestamp o) (schema_columns model)
  end.
Proof.
  intros Hc Hn Hv Hid Hq. unfold to_sql_from_object.
  assert (forall n, n ∈ update_columns model diff -> n ∈ schema_columns model) as Hup
    by (intros n; unfold update_columns; rewrite list_elem_of_filter; tauto).
  pose proof (mapM_spec (update_value model o) _ (bad_timestamp o) (update_columns model diff)
    (fun n _ => update_value_spec model o n (Hv n))) as Hu.
  pose proof (mapM_spec (insert_val model o) (fun n t => prints lex_literal t (row_value model o n)) (bad_timestamp o)
    (schema_columns model) (fun n _ => insert_val_spec model o n (Hv n))) as Hi.
  destruct (mapM (update_value model o) _) as [us|]; cbn [mbind option_bind].
  2: { rewrite Exists_exists in *. naive_solver. }
  destruct (mapM (insert_val model o) _) as [vs|]; cbn [mbind option_bind]; [|done].
  rewrite Hid. cbn [mbind option_bind]. unfold parse_merge.
  rewrite strip_prefix_app. cbn [mbind option_bind].
  rewrite lex_identifier_bracket by (by inversion Hn || done). cbn [mbind option_bind].
  change (u" AS target USING (VALUES('") with (u" AS target USING (VALUES(" ++ u"'"). rewrite <- !app_assoc.
  rewrite strip_prefix_app. cbn [mbind option_bind format_value].
  change (u"')) AS source (id) ON target.id=source.id")
    with (u"'" ++ u")) AS source (id) ON target.id=source.id"). rewrite <- !app_assoc.
  change (u"'") with [39]. cbn [app]. rewrite lex_literal_plain by done. cbn [mbind option_bind]. rewrite strip_prefix_app. cbn [mbind option_bind].
  change (u");") with (u")" ++ u";").
  inversion Hn as [|? ? _ Hn']; subst.
  rewrite (parse_set_clause model o (update_columns model diff) us); [|done|].
  2: { rewrite Forall_forall in *. auto. }
  cbn [mbind option_bind]. rewrite strip_prefix_app. cbn [mbind option_bind].
  destruct (Forall2_pairs _ _ _ Hi) as (l & Hl & <- & Hp).
  rewrite (parse_row_printed lex_literal lex_identifier quote_identifier (schema_columns model)
    snd (fun b => row_value model o b.1) l (u";")).
  - cbn [mbind option_bind]. rewrite <- Hl, <- list_fmap_compose. done.
  - intros n r Hin Hr. rewrite Forall_forall in Hn'. by apply lex_identifier_bracket; [apply Hn'|apply delimited_head].
  - done.
  - intros ->. by rewrite <- Hl in Hc.
  - rewrite Forall_forall in Hp. done.
Qed.

Definition merged_object : pydict pyobj := [(u"id", PStr (u"k1")); (u"name", PStr (u"O'Brien"))].

Lemma merge_reads_back_witness :
  match to_sql_from_object (fun _ => []) example_model (u"customer") merged_object (Some [u"name"]) with
  | Some sql => parse_merge sql =
      Some (u"customer", u"k1", [(u"name", VLit (u"O'Brien"))], [u"id"; u"name"; u"tags"],
            [VLit (u"k1"); VLit (u"O'Brien"); VLit []])
  | None => False
  end.
Proof.
  pose proof (merge_reads_back (fun _ => []) example_model (u"customer") merged_object (Some [u"name"]) (u"k1")) as H.
  destruct (to_sql_from_object _ _ _ merged_object _) as [sql|] eqn:E; [|by vm_compute in E].
  rewrite H; [by vm_compute|by vm_compute| | |by vm_compute|].
  - apply (bool_decide_eq_true_1 _). by vm_compute.
  - apply dict_values_ok. by vm_compute.
  - apply (bool_decide_eq_false_1 _). by vm_compute.
Defined.

(** the id is not escaped.  An id that holds a quote ends the literal of
    the USING clause early and the rest of the id is read as SQL. *)
Theorem merge_id_injection repr model table o diff a b sql :
  dict_get (u"id") o = Some (PStr (a ++ sq ++ b)) -> 39 ∉ a -> b <> [] -> head_is 39 b = false ->
  to_sql_from_object repr model table o diff = Some sql ->
  exists rest tail, sql = u"MERGE " ++ quote_identifier table ++ u" AS target USING (VALUES(" ++ rest /\
    lex_literal rest = Some (a, b ++ tail).
Proof.
  intros Hid Ha Hne Hb E. unfold to_sql_from_object in E.
  destruct (mapM (update_value model o) _) as [us|]; [|done].
  destruct (mapM (insert_val model o) _) as [vs|]; [|done]. cbn [mbind option_bind] in E. rewrite Hid in E.
  cbn [mbind option_bind format_value] in E. apply (inj Some) in E. rewrite <- E. clear E.
  change (u" AS target USING (VALUES('") with (u" AS target USING (VALUES(" ++ [39]). rewrite <- !app_assoc.
  eexists. eexists. split; [reflexivity|]. unfold sq. cbn [app]. apply lex_literal_plain; [done|]. by destruct b.
Qed.

Lemma merge_id_injection_witness :
  exists sql rest tail,
    to_sql_from_object (fun _ => []) example_model (u"customer")
      [(u"id", PStr (u"x" ++ sq ++ u"); DROP TABLE t; --"))] None = Some sql /\
    sql = u"MERGE " ++ quote_identifier (u"customer") ++ u" AS target USING (VALUES(" ++ rest /\
    lex_literal rest = Some (u"x", u"); DROP TABLE t; --" ++ tail).
Proof.
  destruct (to_sql_from_object (fun _ => []) example_model (u"customer")
    [(u"id", PStr (u"x" ++ sq ++ u"); DROP TABLE t; --"))] None) as [sql|] eqn:E; [|by vm_compute in E].
  destruct (merge_id_injection (fun _ => []) example_model (u"customer")
    [(u"id", PStr (u"x" ++ sq ++ u"); DROP TABLE t; --"))] None (u"x") (u"); DROP TABLE t; --") sql)
    as (rest & tail & H1 & H2); [by vm_compute|apply (bool_decide_eq_false_1 _); by vm_compute|done|done|exact E|].
  exists sql, rest, tail. done.
Defined.
End Ms.
