(* ===== verification/Tracker.v ===== *)
(** * The key/value stores: eds/tracker and eds/util/cache.py

    The tracker is a table of keys with optional deadlines in SQLite; the cache
    is a dict of values with deadlines in memory.  Both are finite maps here;
    the clock reading of a call is an argument.  SQLite compares keys by the
    bytes of their UTF-8 encoding, and raises for a parameter that has none.

    The theorems: reading back what was set until it expires, and which keys a
    prefix deletion removes. *)
From stdpp Require Import base tactics list option numbers sets strings gmap.
From S2P Require Import Prelude PyStr.

(** ** The order of SQLite's BINARY collation *)

Definition bytes_leb (a b : pystr) : bool := str_leb (utf8_encode a) (utf8_encode b).
Definition bytes_ltb (a b : pystr) : bool := str_ltb (utf8_encode a) (utf8_encode b).

(** two encodings of different characters differ at a byte, in the order of the
    characters *)
Lemma utf8_char_order c d r r' :
  scalar c = true -> scalar d = true -> c < d ->
  str_leb (utf8_char c ++ r) (utf8_char d ++ r') = true /\ str_leb (utf8_char d ++ r') (utf8_char c ++ r) = false.
Proof.
  unfold scalar. intros Hc Hd Hlt. bool_prop.
  destruct (base64_parts c) as (c3 & c2 & c1 & c0 & Ec & ? & ? & ? & ? & E0 & E1 & E2 & E3 & E4 & E5); [lia|].
  destruct (base64_parts d) as (d3 & d2 & d1 & d0 & Ed & ? & ? & ? & ? & F0 & F1 & F2 & F3 & F4 & F5); [lia|].
  unfold utf8_char. rewrite ?E0, ?E1, ?E2, ?E3, ?E4, ?E5, ?F0, ?F1, ?F2, ?F3, ?F4, ?F5.
  clear E0 E1 E2 E3 E4 E5 F0 F1 F2 F3 F4 F5 H H0.
  destruct (Z.ltb_spec c 128); [|destruct (Z.ltb_spec c 2048); [|destruct (Z.ltb_spec c 65536)]];
    (destruct (Z.ltb_spec d 128); [try lia|destruct (Z.ltb_spec d 2048); [try lia|destruct (Z.ltb_spec d 65536); [try lia|]]]).
  all: cbn [app str_leb].
  all: repeat match goal with
       | |- context [?a =? ?b] => destruct (Z.eqb_spec a b)
       end.
  all: rewrite ?Z.ltb_lt, ?Z.ltb_ge; lia.
Qed.

Lemma str_leb_app_eq p a b : str_leb (p ++ a) (p ++ b) = str_leb a b.
Proof. induction p as [|x p IH]; [done|]. simpl. by rewrite Z.eqb_refl. Qed.

(** the byte order of the encodings is the order of the strings *)
Lemma bytes_leb_eq a b :
  Forall (fun c => scalar c = true) a -> Forall (fun c => scalar c = true) b -> bytes_leb a b = str_leb a b.
Proof.
  unfold bytes_leb. intros Ha. revert b. induction Ha as [|c a Hc Ha IH]; intros b Hb; [done|].
  destruct Hb as [|d b Hd Hb].
  { simpl. pose proof (utf8_char_bytes c) as _. unfold utf8_encode. simpl. unfold utf8_char. by repeat case_match. }
  change (utf8_encode (c :: a)) with (utf8_char c ++ utf8_encode a).
  change (utf8_encode (d :: b)) with (utf8_char d ++ utf8_encode b). cbn [str_leb].
  destruct (Z.eqb_spec c d) as [->|Hne]; [rewrite str_leb_app_eq; by apply IH|].
  destruct (Z.lt_total c d) as [Hlt|[Heq|Hlt]]; [|done|].
  - rewrite (proj2 (Z.ltb_lt c d) Hlt). by apply utf8_char_order.
  - assert (c <? d = false) as -> by (apply Z.ltb_ge; lia). by apply utf8_char_order.
Qed.

(** ** The tracker *)

(** the [kv] table: value and deadline of each key *)
Abbreviation Tracker := (gmap pystr (pystr * option Z)).

Definition _deadline (now expires : Z) : option Z := if 0 <? expires then Some (now + expires) else None.

Definition expired (now : Z) (deadline : option Z) : bool :=
  match deadline with Some d => d <? now | None => false end.

Definition get_key (now : Z) (key : pystr) (t : Tracker) : (bool * pystr) * Tracker :=
  match t !! key with
  | None => ((false, []), t)
  | Some (value, deadline) =>
      if expired now deadline then ((false, []), delete key t) else ((true, value), t)
  end.

Definition set_key (now : Z) (key value : pystr) (expires : Z) (t : Tracker) : Tracker :=
  <[key := (value, _deadline now expires)]> t.

Definition set_keys (now : Z) (keys : list pystr) (value : pystr) (expires : Z) (t : Tracker) : Tracker :=
  foldl (fun t k => <[k := (value, _deadline now expires)]> t) t keys.

Definition delete_key (keys : list pystr) (t : Tracker) : Tracker := foldl (fun t k => delete k t) t keys.

(** the smallest string above every string with the prefix; [None] is no bound *)
Definition _prefix_upper_bound (prefix : pystr) : option pystr :=
  match rev prefix with
  | [] => None
  | last :: init => if 1114111 <=? last then None else Some (rev init ++ [last + 1])
  end.

(** a parameter of a statement has to be encodable *)
Definition encodable (s : pystr) : bool := forallb scalar s.

(** [None] is the UnicodeEncodeError; otherwise the number of rows deleted *)
Definition delete_keys_with_prefix (prefix : pystr) (t : Tracker) : option (Z * Tracker) :=
  let upper := _prefix_upper_bound prefix in
  if encodable prefix && match upper with Some b => encodable b | None => true end then
    let doomed k := bytes_leb prefix k && match upper with Some b => bytes_ltb k b | None => true end in
    let t' := filter (fun '(k, _) => doomed k = false) t in
    Some (Z.of_nat (size t) - Z.of_nat (size t'), t')
  else None.

(** ** The cache *)

Record cache_value (A : Type) := mk_value { cv_object : A; cv_expires : Z }.
Arguments mk_value {A} _ _.
Arguments cv_object {A} _.
Arguments cv_expires {A} _.

Abbreviation Cache A := (gmap pystr (cache_value A)).

Definition cache_get {A} (now : Z) (key : pystr) (c : Cache A) : option A * Cache A :=
  match c !! key with
  | None => (None, c)
  | Some v => if cv_expires v <? now then (None, delete key c) else (Some (cv_object v), c)
  end.

Definition cache_set {A} (now : Z) (key : pystr) (val : A) (expires : Z) (c : Cache A) : Cache A :=
  <[key := mk_value val (now + expires)]> c.

(** one round of the sweeper *)
Definition cache_sweep {A} (now : Z) (c : Cache A) : Cache A :=
  filter (fun '(_, v) => cv_expires v <? now = false) c.

(** ** Reading back *)

Lemma get_key_set now now' key value expires t :
  now <= now' ->
  (get_key now' key (set_key now key value expires t)).1 =
  if (0 <? expires) && (now + expires <? now') then (false, []) else (true, value).
Proof.
  intros Hn. unfold get_key, set_key, _deadline. rewrite lookup_insert_eq.
  destruct (0 <? expires); simpl; [|done]. by destruct (now + expires <? now').
Qed.

Lemma set_keys_lookup (now : Z) (keys : list pystr) (value : pystr) (expires : Z) (t : Tracker) (k : pystr) :
  set_keys now keys value expires t !! k =
  if decide (k ∈ keys) then Some (value, _deadline now expires) else t !! k.
Proof.
  unfold set_keys. revert t. induction keys as [|x keys IH]; intros t; simpl; [done|]. rewrite IH.
  destruct (decide (k ∈ keys)); [by rewrite decide_True by set_solver|].
  destruct (decide (k = x)) as [->|Hne]; [by rewrite decide_True, lookup_insert_eq by set_solver|].
  by rewrite decide_False, lookup_insert_ne by set_solver.
Qed.

Lemma delete_key_lookup (keys : list pystr) (t : Tracker) (k : pystr) :
  delete_key keys t !! k = if decide (k ∈ keys) then None else t !! k.
Proof.
  unfold delete_key. revert t. induction keys as [|x keys IH]; intros t; simpl; [done|]. rewrite IH.
  destruct (decide (k ∈ keys)); [by rewrite decide_True by set_solver|].
  destruct (decide (k = x)) as [->|Hne]; [by rewrite decide_True, lookup_delete_eq by set_solver|].
  by rewrite decide_False, lookup_delete_ne by set_solver.
Qed.

(** an operation on one key leaves the others alone *)
Lemma get_key_other now key key' t : key' <> key -> (get_key now key t).2 !! key' = t !! key'.
Proof.
  intros H. unfold get_key. destruct (t !! key) as [[v d]|]; [|done].
  destruct (expired now d); simpl; [by rewrite lookup_delete_ne|done].
Qed.

(** reading a key changes no answer of the tracker *)
Lemma get_key_again now k k' t : (get_key now k' (get_key now k t).2).1 = (get_key now k' t).1.
Proof.
  unfold get_key. destruct (t !! k) as [[v d]|] eqn:Ek; [|done]. destruct (expired now d) eqn:Ed; [|done]. simpl.
  destruct (decide (k' = k)) as [->|Hne]; [by rewrite lookup_delete_eq, Ek, Ed|rewrite lookup_delete_ne by done; destruct (t !! k') as [[v1 d1]|]; [by destruct (expired now d1)|done]].
Qed.

Lemma cache_get_set {A} now now' key (v : A) expires c :
  (cache_get now' key (cache_set now key v expires c)).1 = if now + expires <? now' then None else Some v.
Proof.
  unfold cache_get, cache_set. rewrite lookup_insert_eq. simpl. by destruct (now + expires <? now').
Qed.

Lemma cache_get_set_ne {A} now now' key key' (v : A) expires c :
  key <> key' -> (cache_get now' key' (cache_set now key v expires c)).1 = (cache_get now' key' c).1.
Proof.
  intros H. unfold cache_get, cache_set. rewrite lookup_insert_ne by done.
  destruct (c !! key') as [w|]; [|done]. by destruct (cv_expires w <? now').
Qed.

(** a sweep is invisible to readers: at any later time every key reads as
    it would have read without it. *)
Theorem cache_sweep_invisible {A} (now now' : Z) (key : pystr) (c : Cache A) :
  now <= now' -> (cache_get now' key (cache_sweep now c)).1 = (cache_get now' key c).1.
Proof.
  intros Hn. unfold cache_get, cache_sweep. rewrite map_lookup_filter.
  destruct (c !! key) as [v|] eqn:E; simpl; [|done]. case_guard as G; simpl; [by destruct (cv_expires v <? now')|].
  apply not_false_iff_true in G. apply Z.ltb_lt in G.
  by assert (cv_expires v <? now' = true) as -> by (apply Z.ltb_lt; lia).
Qed.

Lemma cache_sweep_invisible_witness :
  let c := cache_set 0 (u"a") 1 10 (cache_set 0 (u"b") 2 100 ∅) in
  (cache_get 60 (u"b") (cache_sweep 50 c)).1 = Some 2 /\ (cache_get 60 (u"a") (cache_sweep 50 c)).1 = None.
Proof.
  intros c. rewrite (cache_sweep_invisible 50 60 (u"b") c), (cache_sweep_invisible 50 60 (u"a") c) by done.
  by vm_compute.
Defined.

(** ** Prefix deletion *)

Lemma str_range_prefix init last k :
  str_leb (init ++ [last]) k && str_ltb k (init ++ [last + 1]) = startswith (init ++ [last]) k.
Proof.
  unfold str_ltb. revert k. induction init as [|x init IH]; intros k; simpl.
  - destruct k as [|y k]; [done|]. destruct (Z.eqb_spec last y) as [->|Hne].
    + assert (y + 1 =? y = false) as -> by (apply Z.eqb_neq; lia).
      assert (y + 1 <? y = false) as -> by (apply Z.ltb_ge; lia). by destruct k.
    + destruct (Z.ltb_spec last y); [|done]. destruct (Z.eqb_spec (last + 1) y) as [E|Hne']; [done|].
      by assert (last + 1 <? y = true) as -> by (apply Z.ltb_lt; lia).
  - destruct k as [|y k]; [done|]. destruct (Z.eqb_spec x y) as [->|Hne]; [apply IH|].
    destruct (Z.ltb_spec x y); done.
Qed.

(** deleting by prefix removes exactly the keys with the prefix, and
    reports how many, unless the prefix is empty or ends in the last code point
    or in the one before the surrogates. *)
Theorem delete_prefix_exact init last t :
  Forall (fun c => scalar c = true) (init ++ [last; last + 1]) ->
  Forall (fun k => Forall (fun c => scalar c = true) k) (map_to_list t).*1 ->
  exists n t', delete_keys_with_prefix (init ++ [last]) t = Some (n, t') /\
    (forall k, t' !! k = if startswith (init ++ [last]) k then None else t !! k) /\
    n = Z.of_nat (size (filter (fun '(k, _) => startswith (init ++ [last]) k = true) t)).
Proof.
  intros Hp Hk. apply Forall_app in Hp as [Hi Hl]. inversion Hl as [|? ? H1 Hl2]; subst.
  inversion Hl2 as [|? ? H2 _]; subst.
  assert (Forall (fun c => scalar c = true) (init ++ [last])) as Hs1 by (apply Forall_app; auto).
  assert (Forall (fun c => scalar c = true) (init ++ [last + 1])) as Hs2 by (apply Forall_app; auto).
  assert (forall k v, t !! k = Some v -> bytes_leb (init ++ [last]) k && bytes_ltb k (init ++ [last + 1]) =
    startswith (init ++ [last]) k) as Hdoomed.
  { intros k v Hkv%elem_of_map_to_list. rewrite Forall_fmap, Forall_forall in Hk. specialize (Hk _ Hkv). simpl in Hk.
    unfold bytes_ltb, str_ltb. fold (bytes_leb (init ++ [last + 1]) k). rewrite !bytes_leb_eq by done.
    apply str_range_prefix. }
  unfold delete_keys_with_prefix, _prefix_upper_bound. rewrite rev_app_distr. cbn [rev app].
  assert (1114111 <=? last = false) as ->.
  { unfold scalar in H2. bool_prop. apply Z.leb_gt. lia. }
  rewrite rev_involutive. unfold encodable.
  rewrite (proj2 (forallb_Forall _ _) Hs1), (proj2 (forallb_Forall _ _) Hs2). cbn [andb].
  eexists _, _. split; [reflexivity|]. split.
  - intros k. rewrite map_lookup_filter. destruct (t !! k) as [v|] eqn:E; simpl; [|by destruct (startswith _ _)].
    rewrite (Hdoomed k v E). by destruct (startswith _ _).
  - match goal with |- _ - Z.of_nat (size ?f) = _ =>
      assert (f = filter (fun '(k, _) => ~ startswith (init ++ [last]) k = true) t) as -> end.
    { apply map_filter_strong_ext. intros k v. split; intros [Hd Hkv]; (split; [|done]); rewrite (Hdoomed k v Hkv) in *;
        destruct (startswith _ _); naive_solver. }
    rewrite <- (map_filter_union_complement (fun '(k, _) => startswith (init ++ [last]) k = true) t) at 1.
    rewrite map_size_disj_union; [|apply map_disjoint_filter_complement].
    assert (filter (fun v : pystr * (pystr * option Z) => ~ (let '(k, _) := v in startswith (init ++ [last]) k = true)) t
      = filter (fun '(k, _) => ~ startswith (init ++ [last]) k = true) t) as ->; [|lia].
    by apply map_filter_ext; intros k v _.
Qed.

Lemma delete_prefix_exact_witness :
  exists n t', delete_keys_with_prefix (u"s:order:") (set_keys 0 [u"s:order:1"; u"s:orders:1"] (u"x") 0 ∅)
    = Some (n, t') /\ n = 1 /\ t' !! u"s:order:1" = None /\ t' !! u"s:orders:1" = Some (u"x", None).
Proof.
  destruct (delete_prefix_exact (u"s:order") 58
    (set_keys 0 [u"s:order:1"; u"s:orders:1"] (u"x") 0 ∅)) as (n & t' & E & Hk & Hn).
  - apply (bool_decide_eq_true_1 _). by vm_compute.
  - apply (bool_decide_eq_true_1 _). by vm_compute.
  - exists n, t'. split; [exact E|]. rewrite !Hk, Hn. clear E Hk Hn.
    split_and!; vm_compute; reflexivity.
Defined.

(** a prefix that ends in the last code point has no upper bound, and the
    deletion removes every key from the prefix on, whatever it begins with. *)
Theorem delete_prefix_last_code_point init t :
  Forall (fun c => scalar c = true) init ->
  exists n t', delete_keys_with_prefix (init ++ [1114111]) t = Some (n, t') /\
    forall k, Forall (fun c => scalar c = true) k -> str_leb (init ++ [1114111]) k = true -> t' !! k = None.
Proof.
  intros Hi. assert (Forall (fun c => scalar c = true) (init ++ [1114111])) as Hs by (apply Forall_app; auto).
  unfold delete_keys_with_prefix, _prefix_upper_bound. rewrite rev_app_distr. cbn [rev app]. rewrite Z.leb_refl.
  unfold encodable. rewrite (proj2 (forallb_Forall _ _) Hs). cbn [andb].
  eexists _, _. split; [reflexivity|]. intros k Hk Hle. rewrite map_lookup_filter.
  destruct (t !! k) as [v|]; simpl; [|done]. rewrite bytes_leb_eq, Hle by done. done.
Qed.

(** the key of another table goes too *)
Lemma delete_prefix_last_code_point_witness :
  exists n t', delete_keys_with_prefix (u"a" ++ [1114111]) (set_key 0 (u"b") (u"x") 0 ∅) = Some (n, t') /\
    startswith (u"a" ++ [1114111]) (u"b") = false /\ t' !! u"b" = None.
Proof.
  destruct (delete_prefix_last_code_point (u"a") (set_key 0 (u"b") (u"x") 0 ∅)) as (n & t' & E & H).
  - apply (bool_decide_eq_true_1 _). by vm_compute.
  - exists n, t'. split; [exact E|]. clear E. split; [reflexivity|]. apply H; [|reflexivity].
    apply (bool_decide_eq_true_1 _). vm_compute. reflexivity.
Defined.
