(* ===== verification/RegistryApi.v ===== *)
(** * The schema registry: eds/registry

    A read goes through the in-memory cache, the tracker and the API.  The
    registry is built from one response that holds every schema; the tracker
    keeps their JSON without a deadline, the cache entries expire.  The API is
    a parameter: the response to a request, or no response.  The two clocks (the
    monotonic one of the cache, the wall clock of the tracker) are part of the
    state and move between calls.

    [APIRegistry] implements the interface [Registry].  The theorems: a table
    version and a seeded schema stay readable whatever calls and clock changes
    come between, without the API. *)
From stdpp Require Import base tactics list option numbers sets strings gmap.
From S2P Require Import Prelude PyStr PyDict PyFloat GoJson JsonLoads JsonRoundtrip Schema DbChange Interfaces Tracker.

Definition _PREFIX : pystr := u"registry:".
Definition _DEFAULT_CACHE : Z := 86400.

Definition _schema_cache_key (table version : pystr) : pystr := _PREFIX ++ table ++ u"-" ++ version.
Definition _version_cache_key (table : pystr) : pystr := _PREFIX ++ table ++ u":version".

(** what the cache holds under a version key or a schema key *)
Inductive cached : Type :=
| CVersion (v : pystr)
| CSchema (s : Schema).

Record APIRegistry := mk_registry {
  rg_api_url : pystr;
  rg_tracker : option Tracker;
  rg_cache : Cache cached;
  rg_schema : pydict Schema;
  rg_objects : pydict pystr;
  rg_mono : Z;     (** [time.monotonic()], read by the cache *)
  rg_wall : Z      (** [time.time()], read by the tracker *)
}.

Abbreviation RM A := (M APIRegistry registry_error A).

Definition rg_set_cache (c : Cache cached) (r : APIRegistry) : APIRegistry :=
  mk_registry (rg_api_url r) (rg_tracker r) c (rg_schema r) (rg_objects r) (rg_mono r) (rg_wall r).
Definition rg_set_tracker (t : option Tracker) (r : APIRegistry) : APIRegistry :=
  mk_registry (rg_api_url r) t (rg_cache r) (rg_schema r) (rg_objects r) (rg_mono r) (rg_wall r).
Definition rg_set_clock (mono wall : Z) (r : APIRegistry) : APIRegistry :=
  mk_registry (rg_api_url r) (rg_tracker r) (rg_cache r) (rg_schema r) (rg_objects r) mono wall.

(** calls of the cache and of the tracker, when there is one *)
Definition cache_lookup (key : pystr) : RM (option cached) :=
  fun r => let '(v, c) := cache_get (rg_mono r) key (rg_cache r) in (inr v, rg_set_cache c r).
Definition cache_store (key : pystr) (v : cached) (expires : Z) : RM unit :=
  modify (fun r => rg_set_cache (cache_set (rg_mono r) key v expires (rg_cache r)) r).
Definition tracker_lookup (key : pystr) : RM (option pystr) :=
  fun r =>
    match rg_tracker r with
    | None => (inr None, r)
    | Some t =>
        let '((found, v), t') := get_key (rg_wall r) key t in
        (inr (if found then Some v else None), rg_set_tracker (Some t') r)
    end.
Definition tracker_store (key value : pystr) (expires : Z) : RM unit :=
  modify (fun r => rg_set_tracker (set_key (rg_wall r) key value expires <$> rg_tracker r) r).

(** [_decode_schema] *)
Definition _decode_schema (body : pystr) : RM Schema :=
  match json_loads schema_opts body with
  | None => raise RegistryError
  | Some PNone => mret (mk_schema [] [] [] [] [] None)
  | Some (PDict d) => match schema_from_dict d with Some s => mret s | None => raise RegistryError end
  | Some _ => raise RegistryError
  end.

(** [gojson.stringify(schema)] *)
Definition schema_text (s : Schema) : pystr := default [] (schema_gojson s).

Definition get_latest_schema : RM (pydict Schema) := gets rg_schema.

Definition get_table_version (table : pystr) : RM (bool * pystr) :=
  let key := _version_cache_key table in
  hit ← cache_lookup key;
  match hit with
  | Some (CVersion v) => mret (true, v)
  | Some (CSchema _) => raise RegistryError   (** a schema under a version key: not a version *)
  | None =>
      found ← tracker_lookup key;
      match found with
      | Some version => _ ← cache_store key (CVersion version) _DEFAULT_CACHE; mret (true, version)
      | None => mret (false, [])
      end
  end.

Definition set_table_version (table version : pystr) : RM unit :=
  let key := _version_cache_key table in
  _ ← cache_store key (CVersion version) _DEFAULT_CACHE;
  tracker_store key version 0.

Section Api.
(** the response to a GET: status and body; [None] is a transport error *)
Context (request : pystr -> option (Z * pystr)).

(** the fallback request of [get_schema] *)
Definition fetch_schema (table version : pystr) : RM pystr :=
  objects ← gets rg_objects;
  base ← gets rg_api_url;
  let obj := match dict_get table objects with Some (c :: o) => c :: o | _ => table end in
  match request (base ++ u"/v3/schema/" ++ obj ++ u"/" ++ version) with
  | None => raise RegistryError
  | Some (status, body) => if status =? 200 then mret body else raise RegistryError
  end.

Definition get_schema (table version : pystr) : RM Schema :=
  let key := _schema_cache_key table version in
  hit ← cache_lookup key;
  match hit with
  | Some (CSchema s) => mret s
  | Some (CVersion _) => raise RegistryError   (** a version under a schema key: not a schema *)
  | None =>
      found ← tracker_lookup key;
      match found with
      | Some text =>
          schema ← _decode_schema text;
          _ ← cache_store key (CSchema schema) _DEFAULT_CACHE;
          mret schema
      | None =>
          body ← fetch_schema table version;
          schema ← _decode_schema body;
          _ ← cache_store key (CSchema schema) _DEFAULT_CACHE;
          _ ← tracker_store key (schema_text schema) 0;
          mret schema
      end
  end.

#[export] Instance api_registry : Registry APIRegistry := {|
  reg_get_latest_schema := get_latest_schema;
  reg_get_schema := get_schema;
  reg_get_table_version := get_table_version;
  reg_set_table_version := set_table_version
|}.

(** ** Construction *)

Definition _sort_table (by_object : pydict Schema) : pydict Schema * pydict pystr :=
  foldl (fun '(kv, otm) '(obj, d) => (dict_set (sc_table d) d kv, dict_set (sc_table d) obj otm))
    ([], []) by_object.

Definition _decode_schema_map (body : pystr) : option (pydict Schema) :=
  match json_loads schema_opts body with
  | Some PNone => Some []
  | Some (PDict raw) =>
      mapM (fun '(obj, v) => match v with PDict d => (fun s => (obj, s)) <$> schema_from_dict d | _ => None end) raw
  | _ => None
  end.

Definition seed_one (s : Schema) : RM unit :=
  let key := _schema_cache_key (sc_table s) (sc_model_version s) in
  _ ← tracker_store key (schema_text s) 0;
  _ ← tracker_store (_version_cache_key (sc_table s)) (sc_model_version s) 0;
  cache_store key (CSchema s) 0.

(** the response is the one the retrying request ends with *)
Definition new_api_registry (api_url : pystr) (response : option (Z * pystr)) (tracker : option Tracker)
    (mono wall : Z) : option APIRegistry :=
  match response with
  | None => None
  | Some (status, body) =>
      if status =? 200 then
        by_object ← _decode_schema_map body;
        let '(schema, objects) := _sort_table by_object in
        let r := mk_registry api_url tracker ∅ schema objects mono wall in
        Some (for_each seed_one (schema.*2) r).2
      else None
  end.

(** ** Runs *)

(** the calls of the clients, and time passing; the sweeper runs at any time *)
Inductive reg_op : Type :=
| RVersion (table : pystr)
| RSetVersion (table version : pystr)
| RSchema (table version : pystr)
| RClock (mono wall : Z)
| RSweep.

Definition reg_step (op : reg_op) (r : APIRegistry) : APIRegistry :=
  match op with
  | RVersion table => (get_table_version table r).2
  | RSetVersion table version => (set_table_version table version r).2
  | RSchema table version => (get_schema table version r).2
  | RClock mono wall => rg_set_clock mono wall r
  | RSweep => rg_set_cache (cache_sweep (rg_mono r) (rg_cache r)) r
  end.

Definition reg_run (ops : list reg_op) (r : APIRegistry) : APIRegistry := foldl (fun r op => reg_step op r) r ops.
End Api.

(** ** One key *)

(** the tracker keeps [text] under the key for good, and the cache holds
    nothing else than an allowed value there *)
Definition key_inv (key text : pystr) (allowed : cached -> Prop) (r : APIRegistry) : Prop :=
  (exists t, rg_tracker r = Some t /\ t !! key = Some (text, None)) /\
  (forall v, rg_cache r !! key = Some v -> allowed (cv_object v)).

Section key_invariant.
Context (key text : pystr) (allowed : cached -> Prop).
Abbreviation inv := (key_inv key text allowed).

Lemma inv_cache_lookup k r : inv r -> inv (cache_lookup k r).2 /\
  (k = key -> forall v, (cache_lookup k r).1 = inr (Some v) -> allowed v).
Proof.
  intros [Ht Hc]. unfold cache_lookup, cache_get. destruct (rg_cache r !! k) as [v|] eqn:E.
  2: { simpl. split; [by split|done]. }
  destruct (cv_expires v <? rg_mono r); simpl.
  - split; [|done]. split; [done|]. intros w Hw. simpl in Hw. apply lookup_delete_Some in Hw as [_ Hw]. by apply Hc.
  - split; [by split|]. intros -> w [= <-]. by apply Hc.
Qed.

Lemma inv_cache_store k v e r : inv r -> (k = key -> allowed v) -> inv (cache_store k v e r).2.
Proof.
  intros [Ht Hc] Hv. split; [done|]. simpl. intros w Hw. unfold cache_set in Hw.
  apply lookup_insert_Some in Hw as [[-> <-]|[_ Hw]]; [by apply Hv|by apply Hc].
Qed.

Lemma inv_tracker_lookup k r : inv r -> inv (tracker_lookup k r).2 /\
  (k = key -> (tracker_lookup k r).1 = inr (Some text)).
Proof.
  intros [(t & Et & Hk) Hc]. unfold tracker_lookup. rewrite Et. unfold get_key.
  destruct (decide (k = key)) as [->|Hne].
  - rewrite Hk. simpl. split; [|done]. split; [|done]. simpl. eauto.
  - split; [|done]. destruct (t !! k) as [[w d]|]; [|by split; [simpl; eauto|]].
    destruct (expired _ d); simpl; (split; [|done]); simpl; eauto.
    exists (delete k t). split; [done|]. by rewrite lookup_delete_ne.
Qed.

Lemma inv_tracker_store k v e r :
  inv r -> (k = key -> v = text /\ e = 0) -> inv (tracker_store k v e r).2.
Proof.
  intros [(t & Et & Hk) Hc] Hv. split; [|done]. simpl. rewrite Et. simpl. eexists. split; [done|].
  unfold set_key. destruct (decide (k = key)) as [->|Hne]; [|by rewrite lookup_insert_ne].
  destruct (Hv eq_refl) as [-> ->]. by rewrite lookup_insert_eq.
Qed.
End key_invariant.

Section key_steps.
Context (request : pystr -> option (Z * pystr)).
Context (key text : pystr) (allowed : cached -> Prop).
Abbreviation inv := (key_inv key text allowed).

(** the calls that can touch the key only store what it allows *)
Definition op_ok (op : reg_op) : Prop :=
  match op with
  | RVersion t => _version_cache_key t = key -> allowed (CVersion text)
  | RSetVersion t _ => _version_cache_key t <> key
  | RSchema t v => _schema_cache_key t v = key ->
                   forall s r r', _decode_schema text r = (inr s, r') -> allowed (CSchema s)
  | RClock _ _ | RSweep => True
  end.

Lemma decode_state body r : (_decode_schema body r).2 = r.
Proof. unfold _decode_schema. by repeat case_match. Qed.

Lemma fetch_state table version r : (fetch_schema request table version r).2 = r.
Proof. unfold fetch_schema, mbind, M_bind, gets. by repeat case_match. Qed.

Lemma inv_get_table_version t r :
  inv r -> op_ok (RVersion t) -> inv (get_table_version t r).2.
Proof.
  intros Hr Hok. unfold get_table_version, mbind, M_bind. set (k := _version_cache_key t) in *.
  destruct (inv_cache_lookup key text allowed k r Hr) as [H1 _].
  destruct (cache_lookup k r) as [[e|[[v|s]|]] r1]; try done.
  destruct (inv_tracker_lookup key text allowed k r1 H1) as [H2 H2k].
  destruct (tracker_lookup k r1) as [[e|[v|]] r2]; try done.
  apply inv_cache_store; [done|]. intros Hk. specialize (H2k Hk). simpl in H2k. injection H2k as ->. by apply Hok.
Qed.

Lemma inv_get_schema t v r :
  inv r -> op_ok (RSchema t v) -> inv (get_schema request t v r).2.
Proof.
  intros Hr Hok. unfold get_schema, mbind, M_bind. set (k := _schema_cache_key t v) in *.
  destruct (inv_cache_lookup key text allowed k r Hr) as [H1 _].
  destruct (cache_lookup k r) as [[e|[[w|s]|]] r1]; try done.
  destruct (inv_tracker_lookup key text allowed k r1 H1) as [H2 H2k].
  destruct (tracker_lookup k r1) as [[e|[w|]] r2]; try done; simpl in H2.
  - pose proof (decode_state w r2) as Hd. destruct (_decode_schema w r2) as [[e|s] r3] eqn:Ed; simpl in Hd; subst r3; [done|].
    apply inv_cache_store; [done|]. intros Hk. specialize (H2k Hk). simpl in H2k. injection H2k as ->. by eapply Hok.
  - pose proof (fetch_state t v r2) as Hf.
    destruct (fetch_schema request t v r2) as [[e|body] r3]; simpl in Hf; subst r3; [done|].
    pose proof (decode_state body r2) as Hd. destruct (_decode_schema body r2) as [[e|s] r3] eqn:Ed; simpl in Hd; subst r3; [done|].
    assert (k <> key) as Hne by (intros Hk; by specialize (H2k Hk)).
    assert (inv (cache_store k (CSchema s) _DEFAULT_CACHE r2).2) as H3 by (by apply inv_cache_store).
    apply (inv_tracker_store key text allowed k (schema_text s) 0) in H3; done.
Qed.

Lemma inv_step op r : inv r -> op_ok op -> inv (reg_step request op r).
Proof.
  intros Hr Hok. destruct op as [t|t v|t v|m w|]; simpl.
  - by apply inv_get_table_version.
  - unfold set_table_version, mbind, M_bind.
    assert (inv (cache_store (_version_cache_key t) (CVersion v) _DEFAULT_CACHE r).2) as H1 by (by apply inv_cache_store).
    apply (inv_tracker_store key text allowed (_version_cache_key t) v 0) in H1; done.
  - by apply inv_get_schema.
  - done.
  - destruct Hr as [Ht Hc]. split; [done|]. simpl. intros x Hx. unfold cache_sweep in Hx.
    apply map_lookup_filter_Some in Hx as [Hx _]. by apply Hc.
Qed.

Lemma inv_run ops r : inv r -> Forall op_ok ops -> inv (reg_run request ops r).
Proof.
  intros Hr Hok. revert r Hr. induction Hok as [|op ops Hop Hok IH]; intros r Hr; [done|].
  simpl. apply IH. by apply inv_step.
Qed.
End key_steps.

(** ** Key spaces *)

Lemma version_key_inj t t' : _version_cache_key t = _version_cache_key t' -> t = t'.
Proof.
  unfold _version_cache_key. intros H. apply (inj (app _PREFIX)) in H. by apply app_inv_tail in H.
Qed.

(** a schema key is no version key when the version holds no colon *)
Lemma schema_key_not_version t v t' : 58 ∉ v -> _schema_cache_key t v <> _version_cache_key t'.
Proof.
  unfold _schema_cache_key, _version_cache_key. intros Hv H. apply (inj (app _PREFIX)) in H.
  change (u"-" ++ v) with (45 :: v) in H. change (u":version") with (58 :: u"version") in H.
  apply app_eq_inv in H as [(k & -> & H)|(k & -> & H)].
  - destruct k as [|c k]; [done|].
    assert (u"version" = k ++ 45 :: v) as H' by (by injection H).
    assert (45 ∈ u"version") as Hin by (rewrite H'; set_solver).
    by apply (bool_decide_eq_false_1 (45 ∈ u"version")) in Hin.
  - destruct k as [|c k]; [done|].
    assert (v = k ++ 58 :: u"version") as -> by (by injection H). apply Hv. set_solver.
Qed.

(** ** The theorems *)

(** the versions asked for hold no colon *)
Definition plain_versions (op : reg_op) : Prop := match op with RSchema _ v => 58 ∉ v | _ => True end.

(** a table version that was set is read back after any calls for any
    tables, sweeps and clock changes, as long as nobody sets it again; the API
    is not asked. *)
Theorem table_version_persists request table version ops r :
  rg_tracker r <> None ->
  Forall plain_versions ops -> Forall (fun op => forall v, op <> RSetVersion table v) ops ->
  (get_table_version table (reg_run request ops (set_table_version table version r).2)).1 = inr (true, version).
Proof.
  intros Ht Hp Hs. set (key := _version_cache_key table). set (allowed := fun v => v = CVersion version).
  assert (key_inv key version allowed (reg_run request ops (set_table_version table version r).2)) as Hi.
  { apply inv_run.
    - destruct (rg_tracker r) as [t|] eqn:Et; [|done]. split.
      + simpl. rewrite Et. simpl. eexists. split; [done|]. unfold set_key. by rewrite lookup_insert_eq.
      + simpl. intros v Hv. unfold cache_set in Hv. rewrite lookup_insert_eq in Hv. by injection Hv as <-.
    - rewrite Forall_forall in *. intros op Hop. specialize (Hp op Hop). specialize (Hs op Hop).
      destruct op as [t|t v|t v|m w|]; simpl in *; try done.
      + intros E. apply version_key_inj in E as ->. by eapply Hs.
      + intros E. by apply schema_key_not_version in E. }
  revert Hi. generalize (reg_run request ops (set_table_version table version r).2). intros r' Hi.
  unfold get_table_version, mbind, M_bind. fold key.
  destruct (inv_cache_lookup _ _ _ key r' Hi) as [H1 Ha].
  destruct (cache_lookup key r') as [[e|[v|]] r1] eqn:E1.
  - unfold cache_lookup in E1. by destruct (cache_get _ _ _).
  - specialize (Ha eq_refl v eq_refl). unfold allowed in Ha. by subst v.
  - destruct (inv_tracker_lookup _ _ _ key r1 H1) as [_ Hk]. specialize (Hk eq_refl).
    destruct (tracker_lookup key r1) as [x r2]. simpl in Hk. by subst x.
Qed.

(** what is decoded from the text of a schema *)
Lemma decode_text s r : schema_ok s = true -> _decode_schema (schema_text s) r = (inr (norm_schema s), r).
Proof.
  intros Hok. destruct (marshal_wire schema_opts true _ Hok) as (t & Hm & Hl).
  unfold _decode_schema, schema_text, schema_gojson, gojson_struct. rewrite Hm. cbn [default from_option id].
  change (json_loads schema_opts t = Some (PDict (wire_fields (raw_value schema_opts) (schema_fields s)))) in Hl.
  rewrite Hl. cbv beta iota. by rewrite schema_from_wire.
Qed.

(** a schema the registry was seeded with is served from then on, after
    any calls, sweeps and clock changes, and without the API: as it was while
    the cache entry lives, and as its JSON round trip afterwards. *)
Theorem seeded_schema_stable request s ops r :
  schema_ok s = true -> 58 ∉ sc_model_version s ->
  rg_tracker r <> None ->
  exists s', (get_schema request (sc_table s) (sc_model_version s) (reg_run request ops (seed_one s r).2)).1 = inr s' /\
    (s' = s \/ s' = norm_schema s).
Proof.
  intros Hok Hv Ht. set (key := _schema_cache_key (sc_table s) (sc_model_version s)) in *.
  set (allowed := fun v => v = CSchema s \/ v = CSchema (norm_schema s)).
  assert (forall t, _version_cache_key t <> key) as Hvk by (intros t E; by apply (schema_key_not_version (sc_table s) (sc_model_version s) t Hv)).
  assert (key_inv key (schema_text s) allowed (reg_run request ops (seed_one s r).2)) as Hi.
  { apply inv_run.
    - destruct (rg_tracker r) as [t|] eqn:Et; [|done]. split.
      + simpl. rewrite Et. simpl. eexists. split; [done|]. unfold set_key. fold key.
        rewrite lookup_insert_ne by done. by rewrite lookup_insert_eq.
      + simpl. intros v Hw. unfold cache_set in Hw. fold key in Hw. rewrite lookup_insert_eq in Hw.
        injection Hw as <-. by left.
    - apply Forall_forall. intros op _. destruct op as [t|t v|t v|m w|]; simpl; try done.
      + by intros E%Hvk.
      + intros _ s' r1 r2. rewrite decode_text by done. intros [= <- _]. by right. }
  revert Hi. generalize (reg_run request ops (seed_one s r).2). intros r' Hi.
  unfold get_schema, mbind, M_bind. fold key.
  destruct (inv_cache_lookup _ _ _ key r' Hi) as [H1 Ha].
  destruct (cache_lookup key r') as [[e|[v|]] r1] eqn:E1.
  - unfold cache_lookup in E1. by destruct (cache_get _ _ _).
  - destruct (Ha eq_refl v eq_refl) as [->| ->]; simpl; eauto.
  - destruct (inv_tracker_lookup _ _ _ key r1 H1) as [_ Hk]. specialize (Hk eq_refl).
    destruct (tracker_lookup key r1) as [x r2]. simpl in Hk. subst x. rewrite decode_text by done. simpl. eauto.
Qed.

(** ** On a concrete registry *)

Definition offline (url : pystr) : option (Z * pystr) := None.

Definition fresh_registry : APIRegistry := mk_registry (u"https://api") (Some ∅) ∅ [] [] 0 0.

Definition busy : list reg_op :=
  [RClock 1 1; RVersion (u"t"); RSchema (u"t") (u"v1"); RSetVersion (u"o") (u"9"); RClock 100000 100000; RSweep].

Lemma table_version_persists_witness :
  (get_table_version (u"t") (reg_run offline busy (set_table_version (u"t") (u"7") fresh_registry).2)).1
  = inr (true, u"7").
Proof.
  apply (table_version_persists offline (u"t") (u"7") busy fresh_registry); [done| |].
  - repeat constructor. apply (bool_decide_eq_false_1 _). by vm_compute.
  - repeat constructor; intros v [=].
Defined.

Lemma seeded_schema_stable_witness :
  (get_schema offline (u"t") (u"v1") (reg_run offline busy (seed_one sample_schema fresh_registry).2)).1
  = inr (norm_schema sample_schema) /\
  exists s', (get_schema offline (u"t") (u"v1") (reg_run offline busy (seed_one sample_schema fresh_registry).2)).1
    = inr s' /\ (s' = sample_schema \/ s' = norm_schema sample_schema).
Proof.
  split; [vm_compute; reflexivity|].
  apply (seeded_schema_stable offline sample_schema busy fresh_registry); [by vm_compute| |done].
  apply (bool_decide_eq_false_1 _). by vm_compute.
Defined.
