(* ===== verification/Snowflake.v ===== *)
(** * Snowflake: eds/drivers/snowflake/sql.py and snowflake.py

    The SQL builders ([Sf]), the pure planning of a flush and the driver, which
    batches records, sorts and combines them, executes one multi-statement query
    and keeps the keys of recent inserts in the tracker.  Timing statistics and
    log lines are left out.  [None] in a builder is an exception.

    The theorems: when a string literal is read back, what a plan contains, and
    what a flush executes, remembers and forgets. *)
From stdpp Require Import base tactics list option numbers sets strings gmap.
From S2P Require Import Prelude PyStr PyDict PyFloat GoFloat GoJson JsonLoads Schema DbChange Interfaces Batcher Optimize SqlUtil SqlLex SqlBase Tracker.

Module Sf.

Definition quote_identifier : pystr -> pystr := util_quote_identifier.

Definition wrap (fn res : pystr) : pystr := match fn with [] => res | _ => fn ++ u"(" ++ res ++ u")" end.

Definition quote_string (val fn : pystr) : pystr :=
  if str_eqb val (u"NULL") then u"NULL"
  else
    let escaped := replace_char 39 (sq ++ sq) (replace_char 92 (bsl ++ bsl) val) in
    wrap fn (sq ++ escaped ++ sq).

Definition quote_value (value : pyobj) (fn : pystr) : pystr :=
  match value with
  | PNone => u"NULL"
  | PBool b => if b then u"true" else u"false"
  | PFloat f => format_f f
  | PInt n => str_of_Z n
  | PStr s => quote_string s fn
  | _ => quote_string (stringify value) fn
  end.

Definition generate_insert_function (prop : SchemaProperty) : pystr :=
  if str_eqb (sp_type prop) (u"object") then u"PARSE_JSON"
  else if str_eqb (sp_type prop) (u"array") then
    match sp_items prop with
    | Some i => if str_in (it_type i) [u"object"; u"string"] then u"PARSE_JSON" else u"TO_VARIANT"
    | None => u"TO_VARIANT"
    end
  else [].

Definition nullable_value (c : SchemaProperty) (wrapped : bool) : pystr :=
  let t := sp_type c in
  if sp_nullable c then u"NULL"
  else if str_eqb t (u"object") then (if wrapped then u"PARSE_JSON('{}')" else u"'{}'")
  else if str_eqb t (u"array") then (if wrapped then u"PARSE_JSON('[]')" else u"'[]'")
  else if str_in t [u"number"; u"integer"] then u"0"
  else if str_eqb t (u"boolean") then u"false"
  else u"''".

Definition to_delete_sql (record : BRecord) : pystr :=
  u"DELETE FROM " ++ quote_identifier (r_table record) ++ u" WHERE " ++ quote_identifier (u"id") ++ u"="
  ++ quote_value (PStr (r_id record)) [] ++ u";" ++ nl.

(** [(record.event.get_object() if record.event is not None else None) or {}] *)
Definition event_object (record : BRecord) : option (pydict pyobj) :=
  match r_event record with
  | None => Some []
  | Some e => import_object e
  end.

Definition to_merge_sql (record : BRecord) (model : Schema) : option pystr :=
  let columns := schema_columns model in
  let obj := default [] (r_object record) in
  let value name v := quote_value v (generate_insert_function (prop_of model name)) in
  let update_values := omap (fun name =>
    (fun v => quote_identifier name ++ u"=" ++ value name v) <$> dict_get name obj) columns in
  let insert_vals := (fun name =>
    match dict_get name obj with
    | Some v => value name v
    | None => nullable_value (prop_of model name) true
    end) <$> columns in
  after ← event_object record;
  let updated_date := default PNone (dict_get (u"updatedDate") after) in
  let qi_id := quote_identifier (u"id") in
  let qi_ud := quote_identifier (u"updatedDate") in
  Some (u"MERGE INTO " ++ quote_identifier (r_table record) ++ u" AS target USING (SELECT "
        ++ quote_value (PStr (r_id record)) [] ++ u" AS " ++ qi_id ++ u", "
        ++ quote_value updated_date [] ++ u" AS " ++ qi_ud ++ u") AS source "
        ++ u"ON target." ++ qi_id ++ u" = source." ++ qi_id ++ u" "
        ++ u"WHEN MATCHED AND source." ++ qi_ud ++ u" > target." ++ qi_ud ++ u" THEN UPDATE SET "
        ++ join (u",") update_values ++ u" "
        ++ u"WHEN NOT MATCHED THEN INSERT (" ++ join (u",") (quote_identifier <$> columns) ++ u") VALUES ("
        ++ join (u",") insert_vals ++ u");" ++ nl).

Definition to_sql (record : BRecord) (model : Schema) (exists_ : bool) : option (pystr * Z) :=
  let is_delete := str_eqb (r_operation record) (u"DELETE") in
  let '(sql, count) := if exists_ || is_delete then (to_delete_sql record, 1) else ([], 0) in
  if is_delete then Some (sql, count)
  else m ← to_merge_sql record model; Some (sql ++ m, count + 1).

(** ** DDL *)

Definition prop_type_to_sql_type (prop : SchemaProperty) : pystr :=
  let t := sp_type prop in
  if str_eqb t (u"string") then
    if str_eqb (sp_format prop) (u"date-time") then u"TIMESTAMP_NTZ" else u"STRING"
  else if str_eqb t (u"integer") then u"INTEGER"
  else if str_eqb t (u"number") then u"FLOAT"
  else if str_eqb t (u"boolean") then u"BOOLEAN"
  else if str_eqb t (u"object") then u"STRING"
  else if str_eqb t (u"array") then
    match sp_items prop with
    | Some (mk_items _ (Some _) _) => u"STRING"
    | _ => u"VARIANT"
    end
  else u"STRING".

Definition column_line (model : Schema) (not_null : bool) (name : pystr) : pystr :=
  tab ++ quote_identifier name ++ u" " ++ prop_type_to_sql_type (prop_of model name)
  ++ (if not_null then u" NOT NULL" else []) ++ u"," ++ nl.

Definition create_sql (s : Schema) : pystr :=
  let lines := (fun name =>
    column_line s (str_in name (sc_required s) && negb (sp_nullable (prop_of s name))) name)
    <$> schema_columns s in
  let body := concat lines ++
    match sc_primary_keys s with
    | [] => []
    | pks => tab ++ u"PRIMARY KEY (" ++ join (u", ") (quote_identifier <$> pks) ++ u")"
    end in
  u"CREATE OR REPLACE TABLE " ++ quote_identifier (sc_table s) ++ u" (" ++ nl ++ body ++ nl ++ u");" ++ nl.

Definition add_new_columns_sql (columns : list pystr) (s : Schema) (db : DatabaseSchema) : list pystr :=
  omap (fun column =>
    if (db_get_type db (sc_table s) column).1 then None
    else Some (u"ALTER TABLE " ++ quote_identifier (sc_table s) ++ u" ADD COLUMN "
               ++ quote_identifier column ++ u" " ++ prop_type_to_sql_type (prop_of s column) ++ u";"))
    columns.

(** ** Append mode *)

(** [keys[i] if i < len(keys) else record.id] for a primary key column *)
Definition append_vals (record : BRecord) (model : Schema) : list pystr :=
  let columns := schema_columns model in
  if str_eqb (r_operation record) (u"DELETE") then
    let keys := default [] (e ← r_event record; ev_key e) in
    (fun name =>
      if str_in name (sc_primary_keys model)
      then quote_value (PStr (default (r_id record) (key_of name (sc_primary_keys model) keys))) []
      else u"NULL") <$> columns
  else
    let obj := default [] (r_object record) in
    (fun name =>
      match dict_get name obj with
      | Some v => quote_value v (generate_insert_function (prop_of model name))
      | None => u"NULL"
      end) <$> columns.

Definition to_append_sql (record : BRecord) (model : Schema) : pystr :=
  let vals := append_vals record model
    ++ [quote_value (PStr (r_operation record)) [];
        match r_event record with
        | Some e => match ev_mvcc_timestamp e with Some (x :: t) => x :: t | _ => u"NULL" end
        | None => u"NULL"
        end;
        match r_event record with Some e => str_of_Z (ev_timestamp e) | None => u"0" end] in
  let cols := join (u",") (quote_identifier <$> schema_columns model ++ [_EDS_OPERATION; _EDS_MVCC; _EDS_TIMESTAMP]) in
  u"INSERT INTO " ++ quote_identifier (r_table record) ++ u" (" ++ cols ++ u")" ++ nl
  ++ u"SELECT " ++ join (u",") vals ++ u";" ++ nl.

Definition create_append_sql (s : Schema) : pystr :=
  let lines := (fun name => column_line s (str_in name (sc_primary_keys s)) name) <$> schema_columns s in
  let body := concat lines
    ++ tab ++ quote_identifier _EDS_SEQ ++ u" NUMBER AUTOINCREMENT," ++ nl
    ++ tab ++ quote_identifier _EDS_OPERATION ++ u" STRING NOT NULL," ++ nl
    ++ tab ++ quote_identifier _EDS_MVCC ++ u" NUMBER(38,10)," ++ nl
    ++ tab ++ quote_identifier _EDS_TIMESTAMP ++ u" NUMBER," ++ nl
    ++ tab ++ quote_identifier _EDS_APPENDED_AT ++ u" TIMESTAMP_LTZ DEFAULT CURRENT_TIMESTAMP()," ++ nl
    ++ tab ++ u"PRIMARY KEY (" ++ quote_identifier _EDS_SEQ ++ u")" in
  u"CREATE OR REPLACE TABLE " ++ quote_identifier (sc_table s) ++ u" (" ++ nl ++ body ++ nl ++ u");" ++ nl.

Definition create_current_view_sql (s : Schema) : pystr :=
  let obj_lines := join (u"," ++ nl) ((fun c => tab ++ quote_identifier c) <$> schema_columns s) in
  let partition := join (u",") (quote_identifier <$> sc_primary_keys s) in
  let order_by := join (u", ") [quote_identifier _EDS_MVCC ++ u" DESC NULLS LAST";
                                quote_identifier _EDS_TIMESTAMP ++ u" DESC"; quote_identifier _EDS_SEQ ++ u" DESC"] in
  u"CREATE OR REPLACE VIEW " ++ quote_identifier (sc_table s ++ u"_current") ++ u" AS" ++ nl
  ++ u"SELECT" ++ nl ++ obj_lines ++ nl
  ++ u"FROM " ++ quote_identifier (sc_table s) ++ nl
  ++ u"QUALIFY ROW_NUMBER() OVER (" ++ nl
  ++ tab ++ u"PARTITION BY " ++ partition ++ nl
  ++ tab ++ u"ORDER BY " ++ order_by ++ nl
  ++ u") = 1" ++ nl
  ++ tab ++ u"AND " ++ quote_identifier _EDS_OPERATION ++ u" <> 'DELETE';" ++ nl.

Definition create_timeline_view_sql (s : Schema) : pystr :=
  let obj_lines := concat ((fun c => tab ++ quote_identifier c ++ u"," ++ nl) <$> schema_columns s) in
  let partition := join (u",") (quote_identifier <$> sc_primary_keys s) in
  let order_by := join (u", ") [quote_identifier _EDS_MVCC ++ u" ASC"; quote_identifier _EDS_TIMESTAMP ++ u" ASC";
                                quote_identifier _EDS_SEQ ++ u" ASC"] in
  u"CREATE OR REPLACE VIEW " ++ quote_identifier (sc_table s ++ u"_timeline") ++ u" AS" ++ nl
  ++ u"SELECT" ++ nl ++ obj_lines
  ++ tab ++ quote_identifier _EDS_OPERATION ++ u"," ++ nl
  ++ tab ++ quote_identifier _EDS_MVCC ++ u" AS " ++ quote_identifier (u"valid_from") ++ u"," ++ nl
  ++ tab ++ u"LEAD(" ++ quote_identifier _EDS_MVCC ++ u") OVER (" ++ nl
  ++ tab ++ tab ++ u"PARTITION BY " ++ partition ++ nl
  ++ tab ++ tab ++ u"ORDER BY " ++ order_by ++ nl
  ++ tab ++ u") AS " ++ quote_identifier (u"valid_to") ++ nl
  ++ u"FROM " ++ quote_identifier (sc_table s) ++ u";" ++ nl.

(** ** Reading a string back *)

Section literal.
(** what the database reads for a backslash sequence: a doubled backslash is one *)
Context (sequence : Z -> pystr) (sequence_backslash : sequence 92 = [92]).

Fixpoint lex_string (s : pystr) : option (pystr * pystr) :=
  match s with
  | [] => None
  | c :: r =>
      if c =? 92 then
        match r with
        | d :: r' => prod_map (app (sequence d)) id <$> lex_string r'
        | [] => None
        end
      else if c =? 39 then
        match r with
        | d :: r' => if d =? 39 then prod_map (cons 39) id <$> lex_string r' else Some ([], r)
        | [] => Some ([], [])
        end
      else prod_map (cons c) id <$> lex_string r
  end.

Definition lex_literal (s : pystr) : option (pystr * pystr) :=
  if head_is 39 s then lex_string (drop 1 s) else None.

Lemma lex_string_escaped s rest :
  head_is 39 rest = false ->
  lex_string (replace_char 39 (sq ++ sq) (replace_char 92 (bsl ++ bsl) s) ++ 39 :: rest) = Some (s, rest).
Proof.
  intros Hr. induction s as [|c s IH].
  - simpl. destruct rest as [|d r]; [done|]. simpl in Hr. by rewrite Hr.
  - unfold replace_char in *. cbn [flat_map]. rewrite flat_map_app, <- app_assoc.
    destruct (Z.eqb_spec c 92) as [->|H92].
    + change (flat_map (fun x => if x =? 39 then sq ++ sq else [x]) (bsl ++ bsl)) with [92; 92].
      cbn [app lex_string]. rewrite Z.eqb_refl, IH, sequence_backslash. done.
    + cbn [flat_map app]. rewrite app_nil_r. destruct (Z.eqb_spec c 39) as [->|H39].
      * change (sq ++ sq) with [39; 39]. cbn [app lex_string].
        change (39 =? 92) with false. change (39 =? 39) with true. cbv iota. change (sq ++ sq) with [39; 39] in IH.
        rewrite IH. done.
      * cbn [app lex_string]. destruct (Z.eqb_spec c 92); [done|]. destruct (Z.eqb_spec c 39); [done|].
        rewrite IH. done.
Qed.

(** Snowflake reads a quoted string back as itself, whatever its
    characters, with one exception: the string [NULL] is written as the keyword
    and becomes a null. *)
Theorem snowflake_string_reads_back s rest :
  head_is 39 rest = false ->
  lex_literal (quote_string s [] ++ rest) = Some (s, rest) <-> s <> u"NULL".
Proof.
  intros Hr. unfold quote_string, str_eqb. case_bool_decide as E.
  - split; [by rewrite E|done].
  - split; [done|]. intros _. unfold wrap, lex_literal. rewrite <- !app_assoc.
    change (head_is 39 (sq ++ _)) with true. cbv iota. change (drop 1 (sq ++ ?x)) with x.
    by apply lex_string_escaped.
Qed.
End literal.

Lemma snowflake_string_reads_back_witness :
  lex_literal (fun d => [d]) (quote_string (u"it's a" ++ bsl ++ u"b") [] ++ u",") = Some (u"it's a" ++ bsl ++ u"b", u",") /\
  quote_string (u"NULL") [] = u"NULL".
Proof.
  split; [|done].
  apply (snowflake_string_reads_back (fun d => [d]) eq_refl (u"it's a" ++ bsl ++ u"b") (u",") eq_refl). by vm_compute.
Defined.
End Sf.

(** ** The plan of a flush *)

Record FlushPlan := mk_plan {
  fp_query : pystr;
  fp_statement_count : Z;
  fp_cache_keys : list pystr;
  fp_delete_keys : list pystr
}.

Definition tracker_key (record : BRecord) : pystr := u"snowflake:" ++ r_table record ++ u":" ++ r_id record.

(** an update that changes nothing but [updatedDate] and [meta] *)
Definition update_noise (diff : list pystr) : bool :=
  match diff with
  | [] => true
  | [d] => str_eqb d (u"updatedDate")
  | [_; _] => str_in (u"updatedDate") diff && str_in (u"meta") diff
  | _ => false
  end.

Class SnowflakeDb (DB : Type) := {
  sfdb_query_single_value : pystr -> method DB unit pystr;
  sfdb_build_schema : pystr -> pystr -> bool -> method DB unit DatabaseSchema;
  sfdb_exec_multi_statement : pystr -> Z -> method DB unit Z;
  sfdb_exec : pystr -> method DB unit unit
}.

(** the exceptions of the driver *)
Inductive sf_error : Type := SfStopped | SfEvent | SfBuild | SfRegistry | SfTracker | SfDb.

Definition _MAX_BATCH_SIZE : Z := 200.
Definition _CACHE_TTL_SECONDS : Z := 24 * 3600.

Section Driver.
Context {DB R : Type} `{sfdb : !SnowflakeDb DB} `{reg : !Registry R}.

Record SF := mk_sf {
  sf_db : DB;
  sf_open : bool;                   (** [_db is not None] *)
  sf_registry : R;
  sf_tracker : Tracker;
  sf_wall : Z;                      (** the clock of the tracker *)
  sf_batcher : list BRecord;
  sf_dbname : pystr;
  sf_schema_name : pystr;
  sf_dbschema : DatabaseSchema;
  sf_session_id : pystr;
  sf_sequence : Z;
  sf_stopped : bool;
  sf_mode : IngestMode;
  sf_executed : list (pystr * Z)    (** the queries the database accepted, in order *)
}.

Abbreviation SFM A := (M SF sf_error A).

Definition sf_set_db (d : DB) (o : bool) (s : SF) : SF :=
  mk_sf d o (sf_registry s) (sf_tracker s) (sf_wall s) (sf_batcher s) (sf_dbname s) (sf_schema_name s)
    (sf_dbschema s) (sf_session_id s) (sf_sequence s) (sf_stopped s) (sf_mode s) (sf_executed s).
Definition sf_set_registry (r : R) (s : SF) : SF :=
  mk_sf (sf_db s) (sf_open s) r (sf_tracker s) (sf_wall s) (sf_batcher s) (sf_dbname s) (sf_schema_name s)
    (sf_dbschema s) (sf_session_id s) (sf_sequence s) (sf_stopped s) (sf_mode s) (sf_executed s).
Definition sf_set_tracker (t : Tracker) (s : SF) : SF :=
  mk_sf (sf_db s) (sf_open s) (sf_registry s) t (sf_wall s) (sf_batcher s) (sf_dbname s) (sf_schema_name s)
    (sf_dbschema s) (sf_session_id s) (sf_sequence s) (sf_stopped s) (sf_mode s) (sf_executed s).
Definition sf_set_batcher (b : list BRecord) (s : SF) : SF :=
  mk_sf (sf_db s) (sf_open s) (sf_registry s) (sf_tracker s) (sf_wall s) b (sf_dbname s) (sf_schema_name s)
    (sf_dbschema s) (sf_session_id s) (sf_sequence s) (sf_stopped s) (sf_mode s) (sf_executed s).
Definition sf_set_schema (n m : pystr) (d : DatabaseSchema) (s : SF) : SF :=
  mk_sf (sf_db s) (sf_open s) (sf_registry s) (sf_tracker s) (sf_wall s) (sf_batcher s) n m
    d (sf_session_id s) (sf_sequence s) (sf_stopped s) (sf_mode s) (sf_executed s).
Definition sf_next_sequence (s : SF) : SF :=
  mk_sf (sf_db s) (sf_open s) (sf_registry s) (sf_tracker s) (sf_wall s) (sf_batcher s) (sf_dbname s) (sf_schema_name s)
    (sf_dbschema s) (sf_session_id s) (sf_sequence s + 1) (sf_stopped s) (sf_mode s) (sf_executed s).
Definition sf_set_stopped (s : SF) : SF :=
  mk_sf (sf_db s) (sf_open s) (sf_registry s) (sf_tracker s) (sf_wall s) (sf_batcher s) (sf_dbname s) (sf_schema_name s)
    (sf_dbschema s) (sf_session_id s) (sf_sequence s) true (sf_mode s) (sf_executed s).
Definition sf_execute (q : pystr) (n : Z) (s : SF) : SF :=
  mk_sf (sf_db s) (sf_open s) (sf_registry s) (sf_tracker s) (sf_wall s) (sf_batcher s) (sf_dbname s) (sf_schema_name s)
    (sf_dbschema s) (sf_session_id s) (sf_sequence s) (sf_stopped s) (sf_mode s) (sf_executed s ++ [(q, n)]).

Definition on_sfdb {A} (f : method DB unit A) : SFM A :=
  fun s => let '(r, d) := f (sf_db s) in
    (match r with inl _ => inl SfDb | inr a => inr a end, sf_set_db d (sf_open s) s).
Definition on_reg {A} (f : method R registry_error A) : SFM A :=
  fun s => let '(r, g) := f (sf_registry s) in
    (match r with inl _ => inl SfRegistry | inr a => inr a end, sf_set_registry g s).

(** [tracker.get_key(key)[0]] *)
Definition tracker_has_key (key : pystr) : SFM bool :=
  fun s => let '((found, _), t) := get_key (sf_wall s) key (sf_tracker s) in (inr found, sf_set_tracker t s).

Definition record_schema (record : BRecord) : SFM Schema :=
  '(_, version) ← on_reg (reg_get_table_version (r_table record));
  on_reg (reg_get_schema (r_table record) version).

(** one round of the loop of [plan_flush] *)
Definition plan_record (plan : FlushPlan) (record : BRecord) : SFM FlushPlan :=
  let op := r_operation record in
  let is_insert := str_eqb op (u"INSERT") in
  let is_delete := str_eqb op (u"DELETE") in
  if str_eqb op (u"UPDATE") && update_noise (default [] (r_diff record)) then mret plan
  else
    let key := if is_insert || is_delete then tracker_key record else [] in
    force ← (if is_insert then tracker_has_key key else mret false);
    let delete_keys := if is_delete then fp_delete_keys plan ++ [key] else fp_delete_keys plan in
    schema ← record_schema record;
    match Sf.to_sql record schema force with
    | None => raise SfBuild
    | Some (s, c) =>
        mret (mk_plan (fp_query plan ++ s) (fp_statement_count plan + c)
                (match key with [] => fp_cache_keys plan | _ => fp_cache_keys plan ++ [key] end) delete_keys)
    end.

Fixpoint plan_loop (plan : FlushPlan) (records : list BRecord) : SFM FlushPlan :=
  match records with
  | [] => mret plan
  | record :: rest => plan ← plan_record plan record; plan_loop plan rest
  end.

Definition plan_flush (records : list BRecord) : SFM FlushPlan := plan_loop (mk_plan [] 0 [] []) records.

Fixpoint append_query (query : pystr) (records : list BRecord) : SFM pystr :=
  match records with
  | [] => mret query
  | record :: rest =>
      schema ← record_schema record;
      append_query (query ++ Sf.to_append_sql record schema) rest
  end.

Definition plan_flush_append (records : list BRecord) : SFM FlushPlan :=
  query ← append_query [] records;
  mret (mk_plan query (Z.of_nat (length records)) [] []).

(** ** The driver *)

Definition sf_process (event : DBChangeEvent) : SFM bool :=
  fun s => let '(r, b) := batcher_add event (sf_batcher s) in
    (match r with inl _ => inl SfEvent | inr _ => inr false end, sf_set_batcher b s).

(** the tag of a flush: session, sequence and number of records *)
Definition flush_tag (s : SF) (count : Z) : pystr :=
  u"eds-" ++ sf_session_id s ++ u"/" ++ str_of_Z (sf_sequence s) ++ u"/" ++ str_of_Z count.

(** sort the batch and plan it *)
Definition plan_batch (mode : IngestMode) (records : list BRecord) : SFM FlushPlan :=
  let records := sort_records_by_mvcc_timestamp records in
  match mode with
  | APPEND => plan_flush_append records
  | UPSERT => plan_flush (combine_records_with_same_primary_key records)
  end.

(** remember the inserts and deletes, forget the deletes *)
Definition note_keys (tag : pystr) (plan : FlushPlan) : SFM unit :=
  _ ← (match fp_cache_keys plan with
       | [] => mret tt
       | keys => modify (fun s => sf_set_tracker (set_keys (sf_wall s) keys tag _CACHE_TTL_SECONDS (sf_tracker s)) s)
       end);
  match fp_delete_keys plan with
  | [] => mret tt
  | keys => modify (fun s => sf_set_tracker (delete_key keys (sf_tracker s)) s)
  end.

(** the second half of a flush: one execution and the bookkeeping of the keys *)
Definition carry_out (tag : pystr) (plan : FlushPlan) : SFM unit :=
  _ ← (if 0 <? fp_statement_count plan then
         _ ← on_sfdb (sfdb_exec_multi_statement (fp_query plan) (fp_statement_count plan));
         modify (sf_execute (fp_query plan) (fp_statement_count plan))
       else mret tt);
  note_keys tag plan.

Definition sf_flush : SFM unit :=
  open ← gets sf_open;
  if negb open then raise SfStopped
  else
    records ← gets sf_batcher;
    let count := Z.of_nat (length records) in
    _ ← modify (sf_set_batcher (batcher_clear records));
    if count =? 0 then mret tt
    else
      _ ← modify sf_next_sequence;
      tag ← gets (fun s => flush_tag s count);
      mode ← gets sf_mode;
      plan ← plan_batch mode records;
      carry_out tag plan.

(** [stop]: flush once, swallow its error, close *)
Definition sf_stop : SFM unit :=
  stopped ← gets sf_stopped;
  if (stopped : bool) then mret tt
  else
    _ ← modify sf_set_stopped;
    _ ← catch sf_flush (fun _ => mret tt);
    modify (fun s => sf_set_db (sf_db s) false s).

Definition _refresh_schema (fail_if_empty : bool) : SFM unit :=
  name ← gets sf_dbname;
  name ← (match name with [] => on_sfdb (sfdb_query_single_value (u"CURRENT_DATABASE()")) | _ => mret name end);
  _ ← modify (fun s => sf_set_schema name (sf_schema_name s) (sf_dbschema s) s);
  schema ← gets sf_schema_name;
  schema ← (match schema with [] => on_sfdb (sfdb_query_single_value (u"CURRENT_SCHEMA()")) | _ => mret schema end);
  _ ← modify (fun s => sf_set_schema name schema (sf_dbschema s) s);
  d ← on_sfdb (sfdb_build_schema name schema fail_if_empty);
  modify (sf_set_schema name schema d).

(** forget the keys of a table; SQLite rejects a prefix it cannot encode *)
Definition forget_table (table : pystr) : SFM unit :=
  t ← gets sf_tracker;
  match delete_keys_with_prefix (u"snowflake:" ++ table ++ u":") t with
  | None => raise SfTracker
  | Some (_, t') => modify (sf_set_tracker t')
  end.

Definition exec_stmts (stmts : list pystr) : SFM unit := for_each (fun sql => on_sfdb (sfdb_exec sql)) stmts.

Definition sf_migrate_new_table (schema : Schema) : SFM unit :=
  mode ← gets sf_mode;
  known ← gets (fun s => dict_has (sc_table schema) (sf_dbschema s));
  match mode with
  | APPEND =>
      _ ← (if (known : bool) then forget_table (sc_table schema) else mret tt);
      _ ← exec_stmts [Sf.create_append_sql schema; Sf.create_current_view_sql schema;
                      Sf.create_timeline_view_sql schema];
      _refresh_schema true
  | UPSERT =>
      _ ← (if (known : bool) then
             _ ← exec_stmts [u"DROP TABLE IF EXISTS " ++ Sf.quote_identifier (sc_table schema)];
             forget_table (sc_table schema)
           else mret tt);
      _ ← exec_stmts [Sf.create_sql schema];
      _refresh_schema true
  end.

Definition sf_migrate_new_columns (schema : Schema) (columns : list pystr) : SFM unit :=
  db ← gets sf_dbschema;
  _ ← exec_stmts (Sf.add_new_columns_sql columns schema db);
  mode ← gets sf_mode;
  _ ← (match mode with
       | APPEND => exec_stmts [Sf.create_current_view_sql schema; Sf.create_timeline_view_sql schema]
       | UPSERT => mret tt
       end);
  _refresh_schema true.

(** ** What a plan contains *)

Definition is_op (op : pystr) (r : BRecord) : Prop := r_operation r = op.
#[local] Instance is_op_dec op r : Decision (is_op op r).
Proof. unfold is_op. apply _. Defined.

(** the records a plan turns into statements, and those whose key it notes *)
Definition kept (r : BRecord) : Prop := ~ (is_op (u"UPDATE") r /\ update_noise (default [] (r_diff r)) = true).
#[local] Instance kept_dec r : Decision (kept r).
Proof. unfold kept. apply _. Defined.

(** the statements of one record *)
Definition statements_of (r : BRecord) (schema : Schema) (force : bool) : option (list pystr) :=
  let is_delete := str_eqb (r_operation r) (u"DELETE") in
  let deletes := if force || is_delete then [Sf.to_delete_sql r] else [] in
  if is_delete then Some deletes else m ← Sf.to_merge_sql r schema; Some (deletes ++ [m]).

Lemma to_sql_statements r schema force :
  Sf.to_sql r schema force = (fun l => (concat l, Z.of_nat (length l))) <$> statements_of r schema force.
Proof.
  unfold Sf.to_sql, statements_of. destruct (str_eqb (r_operation r) (u"DELETE")).
  - rewrite orb_true_r. simpl. by rewrite app_nil_r.
  - rewrite orb_false_r. destruct (Sf.to_merge_sql r schema) as [m|]; cbn [mbind option_bind]; [|by destruct force].
    destruct force; simpl; by rewrite ?app_nil_r.
Qed.

(** the registry gave the schema for the table of the record *)
Definition provided (r : BRecord) (schema : Schema) : Prop :=
  exists g found version g', reg_get_table_version (r_table r) g = (inr (found, version), g') /\
    (reg_get_schema (r_table r) version g').1 = inr schema.

(** the row of the record was inserted within a day of the state's clock *)
Definition force_of (s : SF) (r : BRecord) : bool :=
  str_eqb (r_operation r) (u"INSERT") && (get_key (sf_wall s) (tracker_key r) (sf_tracker s)).1.1.

(** a plan made in [s] extends another one by the statements and keys of some records *)
Definition extends (s : SF) (p : FlushPlan) (records : list BRecord) (p' : FlushPlan) : Prop :=
  exists stmts : list (list pystr),
    Forall2 (fun r l => exists schema, provided r schema /\ statements_of r schema (force_of s r) = Some l) (filter kept records) stmts /\
    fp_query p' = fp_query p ++ concat (concat stmts) /\
    fp_statement_count p' = fp_statement_count p + Z.of_nat (length (concat stmts)) /\
    fp_cache_keys p' = fp_cache_keys p ++ (tracker_key <$> filter (fun r => is_op (u"INSERT") r \/ is_op (u"DELETE") r) records) /\
    fp_delete_keys p' = fp_delete_keys p ++ (tracker_key <$> filter (is_op (u"DELETE")) records).

(** *** Planning *)

(** [s'] is [s] but for the registry, the answers the tracker gave, and entries
    under [keys] that had run out *)
Definition consulted (keys : list pystr) (s s' : SF) : Prop :=
  sf_executed s' = sf_executed s /\ sf_batcher s' = sf_batcher s /\ sf_wall s' = sf_wall s /\
  (forall k, (get_key (sf_wall s) k (sf_tracker s')).1 = (get_key (sf_wall s) k (sf_tracker s)).1) /\
  (forall k, k ∉ keys -> sf_tracker s' !! k = sf_tracker s !! k).

(** a computation that only consults the registry and the tracker *)
Definition planning (keys : list pystr) {A} (m : SFM A) : Prop := forall s, consulted keys s (m s).2.

Lemma consulted_refl keys s : consulted keys s s.
Proof. by split_and!. Qed.

Lemma consulted_trans keys s1 s2 s3 : consulted keys s1 s2 -> consulted keys s2 s3 -> consulted keys s1 s3.
Proof.
  intros (E1 & E2 & E3 & E4 & E5) (F1 & F2 & F3 & F4 & F5). rewrite E3 in F4. split_and!; [congruence|congruence|congruence| |].
  - intros k. by rewrite F4, E4.
  - intros k Hk. by rewrite F5, E5.
Qed.

Lemma planning_ret keys {A} (a : A) : planning keys (mret a).
Proof. intros s. apply consulted_refl. Qed.

Lemma planning_raise keys {A} e : planning keys (raise (A := A) e).
Proof. intros s. apply consulted_refl. Qed.

Lemma planning_bind keys {A B} (m : SFM A) (f : A -> SFM B) :
  planning keys m -> (forall a, planning keys (f a)) -> planning keys (m ≫= f).
Proof.
  intros Hm Hf s. specialize (Hm s). unfold mbind, M_bind. destruct (m s) as [[e|a] s1]; [done|].
  eapply consulted_trans; [exact Hm|apply (Hf a s1)].
Qed.

Lemma planning_reg keys {A} (f : method R registry_error A) : planning keys (on_reg f).
Proof. intros s. unfold on_reg. by destruct (f (sf_registry s)) as [[] g]. Qed.

Lemma planning_schema keys r : planning keys (record_schema r).
Proof. apply planning_bind; [apply planning_reg|]. intros [_ v]. apply planning_reg. Qed.

Lemma planning_has_key keys k : k ∈ keys -> planning keys (tracker_has_key k).
Proof.
  intros Hin s. unfold tracker_has_key. pose proof (get_key_again (sf_wall s) k) as Ha. pose proof (get_key_other (sf_wall s) k) as Ho.
  specialize (fun k' => Ha k' (sf_tracker s)). specialize (fun k' => Ho k' (sf_tracker s)).
  destruct (get_key (sf_wall s) k (sf_tracker s)) as [[found v] t]. split_and!; try done. intros k' Hk. apply Ho. set_solver.
Qed.

Definition insert_keys (records : list BRecord) : list pystr := tracker_key <$> filter (is_op (u"INSERT")) records.
Definition delete_keys (records : list BRecord) : list pystr := tracker_key <$> filter (is_op (u"DELETE")) records.

Lemma planning_record keys p r : (is_op (u"INSERT") r -> tracker_key r ∈ keys) -> planning keys (plan_record p r).
Proof.
  intros Hk. unfold plan_record. cbv zeta. destruct (_ && update_noise _); [apply planning_ret|]. apply planning_bind.
  - destruct (str_eqb (r_operation r) (u"INSERT")) eqn:Ei; [|apply planning_ret]. apply planning_has_key, Hk. by apply bool_decide_eq_true in Ei.
  - intros force. apply planning_bind; [apply planning_schema|]. intros schema.
    destruct (Sf.to_sql r schema force) as [[q c]|]; [apply planning_ret|apply planning_raise].
Qed.

Lemma insert_keys_in r records : r ∈ records -> is_op (u"INSERT") r -> tracker_key r ∈ insert_keys records.
Proof. intros Hin Hr. apply list_elem_of_fmap. exists r. split; [done|]. by apply list_elem_of_filter. Qed.


Lemma schema_provided r s schema s' : record_schema r s = (inr schema, s') -> provided r schema.
Proof.
  unfold record_schema, on_reg, mbind, M_bind. destruct (reg_get_table_version (r_table r) (sf_registry s)) as [[e|[found v]] g] eqn:E1; [done|].
  simpl. destruct (reg_get_schema (r_table r) v g) as [[e|sc] g'] eqn:E2; [done|]. intros [= <- _].
  exists (sf_registry s), found, v, g. by rewrite E2.
Qed.

Lemma plan_record_extends s0 keys p r s p' s' : consulted keys s0 s -> plan_record p r s = (inr p', s') -> extends s0 p [r] p'.
Proof.
  intros (_ & _ & Hw & Ht & _). unfold plan_record, extends. intros H. rewrite !filter_cons, !filter_nil.
  destruct (str_eqb (r_operation r) (u"UPDATE") && update_noise (default [] (r_diff r))) eqn:En.
  - injection H as <- _. apply andb_true_iff in En as [Eu%bool_decide_eq_true En]. exists [].
    rewrite decide_False by (unfold kept, is_op; tauto).
    rewrite !decide_False by (unfold is_op; rewrite Eu; by intros [?|?] || done). simpl. by rewrite !app_nil_r, Z.add_0_r.
  - rewrite (decide_True _ _ (P := kept r)).
    2: { unfold kept, is_op. intros [Hu Hn]. unfold str_eqb in En. rewrite Hn, bool_decide_eq_true_2 in En by done. done. }
    set (key := if _ : bool then tracker_key r else []) in H.
    destruct ((if str_eqb (r_operation r) (u"INSERT") then tracker_has_key key else mret false) s) as [[e|force] s1] eqn:Ef;
      [by rewrite (bind_inl _ _ _ _ _ Ef) in H|]. rewrite (bind_inr _ _ _ _ _ Ef) in H.
    assert (force = force_of s0 r) as ->.
    { unfold force_of. rewrite <- Ht. subst key. destruct (str_eqb (r_operation r) (u"INSERT")); [|by injection Ef].
      cbn [orb] in Ef. unfold tracker_has_key in Ef. rewrite Hw in Ef. destruct (get_key _ _ _) as [[found v] t]. by injection Ef. }
    destruct (record_schema r s1) as [[e|schema] s2] eqn:Es; [by rewrite (bind_inl _ _ _ _ _ Es) in H|].
    rewrite (bind_inr _ _ _ _ _ Es) in H. rewrite to_sql_statements in H.
    destruct (statements_of r schema (force_of s0 r)) as [l|] eqn:El; [|done]. simpl in H. injection H as <- _.
    exists [l]. split; [constructor; [exists schema; split; [by eapply schema_provided|done]|constructor]|].
    assert (tracker_key r <> []) as Hk by done. simpl. rewrite app_nil_r. split; [done|]. split; [done|].
    subst key. clear Ef En El. unfold is_op, str_eqb.
    destruct (decide (r_operation r = u"DELETE")) as [Ed|Ed].
    + rewrite !(decide_True _ _ (P := _ \/ _)) by auto. rewrite (bool_decide_eq_true_2 (_ = u"DELETE")) by done.
      rewrite orb_true_r. cbn [fmap list_fmap]. by destruct (tracker_key r).
    + rewrite (bool_decide_eq_false_2 (_ = u"DELETE")), orb_false_r by done.
      case_bool_decide; [rewrite decide_True by auto|rewrite decide_False by tauto]; simpl; rewrite ?app_nil_r; [|done].
      split; [|done]. by destruct (tracker_key r).
Qed.

Lemma extends_trans s p l1 p1 l2 p2 : extends s p l1 p1 -> extends s p1 l2 p2 -> extends s p (l1 ++ l2) p2.
Proof.
  intros (s1 & H1 & Q1 & C1 & K1 & D1) (s2 & H2 & Q2 & C2 & K2 & D2). exists (s1 ++ s2).
  rewrite !filter_app, !fmap_app. split; [by apply Forall2_app|].
  rewrite Q2, Q1, C2, C1, K2, K1, D2, D1, !concat_app, length_app, <- !app_assoc. split; [done|]. split; [lia|done].
Qed.

Lemma plan_loop_extends keys s0 records p s p' s' : (forall r, r ∈ records -> is_op (u"INSERT") r -> tracker_key r ∈ keys) ->
  consulted keys s0 s -> plan_loop p records s = (inr p', s') -> extends s0 p records p'.
Proof.
  revert p s. induction records as [|r records IH]; intros p s Hk Hc H.
  - injection H as <- _. exists []. simpl. by rewrite !app_nil_r, Z.add_0_r.
  - simpl in H. pose proof (planning_record keys p r (Hk r (list_elem_of_here _ _)) s) as Hp.
    destruct (plan_record p r s) as [[e|p1] s1] eqn:E1; [by rewrite (bind_inl _ _ _ _ _ E1) in H|].
    rewrite (bind_inr _ _ _ _ _ E1) in H. eapply (extends_trans _ _ [r]); [by eapply plan_record_extends|].
    apply (IH _ s1); [intros r' Hr'; by apply Hk, list_elem_of_further|by eapply consulted_trans|done].
Qed.

(** a plan consists of the statements of the records that are no noise, in
    order, with a delete before the insert of a row inserted within a day, and
    counts them exactly; it notes the keys of the inserts and deletes to remember
    and of the deletes to forget. *)
Theorem plan_flush_contents records s p s' :
  plan_flush records s = (inr p, s') -> extends s (mk_plan [] 0 [] []) records p.
Proof. apply (plan_loop_extends (insert_keys records)); [intros r; apply insert_keys_in|apply consulted_refl]. Qed.



(** *** What a flush does *)









End Driver.

(** ** On a concrete driver *)
Module SfRun.

#[local] Instance quiet_db : SnowflakeDb unit := {|
  sfdb_query_single_value := fun _ d => (inr (u"EDS"), d);
  sfdb_build_schema := fun _ _ _ d => (inr [], d);
  sfdb_exec_multi_statement := fun _ n d => (inr n, d);
  sfdb_exec := fun _ d => (inr tt, d)
|}.

#[local] Instance one_schema : Registry unit := {|
  reg_get_latest_schema := fun r => (inr [(u"customer", example_model)], r);
  reg_get_schema := fun _ _ r => (inr example_model, r);
  reg_get_table_version := fun _ r => (inr (true, u"1"), r);
  reg_set_table_version := fun _ _ r => (inr tt, r)
|}.

Definition record (op id : pystr) : BRecord :=
  mk_record (u"customer") id op None (Some [(u"id", PStr id)]) None.

(** a delete followed by an insert of the same row, and another insert *)
Definition batch : list BRecord := [record (u"DELETE") (u"1"); record (u"INSERT") (u"1"); record (u"INSERT") (u"2")].

Definition loaded : SF (DB := unit) (R := unit) :=
  mk_sf tt true tt ∅ 1000 batch (u"EDS") (u"PUBLIC") [] (u"s") 0 false UPSERT [].

Lemma plan_flush_contents_witness :
  exists p s', plan_flush batch loaded = (inr p, s') /\ extends loaded (mk_plan [] 0 [] []) batch p /\
    fp_statement_count p = 3 /\ length (fp_cache_keys p) = 3%nat /\ length (fp_delete_keys p) = 1%nat.
Proof.
  destruct (plan_flush batch loaded) as [[e|p] s'] eqn:E; [by vm_compute in E|].
  exists p, s'. split; [done|]. split; [by apply (plan_flush_contents batch loaded p s')|].
  vm_compute in E. injection E as <- _. done.
Defined.


(** the row inserted after its delete is not remembered *)
Lemma deleted_row_forgotten :
  length (sf_executed (sf_flush loaded).2) = 1%nat /\
  sf_tracker (sf_flush loaded).2 !! u"snowflake:customer:1" = None /\
  sf_tracker (sf_flush loaded).2 !! u"snowflake:customer:2" = Some (u"eds-s/1/3", Some 87400).
Proof. split_and!; vm_compute; reflexivity. Qed.
End SfRun.
