(* ===== verification/SqlAdapters.v ===== *)
(** * Database adapters: drivers/*/data_db.py, drivers/snowflake/datadb.py, util/db.py

    The adapters run the batches of the SQL drivers over a connection of a
    client package (psycopg, PyMySQL, pymssql, the Snowflake connector).  The
    connection is an interface: its calls are [db_call]s, and its laws say which
    texts are durable and which stand in a transaction that is still open.

    A flush is atomic over each of the three: its batch is stored as a whole or
    not at all, and when the call returns it is stored.  Every adapter keeps the
    promise [DurableDb], over which the batches the shared driver counts as
    accepted are in the database, in their order, whatever failed in between. *)
From stdpp Require Import base tactics list option numbers sets strings.
From S2P Require Import Prelude PyStr PyDict PyFloat GoJson Schema DbChange Interfaces SqlUtil SqlLex Snowflake SqlBase.

(** ** The connection *)

Inductive db_call : Type :=
| Begin
| Execute (sql : pystr)          (** [cur.execute], or [conn.execute] *)
| ExecuteMulti (sql : pystr) (num_statements : Z)
| NextSet
| RowCount
| FetchOne
| FetchAll
| Commit
| Rollback
| Autocommit (on : bool)
| OpenCursor.

Inductive answer : Type :=
| Done
| More (b : bool)
| Count (n : Z)
| Row (r : option (list pyobj))
| Rows (rs : list (list pyobj)).

Class DbApi (C : Type) := {
  (** the error is the text of the exception *)
  da_call : db_call -> method C pystr answer;
  (** the texts that are durable, and those of the open transaction *)
  da_durable : C -> list pystr;
  da_open : C -> list pystr;
  (** autocommit is on; a transaction was begun *)
  da_auto : C -> bool;
  da_explicit : C -> bool;
  (** the connection is lost *)
  da_lost : C -> Prop;
  (** the result sets that are left *)
  da_more : C -> nat;
  (** no statement of the text commits on its own, as DDL does *)
  da_plain : pystr -> Prop
}.

(** what is executed is durable at once *)
Definition immediate `{!DbApi C} (c : C) : bool := da_auto c && negb (da_explicit c).

(** the mode after a call that did not lose the connection *)
Definition mode_after `{!DbApi C} (k : db_call) (ok : bool) (c : C) : bool * bool :=
  match k with
  | Begin => (da_auto c, if ok then true else da_explicit c)
  | Commit | Rollback => (da_auto c, false)
  | Autocommit on => (on, false)
  | _ => (da_auto c, da_explicit c)
  end.

Class DbApiLaws (C : Type) `{!DbApi C} := {
  (** nothing that is durable is lost *)
  dl_keeps k c : da_durable c `prefix_of` da_durable (da_call k c).2;
  dl_lost k c : da_lost c -> match da_call k c with (inr _, _) => False | (inl _, c') => da_lost c' /\ da_durable c' = da_durable c end;
  dl_mode k c r c' : da_call k c = (r, c') ->
    da_lost c' \/ (da_auto c', da_explicit c') = mode_after k (match r with inr _ => true | inl _ => false end) c;
  (** a rollback or a switch that fails has lost the connection *)
  dl_stuck k c e c' : da_call k c = (inl e, c') -> (k = Rollback \/ exists on, k = Autocommit on) -> da_lost c';
  dl_ok k c a c' : da_call k c = (inr a, c') ->
    match k with
    | Execute sql | ExecuteMulti sql _ =>
        da_durable c' ++ da_open c' = da_durable c ++ da_open c ++ [sql] /\
        (immediate c = true -> da_open c = [] -> da_open c' = []) /\
        (immediate c = false -> da_plain sql -> da_open c' = da_open c ++ [sql])
    | Begin | Commit => da_durable c' = da_durable c ++ da_open c /\ da_open c' = []
    | Rollback | Autocommit _ => da_durable c' = da_durable c /\ da_open c' = []
    | _ => da_durable c' = da_durable c /\ da_open c' = da_open c
    end;
  dl_fail k c e c' : da_call k c = (inl e, c') ->
    match k with
    | Execute sql | ExecuteMulti sql _ => immediate c = false -> da_plain sql -> Forall da_plain (da_open c) -> da_durable c' = da_durable c
    | NextSet => immediate c = false -> Forall da_plain (da_open c) -> da_durable c' = da_durable c
    | Commit => da_durable c' = da_durable c \/ da_durable c' = da_durable c ++ da_open c
    | _ => da_durable c' = da_durable c
    end;
  (** a call that fails leaves the open transaction; a commit that fails ends it *)
  dl_open k c e c' : da_call k c = (inl e, c') ->
    da_lost c' \/ match k with
                  | Commit => da_open c' = []
                  | Execute _ | ExecuteMulti _ _ | NextSet => immediate c = true -> da_open c' = da_open c
                  | _ => da_open c' = da_open c
                  end;
  dl_next c c' : da_call NextSet c = (inr (More true), c') -> (da_more c' < da_more c)%nat
}.

(** ** eds/util/db.py and the adapters *)

Inductive db_error : Type :=
| Client (text : pystr)        (** an exception of the client package *)
| ValueErr (text : pystr).

Definition err_text (e : db_error) : pystr := match e with Client t | ValueErr t => t end.

Section adapters.
Context {C : Type} `{!DbApi C}.
(** [str] of a value that is no string *)
Context (other_str : pyobj -> pystr).

Abbreviation DM A := (M C db_error A).

Definition ask (k : db_call) : DM answer := fun c => match da_call k c with (inl e, c') => (inl (Client e), c') | (inr a, c') => (inr a, c') end.
Definition tell (k : db_call) : DM unit := _ ← ask k; mret tt.

(** [with conn.cursor() as cur]; closing a cursor sends nothing *)
Definition with_cursor {A} (body : DM A) : DM A := _ ← tell OpenCursor; body.

(** [except Exception as e: raise ValueError(f"...{e}")] *)
Definition or_value_error {A} (msg : pystr) (m : DM A) : DM A := catch m (fun e => raise (ValueErr (msg ++ err_text e))).

(** [while cur.nextset(): pass], with fuel for the result sets *)
Fixpoint drain (fuel : nat) : DM unit :=
  a ← ask NextSet;
  match a, fuel with
  | More true, S fuel' => drain fuel'
  | _, _ => mret tt
  end.

Definition drain_all : DM unit := fun c => drain (da_more c) c.

Definition query_single_value (fn : pystr) : DM pystr :=
  with_cursor (
    _ ← tell (Execute (u"SELECT " ++ fn));
    a ← ask FetchOne;
    match a with
    | Row (Some (v :: _)) => mret (match v with PStr s => s | _ => other_str v end)
    | Row (Some []) => raise (Client (u"tuple index out of range"))
    | _ => raise (ValueErr (u"no rows returned for: SELECT " ++ fn))
    end).

Definition info_schema_sql (column value : pystr) (conditions : list (pystr * pystr)) : pystr :=
  u"SELECT table_name, column_name, data_type FROM information_schema.columns WHERE " ++ column ++ u" = '" ++ value ++ u"'" ++
  flat_map (fun c => u" AND " ++ c.1 ++ u" = '" ++ c.2 ++ u"'") conditions.

(** [res.setdefault(table_name, {})[column_name] = data_type] *)
Definition add_column (res : DatabaseSchema) (table column ty : pystr) : DatabaseSchema :=
  dict_set table (dict_set column ty (default [] (dict_get table res))) res.

Fixpoint add_rows (res : DatabaseSchema) (rows : list (list pyobj)) : option DatabaseSchema :=
  match rows with
  | [] => Some res
  | [PStr t; PStr c; PStr ty] :: rows' => add_rows (add_column res t c ty) rows'
  | _ => None
  end.

Definition build_db_schema_from_info_schema (column value : pystr) (fail_if_empty : bool) (conditions : list (pystr * pystr)) : DM DatabaseSchema :=
  res ← with_cursor (
    _ ← tell (Execute (info_schema_sql column value conditions));
    a ← ask FetchAll;
    match (match a with Rows rows => add_rows [] rows | _ => None end) with
    | Some res => mret res
    | None => raise (Client (u"the rows are not three texts each"))
    end);
  if fail_if_empty && match res with [] => true | _ => false end
  then raise (ValueErr (u"no tables found using " ++ column ++ u" = " ++ value))
  else mret res.

Definition run_sql (sql : pystr) : DM unit := with_cursor (tell (Execute sql)).

(** [sql_executer] *)
Definition sql_executer (dry_run : bool) (sql : pystr) : DM unit := if dry_run then mret tt else run_sql sql.
Definition drop_table (table : pystr) : DM unit := run_sql (u"DROP TABLE IF EXISTS " ++ table).

(** *** drivers/postgresql/data_db.py *)

(** [with conn.transaction()] of psycopg: an exception of the body is raised
    again after the rollback, whatever becomes of that *)
Definition transaction (body : DM unit) : DM unit :=
  _ ← tell Begin;
  r ← attempt body;
  match r with
  | inl e => _ ← attempt (tell Rollback); raise e
  | inr _ => tell Commit
  end.

Definition pg_execute_in_transaction (sql : pystr) : DM unit :=
  catch (transaction (or_value_error (u"unable to execute sql: ") (tell (Execute sql))))
    (fun e => match e with ValueErr _ => raise e | Client t => raise (ValueErr (u"unable to commit transaction: " ++ t)) end).

Definition pg_exec (sql : pystr) : DM unit := tell (Execute sql).

(** *** drivers/mysql/data_db.py *)

Definition my_execute_in_transaction (sql : pystr) : DM unit :=
  _ ← or_value_error (u"unable to start transaction: ") (tell Begin);
  r ← attempt (_ ← with_cursor (or_value_error (u"unable to execute sql: ") (_ ← tell (Execute sql); drain_all));
               or_value_error (u"unable to commit transaction: ") (tell Commit));
  match r with
  | inl e => _ ← tell Rollback; raise e
  | inr _ => mret tt
  end.

Definition my_exec (sql : pystr) : DM unit :=
  _ ← with_cursor (_ ← tell (Execute sql); drain_all);
  tell Commit.

Definition my_drop_table (quoted_table : pystr) : DM unit := my_exec (u"DROP TABLE IF EXISTS " ++ quoted_table).
Definition my_import_executor (dry_run : bool) (sql : pystr) : DM unit := if dry_run then mret tt else my_exec sql.

(** *** drivers/sqlserver/data_db.py *)

Definition ms_execute_in_transaction (sql : pystr) : DM unit :=
  _ ← tell (Autocommit false);
  r ← attempt (catch (_ ← with_cursor (or_value_error (u"unable to execute sql: ") (tell (Execute sql)));
                      or_value_error (u"unable to commit transaction: ") (tell Commit))
                     (fun e => _ ← tell Rollback; raise e));
  _ ← tell (Autocommit true);
  match r with inl e => raise e | inr _ => mret tt end.

Definition ms_exec (sql : pystr) : DM unit := run_sql sql.
Definition ms_drop_table (quoted_table : pystr) : DM unit := ms_exec (u"DROP TABLE IF EXISTS " ++ quoted_table).
Definition ms_import_executor (dry_run : bool) (sql : pystr) : DM unit := if dry_run then mret tt else ms_exec sql.

(** *** drivers/snowflake/datadb.py *)

(** the rows of the result sets, with fuel *)
Fixpoint count_rows (fuel : nat) (rows : Z) : DM Z :=
  n ← ask RowCount;
  let rows := match n with Count n => rows + n | _ => rows end in
  a ← ask NextSet;
  match a, fuel with
  | More true, S fuel' => count_rows fuel' rows
  | _, _ => mret rows
  end.

Definition count_all : DM Z := fun c => count_rows (da_more c) 0 c.

Definition sf_exec_multi_statement (sql : pystr) (statement_count : Z) : DM Z :=
  with_cursor (_ ← tell (ExecuteMulti sql statement_count); count_all).

Definition _ping : DM unit := run_sql (u"SELECT 1").

(** *** The interfaces of the drivers *)

Definition seam {A} (m : DM A) : method C unit A := fun c => match m c with (inl _, c') => (inl tt, c') | (inr a, c') => (inr a, c') end.

Definition pg_db (dry_run : bool) : SqlDb C := {|
  db_query_single_value fn := seam (query_single_value fn);
  db_build_schema column value fail := seam (build_db_schema_from_info_schema column value fail []);
  db_execute_in_transaction sql := seam (pg_execute_in_transaction sql);
  db_exec sql := seam (pg_exec sql);
  db_drop_table table := seam (drop_table table);
  db_import_exec sql := seam (sql_executer dry_run sql)
|}.

Definition my_db (dry_run : bool) : SqlDb C := {|
  db_query_single_value fn := seam (query_single_value fn);
  db_build_schema column value fail := seam (build_db_schema_from_info_schema column value fail []);
  db_execute_in_transaction sql := seam (my_execute_in_transaction sql);
  db_exec sql := seam (my_exec sql);
  db_drop_table table := seam (my_drop_table table);
  db_import_exec sql := seam (my_import_executor dry_run sql)
|}.

Definition ms_db (dry_run : bool) : SqlDb C := {|
  db_query_single_value fn := seam (query_single_value fn);
  db_build_schema column value fail := seam (build_db_schema_from_info_schema column value fail []);
  db_execute_in_transaction sql := seam (ms_execute_in_transaction sql);
  db_exec sql := seam (ms_exec sql);
  db_drop_table table := seam (ms_drop_table table);
  db_import_exec sql := seam (ms_import_executor dry_run sql)
|}.

Definition sf_db : SnowflakeDb C := {|
  sfdb_query_single_value fn := seam (query_single_value fn);
  sfdb_build_schema catalog schema fail := seam (build_db_schema_from_info_schema (u"table_catalog") catalog fail [(u"table_schema", schema)]);
  sfdb_exec_multi_statement sql n := seam (sf_exec_multi_statement sql n);
  sfdb_exec sql := seam (run_sql sql)
|}.
End adapters.

(** ** What the database has *)
Section laws.
Context {C : Type} `{!DbApi C} `{!DbApiLaws C} (other_str : pyobj -> pystr).
Abbreviation DM A := (M C db_error A).

(** a program under which nothing durable is lost *)
Definition grows {A} (m : DM A) : Prop := forall c, da_durable c `prefix_of` da_durable (m c).2.

Lemma grows_ret {A} (a : A) : grows (mret a).
Proof. intros c. done. Qed.
Lemma grows_raise {A} e : grows (raise e : DM A).
Proof. intros c. done. Qed.
Lemma grows_ask k : grows (ask k).
Proof. intros c. unfold ask. pose proof (dl_keeps k c) as H. by destruct (da_call k c) as [[] ?]. Qed.
Lemma grows_bind {A B} (m : DM A) (f : A -> DM B) : grows m -> (forall a, grows (f a)) -> grows (m ≫= f).
Proof.
  intros Hm Hf c. specialize (Hm c). unfold mbind, M_bind. destruct (m c) as [[e|a] c1]; [done|]. etrans; [exact Hm|apply Hf].
Qed.
Lemma grows_catch {A} (m : DM A) h : grows m -> (forall e, grows (h e)) -> grows (catch m h).
Proof. intros Hm Hh c. specialize (Hm c). unfold catch. destruct (m c) as [[e|a] c1]; [|done]. etrans; [exact Hm|apply Hh]. Qed.
Lemma grows_attempt {A} (m : DM A) : grows m -> grows (attempt m).
Proof. intros Hm c. rewrite attempt_eq. apply Hm. Qed.
Lemma grows_tell k : grows (tell k).
Proof. apply grows_bind; [apply grows_ask|]. intros a. apply grows_ret. Qed.
Lemma grows_cursor {A} (m : DM A) : grows m -> grows (with_cursor m).
Proof. intros Hm. apply grows_bind; [apply grows_tell|done]. Qed.
Lemma grows_drain : grows drain_all.
Proof.
  intros c. unfold drain_all. generalize (da_more c) as fuel. intros fuel. revert c. induction fuel as [|fuel IH]; intros c.
  - apply grows_bind; [apply grows_ask|]. intros [|[]| | |]; apply grows_ret.
  - apply (grows_bind (ask NextSet)); [apply grows_ask|]. intros [|[]| | |]; first [exact IH|apply grows_ret].
Qed.

Ltac grow :=
  repeat first [ apply grows_ret | apply grows_raise | apply grows_tell | apply grows_ask | apply grows_drain | apply grows_cursor
               | apply grows_attempt | apply grows_bind; [|intros ?] | apply grows_catch; [|intros ?] | case_match ].

Lemma grows_query fn : grows (query_single_value other_str fn).
Proof. unfold query_single_value. grow. Qed.
Lemma grows_build column value fail conditions : grows (build_db_schema_from_info_schema column value fail conditions).
Proof. unfold build_db_schema_from_info_schema. grow. Qed.
Lemma grows_run sql : grows (run_sql sql).
Proof. unfold run_sql. grow. Qed.
Lemma grows_pg sql : grows (pg_execute_in_transaction sql).
Proof. unfold pg_execute_in_transaction, transaction, or_value_error. grow. Qed.
Lemma grows_my sql : grows (my_execute_in_transaction sql).
Proof. unfold my_execute_in_transaction, or_value_error. grow. Qed.
Lemma grows_my_exec sql : grows (my_exec sql).
Proof. unfold my_exec. grow. Qed.
Lemma grows_ms sql : grows (ms_execute_in_transaction sql).
Proof. unfold ms_execute_in_transaction, or_value_error. grow. Qed.

(** *** A call of the connection *)

Lemma tell_inr k c a c' : tell k c = (inr a, c') -> exists a, da_call k c = (inr a, c').
Proof. unfold tell, ask, mbind, M_bind. destruct (da_call k c) as [[e|b] c1]; [done|]. intros [= _ <-]. by exists b. Qed.
Lemma tell_inl k c e c' : tell k c = (inl e, c') -> exists t, e = Client t /\ da_call k c = (inl t, c').
Proof. unfold tell, ask, mbind, M_bind. destruct (da_call k c) as [[t|b] c1]; [|done]. intros [= <- <-]. by exists t. Qed.

(** what an execution, a commit or a beginning that returns does *)
Lemma tell_ok k c a c' : tell k c = (inr a, c') ->
  match k with
  | Execute sql | ExecuteMulti sql _ => da_durable c' ++ da_open c' = da_durable c ++ da_open c ++ [sql]
  | Begin | Commit => da_durable c' = da_durable c ++ da_open c /\ da_open c' = []
  | Rollback | Autocommit _ => da_durable c' = da_durable c /\ da_open c' = []
  | _ => da_durable c' = da_durable c /\ da_open c' = da_open c
  end.
Proof. intros [b E0]%tell_inr. pose proof (dl_ok k c b c' E0) as H. destruct k; tauto. Qed.

Lemma drain_ok c a c' : drain_all c = (inr a, c') -> da_durable c' = da_durable c /\ da_open c' = da_open c.
Proof.
  unfold drain_all. generalize (da_more c) as fuel. intros fuel. revert c. induction fuel as [|fuel IH]; intros c; cbn [drain].
  all: intros (b & c1 & E0 & H)%bind_split; unfold ask in E0; destruct (da_call NextSet c) as [[t|b1] c2] eqn:E1; [done|]; injection E0 as -> ->.
  all: apply dl_ok in E1 as [<- <-].
  - destruct b as [|[]| | |]; by injection H as _ <-.
  - destruct b as [|[]| | |]; first [by apply IH|by injection H as _ <-].
Qed.

Lemma or_value_error_ok {A} msg (m : DM A) c a c' : or_value_error msg m c = (inr a, c') -> m c = (inr a, c').
Proof. unfold or_value_error, catch. destruct (m c) as [[] ?]; done. Qed.

Lemma cursor_ok {A} (m : DM A) c a c' : with_cursor m c = (inr a, c') ->
  exists c1, da_durable c1 = da_durable c /\ da_open c1 = da_open c /\ m c1 = (inr a, c').
Proof. intros (b & c1 & E0 & H)%bind_split. apply tell_ok in E0 as [H1 H2]. by exists c1. Qed.

(** *** A batch that was taken is durable *)

Lemma pg_stores sql c a c' : pg_execute_in_transaction sql c = (inr a, c') -> da_durable c' = da_durable c ++ da_open c ++ [sql].
Proof.
  unfold pg_execute_in_transaction, catch. destruct (transaction _ c) as [[[]|[]] c1] eqn:E0; [done..|]. intros [= _ <-].
  unfold transaction in E0. apply bind_split in E0 as (b & c2 & E1 & E0). apply tell_ok in E1 as [D1 O1].
  apply bind_split in E0 as (r & c3 & E2 & E0). rewrite attempt_eq in E2. injection E2 as <- <-.
  destruct (or_value_error _ _ c2) as [[e|[]] c4] eqn:E2; simpl in E0.
  { by apply bind_split in E0 as (? & ? & _ & ?). }
  apply or_value_error_ok, tell_ok in E2. apply tell_ok in E0 as [D4 _]. rewrite D4, E2, D1, O1. by rewrite <- app_assoc.
Qed.

Lemma my_stores sql c a c' : my_execute_in_transaction sql c = (inr a, c') -> da_durable c' = da_durable c ++ da_open c ++ [sql].
Proof.
  unfold my_execute_in_transaction. intros (b & c1 & E1 & E0)%bind_split. apply or_value_error_ok, tell_ok in E1 as [D1 O1].
  apply bind_split in E0 as (r & c2 & E2 & E0). rewrite attempt_eq in E2. injection E2 as <- <-.
  destruct ((with_cursor _ ≫= _) c1) as [[e|[]] c2] eqn:E2; simpl in E0; [by apply bind_split in E0 as (? & ? & _ & ?)|]. injection E0 as _ <-.
  apply bind_split in E2 as ([] & c3 & E3 & E4). apply or_value_error_ok, tell_ok in E4 as [D4 _].
  apply cursor_ok in E3 as (c5 & D5 & O5 & E3). apply or_value_error_ok, bind_split in E3 as ([] & c6 & E5 & E6).
  apply tell_ok in E5. apply drain_ok in E6 as [D6 O6]. rewrite D4, D6, O6, E5, D5, O5, D1, O1. by rewrite <- app_assoc.
Qed.

Lemma ms_stores sql c a c' : ms_execute_in_transaction sql c = (inr a, c') -> da_durable c' = da_durable c ++ [sql].
Proof.
  unfold ms_execute_in_transaction. intros (b & c1 & E1 & E0)%bind_split. apply tell_ok in E1 as [D1 O1].
  apply bind_split in E0 as (r & c2 & E2 & E0). rewrite attempt_eq in E2. injection E2 as <- <-.
  destruct (catch _ _ c1) as [[e|[]] c2] eqn:E2; simpl in E0; apply bind_split in E0 as (? & c7 & E7 & E0); [done|].
  injection E0 as _ <-. apply tell_ok in E7 as [D7 _]. unfold catch at 1 in E2.
  destruct ((with_cursor _ ≫= _) c1) as [[e|[]] c8] eqn:E8; [by apply bind_split in E2 as (? & ? & _ & ?)|]. injection E2 as <-.
  apply bind_split in E8 as ([] & c3 & E3 & E4). apply or_value_error_ok, tell_ok in E4 as [D4 _].
  apply cursor_ok in E3 as (c5 & D5 & O5 & E3). apply or_value_error_ok, tell_ok in E3. by rewrite D7, D4, E3, D5, O5, D1, O1.
Qed.

Lemma my_exec_stores sql c a c' : my_exec sql c = (inr a, c') -> da_durable c' = da_durable c ++ da_open c ++ [sql].
Proof.
  intros ([] & c1 & E1 & E0)%bind_split. apply tell_ok in E0 as [D0 _]. apply cursor_ok in E1 as (c5 & D5 & O5 & E1).
  apply bind_split in E1 as ([] & c6 & E5 & E6). apply tell_ok in E5. apply drain_ok in E6 as [D6 O6]. by rewrite D0, D6, O6, E5, D5, O5.
Qed.

(** *** All or nothing *)
Section atomic.
Context (d : list pystr) (sql : pystr) (Hplain : da_plain sql).

(** in a transaction that has executed [o] *)
Definition inside (o : list pystr) (c : C) : Prop := da_durable c = d /\ da_open c = o /\ (da_lost c \/ immediate c = false).
Definition nothing (c : C) : Prop := da_durable c = d.
Definition whole (c : C) : Prop := da_durable c = d ++ [sql].
Definition either (c : C) : Prop := nothing c \/ whole c.

(** a call that returns was not made on a lost connection *)
Lemma alive k c a c' : da_call k c = (inr a, c') -> da_lost c \/ immediate c = false -> immediate c = false.
Proof. intros E0 [Hl|Hm]; [|done]. pose proof (dl_lost k c Hl) as H. by rewrite E0 in H. Qed.

Lemma mode_same k c r c' : da_call k c = (r, c') -> mode_after k (match r with inr _ => true | inl _ => false end) c = (da_auto c, da_explicit c) ->
  immediate c = false -> da_lost c' \/ immediate c' = false.
Proof. intros E0 Hk Hm. apply dl_mode in E0 as [|E0]; [by left|]. rewrite Hk in E0. injection E0 as Ha He. right. unfold immediate in *. by rewrite Ha, He. Qed.

Lemma inside_cursor o : triple (inside o) (tell OpenCursor) (fun _ => inside o) (fun _ => nothing).
Proof.
  intros c (Hd & Ho & Hm). destruct (tell OpenCursor c) as [[e|a] c'] eqn:E0.
  - apply tell_inl in E0 as (t & _ & E0). apply dl_fail in E0. unfold nothing. by rewrite E0.
  - pose proof (tell_ok _ _ _ _ E0) as [H1 H2]. apply tell_inr in E0 as [b E0]. pose proof (alive _ _ _ _ E0 Hm) as Hi.
    split; [by rewrite H1|]. split; [by rewrite H2|]. by apply (mode_same _ _ _ _ E0).
Qed.

Lemma inside_execute : triple (inside []) (tell (Execute sql)) (fun _ => inside [sql]) (fun _ => nothing).
Proof.
  intros c (Hd & Ho & Hm). destruct (tell (Execute sql) c) as [[e|a] c'] eqn:E0.
  - apply tell_inl in E0 as (t & _ & E0). unfold nothing. destruct Hm as [Hl|Hm].
    + pose proof (dl_lost (Execute sql) c Hl) as H. rewrite E0 in H. destruct H as [_ ->]. done.
    + apply dl_fail in E0. rewrite E0; [done..|]. by rewrite Ho.
  - apply tell_inr in E0 as [b E0]. pose proof (alive _ _ _ _ E0 Hm) as Hi. pose proof (dl_ok _ _ _ _ E0) as (H1 & _ & H3).
    specialize (H3 Hi Hplain). rewrite Ho in *. simpl in H3. rewrite H3 in H1. apply app_inv_tail in H1.
    split; [by rewrite H1|]. split; [done|]. by apply (mode_same _ _ _ _ E0).
Qed.

Lemma inside_drain : triple (inside [sql]) drain_all (fun _ => inside [sql]) (fun _ => nothing).
Proof.
  intros c Hc. unfold drain_all. generalize (da_more c) as fuel. intros fuel. revert c Hc.
  assert (triple (inside [sql]) (ask NextSet) (fun _ => inside [sql]) (fun _ => nothing)) as Hask.
  { intros c (Hd & Ho & Hm). unfold ask. destruct (da_call NextSet c) as [[t|b] c'] eqn:E0.
    - unfold nothing. destruct Hm as [Hl|Hm]; [pose proof (dl_lost NextSet c Hl) as H; rewrite E0 in H; by destruct H as [_ ->]|].
      apply dl_fail in E0. rewrite E0; [done..|]. rewrite Ho. by constructor.
    - pose proof (alive _ _ _ _ E0 Hm) as Hi. pose proof (dl_ok _ _ _ _ E0) as [H1 H2]. split; [by rewrite H1|]. split; [by rewrite H2|].
      by apply (mode_same _ _ _ _ E0). }
  change (triple (inside [sql]) (drain fuel) (fun _ => inside [sql]) (fun _ => nothing)).
  induction fuel as [|fuel IH]; cbn [drain]; apply (triple_bind _ _ _ (fun _ => inside [sql])); try done;
    intros [|[]| | |]; first [exact IH|by apply triple_ret].
Qed.

Lemma inside_commit : triple (inside [sql]) (tell Commit) (fun _ => whole) (fun _ => either).
Proof.
  intros c (Hd & Ho & _). destruct (tell Commit c) as [[e|a] c'] eqn:E0.
  - apply tell_inl in E0 as (t & _ & E0). apply dl_fail in E0. unfold either, nothing, whole. rewrite Ho, Hd in E0. exact E0.
  - apply tell_ok in E0 as [H1 _]. unfold whole. by rewrite H1, Ho, Hd.
Qed.

Lemma either_keeps (P : C -> Prop) (k : db_call) : P = nothing \/ P = either -> k = Rollback \/ (exists on, k = Autocommit on) ->
  triple P (tell k) (fun _ => P) (fun _ => P).
Proof.
  intros HP Hk c Hc. assert (forall c', da_durable c' = da_durable c -> P c') as Hsame.
  { intros c' E0. destruct HP as [->| ->]; unfold either, nothing, whole in *; by rewrite E0. }
  destruct (tell k c) as [[e|a] c'] eqn:E0.
  - apply tell_inl in E0 as (t & _ & E0). apply dl_fail in E0. destruct Hk as [->|[on ->]]; auto.
  - apply tell_ok in E0. destruct Hk as [->|[on ->]]; destruct E0; auto.
Qed.

Lemma or_value_error_triple {A} (P : C -> Prop) msg (m : DM A) Q (X : C -> Prop) :
  triple P m Q (fun _ => X) -> triple P (or_value_error msg m) Q (fun _ => X).
Proof. intros H. apply (triple_catch _ _ _ (fun _ => X)); [done|]. intros e. by apply triple_raise. Qed.

Lemma nothing_either c : nothing c -> either c.
Proof. by left. Qed.
Hint Resolve nothing_either : eds.

(** the start of a transaction *)
Definition idle (c : C) : Prop := da_durable c = d /\ da_open c = [].

Lemma idle_begin : triple idle (tell Begin) (fun _ => inside []) (fun _ => nothing).
Proof.
  intros c [Hd Ho]. destruct (tell Begin c) as [[e|a] c'] eqn:E0.
  - apply tell_inl in E0 as (t & _ & E0). apply dl_fail in E0. unfold nothing. by rewrite E0.
  - pose proof (tell_ok _ _ _ _ E0) as [H1 H2]. apply tell_inr in E0 as [b E0]. rewrite Ho, app_nil_r in H1. split; [by rewrite H1|].
    split; [done|]. apply dl_mode in E0 as [|E0]; [by left|]. injection E0 as Ha He. right. unfold immediate. by rewrite He, andb_false_r.
Qed.

Lemma idle_autocommit : triple idle (tell (Autocommit false)) (fun _ => inside []) (fun _ => nothing).
Proof.
  intros c [Hd Ho]. destruct (tell (Autocommit false) c) as [[e|a] c'] eqn:E0.
  - apply tell_inl in E0 as (t & _ & E0). apply dl_fail in E0. unfold nothing. by rewrite E0.
  - pose proof (tell_ok _ _ _ _ E0) as [H1 H2]. apply tell_inr in E0 as [b E0]. split; [by rewrite H1|].
    split; [done|]. apply dl_mode in E0 as [|E0]; [by left|]. injection E0 as Ha He. right. unfold immediate. by rewrite Ha.
Qed.

Lemma attempt_either (P : C -> Prop) (m : DM unit) (Q X Y : C -> Prop) : triple P m (fun _ => Q) (fun _ => X) ->
  triple P (attempt m) (fun r c => match r with inl _ => X c | inr _ => Q c end) (fun _ => Y).
Proof. intros H c Hc. rewrite attempt_eq. specialize (H c Hc). by destruct (m c) as [[]]. Qed.

Lemma weaken {A} (P : C -> Prop) (m : DM A) Q (X X' : C -> Prop) :
  triple P m Q (fun _ => X) -> (forall c, X c -> X' c) -> triple P m Q (fun _ => X').
Proof. intros H HX. by apply (triple_post _ _ _ Q _ (fun _ => X)); [|done|intros ?]. Qed.

Lemma pg_atomic : triple idle (pg_execute_in_transaction sql) (fun _ => whole) (fun _ => either).
Proof.
  apply (triple_catch _ _ _ (fun _ => either)); [|intros []; by apply triple_raise].
  apply (triple_bind _ _ _ (fun _ => inside [])); [apply (weaken _ _ _ nothing), nothing_either; apply idle_begin|]. intros _.
  apply (triple_bind _ _ _ (fun r c => match r with inl _ => nothing c | inr _ => inside [sql] c end)).
  { apply attempt_either, or_value_error_triple, inside_execute. }
  intros [e|[]]; [|apply inside_commit].
  apply (triple_bind _ _ _ (fun r c => match r with inl _ => nothing c | inr _ => nothing c end)).
  - apply attempt_either, either_keeps; by left.
  - intros []; apply triple_raise, nothing_either.
Qed.

Lemma commit_or_value_error msg : triple (inside [sql]) (or_value_error msg (tell Commit)) (fun _ => whole) (fun _ => either).
Proof. apply or_value_error_triple, inside_commit. Qed.

Lemma my_atomic : triple idle (my_execute_in_transaction sql) (fun _ => whole) (fun _ => either).
Proof.
  apply (triple_bind _ _ _ (fun _ => inside [])); [apply (weaken _ _ _ nothing), nothing_either; apply or_value_error_triple, idle_begin|]. intros _.
  apply (triple_bind _ _ _ (fun r c => match r with inl _ => either c | inr _ => whole c end)).
  { apply attempt_either.
    apply (triple_bind _ _ _ (fun _ => inside [sql])); [|intros _; apply commit_or_value_error].
    apply (weaken _ _ _ nothing), nothing_either. apply (triple_bind _ _ _ (fun _ => inside [])); [apply inside_cursor|]. intros _.
    apply or_value_error_triple. apply (triple_bind _ _ _ (fun _ => inside [sql])); [apply inside_execute|intros _; apply inside_drain]. }
  intros [e|[]]; [|by apply triple_ret].
  apply (triple_bind _ _ _ (fun _ => either)); [apply either_keeps; [by right|by left]|]. intros _. by apply triple_raise.
Qed.

Lemma ms_atomic : triple idle (ms_execute_in_transaction sql) (fun _ => whole) (fun _ => either).
Proof.
  apply (triple_bind _ _ _ (fun _ => inside [])); [apply (weaken _ _ _ nothing), nothing_either; apply idle_autocommit|]. intros _.
  apply (triple_bind _ _ _ (fun r c => match r with inl _ => either c | inr _ => whole c end)).
  { apply attempt_either.
    apply (triple_catch _ _ _ (fun _ => either)).
    - apply (triple_bind _ _ _ (fun _ => inside [sql])); [|intros _; apply commit_or_value_error].
      apply (weaken _ _ _ nothing), nothing_either. apply (triple_bind _ _ _ (fun _ => inside [])); [apply inside_cursor|]. intros _.
      apply or_value_error_triple, inside_execute.
    - intros e. apply (triple_bind _ _ _ (fun _ => either)); [apply either_keeps; [by right|by left]|]. intros _. by apply triple_raise. }
  intros [e|[]].
  - apply (triple_bind _ _ _ (fun _ => either)); [apply either_keeps; [by right|right; by exists true]|]. intros _. by apply triple_raise.
  - intros c Hc. unfold mbind, M_bind. destruct (tell (Autocommit true) c) as [[e|a] c'] eqn:E0.
    + apply tell_inl in E0 as (t & _ & E0). apply dl_fail in E0. right. unfold whole. by rewrite E0.
    + apply tell_ok in E0 as [E0 _]. unfold mret, M_ret, whole. by rewrite E0.
Qed.
End atomic.

(** *** A connection between two calls of the driver *)

(** with autocommit on, no transaction is open *)
Definition ready (c : C) : Prop := da_lost c \/ da_auto c = true /\ da_explicit c = false /\ da_open c = [].
Definition begun (c : C) : Prop := da_lost c \/ da_auto c = true.

Lemma ready_immediate c : ready c -> da_lost c \/ immediate c = true /\ da_open c = [].
Proof. intros [?|(H1 & H2 & H3)]; [by left|]. right. unfold immediate. by rewrite H1, H2. Qed.

Lemma ready_ask k : match k with Execute _ | ExecuteMulti _ _ | NextSet | RowCount | FetchOne | FetchAll | OpenCursor => True | _ => False end ->
  stays ready (ask k).
Proof.
  intros Hk c Hc. unfold ask. destruct (ready_immediate c Hc) as [Hl|[Hi Ho]].
  { pose proof (dl_lost k c Hl) as H. destruct (da_call k c) as [[] c']; [by left; destruct H|done]. }
  destruct Hc as [Hl|(Ha & He & _)].
  { pose proof (dl_lost k c Hl) as H. destruct (da_call k c) as [[] c']; [by left; destruct H|done]. }
  destruct (da_call k c) as [[t|a] c'] eqn:E0.
  - pose proof (dl_mode _ _ _ _ E0) as [|Hm]; [by left|]. pose proof (dl_open _ _ _ _ E0) as [|H2]; [by left|]. right.
    destruct k; try done; injection Hm as -> ->; rewrite H2; auto.
  - pose proof (dl_mode _ _ _ _ E0) as [|Hm]; [by left|]. pose proof (dl_ok _ _ _ _ E0) as H2. right.
    destruct k; try done; injection Hm as -> ->; (split; [done|split; [done|]]); first [by destruct H2 as (_ & H2 & _); apply H2|by destruct H2 as [_ ->]].
Qed.

Lemma ready_tell k : match k with Execute _ | ExecuteMulti _ _ | NextSet | RowCount | FetchOne | FetchAll | OpenCursor => True | _ => False end ->
  stays ready (tell k).
Proof. intros Hk. apply stays_bind; [by apply ready_ask|]. intros a. apply stays_ret. Qed.

Ltac ready := stays_with ltac:(first [by apply ready_tell | by apply ready_ask]).

Lemma ready_query fn : stays ready (query_single_value other_str fn).
Proof. unfold query_single_value, with_cursor. ready. Qed.
Lemma ready_build column value fail conditions : stays ready (build_db_schema_from_info_schema column value fail conditions).
Proof. unfold build_db_schema_from_info_schema, with_cursor. ready. Qed.
Lemma ready_run sql : stays ready (run_sql sql).
Proof. unfold run_sql, with_cursor. ready. Qed.

Lemma begun_tell k : (forall on, k <> Autocommit on) -> stays begun (tell k).
Proof.
  intros Hk c Hc. unfold tell, ask, mbind, M_bind. destruct Hc as [Hl|Ha].
  { pose proof (dl_lost k c Hl) as H. destruct (da_call k c) as [[] c']; [by left; destruct H|done]. }
  destruct (da_call k c) as [[t|a] c'] eqn:E0; (pose proof (dl_mode _ _ _ _ E0) as [|Hm]; [by left|]); right.
  all: destruct k as [| | | | | | | | |on|]; try (by injection Hm as -> _); by destruct (Hk on).
Qed.

(** a transaction that ends leaves a ready connection *)
Lemma begun_ends k : k = Commit \/ k = Rollback -> triple begun (tell k) (fun _ => ready) (fun _ => ready).
Proof.
  intros Hk c Hc. destruct Hc as [Hl|Ha].
  { unfold tell, ask, mbind, M_bind. pose proof (dl_lost k c Hl) as H. destruct (da_call k c) as [[] c']; [by left; destruct H|done]. }
  destruct (tell k c) as [[e|a] c'] eqn:E0.
  - apply tell_inl in E0 as (t & _ & E0). pose proof (dl_mode _ _ _ _ E0) as [|Hm]; [by left|].
    destruct Hk as [->| ->]; [|left; apply (dl_stuck _ _ _ _ E0); by left].
    pose proof (dl_open _ _ _ _ E0) as [|Ho]; [by left|]. right. by injection Hm as -> ->.
  - pose proof (tell_ok _ _ _ _ E0) as Ho. apply tell_inr in E0 as [b E0]. pose proof (dl_mode _ _ _ _ E0) as [|Hm]; [by left|]. right.
    destruct Hk as [->| ->]; injection Hm as -> ->; by destruct Ho as [_ ->].
Qed.

Lemma ready_begun c : ready c -> begun c.
Proof. intros [?|(? & _)]; [by left|by right]. Qed.

Lemma ready_begin : triple ready (tell Begin) (fun _ => begun) (fun _ => ready).
Proof.
  intros c Hc. destruct (tell Begin c) as [[e|a] c'] eqn:E0.
  - apply tell_inl in E0 as (t & _ & E0). destruct Hc as [Hl|(Ha & He & Ho)].
    { pose proof (dl_lost Begin c Hl) as H. rewrite E0 in H. by left; destruct H. }
    pose proof (dl_mode _ _ _ _ E0) as [|Hm]; [by left|]. pose proof (dl_open _ _ _ _ E0) as [|H2]; [by left|]. right.
    injection Hm as -> ->. by rewrite H2.
  - pose proof (begun_tell Begin ltac:(done) c (ready_begun c Hc)) as H. by rewrite E0 in H.
Qed.

Lemma ready_pg sql : stays ready (pg_execute_in_transaction sql).
Proof.
  unfold pg_execute_in_transaction. apply stays_catch; [|intros []; apply stays_raise].
  apply (triple_bind _ _ _ (fun _ => begun)); [apply ready_begin|]. intros _.
  apply (triple_bind _ _ _ (fun _ => begun)).
  { intros c Hc. rewrite attempt_eq. refine (_ : begun _).
    assert (stays begun (or_value_error (u"unable to execute sql: ") (tell (Execute sql)))) as H.
    { apply stays_catch; [by apply begun_tell|intros ?; apply stays_raise]. }
    specialize (H c Hc). by destruct (or_value_error _ _ c) as [[] ?]. }
  intros [e|[]]; [|apply begun_ends; by left].
  apply (triple_bind _ _ _ (fun _ => ready)); [|intros _; by apply triple_raise].
  intros c Hc. rewrite attempt_eq. pose proof (begun_ends Rollback ltac:(by right) c Hc) as H. by destruct (tell Rollback c) as [[] ?].
Qed.

Lemma switched c : match tell (Autocommit true) c with (inr _, c') => ready c' | (inl _, c') => ready c' end.
Proof.
  destruct (tell (Autocommit true) c) as [[e|a] c'] eqn:E0.
  - apply tell_inl in E0 as (t & _ & E0). left. apply (dl_stuck _ _ _ _ E0). right. by exists true.
  - pose proof (tell_ok _ _ _ _ E0) as Ho. apply tell_inr in E0 as [b E0]. pose proof (dl_mode _ _ _ _ E0) as [|Hm]; [by left|]. right.
    injection Hm as -> ->. by destruct Ho as [_ ->].
Qed.

(** whatever fails, SQL Server is left with autocommit on and nothing open *)
Lemma ms_left sql c : ready (ms_execute_in_transaction sql c).2.
Proof.
  unfold ms_execute_in_transaction. unfold mbind at 1, M_bind at 1.
  destruct (tell (Autocommit false) c) as [[e|[]] c1] eqn:E0.
  { apply tell_inl in E0 as (t & _ & E0). left. apply (dl_stuck _ _ _ _ E0). right. by exists false. }
  unfold mbind at 1, M_bind at 1. rewrite attempt_eq. set (r := (catch _ _ c1).1). set (c2 := (catch _ _ c1).2).
  unfold mbind, M_bind. pose proof (switched c2) as H. destruct (tell (Autocommit true) c2) as [[e|[]] c3]; [done|]. by destruct r.
Qed.

Lemma ready_ms sql : stays ready (ms_execute_in_transaction sql).
Proof. intros c _. pose proof (ms_left sql c) as H. by destruct (ms_execute_in_transaction sql c) as [[] ?]. Qed.
(** *** No transaction is left open *)

(** no transaction is open, or the connection is gone and with it what was open *)
Definition shut (c : C) : Prop := da_lost c \/ da_explicit c = false /\ da_open c = [].
Definition anywhere (c : C) : Prop := True.

Lemma anywhere_any {A} (m : DM A) : triple anywhere m (fun _ => anywhere) (fun _ => anywhere).
Proof. intros c _. by destruct (m c) as [[] ?]. Qed.

Lemma attempt_anywhere (m : DM unit) X : triple anywhere (attempt m) (fun _ => anywhere) X.
Proof. intros c _. by rewrite attempt_eq. Qed.

(** the state a computation that keeps [P] ends in *)
Lemma stays_state {A} (P : C -> Prop) (m : DM A) c : stays P m -> P c -> P (m c).2.
Proof. intros H Hc. specialize (H c Hc). by destruct (m c) as [[] ?]. Qed.

Lemma shut_begin : triple shut (tell Begin) (fun _ => anywhere) (fun _ => shut).
Proof.
  intros c Hc. destruct (tell Begin c) as [[e|a] c'] eqn:E0; [|done].
  apply tell_inl in E0 as (t & _ & E0). destruct Hc as [Hl|[He Ho]].
  { pose proof (dl_lost Begin c Hl) as H. rewrite E0 in H. by left; destruct H. }
  pose proof (dl_mode _ _ _ _ E0) as [|Hm]; [by left|]. pose proof (dl_open _ _ _ _ E0) as [|H2]; [by left|].
  right. injection Hm as _ ->. by rewrite H2.
Qed.

(** a commit and a rollback end the transaction, also when they fail *)
Lemma shut_end k : k = Commit \/ k = Rollback -> triple anywhere (tell k) (fun _ => shut) (fun _ => shut).
Proof.
  intros Hk c _. destruct (tell k c) as [[e|a] c'] eqn:E0.
  - apply tell_inl in E0 as (t & _ & E0). destruct Hk as [->| ->]; [|left; apply (dl_stuck _ _ _ _ E0); by left].
    pose proof (dl_mode _ _ _ _ E0) as [|Hm]; [by left|]. pose proof (dl_open _ _ _ _ E0) as [|Ho]; [by left|].
    right. by injection Hm as _ ->.
  - pose proof (tell_ok _ _ _ _ E0) as Ho. apply tell_inr in E0 as [b E0]. pose proof (dl_mode _ _ _ _ E0) as [|Hm]; [by left|]. right.
    destruct Hk as [->| ->]; injection Hm as _ ->; by destruct Ho as [_ ->].
Qed.

Lemma shut_pg sql : stays shut (pg_execute_in_transaction sql).
Proof.
  apply stays_catch; [|intros []; apply stays_raise].
  apply (triple_bind _ _ _ (fun _ => anywhere)); [apply shut_begin|]. intros _.
  apply (triple_bind _ _ _ (fun _ => anywhere)); [apply attempt_anywhere|].
  intros [e|[]]; [|apply shut_end; by left].
  apply (triple_bind _ _ _ (fun _ => shut)); [|intros _; by apply triple_raise].
  intros c Hc. rewrite attempt_eq. pose proof (shut_end Rollback ltac:(by right) c Hc) as H. by destruct (tell Rollback c) as [[] ?].
Qed.

Lemma shut_my sql : stays shut (my_execute_in_transaction sql).
Proof.
  apply (triple_bind _ _ _ (fun _ => anywhere)); [apply or_value_error_triple, shut_begin|]. intros _.
  apply (triple_bind _ _ _ (fun r c => match r with inl _ => anywhere c | inr _ => shut c end)).
  - apply attempt_either. apply (triple_bind _ _ _ (fun _ => anywhere)); [apply anywhere_any|]. intros _.
    apply (weaken _ _ _ shut); [apply or_value_error_triple, shut_end; by left|done].
  - intros [e|[]]; [|by apply triple_ret]. apply (triple_bind _ _ _ (fun _ => shut)); [apply shut_end; by right|].
    intros _. by apply triple_raise.
Qed.

Lemma begun_pg sql : stays begun (pg_execute_in_transaction sql).
Proof. unfold pg_execute_in_transaction, transaction, or_value_error. stays_with ltac:(first [by apply begun_tell | apply stays_attempt]). Qed.

Lemma begun_drain : stays begun drain_all.
Proof.
  intros c. unfold drain_all. generalize (da_more c) as fuel. intros fuel. revert c. change (stays begun (drain fuel)).
  assert (stays begun (ask NextSet)) as Hask.
  { intros c Hc. pose proof (begun_tell NextSet ltac:(done) c Hc) as H. unfold tell, mbind, M_bind in H. by destruct (ask NextSet c) as [[] ?]. }
  induction fuel as [|fuel IH]; cbn [drain]; (apply stays_bind; [exact Hask|]); intros [|[]| | |]; first [exact IH|apply stays_ret].
Qed.

Lemma begun_my sql : stays begun (my_execute_in_transaction sql).
Proof.
  unfold my_execute_in_transaction, with_cursor, or_value_error.
  stays_with ltac:(first [apply begun_drain | by apply begun_tell | apply stays_attempt]).
Qed.

(** *** A flush *)

(** what a batch leaves *)
Definition all_or_nothing (sql : pystr) (c : C) (r : db_error + unit) (c' : C) : Prop :=
  match r with
  | inr _ => da_durable c' = da_durable c ++ [sql]
  | inl _ => da_durable c' = da_durable c \/ da_durable c' = da_durable c ++ [sql]
  end /\
  (da_lost c' \/ da_open c' = [] /\ da_explicit c' = false /\ (da_auto c = true -> da_auto c' = true)).

Lemma left_idle (c c' : C) : shut c' -> (da_auto c = true -> begun c') ->
  da_lost c' \/ da_open c' = [] /\ da_explicit c' = false /\ (da_auto c = true -> da_auto c' = true).
Proof.
  intros [?|[He Ho]] Hb; [by left|]. destruct (da_auto c); [|by right].
  destruct (Hb eq_refl) as [?|?]; [by left|by right].
Qed.

(** C14: A flush is atomic over each of the three adapters, whichever call of the
    client fails: a batch that does not commit on its own, executed when no
    transaction is open, is stored as a whole when the call returns, and as a
    whole or not at all when it raises; and either way no transaction is left
    open and autocommit is on again where it was, or the connection is lost. *)
Theorem flush_atomic sql c : da_plain sql -> da_open c = [] -> da_explicit c = false ->
  all_or_nothing sql c (pg_execute_in_transaction sql c).1 (pg_execute_in_transaction sql c).2 /\
  all_or_nothing sql c (my_execute_in_transaction sql c).1 (my_execute_in_transaction sql c).2 /\
  all_or_nothing sql c (ms_execute_in_transaction sql c).1 (ms_execute_in_transaction sql c).2.
Proof.
  intros Hp Ho He. assert (idle (da_durable c) c) as Hi by done. assert (shut c) as Hs by by right. unfold all_or_nothing.
  split_and!.
  - pose proof (pg_atomic (da_durable c) sql Hp c Hi) as H. by destruct (pg_execute_in_transaction sql c) as [[] ?].
  - apply left_idle; [apply (stays_state shut), Hs; apply shut_pg|]. intros Ha. apply (stays_state begun); [apply begun_pg|by right].
  - pose proof (my_atomic (da_durable c) sql Hp c Hi) as H. by destruct (my_execute_in_transaction sql c) as [[] ?].
  - apply left_idle; [apply (stays_state shut), Hs; apply shut_my|]. intros Ha. apply (stays_state begun); [apply begun_my|by right].
  - pose proof (ms_atomic (da_durable c) sql Hp c Hi) as H. by destruct (ms_execute_in_transaction sql c) as [[] ?].
  - destruct (ms_left sql c) as [?|(? & ? & ?)]; [by left|by right].
Qed.
End laws.

(** ** What the drivers rely on

    A database keeps what is durable through every call, and what it takes is
    durable when the call returns. *)
Section promise.
Context {DB : Type}.

Definition keeps_log {E A} (log : DB -> list pystr) (ok : DB -> Prop) (f : method DB E A) : Prop :=
  forall d, ok d -> ok (f d).2 /\ log d `prefix_of` log (f d).2.

Definition takes {E} (log : DB -> list pystr) (ok : DB -> Prop) (f : pystr -> method DB E unit) : Prop :=
  forall sql d a d', ok d -> f sql d = (inr a, d') -> exists l, log d' = log d ++ l ++ [sql].
End promise.

Class DurableDb (DB : Type) (db : SqlDb DB) := {
  dd_log : DB -> list pystr;
  dd_ready : DB -> Prop;
  dd_query fn : keeps_log dd_log dd_ready (db_query_single_value fn);
  dd_build column value fail : keeps_log dd_log dd_ready (db_build_schema column value fail);
  dd_exec sql : keeps_log dd_log dd_ready (db_exec sql);
  dd_drop table : keeps_log dd_log dd_ready (db_drop_table table);
  dd_transaction sql : keeps_log dd_log dd_ready (db_execute_in_transaction sql);
  dd_import sql : keeps_log dd_log dd_ready (db_import_exec sql);
  dd_transaction_takes : takes dd_log dd_ready db_execute_in_transaction;
  dd_import_takes : takes dd_log dd_ready db_import_exec
}.

Section instances.
Context {C : Type} `{!DbApi C} `{!DbApiLaws C} (other_str : pyobj -> pystr).

Lemma seam_keeps {A} (ok : C -> Prop) (m : M C db_error A) : grows m -> stays ok m -> keeps_log da_durable ok (seam m).
Proof. intros Hg Hs c Hc. specialize (Hg c). specialize (Hs c Hc). unfold seam. by destruct (m c) as [[] ?]. Qed.

Lemma seam_inr {A} (m : M C db_error A) c a c' : seam m c = (inr a, c') -> m c = (inr a, c').
Proof. unfold seam. destruct (m c) as [[] ?]; [done|]. by intros [= -> ->]. Qed.

Lemma stays_any {A} (m : M C db_error A) : stays (fun _ => True) m.
Proof. intros c _. by destruct (m c) as [[] ?]. Qed.

(** a statement that is executed with autocommit on is durable *)
Lemma ready_execute sql c a c' : ready c -> tell (Execute sql) c = (inr a, c') -> da_durable c' = da_durable c ++ [sql].
Proof.
  intros Hc [b E0]%tell_inr. destruct (ready_immediate c Hc) as [Hl|[Hi Ho]].
  { pose proof (dl_lost (Execute sql) c Hl) as H. by rewrite E0 in H. }
  apply dl_ok in E0 as (H1 & H2 & _). rewrite (H2 Hi Ho), Ho, app_nil_r in H1. exact H1.
Qed.

Lemma ready_run_takes sql c a c' : ready c -> run_sql sql c = (inr a, c') -> da_durable c' = da_durable c ++ [sql].
Proof.
  intros Hc (b & c1 & E1 & E2)%bind_split. assert (ready c1) as H1.
  { pose proof (ready_tell OpenCursor I c Hc) as H. by rewrite E1 in H. }
  apply tell_ok in E1 as [<- _]. by apply (ready_execute sql c1 a).
Qed.

(** PostgreSQL, with autocommit on *)
#[export] Program Instance pg_durable : DurableDb C (pg_db other_str false) := {|
  dd_log := da_durable;
  dd_ready := ready
|}.
Next Obligation. intros fn. apply seam_keeps; [apply grows_query|apply ready_query]. Qed.
Next Obligation. intros column value fail. apply seam_keeps; [apply grows_build|apply ready_build]. Qed.
Next Obligation. intros sql. apply seam_keeps; [apply grows_tell|by apply ready_tell]. Qed.
Next Obligation. intros table. apply seam_keeps; [apply grows_run|apply ready_run]. Qed.
Next Obligation. intros sql. apply seam_keeps; [apply grows_pg|apply ready_pg]. Qed.
Next Obligation. intros sql. apply seam_keeps; [apply grows_run|apply ready_run]. Qed.
Next Obligation. intros sql c a c' _ E0%seam_inr%pg_stores. by exists (da_open c). Qed.
Next Obligation. intros sql c a c' Hc E0%seam_inr%ready_run_takes; [|done]. by exists []. Qed.

(** MySQL commits what it executes *)
#[export] Program Instance my_durable : DurableDb C (my_db other_str false) := {|
  dd_log := da_durable;
  dd_ready _ := True
|}.
Next Obligation. intros fn. apply seam_keeps; [apply grows_query|apply stays_any]. Qed.
Next Obligation. intros column value fail. apply seam_keeps; [apply grows_build|apply stays_any]. Qed.
Next Obligation. intros sql. apply seam_keeps; [apply grows_my_exec|apply stays_any]. Qed.
Next Obligation. intros table. apply seam_keeps; [apply grows_my_exec|apply stays_any]. Qed.
Next Obligation. intros sql. apply seam_keeps; [apply grows_my|apply stays_any]. Qed.
Next Obligation. intros sql. apply seam_keeps; [apply grows_my_exec|apply stays_any]. Qed.
Next Obligation. intros sql c a c' _ E0%seam_inr%my_stores. by exists (da_open c). Qed.
Next Obligation. intros sql c a c' _ E0%seam_inr%my_exec_stores. by exists (da_open c). Qed.

(** SQL Server, with autocommit on but in a flush *)
#[export] Program Instance ms_durable : DurableDb C (ms_db other_str false) := {|
  dd_log := da_durable;
  dd_ready := ready
|}.
Next Obligation. intros fn. apply seam_keeps; [apply grows_query|apply ready_query]. Qed.
Next Obligation. intros column value fail. apply seam_keeps; [apply grows_build|apply ready_build]. Qed.
Next Obligation. intros sql. apply seam_keeps; [apply grows_run|apply ready_run]. Qed.
Next Obligation. intros table. apply seam_keeps; [apply grows_run|apply ready_run]. Qed.
Next Obligation. intros sql. apply seam_keeps; [apply grows_ms|apply ready_ms]. Qed.
Next Obligation. intros sql. apply seam_keeps; [apply grows_run|apply ready_run]. Qed.
Next Obligation. intros sql c a c' _ E0%seam_inr%ms_stores. by exists []. Qed.
Next Obligation. intros sql c a c' Hc E0%seam_inr%ready_run_takes; [|done]. by exists []. Qed.
End instances.

(** ** The driver over a database *)
Section over.
Context {DB R : Type} `{dialect : !SqlDialect} {db : SqlDb DB} `{!Registry R} {durable_db : DurableDb DB db}.
Notation SD := (@SD DB R).

(** the batches the driver counts as accepted are in the database, in their order *)
Definition recorded (s : SD) : Prop := dd_ready (sd_db s) /\ sd_committed s `sublist_of` dd_log (sd_db s).

Lemma recorded_modify (f : SD -> SD) : (forall s, sd_db (f s) = sd_db s /\ sd_committed (f s) = sd_committed s) -> stays recorded (modify f : M SD sql_error unit).
Proof. intros Hf. apply stays_modify. intros s [H1 H2]. destruct (Hf s) as [E1 E2]. split; by rewrite ?E1, ?E2. Qed.

Lemma recorded_db {A} (f : method DB unit A) : keeps_log dd_log dd_ready f -> stays recorded (on_db f).
Proof.
  intros Hf s [H1 H2]. destruct (Hf _ H1) as [H3 [l H4]]. unfold on_db. destruct (f (sd_db s)) as [[] d]; simpl in *.
  all: split; [done|]; simpl; rewrite H4; by apply sublist_inserts_r.
Qed.

Lemma recorded_registry {A} (f : method R registry_error A) : stays recorded (on_registry f).
Proof. intros s H. unfold on_registry. by destruct (f (sd_registry s)) as [[] g]. Qed.

Lemma recorded_built sql : stays recorded (built sql).
Proof. destruct sql; [apply stays_ret|apply stays_raise]. Qed.

(** a batch that is taken and counted *)
Lemma recorded_takes (f : pystr -> method DB unit unit) batch : (forall sql, keeps_log dd_log dd_ready (f sql)) -> takes dd_log dd_ready f ->
  stays recorded (_ ← on_db (f batch); modify (sd_commit batch)).
Proof.
  intros Hk Ht s [H1 H2]. destruct (Hk batch _ H1) as [H3 [l H4]]. pose proof (Ht batch (sd_db s)) as H5.
  unfold on_db, mbind, M_bind. destruct (f batch (sd_db s)) as [[[]|[]] d]; simpl in *.
  - split; [done|]. simpl. rewrite H4. by apply sublist_inserts_r.
  - destruct (H5 tt d H1 eq_refl) as [l' H6]. split; [done|]. simpl. rewrite H6. apply sublist_app; [done|]. by apply sublist_inserts_l.
Qed.

Lemma recorded_takes_then (f : pystr -> method DB unit unit) batch (k : unit -> M SD sql_error unit) :
  (forall sql, keeps_log dd_log dd_ready (f sql)) -> takes dd_log dd_ready f -> (forall u, stays recorded (k u)) ->
  stays recorded (_ ← on_db (f batch); u ← modify (sd_commit batch); k u).
Proof.
  intros Hf Ht Hk s Hs. pose proof (recorded_takes f batch Hf Ht s Hs) as H. unfold mbind, M_bind in *.
  destruct (on_db (f batch) s) as [[e|[]] s1]; [done|]. by apply Hk.
Qed.

Ltac record :=
  stays_with ltac:(first [ apply recorded_takes; [first [apply dd_transaction|apply dd_import]|first [apply dd_transaction_takes|apply dd_import_takes]]
                         | apply recorded_takes_then; [first [apply dd_transaction|apply dd_import]|first [apply dd_transaction_takes|apply dd_import_takes]|intros ?]
                         | apply recorded_registry | apply recorded_built
                         | apply recorded_db; first [apply dd_query|apply dd_build|apply dd_exec|apply dd_drop|apply dd_import]
                         | by apply recorded_modify | apply stays_for_each; intros ? ]).

Lemma recorded_refresh b : stays recorded (_refresh_schema b).
Proof. unfold _refresh_schema. record. Qed.
Lemma recorded_process e : stays recorded (process e).
Proof. unfold process. record. Qed.
Lemma recorded_flush : stays recorded flush.
Proof. unfold flush. record. Qed.
Lemma recorded_exec_all stmts : stays recorded (exec_all stmts).
Proof. unfold exec_all. record. Qed.
Lemma recorded_table schema : stays recorded (migrate_new_table schema).
Proof. unfold migrate_new_table. stays_with ltac:(first [apply recorded_exec_all|apply recorded_refresh|apply recorded_db; first [apply dd_exec|apply dd_drop]]). Qed.
Lemma recorded_columns schema columns : stays recorded (migrate_new_columns schema columns).
Proof. unfold migrate_new_columns. stays_with ltac:(first [apply recorded_exec_all|apply recorded_refresh]). Qed.
Lemma recorded_import_event e data : stays recorded (import_event e data).
Proof. unfold import_event, _flush_import. record. Qed.
Lemma recorded_completed : stays recorded import_completed.
Proof. unfold import_completed. record. Qed.
Lemma recorded_flush_imported : stays recorded flush_imported.
Proof. unfold flush_imported, _flush_import. record. Qed.

Lemma recorded_step op s : recorded s -> recorded (stream_step op s).
Proof.
  intros Hs. destruct op; simpl.
  - apply (stays_run _ _ s _ _ (recorded_process e) (surjective_pairing _) Hs).
  - apply (stays_run _ _ s _ _ recorded_flush (surjective_pairing _) Hs).
  - apply (stays_run _ _ s _ _ (recorded_table schema) (surjective_pairing _) Hs).
  - apply (stays_run _ _ s _ _ (recorded_columns schema columns) (surjective_pairing _) Hs).
Qed.

(** Over a database that keeps its promise, as each of the three adapters does,
    every batch the driver counts as accepted is in the database, once for each
    time and in their order, through any sequence of process, flush and
    migration calls and whatever fails in between; and so it is through the
    events, ends of tables and the end of an import. *)
Theorem accepted_is_durable ops s e data : recorded s ->
  recorded (stream_run ops s) /\ recorded (import_event e data s).2 /\ recorded (flush_imported s).2 /\ recorded (import_completed s).2.
Proof.
  intros Hs. split.
  { revert s Hs. induction ops as [|op ops IH]; intros s Hs; [done|]. by apply IH, recorded_step. }
  split; [|split].
  - apply (stays_run _ _ s _ _ (recorded_import_event e data) (surjective_pairing _) Hs).
  - apply (stays_run _ _ s _ _ recorded_flush_imported (surjective_pairing _) Hs).
  - apply (stays_run _ _ s _ _ recorded_completed (surjective_pairing _) Hs).
Qed.
End over.

(** ** A server on concrete inputs *)
Module Server.
(** the durable texts, those of the open transaction, autocommit, whether a
    transaction was begun, the calls that still succeed: a call beyond them
    loses the connection *)
Record server := mk_server {
  sv_durable : list pystr;
  sv_open : list pystr;
  sv_auto : bool;
  sv_explicit : bool;
  sv_left : nat
}.

Definition answer_of (k : db_call) : answer :=
  match k with
  | NextSet => More false
  | RowCount => Count 0
  | FetchOne => Row (Some [PStr (u"public")])
  | FetchAll => Rows [[PStr (u"order"); PStr (u"id"); PStr (u"text")]; [PStr (u"order"); PStr (u"total"); PStr (u"numeric")]]
  | _ => Done
  end.

Definition served (k : db_call) (s : server) : server :=
  let left := pred (sv_left s) in
  match k with
  | Execute sql | ExecuteMulti sql _ =>
      if sv_auto s && negb (sv_explicit s) then mk_server (sv_durable s ++ sv_open s ++ [sql]) [] (sv_auto s) (sv_explicit s) left
      else mk_server (sv_durable s) (sv_open s ++ [sql]) (sv_auto s) (sv_explicit s) left
  | Begin => mk_server (sv_durable s ++ sv_open s) [] (sv_auto s) true left
  | Commit => mk_server (sv_durable s ++ sv_open s) [] (sv_auto s) false left
  | Rollback => mk_server (sv_durable s) [] (sv_auto s) false left
  | Autocommit on => mk_server (sv_durable s) [] on false left
  | _ => mk_server (sv_durable s) (sv_open s) (sv_auto s) (sv_explicit s) left
  end.

#[export] Instance api : DbApi server := {|
  da_call k s := match sv_left s with O => (inl (u"server has gone away"), s) | S _ => (inr (answer_of k), served k s) end;
  da_durable := sv_durable;
  da_open := sv_open;
  da_auto := sv_auto;
  da_explicit := sv_explicit;
  da_lost s := sv_left s = O;
  da_more _ := O;
  da_plain _ := True
|}.

#[export] Program Instance api_laws : DbApiLaws server.
Next Obligation.
  intros k s. simpl. destruct (sv_left s); [done|]. simpl. unfold served.
  destruct k; try case_match; simpl; first [done|by apply prefix_app_r].
Qed.
Next Obligation. intros k s Hl. simpl in *. by rewrite Hl. Qed.
Next Obligation.
  intros k s r s'. simpl. destruct (sv_left s) eqn:El; intros [= <- <-]; [by left|]. right. unfold served. destruct k; try case_match; done.
Qed.
Next Obligation. intros k s e s'. simpl. destruct (sv_left s) eqn:El; [|done]. by intros [= _ <-]. Qed.
Next Obligation.
  intros k s a s'. simpl. destruct (sv_left s) eqn:El; [done|]. intros [= _ <-]. unfold immediate. simpl. unfold served.
  destruct k; try case_match; simpl; rewrite ?app_nil_r, <- ?app_assoc; done.
Qed.
Next Obligation.
  intros k s e s'. simpl. destruct (sv_left s); [|done]. intros [= _ <-]. destruct k; try done. by left.
Qed.
Next Obligation. intros k s e s'. simpl. destruct (sv_left s) eqn:El; [|done]. intros [= _ <-]. by left. Qed.
Next Obligation. intros s s'. simpl. by destruct (sv_left s). Qed.

(** a connection as [psycopg.connect] and [pymssql.connect] give it; one whose
    commit fails *)
Definition fresh : server := mk_server [u"old"] [] true false 100.
Definition failing : server := mk_server [u"old"] [] true false 2.

(** a commit that is lost: the batch is not stored, and nothing else is *)
Lemma flush_atomic_witness :
  all_or_nothing (u"INSERT") failing (pg_execute_in_transaction (u"INSERT") failing).1 (pg_execute_in_transaction (u"INSERT") failing).2 /\
  all_or_nothing (u"INSERT") failing (my_execute_in_transaction (u"INSERT") failing).1 (my_execute_in_transaction (u"INSERT") failing).2 /\
  all_or_nothing (u"INSERT") failing (ms_execute_in_transaction (u"INSERT") failing).1 (ms_execute_in_transaction (u"INSERT") failing).2.
Proof.
  assert (da_plain (u"INSERT")) as Hp by exact I. assert (da_open failing = []) as Ho by (vm_compute; reflexivity).
  assert (da_explicit failing = false) as He by (vm_compute; reflexivity).
  exact (flush_atomic (u"INSERT") failing Hp Ho He).
Defined.

Example lost_commit :
  pg_execute_in_transaction (u"INSERT") failing =
    (inl (ValueErr (u"unable to commit transaction: server has gone away")), mk_server [u"old"] [u"INSERT"] true true 0).
Proof. vm_compute. reflexivity. Qed.

(** the server's tables *)
Example tables : build_db_schema_from_info_schema (u"table_schema") (u"public") true [] fresh =
  (inr [(u"order", [(u"id", u"text"); (u"total", u"numeric")])],
   mk_server [u"old"; u"SELECT table_name, column_name, data_type FROM information_schema.columns WHERE table_schema = 'public'"] [] true false 97).
Proof. vm_compute. reflexivity. Qed.

#[local] Instance no_dialect : SqlDialect := {|
  dl_quote_identifier t := t;
  dl_to_sql e _ := Some (ev_id e);
  dl_to_append_sql e _ := Some (ev_id e);
  dl_to_sql_from_object _ _ t _ _ := Some t;
  dl_create_table_sql sc := sc_table sc;
  dl_create_append_table_sql sc := sc_table sc;
  dl_create_current_view_sql sc := sc_table sc;
  dl_create_timeline_view_sql sc := sc_table sc;
  dl_drop_views_sql _ := [];
  dl_add_new_columns_sql columns _ _ := columns;
  dl_schema_column := u"table_schema";
  dl_db_name_function := u"current_schema()";
  dl_max_batch_size := -1
|}.

#[local] Instance no_registry : Registry unit := {|
  reg_get_latest_schema r := (inr [], r);
  reg_get_schema _ _ r := (inr example_model, r);
  reg_get_table_version _ r := (inr (true, u"v1"), r);
  reg_set_table_version _ _ r := (inr tt, r)
|}.

#[local] Instance mysql_connection : SqlDb server := my_db (fun _ => []) false.
#[local] Instance mysql_durable : DurableDb server mysql_connection := my_durable (fun _ => []).

(** as [pymysql.connect] gives it *)
Definition idle_driver : @SD server unit :=
  mk_sd (mk_server [] [] false false 100) tt [u"INSERT 1;"; u"INSERT 2;"] 2 18 (u"eds") [] UPSERT false [] [].

Lemma accepted_is_durable_witness :
  recorded idle_driver /\
  (recorded (stream_run [OpFlush; OpFlush] idle_driver) /\ recorded (import_event sample_event example_model idle_driver).2 /\
   recorded (flush_imported idle_driver).2 /\ recorded (import_completed idle_driver).2).
Proof.
  assert (recorded idle_driver) as H by (split; [exact I|apply sublist_nil_l]). split; [exact H|].
  exact (accepted_is_durable [OpFlush; OpFlush] idle_driver sample_event example_model H).
Defined.

(** a statement of a migration that failed half way is in the transaction that is
    still open on a MySQL connection, and the next flush commits it *)
Definition half_way : server := mk_server [] [u"half of a migration"] false false 100.

Example next_flush_commits : (my_execute_in_transaction (u"INSERT") half_way).2 = mk_server [u"half of a migration"; u"INSERT"] [] false false 95.
Proof. vm_compute. reflexivity. Qed.
End Server.
