(* ===== verification/StoredSql.v ===== *)
(** * The consumer down to the connection: eds/consumer, drivers/sql_base.py, drivers/*/data_db.py

    The consumer over the shared SQL driver over an adapter: with a database that
    keeps the promise [DurableDb], what the consumer acknowledges is durable in
    the database itself, not only counted as accepted by the driver. *)
From stdpp Require Import base tactics list option numbers sets strings.
From S2P Require Import Prelude PyStr PyDict PyFloat GoJson Schema DbChange Interfaces BatchProcessor ConsumerSafety Durable SqlAdapters SqlBase SqlLex PgSql ConsumerSql.

Section stored.
Context {DB R : Type} `{dialect : !SqlDialect} {db : SqlDb DB} `{!Registry R} {durable_db : DurableDb DB db}.
Notation SD := (@SD DB R).
Implicit Type d : SD.

(** the statement is part of a text that is durable in the database *)
Definition in_database d (sql : pystr) : Prop := exists batch pre post, batch ∈ dd_log (sd_db d) /\ batch = pre ++ sql ++ post.

Definition sound d : Prop := count_ok d /\ recorded d.

Lemma committed_in_database d sql : recorded d -> committed d sql -> in_database d sql.
Proof. intros [_ Hs] (b & pre & post & Hb & E0). exists b, pre, post. split; [|done]. by eapply elem_of_sublist. Qed.

(** a program that keeps the record keeps what is in the database *)
Lemma in_database_keeps {A} (m : M SD sql_error A) d sql :
  dd_log (sd_db d) `prefix_of` dd_log (sd_db (m d).2) -> in_database d sql -> in_database (m d).2 sql.
Proof. intros [l Hl] (b & pre & post & Hb & E0). exists b, pre, post. split; [|done]. rewrite Hl. apply elem_of_app. by left. Qed.

(** the log only grows *)
Definition logs {A} (m : M SD sql_error A) : Prop :=
  forall d, dd_ready (sd_db d) -> dd_ready (sd_db (m d).2) /\ dd_log (sd_db d) `prefix_of` dd_log (sd_db (m d).2).

Lemma logs_ret {A} (a : A) : logs (mret a).
Proof. by intros d. Qed.
Lemma logs_raise {A} e : logs (raise e : M SD sql_error A).
Proof. by intros d. Qed.
Lemma logs_gets {A} (f : SD -> A) : logs (gets f).
Proof. by intros d. Qed.
Lemma logs_modify (f : SD -> SD) : (forall d, sd_db (f d) = sd_db d) -> logs (modify f : M SD sql_error unit).
Proof. intros Hf d Hd. simpl. by rewrite Hf. Qed.
Lemma logs_bind {A B} (m : M SD sql_error A) (f : A -> M SD sql_error B) : logs m -> (forall a, logs (f a)) -> logs (m ≫= f).
Proof.
  intros Hm Hf d Hd. destruct (Hm d Hd) as [H1 H2]. unfold mbind, M_bind. destruct (m d) as [[e|a] d1]; [done|].
  destruct (Hf a d1 H1) as [H3 H4]. split; [done|]. by etrans.
Qed.
Lemma logs_db {A} (f : method DB unit A) : keeps_log dd_log dd_ready f -> logs (on_db f).
Proof. intros Hf d Hd. specialize (Hf _ Hd). unfold on_db. by destruct (f (sd_db d)) as [[] d1]. Qed.
Lemma logs_registry {A} (f : method R registry_error A) : logs (on_registry f).
Proof. intros d Hd. unfold on_registry. by destruct (f (sd_registry d)) as [[] g]. Qed.
Lemma logs_built sql : logs (built sql).
Proof. destruct sql; [apply logs_ret|apply logs_raise]. Qed.
Lemma logs_for_each {A} (f : A -> M SD sql_error unit) l : (forall a, logs (f a)) -> logs (for_each f l).
Proof. intros Hf. induction l as [|a l IH]; simpl; [apply logs_ret|by apply logs_bind]. Qed.

Ltac log :=
  repeat first [ apply logs_ret | apply logs_raise | apply logs_gets | by apply logs_modify | apply logs_registry | apply logs_built
               | apply logs_db; first [apply dd_query|apply dd_build|apply dd_exec|apply dd_drop|apply dd_transaction|apply dd_import]
               | apply logs_for_each; intros ? | apply logs_bind; [|intros ?] | case_match ].

Lemma logs_process e : logs (process e).
Proof. unfold process. log. Qed.
Lemma logs_flush : logs flush.
Proof. unfold flush. log. Qed.
Lemma logs_table schema : logs (migrate_new_table schema).
Proof. unfold migrate_new_table, exec_all, _refresh_schema. log. Qed.
Lemma logs_columns schema columns : logs (migrate_new_columns schema columns).
Proof. unfold migrate_new_columns, exec_all, _refresh_schema. log. Qed.

(** over the accepted batches, the promise holds for what is in the database *)
Lemma preserves_down {A} (m : M SD sql_error A) : logs m -> stays recorded m -> preserves count_ok pending_stmt committed (lift_driver m) ->
  preserves sound pending_stmt in_database (lift_driver m).
Proof.
  intros Hl Hr [_ H2]. split.
  - intros d sql [_ Hd]. rewrite lift_state. apply in_database_keeps. by apply Hl, Hd.
  - intros d a d' [Hc Hd] E0. destruct (H2 d a d' Hc E0) as [H3 H4].
    assert (recorded d') as Hd' by (apply (stays_run recorded m d _ _ Hr (lift_inr _ _ _ _ E0) Hd)).
    split; [done|]. intros sql Hs. destruct (H4 sql Hs) as [?|?]; [by left|right]. by apply committed_in_database.
Qed.

Lemma bufferless_down {A} (m : M SD sql_error A) : bufferless m -> logs m -> stays recorded m -> preserves sound pending_stmt in_database (lift_driver m).
Proof. intros Hb Hl Hr. apply preserves_down; [done..|]. by apply bufferless_preserves. Qed.

Lemma process_takes_down e d b d' : sound d -> drv_process e d = (inr b, d') ->
  exists sql, statement_of e sql /\ (pending_stmt d' sql \/ in_database d' sql).
Proof.
  intros [Hc Hd] E0. destruct (sql_process_takes e d b d' Hc E0) as (sql & Hs & [?|Hsql]); exists sql; (split; [done|]); [by left|right].
  apply committed_in_database; [|done]. apply (stays_run recorded _ d _ _ (recorded_process e) (lift_inr _ _ _ _ E0) Hd).
Qed.

Lemma flush_stores_down d d' sql : sound d -> drv_flush d = (inr tt, d') -> pending_stmt d sql -> in_database d' sql.
Proof.
  intros [Hc Hd] E0 Hs. apply committed_in_database; [|by apply (sql_flush_stores d d' sql Hc E0 Hs)].
  apply (stays_run recorded _ d _ _ recorded_flush (lift_inr _ _ _ _ E0) Hd).
Qed.

#[local] Instance database_durable : DurableDriver SD pystr := {|
  renders := statement_of;
  driver_ok := sound;
  held := pending_stmt;
  stored := in_database;
  process_preserves := fun e => preserves_down _ (logs_process e) (recorded_process e) (sql_process_preserves e);
  flush_preserves := preserves_down _ logs_flush recorded_flush sql_flush_preserves;
  table_preserves := fun sch => bufferless_down _ (bufferless_migrate_table sch) (logs_table sch) (recorded_table sch);
  columns_preserves := fun sch cols => bufferless_down _ (bufferless_migrate_columns sch cols) (logs_columns sch cols) (recorded_columns sch cols);
  process_takes := process_takes_down;
  flush_stores := flush_stores_down
|}.

(** C3: Over the shared SQL driver and a database that keeps its promise, at the end
    of every run, however it ends, each acknowledged message was skipped, or the
    statement of its event, under some schema, is part of a text that is durable
    in the database. *)
Theorem acked_in_database cfg now_at inputs (s : @BP SD R) i ok :
  bp_trace s = [] -> bp_pending s = [] -> count_ok (bp_driver s) -> recorded (bp_driver s) ->
  TAck i ok ∈ bp_trace (run cfg now_at inputs s).2 ->
  TSkip i ∈ bp_trace (run cfg now_at inputs s).2 \/
  exists m e0 e sql, m ∈ msgs inputs /\ m_id m = i /\ from_message (m_data m) = FMOk e0 /\ same_change e0 e /\
    statement_of e sql /\ in_database (bp_driver (run cfg now_at inputs s).2) sql.
Proof.
  intros Ht Hp Hc Hr Hi. destruct (@acked_settled SD R pystr _ _ database_durable cfg now_at inputs s i ok Ht Hp (conj Hc Hr) Hi) as [?|H]; [by left|right].
  destruct H as (sql & (m & e0 & e & H1 & H2 & H3 & H4 & H5) & Hs). by exists m, e0, e, sql.
Qed.
End stored.

(** ** A run into PostgreSQL over a connection *)
Module StoredRun.
#[local] Existing Instance Pg.pg_dialect.
#[local] Existing Instance ConsumerSqlRun.customer_registry.
#[local] Existing Instance Server.api.
#[local] Existing Instance Server.api_laws.

#[local] Instance connection : SqlDb Server.server := pg_db (fun _ => []) false.
#[local] Instance connection_durable : DurableDb Server.server connection := pg_durable (fun _ => []).

Definition start : @BP (@SD Server.server unit) unit :=
  mk_bp [] None 0 0%nat (mk_sd Server.fresh tt [] 0 0 (u"eds") [] UPSERT false [] []) tt [].

Abbreviation outcome := (run sample_cfg sample_clock sample_inputs start).2.

Lemma start_recorded : recorded (durable_db := connection_durable) (bp_driver start).
Proof. split; [right; done|]. apply sublist_nil_l. Qed.

(** the first message is acknowledged, and its statement is in the database *)
Lemma acked_in_database_witness :
  TAck 1 true ∈ bp_trace outcome /\
  exists m e0 e sql, m ∈ msgs sample_inputs /\ m_id m = 1%nat /\ from_message (m_data m) = FMOk e0 /\ same_change e0 e /\
    statement_of e sql /\ in_database (durable_db := connection_durable) (bp_driver outcome) sql.
Proof.
  assert (TAck 1 true ∈ bp_trace outcome) as H.
  { apply (bool_decide_eq_true_1 _). vm_compute. reflexivity. }
  split; [exact H|].
  destruct (acked_in_database (durable_db := connection_durable) sample_cfg sample_clock sample_inputs start 1 true) as [Hs|Hs];
    [reflexivity|reflexivity|reflexivity|exact start_recorded|exact H| |exact Hs].
  exfalso. revert Hs. apply (bool_decide_eq_false_1 _). vm_compute. reflexivity.
Defined.

(** what the server has at the end *)
Example two_texts : length (Server.sv_durable (sd_db (bp_driver outcome))) = 2%nat.
Proof. vm_compute. reflexivity. Qed.
End StoredRun.
