(* ===== verification/CrdbFile.v ===== *)
(** * Export file names: eds/util/crdb.py

    The name of a changefeed export file carries the moment of the export to
    the nanosecond and the table.  The regular expression is translated to a
    function: the runs before the two last dashes leave only one way to match,
    which [crdb_name_matches] proves.

    The theorem: exactly the names of the documented shape with a date of the
    calendar are accepted, with their table and time, and the time order of two
    files is the order of their names. *)
From stdpp Require Import base tactics list option numbers sets strings.
From S2P Require Import Prelude PyStr RfcTime.

(** [os.path.basename] with the separator of POSIX *)
Definition basename (p : pystr) : pystr :=
  match rsplit_char 47 p with Some (_, b) => b | None => p end.

(** the character classes of the expression *)
Definition word_char (c : Z) : bool := is_digit c || is_alpha c || (c =? 95).
Definition run_char (c : Z) : bool := word_char c || (c =? 45).
Definition table_char (c : Z) : bool := is_digit c || is_lower c || (c =? 95).

(** one or more characters of a class *)
Definition plus_of (P : Z -> bool) (s : pystr) : bool := negb (str_eqb s []) && forallb P s.

(** [_CRDB_EXPORT_FILE_RE.match(filename)]: groups 1 and 2 *)
Definition crdb_match (filename : pystr) : option (pystr * pystr) :=
  let date := take 33 filename in
  if negb ((length date =? 33)%nat && forallb is_digit date) then None
  else match drop 33 filename with
  | dash :: rest =>
      let '(cluster, dash1, rest) := partition_char 45 rest in
      let '(body, dot, tail) := partition_char 46 rest in
      if (dash =? 45) && dash1 && plus_of word_char cluster && dot && startswith (u"ndjson.gz") tail then
        '(body, id) ← rsplit_char 45 body;
        '(session, table) ← rsplit_char 45 body;
        if plus_of run_char session && plus_of table_char table && plus_of word_char id
        then Some (date, table) else None
      else None
  | [] => None
  end.

(** the ordinal of a date, as [datetime.toordinal] *)
Definition days_before_year (y : Z) : Z := let y := y - 1 in y * 365 + y / 4 - y / 100 + y / 400.

Definition days_before_month (y m : Z) : Z :=
  nth (Z.to_nat (m - 1)) [0; 31; 59; 90; 120; 151; 181; 212; 243; 273; 304; 334] 0
  + (if (2 <? m) && is_leap y then 1 else 0).

Definition toordinal (t : datetime) : Z :=
  days_before_year (dt_year t) + days_before_month (dt_year t) (dt_month t) + dt_day t.

(** [int(dt.timestamp())] of a UTC datetime: the ordinal of 1970-01-01 is 719163 *)
Definition unix_seconds (t : datetime) : Z :=
  (toordinal t - 719163) * 86400 + dt_hour t * 3600 + dt_minute t * 60 + dt_second t.

Definition datetime_ok (t : datetime) : bool :=
  (1 <=? dt_year t) && (1 <=? dt_month t) && (dt_month t <=? 12) && (1 <=? dt_day t)
  && (dt_day t <=? days_in_month (dt_year t) (dt_month t))
  && (dt_hour t <=? 23) && (dt_minute t <=? 59) && (dt_second t <=? 59).

(** [strptime(head, "%Y%m%d%H%M%S")] on fourteen digits: a field that took one
    digit would leave data unconverted, so each takes two *)
Definition head_datetime (head : pystr) : datetime :=
  mk_dt (num_at 0 4 head) (num_at 4 2 head) (num_at 6 2 head) (num_at 8 2 head) (num_at 10 2 head) (num_at 12 2 head) 0.

Definition strptime_digits (head : pystr) : option datetime :=
  let t := head_datetime head in if datetime_ok t then Some t else None.

(** called on the digits the expression matched *)
Definition parse_precise_date (date_str : pystr) : Z * bool :=
  if (length date_str <? 23)%nat then (0, false)
  else
    let head := take 14 date_str in
    let nanos_str := take 9 (drop 14 date_str) in
    match strptime_digits head with
    | Some dt => (unix_seconds dt * 1000000000 + digits_val nanos_str, true)
    | None => (0, false)
    end.

Record CrdbExportFile := mk_crdb { cf_table : pystr; cf_unix_nanos : Z; cf_ok : bool }.

Definition parse_crdb_export_file (file : pystr) : CrdbExportFile :=
  let filename := basename file in
  match crdb_match filename with
  | None => mk_crdb [] 0 false
  | Some (date, table) =>
      let '(unix_nano, ok) := parse_precise_date date in
      if negb ok then mk_crdb [] 0 false else mk_crdb table unix_nano true
  end.

(** ** The expression *)

(** a string that the expression matches, spelled out *)
Definition crdb_name (date cluster session table id rest : pystr) : pystr :=
  date ++ u"-" ++ cluster ++ u"-" ++ session ++ u"-" ++ table ++ u"-" ++ id ++ u".ndjson.gz" ++ rest.

Definition crdb_parts (date cluster session table id : pystr) : bool :=
  (length date =? 33)%nat && forallb is_digit date && plus_of word_char cluster && plus_of run_char session
  && plus_of table_char table && plus_of word_char id.

Lemma forallb_notin (P : Z -> bool) c s : P c = false -> forallb P s = true -> c ∉ s.
Proof.
  intros Hc Hs Hin. rewrite forallb_forall in Hs. apply list_elem_of_In in Hin.
  rewrite (Hs c Hin) in Hc. done.
Qed.

Lemma plus_of_notin P c s : P c = false -> plus_of P s = true -> c ∉ s.
Proof. unfold plus_of. intros Hc H. bool_prop. by eapply forallb_notin. Qed.

Lemma crdb_match_Some name date table :
  crdb_match name = Some (date, table) <->
  exists cluster session id rest,
    crdb_parts date cluster session table id = true /\ name = crdb_name date cluster session table id rest.
Proof.
  split.
  - unfold crdb_match. intros H.
    destruct ((length (take 33 name) =? 33)%nat && forallb is_digit (take 33 name)) eqn:Ed; cbn [negb] in H; [|done].
    destruct (drop 33 name) as [|dash rest] eqn:Edr; [done|].
    destruct (partition_char 45 rest) as [[cluster dash1] rest2] eqn:P1.
    destruct (partition_char 46 rest2) as [[body dot] tail] eqn:P2.
    match type of H with (if ?b then _ else _) = _ => destruct b eqn:Eg; [|done] end. bool_prop. subst dash dash1 dot.
    destruct (rsplit_char 45 body) as [[body2 id]|] eqn:R1; [|done]. simpl in H.
    destruct (rsplit_char 45 body2) as [[session tbl]|] eqn:R2; [|done]. simpl in H.
    match type of H with (if ?b then _ else _) = _ => destruct b eqn:Eg; [|done] end.
    apply (inj Some) in H. injection H as <- <-. bool_prop.
    apply partition_char_true in P1 as [-> _]. apply partition_char_true in P2 as [-> _].
    apply rsplit_char_Some in R1 as [-> _]. apply rsplit_char_Some in R2 as [-> _].
    match goal with H : startswith _ tail = true |- _ => apply startswith_spec in H as [rest ->] end.
    exists cluster, session, id, rest. split.
    { unfold crdb_parts. rewrite !andb_true_iff. tauto. }
    rewrite <- (take_drop 33 name) at 1. rewrite Edr. unfold crdb_name.
    change (u"-") with [45]. change (u".ndjson.gz") with (46 :: u"ndjson.gz").
    by repeat (rewrite <- app_assoc; cbn [app]).
  - intros (cluster & session & id & rest & Hp & ->). unfold crdb_parts in Hp. bool_prop.
    match goal with H : (_ =? _)%nat = true |- _ => apply Nat.eqb_eq in H; rename H into Hl end.
    assert (45 ∉ cluster) by (eapply plus_of_notin; [|eassumption]; done).
    assert (45 ∉ table) by (eapply plus_of_notin; [|eassumption]; done).
    assert (45 ∉ id) by (eapply plus_of_notin; [|eassumption]; done).
    assert (46 ∉ session) by (eapply plus_of_notin; [|eassumption]; done).
    assert (46 ∉ table) by (eapply plus_of_notin; [|eassumption]; done).
    assert (46 ∉ id) by (eapply plus_of_notin; [|eassumption]; done).
    unfold crdb_match, crdb_name. rewrite <- Hl, take_app_length, drop_app_length, Nat.eqb_refl.
    match goal with H : forallb is_digit date = true |- _ => rewrite H end.
    change (u"-") with [45]. change (u".ndjson.gz") with (46 :: u"ndjson.gz"). cbn [negb andb app].
    rewrite partition_char_app by done.
    replace (session ++ 45 :: table ++ 45 :: id ++ 46 :: u"ndjson.gz" ++ rest)
      with (((session ++ 45 :: table) ++ 45 :: id) ++ 46 :: u"ndjson.gz" ++ rest)
      by (by repeat (rewrite <- app_assoc; cbn [app])).
    rewrite partition_char_app by (rewrite !elem_of_app, !elem_of_cons; naive_solver).
    rewrite startswith_app, rsplit_char_app by done. simpl. rewrite rsplit_char_app by done. simpl.
    repeat match goal with H : plus_of _ _ = true |- _ => rewrite H; clear H end. done.
Qed.

(** ** The calendar *)

Lemma digits_val_bound s : forallb is_digit s = true -> 0 <= digits_val s < 10 ^ Z.of_nat (length s).
Proof.
  induction s as [|c s IH] using rev_ind; [done|]. rewrite forallb_app, andb_true_iff. intros [Hs Hc].
  simpl in Hc. unfold is_digit in Hc. bool_prop. specialize (IH Hs).
  rewrite digits_val_app, length_app. change (length [c]) with 1%nat.
  rewrite Z.pow_1_r, Nat.add_1_r, Nat2Z.inj_succ, Z.pow_succ_r by lia.
  assert (digits_val [c] = c - 48) as -> by (unfold digits_val; simpl; lia). lia.
Qed.

(** the days of a year before a day of it, and before the next year *)
Lemma month_days y m d :
  1 <= m <= 12 -> 1 <= d <= days_in_month y m ->
  0 <= days_before_month y m + d - 1 /\ days_before_month y m + d <= if is_leap y then 366 else 365.
Proof.
  intros Hm. unfold days_before_month, days_in_month. generalize (is_leap y) as b. intros b Hd.
  assert (m = 1 \/ m = 2 \/ m = 3 \/ m = 4 \/ m = 5 \/ m = 6 \/ m = 7 \/ m = 8 \/ m = 9 \/ m = 10 \/ m = 11 \/ m = 12)
    as [->|[->|[->|[->|[->|[->|[->|[->|[->|[->|[->| ->]]]]]]]]]]] by lia;
    destruct b; simpl in *; lia.
Qed.

Lemma month_lt y m d m' d' :
  1 <= m -> m < m' -> m' <= 12 -> d <= days_in_month y m -> 1 <= d' ->
  days_before_month y m + d < days_before_month y m' + d'.
Proof.
  intros H1 H2 H3 Hd Hd'.
  assert (forall k, (k < 12)%nat -> days_before_month y (1 + Z.of_nat k) + days_in_month y (1 + Z.of_nat k)
            <= days_before_month y (2 + Z.of_nat k) \/ (k = 11)%nat) as Hs.
  { unfold days_before_month, days_in_month. generalize (is_leap y) as b. intros b k Hk.
    do 12 (destruct k as [|k]; [destruct b; simpl; lia|]). lia. }
  assert (forall n k, (k + n <= 11)%nat -> days_before_month y (1 + Z.of_nat k) <= days_before_month y (1 + Z.of_nat (k + n))) as Hm.
  { induction n as [|n IH]; intros k Hk; [by rewrite Nat.add_0_r|]. specialize (IH k ltac:(lia)).
    specialize (Hs (k + n)%nat ltac:(lia)). destruct Hs as [Hs|]; [|lia].
    replace (1 + Z.of_nat (k + S n)) with (2 + Z.of_nat (k + n)) by lia.
    assert (0 <= days_in_month y (1 + Z.of_nat (k + n))) by (unfold days_in_month; repeat case_match; lia). lia. }
  specialize (Hs (Z.to_nat (m - 1)) ltac:(lia)). specialize (Hm (Z.to_nat (m' - m - 1)) (Z.to_nat m) ltac:(lia)).
  rewrite Nat2Z.inj_add in Hm. rewrite !Z2Nat.id in * by lia.
  replace (1 + (m - 1)) with m in Hs by lia. replace (2 + (m - 1)) with (1 + m) in Hs by lia.
  replace (1 + (m + (m' - m - 1))) with m' in Hm by lia. destruct Hs; lia.
Qed.

Lemma leap_year y : days_before_year (y + 1) = days_before_year y + if is_leap y then 366 else 365.
Proof.
  unfold days_before_year, is_leap. replace (y + 1 - 1) with y by lia.
  destruct (Z.eqb_spec (y mod 4) 0), (Z.eqb_spec (y mod 100) 0), (Z.eqb_spec (y mod 400) 0); simpl;
    Z.div_mod_to_equations; lia.
Qed.

Lemma year_mono n y : days_before_year y <= days_before_year (y + Z.of_nat n).
Proof.
  induction n as [|n IH]; [by rewrite Z.add_0_r|]. rewrite Nat2Z.inj_succ, <- Z.add_1_r, Z.add_assoc, leap_year.
  destruct (is_leap _); lia.
Qed.

(** the lexicographic order of the fields *)
Definition dt_key (t : datetime) : Z :=
  ((((dt_year t * 100 + dt_month t) * 100 + dt_day t) * 100 + dt_hour t) * 100 + dt_minute t) * 100 + dt_second t.

Lemma datetime_ok_bounds t : datetime_ok t = true ->
  1 <= dt_year t /\ 1 <= dt_month t <= 12 /\ 1 <= dt_day t <= days_in_month (dt_year t) (dt_month t)
  /\ dt_day t <= 31 /\ dt_hour t <= 23 /\ dt_minute t <= 59 /\ dt_second t <= 59.
Proof.
  unfold datetime_ok. intros H. bool_prop.
  assert (days_in_month (dt_year t) (dt_month t) <= 31) by (unfold days_in_month; repeat case_match; lia). lia.
Qed.

Definition nonneg_time (t : datetime) : Prop := 0 <= dt_hour t /\ 0 <= dt_minute t /\ 0 <= dt_second t.

Lemma ordinal_lt t t' : datetime_ok t = true -> datetime_ok t' = true ->
  (dt_year t < dt_year t' \/ dt_year t = dt_year t' /\
     (dt_month t < dt_month t' \/ dt_month t = dt_month t' /\ dt_day t < dt_day t')) ->
  toordinal t < toordinal t'.
Proof.
  intros H%datetime_ok_bounds H'%datetime_ok_bounds. unfold toordinal.
  intros [Hy|[Hy [Hm|[Hm Hd]]]].
  - destruct (month_days (dt_year t) (dt_month t) (dt_day t)) as [_ Hu]; [lia|lia|].
    destruct (month_days (dt_year t') (dt_month t') (dt_day t')) as [Hl' _]; [lia|lia|].
    pose proof (leap_year (dt_year t)). pose proof (year_mono (Z.to_nat (dt_year t' - dt_year t - 1)) (dt_year t + 1)) as Hmo.
    rewrite Z2Nat.id in Hmo by lia. replace (dt_year t + 1 + (dt_year t' - dt_year t - 1)) with (dt_year t') in Hmo by lia. lia.
  - rewrite Hy in *. pose proof (month_lt (dt_year t') (dt_month t) (dt_day t) (dt_month t') (dt_day t')). lia.
  - rewrite Hy, Hm. lia.
Qed.

Lemma seconds_lt t t' :
  datetime_ok t = true -> datetime_ok t' = true -> nonneg_time t -> nonneg_time t' ->
  dt_key t < dt_key t' -> unix_seconds t < unix_seconds t'.
Proof.
  intros Hok Hok' [? []] [? []] Hk. pose proof (datetime_ok_bounds t Hok). pose proof (datetime_ok_bounds t' Hok').
  unfold dt_key in Hk. unfold unix_seconds.
  destruct (Z.lt_total (toordinal t) (toordinal t')) as [Ho|Ho]; [lia|].
  assert (~ (dt_year t < dt_year t' \/ dt_year t = dt_year t' /\
     (dt_month t < dt_month t' \/ dt_month t = dt_month t' /\ dt_day t < dt_day t'))) as Hn.
  { intros Hlt%ordinal_lt; [lia|done|done]. }
  assert (dt_year t = dt_year t' /\ dt_month t = dt_month t' /\ dt_day t = dt_day t') as (Hy & Hm & Hd) by lia.
  unfold toordinal. rewrite Hy, Hm, Hd in *. lia.
Qed.

(** digits of one length compare as the numbers they write *)
Lemma digits_order a b :
  length a = length b -> forallb is_digit a = true -> forallb is_digit b = true ->
  (str_ltb a b = true <-> digits_val a < digits_val b).
Proof.
  unfold str_ltb. rewrite negb_true_iff. revert b. induction a as [|x a IH]; intros [|y b] Hl Ha Hb; try done.
  cbn [forallb] in Ha, Hb. bool_prop. simpl in Hl. injection Hl as Hl.
  change (x :: a) with ([x] ++ a). change (y :: b) with ([y] ++ b). rewrite !digits_val_app, Hl. cbn [app str_leb].
  pose proof (digits_val_bound a ltac:(done)) as Ba. pose proof (digits_val_bound b ltac:(done)) as Bb. rewrite Hl in Ba.
  assert (digits_val [x] = x - 48) as -> by (unfold digits_val; simpl; lia).
  assert (digits_val [y] = y - 48) as -> by (unfold digits_val; simpl; lia).
  destruct (Z.eqb_spec y x) as [->|Hne]; [rewrite IH by done; lia|].
  rewrite Z.ltb_ge. split; intros; nia.
Qed.

Lemma forallb_take (P : Z -> bool) n s : forallb P s = true -> forallb P (take n s) = true.
Proof. rewrite !forallb_Forall. apply Forall_take. Qed.
Lemma forallb_drop (P : Z -> bool) n s : forallb P s = true -> forallb P (drop n s) = true.
Proof. rewrite !forallb_Forall. apply Forall_drop. Qed.
#[local] Hint Resolve forallb_take forallb_drop : eds.

Lemma num_at_split i n s :
  (i + n <= length s)%nat -> digits_val (take (i + n) s) = digits_val (take i s) * 10 ^ Z.of_nat n + num_at i n s.
Proof.
  intros Hl. unfold num_at. replace (take (i + n) s) with (take i s ++ take n (drop i s)).
  - rewrite digits_val_app, length_take, length_drop. by replace (n `min` (length s - i))%nat with n by lia.
  - by rewrite take_take_drop.
Qed.

(** the fourteen digits are the fields side by side *)
Lemma head_key date :
  (23 <= length date)%nat -> digits_val (take 14 date) = dt_key (head_datetime (take 14 date)).
Proof.
  intros Hl. set (h := take 14 date). assert (length h = 14%nat) as Hh by (unfold h; rewrite length_take; lia).
  rewrite <- (take_ge h 14) at 1 by lia.
  rewrite (num_at_split 12 2), (num_at_split 10 2), (num_at_split 8 2), (num_at_split 6 2), (num_at_split 4 2) by lia.
  rewrite (num_at_split 0 4) by lia.
  unfold dt_key, head_datetime. cbn [dt_year dt_month dt_day dt_hour dt_minute dt_second take].
  change (10 ^ Z.of_nat 2) with 100. change (digits_val (take 0 h)) with 0. lia.
Qed.

(** a date of the calendar is read as its moment *)
Definition date_ok (date : pystr) : bool := datetime_ok (head_datetime (take 14 date)).
Definition date_nanos (date : pystr) : Z :=
  unix_seconds (head_datetime (take 14 date)) * 1000000000 + digits_val (take 9 (drop 14 date)).

Lemma digits_val_inj a b :
  length a = length b -> forallb is_digit a = true -> forallb is_digit b = true ->
  digits_val a = digits_val b -> a = b.
Proof.
  rewrite !forallb_Forall. intros Hl Ha Hb E.
  rewrite <- (pad_digits _ a eq_refl Ha), <- (pad_digits _ b eq_refl Hb). by rewrite Hl, E.
Qed.

(** only the first 23 digits count *)
Lemma date_nanos_prefix a b : take 23 a = take 23 b -> date_nanos a = date_nanos b.
Proof.
  intros E. unfold date_nanos.
  assert (take 14 a = take 14 b) as ->.
  { apply (f_equal (take 14)) in E. rewrite !take_take in E. exact E. }
  assert (take 9 (drop 14 a) = take 9 (drop 14 b)) as ->; [|done].
  apply (f_equal (drop 14)) in E. rewrite !skipn_firstn_comm in E. exact E.
Qed.

Lemma date_nanos_lt a b :
  (23 <= length a)%nat -> (23 <= length b)%nat -> forallb is_digit a = true -> forallb is_digit b = true ->
  date_ok a = true -> date_ok b = true ->
  digits_val (take 23 a) < digits_val (take 23 b) -> date_nanos a < date_nanos b.
Proof.
  intros La Lb Da Db Oa Ob Hlt. change 23%nat with (14 + 9)%nat in Hlt.
  rewrite !num_at_split in Hlt by lia. rewrite !head_key in Hlt by done. unfold date_nanos.
  fold (num_at 14 9 a). fold (num_at 14 9 b).
  assert (forall s, (23 <= length s)%nat -> forallb is_digit s = true ->
            0 <= num_at 14 9 s < 1000000000 /\ nonneg_time (head_datetime (take 14 s))) as Hb.
  { intros s Ls Ds. split.
    - unfold num_at. pose proof (digits_val_bound (take 9 (drop 14 s)) ltac:(eauto with eds)) as B.
      rewrite length_take, length_drop in B. replace (9 `min` (length s - 14))%nat with 9%nat in B by lia. done.
    - unfold nonneg_time, head_datetime, num_at. simpl.
      split_and!; apply digits_val_bound; eauto with eds. }
  destruct (Hb a La Da) as [Na Ta]. destruct (Hb b Lb Db) as [Nb Tb].
  change (10 ^ Z.of_nat 9) with 1000000000 in Hlt.
  destruct (Z.lt_total (dt_key (head_datetime (take 14 a))) (dt_key (head_datetime (take 14 b)))) as [Hk|[Hk|Hk]]; [|..].
  - pose proof (seconds_lt _ _ Oa Ob Ta Tb Hk). lia.
  - rewrite <- !head_key in Hk by done.
    assert (take 14 a = take 14 b) as E; [|rewrite E in *; lia].
    apply digits_val_inj; eauto with eds. by rewrite !length_take_le by lia.
  - lia.
Qed.

Lemma parse_precise_date_eq date :
  (23 <= length date)%nat -> parse_precise_date date = if date_ok date then (date_nanos date, true) else (0, false).
Proof.
  intros Hl. unfold parse_precise_date, strptime_digits, date_ok, date_nanos.
  assert ((length date <? 23)%nat = false) as -> by (apply Nat.ltb_ge; lia). by destruct (datetime_ok _).
Qed.

Lemma parse_crdb_iff file table nanos :
  parse_crdb_export_file file = mk_crdb table nanos true <->
  exists date cluster session id rest,
    basename file = crdb_name date cluster session table id rest /\
    crdb_parts date cluster session table id = true /\ date_ok date = true /\ nanos = date_nanos date.
Proof.
  unfold parse_crdb_export_file. split.
  - intros H. destruct (crdb_match (basename file)) as [[date tbl]|] eqn:E; [|done].
    apply crdb_match_Some in E as (cluster & session & id & rest & Hp & Hn).
    pose proof Hp as Hp'. unfold crdb_parts in Hp. bool_prop.
    match goal with H : (_ =? _)%nat = true |- _ => apply Nat.eqb_eq in H; rename H into Hl end.
    rewrite parse_precise_date_eq in H by lia. destruct (date_ok date) eqn:Eo; [|done].
    cbn [negb] in H. injection H as -> <-. eauto 10.
  - intros (date & cluster & session & id & rest & Hn & Hp & Ho & ->).
    assert (crdb_match (basename file) = Some (date, table)) as -> by (apply crdb_match_Some; eauto 10).
    unfold crdb_parts in Hp. bool_prop.
    match goal with H : (_ =? _)%nat = true |- _ => apply Nat.eqb_eq in H; rename H into Hl end.
    rewrite parse_precise_date_eq, Ho by lia. done.
Qed.

(** [parse_crdb_export_file] accepts exactly the paths whose last component
    is 33 digits that begin with a date of the calendar, a dash, the cluster, the
    session, the table and the id separated by dashes, and [.ndjson.gz]; it
    returns the table and the nanoseconds of the date.  For two accepted files
    the times compare as the first 23 characters of the names do, so the sorted
    directory listing is in export order. *)
Theorem crdb_file_names (file file' table table' : pystr) (nanos nanos' : Z) :
  (parse_crdb_export_file file = mk_crdb table nanos true <->
   exists date cluster session id rest,
     basename file = crdb_name date cluster session table id rest /\
     crdb_parts date cluster session table id = true /\ date_ok date = true /\ nanos = date_nanos date) /\
  (parse_crdb_export_file file = mk_crdb table nanos true ->
   parse_crdb_export_file file' = mk_crdb table' nanos' true ->
   (nanos < nanos' <-> str_ltb (take 23 (basename file)) (take 23 (basename file')) = true)).
Proof.
  split; [apply parse_crdb_iff|]. rewrite !parse_crdb_iff.
  intros (a & ? & ? & ? & ? & -> & Ha & Oa & ->) (b & ? & ? & ? & ? & -> & Hb & Ob & ->).
  unfold crdb_parts in Ha, Hb. bool_prop.
  repeat match goal with H : (_ =? _)%nat = true |- _ => apply Nat.eqb_eq in H end.
  unfold crdb_name. rewrite !take_app_le by lia.
  rewrite digits_order by (rewrite ?length_take; try lia; eauto with eds).
  split; [|apply date_nanos_lt; by (done || lia)]. intros Hlt.
  destruct (Z.lt_total (digits_val (take 23 a)) (digits_val (take 23 b))) as [?|[Heq|Hgt]]; [done| |].
  - rewrite (date_nanos_prefix a b) in Hlt; [lia|]. apply digits_val_inj; eauto with eds. by rewrite !length_take_le by lia.
  - assert (date_nanos b < date_nanos a) by (apply date_nanos_lt; by (done || lia)). lia.
Qed.

Definition example_export : pystr :=
  u"/data/202407312359599999999990000000000-92d0-1-00000000-order_item-1.ndjson.gz".
Definition example_export' : pystr :=
  u"/data/202408010000000000000000000000000-92d0-1-00000001-order-1.ndjson.gz".

Lemma crdb_file_names_witness :
  parse_crdb_export_file example_export = mk_crdb (u"order_item") 1722470399999999999 true /\
  parse_crdb_export_file example_export' = mk_crdb (u"order") 1722470400000000000 true /\
  str_ltb (take 23 (basename example_export)) (take 23 (basename example_export')) = true.
Proof.
  split; [by vm_compute|]. split; [by vm_compute|].
  apply (crdb_file_names example_export example_export' (u"order_item") (u"order") 1722470399999999999 1722470400000000000);
    [by vm_compute|by vm_compute|lia].
Defined.
