(* ===== verification/ImportClient.v ===== *)
(** * The export job client: eds/cmd/import_client.py

    The job report of the export service, the exceptions of an import run and the
    polling loop.  The service is a parameter: a fetch of the job status that
    returns a report or raises; [ExportApi] has the calls. *)
From stdpp Require Import base tactics list option numbers sets strings.
From S2P Require Import Prelude PyStr PyDict Interfaces.

(** ** Exceptions

    The exception classes the import code tells apart, each with its [str].  A
    class stands for its subclasses that no other constructor names. *)
Inductive exn : Type :=
| UsageError (msg : pystr) (exit_code : Z)
| RecoveryCancelled
| SchemaValidationError (msg : pystr)
| ValueError (msg : pystr)
| PermissionError (msg : pystr)
| DownloadStageError (msg : pystr) (expired : bool)
| ApiStatusError (msg : pystr) (status_code : Z)
| ConnectionError (msg : pystr)
| TimeoutError (msg : pystr)
| RequestsNetworkError (msg : pystr)
| OSError (msg : pystr) (errno : option Z)
| RuntimeError (msg : pystr).

Definition exn_str (e : exn) : pystr :=
  match e with
  | RecoveryCancelled => []
  | UsageError m _ | SchemaValidationError m | ValueError m | PermissionError m | DownloadStageError m _
  | ApiStatusError m _ | ConnectionError m | TimeoutError m | RequestsNetworkError m | OSError m _ | RuntimeError m => m
  end.

(** ** The job report *)

Record ExportJobTableData := mk_table_data {
  td_error : pystr; td_status : pystr; td_urls : list pystr; td_cursor : pystr
}.

Record ExportJobResponse := mk_job { ej_completed : bool; ej_tables : pydict ExportJobTableData }.

(** the timestamp in microseconds since 1970, the resolution of [datetime] *)
Record TableExportInfo := mk_info { ti_table : pystr; ti_timestamp : Z }.

Definition table_names (infos : list TableExportInfo) : list pystr := ti_table <$> infos.

Definition has_failed (td : ExportJobTableData) : bool := str_eqb (td_status td) (u"Failed").

Definition failed_tables (job : ExportJobResponse) : list pystr :=
  (filter (fun '(_, td) => has_failed td = true) (ej_tables job)).*1.

Definition job_present (job : ExportJobResponse) : list pystr := dict_keys (ej_tables job).

(** the first failed table raises *)
Definition check_job (job : ExportJobResponse) : exn + ExportJobResponse :=
  match filter (fun '(_, td) => has_failed td = true) (ej_tables job) with
  | (table, td) :: _ => inl (RuntimeError (u"error exporting table " ++ table ++ u": " ++ td_error td))
  | [] => inr job
  end.

(** ** Polling *)
Section polling.
Context {W : Type} (fetch_export_job : pystr -> method W exn ExportJobResponse).
Context (is_cancelled : W -> bool * W) (sleep : W -> W).

Abbreviation PM A := (M W exn A).

Definition check_export_job (job_id : pystr) : PM ExportJobResponse :=
  job ← (fetch_export_job job_id : PM _);
  match check_job job with inl e => raise e | inr job => mret job end.

Definition ask_cancelled : PM bool := fun w => let '(b, w') := is_cancelled w in (inr b, w').

(** [for _ in range(10): if is_cancelled(cancel): return None; sleep(0.5)]; whether it was cancelled *)
Fixpoint pause (n : nat) : PM bool :=
  match n with
  | O => mret false
  | S n' => c ← ask_cancelled; if (c : bool) then mret true else _ ← (modify sleep : PM unit); pause n'
  end.

(** the outer [None]: still polling after [fuel] requests; the inner one: cancelled *)
Fixpoint poll_until_complete (fuel : nat) (raise_on_failed : bool) (job_id : pystr) :
    PM (option (option ExportJobResponse)) :=
  match fuel with
  | O => mret None
  | S fuel' =>
      job ← (if raise_on_failed then check_export_job job_id else fetch_export_job job_id : PM _);
      if negb raise_on_failed && negb (bool_decide (failed_tables job = [])) then mret (Some (Some job))
      else if ej_completed job then mret (Some (Some job))
      else
        c ← ask_cancelled;
        if (c : bool) then mret (Some None)
        else
          c ← pause 10;
          if (c : bool) then mret (Some None) else poll_until_complete fuel' raise_on_failed job_id
  end.

Lemma poll_unfold fuel rf job_id w :
  poll_until_complete (S fuel) rf job_id w =
  match (if rf then check_export_job job_id else fetch_export_job job_id) w with
  | (inl e, w') => (inl e, w')
  | (inr job, w') =>
      if negb rf && negb (bool_decide (failed_tables job = [])) then (inr (Some (Some job)), w')
      else if ej_completed job then (inr (Some (Some job)), w')
      else
        let '(c, w') := is_cancelled w' in
        if c then (inr (Some None), w')
        else match pause 10 w' with
        | (inl e, w') => (inl e, w')
        | (inr true, w') => (inr (Some None), w')
        | (inr false, w') => poll_until_complete fuel rf job_id w'
        end
  end.
Proof.
  cbn [poll_until_complete]. unfold mbind, M_bind, ask_cancelled, mret, M_ret.
  destruct ((if rf then check_export_job job_id else fetch_export_job job_id) w) as [[e|job] w']; [done|].
  destruct (negb rf && _); [done|]. destruct (ej_completed job); [done|].
  destruct (is_cancelled w') as [[] w'']; [done|]. by destruct (pause 10 w'') as [[e|[]] ?].
Qed.

(** ** What polling returns *)

(** a report the loop stops at *)
Definition poll_final (rf : bool) (job : ExportJobResponse) : Prop :=
  if rf then failed_tables job = [] /\ ej_completed job = true
  else failed_tables job <> [] \/ ej_completed job = true.

Lemma failed_tables_nil job : failed_tables job = [] <-> check_job job = inr job.
Proof.
  unfold failed_tables, check_job. destruct (filter _ (ej_tables job)) as [|[t td] l]; [done|]. by split.
Qed.

Lemma poll_returns_final fuel rf job_id w job w' :
  poll_until_complete fuel rf job_id w = (inr (Some (Some job)), w') -> poll_final rf job.
Proof.
  revert w. induction fuel as [|fuel IH]; intros w; [done|]. rewrite poll_unfold.
  destruct ((if rf then check_export_job job_id else fetch_export_job job_id) w) as [[e|j] w1] eqn:Ej; [done|].
  destruct (negb rf && negb (bool_decide (failed_tables j = []))) eqn:Ef.
  { intros [= <- <-]. bool_prop. subst rf. by left. }
  destruct (ej_completed j) eqn:Ec.
  - intros [= <- <-]. destruct rf; [|by right]. split; [|done].
    unfold check_export_job, mbind, M_bind in Ej. destruct (fetch_export_job job_id w) as [[e|j'] w2]; [done|].
    destruct (check_job j') as [e|j''] eqn:Ek; [done|]. injection Ej as -> ->. apply failed_tables_nil.
    unfold check_job in *. by destruct (filter _ (ej_tables j')) as [|[]] eqn:El; [injection Ek as <-; rewrite El|].
  - destruct (is_cancelled w1) as [[] w2]; [done|]. destruct (pause 10 w2) as [[e|[]] w3]; [done|done|]. apply IH.
Qed.
End polling.
