(* ===== verification/Machine.v ===== *)
(** * A machine: the network and the files together

    [NetFiles]: what the network and the clock do leaves the files alone.  Module
    [Machine] is a machine with a list of answers to come, a clock and a disk. *)
From stdpp Require Import base tactics list option numbers sets strings gmap.
From S2P Require Import Prelude PyStr Interfaces Files Http ImportClient.

Class NetFiles (W E : Type) `{!HttpHost W E} `{!Files W} : Prop := {
  nf_send rq w : fi_files (hh_send rq w).2 = fi_files w;
  nf_close r w : fi_files (hh_close r w) = fi_files w;
  nf_sleep ms w : fi_files (hh_sleep ms w) = fi_files w;
  nf_randrange n w : fi_files (hh_randrange n w).2 = fi_files w
}.

Lemma http_do_files {W E} `{!HttpHost W E} `{!Files W} `{!NetFiles W E} fuel rq F :
  stays (fun s : Http W E => fi_files (hp_world s) = F) (http_do fuel rq).
Proof. apply http_do_world; [apply nf_send|apply nf_close|apply nf_sleep|apply nf_randrange]. Qed.

Module Machine.
Record world := mk_world { wo_answers : list (exn + Response); wo_time : Z; wo_disk : MemoryFiles.disk }.

(** one millisecond for a request; a machine without answers is refused *)
#[export] Instance host : HttpHost world exn := {|
  hh_send _ w := match wo_answers w with
                 | a :: l => (a, mk_world l (wo_time w + 1000) (wo_disk w))
                 | [] => (inl (ConnectionError (u"Connection refused")), mk_world [] (wo_time w + 1000) (wo_disk w))
                 end;
  hh_close _ w := w;
  hh_sleep d w := mk_world (wo_answers w) (wo_time w + 1000 * Z.max 0 d) (wo_disk w);
  hh_now w := wo_time w;
  hh_randrange n w := (n - 1, w);
  hh_text := exn_str
|}.

#[export] Instance host_laws : HttpLaws world exn.
Proof. split; [intros; simpl; lia..| |done|intros ? []; simpl; lia]. intros ? [[|[] ?] ? ?]; simpl; lia. Qed.

Definition on_disk {A} (f : method MemoryFiles.disk pystr A) : method world pystr A :=
  fun w => let '(r, d) := f (wo_disk w) in (r, mk_world (wo_answers w) (wo_time w) d).

#[export] Instance files (sealed : list pystr) : Files world :=
  let mem := MemoryFiles.files sealed in {|
  fi_files w := wo_disk w;
  fi_read p := on_disk (fi_read p);
  fi_write p bs := on_disk (fi_write p bs);
  fi_remove p := on_disk (fi_remove p);
  fi_replace a b := on_disk (fi_replace a b);
  fi_chmod p m := on_disk (fi_chmod p m)
|}.

#[export] Instance files_laws sealed : FilesLaws world (Files0 := files sealed).
Proof.
  pose proof (MemoryFiles.laws sealed) as [L1 L2 L3 L4 L5]. split; unfold fi_read, fi_write, fi_remove, fi_replace, fi_chmod, fi_files, files, on_disk.
  - intros p w. specialize (L1 p (wo_disk w)). by destruct (Files.fi_read p (wo_disk w)) as [[] d].
  - intros p bs w. specialize (L2 p bs (wo_disk w)). by destruct (Files.fi_write p bs (wo_disk w)) as [[] d].
  - intros p w. specialize (L3 p (wo_disk w)). by destruct (Files.fi_remove p (wo_disk w)) as [[] d].
  - intros a b w. specialize (L4 a b (wo_disk w)). by destruct (Files.fi_replace a b (wo_disk w)) as [[] d].
  - intros p m w. specialize (L5 p m (wo_disk w)). by destruct (Files.fi_chmod p m (wo_disk w)) as [r d].
Qed.

#[export] Instance net_files sealed : NetFiles world exn (Files0 := files sealed).
Proof. split; [|done..]. intros rq w. simpl. by destruct (wo_answers w). Qed.

Definition start (answers : list (exn + Response)) (disk : MemoryFiles.disk) : Http world exn :=
  mk_http (mk_world answers 0 disk) 0 [].
End Machine.
