(* ===== verification/Session.v ===== *)
(** * The sessions of the service: eds/cmd/session.py and eds/cmd/enroll.py

    A session is opened, closed and logged with calls of the service through the
    retrying client ([Http]); the log files are compressed, uploaded to the
    addresses the service gives, and the compressed copies removed.  The state is
    the one of the client: its world has the file system ([Files]) and what the
    machine says of itself ([SessionHost], eds/util/sysinfo.py).  [Waits] is a
    client that still retries a busy service.

    The theorems: where the API key goes, what an upload of the logs did, that
    the credentials file holds what the service sent, and what an enrollment
    leaves for the next start. *)
From stdpp Require Import base tactics list option numbers sets strings gmap.
From S2P Require Import Prelude ExitCodes PyStr PyPath PyCodec PyDict PyUrl PyFloat GoJson JsonLoads DbChange Interfaces Streaming Files Http Api DriverConfig Mask Config ImportClient Machine.

Class SessionHost (W : Type) := {
  sn_local_ip : method W exn pystr;
  sn_machine_id : method W exn pystr;
  sn_hostname : method W exn pystr;
  sn_system_info : method W exn pyobj
}.

Inductive api_error : Type :=
| Waits
| AlreadyRunningError
| AttributeError
| Outside              (** a response the model does not read *)
| Raised (e : exn).

Definition api_of (e : herror exn) : api_error := match e with Waiting => Waits | Failed e => Raised e end.

(** ** What needs no call *)
Section pure.
Context (version : pystr).
(** [str] of a JSON value that is no string *)
Context (other_str : pyobj -> pystr).

Definition value_text (v : pyobj) : pystr := match v with PStr s => s | v => other_str v end.

Definition user_agent : pystr := u"Shopmonkey EDS Server/" ++ version.

Definition set_http_header (api_key : pystr) : pydict pystr :=
  [(u"Content-Type", u"application/json"); (u"User-Agent", user_agent)] ++
  match api_key with [] => [] | _ => [(u"Authorization", u"Bearer " ++ api_key)] end.

Definition get_request_id (resp : Response) : pystr := default [] (rs_request_id resp).

Definition _parse_error_response (buf : pystr) (status : Z) (context req_id : pystr) : exn :=
  let tag := match req_id with [] => [] | _ => u"(requestId=" ++ req_id ++ u")" end in
  match json_loads opts_default buf with
  | Some (PDict m) => ApiStatusError (context ++ u": " ++ value_text (get_or (u"message") (PStr []) m) ++ u" " ++ tag) status
  | _ => ApiStatusError (context ++ u": " ++ buf ++ u" (status code=" ++ str_of_Z status ++ u") " ++ tag) status
  end.

Definition handle_api_error (resp : Response) (context : pystr) : exn :=
  _parse_error_response (rs_text resp) (rs_status resp) context (get_request_id resp).

(** [[A-Za-z0-9+/]*={0,2}] *)
Definition b64_char (c : Z) : bool := is_alpha c || is_digit c || (c =? 43) || (c =? 47).
Definition b64_shape (s : pystr) : bool :=
  let body := rstrip_char 61 s in forallb b64_char body && (length s - length body <=? 2)%nat.

(** [base64.b64decode(data, validate=True)]; [None] is its ValueError *)
Definition b64decode (data : pystr) : option (list Z) :=
  if ascii data && b64_shape data then a2b_base64 0 0 0 data else None.
End pure.

Section session.
Context {W : Type} `{!HttpHost W exn} `{!Files W} `{!SessionHost W}.
Context (patience : nat) (version : pystr) (other_str : pyobj -> pystr).
(** the text of a ValueError of the standard library on an input *)
Context (value_error_text : list Z -> pystr).
Context (gzip : list Z -> list Z) (reg : Registries).

Abbreviation State := (Http W exn).
Abbreviation SM A := (M State api_error A).

(** [HttpRetry(...).do()] *)
Definition call (rq : HttpRequest) : SM Response :=
  fun s => let '(r, s') := http_do patience rq s in (match r with inl e => inl (api_of e) | inr resp => inr resp end, s').

Definition on_files {A} (f : method W pystr A) : SM A :=
  fun s => let '(r, w) := f (hp_world s) in
    (match r with inl text => inl (Raised (OSError text None)) | inr a => inr a end, hp_set_world w s).

(** [try: f() except Exception as e: raise RuntimeError(f"{msg}: {e}")] *)
Definition host_fact {A} (msg : pystr) (f : method W exn A) : SM A :=
  fun s => let '(r, w) := f (hp_world s) in
    (match r with inl e => inl (Raised (RuntimeError (msg ++ u": " ++ exn_str e))) | inr a => inr a end, hp_set_world w s).

Definition raise_exn {A} (e : exn) : SM A := raise (Raised e).

(** the bytes of a printed message; both failures are ValueErrors *)
Definition body_bytes (text : option pystr) : SM (list Z) :=
  match text ≫= encode with Some b => mret b | None => raise_exn (ValueError []) end.

Definition read_response {T} (content : list Z) (r : json_error + ApiResponse T) : SM (ApiResponse T) :=
  match r with
  | inr x => mret x
  | inl NotJson => raise_exn (ValueError (value_error_text content))
  | inl NotADict => raise AttributeError
  | inl OtherEncoding => raise Outside
  end.

Definition expect_ok (resp : Response) (context : pystr) : SM unit :=
  if rs_status resp =? 200 then mret tt else raise_exn (handle_api_error other_str resp context).

Definition write_creds_to_file (data filename : pystr) : SM unit :=
  match b64decode data with
  | None => raise_exn (RuntimeError (u"failed to decode base64: " ++ value_error_text data))
  | Some buf => on_files (fi_write filename buf)
  end.

(** ** Opening a session *)

Definition driver_meta (driver_url : pystr) : SM (option DriverMeta) :=
  match driver_url with
  | [] => mret None
  | _ =>
      match get_driver_metadata_for_url driver_url reg with
      | None => raise_exn (RuntimeError (u"invalid driver URL: " ++ driver_url))
      | Some meta =>
          match mask_url driver_url with
          | None => raise_exn (RuntimeError (u"failed to mask driver URL: " ++ value_error_text driver_url))
          | Some masked => mret (Some (mk_driver_meta (dm_scheme meta) (dm_name meta) (dm_description meta) masked))
          end
      end
  end.

Definition start_url (api_url : pystr) : pystr := api_url ++ u"/v3/eds/internal".
Definition session_url (api_url session_id : pystr) : pystr := start_url api_url ++ u"/" ++ session_id.

Definition send_start (api_url api_key driver_url eds_server_id : pystr) (company_ids : option (list pystr)) : SM EdsSession :=
  ip ← host_fact (u"failed to get local IP") sn_local_ip;
  machine_id ← host_fact (u"failed to get machine ID") sn_machine_id;
  hostname ← host_fact (u"failed to get hostname") sn_hostname;
  os_info ← host_fact (u"failed to get system info") sn_system_info;
  driver ← driver_meta driver_url;
  data ← body_bytes (session_start_gojson (mk_session_start version hostname ip machine_id os_info driver eds_server_id
            match company_ids with Some [] => None | o => o end));
  resp ← call (mk_request (u"POST") (start_url api_url) (set_http_header version api_key) (Some data));
  if rs_status resp =? 409 then raise AlreadyRunningError
  else
    _ ← expect_ok resp (u"session start");
    r ← read_response (rs_content resp) (session_start_response (rs_content resp));
    if ar_success r then mret (ar_data r)
    else raise_exn (RuntimeError (u"failed to start session: " ++ value_text other_str (ar_message r))).

(** ** Closing one *)

Definition send_end (api_url api_key session_id : pystr) (errored : bool) : SM SessionEndURLs :=
  data ← body_bytes (session_end_gojson errored);
  resp ← call (mk_request (u"POST") (session_url api_url session_id) (set_http_header version api_key) (Some data));
  _ ← expect_ok resp (u"session end");
  r ← read_response (rs_content resp) (session_end_response (rs_content resp));
  if ar_success r then mret (ar_data r)
  else raise_exn (RuntimeError (u"failed to end session: " ++ value_text other_str (ar_message r))).

Definition upload_headers : pydict pystr :=
  [(u"User-Agent", user_agent version); (u"Content-Type", u"application/x-tgz")].

Definition upload_file (url log_file_bundle : pystr) : SM unit :=
  payload ← on_files (fi_read log_file_bundle);
  resp ← call (mk_request (u"PUT") url upload_headers (Some payload));
  expect_ok resp (u"upload logs").

(** eds/util/compress.py *)
Definition gzip_file (filepath : pystr) : SM unit :=
  data ← on_files (fi_read filepath);
  on_files (fi_write (filepath ++ u".gz") (gzip data)).

(** [os.remove], its OSError ignored *)
Definition remove_quietly (path : pystr) : SM unit :=
  modify (fun s => hp_set_world (fi_remove path (hp_world s)).2 s).

Definition upload_log_file (upload_url log_file : pystr) : SM pystr :=
  _ ← gzip_file log_file;
  let compressed := log_file ++ u".gz" in
  r ← attempt (upload_file upload_url compressed);
  _ ← remove_quietly compressed;
  match r with
  | inl e => raise e
  | inr _ => match urlsplit upload_url with Some sp => mret (sp_path sp) | None => raise_exn (ValueError (value_error_text upload_url)) end
  end.

(** an address from the service; another type than a string is outside the model *)
Definition as_url (v : pyobj) : SM pystr := match v with PStr s => mret s | _ => raise Outside end.

Definition send_end_and_upload (api_url api_key session_id : pystr) (errored : bool) (logfile stderr_file : pystr) : SM pystr :=
  urls ← send_end api_url api_key session_id errored;
  log_storage_path ← (match logfile with [] => mret [] | _ => url ← as_url (eu_url urls); upload_log_file url logfile end : SM pystr);
  _ ← (if truthy (eu_error_url urls) && negb (str_eqb stderr_file [])
       then url ← as_url (eu_error_url urls); _ ← upload_log_file url stderr_file; mret tt
       else mret tt : SM unit);
  mret log_storage_path.

Definition get_log_upload_url (api_url api_key session_id : pystr) : SM pyobj :=
  resp ← call (mk_request (u"POST") (session_url api_url session_id ++ u"/log") (set_http_header version api_key) (Some (u"{}")));
  _ ← expect_ok resp (u"log upload url");
  r ← read_response (rs_content resp) (session_end_response (rs_content resp));
  if ar_success r then mret (eu_url (ar_data r))
  else raise_exn (RuntimeError (u"failed to get log upload url: " ++ value_text other_str (ar_message r))).

(** ** Enrolling: eds/cmd/enroll.py *)

(** the exit code; an exception that escapes is a panic of the command.  The data
    directory is there. *)
Definition run_enroll (code : pystr) (explicit_url data_dir : pystr) : SM Z :=
  match (match explicit_url with [] => get_api_url (take 1 code) | url => Some url end) with
  | None => mret EXIT_ERROR
  | Some api_url =>
      resp ← attempt (call (mk_request (u"GET") (api_url ++ u"/v3/eds/internal/enroll/" ++ code) [] None));
      match resp with
      | inl Waits => raise Waits
      | inl _ => mret EXIT_ERROR
      | inr resp =>
          if negb (rs_status resp =? 200) then mret EXIT_ERROR
          else
            match enroll_response (rs_content resp) with
            | inl OtherEncoding => raise Outside
            | inl _ => mret EXIT_ERROR
            | inr r =>
                if negb (ar_success r) then mret EXIT_ERROR
                else
                  match write_config other_str [(u"token", et_token (ar_data r)); (u"server_id", et_server_id (ar_data r))] None with
                  | (inr _, Some text) =>
                      w ← attempt (on_files (fi_write (path_join data_dir [u"config.toml"]) text));
                      mret (match w with inl _ => EXIT_ERROR | inr _ => EXIT_SUCCESS end)
                  | _ => raise_exn (ValueError [])
                  end
            end
      end
  end.

(** ** Where the API key goes *)

(** a request to the service, with its headers, or one without the key *)
Definition discreet (api_url api_key : pystr) (c : hcall exn) : Prop :=
  match c with
  | CSent rq _ =>
      (exists path, rq_url rq = start_url api_url ++ path /\ rq_headers rq = set_http_header version api_key) \/
      dict_get (u"Authorization") (rq_headers rq) = None
  | _ => True
  end.
Definition quiet_trace (api_url api_key : pystr) (s : State) : Prop := Forall (discreet api_url api_key) (hp_trace s).

Section discretion.
Context (api_url api_key : pystr).
Abbreviation safe m := (stays (quiet_trace api_url api_key) m).

Lemma safe_call rq : discreet api_url api_key (CSent rq (inl RecoveryCancelled)) -> safe (call rq).
Proof.
  intros H s Hs. unfold call. pose proof (http_do_notes (discreet api_url api_key) patience rq (fun _ => H) (fun _ => I) (fun _ => I) s Hs) as Hd.
  destruct (http_do patience rq s) as [[e|r] s']; exact Hd.
Qed.

Lemma safe_home method_ path data : safe (call (mk_request method_ (start_url api_url ++ path) (set_http_header version api_key) data)).
Proof. apply safe_call. left. by exists path. Qed.

Lemma safe_upload url data : safe (call (mk_request (u"PUT") url upload_headers data)).
Proof. apply safe_call. right. reflexivity. Qed.

Lemma safe_files {A} (f : method W pystr A) : safe (on_files f).
Proof. intros s Hs. unfold on_files. by destruct (f (hp_world s)) as [[] ?]. Qed.
Lemma safe_fact {A} msg (f : method W exn A) : safe (host_fact msg f).
Proof. intros s Hs. unfold host_fact. by destruct (f (hp_world s)) as [[] ?]. Qed.
Lemma safe_remove path : safe (remove_quietly path).
Proof. by apply stays_modify. Qed.
Lemma safe_expect resp context : safe (expect_ok resp context).
Proof. unfold expect_ok. case_match; [apply stays_ret|apply stays_raise]. Qed.
Lemma safe_response {T} content (r : json_error + ApiResponse T) : safe (read_response content r).
Proof. destruct r as [[]|]; first [apply stays_ret|apply stays_raise]. Qed.
Lemma safe_body text : safe (body_bytes text).
Proof. unfold body_bytes. case_match; [apply stays_ret|apply stays_raise]. Qed.
Lemma safe_driver url : safe (driver_meta url).
Proof. unfold driver_meta. repeat case_match; first [apply stays_ret|apply stays_raise]. Qed.
Lemma safe_as_url v : safe (as_url v).
Proof. destruct v; first [apply stays_ret|apply stays_raise]. Qed.

Ltac safe_step :=
  first [ apply safe_home | apply safe_upload | apply safe_files | apply safe_fact | apply safe_remove | apply safe_expect
        | apply safe_response | apply safe_body | apply safe_driver | apply safe_as_url | apply stays_attempt ].
Ltac safe := stays_with safe_step.

Lemma safe_start driver_url id ids : safe (send_start api_url api_key driver_url id ids).
Proof.
  unfold send_start. repeat (apply stays_bind; [first [apply safe_fact|apply safe_driver|apply safe_body]|intros ?]).
  rewrite <-(app_nil_r (start_url api_url)). unfold raise_exn. safe.
Qed.

Lemma safe_end id errored : safe (send_end api_url api_key id errored).
Proof. unfold send_end, session_url, raise_exn. safe. Qed.

Lemma safe_log url file : safe (upload_log_file url file).
Proof. unfold upload_log_file, gzip_file, upload_file, raise_exn. safe. Qed.

(** C28: The API key is sent to the service only: every request of opening a session,
    of closing it and uploading its logs, and of asking for an address, either
    goes below the service's address or carries no key; the addresses the
    service hands out get none. *)
Theorem api_key_stays_home driver_url id ids errored logfile stderr_file :
  stays (quiet_trace api_url api_key) (send_start api_url api_key driver_url id ids) /\
  stays (quiet_trace api_url api_key) (send_end_and_upload api_url api_key id errored logfile stderr_file) /\
  stays (quiet_trace api_url api_key) (get_log_upload_url api_url api_key id).
Proof.
  split; [apply safe_start|]. split.
  - unfold send_end_and_upload. apply stays_bind; [apply safe_end|]. intros urls.
    apply stays_bind; [destruct logfile; [apply stays_ret|]; apply stays_bind; [apply safe_as_url|intros ?; apply safe_log]|].
    intros path. apply stays_bind; [|intros ?; apply stays_ret]. case_match; [|apply stays_ret].
    apply stays_bind; [apply safe_as_url|]. intros url. apply stays_bind; [apply safe_log|]. intros _. apply stays_ret.
  - unfold get_log_upload_url, session_url, raise_exn. rewrite <-app_assoc, <-app_assoc. safe.
Qed.
End discretion.

(** ** What an upload did *)
Section uploads.
Context `{!HttpLaws W exn} `{!FilesLaws W} `{!NetFiles W exn}.
Definition files_of (s : State) : gmap pystr (list Z) := fi_files (hp_world s).

(** the answer that ends a call *)
Definition answered (rq : HttpRequest) (status : Z) (resp : Response) (tr : list (hcall exn)) : Prop :=
  CSent rq (inr resp) ∈ tr /\ rs_status resp = status.

Lemma call_spec rq s r s' : call rq s = (r, s') -> files_of s' = files_of s /\
  exists tr, hp_trace s' = hp_trace s ++ tr /\ forall resp, r = inr resp -> CSent rq (inr resp) ∈ tr.
Proof.
  unfold call. destruct (http_do patience rq s) as [a s1] eqn:E0. intros H.
  assert (s1 = s') as -> by (destruct a; congruence). split.
  - pose proof (http_do_files patience rq (files_of s) s eq_refl) as Hw.
    rewrite E0 in Hw. by destruct a.
  - apply (retry_loop_run patience rq _ (hp_set_attempts 0 s)) in E0; [|done]. destruct E0 as (tr & n & _ & _ & -> & _).
    exists (tr ++ ended rq a). split; [done|]. intros resp ->. destruct a as [|x]; [done|]. assert (x = resp) as -> by congruence.
    apply elem_of_app. right. simpl. apply list_elem_of_here.
Qed.

Lemma expect_ok_spec resp context s s' : expect_ok resp context s = (inr tt, s') -> rs_status resp = 200 /\ s' = s.
Proof. unfold expect_ok. destruct (rs_status resp =? 200) eqn:E0; [|done]. intros [= <-]. split; [by apply Z.eqb_eq|done]. Qed.

Definition put_request (url : pystr) (payload : list Z) : HttpRequest := mk_request (u"PUT") url upload_headers (Some payload).

Lemma upload_file_spec url file s s' : upload_file url file s = (inr tt, s') ->
  exists bs resp tr, files_of s !! file = Some bs /\ files_of s' = files_of s /\
    hp_trace s' = hp_trace s ++ tr /\ answered (put_request url bs) 200 resp tr.
Proof.
  unfold upload_file. intros (bs & s1 & E1 & H)%bind_split. apply bind_split in H as (resp & s2 & E2 & E3).
  unfold on_files in E1. destruct (fi_read file (hp_world s)) as [[e|b] w] eqn:Er; [done|]. injection E1 as -> <-.
  apply expect_ok_spec in E3 as [Hok ->]. apply call_spec in E2 as (Hf & tr & Ht & Hin).
  exists bs, resp, tr. split; [by apply read_found in Er|]. apply read_files in Er. split; [by rewrite Hf|].
  split; [done|]. split; [by apply Hin|done].
Qed.

(** every other file is as it was *)
Definition only_touches (paths : list pystr) (s s' : State) : Prop := forall q, q ∉ paths -> files_of s' !! q = files_of s !! q.

Lemma upload_log_spec url file s path s' : upload_log_file url file s = (inr path, s') ->
  exists bs resp tr sp, files_of s !! file = Some bs /\ hp_trace s' = hp_trace s ++ tr /\
    answered (put_request url (gzip bs)) 200 resp tr /\ urlsplit url = Some sp /\ path = sp_path sp /\
    only_touches [file ++ u".gz"] s s'.
Proof.
  unfold upload_log_file. intros (? & s1 & E1 & H)%bind_split. apply bind_split in H as (r & s2 & E2 & H).
  apply bind_split in H as (? & s3 & E3 & H). rewrite attempt_eq in E2. injection E2 as Er E2.
  destruct r as [e|[]]; [done|]. destruct (urlsplit url) as [sp|]; [|done]. injection H as <- <-.
  destruct (upload_file url (file ++ u".gz") s1) as [? s1'] eqn:Eu. simpl in Er, E2. subst.
  unfold gzip_file in E1. apply bind_split in E1 as (bs & s0 & Eb & Ew). unfold on_files in Eb, Ew.
  destruct (fi_read file (hp_world s)) as [[e|b] w] eqn:Erd; [done|]. injection Eb as -> <-. simpl in Ew.
  destruct (fi_write _ _ w) as [[e|[]] w1] eqn:Ewr; [done|]. injection Ew as _ <-.
  pose proof (read_found _ _ _ _ Erd) as Hb. apply read_files in Erd. apply write_files in Ewr.
  apply upload_file_spec in Eu as (bs' & resp & tr & Hgz & Hsame & Htr & Hans). unfold files_of in Hgz, Hsame. simpl in Hgz, Hsame.
  rewrite Ewr, lookup_insert_eq in Hgz. injection Hgz as <-. unfold remove_quietly, modify in E3. injection E3 as _ <-.
  exists bs, resp, tr, sp. do 5 (split; [done|]). intros q Hq%not_elem_of_cons. unfold files_of. simpl.
  destruct (fi_remove (file ++ u".gz") (hp_world s2)) as [rr w2] eqn:Erm. rewrite (remove_other _ _ _ _ _ Erm) by tauto.
  rewrite Hsame, Ewr, lookup_insert_ne by (by intros <-; tauto). by rewrite Erd.
Qed.

Definition end_request (api_url api_key id : pystr) (body : list Z) : HttpRequest :=
  mk_request (u"POST") (session_url api_url id) (set_http_header version api_key) (Some body).

Lemma send_end_spec api_url api_key id errored s urls s' : send_end api_url api_key id errored s = (inr urls, s') ->
  exists body resp message tr, session_end_gojson errored ≫= encode = Some body /\
    answered (end_request api_url api_key id body) 200 resp tr /\
    session_end_response (rs_content resp) = inr (mk_api_response true message urls) /\
    hp_trace s' = hp_trace s ++ tr /\ files_of s' = files_of s.
Proof.
  unfold send_end. intros (body & s1 & E1 & H)%bind_split. apply bind_split in H as (resp & s2 & E2 & H).
  apply bind_split in H as ([] & s3 & E3 & H). apply bind_split in H as (r & s4 & E4 & H).
  unfold body_bytes in E1. destruct (session_end_gojson errored ≫= encode) as [b|]; [|done]. injection E1 as -> <-.
  apply expect_ok_spec in E3 as [Hok ->]. apply call_spec in E2 as (Hf & tr & Ht & Hin).
  unfold read_response in E4. destruct (session_end_response (rs_content resp)) as [[]|x] eqn:Ex; try done. injection E4 as -> <-.
  destruct (ar_success r) eqn:Er; [|done]. injection H as <- <-. exists body, resp, (ar_message r), tr.
  split; [done|]. split; [split; [by apply Hin|done]|]. split; [|done]. destruct r. simpl in *. by rewrite Er in Ex.
Qed.

Lemma touches_trans l1 l2 s1 s2 s3 : only_touches l1 s1 s2 -> only_touches l2 s2 s3 -> only_touches (l1 ++ l2) s1 s3.
Proof. intros H1 H2 q Hq. rewrite elem_of_app in Hq. rewrite H2, H1; tauto. Qed.

Lemma as_url_spec v s url s' : as_url v s = (inr url, s') -> v = PStr url /\ s' = s.
Proof. destruct v; try done. by intros [= -> ->]. Qed.

(** When a session was ended and its logs uploaded, the service accepted the end
    of the session first; the log went, compressed, to the address of that
    answer, whose path is returned; the error log went, compressed, to the other
    address if there is one; both were accepted, and no other file than the
    compressed copies was touched. *)
Theorem logs_uploaded api_url api_key id errored logfile stderr_file s path s' :
  send_end_and_upload api_url api_key id errored logfile stderr_file s = (inr path, s') -> logfile <> [] ->
  exists body closed message urls url bs resp sp t_end t_log t_err,
    session_end_gojson errored ≫= encode = Some body /\
    answered (end_request api_url api_key id body) 200 closed t_end /\
    session_end_response (rs_content closed) = inr (mk_api_response true message urls) /\
    eu_url urls = PStr url /\ urlsplit url = Some sp /\ path = sp_path sp /\
    files_of s !! logfile = Some bs /\ answered (put_request url (gzip bs)) 200 resp t_log /\
    hp_trace s' = hp_trace s ++ t_end ++ t_log ++ t_err /\
    (truthy (eu_error_url urls) = true -> stderr_file <> [] -> stderr_file <> logfile ++ u".gz" ->
       exists eurl ebs eresp, eu_error_url urls = PStr eurl /\ files_of s !! stderr_file = Some ebs /\
         answered (put_request eurl (gzip ebs)) 200 eresp t_err) /\
    only_touches [logfile ++ u".gz"; stderr_file ++ u".gz"] s s'.
Proof.
  unfold send_end_and_upload. intros (urls & s1 & E1 & H)%bind_split Hlog. apply bind_split in H as (p & s2 & E2 & H).
  apply bind_split in H as ([] & s3 & E3 & H). injection H as -> <-.
  apply send_end_spec in E1 as (body & closed & message & t_end & Hb & Hans & Hresp & Ht1 & Hf1).
  destruct logfile as [|c l]; [done|]. set (logfile := c :: l) in *.
  apply bind_split in E2 as (url & s1' & Eu & E2). apply as_url_spec in Eu as [Hurl ->].
  apply upload_log_spec in E2 as (bs & resp & t_log & sp & Hbs & Ht2 & Hput & Hsp & Hp & Htouch).
  assert (only_touches [logfile ++ u".gz"] s s2) as Htouch1 by (intros q Hq; by rewrite Htouch, Hf1).
  assert (exists t_err, hp_trace s3 = hp_trace s2 ++ t_err /\ only_touches [stderr_file ++ u".gz"] s2 s3 /\
    (truthy (eu_error_url urls) = true -> stderr_file <> [] -> stderr_file <> logfile ++ u".gz" ->
       exists eurl ebs eresp, eu_error_url urls = PStr eurl /\ files_of s !! stderr_file = Some ebs /\
         answered (put_request eurl (gzip ebs)) 200 eresp t_err)) as (t_err & Ht3 & Htouch3 & Herr).
  { destruct (truthy (eu_error_url urls) && negb (str_eqb stderr_file [])) eqn:Ec.
    - apply bind_split in E3 as (eurl & s2' & Eu & E3). apply as_url_spec in Eu as [Heurl ->].
      apply bind_split in E3 as (p' & s3' & E3 & H3). injection H3 as <-.
      apply upload_log_spec in E3 as (ebs & eresp & t_err & esp & Hebs & Ht3 & Heput & _ & _ & Htouch3).
      exists t_err. split; [done|]. split; [done|]. intros _ _ Hne. exists eurl, ebs, eresp. split; [done|]. split; [|done].
      rewrite <-Hebs. symmetry. apply Htouch1. rewrite list_elem_of_singleton. done.
    - injection E3 as <-. exists []. split; [by rewrite app_nil_r|]. split; [done|].
      intros Ht Hs. apply andb_false_iff in Ec as [Ec|Ec]; [congruence|]. apply negb_false_iff in Ec. by apply bool_decide_eq_true in Ec. }
  exists body, closed, message, urls, url, bs, resp, sp, t_end, t_log, t_err.
  assert (files_of s !! logfile = Some bs) as Hbs' by (by rewrite <-Hf1).
  split_and!; try done.
  - rewrite Ht3, Ht2, Ht1. by rewrite <-!app_assoc.
  - by apply (touches_trans [_] [_] s s2 s3).
Qed.

(** ** What an enrollment leaves *)

Definition enroll_request (api_url code : pystr) : HttpRequest :=
  mk_request (u"GET") (api_url ++ u"/v3/eds/internal/enroll/" ++ code) [] None.

(** An enrollment that ends in success got its answer for the code, and leaves a
    configuration from which the next start reads the token and the server id of
    that answer. *)
Theorem enroll_then_start loads code explicit_url data_dir s s' :
  (forall text d, toml_read text = Some d -> loads text = Some d) ->
  run_enroll code explicit_url data_dir s = (inr EXIT_SUCCESS, s') ->
  exists api_url resp message token server_id tr,
    (match explicit_url with [] => get_api_url (take 1 code) | url => Some url end) = Some api_url /\
    answered (enroll_request api_url code) 200 resp tr /\ hp_trace s' = hp_trace s ++ tr /\
    enroll_response (rs_content resp) = inr (mk_api_response true message (mk_enroll_token token server_id)) /\
    (flat_value token = true -> flat_value server_id = true ->
     exists file c, files_of s' !! path_join data_dir [u"config.toml"] = Some file /\
       (load_config loads (Some file)).1 = inr c /\ dict_get (u"token") c = Some token /\ dict_get (u"server_id") c = Some server_id).
Proof.
  intros Hloads. unfold run_enroll.
  destruct (match explicit_url with [] => get_api_url (take 1 code) | url => Some url end) as [api_url|]; [|done].
  intros (r & s1 & E1 & H)%bind_split. rewrite attempt_eq in E1. injection E1 as Er E1.
  destruct (call _ s) as [r0 s1'] eqn:Ec. simpl in Er, E1. subst r0 s1'.
  destruct r as [[]|resp]; [done..|].
  apply call_spec in Ec as (Hf & tr & Ht & Hin).
  destruct (rs_status resp =? 200) eqn:Es; [|done]. cbn [negb] in H. apply Z.eqb_eq in Es.
  destruct (enroll_response (rs_content resp)) as [[]|[ok message [token server_id]]] eqn:Ee; [done..|].
  simpl in H. destruct ok; [|done]. cbn [negb] in H.
  set (d := [(u"token", token); (u"server_id", server_id)]) in *.
  destruct (write_config other_str d None) as [[e|[]] [text|]] eqn:Ew; try done.
  apply bind_split in H as (w & s2 & E2 & H). rewrite attempt_eq in E2. injection E2 as Ew2 E2.
  destruct (on_files _ s1) as [w0 s2'] eqn:Ef. simpl in Ew2, E2. subst w0 s2'. destruct w as [|[]]; [done|]. injection H as <-.
  unfold on_files in Ef. destruct (fi_write _ _ _) as [[e|[]] w1] eqn:Ewr; [done|]. injection Ef as <-.
  exists api_url, resp, message, token, server_id, tr. split; [done|]. split; [split; [by apply Hin|done]|].
  split; [done|]. split; [done|]. intros Htok Hid.
  assert (flat d) as Hd.
  { split; [apply (bool_decide_eq_true_1 _); by vm_compute|]. unfold d. cbn [forallb flat_entry fst snd andb]. unfold flat_entry.
    simpl flat_value. cbn [fst snd]. by rewrite Htok, Hid. }
  destruct (written_loads loads other_str Hloads d None Hd) as (file' & Hw & Hl). rewrite Ew in Hw. injection Hw as <-.
  exists text, d. split; [apply write_files in Ewr; unfold files_of; simpl; rewrite Ewr; by apply lookup_insert_eq|].
  split; [by rewrite Hl|]. split; reflexivity.
Qed.
End uploads.
End session.

(** ** The credentials file *)

(** [base64.b64encode(bs)] *)
Definition b64encode (bs : list Z) : pystr := (from_urlsafe <$> url_encode bs) ++ padding (Z.of_nat (length (url_encode bs))).

Lemma url_encode_chars bs : forallb is_byte bs = true -> Forall (fun c => exists v, 0 <= v < 64 /\ c = url_char v) (url_encode bs).
Proof.
  induction bs as [|a|a b|a b c r IH] using three_ind; intros Hb; cbn [forallb] in Hb; unfold is_byte in Hb; bool_prop; cbn [url_encode].
  - constructor.
  - repeat (apply List.Forall_cons; [eexists; split; [|reflexivity]; Z.to_euclidean_division_equations; lia|]). constructor.
  - repeat (apply List.Forall_cons; [eexists; split; [|reflexivity]; Z.to_euclidean_division_equations; lia|]). constructor.
  - repeat (apply List.Forall_cons; [eexists; split; [|reflexivity]; Z.to_euclidean_division_equations; lia|]). by apply IH.
Qed.

Lemma pads_at_most_two bs : (Z.to_nat ((- Z.of_nat (length (url_encode bs))) mod 4) <= 2)%nat.
Proof.
  induction bs as [|a|a b|a b c r IH] using three_ind; [vm_compute; lia..|].
  rewrite url_encode_length3. replace (- (Z.of_nat (length (url_encode r)) + 4)) with (- Z.of_nat (length (url_encode r)) + (-1) * 4) by lia.
  by rewrite Z.mod_add by lia.
Qed.

Lemma std_char v : 0 <= v < 64 -> b64_char (from_urlsafe (url_char v)) && ascii [from_urlsafe (url_char v)] && negb (from_urlsafe (url_char v) =? 61) = true.
Proof. intros Hv. apply (sextet_check (fun v => b64_char (from_urlsafe (url_char v)) && ascii [from_urlsafe (url_char v)] && negb (from_urlsafe (url_char v) =? 61))); [by vm_compute|done]. Qed.

Lemma rstrip_pads s n : 61 ∉ s -> rstrip_char 61 (s ++ replicate n 61) = s.
Proof.
  intros Hs. unfold rstrip_char. rewrite rev_app_distr.
  assert (rev (replicate n 61) = replicate n 61) as -> by (rewrite rev_alt; apply reverse_replicate).
  induction n as [|n IH]; [|simpl; by rewrite ?IH].
  simpl. destruct (rev s) as [|c r] eqn:E0; simpl; [by rewrite <-(rev_involutive s), E0|].
  destruct (c =? 61) eqn:Ec; [|rewrite <-(rev_involutive s), E0; done]. apply Z.eqb_eq in Ec. subst c.
  destruct Hs. rewrite <-(rev_involutive s), E0. apply list_elem_of_In, in_rev. rewrite rev_involutive. by left.
Qed.

Lemma b64_reads_back bs : forallb is_byte bs = true -> b64decode (b64encode bs) = Some bs.
Proof.
  intros Hb. pose proof (url_encode_chars bs Hb) as Hc.
  assert (Forall (fun c => b64_char c && ascii [c] && negb (c =? 61) = true) (from_urlsafe <$> url_encode bs)) as Hstd.
  { apply Forall_fmap. eapply Forall_impl; [exact Hc|]. intros c (v & Hv & ->). by apply std_char. }
  assert (61 ∉ from_urlsafe <$> url_encode bs) as H61.
  { intros H. rewrite Forall_forall in Hstd. apply Hstd in H. by vm_compute in H. }
  unfold b64decode, b64encode. assert (ascii ((from_urlsafe <$> url_encode bs) ++ padding (Z.of_nat (length (url_encode bs)))) = true) as ->.
  { unfold ascii. rewrite forallb_app. apply andb_true_iff. split.
    - apply forallb_Forall. eapply Forall_impl; [exact Hstd|]. intros c H. unfold ascii in H. cbn [forallb] in H. bool_prop. lia.
    - unfold padding, repeat_char. apply forallb_Forall, Forall_replicate. reflexivity. }
  assert (b64_shape ((from_urlsafe <$> url_encode bs) ++ padding (Z.of_nat (length (url_encode bs)))) = true) as ->.
  { unfold b64_shape, padding, repeat_char. rewrite rstrip_pads by done. apply andb_true_iff. split.
    - apply forallb_Forall. eapply Forall_impl; [exact Hstd|]. intros c H. apply andb_true_iff in H as [H _]. by apply andb_true_iff in H as [H _].
    - rewrite length_app, length_replicate. pose proof (pads_at_most_two bs). apply Nat.leb_le. lia. }
  simpl. by apply a2b_url_encode.
Qed.

Section creds.
Context {W : Type} `{!HttpHost W exn} `{!Files W} `{!FilesLaws W} (value_error_text : list Z -> pystr).

(** the credentials file has the bytes the service encoded *)
Lemma creds_written bs filename (s s' : Http W exn) : forallb is_byte bs = true ->
  write_creds_to_file value_error_text (b64encode bs) filename s = (inr tt, s') ->
  fi_files (hp_world s') !! filename = Some bs.
Proof.
  intros Hb. unfold write_creds_to_file. rewrite b64_reads_back by done. unfold on_files.
  destruct (fi_write filename bs (hp_world s)) as [[e|[]] w] eqn:E0; [done|]. intros [= <-]. apply write_files in E0. simpl. rewrite E0.
  apply lookup_insert_eq.
Qed.
End creds.

(** the answers of a busy service never come out of the client: an error that
    carries a status has another one, so of the statuses the recovery retries
    only 500 reaches it *)
Lemma busy_is_no_error {W} `{!HttpHost W exn} `{!HttpLaws W exn} fuel rq (s : Http W exn) resp s' :
  http_do fuel rq s = (inr resp, s') -> rs_status resp ∉ _RETRY_STATUS.
Proof.
  intros H. apply (retry_loop_run fuel rq _ (hp_set_attempts 0 s)) in H; [|done].
  destruct H as (tr & n & _ & Hb & _). by apply bool_decide_eq_false in Hb.
Qed.

(** ** The theorems on a concrete input *)
Module SessionRun.
#[export] Instance facts : SessionHost Machine.world := {|
  sn_local_ip w := (inr (u"10.0.0.1"), w);
  sn_machine_id w := (inr (u"m1"), w);
  sn_hostname w := (inr (u"host"), w);
  sn_system_info w := (inr (PDict []), w)
|}.
#[local] Existing Instance Machine.host.
#[local] Existing Instance Machine.host_laws.
#[local] Instance disk : Files Machine.world := Machine.files [].
#[local] Instance disk_laws : FilesLaws Machine.world := Machine.files_laws [].
#[local] Instance net : NetFiles Machine.world exn := Machine.net_files [].

Definition no_str (v : pyobj) : pystr := [].
Definition no_text (b : list Z) : pystr := [].
Definition zip (b : list Z) : list Z := rev b.

(** a service that is busy once, ends the session, and takes one log *)
Definition ok (body : pystr) : exn + Response := inr (mk_response 200 body (utf8_encode body) None []).
Definition q (s : pystr) : pystr := dq ++ s ++ dq.
Definition ended_body : pystr :=
  u"{" ++ q (u"success") ++ u":true," ++ q (u"data") ++ u":{" ++ q (u"url") ++ u":" ++ q (u"https://store/a/log.gz?k=1") ++ u"}}".
Definition log_file : pystr := u"/logs/eds.log".
Definition closing : Http Machine.world exn :=
  Machine.start [inr (mk_response 503 [] [] None []); ok ended_body; ok []] {[log_file := u"text"]}.

Definition uploaded : (api_error + pystr) * Http Machine.world exn :=
  send_end_and_upload 5 (u"v1") no_str no_text zip (u"https://api") (u"key") (u"s1") false log_file [] closing.

Lemma logs_uploaded_witness : uploaded.1 = inr (u"/a/log.gz") /\ log_file <> [] /\
  exists body closed message urls url bs resp sp t_end t_log t_err,
    session_end_gojson false ≫= encode = Some body /\
    answered (end_request (u"v1") (u"https://api") (u"key") (u"s1") body) 200 closed t_end /\
    session_end_response (rs_content closed) = inr (mk_api_response true message urls) /\
    eu_url urls = PStr url /\ urlsplit url = Some sp /\ u"/a/log.gz" = sp_path sp /\
    files_of closing !! log_file = Some bs /\ answered (put_request (u"v1") url (zip bs)) 200 resp t_log /\
    hp_trace uploaded.2 = hp_trace closing ++ t_end ++ t_log ++ t_err /\
    (truthy (eu_error_url urls) = true -> @nil Z <> [] -> @nil Z <> log_file ++ u".gz" ->
       exists eurl ebs eresp, eu_error_url urls = PStr eurl /\ files_of closing !! [] = Some ebs /\
         answered (put_request (u"v1") eurl (zip ebs)) 200 eresp t_err) /\
    only_touches [log_file ++ u".gz"; [] ++ u".gz"] closing uploaded.2.
Proof.
  assert (uploaded.1 = inr (u"/a/log.gz")) as H1 by (vm_compute; reflexivity).
  assert (log_file <> []) as H2 by done.
  split; [exact H1|]. split; [exact H2|].
  assert (uploaded = (inr (u"/a/log.gz"), uploaded.2)) as H by (rewrite <-H1; apply surjective_pairing).
  exact (logs_uploaded 5 (u"v1") no_str no_text zip (u"https://api") (u"key") (u"s1") false log_file [] closing (u"/a/log.gz") uploaded.2 H H2).
Defined.

(** a code of the sandbox *)
Definition enrolled_body : pystr :=
  u"{" ++ q (u"success") ++ u":true," ++ q (u"data") ++ u":{" ++ q (u"token") ++ u":" ++ q (u"abc") ++ u"," ++
  q (u"serverId") ++ u":" ++ q (u"e1") ++ u"}}".
Definition enrolling : Http Machine.world exn := Machine.start [ok enrolled_body] ∅.
Definition enrolled : (api_error + Z) * Http Machine.world exn :=
  run_enroll 3 no_str (u"S123") [] (u"/data") enrolling.

Lemma enroll_then_start_witness : enrolled.1 = inr EXIT_SUCCESS /\
  exists api_url resp message token server_id tr,
    get_api_url (u"S") = Some api_url /\
    answered (enroll_request api_url (u"S123")) 200 resp tr /\ hp_trace enrolled.2 = hp_trace enrolling ++ tr /\
    enroll_response (rs_content resp) = inr (mk_api_response true message (mk_enroll_token token server_id)) /\
    (flat_value token = true -> flat_value server_id = true ->
     exists file c, files_of enrolled.2 !! path_join (u"/data") [u"config.toml"] = Some file /\
       (load_config toml_read (Some file)).1 = inr c /\ dict_get (u"token") c = Some token /\ dict_get (u"server_id") c = Some server_id).
Proof.
  assert (enrolled.1 = inr EXIT_SUCCESS) as H1 by (vm_compute; reflexivity).
  split; [exact H1|].
  assert (enrolled = (inr EXIT_SUCCESS, enrolled.2)) as H by (rewrite <-H1; apply surjective_pairing).
  exact (enroll_then_start 3 no_str toml_read (u"S123") [] (u"/data") enrolling enrolled.2 (fun text d H => H) H).
Defined.
End SessionRun.
