(* ===== verification/ExportApi.v ===== *)
(** * The calls of the export service: the client half of eds/cmd/import_client.py

    Creating an export job, reading its status, and downloading its files.  The
    calls of the service go through the retrying client; a file is fetched with
    one bare request.  Ten workers download in some order, one file at a time:
    [sched] is that order.

    The theorems: the body of a job says what was asked for, a report reads back,
    and a download that returns has fetched every file. *)
From stdpp Require Import base tactics list option numbers sets strings gmap.
From S2P Require Import Prelude PyStr PyPath PyDict PyUrl PyFloat GoJson JsonLoads JsonRoundtrip DbChange Interfaces Streaming Files Http Api Config CrdbFile ImportClient Machine Session.

(** [_nanos_to_dt], in microseconds *)
Definition _nanos_to_dt (unix_nanos : Z) : Z := unix_nanos / 1000.

(** ** Reading a report *)

Definition get_text (k : pystr) (m : pydict pyobj) : api_error + pystr :=
  match dict_get k m with None => inr [] | Some (PStr s) => inr s | Some _ => inl Outside end.

Fixpoint texts (l : list pyobj) : api_error + list pystr :=
  match l with
  | [] => inr []
  | PStr s :: l' => match texts l' with inl e => inl e | inr ss => inr (s :: ss) end
  | _ :: _ => inl Outside
  end.

(** [list(td.get("urls") or [])] *)
Definition get_urls (m : pydict pyobj) : api_error + list pystr :=
  match dict_get (u"urls") m with
  | None => inr []
  | Some v => if truthy v then match v with PList l => texts l | _ => inl Outside end else inr []
  end.

Definition table_from (td : pyobj) : api_error + ExportJobTableData :=
  match td with
  | PDict m =>
      match get_text (u"error") m, get_text (u"status") m, get_urls m, get_text (u"cursor") m with
      | inr error, inr status, inr urls, inr cursor => inr (mk_table_data error status urls cursor)
      | _, _, _, _ => inl Outside
      end
  | _ => inl AttributeError
  end.

Fixpoint tables_from (l : pydict pyobj) : api_error + pydict ExportJobTableData :=
  match l with
  | [] => inr []
  | (name, td) :: l' =>
      match table_from td with
      | inl e => inl e
      | inr t => match tables_from l' with inl e => inl e | inr ts => inr ((name, t) :: ts) end
      end
  end.

(** [ExportJobResponse.from_data] *)
Definition from_data (data : pyobj) : api_error + ExportJobResponse :=
  match data with
  | PDict m =>
      match get_or_empty (u"tables") m with
      | PDict tables =>
          match tables_from tables with
          | inl e => inl e
          | inr ts => inr (mk_job (truthy (get_or (u"completed") (PBool false) m)) ts)
          end
      | _ => inl AttributeError
      end
  | _ => inl AttributeError
  end.

Definition completed_tables (job : ExportJobResponse) : nat :=
  length (filter (fun '(_, td) => str_eqb (td_status td) (u"Completed") = true) (ej_tables job)).

(** [get_progress], as a fraction *)
Definition get_progress (job : ExportJobResponse) : nat * nat :=
  match ej_tables job with [] => (0, 1)%nat | ts => (completed_tables job, length ts) end.

(** ** The body of a job *)

Definition texts_entry (k : pystr) (l : list pystr) : pydict pyobj :=
  match l with [] => [] | _ => [(k, PList (PStr <$> l))] end.

Definition export_body (tables company_ids location_ids : list pystr) (time_offset_ms : option Z) : pydict pyobj :=
  match time_offset_ms with Some n => [(u"timeOffset", PInt n)] | None => [] end ++
  texts_entry (u"companyIds") company_ids ++ texts_entry (u"locationIds") location_ids ++ texts_entry (u"tables") tables.

Section export.
Context {W : Type} `{!HttpHost W exn} `{!Files W}.
Context (patience : nat) (version : pystr) (other_str : pyobj -> pystr) (value_error_text : list Z -> pystr).
Context (sched : nat -> list nat).

Abbreviation State := (Http W exn).
Abbreviation SM A := (M State api_error A).

Definition of_sum {A} (r : api_error + A) : SM A := match r with inl e => raise e | inr a => mret a end.

Definition decode_api_response (resp : Response) : SM pyobj :=
  match loads_bytes (rs_content resp) with
  | PayloadOk (PDict m) =>
      if truthy (get_or (u"success") (PBool false) m) then mret (get_or_empty (u"data") m)
      else raise_exn (RuntimeError (u"api error: " ++ value_text other_str (get_or (u"message") (PStr []) m)))
  | PayloadOk _ => raise AttributeError
  | PayloadError => raise_exn (RuntimeError (u"error decoding response: " ++ value_error_text (rs_content resp)))
  | PayloadOutside => raise Outside
  end.

Definition create_export_job (api_url api_key : pystr) (tables company_ids location_ids : list pystr) (time_offset_ms : option Z) : SM pystr :=
  data ← body_bytes (marshal true (PDict (export_body tables company_ids location_ids time_offset_ms)));
  resp ← call patience (mk_request (u"POST") (api_url ++ u"/v3/export/bulk") (set_http_header version api_key) (Some data));
  _ ← expect_ok other_str resp (u"import");
  d ← decode_api_response resp;
  match d with PDict m => of_sum (get_text (u"jobId") m) | _ => raise AttributeError end.

Definition _fetch_export_job (api_url api_key job_id : pystr) : SM ExportJobResponse :=
  resp ← call patience (mk_request (u"GET") (api_url ++ u"/v3/export/bulk/" ++ job_id) (set_http_header version api_key) None);
  _ ← expect_ok other_str resp (u"import");
  d ← decode_api_response resp;
  of_sum (from_data d).

(** ** Downloads *)

Definition url_path (url : pystr) : SM pystr :=
  match urlsplit url with Some sp => mret (sp_path sp) | None => raise_exn (ValueError (value_error_text url)) end.

(** one request, without retries and without headers *)
Definition bare_get (url : pystr) : SM Response :=
  fun s => match send (mk_request (u"GET") url [] None) s with
           | (inl e, s') => (inl (api_of e), s')
           | (inr (inl e), s') => (inl (Raised e), s')
           | (inr (inr resp), s') => (inr resp, s')
           end.

Definition download_file (directory url : pystr) : SM Z :=
  path ← url_path url;
  resp ← bare_get url;
  if negb (rs_status resp =? 200) then
    raise_exn (RuntimeError (u"error fetching data: " ++ str_of_Z (rs_status resp) ++ u" " ++ rs_reason resp))
  else
    _ ← on_files (fi_write (path_join2 directory (basename path)) (rs_content resp));
    mret (Z.of_nat (length (rs_content resp))).

(** the latest time of the files of a table *)
Fixpoint final_nanos (acc : Z) (urls : list pystr) : SM Z :=
  match urls with
  | [] => mret acc
  | full_url :: urls' =>
      path ← url_path full_url;
      let f := parse_crdb_export_file path in
      if cf_ok f then final_nanos (Z.max acc (cf_unix_nanos f)) urls'
      else raise_exn (RuntimeError (u"unrecognized file path: " ++ basename path))
  end.

(** the entry of one table and the files it adds *)
Definition table_download (table : pystr) (td : ExportJobTableData) : SM (TableExportInfo * list pystr) :=
  match td_urls td with
  | [] =>
      match int_of_str (td_cursor td) with
      | Some cursor_nanos => mret (mk_info table (_nanos_to_dt cursor_nanos), [])
      | None => raise_exn (RuntimeError (u"error parsing timestamp value: " ++ td_cursor td ++ u". " ++ value_error_text (td_cursor td)))
      end
  | urls => final ← final_nanos 0 urls; mret (mk_info table (_nanos_to_dt final), urls)
  end.

Fixpoint plan_downloads (data : pydict ExportJobTableData) : SM (list TableExportInfo * list pystr) :=
  match data with
  | [] => mret ([], [])
  | (table, td) :: data' =>
      '(info, urls) ← table_download table td;
      '(infos, downloads) ← plan_downloads data';
      mret (info :: infos, urls ++ downloads)
  end.

(** [str(e)] *)
Definition error_text (e : api_error) : pystr := match e with Raised e => exn_str e | _ => [] end.

(** the workers, in the order they take the files: the failures by position *)
Fixpoint run_workers (directory : pystr) (downloads : list pystr) (order : list nat) : SM (list (nat * api_error)) :=
  match order with
  | [] => mret []
  | i :: order' =>
      match downloads !! i with
      | None => run_workers directory downloads order'
      | Some url =>
          r ← attempt (download_file directory url);
          rest ← run_workers directory downloads order';
          mret (match r with inl e => (i, e) :: rest | inr _ => rest end)
      end
  end.

(** the first failure in the order of the downloads *)
Definition first_failure (n : nat) (failures : list (nat * api_error)) : option api_error :=
  head (omap (fun i => snd <$> List.find (fun f => Nat.eqb f.1 i) failures) (seq 0 n)).

Definition bulk_download_data (data : pydict ExportJobTableData) (directory : pystr) : SM (list TableExportInfo) :=
  '(tables, downloads) ← plan_downloads data;
  match downloads with
  | [] => mret []
  | _ =>
      failures ← run_workers directory downloads (sched (length downloads));
      match first_failure (length downloads) failures with
      | Some e => raise_exn (RuntimeError (u"error downloading file: " ++ error_text e))
      | None => mret tables
      end
  end.

(** ** What a download that returns has fetched *)
Section fetched.
Context `{!HttpLaws W exn} `{!FilesLaws W} `{!NetFiles W exn}.
Context (Hsched : forall n, sched n ≡ₚ seq 0 n).

Definition get_request (url : pystr) : HttpRequest := mk_request (u"GET") url [] None.

(** the file a URL is written to *)
Definition target (directory url : pystr) : option pystr :=
  (fun sp => path_join2 directory (basename (sp_path sp))) <$> urlsplit url.

(** a file was fetched with a 200, and is there with the content it had *)
Definition is_fetched (directory url : pystr) (s : State) : Prop :=
  exists resp p, CSent (get_request url) (inr resp) ∈ hp_trace s /\ rs_status resp = 200 /\
    target directory url = Some p /\ fi_files (hp_world s) !! p = Some (rs_content resp).

Lemma bare_get_spec url s r s' : bare_get url s = (r, s') ->
  fi_files (hp_world s') = fi_files (hp_world s) /\ (forall c, c ∈ hp_trace s -> c ∈ hp_trace s') /\
  (forall resp, r = inr resp -> CSent (get_request url) (inr resp) ∈ hp_trace s').
Proof.
  unfold bare_get, send. pose proof (nf_send (get_request url) (hp_world s)) as Hf. unfold get_request in *.
  destruct (hh_send _ (hp_world s)) as [[e|resp] w]; intros [= <- <-]; simpl in *; (split; [done|]);
    (split; [intros c Hc; apply elem_of_app; by left|]); intros ? [= <-]. apply elem_of_app. right. apply list_elem_of_here.
Qed.

Lemma url_path_spec url s r s' : url_path url s = (r, s') -> s' = s /\ forall p, r = inr p -> sp_path <$> urlsplit url = Some p.
Proof. unfold url_path. destruct (urlsplit url); intros [= <- <-]; split; try done. intros p. by intros [= <-]. Qed.

(** a download keeps what was sent, and every path but its own *)
Lemma download_other directory url s r s' p : download_file directory url s = (r, s') ->
  (forall c, c ∈ hp_trace s -> c ∈ hp_trace s') /\
  (target directory url <> Some p -> fi_files (hp_world s') !! p = fi_files (hp_world s) !! p).
Proof.
  unfold download_file, mbind, M_bind. destruct (url_path url s) as [[e|path] s1] eqn:Ep; apply url_path_spec in Ep as [-> Hp].
  { by intros [= _ <-]. }
  specialize (Hp _ eq_refl). destruct (bare_get url s) as [[e|resp] s2] eqn:Eg; apply bare_get_spec in Eg as (Hf & Ht & _).
  { intros [= _ <-]. by rewrite Hf. }
  destruct (negb (rs_status resp =? 200)); [intros [= _ <-]; by rewrite Hf|].
  unfold on_files. destruct (fi_write _ _ (hp_world s2)) as [rw w] eqn:Ew. intros H.
  assert (s' = hp_set_world w s2) as -> by (destruct rw; injection H as _ <-; done). simpl. split; [exact Ht|]. intros Hne.
  rewrite <-Hf. apply (write_other _ _ _ _ _ p Ew). intros ->. apply Hne. unfold target.
  destruct (urlsplit url); [|done]. simpl in *. by injection Hp as <-.
Qed.

Lemma download_fetched directory url s n s' : download_file directory url s = (inr n, s') -> is_fetched directory url s'.
Proof.
  unfold download_file. intros (path & s1 & Ep & H)%bind_split. apply url_path_spec in Ep as [-> Hp]. specialize (Hp _ eq_refl).
  apply bind_split in H as (resp & s2 & Eg & H). apply bare_get_spec in Eg as (Hf & _ & Ht). specialize (Ht _ eq_refl).
  destruct (rs_status resp =? 200) eqn:Es; [|done]. cbn [negb] in H. apply Z.eqb_eq in Es.
  apply bind_split in H as ([] & s3 & Ew & H). injection H as _ <-. unfold on_files in Ew.
  destruct (fi_write _ _ (hp_world s2)) as [[e|[]] w] eqn:Ewr; [done|]. injection Ew as <-.
  exists resp, (path_join2 directory (basename path)). split; [exact Ht|]. split; [done|]. split.
  - unfold target. destruct (urlsplit url); [|done]. simpl in *. by injection Hp as <-.
  - apply write_files in Ewr. simpl. rewrite Ewr. apply lookup_insert_eq.
Qed.

Lemma fetched_later directory url url' s r s' : download_file directory url' s = (r, s') ->
  target directory url' <> target directory url -> is_fetched directory url s -> is_fetched directory url s'.
Proof.
  intros E0 Hne (resp & p & Hin & Hok & Hp & Hf). apply (download_other _ _ _ _ _ p) in E0 as [H1 H2].
  exists resp, p. split; [by apply H1|]. split; [done|]. split; [done|]. rewrite H2; [done|]. by rewrite <-Hp.
Qed.

Lemma run_workers_fetched directory downloads : NoDup (target directory <$> downloads) -> forall order s failures s',
  NoDup order -> run_workers directory downloads order s = (inr failures, s') ->
  (forall i url, downloads !! i = Some url -> i ∉ order -> is_fetched directory url s -> is_fetched directory url s') /\
  (forall i url, downloads !! i = Some url -> i ∈ order -> i ∉ failures.*1 -> is_fetched directory url s').
Proof.
  intros Hd. induction order as [|i order IH]; intros s failures s' Ho.
  { intros [= <- <-]. split; [done|]. intros i url _ H. by apply elem_of_nil in H. }
  apply NoDup_cons in Ho as [Hi Ho]. cbn [run_workers]. destruct (downloads !! i) as [url0|] eqn:E0.
  2: { intros H. specialize (IH _ _ _ Ho H) as [IH1 IH2]. split; intros j url Hj.
    - intros [_ ?]%not_elem_of_cons. by apply (IH1 j).
    - intros [->|Hin]%elem_of_cons; [congruence|]. by apply (IH2 j). }
  intros (r & s1 & Ea & H)%bind_split. rewrite attempt_eq in Ea. injection Ea as Er Es.
  destruct (download_file directory url0 s) as [r0 s1'] eqn:Ed. simpl in Er, Es. subst r0 s1'.
  apply bind_split in H as (rest & s2 & Ew & H). injection H as <- <-. specialize (IH _ _ _ Ho Ew) as [IH1 IH2].
  assert (forall j url, downloads !! j = Some url -> j <> i -> target directory url0 <> target directory url) as Hne.
  { intros j url Hj Hji Heq. apply Hji. apply (NoDup_lookup (target directory <$> downloads) j i (target directory url) Hd).
    - by rewrite list_lookup_fmap, Hj.
    - rewrite list_lookup_fmap, E0. simpl. by rewrite Heq. }
  split; intros j url Hj.
  - intros [Hji Hjo]%not_elem_of_cons Hf. apply (IH1 j); [done|done|]. eapply fetched_later; [exact Ed|by eapply Hne|done].
  - intros Hin Hnf. destruct (decide (j = i)) as [->|Hji].
    + assert (url = url0) as -> by congruence. destruct r as [e|n]; [destruct Hnf; apply list_elem_of_here|].
      apply (IH1 i); [done|done|]. by eapply download_fetched.
    + apply elem_of_cons in Hin as [?|Hin]; [done|]. apply (IH2 j); [done|done|].
      destruct r; [|done]. intros H. apply Hnf. simpl. by apply list_elem_of_further.
Qed.

Definition all_urls (data : pydict ExportJobTableData) : list pystr := concat ((fun e => td_urls e.2) <$> data).

(** a file is an export file, no later than the time of its table *)
Definition covered (info : TableExportInfo) (url : pystr) : Prop :=
  exists sp, urlsplit url = Some sp /\ cf_ok (parse_crdb_export_file (sp_path sp)) = true /\
    _nanos_to_dt (cf_unix_nanos (parse_crdb_export_file (sp_path sp))) <= ti_timestamp info.

Lemma final_nanos_spec acc urls s n s' : final_nanos acc urls s = (inr n, s') -> s' = s /\ acc <= n /\
  forall url, url ∈ urls -> exists sp, urlsplit url = Some sp /\ cf_ok (parse_crdb_export_file (sp_path sp)) = true /\
    cf_unix_nanos (parse_crdb_export_file (sp_path sp)) <= n.
Proof.
  revert acc s. induction urls as [|url urls IH]; intros acc s; cbn [final_nanos].
  { intros [= <- <-]. split; [done|]. split; [done|]. intros url H. by apply elem_of_nil in H. }
  intros (path & s1 & Ep & H)%bind_split. apply url_path_spec in Ep as [-> Hp]. specialize (Hp _ eq_refl).
  destruct (urlsplit url) as [sp|] eqn:Es; [|done]. simpl in Hp. injection Hp as <-.
  destruct (cf_ok (parse_crdb_export_file (sp_path sp))) eqn:Ek; [|done]. apply IH in H as (-> & Hn & Hall).
  split; [done|]. split; [lia|]. intros u [->|Hu]%elem_of_cons; [exists sp; split; [done|]; split; [done|lia]|by apply Hall].
Qed.

Lemma table_download_spec table td s info urls s' : table_download table td s = (inr (info, urls), s') ->
  s' = s /\ ti_table info = table /\ urls = td_urls td /\ forall url, url ∈ urls -> covered info url.
Proof.
  unfold table_download. destruct (td_urls td) as [|u0 us] eqn:Eu.
  - destruct (int_of_str (td_cursor td)); [|done]. intros [= <- <- <-]. split; [done|]. split; [done|]. split; [done|].
    intros url H. by apply elem_of_nil in H.
  - intros (n & s1 & E0 & H)%bind_split. injection H as <- <- <-. apply final_nanos_spec in E0 as (-> & _ & Hall).
    split; [done|]. split; [done|]. split; [done|]. intros url Hu. destruct (Hall url Hu) as (sp & H1 & H2 & H3).
    exists sp. split; [done|]. split; [done|]. apply Z.div_le_mono; [lia|exact H3].
Qed.

Lemma plan_spec data s infos downloads s' : plan_downloads data s = (inr (infos, downloads), s') ->
  s' = s /\ downloads = all_urls data /\
  Forall2 (fun e info => ti_table info = e.1 /\ forall url, url ∈ td_urls e.2 -> covered info url) data infos.
Proof.
  revert infos downloads s. induction data as [|[t td] data IH]; intros infos downloads s; cbn [plan_downloads].
  { intros [= <- <- <-]. split; [done|]. split; [done|constructor]. }
  intros ([info urls] & s1 & E1 & H)%bind_split. apply bind_split in H as ([infos' downloads'] & s2 & E2 & H).
  injection H as <- <- <-. apply table_download_spec in E1 as (-> & Ht & -> & Hc). apply IH in E2 as (-> & -> & Hall).
  split; [done|]. split; [done|]. by constructor.
Qed.

Lemma first_failure_none n failures : first_failure n failures = None -> forall i, (i < n)%nat -> i ∉ failures.*1.
Proof.
  unfold first_failure. intros H i Hi Hin. apply head_None in H.
  assert (exists f, List.find (fun f => Nat.eqb f.1 i) failures = Some f) as [f Hf].
  { destruct (List.find _ failures) as [f|] eqn:Ef; [by exists f|].
    apply list_elem_of_fmap in Hin as (f & -> & Hf). apply list_elem_of_In in Hf.
    pose proof (List.find_none _ _ Ef f Hf) as Hn. simpl in Hn; by rewrite (proj2 (Nat.eqb_eq _ _) eq_refl) in Hn. }
  assert (f.2 ∈ omap (fun i => snd <$> List.find (fun f => Nat.eqb f.1 i) failures) (seq 0 n)) as Hin'.
  { apply list_elem_of_omap. exists i. split; [apply elem_of_seq; lia|]. by rewrite Hf. }
  rewrite H in Hin'. by apply elem_of_nil in Hin'.
Qed.

Lemma planned_table data infos : Forall2 (fun e info => ti_table info = e.1 /\ forall url, url ∈ td_urls e.2 -> covered info url) data infos ->
  table_names infos = dict_keys data /\
  forall table td url, (table, td) ∈ data -> url ∈ td_urls td -> exists info, info ∈ infos /\ ti_table info = table /\ covered info url.
Proof.
  induction 1 as [|[t td] info data infos [Ht Hc] _ [IH1 IH2]]; [split; [done|]; intros ? ? ? H; by apply elem_of_nil in H|].
  split; [change (ti_table info :: table_names infos = t :: dict_keys data); by rewrite Ht, IH1|].
  intros table td' url [[= -> ->]|Hin]%elem_of_cons Hu.
  - exists info. split; [apply list_elem_of_here|]. split; [done|by apply Hc].
  - destruct (IH2 _ _ _ Hin Hu) as (i & H1 & H2). exists i. split; [by apply list_elem_of_further|done].
Qed.

(** C40: A download that returns has fetched every file of every table, whatever the
    order of its workers, when no two files have the same name: each was answered
    with a 200 and is on the disk with the content of that answer; and the time
    it returns for a table, the cutoff of the worker, is not before the time of
    any of its files.  When no table has a file it returns nothing. *)
Theorem bulk_download_complete data directory s infos s' :
  NoDup (target directory <$> all_urls data) -> bulk_download_data data directory s = (inr infos, s') ->
  (forall url, url ∈ all_urls data -> is_fetched directory url s') /\
  (all_urls data = [] /\ infos = [] \/
   table_names infos = dict_keys data /\
   forall table td url, (table, td) ∈ data -> url ∈ td_urls td -> exists info, info ∈ infos /\ ti_table info = table /\ covered info url).
Proof.
  intros Hd. unfold bulk_download_data. intros ([tables downloads] & s1 & E1 & H)%bind_split.
  apply plan_spec in E1 as (-> & -> & Hplan). apply planned_table in Hplan.
  destruct (all_urls data) as [|u0 us] eqn:Eu.
  { injection H as <- _. split; [intros url Hin; by apply elem_of_nil in Hin|by left]. }
  rewrite <-Eu in *. apply bind_split in H as (failures & s2 & E2 & H).
  destruct (first_failure (length (all_urls data)) failures) eqn:Ef; [done|]. injection H as <- <-.
  assert (NoDup (sched (length (all_urls data)))) as Hnd by (rewrite Hsched; apply NoDup_seq).
  destruct (run_workers_fetched directory (all_urls data) Hd _ _ _ _ Hnd E2) as [_ Hall].
  split; [|by right]. intros url [i Hi]%list_elem_of_lookup. pose proof (lookup_lt_Some _ _ _ Hi) as Hlt.
  apply (Hall i url Hi); [rewrite Hsched; apply elem_of_seq; lia|]. by apply (first_failure_none _ _ Ef).
Qed.
End fetched.
End export.

(** ** The body says what was asked for *)

Definition texts_ok (l : list pystr) : bool := forallb chars_ok l.

(** the value under a key: the list when there is one *)
Definition asked (l : list pystr) : option pyobj := match l with [] => None | _ => Some (PList (PStr <$> l)) end.

Lemma entry_ok k l : chars_ok k = true -> texts_ok l = true ->
  forallb (fun kv => chars_ok kv.1 && wire_ok (raw_ok opts_default) opts_default kv.2) (texts_entry k l) = true.
Proof.
  intros Hk Hl. assert (forallb (wire_ok (raw_ok opts_default) opts_default) (PStr <$> l) = true) as H.
  { unfold texts_ok in Hl. induction l as [|t l IH]; [done|]. cbn [forallb] in Hl. apply andb_true_iff in Hl as [H1 H2].
    rewrite fmap_cons. cbn [forallb wire_ok]. by rewrite H1, (IH H2). }
  unfold texts_entry. destruct l as [|t l]; [done|]. cbn [forallb fst snd]. rewrite Hk. cbn [andb].
  change (wire_ok ?r ?o (PList ?x)) with (forallb (wire_ok r o) x). by rewrite H.
Qed.

Lemma body_ok tables companies locations offset : texts_ok tables = true -> texts_ok companies = true -> texts_ok locations = true ->
  wire_ok (raw_ok opts_default) opts_default (PDict (export_body tables companies locations offset)) = true.
Proof.
  intros H1 H2 H3. cbn [wire_ok]. apply andb_true_iff. split.
  - apply bool_decide_eq_true_2. destruct tables, companies, locations, offset; apply (bool_decide_eq_true_1 _); by vm_compute.
  - unfold export_body. rewrite !forallb_app, !entry_ok by done. by destruct offset.
Qed.

(** The body of an export job reads back as what was asked for, and an empty
    choice, which means all, is not in it. *)
Theorem export_body_reads_back tables companies locations offset :
  texts_ok tables = true -> texts_ok companies = true -> texts_ok locations = true ->
  exists t d, marshal true (PDict (export_body tables companies locations offset)) = Some t /\
    json_loads opts_default t = Some (PDict d) /\
    dict_get (u"tables") d = asked tables /\ dict_get (u"companyIds") d = asked companies /\
    dict_get (u"locationIds") d = asked locations /\ dict_get (u"timeOffset") d = PInt <$> offset.
Proof.
  intros H1 H2 H3. destruct (marshal_wire opts_default true _ (body_ok tables companies locations offset H1 H2 H3)) as (t & Hm & Hl).
  assert (forall l, wire (raw_value opts_default) true <$> asked l = asked l) as Hw.
  { intros [|x l]; [done|]. unfold asked. simpl fmap at 1. f_equal. apply (wire_strs (x :: l)). }
  set (W := wire (raw_value opts_default) true) in *.
  set (d := sort_entries true ((fun kv => (kv.1, W kv.2)) <$> export_body tables companies locations offset)).
  assert (dict_get (u"tables") d = W <$> asked tables /\ dict_get (u"companyIds") d = W <$> asked companies /\
    dict_get (u"locationIds") d = W <$> asked locations /\ dict_get (u"timeOffset") d = (fun n => W (PInt n)) <$> offset) as (E1 & E2 & E3 & E4).
  { subst d. unfold export_body, texts_entry, asked.
    destruct tables as [|t0 ts], companies as [|c0 cs], locations as [|l0 ls], offset as [n|]; split_and!; reflexivity. }
  exists t, d. rewrite E1, E2, E3, E4, !Hw. split; [exact Hm|]. split; [exact Hl|]. by destruct offset.
Qed.

(** ** The theorems on a concrete input *)
Module ExportRun.
#[local] Existing Instance Machine.host.
#[local] Existing Instance Machine.host_laws.
#[local] Instance disk : Files Machine.world := Machine.files [].
#[local] Instance disk_laws : FilesLaws Machine.world := Machine.files_laws [].
#[local] Instance net : NetFiles Machine.world exn := Machine.net_files [].

(** the workers finish in the opposite order *)
Definition backwards (n : nat) : list nat := rev (seq 0 n).
Lemma backwards_perm n : backwards n ≡ₚ seq 0 n.
Proof. unfold backwards. symmetry. apply Permutation_rev. Qed.

Definition no_text (b : list Z) : pystr := [].
Definition file_url (name : pystr) : pystr := u"https://store/export/" ++ name ++ u"?sig=x".
Definition data : pydict ExportJobTableData :=
  [(u"customer", mk_table_data [] (u"Completed") [file_url (basename example_export); file_url (basename example_export')] []);
   (u"order", mk_table_data [] (u"Completed") [] (u"1700000000000000000"))].
Definition answer (body : pystr) : exn + Response := inr (mk_response 200 body (utf8_encode body) None []).
Definition waiting : Http Machine.world exn := Machine.start [answer (u"one"); answer (u"two")] ∅.
Definition run : (api_error + list TableExportInfo) * Http Machine.world exn :=
  bulk_download_data no_text backwards data (u"/tmp/import") waiting.

Definition infos : list TableExportInfo := match run.1 with inr l => l | inl _ => [] end.

Lemma bulk_download_complete_witness : length infos = 2%nat /\
  (forall url, url ∈ all_urls data -> is_fetched (u"/tmp/import") url run.2) /\
  (all_urls data = [] /\ infos = [] \/
   table_names infos = dict_keys data /\
   forall table td url, (table, td) ∈ data -> url ∈ td_urls td -> exists info, info ∈ infos /\ ti_table info = table /\ covered info url).
Proof.
  assert (NoDup (target (u"/tmp/import") <$> all_urls data)) as Hd by (apply (bool_decide_eq_true_1 _); vm_compute; reflexivity).
  assert (length infos = 2%nat) as H2 by (vm_compute; reflexivity).
  assert (run = (inr infos, run.2)) as H.
  { unfold infos in *. destruct run as [[e|l] s']; [discriminate H2|reflexivity]. }
  split; [exact H2|]. exact (bulk_download_complete no_text backwards backwards_perm data (u"/tmp/import") waiting infos run.2 Hd H).
Defined.

Lemma export_body_reads_back_witness : texts_ok [u"order"] = true /\ texts_ok [] = true /\
  exists t d, marshal true (PDict (export_body [u"order"] [] [] (Some 5))) = Some t /\
    json_loads opts_default t = Some (PDict d) /\
    dict_get (u"tables") d = asked [u"order"] /\ dict_get (u"companyIds") d = asked [] /\
    dict_get (u"locationIds") d = asked [] /\ dict_get (u"timeOffset") d = PInt <$> Some 5.
Proof.
  assert (texts_ok [u"order"] = true) as H1 by (vm_compute; reflexivity). assert (texts_ok [] = true) as H2 by reflexivity.
  split; [exact H1|]. split; [exact H2|]. exact (export_body_reads_back [u"order"] [] [] (Some 5) H1 H2 H2).
Defined.
End ExportRun.
