(* ===== verification/Upgrade.v ===== *)
(** * Upgrades: eds/upgrade and eds/cmd/download.py

    [upgrade] downloads an archive and its signature, verifies it and unpacks the
    program; [apply] swaps the program for a new one with renames.  The network
    and the disk are [Http] and [Files]; the signature package and the readers of
    archives are parameters.

    The theorems: nothing unverified reaches the file of the program, and
    whatever call fails, an [apply] leaves the old program or the new one. *)
From stdpp Require Import base tactics list option numbers sets strings gmap.
From S2P Require Import Prelude ExitCodes PyStr PyPath PyDict Interfaces Files Http CrdbFile ImportClient Machine Session.

Definition _ARCH_MAP : pydict pystr :=
  [(u"amd64", u"x86_64"); (u"x86_64", u"x86_64"); (u"386", u"i386"); (u"i386", u"i386"); (u"arm64", u"arm64"); (u"aarch64", u"arm64")].

Record UpgradeConfig := mk_upgrade_config {
  uc_binary_url : pystr; uc_signature_url : pystr; uc_filename : pystr; uc_public_key : pystr
}.

(** [platform.system()] and [platform.machine()] *)
Definition build_release_urls (os_name machine version : pystr) : pystr * pystr :=
  let version := if startswith (u"v") version then version else u"v" ++ version in
  let m := lower_full machine in
  let arch := default m (dict_get m _ARCH_MAP) in
  let ext := if str_eqb os_name (u"Windows") then u"zip" else u"tar.gz" in
  let binary_url := u"https://github.com/shopmonkeyus/eds/releases/download/" ++ version ++ u"/eds_" ++ os_name ++ u"_" ++ arch ++ u"." ++ ext in
  (binary_url, binary_url ++ u".sig").

(** [os.path.splitext(p)[1]] *)
Definition extension (p : pystr) : pystr :=
  match rsplit_char 46 (basename p) with
  | Some (root, ext) => if forallb (Z.eqb 46) root then [] else u"." ++ ext
  | None => []
  end.

(** the members of an archive in order; the error is met behind them *)
Record Archive := mk_archive { ar_members : list (pystr * option (list Z)); ar_error : option pystr }.

Section upgrade.
Context {W : Type} `{!HttpHost W exn} `{!Files W}.
Context (patience : nat).
(** a temporary file, empty *)
Context (mkstemp : method W pystr pystr).
(** the signature package: the key, the signature, and the verification, with
    the texts of their exceptions *)
Context {Key Sig : Type} (key_from_blob : pystr -> pystr + Key) (sig_from_blob : list Z -> pystr + Sig)
  (key_verify : Key -> list Z -> Sig -> pystr + bool).
(** the directory of a ZIP file, or the text of the exception; the members of a
    compressed TAR file, [None] for one that is no regular file *)
Context (zip_members : list Z -> pystr + list (pystr * list Z)) (tar_members : list Z -> Archive).

Abbreviation State := (Http W exn).
Abbreviation SM A := (M State api_error A).

Definition runtime_error {A} (msg : pystr) : SM A := raise (Raised (RuntimeError msg)).

Definition verify_detached_signature (data signature : list Z) (public_key : pystr) : SM unit :=
  match key_from_blob public_key with
  | inl e => runtime_error (u"error verifying signature data: " ++ e)
  | inr key =>
      match sig_from_blob signature with
      | inl e => runtime_error (u"error verifying signature data: " ++ e)
      | inr sig =>
          match key_verify key data sig with
          | inl e => runtime_error (u"error verifying signature: " ++ e)
          | inr true => mret tt
          | inr false => runtime_error (u"error in signature verification: signature does not match")
          end
      end
  end.

(** the status is not looked at *)
Definition _get (url : pystr) : SM (list Z) :=
  resp ← call patience (mk_request (u"GET") url [] None);
  mret (rs_content resp).

(** the program in an archive *)
Definition zip_program (members : list (pystr * list Z)) : option (list Z) :=
  snd <$> List.find (fun m => endswith (u".exe") m.1) members.

Definition unzip (config : UpgradeConfig) (bytes : list Z) : SM unit :=
  match zip_members bytes with
  | inl e => runtime_error e
  | inr members =>
      match zip_program members with
      | Some program => on_files (fi_write (uc_filename config) program)
      | None => runtime_error (u"no .exe found in archive")
      end
  end.

Definition untar (config : UpgradeConfig) (bytes : list Z) : SM unit :=
  let a := tar_members bytes in
  match List.find (fun m => str_eqb m.1 (u"eds")) (ar_members a) with
  | Some (_, Some program) =>
      _ ← on_files (fi_write (uc_filename config) program);
      on_files (fi_chmod (uc_filename config) 493)
  | Some (_, None) => runtime_error (u"eds entry is not a regular file")
  | None => runtime_error (default (u"no eds binary found in archive") (ar_error a))
  end.

(** the file is opened in both branches *)
Definition _extract (config : UpgradeConfig) (archive : pystr) : SM unit :=
  bytes ← on_files (fi_read archive);
  if str_eqb (extension (uc_binary_url config)) (u".zip") then unzip config bytes else untar config bytes.

Definition upgrade (config : UpgradeConfig) : SM unit :=
  tmp ← on_files mkstemp;
  r ← attempt (binary ← _get (uc_binary_url config);
               _ ← on_files (fi_write tmp binary);
               signature ← _get (uc_signature_url config);
               _ ← verify_detached_signature binary signature (uc_public_key config);
               _extract config tmp);
  _ ← remove_quietly tmp;
  match r with inl e => raise e | inr _ => mret tt end.

(** the command: its exit code *)
Definition run_download (os_name machine public_key version filename : pystr) : SM Z :=
  let '(binary_url, signature_url) := build_release_urls os_name machine version in
  r ← attempt (upgrade (mk_upgrade_config binary_url signature_url filename public_key));
  match r with
  | inl Waits => raise Waits
  | inl _ => mret EXIT_ERROR
  | inr _ => mret EXIT_SUCCESS
  end.

(** ** Nothing unverified is installed *)
Section verified.
Context `{!HttpLaws W exn} `{!FilesLaws W} `{!NetFiles W exn}.
(** a temporary file is a new one *)
Context (Hmkstemp : forall w p w', mkstemp w = (inr p, w') -> fi_files w !! p = None /\ fi_files w' = <[p := []]> (fi_files w)).
Context (Hmkstemp_fails : forall w e w', mkstemp w = (inl e, w') -> fi_files w' = fi_files w).

(** the signature is the publisher's, of these bytes *)
Definition genuine (data signature : list Z) (public_key : pystr) : Prop :=
  exists key sig, key_from_blob public_key = inr key /\ sig_from_blob signature = inr sig /\ key_verify key data sig = inr true.

(** the program that belongs into the file *)
Definition program_of (binary_url : pystr) (archive : list Z) : option (list Z) :=
  if str_eqb (extension binary_url) (u".zip")
  then match zip_members archive with inr members => zip_program members | inl _ => None end
  else match List.find (fun m => str_eqb m.1 (u"eds")) (ar_members (tar_members archive)) with Some (_, o) => o | None => None end.

Lemma verify_spec data signature public_key s s' :
  verify_detached_signature data signature public_key s = (inr tt, s') -> genuine data signature public_key /\ s' = s.
Proof.
  unfold verify_detached_signature, genuine. destruct (key_from_blob public_key) as [|key]; [done|].
  destruct (sig_from_blob signature) as [|sig]; [done|]. destruct (key_verify key data sig) as [|[]] eqn:Ev; [done| |done].
  intros [= <-]. split; [|done]. exists key, sig. done.
Qed.

Lemma verify_state data signature public_key s r s' : verify_detached_signature data signature public_key s = (r, s') -> s' = s.
Proof. unfold verify_detached_signature, runtime_error, raise, mret, M_ret. repeat case_match; congruence. Qed.

Definition answered_with (url : pystr) (content : list Z) (tr : list (hcall exn)) : Prop :=
  exists resp, CSent (mk_request (u"GET") url [] None) (inr resp) ∈ tr /\ rs_content resp = content.

Lemma get_spec url s r s' : _get url s = (r, s') -> fi_files (hp_world s') = fi_files (hp_world s) /\
  exists tr, hp_trace s' = hp_trace s ++ tr /\ forall b, r = inr b -> answered_with url b tr.
Proof.
  unfold _get, mbind, M_bind. destruct (call _ _ s) as [[e|resp] s1] eqn:Ec; destruct (call_spec _ _ _ _ _ Ec) as (Hf & tr & Ht & Hin); intros [= <- <-].
  - split; [done|]. exists tr. split; [done|]. intros ? [=].
  - split; [done|]. exists tr. split; [done|]. intros b [= <-]. exists resp. split; [by apply Hin|done].
Qed.

Lemma on_files_eq {A} (f : method W pystr A) (s : State) : (on_files f s).2 = hp_set_world (f (hp_world s)).2 s.
Proof. unfold on_files. by destruct (f (hp_world s)). Qed.

(** the program of [bytes] was written, or is being written, and nothing else *)
Definition installs (config : UpgradeConfig) (bytes : list Z) (s : State) (r : api_error + unit) (s' : State) : Prop :=
  hp_trace s' = hp_trace s /\ (forall q, q <> uc_filename config -> fi_files (hp_world s') !! q = fi_files (hp_world s) !! q) /\
  (fi_files (hp_world s') = fi_files (hp_world s) /\ r <> inr tt \/
   exists program, program_of (uc_binary_url config) bytes = Some program /\
     (r = inr tt -> fi_files (hp_world s') !! uc_filename config = Some program)).

Lemma installs_nothing config bytes s e : installs config bytes s (inl e) s.
Proof. split; [done|]. split; [done|]. by left. Qed.

Lemma write_installs config bytes program s r s' : program_of (uc_binary_url config) bytes = Some program ->
  on_files (fi_write (uc_filename config) program) s = (r, s') -> installs config bytes s r s'.
Proof.
  intros Hp. unfold on_files. destruct (fi_write _ program (hp_world s)) as [rw w] eqn:Ew. intros H.
  assert (s' = hp_set_world w s) as -> by (destruct rw; congruence). split; [done|]. simpl.
  split; [intros q Hq; by eapply write_other|]. right. exists program. split; [done|]. intros ->.
  destruct rw as [|[]]; [done|]. apply write_files in Ew. rewrite Ew. apply lookup_insert_eq.
Qed.

Lemma chmod_installs config bytes s s1 r s' : installs config bytes s (inr tt) s1 ->
  on_files (fi_chmod (uc_filename config) 493) s1 = (r, s') -> installs config bytes s r s'.
Proof.
  intros (H1 & H2 & H3). unfold on_files. pose proof (fl_chmod (uc_filename config) 493 (hp_world s1)) as Hc.
  destruct (fi_chmod _ _ (hp_world s1)) as [rc w]. simpl in Hc. intros H.
  assert (s' = hp_set_world w s1) as -> by (destruct rc; congruence). split; [done|]. simpl. rewrite Hc.
  split; [done|]. destruct H3 as [[_ ?]|(p & Hp & Hf)]; [done|]. right. exists p. split; [done|]. intros _. by apply Hf.
Qed.

Lemma extract_spec config archive bytes s r s' : fi_files (hp_world s) !! archive = Some bytes ->
  _extract config archive s = (r, s') -> installs config bytes s r s'.
Proof.
  intros Hb. unfold _extract, mbind, M_bind. unfold on_files at 1. destruct (fi_read archive (hp_world s)) as [[e|b] w] eqn:Er.
  { intros [= <- <-]. apply read_files in Er. split; [done|]. simpl. rewrite Er. split; [done|]. by left. }
  assert (b = bytes) as -> by (apply read_found in Er; congruence). apply read_files in Er.
  assert (forall r s', installs config bytes (hp_set_world w s) r s' -> installs config bytes s r s') as Hs.
  { intros r0 s0. unfold installs. simpl. by rewrite Er. }
  intros H. apply Hs. revert H. unfold program_of, unzip, untar in *.
  destruct (str_eqb (extension (uc_binary_url config)) (u".zip")) eqn:Ez.
  - destruct (zip_members bytes) as [e|members] eqn:Em; [intros [= <- <-]; apply installs_nothing|].
    destruct (zip_program members) as [program|] eqn:Ep; [|intros [= <- <-]; apply installs_nothing].
    apply write_installs. unfold program_of. by rewrite Ez, Em.
  - destruct (List.find _ (ar_members (tar_members bytes))) as [[n [program|]]|] eqn:Em;
      [|intros [= <- <-]; apply installs_nothing..].
    unfold mbind, M_bind. destruct (on_files (fi_write _ program) _) as [rw s1] eqn:Ew.
    apply (write_installs config bytes) in Ew; [|unfold program_of; by rewrite Ez, Em].
    destruct rw as [e|[]]; [by intros [= <- <-]|]. by apply chmod_installs.
Qed.

(** an answer for the archive and one for the signature, genuine together *)
Definition downloaded (config : UpgradeConfig) (binary : list Z) (tr : list (hcall exn)) : Prop :=
  exists signature, answered_with (uc_binary_url config) binary tr /\ answered_with (uc_signature_url config) signature tr /\
    genuine binary signature (uc_public_key config).

Lemma answered_app url b tr tr' : answered_with url b tr \/ answered_with url b tr' -> answered_with url b (tr ++ tr').
Proof. intros [(r & H & ?)|(r & H & ?)]; exists r; (split; [apply elem_of_app; auto|done]). Qed.

(** what the body of [upgrade] does once it has its temporary file *)
Lemma body_spec config tmp s r s' : tmp <> uc_filename config ->
  (binary ← _get (uc_binary_url config);
   _ ← on_files (fi_write tmp binary);
   signature ← _get (uc_signature_url config);
   _ ← verify_detached_signature binary signature (uc_public_key config);
   _extract config tmp) s = (r, s') ->
  (forall q, q <> tmp -> q <> uc_filename config -> fi_files (hp_world s') !! q = fi_files (hp_world s) !! q) /\
  (fi_files (hp_world s') !! uc_filename config = fi_files (hp_world s) !! uc_filename config /\ r <> inr tt \/
   exists binary program tr, hp_trace s' = hp_trace s ++ tr /\ downloaded config binary tr /\
     program_of (uc_binary_url config) binary = Some program /\
     (r = inr tt -> fi_files (hp_world s') !! uc_filename config = Some program)).
Proof.
  intros Hne. unfold mbind, M_bind.
  destruct (_get (uc_binary_url config) s) as [[e|binary] s1] eqn:E1; apply get_spec in E1 as (F1 & t1 & T1 & A1).
  { intros [= <- <-]. rewrite F1. split; [done|]. by left. }
  specialize (A1 _ eq_refl). unfold on_files at 1. destruct (fi_write tmp binary (hp_world s1)) as [rw w] eqn:Ew.
  assert (forall q, q <> tmp -> fi_files w !! q = fi_files (hp_world s) !! q) as F2 by (intros q Hq; rewrite <-F1; by eapply write_other).
  destruct rw as [e|[]]; [intros [= <- <-]; simpl; split; [auto|left; auto]|].
  apply write_files in Ew. set (s2 := hp_set_world w s1).
  destruct (_get (uc_signature_url config) s2) as [[e|signature] s3] eqn:E3; apply get_spec in E3 as (F3 & t3 & T3 & A3).
  { intros [= <- <-]. rewrite F3. simpl. split; [auto|left; auto]. }
  specialize (A3 _ eq_refl). destruct (verify_detached_signature binary signature (uc_public_key config) s3) as [[e|[]] s4] eqn:E4.
  { apply verify_state in E4 as ->. intros [= <- <-]. rewrite F3. simpl. split; [auto|left; auto]. }
  apply verify_spec in E4 as [Hg ->]. intros H. apply (extract_spec config tmp binary) in H.
  2: { rewrite F3. simpl. rewrite Ew. apply lookup_insert_eq. }
  destruct H as (T5 & F5 & H5). split.
  { intros q H1 H2. rewrite F5, F3 by done. by apply F2. }
  destruct H5 as [[F6 Hr]|(program & Hp & Hf)]; [left; rewrite F6, F3; simpl; auto|].
  right. exists binary, program, (t1 ++ t3). split; [rewrite T5, T3; simpl; by rewrite T1, <-app_assoc|].
  split; [|done]. exists signature. split; [apply answered_app; by left|]. split; [apply answered_app; by right|done].
Qed.

(** C30: Nothing unverified is installed: when an upgrade changes the file of the
    program, or returns, the service answered with an archive and with a
    signature that the public key verifies for exactly that archive; the program
    it leaves on success is the one in the archive; no other file that was there
    is touched, the temporary one being new. *)
Theorem only_verified_installed config s r s' :
  (forall p w', mkstemp (hp_world s) = (inr p, w') -> p <> uc_filename config) -> upgrade config s = (r, s') ->
  (forall q, q <> uc_filename config -> fi_files (hp_world s) !! q <> None -> fi_files (hp_world s') !! q = fi_files (hp_world s) !! q) /\
  (fi_files (hp_world s') !! uc_filename config <> fi_files (hp_world s) !! uc_filename config \/ r = inr tt ->
   exists binary program tr, hp_trace s' = hp_trace s ++ tr /\ downloaded config binary tr /\
     program_of (uc_binary_url config) binary = Some program /\
     (r = inr tt -> fi_files (hp_world s') !! uc_filename config = Some program)).
Proof.
  intros Htmp. unfold upgrade. unfold mbind at 1, M_bind at 1. unfold on_files at 1.
  destruct (mkstemp (hp_world s)) as [[e|tmp] w] eqn:Em.
  { intros [= <- <-]. apply Hmkstemp_fails in Em. simpl. rewrite Em. split; [done|]. intros [?|?]; done. }
  specialize (Htmp _ _ eq_refl). apply Hmkstemp in Em as [Hnew Hw]. unfold mbind at 1, M_bind at 1. rewrite attempt_eq.
  destruct ((binary ← _get (uc_binary_url config); _) (hp_set_world w s)) as [r1 s2] eqn:Eb. simpl fst. simpl snd.
  unfold mbind, M_bind, remove_quietly, modify. destruct (fi_remove tmp (hp_world s2)) as [rr w2] eqn:Erm. simpl snd.
  intros H. assert (r = r1 /\ s' = hp_set_world w2 s2) as [-> ->] by (destruct r1 as [|[]]; injection H as <- <-; done). clear H. simpl.
  assert (forall q, q <> tmp -> fi_files w2 !! q = fi_files (hp_world s2) !! q) as Frm by (intros q Hq; by eapply remove_other).
  assert (forall q, q <> tmp -> fi_files w !! q = fi_files (hp_world s) !! q) as Fnew by (intros q Hq; rewrite Hw; by rewrite lookup_insert_ne).
  apply body_spec in Eb as [F1 F2]; [|done]. simpl in F1, F2. split.
  - intros q Hq Hn. assert (q <> tmp) by (intros ->; done). rewrite Frm, F1, Fnew; done.
  - intros Hch. rewrite Frm by done. destruct F2 as [[F2 Hr]|H]; [|exact H].
    destruct Hch as [Hch|Hch]; [|done]. destruct Hch. rewrite Frm, F2, Fnew; done.
Qed.
End verified.

End upgrade.

(** ** The swap *)

Inductive apply_error : Type :=
| ApplyOS (text : pystr)
| RollbackError (original rollback : pystr).

Definition rollback_error (err : option apply_error) : option pystr :=
  match err with Some (RollbackError _ rollback) => Some rollback | _ => None end.

Section apply.
Context {W : Type} `{!Files W}.
Abbreviation AM A := (M W apply_error A).

Definition fs {A} (f : method W pystr A) : AM A :=
  fun w => let '(r, w') := f w in (match r with inl t => inl (ApplyOS t) | inr a => inr a end, w').

Definition new_path (target_path : pystr) : pystr := path_join2 (dirname target_path) (u"." ++ basename target_path ++ u".new").
Definition old_path (target_path : pystr) : pystr := path_join2 (dirname target_path) (u"." ++ basename target_path ++ u".old").

Definition _prepare_and_check_binary (target_path source_path : pystr) : AM unit :=
  bytes ← fs (fi_read source_path);
  _ ← fs (fi_write (new_path target_path) bytes);
  fs (fi_chmod (new_path target_path) 493).

Definition error_of (e : apply_error) : pystr := match e with ApplyOS t => t | RollbackError t _ => t end.

(** [_hide_file] leaves the files alone *)
Definition _commit_binary (target_path : pystr) : AM unit :=
  let old := old_path target_path in
  _ ← attempt (fs (fi_remove old));
  _ ← fs (fi_replace target_path old);
  _ ← catch (fs (fi_replace (new_path target_path) target_path))
        (fun err => _ ← catch (fs (fi_replace old target_path))
                          (fun rerr => raise (RollbackError (error_of err) (error_of rerr)) : AM unit);
                    raise err : AM unit);
  _ ← attempt (fs (fi_remove old));
  mret tt.

Definition apply (target_path source_path : pystr) : AM unit :=
  _ ← _prepare_and_check_binary target_path source_path;
  _commit_binary target_path.

(** ** The swap leaves a program *)
Section swap.
Context `{!FilesLaws W}.

Lemma prepare_spec target source w r w' : new_path target <> source ->
  _prepare_and_check_binary target source w = (r, w') ->
  (forall q, q <> new_path target -> fi_files w' !! q = fi_files w !! q) /\
  match r with
  | inr _ => exists bytes, fi_files w !! source = Some bytes /\ fi_files w' !! new_path target = Some bytes
  | inl (ApplyOS _) => True
  | inl (RollbackError _ _) => False
  end.
Proof.
  intros Hs. unfold _prepare_and_check_binary, mbind, M_bind. unfold fs at 1.
  destruct (fi_read source w) as [[e|bytes] w1] eqn:E1; [intros [= <- <-]; apply read_files in E1; by rewrite E1|].
  pose proof (read_found _ _ _ _ E1) as Hb. apply read_files in E1. unfold fs at 1.
  destruct (fi_write (new_path target) bytes w1) as [[e|[]] w2] eqn:E2.
  { intros [= <- <-]. split; [|done]. intros q Hq. rewrite <-E1. by eapply write_other. }
  assert (forall q, q <> new_path target -> fi_files w2 !! q = fi_files w !! q) as Hq by (intros q Hq; rewrite <-E1; by eapply write_other).
  apply write_files in E2. unfold fs. pose proof (fl_chmod (new_path target) 493 w2) as E3.
  destruct (fi_chmod _ _ w2) as [[e|[]] w3]; simpl in E3; intros [= <- <-]; rewrite E3; (split; [done|]); [done|].
  exists bytes. split; [done|]. rewrite E2. apply lookup_insert_eq.
Qed.

Lemma attempt_remove p w : exists w', attempt (fs (fi_remove p)) w = (inr (fs (fi_remove p) w).1, w') /\
  forall q, q <> p -> fi_files w' !! q = fi_files w !! q.
Proof.
  rewrite attempt_eq. eexists. split; [done|]. intros q Hq. unfold fs. destruct (fi_remove p w) as [r w1] eqn:E0. simpl.
  by eapply remove_other.
Qed.

Lemma replace_spec a b w r w' : fs (fi_replace a b) w = (r, w') ->
  match r with
  | inr _ => exists bs, fi_files w !! a = Some bs /\ fi_files w' = <[b := bs]> (delete a (fi_files w))
  | inl e => (exists t, e = ApplyOS t) /\ fi_files w' = fi_files w
  end.
Proof.
  unfold fs. pose proof (fl_replace a b w) as L. destruct (fi_replace a b w) as [[t|[]] w1]; intros [= <- <-]; [|done].
  split; [by exists t|done].
Qed.

Definition others_kept (target : pystr) (w w' : W) : Prop :=
  forall q, q <> target -> q <> new_path target -> q <> old_path target -> fi_files w' !! q = fi_files w !! q.

Lemma commit_spec target w r w' program new : NoDup [target; new_path target; old_path target] ->
  fi_files w !! target = Some program -> fi_files w !! new_path target = Some new ->
  _commit_binary target w = (r, w') ->
  others_kept target w w' /\
  match r with
  | inr _ => fi_files w' !! target = Some new
  | inl (ApplyOS _) => fi_files w' !! target = Some program
  | inl (RollbackError _ _) => fi_files w' !! target = None /\ fi_files w' !! old_path target = Some program
  end.
Proof.
  intros Hd Ht Hn. assert (target <> new_path target /\ target <> old_path target /\ new_path target <> old_path target) as (D1 & D2 & D3).
  { rewrite !NoDup_cons, !not_elem_of_cons in Hd. tauto. }
  unfold _commit_binary, mbind, M_bind. destruct (attempt_remove (old_path target) w) as (w1 & -> & F1).
  destruct (fs (fi_replace target (old_path target)) w1) as [[e|[]] w2] eqn:E2; apply replace_spec in E2.
  { destruct E2 as [[t ->] F2]. intros [= <- <-]. rewrite F2, F1 by done. split; [|done]. intros q _ _ Hq. by rewrite F2, F1. }
  destruct E2 as (bs & Hbs & F2). rewrite F1, Ht in Hbs by done. injection Hbs as <-. unfold catch at 1.
  destruct (fs (fi_replace (new_path target) target) w2) as [[e|[]] w3] eqn:E3; apply replace_spec in E3.
  - destruct E3 as [[t ->] F3]. unfold catch.
    destruct (fs (fi_replace (old_path target) target) w3) as [[e|[]] w4] eqn:E4; apply replace_spec in E4.
    + destruct E4 as [[t' ->] F4]. intros [= <- <-]. rewrite F4, F3, F2. split.
      * intros q H1 H2 H3. rewrite F4, F3, F2, lookup_insert_ne, lookup_delete_ne by done. by apply F1.
      * rewrite lookup_insert_ne, lookup_delete_eq, lookup_insert_eq by done. done.
    + destruct E4 as (bs & Hbs & F4). rewrite F3, F2, lookup_insert_eq in Hbs. injection Hbs as <-. intros [= <- <-].
      rewrite F4, lookup_insert_eq. split; [|done]. intros q H1 H2 H3.
      rewrite F4, F3, F2, lookup_insert_ne, lookup_delete_ne, lookup_insert_ne, lookup_delete_ne by done. by apply F1.
  - destruct E3 as (bs & Hbs & F3). rewrite F2, lookup_insert_ne, lookup_delete_ne, F1, Hn in Hbs by done. injection Hbs as <-.
    destruct (attempt_remove (old_path target) w3) as (w4 & -> & F4). intros [= <- <-].
    rewrite F4, F3, lookup_insert_eq by done. split; [|done]. intros q H1 H2 H3.
    rewrite F4, F3, F2, lookup_insert_ne, lookup_delete_ne, lookup_insert_ne, lookup_delete_ne by done. by apply F1.
Qed.

(** C31: Whatever call fails, an [apply] leaves a program: the new one when it
    returns, the old one when it raises, and when the way back fails as well,
    which it says, the old one under its hidden name; no other file is
    touched. *)
Theorem apply_leaves_program target source w r w' program :
  NoDup [target; new_path target; old_path target] -> new_path target <> source ->
  fi_files w !! target = Some program -> apply target source w = (r, w') ->
  others_kept target w w' /\
  match r with
  | inr _ => exists new, fi_files w !! source = Some new /\ fi_files w' !! target = Some new
  | inl (ApplyOS _) => fi_files w' !! target = Some program
  | inl (RollbackError _ _) => fi_files w' !! target = None /\ fi_files w' !! old_path target = Some program
  end.
Proof.
  intros Hd Hs Ht. assert (target <> new_path target) as D1 by (rewrite !NoDup_cons, !not_elem_of_cons in Hd; tauto).
  unfold apply, mbind, M_bind. destruct (_prepare_and_check_binary target source w) as [r1 w1] eqn:E1.
  apply prepare_spec in E1 as [F1 H1]; [|done].
  destruct r1 as [e|[]]; [intros [= <- <-]; split; [by intros q _ Hq _; apply F1|]; destruct e; [by rewrite F1|done]|].
  destruct H1 as (bytes & Hb & Hn). intros H. apply (commit_spec _ _ _ _ program bytes) in H; [|done|by rewrite F1|done].
  destruct H as [F2 H2]. split; [intros q Q1 Q2 Q3; rewrite F2 by done; by apply F1|]. destruct r as [[]|[]]; [done|done|by exists bytes].
Qed.
End swap.
End apply.

(** ** The theorems on a concrete input *)
Module UpgradeRun.
#[local] Existing Instance Machine.host.
#[local] Existing Instance Machine.host_laws.
#[local] Instance disk : Files Machine.world := Machine.files [].
#[local] Instance disk_laws : FilesLaws Machine.world := Machine.files_laws [].
#[local] Instance net : NetFiles Machine.world exn := Machine.net_files [].

Definition tmp_file : pystr := u"/tmp/eds0".
Definition mkstemp : method Machine.world pystr pystr :=
  fun w => match Machine.wo_disk w !! tmp_file with
           | Some _ => (inl (u"File exists"), w)
           | None => (inr tmp_file, Machine.mk_world (Machine.wo_answers w) (Machine.wo_time w) (<[tmp_file := []]> (Machine.wo_disk w)))
           end.

Lemma mkstemp_new w p w' : mkstemp w = (inr p, w') -> fi_files w !! p = None /\ fi_files w' = <[p := []]> (fi_files w).
Proof. unfold mkstemp. destruct (Machine.wo_disk w !! tmp_file) eqn:E0; [done|]. by intros [= <- <-]. Qed.
Lemma mkstemp_fails w e w' : mkstemp w = (inl e, w') -> fi_files w' = fi_files w.
Proof. unfold mkstemp. destruct (Machine.wo_disk w !! tmp_file); [by intros [= _ <-]|done]. Qed.

(** a scheme whose signature is the text in reverse *)
Definition key_in (k : pystr) : pystr + unit := if str_eqb k (u"KEY") then inr tt else inl (u"no key").
Definition sig_of (b : list Z) : pystr + list Z := inr b.
Definition checks (k : unit) (data sig : list Z) : pystr + bool := inr (bool_decide (sig = rev data)).
Definition no_zip (b : list Z) : pystr + list (pystr * list Z) := inl (u"File is not a zip file").
Definition one_tar (b : list Z) : Archive := mk_archive [(u"README.md", Some []); (u"eds", Some b)] None.

Definition config : UpgradeConfig := mk_upgrade_config (u"https://x/eds.tar.gz") (u"https://x/eds.tar.gz.sig") (u"/bin/eds") (u"KEY").
Definition file (b : list Z) : exn + Response := inr (mk_response 200 [] b None []).
Definition before (signature : list Z) : Http Machine.world exn :=
  Machine.start [file (u"abc"); file signature] {[u"/bin/eds" := u"old"]}.
Definition upgraded (signature : list Z) : (api_error + unit) * Http Machine.world exn :=
  upgrade 3 mkstemp key_in sig_of checks no_zip one_tar config (before signature).

Lemma only_verified_installed_witness :
  fi_files (hp_world (upgraded (u"cba")).2) !! (u"/bin/eds") = Some (u"abc") /\
  (forall p w', mkstemp (hp_world (before (u"cba"))) = (inr p, w') -> p <> uc_filename config) /\
  (forall q, q <> uc_filename config -> fi_files (hp_world (before (u"cba"))) !! q <> None ->
     fi_files (hp_world (upgraded (u"cba")).2) !! q = fi_files (hp_world (before (u"cba"))) !! q) /\
  (fi_files (hp_world (upgraded (u"cba")).2) !! uc_filename config <> fi_files (hp_world (before (u"cba"))) !! uc_filename config \/
     @inr api_error unit tt = inr tt ->
   exists binary program tr, hp_trace (upgraded (u"cba")).2 = hp_trace (before (u"cba")) ++ tr /\
     downloaded key_in sig_of checks config binary tr /\
     program_of no_zip one_tar (uc_binary_url config) binary = Some program /\
     (@inr api_error unit tt = inr tt -> fi_files (hp_world (upgraded (u"cba")).2) !! uc_filename config = Some program)).
Proof.
  assert (forall p w', mkstemp (hp_world (before (u"cba"))) = (inr p, w') -> p <> uc_filename config) as Htmp.
  { intros p w'. vm_compute. intros [= <- _]. done. }
  assert (upgraded (u"cba") = (inr tt, (upgraded (u"cba")).2)) as H by (vm_compute; reflexivity).
  split; [vm_compute; reflexivity|]. split; [exact Htmp|].
  exact (only_verified_installed 3 mkstemp key_in sig_of checks no_zip one_tar mkstemp_new mkstemp_fails config (before (u"cba")) (inr tt)
    (upgraded (u"cba")).2 Htmp H).
Defined.

(** a signature of something else is refused, and the program stays *)
Example forged : (upgraded (u"xyz")).1 = inl (Raised (RuntimeError (u"error in signature verification: signature does not match"))) /\
  fi_files (hp_world (upgraded (u"xyz")).2) = {[u"/bin/eds" := u"old"]}.
Proof. split; vm_compute; reflexivity. Qed.

Definition staged : Machine.world := Machine.mk_world [] 0 {[u"/bin/eds" := u"old"; u"/tmp/eds" := u"new"]}.
Definition applied : (apply_error + unit) * Machine.world := apply (u"/bin/eds") (u"/tmp/eds") staged.

Lemma apply_leaves_program_witness :
  NoDup [u"/bin/eds"; new_path (u"/bin/eds"); old_path (u"/bin/eds")] /\ new_path (u"/bin/eds") <> u"/tmp/eds" /\
  fi_files staged !! (u"/bin/eds") = Some (u"old") /\
  others_kept (u"/bin/eds") staged applied.2 /\
  exists new, fi_files staged !! (u"/tmp/eds") = Some new /\ fi_files applied.2 !! (u"/bin/eds") = Some new.
Proof.
  assert (NoDup [u"/bin/eds"; new_path (u"/bin/eds"); old_path (u"/bin/eds")]) as H1 by (apply (bool_decide_eq_true_1 _); vm_compute; reflexivity).
  assert (new_path (u"/bin/eds") <> u"/tmp/eds") as H2 by (apply (bool_decide_eq_true_1 _); vm_compute; reflexivity).
  assert (fi_files staged !! (u"/bin/eds") = Some (u"old")) as H3 by (vm_compute; reflexivity).
  assert (apply (u"/bin/eds") (u"/tmp/eds") staged = (inr tt, applied.2)) as H4 by (vm_compute; reflexivity).
  split; [exact H1|]. split; [exact H2|]. split; [exact H3|].
  exact (apply_leaves_program (u"/bin/eds") (u"/tmp/eds") staged (inr tt) applied.2 (u"old") H1 H2 H3 H4).
Defined.
End UpgradeRun.
