(* ===== verification/TableExport.v ===== *)
(** * The record of export times: eds/cmd/import_client.py, eds/cmd/fork.py

    A finished import writes the time of each table's export under a key of the
    tracker, as JSON with RFC 3339 times; the worker reads it back as the cutoff
    of each table, a later import of the same files as its list of tables.

    Moments are microseconds since 1970 in UTC.  The theorem: both readers get
    what the import wrote. *)
From stdpp Require Import base tactics list option numbers sets strings gmap.
From S2P Require Import Prelude PyStr PyDict PyFloat GoJson JsonLoads JsonRoundtrip RfcTime CrdbFile ImportClient Tracker.

Definition TRACKER_TABLE_EXPORT_KEY : pystr := u"table-export".

(** ** Dates of ordinals *)

(** the month and the day of a day of the year, counted from 0 *)
Definition month_of (leap : bool) (n : Z) : Z * Z :=
  let month := Z.shiftr (n + 50) 5 in
  let preceding m := nth (Z.to_nat (m - 1)) [0; 31; 59; 90; 120; 151; 181; 212; 243; 273; 304; 334] 0
                     + (if (2 <? m) && leap then 1 else 0) in
  let month := if n <? preceding month then month - 1 else month in
  (month, n - preceding month + 1).

(** [date.fromordinal] *)
Definition ord2ymd (ordinal : Z) : Z * Z * Z :=
  let n := ordinal - 1 in
  let n400 := n / 146097 in let n := n mod 146097 in
  let n100 := n / 36524 in let n := n mod 36524 in
  let n4 := n / 1461 in let n := n mod 1461 in
  let n1 := n / 365 in let n := n mod 365 in
  let year := n400 * 400 + 1 + n100 * 100 + n4 * 4 + n1 in
  if (n1 =? 4) || (n100 =? 4) then (year - 1, 12, 31)
  else
    let '(month, day) := month_of ((n1 =? 3) && (negb (n4 =? 24) || (n100 =? 3))) n in
    (year, month, day).

(** [_EPOCH + timedelta(microseconds=us)] *)
Definition datetime_of (us : Z) : datetime :=
  let seconds := us / 1000000 in
  let r := seconds mod 86400 in
  let '(y, m, d) := ord2ymd (seconds / 86400 + 719163) in
  mk_dt y m d (r / 3600) (r / 60 mod 60) (r mod 60) (us mod 1000000).

Definition micros_of (t : datetime) : Z := unix_seconds t * 1000000 + dt_micro t.

(** ** RFC 3339 *)

(** [strftime]'s year is not padded; the others have two digits *)
Definition _rfc3339 (us : Z) : pystr :=
  let dt := datetime_of us in
  let s := str_of_nonneg (dt_year dt) ++ u"-" ++ pad 2 (dt_month dt) ++ u"-" ++ pad 2 (dt_day dt) ++ u"T"
           ++ pad 2 (dt_hour dt) ++ u":" ++ pad 2 (dt_minute dt) ++ u":" ++ pad 2 (dt_second dt) in
  (if dt_micro dt =? 0 then s else s ++ rstrip_char 48 (u"." ++ pad 6 (dt_micro dt))) ++ u"Z".

(** the last group of the expression: it may be followed by one newline *)
Definition to_end (s : pystr) : option pystr :=
  if negb (char_in 10 s) then Some s
  else match rsplit_char 10 s with
       | Some (a, []) => if char_in 10 a then None else Some a
       | _ => None
       end.

(** [_FRAC_RE.match]: the text before the dot, which is as long as it can be,
    the digits, and what follows *)
Fixpoint frac_match (s : pystr) : option (pystr * pystr * pystr) :=
  match s with
  | [] => None
  | c :: r =>
      match (if c =? 10 then None else frac_match r) with
      | Some (head, digits, rest) => Some (c :: head, digits, rest)
      | None =>
          rest ← match_template (u"Tdd:dd:dd.") s;
          let '(digits, rest) := span_digits rest in
          match digits with
          | [] => None
          | _ => rest ← to_end rest; Some (take 9 s, digits, rest)
          end
      end
  end.

(** a datetime with a timezone, as its moment, or one without *)
Inductive moment : Type := Aware (us : Z) | Naive (t : datetime).

Definition with_micro (micro : Z) (t : datetime) : datetime :=
  mk_dt (dt_year t) (dt_month t) (dt_day t) (dt_hour t) (dt_minute t) (dt_second t) micro.

(** the offset in minutes; the inner [None] is none *)
Definition iso_offset (s : pystr) : option (option Z) :=
  match s with
  | [] => Some None
  | sign :: r =>
      rest ← match_template (u"dd:dd") r;
      let h := num_at 0 2 r in
      let m := num_at 3 2 r in
      if str_eqb rest [] && ((sign =? 43) || (sign =? 45)) && (h <=? 23) && (m <=? 59)
      then Some (Some (if sign =? 43 then h * 60 + m else - (h * 60 + m))) else None
  end.

Definition iso_fraction (s : pystr) : option (Z * pystr) :=
  match s with
  | 46 :: r => rest ← match_template (u"dddddd") r; Some (num_at 0 6 r, rest)
  | _ => Some (0, s)
  end.

(** a date and a time of the calendar, six digits of a fraction or none, and an
    offset or none: what [datetime.fromisoformat] reads in every version *)
Definition iso_datetime (s : pystr) : option moment :=
  t ← strptime (take 19 s);
  '(micro, r) ← iso_fraction (drop 19 s);
  offset ← iso_offset r;
  let t := with_micro micro t in
  Some (match offset with Some o => Aware (micros_of t - o * 60000000) | None => Naive t end).

Section reading.
(** what [fromisoformat] makes of other texts, which depends on the version of
    the interpreter; [None] is the ValueError *)
Context (other_iso : pystr -> option moment).
(** the moment of a datetime without a timezone, in the local zone *)
Context (local_time : datetime -> Z).

Definition fromisoformat (s : pystr) : option moment :=
  match iso_datetime s with Some m => Some m | None => other_iso s end.

Definition parse_rfc3339 (s : pystr) : option moment :=
  let s := replace_char 90 (u"+00:00") s in
  let s := match frac_match s with
           | Some (head, digits, rest) => head ++ u"." ++ take 6 (digits ++ u"000000") ++ rest
           | None => s
           end in
  fromisoformat s.

(** ** The record *)

(** [TableExportInfo.__gojson__] *)
Definition info_gojson (i : TableExportInfo) : pystr :=
  u"{" ++ dq ++ u"Table" ++ dq ++ u":" ++ _encode_string (ti_table i) ++ u"," ++ dq ++ u"Timestamp" ++ dq ++ u":"
  ++ _encode_string (_rfc3339 (ti_timestamp i)) ++ u"}".

Definition marshal_table_export_info (infos : list TableExportInfo) : pystr :=
  u"[" ++ join (u",") (info_gojson <$> infos) ++ u"]".

(** an exception of a reader, or a value no import writes: a name or a time that
    is not a string *)
Inductive load_error : Type := LoadRaises | LoadOutside.

(** [for item in json.loads(val)] *)
Definition items_of (val : pystr) : load_error + list pyobj :=
  match json_loads opts_default val with
  | Some (PList l) => inr l
  | Some (PStr []) | Some (PDict []) => inr []
  | _ => inl LoadRaises
  end.

(** [item.get("Table", "")] and [item.get("Timestamp")], if that is true *)
Definition item_fields (item : pyobj) : load_error + (pystr * option pystr) :=
  match item with
  | PDict d =>
      let ts := default PNone (dict_get (u"Timestamp") d) in
      match default (PStr []) (dict_get (u"Table") d), ts with
      | PStr table, PStr [] => inr (table, None)
      | PStr table, PStr ts => inr (table, Some ts)
      | PStr table, _ => if truthy ts then inl LoadOutside else inr (table, None)
      | _, _ => inl LoadOutside
      end
  | _ => inl LoadRaises
  end.

Definition load_item (item : pyobj) : load_error + TableExportInfo :=
  match item_fields item with
  | inl e => inl e
  | inr (table, None) => inr (mk_info table 0)
  | inr (table, Some ts) =>
      match parse_rfc3339 ts with
      | Some (Aware us) => inr (mk_info table us)
      | Some (Naive t) => inr (mk_info table (local_time t))
      | None => inl LoadRaises
      end
  end.

Fixpoint load_items {A} (f : pyobj -> load_error + A) (items : list pyobj) : load_error + list A :=
  match items with
  | [] => inr []
  | item :: items' =>
      match f item with
      | inl e => inl e
      | inr a => match load_items f items' with inl e => inl e | inr l => inr (a :: l) end
      end
  end.

(** the tracker forgets an expired key as it is read *)
Definition load_table_export_info (now : Z) (t : Tracker) : (load_error + option (list TableExportInfo)) * Tracker :=
  let '((found, val), t') := get_key now TRACKER_TABLE_EXPORT_KEY t in
  (if negb found then inr None
   else match items_of val with
        | inl e => inl e
        | inr items => match load_items load_item items with inl e => inl e | inr l => inr (Some l) end
        end, t').

(** the cutoff of a table as the worker reads it; a time it cannot read is none *)
Definition cutoff_item (item : pyobj) : load_error + (pystr * option Z) :=
  match item_fields item with
  | inl e => inl e
  | inr (table, None) => inr (table, None)
  | inr (table, Some ts) =>
      match parse_rfc3339 ts with
      | Some (Aware us) => inr (table, Some us)
      | Some (Naive _) => inl LoadOutside
      | None => inr (table, None)
      end
  end.

(** [_load_table_export_info] of the worker *)
Definition _load_table_export_info (now : Z) (t : Tracker) : (load_error + option (pydict (option Z))) * Tracker :=
  let '((found, val), t') := get_key now TRACKER_TABLE_EXPORT_KEY t in
  (if negb found then inr None
   else match items_of val with
        | inl e => inl e
        | inr items =>
            match load_items cutoff_item items with
            | inl e => inl e
            | inr l => inr (Some (foldl (fun out '(table, cutoff) => dict_set table cutoff out) [] l))
            end
        end, t').
End reading.

(** ** The calendar *)

(** a date of the calendar *)
Definition date_ok (y m d : Z) : bool := (1 <=? m) && (m <=? 12) && (1 <=? d) && (d <=? days_in_month y m).

(** the months of a common year and of a leap year, day by day *)
Definition month_ok (leap : bool) (n : Z) : bool :=
  let y := if leap then 4 else 1 in
  let '(m, d) := month_of leap n in date_ok y m d && (days_before_month y m + d - 1 =? n).

Lemma month_of_ok y n : 0 <= n < (if is_leap y then 366 else 365) ->
  let '(m, d) := month_of (is_leap y) n in date_ok y m d = true /\ days_before_month y m + d - 1 = n.
Proof.
  intros Hn.
  assert (Forall (fun n => month_ok true n = true) (seqZ 0 366) /\ Forall (fun n => month_ok false n = true) (seqZ 0 365)) as [Ht Hf].
  { split; apply forallb_Forall; by vm_compute. }
  rewrite !Forall_forall in Ht, Hf.
  assert (month_ok (is_leap y) n = true) as H.
  { destruct (is_leap y); [apply Ht|apply Hf]; apply elem_of_seqZ; lia. }
  unfold month_ok in H. destruct (month_of (is_leap y) n) as [m d]. bool_prop.
  assert (is_leap (if is_leap y then 4 else 1) = is_leap y) as E by (by destruct (is_leap y)).
  unfold date_ok, days_before_month, days_in_month in *. rewrite E in *. by split.
Qed.

(** the year of an ordinal *)
Lemma year_digits a b c d : 0 <= b <= 3 -> 0 <= c <= 24 -> 0 <= d <= 3 ->
  let y := a * 400 + 1 + b * 100 + c * 4 + d in
  days_before_year y = a * 146097 + b * 36524 + c * 1461 + d * 365 /\
  is_leap y = (d =? 3) && (negb (c =? 24) || (b =? 3)).
Proof.
  intros Hb Hc Hd y. subst y. unfold days_before_year, is_leap.
  replace (a * 400 + 1 + b * 100 + c * 4 + d - 1) with (a * 400 + b * 100 + c * 4 + d) by lia.
  assert ((a * 400 + b * 100 + c * 4 + d) / 4 = a * 100 + b * 25 + c) as -> by (symmetry; apply (Z.div_unique _ _ _ d); lia).
  assert ((a * 400 + b * 100 + c * 4 + d) / 100 = a * 4 + b) as -> by (symmetry; apply (Z.div_unique _ _ _ (c * 4 + d)); lia).
  assert ((a * 400 + b * 100 + c * 4 + d) / 400 = a) as -> by (symmetry; apply (Z.div_unique _ _ _ (b * 100 + c * 4 + d)); lia).
  split; [lia|].
  assert ((a * 400 + 1 + b * 100 + c * 4 + d) mod 4 = (d + 1) mod 4) as ->.
  { replace (a * 400 + 1 + b * 100 + c * 4 + d) with (d + 1 + (a * 100 + b * 25 + c) * 4) by lia. apply Z.mod_add. lia. }
  assert ((a * 400 + 1 + b * 100 + c * 4 + d) mod 100 = (c * 4 + d + 1) mod 100) as ->.
  { replace (a * 400 + 1 + b * 100 + c * 4 + d) with (c * 4 + d + 1 + (a * 4 + b) * 100) by lia. apply Z.mod_add. lia. }
  assert ((a * 400 + 1 + b * 100 + c * 4 + d) mod 400 = (b * 100 + c * 4 + d + 1) mod 400) as ->.
  { replace (a * 400 + 1 + b * 100 + c * 4 + d) with (b * 100 + c * 4 + d + 1 + a * 400) by lia. apply Z.mod_add. lia. }
  assert (forall m x, 1 <= x <= m -> (x mod m =? 0) = (x =? m)) as Hmod.
  { intros m x Hx. destruct (Z.eqb_spec x m) as [->|]; [by rewrite Z.mod_same by lia|]. rewrite Z.mod_small by lia. apply Z.eqb_neq. lia. }
  rewrite !Hmod by lia.
  destruct (Z.eqb_spec (d + 1) 4), (Z.eqb_spec (c * 4 + d + 1) 100), (Z.eqb_spec (b * 100 + c * 4 + d + 1) 400),
    (Z.eqb_spec d 3), (Z.eqb_spec c 24), (Z.eqb_spec b 3); done || lia.
Qed.

Lemma ord2ymd_ok n : let '(y, m, d) := ord2ymd n in
  date_ok y m d = true /\ days_before_year y + days_before_month y m + d = n.
Proof.
  unfold ord2ymd.
  set (a := (n - 1) / 146097). set (r := (n - 1) mod 146097). set (b := r / 36524). set (r1 := r mod 36524).
  set (c := r1 / 1461). set (r2 := r1 mod 1461). set (d := r2 / 365). set (r3 := r2 mod 365).
  assert (n - 1 = a * 146097 + b * 36524 + c * 1461 + d * 365 + r3 /\ 0 <= r < 146097 /\ 0 <= r1 < 36524 /\ 0 <= r2 < 1461 /\ 0 <= r3 < 365)
    as (En & Hr & Hr1 & Hr2 & Hr3) by (subst a b c d r r1 r2 r3; Z.div_mod_to_equations; lia).
  assert (r = b * 36524 + r1 /\ r1 = c * 1461 + r2 /\ r2 = d * 365 + r3) as (Er & Er1 & Er2)
    by (subst b c d r1 r2 r3; Z.div_mod_to_equations; lia).
  clearbody a b c d r r1 r2 r3. assert (0 <= b <= 4 /\ 0 <= c <= 24 /\ 0 <= d <= 4) as (Hb & Hc & Hd) by lia.
  destruct (Z.eqb_spec d 4) as [->|Hd4]; [|destruct (Z.eqb_spec b 4) as [->|Hb4]]; cbn [orb].
  - assert (b <= 3) by lia. destruct (year_digits a b c 3) as [E Hl]; [lia..|].
    replace (a * 400 + 1 + b * 100 + c * 4 + 4 - 1) with (a * 400 + 1 + b * 100 + c * 4 + 3) by lia.
    assert (negb (c =? 24) || (b =? 3) = true) as Hleap by (destruct (Z.eqb_spec c 24), (Z.eqb_spec b 3); try done; lia).
    rewrite Hleap in Hl. unfold date_ok, days_in_month, days_before_month. rewrite Hl, E. simpl. split; [done|lia].
  - assert (c = 0 /\ d = 0) as [-> ->] by lia. destruct (year_digits a 3 24 3) as [E Hl]; [lia..|].
    replace (a * 400 + 1 + 4 * 100 + 0 * 4 + 0 - 1) with (a * 400 + 1 + 3 * 100 + 24 * 4 + 3) by lia.
    unfold date_ok, days_in_month, days_before_month. rewrite Hl, E. simpl. split; [done|lia].
  - destruct (year_digits a b c d) as [E Hl]; [lia..|]. rewrite <- Hl.
    pose proof (month_of_ok (a * 400 + 1 + b * 100 + c * 4 + d) r3) as Hm.
    destruct (month_of _ r3) as [m dd]. destruct Hm as [Hm1 Hm2]; [destruct (is_leap _); lia|]. split; [done|lia].
Qed.

Lemma datetime_of_spec us : let t := datetime_of us in
  unix_seconds t = us / 1000000 /\ dt_micro t = us mod 1000000 /\ date_ok (dt_year t) (dt_month t) (dt_day t) = true /\
  0 <= dt_hour t <= 23 /\ 0 <= dt_minute t <= 59 /\ 0 <= dt_second t <= 59.
Proof.
  intros t. subst t. unfold datetime_of. pose proof (ord2ymd_ok (us / 1000000 / 86400 + 719163)) as H.
  destruct (ord2ymd _) as [[y m] d]. destruct H as [Hd Ho]. unfold unix_seconds, toordinal.
  cbn [dt_year dt_month dt_day dt_hour dt_minute dt_second dt_micro]. rewrite Ho. generalize (us / 1000000) as s. intros s.
  split_and!; try done; Z.div_mod_to_equations; lia.
Qed.

Lemma micros_datetime us : micros_of (datetime_of us) = us.
Proof. destruct (datetime_of_spec us) as (E & Em & _). unfold micros_of. rewrite E, Em. Z.div_mod_to_equations; lia. Qed.

(** ** Reading a time back *)

Lemma pad_val n x : 0 <= x < 10 ^ Z.of_nat n -> digits n (pad n x) /\ digits_val (pad n x) = x.
Proof.
  intros Hx. unfold digits. split; [split; [|apply pad_is_digits]|]; revert x Hx.
  - induction n as [|n IH]; intros x Hx; [done|]. rewrite Nat2Z.inj_succ, Z.pow_succ_r in Hx by lia.
    simpl. rewrite length_app, IH; [simpl; lia|]. Z.div_mod_to_equations; lia.
  - induction n as [|n IH]; intros x Hx; [simpl in *; unfold digits_val; simpl; lia|].
    rewrite Nat2Z.inj_succ, Z.pow_succ_r in Hx by lia. cbn [pad]. rewrite digits_val_app, IH by (Z.div_mod_to_equations; lia).
    change (length [48 + x mod 10]) with 1%nat. unfold digits_val. simpl. Z.div_mod_to_equations; lia.
Qed.

Lemma rstrip_zeros_split x : exists k, x = rstrip_char 48 x ++ replicate k 48.
Proof.
  enough (forall l, exists k, rev l = rev (drop_char 48 l) ++ replicate k 48) as H.
  { destruct (H (rev x)) as [k E]. exists k. by rewrite rev_involutive in E. }
  induction l as [|c l [k IH]]; [by exists 0%nat|]. cbn [rev drop_char]. destruct (Z.eqb_spec c 48) as [->|].
  - exists (S k). rewrite IH at 1. by rewrite <- app_assoc, <- replicate_cons_app.
  - exists 0%nat. by rewrite app_nil_r.
Qed.

Lemma rstrip_behind c d x : c <> d -> rstrip_char c (d :: x) = d :: rstrip_char c x.
Proof.
  intros Hne. unfold rstrip_char. simpl. enough (forall l, drop_char c (l ++ [d]) = drop_char c l ++ [d]) as ->.
  { by rewrite rev_app_distr. }
  induction l as [|e l IH]; simpl; [by destruct (Z.eqb_spec d c)|]. by destruct (e =? c).
Qed.

(** the fraction [strip] and the padding of the reader cancel *)
Lemma refill x : length x = 6%nat -> take 6 (rstrip_char 48 x ++ u"000000") = x.
Proof.
  intros Hl. destruct (rstrip_zeros_split x) as [k E]. rewrite E in Hl. rewrite length_app, length_replicate in Hl.
  rewrite E at 2. rewrite take_app_ge by lia. f_equal. change (u"000000") with (replicate 6 48).
  rewrite take_replicate. f_equal. lia.
Qed.

Lemma frac_match_no c s : c = 46 \/ c = 84 -> c ∉ s -> frac_match s = None.
Proof.
  intros Hc. induction s as [|x s IH]; intros Hn; [done|]. simpl. rewrite IH by set_solver.
  replace (if x =? 10 then None else None) with (@None (pystr * pystr * pystr)) by (by destruct (x =? 10)).
  enough (match_template (u"Tdd:dd:dd.") (x :: s) = None) as E by (simpl in E; by rewrite E).
  enough (forall t s r, c ∈ t -> c <> 100 -> match_template t s = Some r -> c ∈ s) as H.
  { destruct (match_template _ _) as [r|] eqn:E; [|done]. destruct Hn. eapply H; [| |exact E]; [|destruct Hc as [-> | ->]; done].
    destruct Hc as [-> | ->]; apply (bool_decide_eq_true_1 _); by vm_compute. }
  clear. induction t as [|y t IH]; intros s r Hin Hne; [by inversion Hin|]. destruct s as [|x s]; [done|]. simpl.
  destruct (y =? 100) eqn:Ey.
  - destruct (is_digit x); [|done]. apply Z.eqb_eq in Ey. intros H. right. apply elem_of_cons in Hin as [->|Hin]; [done|]. by eapply IH.
  - destruct (Z.eqb_spec x y) as [->|]; [|done]. intros H. apply elem_of_cons in Hin as [->|Hin]; [left|right; by eapply IH].
Qed.

Lemma frac_match_behind p s head ds rest : 10 ∉ p ->
  frac_match s = Some (head, ds, rest) -> frac_match (p ++ s) = Some (p ++ head, ds, rest).
Proof.
  intros Hp H. induction p as [|c p IH]; [done|]. apply not_elem_of_cons in Hp as [Hc Hp]. simpl.
  rewrite (proj2 (Z.eqb_neq c 10)) by done. by rewrite IH.
Qed.

Lemma digits_notin n ds c : is_digit c = false -> digits n ds -> c ∉ ds.
Proof. intros Hc [_ H] Hin. rewrite Forall_forall in H. specialize (H c Hin). congruence. Qed.

Section text.
Context (y mo d h mi s : pystr).
Context (Hy : digits 4 y) (Hmo : digits 2 mo) (Hd : digits 2 d) (Hh : digits 2 h) (Hmi : digits 2 mi) (Hs : digits 2 s).

Let clock : pystr := u"T" ++ ts_time h mi s.
Let base : pystr := ts_date y mo d ++ clock.

Lemma text_notin c : is_digit c = false -> c ∉ u"-T:" -> c ∉ base.
Proof.
  intros Hc Hn. unfold base, clock, ts_date, ts_time. change (u"-T:") with [45; 84; 58] in Hn.
  change (u"-") with [45]. change (u"T") with [84]. change (u":") with [58].
  rewrite !not_elem_of_app, !not_elem_of_cons. rewrite !not_elem_of_cons in Hn. destruct Hn as (? & ? & ? & ?).
  split_and!; try done; by eapply digits_notin.
Qed.

Lemma clock_length : length clock = 9%nat.
Proof.
  unfold clock, ts_time. rewrite !length_app. destruct Hh as [-> _], Hmi as [-> _], Hs as [-> _]. done.
Qed.

Lemma base_length : length base = 19%nat.
Proof.
  unfold base, ts_date. rewrite !length_app, clock_length. destruct Hy as [-> _], Hmo as [-> _], Hd as [-> _]. done.
Qed.

Lemma clock_template rest : match_template (u"Tdd:dd:dd.") (clock ++ 46 :: rest) = Some rest.
Proof.
  destruct (digits2 h Hh) as (? & ? & Eh & ? & ?). destruct (digits2 mi Hmi) as (? & ? & Emi & ? & ?).
  destruct (digits2 s Hs) as (? & ? & Es & ? & ?). unfold clock, ts_time. rewrite Eh, Emi, Es.
  change (u"Tdd:dd:dd.") with [84;100;100;58;100;100;58;100;100;46]. change (u"T") with [84]. change (u":") with [58].
  cbn [app match_template]. cbn [Z.eqb Pos.eqb].
  repeat match goal with H : is_digit _ = true |- _ => rewrite H; clear H end. done.
Qed.

(** the dot of the fraction is found *)
Lemma frac_match_text ds rest : ds <> [] -> Forall (fun c => is_digit c = true) ds ->
  match rest with [] => True | c :: _ => is_digit c = false end -> 84 ∉ rest -> 10 ∉ rest ->
  frac_match (base ++ 46 :: ds ++ rest) = Some (base, ds, rest).
Proof.
  intros Hne Hds Hr HT Hnl. unfold base. rewrite <- app_assoc. apply frac_match_behind.
  { assert (10 ∉ u"-T:") as Hn by (apply (bool_decide_eq_true_1 _); by vm_compute).
    pose proof (text_notin 10 eq_refl Hn) as H. unfold base in H. by apply not_elem_of_app in H as [H _]. }
  pose proof (clock_template (ds ++ rest)) as Ht. pose proof clock_length as Hl.
  assert (forall c, is_digit c = false -> c ∉ ds) as Hdig by (intros c Hc; by eapply digits_notin).
  unfold clock in Ht, Hl |- *. change (u"T") with [84] in Ht, Hl |- *. cbn [app] in Ht, Hl |- *.
  set (r := ts_time h mi s ++ 46 :: ds ++ rest) in *. cbn [frac_match].
  rewrite (frac_match_no 84 r); [|by right|].
  2: { subst r. unfold ts_time. change (u":") with [58]. rewrite !not_elem_of_app, !not_elem_of_cons, !not_elem_of_app.
       split_and!; try done; try (by eapply digits_notin); apply not_elem_of_nil. }
  change (if 84 =? 10 then None else None) with (@None (pystr * pystr * pystr)). cbv iota.
  change (84 :: r) with ([84] ++ r) in *. subst r. cbn [app] in Ht |- *. rewrite Ht. cbn [mbind option_bind].
  rewrite span_digits_app by done. destruct ds as [|x ds]; [done|]. unfold to_end, char_in.
  rewrite (bool_decide_eq_false_2 (10 ∈ rest)) by done. cbn [negb mbind option_bind]. repeat f_equal.
  change (84 :: ts_time h mi s ++ 46 :: (x :: ds) ++ rest) with ((84 :: ts_time h mi s) ++ 46 :: (x :: ds) ++ rest).
  by rewrite take_app_length'.
Qed.

Lemma match_digits n ds rest : digits n ds -> match_template (replicate n 100) (ds ++ rest) = Some rest.
Proof.
  intros [Hl H]. revert n Hl. induction H as [|c ds Hc _ IH]; intros [|n] Hl; try done.
  simpl. rewrite Hc. apply IH. simpl in Hl. lia.
Qed.

(** the zone the reader puts for [Z] *)
Lemma replace_zone a : 90 ∉ a -> replace_char 90 (u"+00:00") (a ++ u"Z") = a ++ u"+00:00".
Proof. intros Ha. unfold replace_char. rewrite flat_map_app. f_equal. by apply replace_char_absent. Qed.

Lemma iso_text frac micro :
  ts_valid y mo d h mi s = true -> 1 <= digits_val y ->
  frac = [] /\ micro = 0 \/ (exists ds, frac = 46 :: ds /\ digits 6 ds /\ digits_val ds = micro) ->
  iso_datetime (base ++ frac ++ u"+00:00") = Some (Aware (micros_of (ts_datetime y mo d h mi s micro))).
Proof.
  intros Hv H1 Hf. unfold iso_datetime. rewrite take_app_length', drop_app_length' by (by rewrite base_length).
  unfold base, clock. rewrite strptime_base, Hv by done. cbn [mbind option_bind].
  assert (iso_fraction (frac ++ u"+00:00") = Some (micro, u"+00:00")) as ->.
  { destruct Hf as [[-> ->]|(ds & -> & Hds & <-)]; [done|]. cbn [app]. unfold iso_fraction.
    change (u"dddddd") with (replicate 6 100). rewrite (match_digits 6 ds (u"+00:00") Hds). cbn [mbind option_bind].
    unfold num_at. destruct Hds as [Hl _]. by rewrite drop_0, <- Hl, take_app_length. }
  transitivity (Some (Aware (micros_of (ts_datetime y mo d h mi s micro) - 0 * 60000000))); [reflexivity|].
  by rewrite Z.mul_0_l, Z.sub_0_r.
Qed.

(** what the writer prints, the reader reads *)
Lemma parse_text other ds : digits 6 ds -> ts_valid y mo d h mi s = true -> 1 <= digits_val y ->
  parse_rfc3339 other ((if digits_val ds =? 0 then base else base ++ rstrip_char 48 (u"." ++ ds)) ++ u"Z") =
  Some (Aware (micros_of (ts_datetime y mo d h mi s (digits_val ds)))).
Proof.
  intros Hds Hv H1.
  assert (forall c, is_digit c = false -> c ∉ u"-T:." -> c ∉ (if digits_val ds =? 0 then base else base ++ rstrip_char 48 (u"." ++ ds))) as Hn.
  { intros c Hc Hn. assert (c ∉ base) by (apply text_notin; [done|]; change (c ∉ [45; 84; 58; 46]) in Hn; change (c ∉ [45; 84; 58]); set_solver).
    destruct (digits_val ds =? 0); [done|]. apply not_elem_of_app. split; [done|]. change (u"." ++ ds) with (46 :: ds).
    rewrite rstrip_behind by done. change (c ∉ [45; 84; 58; 46]) in Hn. apply not_elem_of_cons. split; [set_solver|].
    destruct (rstrip_zeros_split ds) as [k E]. intros Hin. eapply digits_notin; [exact Hc|exact Hds|]. rewrite E. set_solver. }
  unfold parse_rfc3339. rewrite replace_zone by (apply Hn; [done|]; apply (bool_decide_eq_true_1 _); by vm_compute). clear Hn.
  unfold fromisoformat. destruct (Z.eqb_spec (digits_val ds) 0) as [E|E].
  - rewrite (frac_match_no 46); [|by left|].
    2: { apply not_elem_of_app. split; [apply text_notin; [done|]|]; apply (bool_decide_eq_true_1 _); by vm_compute. }
    rewrite E. change (base ++ u"+00:00") with (base ++ [] ++ u"+00:00"). by rewrite (iso_text [] 0) by auto.
  - change (u"." ++ ds) with (46 :: ds). rewrite rstrip_behind by done. rewrite <- app_assoc. cbn [app].
    assert (rstrip_char 48 ds <> []) as Hne by (intros H; apply E; apply digits_val_zero; [apply Hds|done]).
    rewrite frac_match_text; [|done| |done| |].
    + destruct Hds as [Hl Hd']. rewrite refill by done. change (u"." ++ ds ++ u"+00:00") with ((46 :: ds) ++ u"+00:00").
      rewrite (iso_text (46 :: ds) (digits_val ds)); [done..|]. right. by exists ds.
    + destruct Hds as [_ Hd']. destruct (rstrip_zeros_split ds) as [k Ek]. rewrite Ek in Hd'. by apply Forall_app in Hd' as [? _].
    + apply (bool_decide_eq_true_1 _); by vm_compute.
    + apply (bool_decide_eq_true_1 _); by vm_compute.
Qed.
End text.

(** a moment of a year of four digits *)
Definition writable (us : Z) : bool := (1000 <=? dt_year (datetime_of us)) && (dt_year (datetime_of us) <=? 9999).

Lemma year_digits4 y : 1000 <= y <= 9999 -> digits 4 (str_of_nonneg y) /\ digits_val (str_of_nonneg y) = y.
Proof.
  intros Hy. destruct (str_of_nonneg_spec y) as (_ & Hd & Hv & _); [lia|]. split; [|done]. split; [|done].
  assert (Forall (fun y => length (str_of_nonneg y) = 4%nat) (seqZ 1000 9000)) as H.
  { apply (bool_decide_eq_true_1 _). by vm_compute. }
  rewrite Forall_forall in H. apply H, elem_of_seqZ. lia.
Qed.

Lemma rfc3339_reads_back other us : writable us = true -> parse_rfc3339 other (_rfc3339 us) = Some (Aware us).
Proof.
  unfold writable. intros Hw. bool_prop. pose proof (datetime_of_spec us) as (_ & Em & Hok & Hh & Hmi & Hs).
  assert (0 <= dt_micro (datetime_of us) < 1000000) as Hmicro by (rewrite Em; apply Z.mod_pos_bound; lia). clear Em.
  unfold _rfc3339. pose proof (micros_datetime us) as Eus. destruct (datetime_of us) as [y mo d h mi s micro].
  cbn [dt_year dt_month dt_day dt_hour dt_minute dt_second dt_micro] in *. unfold date_ok in Hok. bool_prop.
  assert (days_in_month y mo <= 31) by (unfold days_in_month; repeat case_match; lia).
  destruct (year_digits4 y) as [Dy Vy]; [lia|]. destruct (pad_val 2 mo) as [Dmo Vmo]; [lia|]. destruct (pad_val 2 d) as [Dd Vd]; [lia|].
  destruct (pad_val 2 h) as [Dh Vh]; [lia|]. destruct (pad_val 2 mi) as [Dmi Vmi]; [lia|]. destruct (pad_val 2 s) as [Ds Vs]; [lia|].
  destruct (pad_val 6 micro) as [Dm Vm]; [lia|].
  assert (ts_datetime (str_of_nonneg y) (pad 2 mo) (pad 2 d) (pad 2 h) (pad 2 mi) (pad 2 s) micro = mk_dt y mo d h mi s micro) as Et.
  { unfold ts_datetime. congruence. }
  assert (ts_valid (str_of_nonneg y) (pad 2 mo) (pad 2 d) (pad 2 h) (pad 2 mi) (pad 2 s) = true) as Hv.
  { unfold ts_valid. rewrite Vy, Vmo, Vd, Vh, Vmi, Vs. rewrite (proj2 (Z.ltb_ge y 1)) by lia. rewrite !andb_true_iff, !Z.leb_le. lia. }
  pose proof (parse_text _ _ _ _ _ _ Dy Dmo Dd Dh Dmi Ds other _ Dm Hv) as H6. rewrite Vm, Vy, Et, Eus in H6.
  rewrite <- H6 by lia. unfold ts_date, ts_time. f_equal. by destruct (micro =? 0); rewrite <- !app_assoc.
Qed.

(** ** The record is read back *)

Definition info_object (i : TableExportInfo) : pyobj :=
  PStruct [(u"Table", NEVER, PStr (ti_table i)); (u"Timestamp", NEVER, PStr (_rfc3339 (ti_timestamp i)))].

Definition info_item (i : TableExportInfo) : pyobj :=
  PDict [(u"Table", PStr (ti_table i)); (u"Timestamp", PStr (_rfc3339 (ti_timestamp i)))].

Lemma info_text sk i : _encode sk (info_object i) = Some (info_gojson i).
Proof.
  unfold info_object, info_gojson. cbn [_encode mapM mret option_ret mbind option_bind _omitted concat app].
  unfold braces, field_text. cbn [join]. by rewrite <- !app_assoc.
Qed.

Lemma marshal_infos sk infos : marshal sk (PList (info_object <$> infos)) = Some (marshal_table_export_info infos).
Proof.
  unfold marshal, marshal_table_export_info. cbn [_encode].
  assert (mapM (_encode sk) (info_object <$> infos) = Some (info_gojson <$> infos)) as ->; [|done].
  induction infos as [|i infos IH]; [done|]. rewrite !fmap_cons. cbn [mapM]. by rewrite info_text, IH.
Qed.

Lemma rfc3339_chars us : 0 <= dt_year (datetime_of us) -> chars_ok (_rfc3339 us) = true.
Proof.
  intros Hy. unfold chars_ok, _rfc3339. destruct (str_of_nonneg_spec _ Hy) as (_ & Hd & _).
  assert (forall l, Forall (fun c => is_digit c = true) l -> forallb (Z.leb 0) l = true) as Hdig.
  { intros l H. apply forallb_Forall. eapply Forall_impl; [exact H|]. intros c Hc. unfold is_digit in Hc. bool_prop. lia. }
  assert (forall n x, forallb (Z.leb 0) (pad n x) = true) as Hpad by (intros; apply Hdig, pad_is_digits).
  assert (forall l, forallb (Z.leb 0) l = true -> forallb (Z.leb 0) (rstrip_char 48 l) = true) as Hstrip.
  { intros l H. destruct (rstrip_zeros_split l) as [k E]. rewrite E, forallb_app in H. by bool_prop. }
  pose proof (Hdig _ Hd) as Hyear. specialize (Hstrip (u"." ++ pad 6 (dt_micro (datetime_of us)))).
  rewrite forallb_app, Hpad in Hstrip. specialize (Hstrip eq_refl).
  destruct (dt_micro _ =? 0); rewrite ?forallb_app, ?Hstrip, !Hpad, Hyear; done.
Qed.

(** what an import can write: names of code points, moments of years of four digits *)
Definition info_ok (i : TableExportInfo) : bool := chars_ok (ti_table i) && writable (ti_timestamp i).

Lemma record_items infos : forallb info_ok infos = true -> items_of (marshal_table_export_info infos) = inr (info_item <$> infos).
Proof.
  intros Hok. unfold items_of.
  destruct (encode_reads opts_default (fun _ => false) (fun _ => PNone) ltac:(done) (PList (info_object <$> infos)) false) as (t & E & Hr).
  - cbn [wire_ok]. apply forallb_Forall in Hok. apply forallb_Forall, Forall_fmap. eapply Forall_impl; [exact Hok|].
    intros i Hi. unfold info_ok, writable in Hi. bool_prop. simpl.
    match goal with H : chars_ok _ = true |- _ => rewrite H end. rewrite rfc3339_chars by lia. done.
  - pose proof (marshal_infos false infos) as Em. unfold marshal in Em. rewrite Em in E. apply (inj Some) in E. subst t.
    rewrite (reads_loads _ _ _ Hr). cbn [wire]. f_equal. rewrite <- list_fmap_compose. apply list_fmap_ext. done.
Qed.

Lemma load_items_fmap {A} (f : pyobj -> load_error + A) (g : TableExportInfo -> A) infos :
  Forall (fun i => f (info_item i) = inr (g i)) infos -> load_items f (info_item <$> infos) = inr (g <$> infos).
Proof. induction 1 as [|i infos Hi _ IH]; [done|]. rewrite !fmap_cons. simpl. by rewrite Hi, IH. Qed.

Lemma item_fields_info i : _rfc3339 (ti_timestamp i) <> [] -> item_fields (info_item i) = inr (ti_table i, Some (_rfc3339 (ti_timestamp i))).
Proof. intros H. unfold item_fields, info_item. simpl. by destruct (_rfc3339 _). Qed.

Lemma rfc3339_nonempty us : _rfc3339 us <> [].
Proof. unfold _rfc3339. by intros [_ H]%app_eq_nil. Qed.

Lemma foldl_pairs {A} (out : pydict A) l : foldl (fun out '(table, cutoff) => dict_set table cutoff out) out l = dict_update out l.
Proof. unfold dict_update. revert out. induction l as [|[k v] l IH]; intros out; [done|]. apply IH. Qed.

(** the key holds the record of an import *)
Definition recorded (infos : list TableExportInfo) (t : Tracker) : Prop :=
  t !! TRACKER_TABLE_EXPORT_KEY = Some (marshal_table_export_info infos, None).

Lemma get_recorded now infos t : recorded infos t -> get_key now TRACKER_TABLE_EXPORT_KEY t = ((true, marshal_table_export_info infos), t).
Proof. unfold recorded, get_key. by intros ->. Qed.

Lemma set_recorded now infos t : recorded infos (set_key now TRACKER_TABLE_EXPORT_KEY (marshal_table_export_info infos) 0 t).
Proof. unfold recorded, set_key. by rewrite lookup_insert. Qed.

Lemma recorded_infos other_iso local_time now infos t : forallb info_ok infos = true -> recorded infos t ->
  load_table_export_info other_iso local_time now t = (inr (Some infos), t).
Proof.
  intros Hok Hr. unfold load_table_export_info. rewrite (get_recorded now infos t Hr). cbn [negb]. rewrite record_items by done.
  rewrite (load_items_fmap (load_item other_iso local_time) id); [by rewrite list_fmap_id|].
  apply forallb_Forall in Hok. eapply Forall_impl; [exact Hok|]. intros i Hi. unfold info_ok in Hi. bool_prop.
  unfold load_item. rewrite item_fields_info by apply rfc3339_nonempty. rewrite rfc3339_reads_back by done. by destruct i.
Qed.

(** the cutoffs of the tables of a record *)
Definition cutoffs (infos : list TableExportInfo) : pydict (option Z) := (fun i => (ti_table i, Some (ti_timestamp i))) <$> infos.

Lemma recorded_cutoffs other_iso now infos t : forallb info_ok infos = true -> NoDup (table_names infos) -> recorded infos t ->
  _load_table_export_info other_iso now t = (inr (Some (cutoffs infos)), t).
Proof.
  intros Hok Hnd Hr. unfold _load_table_export_info. rewrite (get_recorded now infos t Hr). cbn [negb]. rewrite record_items by done.
  rewrite (load_items_fmap (cutoff_item other_iso) (fun i => (ti_table i, Some (ti_timestamp i)))).
  - do 3 f_equal. rewrite (foldl_pairs []), dict_update_fresh; [done|]. simpl. unfold dict_keys. by rewrite <- list_fmap_compose.
  - apply forallb_Forall in Hok. eapply Forall_impl; [exact Hok|]. intros i Hi. unfold info_ok in Hi. bool_prop.
    unfold cutoff_item. rewrite item_fields_info by apply rfc3339_nonempty. by rewrite rfc3339_reads_back.
Qed.

(** the record of an import is read back: for names of code points and moments
    of the years 1000 to 9999, a later import of the same files gets the tables
    and times that were written, and the worker the time of each table as its
    cutoff, to the microsecond, whenever it reads. *)
Theorem table_export_reads_back other_iso local_time infos now now' t :
  forallb info_ok infos = true ->
  let t' := set_key now TRACKER_TABLE_EXPORT_KEY (marshal_table_export_info infos) 0 t in
  load_table_export_info other_iso local_time now' t' = (inr (Some infos), t') /\
  (NoDup (table_names infos) -> _load_table_export_info other_iso now' t' = (inr (Some (cutoffs infos)), t')).
Proof.
  intros Hok t'. pose proof (set_recorded now infos t) as Hr.
  split; [by apply recorded_infos|intros Hnd; by apply recorded_cutoffs].
Qed.

Module ExportRun.
Definition infos : list TableExportInfo := [mk_info (u"order") 1722470399999999; mk_info (u"customer") 1709164800000000; mk_info (u"lot") 1709164800500000].

Lemma table_export_reads_back_witness :
  let t' := set_key 0 TRACKER_TABLE_EXPORT_KEY (marshal_table_export_info infos) 0 ∅ in
  load_table_export_info (fun _ => None) unix_seconds 5 t' = (inr (Some infos), t') /\
  _load_table_export_info (fun _ => None) 5 t' =
    (inr (Some [(u"order", Some 1722470399999999); (u"customer", Some 1709164800000000); (u"lot", Some 1709164800500000)]), t').
Proof.
  destruct (table_export_reads_back (fun _ => None) unix_seconds infos 0 5 ∅) as [H1 H2]; [vm_compute; reflexivity|].
  split; [exact H1|]. apply H2. apply (bool_decide_eq_true_1 _). vm_compute. reflexivity.
Defined.

(** what is written *)
Lemma record_text : marshal_table_export_info [mk_info (u"lot") 1709164800500000] =
  u"[{" ++ dq ++ u"Table" ++ dq ++ u":" ++ dq ++ u"lot" ++ dq ++ u"," ++ dq ++ u"Timestamp" ++ dq ++ u":" ++ dq ++ u"2024-02-29T00:00:00.5Z" ++ dq ++ u"}]".
Proof. by vm_compute. Qed.
End ExportRun.
