(* ===== verification/Recovery.v ===== *)
(** * Import recovery: eds/cmd/import_cmd.py

    [run_with_recovery] repeats the export, poll, download, import unit for the
    tables that are left, with the backoff ladder.  The stages are injected
    into it in the source as well; here they are the methods of [ImportStages].

    The theorems: an import that returns made a bounded number of attempts with
    the ladder's pauses, only errors that are not recoverable escape, every
    table it reports was loaded, and a run without permanently failed tables
    has loaded every table any report listed - as long as the reports list what
    was asked of them. *)
From stdpp Require Import base tactics list option numbers sets strings.
From S2P Require Import Prelude PyStr PyDict Interfaces ImportClient.

(** ** Which errors are retried *)

Definition RECOVERY_BASE_DELAY_SECONDS : Z := 30.
Definition RECOVERY_DEFAULT_MAX_RETRIES : Z := 5.
Definition _RETRYABLE_STATUS : list Z := [408; 429; 500; 502; 503; 504].

Definition _TRANSPORT_MARKERS : list pystr :=
  [u"connection reset"; u"connection refused"; u"broken pipe"; u"timed out"; u"eof";
   u"no such host"; u"tls handshake"; u"dns";
   u"failed to resolve"; u"getaddrinfo"; u"name resolution"; u"name or service not known"].

(** ENOSPC, EACCES, EPERM, EROFS, EDQUOT, EISDIR, ENOENT, ENOTDIR, EMFILE, ENFILE of Linux *)
Definition _FATAL_ERRNOS : list Z := [28; 13; 1; 30; 122; 21; 2; 20; 24; 23].

Definition _matches_transport (msg : pystr) : bool :=
  let m := lower_full msg in existsb (fun s => substr_in s m) _TRANSPORT_MARKERS.

Definition is_recoverable (err : exn) : bool :=
  match err with
  | UsageError _ _ | RecoveryCancelled | SchemaValidationError _ | ValueError _ | PermissionError _ => false
  | DownloadStageError _ _ => true
  | ApiStatusError _ status_code => bool_decide (status_code ∈ _RETRYABLE_STATUS)
  | ConnectionError _ | TimeoutError _ => true
  | RequestsNetworkError _ => true
  | OSError msg errno =>
      if match errno with Some e => bool_decide (e ∈ _FATAL_ERRNOS) | None => false end then false
      else _matches_transport msg
  | RuntimeError msg => _matches_transport msg
  end.

Definition backoff_ladder (max_retries : Z) : list Z :=
  (fun n => RECOVERY_BASE_DELAY_SECONDS * 2 ^ Z.of_nat n) <$> seq 0 (Z.to_nat max_retries).

(** the retries and the value written to the configuration *)
Definition resolve_max_retries (explicit configured : option Z) : Z * option Z :=
  match explicit with
  | Some e => let retries := Z.max 0 e in (retries, Some retries)
  | None =>
      match configured with
      | Some c => (Z.max 0 c, None)
      | None => (RECOVERY_DEFAULT_MAX_RETRIES, Some RECOVERY_DEFAULT_MAX_RETRIES)
      end
  end.

(** for an exception without a status code, as [bulk_download_data] raises *)
Definition _download_urls_expired (err : exn) : bool :=
  let by_status := match err with ApiStatusError _ c => (c =? 403) || (c =? 410) | _ => false end in
  by_status || (let msg := lower_full (exn_str err) in substr_in (u"403") msg || substr_in (u"410") msg).

Record ImportPlan := mk_plan {
  pl_company_ids : list pystr; pl_location_ids : list pystr; pl_time_offset_ms : option Z; pl_run_id : pystr
}.

Record RecoveryResult := mk_result {
  rr_imported : list pystr; rr_permanently_failed : list pystr; rr_table_export_info : list TableExportInfo;
  rr_job_id : pystr; rr_last_error : pystr
}.

(** ** The stages, over the state of the outside world *)
Class ImportStages (W : Type) := {
  st_export : list pystr -> ImportPlan -> method W exn pystr;
  st_poll : pystr -> method W exn ExportJobResponse;
  st_download : ExportJobResponse -> list pystr -> pystr -> method W exn (list TableExportInfo * pystr);
  st_import : pystr -> list pystr -> pystr -> method W exn unit;
  (** [tracker is not None], [_progress_marker_present] *)
  st_has_tracker : bool;
  st_marker : pystr -> pystr -> method W exn bool;
  st_cancelled : W -> bool * W;
  st_sleep : Z -> W -> W
}.

(** [for t in ts: if t not in l: l.append(t)] *)
Definition append_new (l ts : list pystr) : list pystr :=
  foldl (fun acc t => if bool_decide (t ∈ acc) then acc else acc ++ [t]) l ts.

Section Recovery.
Context {W : Type} `{!ImportStages W}.
Context (plan : ImportPlan) (max_retries : Z) (initial_export_tables : list pystr) (initial_job_id : pystr).
Context (completed_tables : list pystr).

(** the local variables of [run_with_recovery] *)
Record RecState := mk_rec {
  rc_imported : list pystr;
  rc_info : list TableExportInfo;
  rc_export : list pystr;
  rc_job : pystr;
  rc_need_post : bool;
  rc_working : option (list pystr);
  rc_attempt : Z;
  rc_last_error : pystr;
  rc_world : W
}.

Abbreviation RecM A := (M RecState exn A).

Definition rc_set_world (w : W) (s : RecState) : RecState :=
  mk_rec (rc_imported s) (rc_info s) (rc_export s) (rc_job s) (rc_need_post s) (rc_working s) (rc_attempt s)
    (rc_last_error s) w.
Definition rc_posted (job_id : pystr) (s : RecState) : RecState :=
  mk_rec (rc_imported s) (rc_info s) (rc_export s) job_id false (rc_working s) (rc_attempt s)
    (rc_last_error s) (rc_world s).
Definition rc_set_working (w : option (list pystr)) (s : RecState) : RecState :=
  mk_rec (rc_imported s) (rc_info s) (rc_export s) (rc_job s) (rc_need_post s) w (rc_attempt s)
    (rc_last_error s) (rc_world s).
Definition rc_add_imported (ts : list pystr) (s : RecState) : RecState :=
  mk_rec (append_new (rc_imported s) ts) (rc_info s) (rc_export s) (rc_job s) (rc_need_post s) (rc_working s)
    (rc_attempt s) (rc_last_error s) (rc_world s).
Definition rc_add_info (i : list TableExportInfo) (s : RecState) : RecState :=
  mk_rec (rc_imported s) (rc_info s ++ i) (rc_export s) (rc_job s) (rc_need_post s) (rc_working s) (rc_attempt s)
    (rc_last_error s) (rc_world s).
Definition rc_set_error (e : pystr) (s : RecState) : RecState :=
  mk_rec (rc_imported s) (rc_info s) (rc_export s) (rc_job s) (rc_need_post s) (rc_working s) (rc_attempt s)
    e (rc_world s).
Definition rc_set_export (ts : list pystr) (need_post : bool) (s : RecState) : RecState :=
  mk_rec (rc_imported s) (rc_info s) ts (rc_job s) need_post (rc_working s) (rc_attempt s)
    (rc_last_error s) (rc_world s).
Definition rc_next_attempt (s : RecState) : RecState :=
  mk_rec (rc_imported s) (rc_info s) (rc_export s) (rc_job s) (rc_need_post s) (rc_working s) (rc_attempt s + 1)
    (rc_last_error s) (rc_world s).

Definition on_stage {A} (f : method W exn A) : RecM A :=
  fun s => let '(r, w) := f (rc_world s) in (r, rc_set_world w s).

(** [if need_post: job_id = export_fn(export_tables, plan); need_post = False] *)
Definition ensure_job : RecM unit :=
  need ← gets rc_need_post;
  if (need : bool) then
    export ← gets rc_export;
    job_id ← on_stage (st_export export plan);
    modify (rc_posted job_id)
  else mret tt.

(** the tables of a report that are left, and those of them that did not fail *)
Definition present_of (job : ExportJobResponse) (imported : list pystr) : list pystr :=
  filter (fun t => t ∉ imported) (job_present job).
Definition ready_of (job : ExportJobResponse) (present : list pystr) : list pystr :=
  let failed := filter (fun t => t ∈ present) (failed_tables job) in
  filter (fun t => t ∉ failed) present.

(** the download and the import of the tables that are ready *)
Definition load_ready (job : ExportJobResponse) (present ready : list pystr) : RecM unit :=
  match ready with
  | [] => mret tt
  | _ =>
      job_id ← gets rc_job;
      dl ← on_stage (st_download job ready job_id);
      _ ← on_stage (st_import job_id ready (snd dl));
      _ ← modify (rc_add_imported ready);
      _ ← modify (rc_add_info (fst dl));
      modify (rc_set_working (Some (filter (fun t => t ∉ ready) present)))
  end.

(** the body of the [try]; [true] is its [break] *)
Definition attempt_stages : RecM bool :=
  _ ← ensure_job;
  job_id ← gets rc_job;
  job ← on_stage (st_poll job_id);
  imported ← gets rc_imported;
  let present := present_of job imported in
  _ ← modify (rc_set_working (Some present));
  _ ← load_ready job present (ready_of job present);
  working ← gets (fun s => default [] (rc_working s));
  match working with
  | [] => mret true
  | _ =>
      _ ← modify (rc_set_error (u"error exporting tables: " ++ join (u", ") working));
      _ ← modify (rc_set_export working true);
      mret false
  end.

(** [[t for t in ts if _progress_marker_present(tracker, run_id, t)]] *)
Fixpoint flushed_of (ts : list pystr) : RecM (list pystr) :=
  match ts with
  | [] => mret []
  | t :: ts' =>
      found ← on_stage (st_marker (pl_run_id plan) t);
      rest ← flushed_of ts';
      mret (if (found : bool) then t :: rest else rest)
  end.

Definition retry_scope (working : option (list pystr)) : option (list pystr) :=
  match working with
  | Some w => Some w
  | None => match initial_export_tables with [] => None | ts => Some ts end
  end.

(** drop the tables whose marker says they were flushed *)
Definition drop_flushed (scope : option (list pystr)) : RecM (option (list pystr)) :=
  match scope with
  | Some ts =>
      if st_has_tracker && negb (str_eqb (pl_run_id plan) []) then
        flushed ← flushed_of ts;
        _ ← modify (rc_add_imported flushed);
        mret (Some (filter (fun t => t ∉ flushed) ts))
      else mret scope
  | None => mret None
  end.

Definition is_expired (e : exn) : bool := match e with DownloadStageError _ expired => expired | _ => false end.

(** the [except] clause *)
Definition recover (e : exn) : RecM unit :=
  if negb (is_recoverable e) then raise e
  else
    _ ← modify (rc_set_error (exn_str e));
    working ← gets rc_working;
    scope ← drop_flushed (retry_scope working);
    _ ← modify (rc_set_working scope);
    need ← gets rc_need_post;
    modify (rc_set_export (default initial_export_tables scope) (if (need : bool) then true else is_expired e)).

Definition one_attempt : RecM bool :=
  _ ← modify rc_next_attempt;
  catch attempt_stages (fun e => _ ← recover e; mret false).

(** [is_cancelled(cancel)] *)
Definition cancelled_now : RecM bool :=
  fun s => let '(b, w) := st_cancelled (rc_world s) in (inr b, rc_set_world w s).

(** what follows the [try]: [Some exhausted] leaves the loop *)
Definition after_attempt : RecM (option bool) :=
  working ← (gets rc_working : RecM (option (list pystr)));
  match working with
  | Some [] => mret (Some false)
  | _ =>
      attempt ← (gets rc_attempt : RecM Z);
      if max_retries <? attempt then mret (Some true)
      else
        cancelled ← cancelled_now;
        if (cancelled : bool) then raise RecoveryCancelled
        else
          match backoff_ladder max_retries !! Z.to_nat (attempt - 1) with
          | None => raise (RuntimeError (u"list index out of range"))
          | Some delay =>
              _ ← modify (fun s => rc_set_world (st_sleep delay (rc_world s)) s);
              cancelled ← cancelled_now;
              if (cancelled : bool) then raise RecoveryCancelled else mret None
          end
  end.

(** the loop; [None] is not leaving it within [fuel] attempts *)
Fixpoint recovery_loop (fuel : nat) : RecM (option bool) :=
  match fuel with
  | O => mret None
  | S fuel' =>
      brk ← one_attempt;
      if (brk : bool) then mret (Some false)
      else
        stop ← after_attempt;
        match stop with
        | Some exhausted => mret (Some exhausted)
        | None => recovery_loop fuel'
        end
  end.

Definition initial_state (w : W) : RecState :=
  mk_rec completed_tables [] initial_export_tables initial_job_id (str_eqb initial_job_id []) None 0 [] w.

Definition permanently_failed_of (exhausted : bool) (working : option (list pystr)) : list pystr :=
  if exhausted then
    match working with
    | Some ts => ts
    | None => match initial_export_tables with [] => [u"*"] | ts => ts end
    end
  else [].

Definition recovery_result (exhausted : bool) (s : RecState) : RecoveryResult :=
  mk_result (rc_imported s) (permanently_failed_of exhausted (rc_working s)) (rc_info s) (rc_job s) (rc_last_error s).

(** one attempt and its retries: the loop leaves by itself *)
Definition recovery_fuel : nat := S (Z.to_nat max_retries).

Definition run_with_recovery (w : W) : (exn + option RecoveryResult) * RecState :=
  match recovery_loop recovery_fuel (initial_state w) with
  | (inl e, s) => (inl e, s)
  | (inr None, s) => (inr None, s)
  | (inr (Some exhausted), s) => (inr (Some (recovery_result exhausted s)), s)
  end.
End Recovery.
Arguments RecState W : clear implicits.

(** ** A world that writes down what happens *)

(** a call of a stage with its outcome, a marker read, a pause *)
Inductive rcall : Type :=
| CExport (tables : list pystr) (r : exn + pystr)
| CPoll (job_id : pystr) (r : exn + ExportJobResponse)
| CDownload (tables : list pystr) (r : exn + (list TableExportInfo * pystr))
| CImport (tables : list pystr) (r : exn + unit)
| CMarker (table : pystr) (r : exn + bool)
| CSleep (seconds : Z).

Section Traced.
Context {W : Type} `{!ImportStages W}.

Definition log_call {A} (c : exn + A -> rcall) (f : method W exn A) : method (W * list rcall) exn A :=
  fun '(w, log) => let '(r, w') := f w in (r, (w', log ++ [c r])).

#[export] Instance traced_stages : ImportStages (W * list rcall) := {|
  st_export ts p := log_call (CExport ts) (st_export ts p);
  st_poll j := log_call (CPoll j) (st_poll j);
  st_download job ts j := log_call (CDownload ts) (st_download job ts j);
  st_import j ts d := log_call (CImport ts) (st_import j ts d);
  st_has_tracker := st_has_tracker (W:=W);
  st_marker run t := log_call (CMarker t) (st_marker run t);
  st_cancelled := fun '(w, log) => let '(b, w') := st_cancelled w in (b, (w', log));
  st_sleep n := fun '(w, log) => (st_sleep n w, log ++ [CSleep n])
|}.
End Traced.

(** ** Counting the calls of a run *)

Inductive stage : Type := SExport | SPoll | SDownload | SImport.
#[export] Instance stage_eq_dec : EqDecision stage.
Proof. solve_decision. Defined.

Definition stage_of (c : rcall) : option stage :=
  match c with
  | CExport _ _ => Some SExport
  | CPoll _ _ => Some SPoll
  | CDownload _ _ => Some SDownload
  | CImport _ _ => Some SImport
  | CMarker _ _ | CSleep _ => None
  end.

Definition calls (k : stage) (log : list rcall) : nat := length (filter (fun c => stage_of c = Some k) log).
Definition sleeps (log : list rcall) : list Z := omap (fun c => match c with CSleep n => Some n | _ => None end) log.

Lemma calls_snoc k log c :
  calls k (log ++ [c]) = (calls k log + if decide (stage_of c = Some k) then 1 else 0)%nat.
Proof.
  unfold calls. rewrite filter_app, length_app, filter_cons. by destruct (decide (stage_of c = Some k)).
Qed.

Lemma sleeps_snoc log c : sleeps (log ++ [c]) = sleeps log ++ match c with CSleep n => [n] | _ => [] end.
Proof. unfold sleeps. rewrite omap_app. by destruct c. Qed.

Lemma append_new_elem l ts t : t ∈ append_new l ts <-> t ∈ l \/ t ∈ ts.
Proof.
  unfold append_new. revert l. induction ts as [|x ts IH]; intros l; simpl; [set_solver|].
  rewrite IH. case_bool_decide; set_solver.
Qed.

Section RecoveryFacts.
Context {W : Type} `{!ImportStages W}.
Context (plan : ImportPlan) (max_retries : Z) (initial_export_tables : list pystr) (initial_job_id : pystr).
Context (completed_tables : list pystr).

Abbreviation State := (RecState (W * list rcall)).
Abbreviation RM A := (M State exn A).
Definition rlog (s : State) : list rcall := (rc_world s).2.

Lemma triple_stage {A} (c : exn + A -> rcall) (f : method W exn A) (P : State -> Prop) Q X :
  (forall s w r, P s ->
     let s' := rc_set_world (w, rlog s ++ [c r]) s in match r with inr a => Q a s' | inl e => X e s' end) ->
  triple P (on_stage (log_call c f) : RM A) Q X.
Proof.
  intros H s Hs. unfold on_stage, log_call. specialize (H s). unfold rlog in H.
  destruct (rc_world s) as [w log]. destruct (f w) as [r w']. by apply (H w' r).
Qed.

(** *** Attempts and pauses *)

Definition counted (f : stage -> nat) (L : list Z) (n : Z) (s : State) : Prop :=
  (forall k, (calls k (rlog s) <= f k)%nat) /\ sleeps (rlog s) = L /\ rc_attempt s = n.

Definition bump (k : stage) (f : stage -> nat) : stage -> nat :=
  fun k' => if decide (k' = k) then S (f k') else f k'.

Lemma counted_call f L n k s w c :
  counted f L n s -> stage_of c = Some k -> counted (bump k f) L n (rc_set_world (w, rlog s ++ [c]) s).
Proof.
  intros (Hf & HL & Hn) Hk. split; [|split; [|done]].
  - intros k'. unfold rlog at 1. simpl. rewrite calls_snoc, Hk. specialize (Hf k'). unfold bump.
    destruct (decide (k' = k)) as [->|Hne].
    + destruct (decide (Some k = Some k)); [lia|done].
    + destruct (decide (Some k = Some k')) as [E|]; [congruence|lia].
  - unfold rlog at 1. simpl. rewrite sleeps_snoc, HL. by destruct c; rewrite ?app_nil_r.
Qed.

Lemma counted_le f g L n s : counted f L n s -> (forall k, (f k <= g k)%nat) -> counted g L n s.
Proof. intros (Hf & ? & ?) Hg. split; [|done]. intros k. etrans; [apply Hf|apply Hg]. Qed.

(** a change of the other variables is not seen *)
Lemma counted_modify f L n (g : State -> State) X :
  (forall s, rc_world (g s) = rc_world s /\ rc_attempt (g s) = rc_attempt s) ->
  triple (counted f L n) (modify g : RM unit) (fun _ => counted f L n) X.
Proof.
  intros Hg. apply triple_modify. intros s (? & ? & ?). destruct (Hg s) as [Hw Ha].
  unfold counted, rlog in *. by rewrite Hw, Ha.
Qed.

Lemma counted_stage {A} f L n k (c : exn + A -> rcall) (m : method W exn A) :
  (forall r, stage_of (c r) = Some k) ->
  triple (counted f L n) (on_stage (log_call c m) : RM A) (fun _ => counted (bump k f) L n)
    (fun _ => counted (bump k f) L n).
Proof.
  intros Hc. apply triple_stage. intros s w r Hs s'. pose proof (counted_call f L n k s w (c r) Hs (Hc r)).
  by destruct r.
Qed.

Definition all_of (n : nat) : stage -> nat := fun _ => n.

Lemma counted_recover f L n e :
  triple (counted f L n) (recover plan initial_export_tables e : RM unit)
    (fun _ => counted f L n) (fun _ => counted f L n).
Proof.
  unfold recover. destruct (is_recoverable e); simpl; [|by apply triple_raise].
  apply (triple_bind _ _ _ (fun _ => counted f L n)); [by apply counted_modify|]. intros _.
  apply triple_gets_bind. intros working.
  apply (triple_bind _ _ _ (fun _ => counted f L n)).
  { apply (triple_pre _ (counted f L n)); [|by intros s []]. unfold drop_flushed.
    destruct (retry_scope _ working) as [ts|]; [|by apply triple_ret].
    case_match; [|by apply triple_ret].
    apply (triple_bind _ _ _ (fun _ => counted f L n)); [|intros fl].
    - clear. induction ts as [|t ts IH]; simpl; [by apply triple_ret|].
      apply (triple_bind _ _ _ (fun _ => counted f L n)).
      + apply (triple_stage (CMarker t)). intros s w r (Hf & HL & Hn) s'.
        enough (counted f L n s') by (by destruct r). split; [|split; [|done]].
        * intros k. unfold s', rlog. simpl. rewrite calls_snoc. simpl. specialize (Hf k). unfold rlog in Hf.
          destruct (decide (None = Some k)); [done|lia].
        * unfold s', rlog. simpl. rewrite sleeps_snoc. unfold rlog in HL. by rewrite HL, app_nil_r.
      + intros found. apply (triple_bind _ _ _ (fun _ => counted f L n)); [done|]. intros rest. by apply triple_ret.
    - apply (triple_bind _ _ _ (fun _ => counted f L n)); [by apply counted_modify|]. intros _. by apply triple_ret. }
  intros scope. apply (triple_bind _ _ _ (fun _ => counted f L n)); [by apply counted_modify|]. intros _.
  apply triple_gets_bind. intros need. apply (triple_pre _ (counted f L n)); [by apply counted_modify|by intros s []].
Qed.

Lemma counted_stages m L n :
  triple (counted (all_of m) L n) (attempt_stages plan : RM bool)
    (fun _ => counted (all_of (S m)) L n) (fun _ => counted (all_of (S m)) L n).
Proof.
  set (f1 := bump SExport (all_of m)). set (f2 := bump SPoll f1). set (f3 := bump SDownload f2). set (f4 := bump SImport f3).
  assert (forall f s, (forall k, (f k <= S m)%nat) -> counted f L n s -> counted (all_of (S m)) L n s) as Hle
    by (intros f s Hf Hs; by apply (counted_le f)).
  assert (forall k, (f1 k <= S m /\ f2 k <= S m /\ f3 k <= S m /\ f4 k <= S m)%nat) as Hf
    by (intros []; unfold f4, f3, f2, f1, bump, all_of; simpl; lia).
  unfold attempt_stages.
  apply (triple_bind _ _ _ (fun _ => counted f1 L n)).
  { unfold ensure_job. apply triple_gets_bind. intros [].
    - apply triple_gets_bind. intros ts. apply (triple_pre _ (counted (all_of m) L n)); [|tauto].
      apply (triple_bind _ _ _ (fun _ => counted f1 L n)); [|intros j; by apply counted_modify].
      apply (triple_post _ _ _ _ _ _ (counted_stage _ _ _ SExport (CExport ts) _ ltac:(done))); [done|].
      intros _ s. apply Hle. intros k; apply Hf.
    - apply triple_ret. intros s [Hs _]. by apply (counted_le (all_of m)); [|intros []; unfold f1, bump, all_of; simpl; lia]. }
  intros _. apply triple_gets_bind. intros jid.
  apply (triple_bind _ _ _ (fun _ => counted f2 L n)).
  { apply (triple_pre _ (counted f1 L n)); [|tauto].
    apply (triple_post _ _ _ _ _ _ (counted_stage f1 L n SPoll (CPoll jid) _ ltac:(done))); [done|].
    intros _ s. apply Hle. intros k; apply Hf. }
  intros job. apply triple_gets_bind. intros imported.
  apply (triple_bind _ _ _ (fun _ => counted f2 L n)).
  { apply (triple_pre _ (counted f2 L n)); [by apply counted_modify|tauto]. }
  intros _. apply (triple_bind _ _ _ (fun _ => counted (all_of (S m)) L n)).
  - unfold load_ready. destruct (ready_of job _) as [|t ts].
    { apply triple_ret. intros s. apply Hle. intros k; apply Hf. }
    apply triple_gets_bind. intros jid'. apply (triple_pre _ (counted f2 L n)); [|tauto].
    apply (triple_bind _ _ _ (fun _ => counted f3 L n)).
    { apply (triple_post _ _ _ _ _ _ (counted_stage f2 L n SDownload (CDownload (t :: ts)) _ ltac:(done))); [done|].
      intros _ s. apply Hle. intros k; apply Hf. }
    intros dl. apply (triple_bind _ _ _ (fun _ => counted (all_of (S m)) L n)).
    { apply (triple_post _ _ _ _ _ _ (counted_stage f3 L n SImport (CImport (t :: ts)) _ ltac:(done)));
        intros _ s; apply Hle; intros k; apply Hf. }
    intros _. apply (triple_bind _ _ _ (fun _ => counted (all_of (S m)) L n)); [by apply counted_modify|]. intros _.
    apply (triple_bind _ _ _ (fun _ => counted (all_of (S m)) L n)); [by apply counted_modify|]. intros _.
    by apply counted_modify.
  - intros _. apply triple_gets_bind. intros [|t ts]; [by apply triple_ret; intros s []|].
    apply (triple_pre _ (counted (all_of (S m)) L n)); [|tauto].
    apply (triple_bind _ _ _ (fun _ => counted (all_of (S m)) L n)); [by apply counted_modify|]. intros _.
    apply (triple_bind _ _ _ (fun _ => counted (all_of (S m)) L n)); [by apply counted_modify|]. intros _.
    by apply triple_ret.
Qed.

Lemma counted_attempt m L n :
  triple (counted (all_of m) L n) (one_attempt plan initial_export_tables : RM bool)
    (fun _ => counted (all_of (S m)) L (n + 1)) (fun _ => counted (all_of (S m)) L (n + 1)).
Proof.
  unfold one_attempt. apply (triple_bind _ _ _ (fun _ => counted (all_of m) L (n + 1))).
  { apply triple_modify. intros s (? & ? & <-). done. }
  intros _. apply (triple_catch _ _ _ (fun _ => counted (all_of (S m)) L (n + 1))); [apply counted_stages|].
  intros e. apply (triple_bind _ _ _ (fun _ => counted (all_of (S m)) L (n + 1))); [apply counted_recover|].
  intros _. by apply triple_ret.
Qed.

Lemma ladder_lookup k : (k < Z.to_nat max_retries)%nat -> backoff_ladder max_retries !! k = Some (30 * 2 ^ Z.of_nat k).
Proof. intros Hk. unfold backoff_ladder. rewrite list_lookup_fmap, lookup_seq_lt by done. done. Qed.

(** where a run may be when it ends *)
Definition within_ladder (s : State) : Prop :=
  exists k, (k <= Z.to_nat max_retries)%nat /\ sleeps (rlog s) = take k (backoff_ladder max_retries) /\
            forall st, (calls st (rlog s) <= S k)%nat.

Definition at_attempt (k : nat) : State -> Prop :=
  counted (all_of k) (take k (backoff_ladder max_retries)) (Z.of_nat k).
Definition tried (k : nat) : State -> Prop :=
  counted (all_of (S k)) (take k (backoff_ladder max_retries)) (Z.of_nat (S k)).

Lemma tried_within k s : (k <= Z.to_nat max_retries)%nat -> tried k s -> within_ladder s.
Proof. intros Hk (Hc & Hs & _). exists k. done. Qed.

(** reading the cancellation flag changes nothing that is counted *)
Lemma counted_cancelled f L n :
  triple (counted f L n) (cancelled_now : RM bool) (fun _ => counted f L n) (fun _ _ => False).
Proof.
  intros s (Hf & HL & Hn). unfold cancelled_now. simpl. destruct (rc_world s) as [w log] eqn:Ew.
  destruct (st_cancelled w) as [b w']. unfold counted, rlog in *. simpl. by rewrite Ew in *.
Qed.

Lemma after_attempt_counted k :
  (k <= Z.to_nat max_retries)%nat ->
  triple (tried k) (after_attempt max_retries : RM (option bool))
    (fun stop s => match stop with
                   | Some _ => within_ladder s
                   | None => (k < Z.to_nat max_retries)%nat /\ at_attempt (S k) s
                   end)
    (fun e s => e = RecoveryCancelled /\ within_ladder s).
Proof.
  intros Hk. unfold after_attempt. apply triple_gets_bind. intros working.
  assert (triple (tried k)
    (attempt ← (gets rc_attempt : RM Z);
     if max_retries <? attempt then mret (Some true)
     else
       cancelled ← cancelled_now;
       if (cancelled : bool) then raise RecoveryCancelled
       else
         match backoff_ladder max_retries !! Z.to_nat (attempt - 1) with
         | None => raise (RuntimeError (u"list index out of range"))
         | Some delay =>
             _ ← modify (fun s => rc_set_world (st_sleep delay (rc_world s)) s);
             cancelled ← cancelled_now;
             if (cancelled : bool) then raise RecoveryCancelled else mret None
         end)
    (fun stop s => match stop with
                   | Some _ => within_ladder s
                   | None => (k < Z.to_nat max_retries)%nat /\ at_attempt (S k) s
                   end)
    (fun e s => e = RecoveryCancelled /\ within_ladder s)) as Hmain.
  2: { destruct working as [[|t ts]|].
       - apply triple_ret. intros s [Hs _]. by eapply tried_within.
       - eapply triple_pre; [exact Hmain|]. by intros s [].
       - eapply triple_pre; [exact Hmain|]. by intros s []. }
  intros s Hs. unfold gets, mbind, M_bind. pose proof Hs as (_ & _ & Ha). rewrite Ha.
  destruct (max_retries <? Z.of_nat (S k)) eqn:Em.
  { by eapply tried_within. }
  bool_prop. replace (Z.to_nat (Z.of_nat (S k) - 1)) with k by lia.
  pose proof (counted_cancelled _ _ _ s Hs) as H1. destruct (cancelled_now s) as [[e|[]] s1]; [done| |].
  { split; [done|]. by apply (tried_within k). }
  rewrite ladder_lookup by lia. unfold modify.
  set (s2 := rc_set_world _ s1).
  assert (counted (all_of (S k)) (take (S k) (backoff_ladder max_retries)) (Z.of_nat (S k)) s2) as H2.
  { destruct H1 as (Hf & HL & Hn). subst s2. unfold counted, rlog in *. destruct (rc_world s1) as [w log]. simpl in *.
    split; [|split; [|done]].
    - intros st. rewrite calls_snoc. simpl. specialize (Hf st). destruct (decide (None = Some st)); [done|lia].
    - rewrite sleeps_snoc, HL. erewrite take_S_r by (apply ladder_lookup; lia). done. }
  pose proof (counted_cancelled _ _ _ s2 H2) as H3. destruct (cancelled_now s2) as [[e|[]] s3]; [done| |].
  - split; [done|]. exists (S k). destruct H3 as (Hf & HL & _). split; [lia|]. split; [done|].
    intros st. specialize (Hf st). unfold all_of in Hf. lia.
  - split; [lia|done].
Qed.

Lemma recovery_loop_counted fuel k s :
  (k + fuel = S (Z.to_nat max_retries))%nat -> (0 < fuel)%nat -> at_attempt k s ->
  let '(r, s') := recovery_loop plan max_retries initial_export_tables fuel s in r <> inr None /\ within_ladder s'.
Proof.
  revert k s. induction fuel as [|fuel IH]; intros k s Hk Hf Hs; [lia|]. simpl. unfold mbind, M_bind.
  pose proof (counted_attempt k _ _ s Hs) as Ha. replace (Z.of_nat k + 1) with (Z.of_nat (S k)) in Ha by lia.
  assert (k <= Z.to_nat max_retries)%nat as Hle by lia.
  destruct (one_attempt plan initial_export_tables s) as [[e|[]] s1].
  - split; [done|]. by apply (tried_within k).
  - split; [done|]. by apply (tried_within k).
  - pose proof (after_attempt_counted k Hle s1 Ha) as Hb.
    destruct (after_attempt max_retries s1) as [[e|[ex|]] s2]; [by destruct Hb|done|].
    destruct Hb as [Hlt Hb]. apply (IH (S k)); [lia|lia|done].
Qed.

(** *** Which errors escape *)

Definition escapes (e : exn) (s : State) : Prop :=
  is_recoverable e = false \/ exists t, CMarker t (inl e) ∈ rlog s.

Lemma flushed_of_escapes ts :
  triple (fun _ => True) (flushed_of plan ts : RM (list pystr)) (fun _ _ => True)
    (fun e s => exists t, CMarker t (inl e) ∈ rlog s).
Proof.
  induction ts as [|t ts IH]; simpl; [by apply triple_ret|].
  apply (triple_bind _ _ _ (fun _ _ => True)).
  - apply (triple_stage (CMarker t)). intros s w [e|b] _; simpl; [|done]. exists t. unfold rlog. simpl. set_solver.
  - intros found. apply (triple_bind _ _ _ (fun _ _ => True)); [done|]. intros rest. by apply triple_ret.
Qed.

Lemma recover_escapes e :
  triple (fun _ => True) (recover plan initial_export_tables e : RM unit) (fun _ _ => True) escapes.
Proof.
  unfold recover. destruct (is_recoverable e) eqn:E; simpl; [|apply triple_raise; by left].
  apply (triple_bind _ _ _ (fun _ _ => True)); [by apply triple_modify|]. intros _.
  apply triple_gets_bind. intros working. apply (triple_bind _ _ _ (fun _ _ => True)).
  - unfold drop_flushed. destruct (retry_scope _ working) as [ts|]; [|by apply triple_ret].
    case_match; [|by apply triple_ret]. apply (triple_bind _ _ _ (fun _ _ => True)).
    + eapply triple_post; [eapply triple_pre; [apply flushed_of_escapes|done]|done|]. intros e' s. by right.
    + intros fl. apply (triple_bind _ _ _ (fun _ _ => True)); [by apply triple_modify|]. intros _. by apply triple_ret.
  - intros scope. apply (triple_bind _ _ _ (fun _ _ => True)); [by apply triple_modify|]. intros _.
    apply triple_gets_bind. intros need. by apply triple_modify.
Qed.

Lemma attempt_escapes :
  triple (fun _ => True) (one_attempt plan initial_export_tables : RM bool) (fun _ _ => True) escapes.
Proof.
  unfold one_attempt. apply (triple_bind _ _ _ (fun _ _ => True)); [by apply triple_modify|]. intros _.
  apply (triple_catch _ _ _ (fun _ _ => True)); [intros s _; by destruct (attempt_stages plan s) as [[] ?]|].
  intros e. apply (triple_bind _ _ _ (fun _ _ => True)); [apply recover_escapes|]. intros _. by apply triple_ret.
Qed.

(** the ladder has a pause for every attempt that is followed by another *)
Lemma recovery_loop_escapes fuel k s :
  (k + fuel = S (Z.to_nat max_retries))%nat -> at_attempt k s ->
  let '(r, s') := recovery_loop plan max_retries initial_export_tables fuel s in
  match r with inl e => escapes e s' | inr _ => True end.
Proof.
  revert k s. induction fuel as [|fuel IH]; intros k s Hk Hs; [done|]. simpl. unfold mbind, M_bind.
  pose proof (counted_attempt k _ _ s Hs) as Ha. replace (Z.of_nat k + 1) with (Z.of_nat (S k)) in Ha by lia.
  pose proof (attempt_escapes s I) as He.
  destruct (one_attempt plan initial_export_tables s) as [[e|[]] s1]; [done|done|].
  pose proof (after_attempt_counted k ltac:(lia) s1 Ha) as Hb.
  destruct (after_attempt max_retries s1) as [[e|[ex|]] s2]; [|done|].
  - destruct Hb as [-> _]. by left.
  - destruct Hb as [Hlt Hb]. apply (IH (S k)); [lia|done].
Qed.

(** *** Which tables are accounted for *)

(** loaded by a call of the import that returned, or found flushed *)
Definition accounted (log : list rcall) (t : pystr) : Prop :=
  t ∈ completed_tables \/ (exists ts, CImport ts (inr tt) ∈ log /\ t ∈ ts) \/ CMarker t (inr true) ∈ log.

(** the tables of the reports *)
Definition listed (log : list rcall) : list pystr :=
  flat_map (fun c => match c with CPoll _ (inr job) => job_present job | _ => [] end) log.

(** the tables the next report has to list: those of the last order or of the last report *)
Definition next_expected (exp : list pystr) (c : rcall) : list pystr :=
  match c with CExport ts (inr _) => ts | CPoll _ (inr job) => job_present job | _ => exp end.
Definition expected_after (log : list rcall) : list pystr := foldl next_expected initial_export_tables log.

(** every report lists the tables of the order it reports on, and a job keeps its tables *)
Fixpoint reports_complete (exp : list pystr) (log : list rcall) : Prop :=
  match log with
  | [] => True
  | c :: log' =>
      match c with CPoll _ (inr job) => exp ⊆ job_present job | _ => True end /\
      reports_complete (next_expected exp c) log'
  end.

Lemma reports_complete_snoc exp log c :
  reports_complete exp (log ++ [c]) <->
  reports_complete exp log /\ match c with CPoll _ (inr job) => foldl next_expected exp log ⊆ job_present job | _ => True end.
Proof. revert exp. induction log as [|d log IH]; intros exp; simpl; [tauto|]. rewrite IH. tauto. Qed.

Lemma expected_snoc log c : expected_after (log ++ [c]) = next_expected (expected_after log) c.
Proof. unfold expected_after. by rewrite foldl_app. Qed.

Lemma listed_snoc log c :
  listed (log ++ [c]) = listed log ++ match c with CPoll _ (inr job) => job_present job | _ => [] end.
Proof. unfold listed. rewrite flat_map_app. simpl. by rewrite app_nil_r. Qed.

Lemma accounted_snoc log c t : accounted log t -> accounted (log ++ [c]) t.
Proof. unfold accounted. set_solver. Qed.

(** what is left to do: the tables of [working] once it is known *)
Definition remaining (s : State) : list pystr := default initial_export_tables (rc_working s).

Record tracked (s : State) : Prop := {
  tr_accounted : forall t, t ∈ rc_imported s -> accounted (rlog s) t;
  tr_fresh : rc_working s = None -> rc_imported s = completed_tables /\ listed (rlog s) = [];
  tr_disjoint : forall w t, rc_working s = Some w -> t ∈ w -> t ∉ rc_imported s;
  tr_known : forall w, rc_working s = Some w -> initial_export_tables <> [] \/ exists j job, CPoll j (inr job) ∈ rlog s;
  tr_order : rc_need_post s = true -> rc_export s = remaining s;
  tr_expected : rc_need_post s = false -> remaining s ⊆ expected_after (rlog s);
  tr_covered : reports_complete initial_export_tables (rlog s) -> forall w t, rc_working s = Some w ->
                 t ∈ initial_export_tables ++ listed (rlog s) -> t ∈ rc_imported s \/ t ∈ w
}.

(** a call that orders and reports nothing *)
Definition inert (c : rcall) : Prop := match c with CPoll _ (inr _) | CExport _ (inr _) => False | _ => True end.

Lemma tracked_inert s w c : inert c -> tracked s -> tracked (rc_set_world (w, rlog s ++ [c]) s).
Proof.
  intros Hc [Ha Hf Hd Hk Ho He Hv]. constructor; unfold remaining, rlog in *; simpl in *.
  - intros t Ht. apply accounted_snoc. auto.
  - intros Hw. destruct (Hf Hw) as [-> Hl]. split; [done|]. rewrite listed_snoc, Hl. by destruct c as [|? []| | | |].
  - done.
  - intros ws Hw. destruct (Hk ws Hw) as [?|(j & job & ?)]; [by left|]. right. exists j, job. set_solver.
  - done.
  - intros Hn. specialize (He Hn). rewrite expected_snoc. by destruct c as [? []|? []| | | |].
  - intros Hr ws t Hw Ht. apply reports_complete_snoc in Hr as [Hr _]. apply (Hv Hr ws t Hw).
    rewrite listed_snoc in Ht. by destruct c as [|? []| | | |]; rewrite ?app_nil_r in Ht.
Qed.

Lemma tracked_error s e : tracked s -> tracked (rc_set_error e s).
Proof. intros []. by constructor. Qed.

Lemma tracked_info s i : tracked s -> tracked (rc_add_info i s).
Proof. intros []. by constructor. Qed.

Lemma tracked_order s need :
  tracked s -> (need = false -> rc_need_post s = false) ->
  tracked (rc_set_export (remaining s) need s).
Proof. intros [] Hn. constructor; auto. Qed.

Lemma ensure_tracked :
  triple tracked (ensure_job plan : RM unit) (fun _ s => tracked s /\ rc_need_post s = false) (fun _ => tracked).
Proof.
  unfold ensure_job. apply triple_gets_bind. intros [].
  - apply triple_gets_bind. intros ts.
    apply (triple_bind _ _ _ (fun j s => exists s0 w, tracked s0 /\ rc_need_post s0 = true /\
             s = rc_set_world (w, rlog s0 ++ [CExport (rc_export s0) (inr j)]) s0)).
    + apply (triple_stage (CExport ts)). intros s w [e|j] [[Hs Hn] <-]; simpl; [by apply tracked_inert|]. by exists s, w.
    + intros j. apply triple_modify. intros s (s0 & w & [Ha Hf Hd Hk Ho He Hv] & Hn & ->). split; [|done].
      constructor; unfold remaining, rlog in *; simpl in *; try done.
      * intros t Ht. apply accounted_snoc. auto.
      * intros Hw. destruct (Hf Hw) as [-> Hl]. split; [done|]. by rewrite listed_snoc, Hl.
      * intros ws Hw. destruct (Hk ws Hw) as [?|(j' & job & ?)]; [by left|]. right. exists j', job. set_solver.
      * intros _. rewrite expected_snoc. simpl. by rewrite Ho.
      * intros Hr ws t Hw Ht. apply reports_complete_snoc in Hr as [Hr _]. apply (Hv Hr ws t Hw).
        by rewrite listed_snoc, app_nil_r in Ht.
  - apply triple_ret. tauto.
Qed.

(** learning the tables of a report *)
Lemma tracked_poll s w j job :
  tracked s -> rc_need_post s = false ->
  tracked (rc_set_working (Some (present_of job (rc_imported s))) (rc_set_world (w, rlog s ++ [CPoll j (inr job)]) s)).
Proof.
  intros [Ha Hf Hd Hk Ho He Hv] Hn. unfold present_of. constructor; unfold remaining, rlog in *; simpl in *.
  - intros t Ht. apply accounted_snoc. auto.
  - done.
  - intros ws t [= <-] Ht%list_elem_of_filter. tauto.
  - intros _ _. right. exists j, job. set_solver.
  - intros; congruence.
  - intros _. rewrite expected_snoc. simpl. intros t Ht%list_elem_of_filter. tauto.
  - intros Hr ws t [= <-] Ht. apply reports_complete_snoc in Hr as [Hr Hexp]. fold (expected_after (rc_world s).2) in Hexp.
    destruct (decide (t ∈ rc_imported s)) as [?|Hni]; [by left|right]. apply list_elem_of_filter. split; [done|].
    rewrite listed_snoc, app_assoc in Ht. apply elem_of_app in Ht as [Ht|Ht]; [|done].
    apply Hexp. specialize (He Hn). destruct (rc_working s) as [ws|] eqn:Ew; simpl in He.
    + destruct (Hv Hr ws t eq_refl Ht) as [?|?]; [done|]. by apply He.
    + destruct (Hf eq_refl) as [_ Hl]. rewrite Hl, app_nil_r in Ht. by apply He.
Qed.

(** the tables an import loaded leave the remaining ones *)
Lemma tracked_loaded s ready :
  tracked s -> rc_need_post s = false -> (exists ts, CImport ts (inr tt) ∈ rlog s /\ ready ⊆ ts) ->
  forall w, rc_working s = Some w ->
  tracked (rc_set_working (Some (filter (fun t => t ∉ ready) w)) (rc_add_imported ready s)).
Proof.
  intros [Ha Hf Hd Hk Ho He Hv] Hnp (ts & Hts & Hr) w Hw. constructor; unfold remaining, rlog in *; simpl in *.
  - intros t [Ht|Ht]%append_new_elem; [by apply Ha|]. right. left. exists ts. auto.
  - done.
  - intros ws t [= <-] [Hn Ht]%list_elem_of_filter. rewrite append_new_elem. specialize (Hd w t Hw Ht). tauto.
  - intros ws _. by apply (Hk w).
  - intros; congruence.
  - intros Hn. specialize (He Hn). rewrite Hw in He. simpl in He. intros t [_ Ht]%list_elem_of_filter. by apply He.
  - intros Hrc ws t [= <-] Ht. rewrite append_new_elem, list_elem_of_filter.
    destruct (decide (t ∈ ready)); [tauto|]. destruct (Hv Hrc w t Hw Ht); tauto.
Qed.

Lemma load_tracked job present ready :
  triple (fun s => (tracked s /\ rc_need_post s = false) /\ rc_working s = Some present) (load_ready job present ready : RM unit)
    (fun _ s => tracked s /\ exists w, rc_working s = Some w) (fun _ => tracked).
Proof.
  unfold load_ready. destruct ready as [|t ts]; [apply triple_ret; naive_solver|]. set (ready := t :: ts).
  apply triple_gets_bind. intros jid.
  apply (triple_bind _ _ _ (fun _ s => (tracked s /\ rc_need_post s = false) /\ rc_working s = Some present)).
  { apply (triple_stage (CDownload ready)). intros s w r [[[Hs Hn] Hw] _].
    pose proof (tracked_inert s w (CDownload ready r) I Hs). by destruct r. }
  intros dl. apply (triple_bind _ _ _ (fun _ s => (tracked s /\ rc_need_post s = false) /\ rc_working s = Some present /\
                                          CImport ready (inr tt) ∈ rlog s)).
  { apply (triple_stage (CImport ready)). intros s w r [[Hs Hn] Hw].
    pose proof (tracked_inert s w (CImport ready r) I Hs). destruct r as [e|[]]; simpl; [done|].
    split_and!; try done. unfold rlog. simpl. set_solver. }
  intros _.
  apply (triple_bind _ _ _ (fun _ s => exists s0, tracked s0 /\ rc_need_post s0 = false /\ rc_working s0 = Some present /\
           CImport ready (inr tt) ∈ rlog s0 /\ s = rc_add_imported ready s0)).
  { apply triple_modify. intros s [[Hs Hn] [Hw Hl]]. by exists s. }
  intros _.
  apply (triple_bind _ _ _ (fun _ s => exists s0 i, tracked s0 /\ rc_need_post s0 = false /\ rc_working s0 = Some present /\
           CImport ready (inr tt) ∈ rlog s0 /\ s = rc_add_info i (rc_add_imported ready s0))).
  { apply triple_modify. intros s (s0 & Hs0 & Hn0 & Hw0 & Hl0 & ->). by exists s0, (fst dl). }
  intros _. apply triple_modify. intros s (s0 & i & Hs & Hn & Hw & Hl & ->). split; [|by eexists].
  apply (tracked_info (rc_set_working _ (rc_add_imported ready s0)) i), tracked_loaded; [done|done|by exists ready|done].
Qed.

Lemma attempt_stages_tracked :
  triple tracked (attempt_stages plan : RM bool)
    (fun brk s => tracked s /\ (brk = true -> rc_working s = Some [])) (fun _ => tracked).
Proof.
  unfold attempt_stages.
  apply (triple_bind _ _ _ (fun _ s => tracked s /\ rc_need_post s = false)); [apply ensure_tracked|].
  intros _. apply triple_gets_bind. intros jid.
  apply (triple_bind _ _ _ (fun job s => exists s0 w, tracked s0 /\ rc_need_post s0 = false /\
           s = rc_set_world (w, rlog s0 ++ [CPoll jid (inr job)]) s0)).
  { apply (triple_stage (CPoll jid)). intros s w [e|job] [[Hs Hn] _]; simpl; [by apply tracked_inert|]. by exists s, w. }
  intros job. apply triple_gets_bind. intros imported.
  apply (triple_bind _ _ _ (fun _ s => (tracked s /\ rc_need_post s = false) /\ rc_working s = Some (present_of job imported))).
  { apply triple_modify. intros s [(s0 & w & Hs & Hn & ->) <-]. split; [split; [by apply (tracked_poll s0 w jid job)|done]|done]. }
  intros _. apply (triple_bind _ _ _ (fun _ s => tracked s /\ exists w, rc_working s = Some w)); [apply load_tracked|].
  intros _. apply triple_gets_bind. intros [|t ts].
  - apply triple_ret. intros s [[Hs [w Hw]] E]. rewrite Hw in E. simpl in E. by subst w.
  - apply (triple_bind _ _ _ (fun _ s => tracked s /\ remaining s = t :: ts)).
    { apply triple_modify. intros s [[Hs [w Hw]] E]. rewrite Hw in E. simpl in E. subst w.
      split; [by apply tracked_error|]. unfold remaining. simpl. by rewrite Hw. }
    intros _. apply (triple_bind _ _ _ (fun _ s => tracked s)); [|intros _; apply triple_ret; naive_solver].
    apply triple_modify. intros s [Hs <-]. by apply tracked_order.
Qed.

(** dropping the tables whose marker is set *)
Lemma flushed_tracked (P : State -> Prop) ts :
  (forall s w c, inert c -> P s -> P (rc_set_world (w, rlog s ++ [c]) s)) ->
  triple P (flushed_of plan ts : RM (list pystr))
    (fun fl s => P s /\ forall t, t ∈ fl -> CMarker t (inr true) ∈ rlog s) (fun _ _ => True).
Proof.
  revert P. induction ts as [|t ts IH]; intros P HP; simpl; [apply triple_ret; set_solver|].
  apply (triple_bind _ _ _ (fun (found : bool) s => P s /\ (found = true -> CMarker t (inr true) ∈ rlog s))).
  { apply (triple_stage (CMarker t)). intros s w [e|b] Hs; simpl; [done|].
    split; [by apply HP|]. intros ->. unfold rlog. simpl. set_solver. }
  intros found. eapply triple_bind.
  - apply (IH (fun s => P s /\ (found = true -> CMarker t (inr true) ∈ rlog s))).
    intros s w c Hc [Hs Hf]. split; [by apply HP|]. intros Ht. specialize (Hf Ht). unfold rlog in *. simpl. set_solver.
  - intros rest. apply triple_ret. intros s [[Hs Hf] Hr]. split; [done|]. intros t'. destruct found; [|by apply Hr].
    intros [->|?]%elem_of_cons; auto.
Qed.

Hypothesis initial_not_completed : forall t, t ∈ initial_export_tables -> t ∉ completed_tables.

Lemma tracked_scope s scope fl :
  tracked s -> retry_scope initial_export_tables (rc_working s) = Some scope ->
  (forall t, t ∈ fl -> CMarker t (inr true) ∈ rlog s) ->
  let s' := rc_set_working (Some (filter (fun t => t ∉ fl) scope)) (rc_add_imported fl s) in
  forall need, (need = false -> rc_need_post s' = false) -> tracked (rc_set_export (remaining s') need s').
Proof.
  intros [Ha Hf Hd Hk Ho He Hv] Hsc Hfl s' need Hneed.
  assert (scope = remaining s) as Hrem.
  { unfold retry_scope, remaining in *. destruct (rc_working s); [by simplify_eq|]. simpl. by destruct initial_export_tables; simplify_eq. }
  assert (rc_working s = None -> initial_export_tables <> []) as Hne.
  { intros Hw. rewrite Hw in Hsc. simpl in Hsc. intros Hi. by rewrite Hi in Hsc. }
  constructor; subst s'; unfold remaining, rlog in *; simpl in *.
  - intros t [Ht|Ht]%append_new_elem; [by apply Ha|]. right. right. by apply Hfl.
  - done.
  - intros ws t [= <-] [Hn Ht]%list_elem_of_filter. rewrite append_new_elem. subst scope.
    destruct (rc_working s) as [w|] eqn:Ew; simpl in Ht.
    + specialize (Hd w t eq_refl Ht). tauto.
    + destruct (Hf eq_refl) as [-> _]. specialize (initial_not_completed t Ht). tauto.
  - intros ws _. destruct (rc_working s) as [w|] eqn:Ew; [by apply (Hk w)|]. left. by apply Hne.
  - done.
  - intros Hn. specialize (He (Hneed Hn)). subst scope. intros t [_ Ht]%list_elem_of_filter. by apply He.
  - intros Hrc ws t [= <-] Ht. rewrite append_new_elem, list_elem_of_filter. subst scope.
    destruct (decide (t ∈ fl)); [tauto|]. destruct (rc_working s) as [w|] eqn:Ew; simpl.
    + destruct (Hv Hrc w t eq_refl Ht); tauto.
    + destruct (Hf eq_refl) as [_ Hl]. rewrite Hl, app_nil_r in Ht. tauto.
Qed.


Lemma filter_notin_nil (l : list pystr) : filter (fun t => t ∉ []) l = l.
Proof. induction l as [|x l IH]; [done|]. rewrite filter_cons, IH. by rewrite decide_True by set_solver. Qed.

(** the state after the tables with a marker are dropped *)
Definition dropped (sc : option (list pystr)) (s : State) : Prop :=
  match sc with
  | Some l => exists s0 ts fl, tracked s0 /\ retry_scope initial_export_tables (rc_working s0) = Some ts /\
                (forall t, t ∈ fl -> CMarker t (inr true) ∈ rlog s0) /\ s = rc_add_imported fl s0 /\
                l = filter (fun t => t ∉ fl) ts
  | None => tracked s /\ rc_working s = None
  end.

Lemma drop_flushed_tracked working :
  triple (fun s => tracked s /\ rc_working s = working)
    (drop_flushed plan (retry_scope initial_export_tables working) : RM (option (list pystr)))
    dropped (fun _ _ => True).
Proof.
  unfold drop_flushed. destruct (retry_scope initial_export_tables working) as [ts|] eqn:Er.
  - destruct (st_has_tracker && negb (str_eqb (pl_run_id plan) [])).
    + eapply triple_bind.
      * apply (flushed_tracked (fun s => tracked s /\ rc_working s = working)).
        intros s w c Hc [Hs Hw]. split; [by apply tracked_inert|done].
      * intros fl. apply (triple_bind _ _ _ (fun _ => dropped (Some (filter (fun t => t ∉ fl) ts))));
          [|intros _; by apply triple_ret].
        apply triple_modify. intros s [[Hs Hw] Hfl]. exists s, ts, fl. by rewrite Hw.
    + apply triple_ret. intros s [Hs Hw]. exists s, ts, []. rewrite Hw. split_and!; try done; [set_solver|by destruct s|].
      by rewrite filter_notin_nil.
  - apply triple_ret. intros s [Hs Hw]. split; [done|]. unfold retry_scope in Er. by destruct working.
Qed.

Lemma recover_tracked e :
  triple tracked (recover plan initial_export_tables e : RM unit) (fun _ => tracked) (fun _ _ => True).
Proof.
  unfold recover. destruct (is_recoverable e); simpl; [|by apply triple_raise].
  apply (triple_bind _ _ _ (fun _ => tracked)); [apply triple_modify; intros s; apply tracked_error|]. intros _.
  apply triple_gets_bind. intros working. eapply triple_bind; [apply drop_flushed_tracked|]. intros sc.
  apply (triple_bind _ _ _ (fun _ s => exists s0, dropped sc s0 /\ s = rc_set_working sc s0)).
  { apply triple_modify. eauto. }
  intros _. apply triple_gets_bind. intros need. apply triple_modify. intros s [(s0 & Hd & ->) Hn].
  change (default initial_export_tables sc) with (remaining (rc_set_working sc s0)).
  destruct sc as [l|]; simpl in Hd.
  - destruct Hd as (s1 & ts & fl & Hs & Hr & Hfl & -> & ->). apply (tracked_scope s1 ts fl Hs Hr Hfl).
    simpl in *. destruct need; [done|]. by intros _.
  - destruct Hd as [Hs Hw]. apply tracked_order; [destruct s0, Hs; simpl in *; subst; by constructor|].
    destruct need; [done|]. by intros _.
Qed.

Lemma attempt_tracked :
  triple tracked (one_attempt plan initial_export_tables : RM bool)
    (fun brk s => tracked s /\ (brk = true -> rc_working s = Some [])) (fun _ _ => True).
Proof.
  unfold one_attempt. apply (triple_bind _ _ _ (fun _ => tracked)).
  { apply triple_modify. intros s []. by constructor. }
  intros _. apply (triple_catch _ _ _ (fun _ => tracked)); [apply attempt_stages_tracked|].
  intros e. apply (triple_bind _ _ _ (fun _ => tracked)); [apply recover_tracked|]. intros _. by apply triple_ret.
Qed.

Lemma cancelled_tracked (P : State -> Prop) :
  (forall s w, P s -> P (rc_set_world (w, rlog s) s)) ->
  triple P (cancelled_now : RM bool) (fun _ => P) (fun _ _ => True).
Proof.
  intros HP s Hs. unfold cancelled_now. simpl. specialize (HP s). unfold rlog in HP. destruct (rc_world s) as [w log].
  destruct (st_cancelled w) as [b w']. by apply HP.
Qed.

Definition exit_ok (stop : option bool) (s : State) : Prop :=
  tracked s /\ match stop with
               | Some false => rc_working s = Some []
               | Some true => rc_working s <> Some []
               | None => True
               end.

Lemma after_tracked : triple tracked (after_attempt max_retries : RM (option bool)) exit_ok (fun _ _ => True).
Proof.
  assert (forall s w, tracked s -> tracked (rc_set_world (w, rlog s) s)) as Hw by (intros s w []; by constructor).
  unfold after_attempt. apply triple_gets_bind. intros working.
  destruct (decide (working = Some [])) as [->|Hne]; [apply triple_ret; by intros s []|].
  assert (triple (fun s => tracked s /\ rc_working s = working)
    (attempt ← (gets rc_attempt : RM Z);
     if max_retries <? attempt then mret (Some true)
     else
       cancelled ← cancelled_now;
       if (cancelled : bool) then raise RecoveryCancelled
       else
         match backoff_ladder max_retries !! Z.to_nat (attempt - 1) with
         | None => raise (RuntimeError (u"list index out of range"))
         | Some delay =>
             _ ← modify (fun s => rc_set_world (st_sleep delay (rc_world s)) s);
             cancelled ← cancelled_now;
             if (cancelled : bool) then raise RecoveryCancelled else mret None
         end) exit_ok (fun _ _ => True)) as Hmain; [|by destruct working as [[|t ts]|]].
  apply triple_gets_bind. intros attempt. destruct (max_retries <? attempt).
  { apply triple_ret. intros s [[Hs Hwk] _]. split; [done|congruence]. }
  apply (triple_bind _ _ _ (fun _ => tracked)).
  { apply (triple_pre _ tracked); [by apply cancelled_tracked|tauto]. }
  intros []; [by apply triple_raise|]. destruct (_ !! _) as [delay|]; [|by apply triple_raise].
  apply (triple_bind _ _ _ (fun _ => tracked)).
  { apply triple_modify. intros s Hs. unfold st_sleep. simpl. pose proof (tracked_inert s) as Hi. unfold rlog in Hi.
    destruct (rc_world s) as [w log]. by apply (Hi (st_sleep delay w) (CSleep delay)). }
  intros _. apply (triple_bind _ _ _ (fun _ => tracked)); [by apply cancelled_tracked|].
  intros []; [by apply triple_raise|]. by apply triple_ret.
Qed.

Lemma loop_tracked fuel :
  triple tracked (recovery_loop plan max_retries initial_export_tables fuel : RM (option bool)) exit_ok (fun _ _ => True).
Proof.
  induction fuel as [|fuel IH]; simpl; [by apply triple_ret|].
  eapply triple_bind; [apply attempt_tracked|]. intros [].
  - apply triple_ret. intros s [Hs Hw]. split; [done|by apply Hw].
  - apply (triple_bind _ _ _ exit_ok); [apply (triple_pre _ tracked); [apply after_tracked|tauto]|].
    intros [b|]; [by apply triple_ret|]. apply (triple_pre _ tracked); [done|by intros s []].
Qed.

(** The run with an empty log. *)
Definition traced_run (w : W) : (exn + option RecoveryResult) * State :=
  run_with_recovery plan max_retries initial_export_tables initial_job_id completed_tables (w, []).

Lemma traced_run_counted w : let '(r, s) := traced_run w in r <> inr None /\ within_ladder s.
Proof.
  unfold traced_run, run_with_recovery.
  pose proof (recovery_loop_counted (recovery_fuel max_retries) 0
    (initial_state initial_export_tables initial_job_id completed_tables (w, []))) as H.
  specialize (H eq_refl ltac:(unfold recovery_fuel; lia)).
  assert (at_attempt 0 (initial_state initial_export_tables initial_job_id completed_tables (w, []))) as H0.
  { split; [|done]. intros k. unfold rlog. simpl. unfold calls. simpl. lia. }
  specialize (H H0). by destruct (recovery_loop _ _ _ _ _) as [[e|[ex|]] s]; destruct H.
Qed.
Lemma initial_tracked (w : W) :
  tracked (initial_state initial_export_tables initial_job_id completed_tables (w, [])).
Proof. by constructor; unfold initial_state, accounted, remaining, rlog; simpl; auto. Qed.

Lemma traced_run_escapes w : let '(r, s) := traced_run w in match r with inl e => escapes e s | inr _ => True end.
Proof.
  unfold traced_run, run_with_recovery.
  pose proof (recovery_loop_escapes (recovery_fuel max_retries) 0
    (initial_state initial_export_tables initial_job_id completed_tables (w, [])) eq_refl) as H.
  assert (at_attempt 0 (initial_state initial_export_tables initial_job_id completed_tables (w, []))) as H0.
  { split; [|done]. intros k. unfold rlog. simpl. unfold calls. simpl. lia. }
  specialize (H H0). by destruct (recovery_loop _ _ _ _ _) as [[e|[ex|]] s].
Qed.

(** C17: every import run ends: it returns a result or raises, after at most one
    attempt more than it has retries.  Its pauses are the ladder 30, 60, 120, ...
    cut after the retries it made, each stage is called at most once per
    attempt, and an exception that leaves it is not recoverable - a recoverable
    error of a stage never escapes - unless reading a progress marker raised it. *)
Theorem recovery_terminates (w : W) :
  let '(outcome, s) := traced_run w in
  outcome <> inr None /\
  (exists k, (k <= Z.to_nat max_retries)%nat /\
     sleeps (rlog s) = (fun n => 30 * 2 ^ Z.of_nat n) <$> seq 0 k /\
     forall st, (calls st (rlog s) <= S k)%nat) /\
  (forall e, outcome = inl e -> is_recoverable e = false \/ exists t, CMarker t (inl e) ∈ rlog s).
Proof.
  pose proof (traced_run_counted w) as Hc. pose proof (traced_run_escapes w) as He.
  destruct (traced_run w) as [outcome s]. destruct Hc as [Hn (k & Hk & HL & Hcalls)]. split; [done|]. split.
  - exists k. split; [done|]. split; [|done]. rewrite HL. unfold backoff_ladder. by rewrite <- fmap_take, take_seq, Nat.min_l.
  - by intros e ->.
Qed.

Lemma traced_run_loaded (w : W) (r : RecoveryResult) (s : State) :
  traced_run w = (inr (Some r), s) ->
  (forall t, t ∈ rr_imported r -> accounted (rlog s) t) /\
  (u"*" ∉ completed_tables -> forall t, t ∈ rr_permanently_failed r -> t ∉ rr_imported r) /\
  (rr_permanently_failed r = [] ->
     (initial_export_tables <> [] \/ exists j job, CPoll j (inr job) ∈ rlog s) /\
     (reports_complete initial_export_tables (rlog s) ->
      forall t, t ∈ initial_export_tables ++ listed (rlog s) -> t ∈ rr_imported r)).
Proof.
  intros Hrun. unfold traced_run, run_with_recovery in Hrun.
  pose proof (loop_tracked (recovery_fuel max_retries) (initial_state initial_export_tables initial_job_id completed_tables (w, []))
    (initial_tracked w)) as H.
  destruct (recovery_loop _ _ _ _ _) as [[e|[ex|]] s1]; [done| |done]. injection Hrun as <- <-.
  destruct H as [[Ha Hf Hd Hk Ho He Hv] Hex]. unfold recovery_result, permanently_failed_of. simpl.
  split; [done|]. destruct ex; split.
  - intros Hstar. destruct (rc_working s1) as [ws|] eqn:Ew; [intros t; by apply Hd|]. destruct (Hf eq_refl) as [-> _].
    intros t. destruct initial_export_tables as [|x l] eqn:Ei; [set_solver|]. apply initial_not_completed.
  - intros Hnil. exfalso. destruct (rc_working s1) as [ws|]; [by subst ws|]. by destruct initial_export_tables.
  - set_solver.
  - intros _. split; [by apply (Hk [])|]. intros Hr t Ht. destruct (Hv Hr [] t Hex Ht); [done|set_solver].
Qed.

(** C16: when an import run returns, every table it reports as imported was
    completed before, loaded by an import that returned, or found with its
    progress marker, and none of them is reported as failed as well.  If no
    table failed permanently the run learned its tables (or was given them), and
    - if the reports list what they were asked for - every requested and every
    reported table is imported. *)
Theorem recovery_accounts (w : W) (r : RecoveryResult) (s : State) :
  u"*" ∉ completed_tables ->
  traced_run w = (inr (Some r), s) ->
  (forall t, t ∈ rr_imported r -> accounted (rlog s) t) /\
  (forall t, t ∈ rr_permanently_failed r -> t ∉ rr_imported r) /\
  (rr_permanently_failed r = [] ->
     (initial_export_tables <> [] \/ exists j job, CPoll j (inr job) ∈ rlog s) /\
     (reports_complete initial_export_tables (rlog s) ->
      forall t, t ∈ initial_export_tables ++ listed (rlog s) -> t ∈ rr_imported r)).
Proof. intros Hstar Hrun. destruct (traced_run_loaded w r s Hrun) as (Ha & Hf & Hc). auto. Qed.
End RecoveryFacts.

(** ** What every stage keeps, the run keeps *)
Section Keeps.
Context {W : Type} `{!ImportStages W}.
Context (plan : ImportPlan) (max_retries : Z) (initial_export_tables : list pystr) (initial_job_id : pystr).
Context (completed_tables : list pystr).
Context (I : W -> Prop).

Definition stage_keeps {A} (f : method W exn A) : Prop := forall w, I w -> I (f w).2.

Record stages_keep : Prop := {
  sk_export : forall ts, stage_keeps (st_export ts plan);
  sk_poll : forall j, stage_keeps (st_poll j);
  sk_download : forall job ts j, stage_keeps (st_download job ts j);
  sk_import : forall j ts d, stage_keeps (st_import j ts d);
  sk_marker : forall t, stage_keeps (st_marker (pl_run_id plan) t);
  sk_cancelled : forall w, I w -> I (st_cancelled w).2;
  sk_sleep : forall n w, I w -> I (st_sleep n w)
}.
Context (Hk : stages_keep).

Abbreviation keeps m := (stays (fun s => I (rc_world s)) m).

Lemma keeps_modify (f : RecState W -> RecState W) : (forall s, rc_world (f s) = rc_world s) -> keeps (modify f : M _ exn unit).
Proof. intros Hf. apply stays_modify. intros s. by rewrite Hf. Qed.

Lemma keeps_stage {A} (f : method W exn A) : stage_keeps f -> keeps (on_stage f).
Proof. intros Hf s Hs. unfold on_stage. specialize (Hf _ Hs). by destruct (f (rc_world s)) as [[] ?]. Qed.

Lemma keeps_cancelled : keeps cancelled_now.
Proof. intros s Hs. unfold cancelled_now. pose proof (sk_cancelled Hk _ Hs) as H. by destruct (st_cancelled (rc_world s)). Qed.

Lemma keeps_flushed ts : keeps (flushed_of plan ts).
Proof. induction ts as [|t ts IH]; simpl; stays_with ltac:(first [exact IH | apply keeps_stage, Hk]). Qed.

Lemma keeps_attempt : keeps (one_attempt plan initial_export_tables).
Proof.
  unfold one_attempt, attempt_stages, ensure_job, load_ready, recover, drop_flushed.
  stays_with ltac:(first [by apply keeps_modify | apply keeps_flushed | apply keeps_stage; apply Hk]).
Qed.

Lemma keeps_after : keeps (after_attempt max_retries).
Proof.
  unfold after_attempt.
  stays_with ltac:(first [apply keeps_cancelled | apply stays_modify; intros s Hs; by apply Hk]).
Qed.

Lemma keeps_loop fuel : keeps (recovery_loop plan max_retries initial_export_tables fuel).
Proof. induction fuel as [|fuel IH]; simpl; stays_with ltac:(first [exact IH | apply keeps_attempt | apply keeps_after]). Qed.

Lemma recovery_run_keeps w : I w ->
  I (rc_world (run_with_recovery plan max_retries initial_export_tables initial_job_id completed_tables w).2).
Proof.
  intros Hw. unfold run_with_recovery.
  pose proof (keeps_loop (recovery_fuel max_retries) (initial_state initial_export_tables initial_job_id completed_tables w) Hw) as H.
  by destruct (recovery_loop _ _ _ _ _) as [[e|[ex|]] s].
Qed.
End Keeps.

(** ** What no stage raises, the run does not raise *)

Definition throws {S A} (X : exn -> Prop) (m : M S exn A) : Prop := triple (fun _ => True) m (fun _ _ => True) (fun e _ => X e).

Section Throws.
Context {W : Type} `{!ImportStages W}.
Context (plan : ImportPlan) (max_retries : Z) (initial_export_tables : list pystr) (initial_job_id : pystr).
Context (completed_tables : list pystr).
Context (X : exn -> Prop).

Record stages_throw : Prop := {
  th_export : forall ts, throws X (st_export ts plan);
  th_poll : forall j, throws X (st_poll j);
  th_download : forall job ts j, throws X (st_download job ts j);
  th_import : forall j ts d, throws X (st_import j ts d);
  th_marker : forall t, throws X (st_marker (pl_run_id plan) t)
}.
Context (Ht : stages_throw) (Hcancel : X RecoveryCancelled) (Hindex : X (RuntimeError (u"list index out of range"))).

Lemma throws_bind {S A B} (m : M S exn A) (f : A -> M S exn B) : throws X m -> (forall a, throws X (f a)) -> throws X (m ≫= f).
Proof. intros Hm Hf. by apply (triple_bind _ _ _ (fun _ _ => True)). Qed.

Lemma throws_stage {A} (f : method W exn A) : throws X f -> throws X (on_stage f).
Proof. intros Hf s _. unfold on_stage. specialize (Hf (rc_world s) I). by destruct (f (rc_world s)) as [[] ?]. Qed.

Ltac throws_with tac :=
  repeat first
    [ tac | apply throws_bind; [|intros ?] | by (intros s _) | apply throws_stage; apply Ht | case_match ].

Lemma throws_flushed ts : throws X (flushed_of plan ts).
Proof. induction ts as [|t ts IH]; simpl; throws_with ltac:(exact IH). Qed.

Lemma throws_attempt : throws X (one_attempt plan initial_export_tables).
Proof.
  unfold one_attempt. apply throws_bind; [by intros s _|]. intros _. apply (triple_catch _ _ _ (fun e _ => X e)).
  - unfold attempt_stages, ensure_job, load_ready. throws_with fail.
  - intros e. intros s He. unfold recover, drop_flushed. revert s He.
    match goal with |- forall s, X e -> match ?m s with _ => _ end => enough (X e -> throws X m) as H by (intros s He; by apply H) end.
    intros He. throws_with ltac:(apply throws_flushed).
Qed.

Lemma throws_after : throws X (after_attempt max_retries).
Proof.
  unfold after_attempt. throws_with ltac:(intros s _; unfold cancelled_now; by destruct (st_cancelled _)).
Qed.

Lemma throws_loop fuel : throws X (recovery_loop plan max_retries initial_export_tables fuel).
Proof. induction fuel as [|fuel IH]; simpl; throws_with ltac:(first [exact IH | apply throws_attempt | apply throws_after]). Qed.

Lemma run_throws w e s :
  run_with_recovery plan max_retries initial_export_tables initial_job_id completed_tables w = (inl e, s) -> X e.
Proof.
  unfold run_with_recovery.
  pose proof (throws_loop (recovery_fuel max_retries) (initial_state initial_export_tables initial_job_id completed_tables w) I) as H.
  destruct (recovery_loop _ _ _ _ _) as [[e'|[ex|]] s1]; [|done..]. by intros [= <- _].
Qed.
End Throws.

(** writing the calls down changes nothing *)
Lemma traced_keep {W} `{!ImportStages W} plan (I : W -> Prop) :
  stages_keep plan I -> stages_keep (W := W * list rcall) plan (fun wl => I wl.1).
Proof.
  intros Hk.
  assert (forall A (c : exn + A -> rcall) (f : method W exn A), stage_keeps I f -> stage_keeps (fun wl => I wl.1) (log_call c f)) as Hl.
  { intros A c f Hf [w log] Hw. unfold log_call. specialize (Hf w Hw). by destruct (f w). }
  constructor; intros; try (apply Hl, Hk).
  - destruct w as [w log]. simpl in *. pose proof (sk_cancelled _ _ Hk w) as Hc. destruct (st_cancelled w). by apply Hc.
  - destruct w as [w log]. simpl in *. by apply Hk.
Qed.

Lemma traced_throw {W} `{!ImportStages W} plan X : stages_throw (W := W) plan X -> stages_throw (W := W * list rcall) plan X.
Proof.
  intros Ht.
  assert (forall A (c : exn + A -> rcall) (f : method W exn A), throws X f -> throws X (log_call c f)) as Hl.
  { intros A c f Hf [w log] _. unfold log_call. specialize (Hf w I). by destruct (f w) as [[] ?]. }
  constructor; intros; apply Hl, Ht.
Qed.

Lemma traced_run_keeps {W} `{!ImportStages W} plan max_retries tables job completed (I : W -> Prop) w :
  stages_keep plan I -> I w -> I (rc_world (traced_run plan max_retries tables job completed w).2).1.
Proof. intros Hk Hw. unfold traced_run. by apply (recovery_run_keeps plan max_retries tables job completed (fun wl => I wl.1) (traced_keep plan I Hk) (w, [])). Qed.

(** ** The export times a run reports *)

(** the times of the last download, until its import has returned *)
Definition info_step (acc : list TableExportInfo * list TableExportInfo) (c : rcall) :=
  match c with
  | CDownload _ (inr (infos, _)) => (acc.1, infos)
  | CImport _ (inr _) => (acc.1 ++ acc.2, [])
  | _ => acc
  end.

(** the times of the downloads whose import returned *)
Definition loaded_infos (log : list rcall) : list TableExportInfo := (foldl info_step ([], []) log).1.

Lemma info_snoc log c : foldl info_step ([], []) (log ++ [c]) = info_step (foldl info_step ([], []) log) c.
Proof. by rewrite foldl_app. Qed.

Section Infos.
Context {W : Type} `{!ImportStages W}.
Context (plan : ImportPlan) (max_retries : Z) (initial_export_tables : list pystr) (initial_job_id : pystr).
Context (completed_tables : list pystr).
Abbreviation State := (RecState (W * list rcall)).
Abbreviation RM A := (M State exn A).

Definition noted (s : State) : Prop := rc_info s = loaded_infos (rc_world s).2.

Lemma noted_stage {A} (c : exn + A -> rcall) (f : method W exn A) :
  (forall r, match c r with CImport _ (inr _) => False | _ => True end) -> stays noted (on_stage (log_call c f) : RM A).
Proof.
  intros Hc. apply (triple_stage c). intros s w r Hs. specialize (Hc r). unfold noted, loaded_infos, rlog in *.
  enough ((foldl info_step ([], []) ((rc_world s).2 ++ [c r])).1 = rc_info s) as H by (by destruct r; simpl; rewrite H).
  rewrite info_snoc, Hs. by destruct (c r) as [| |? [|[]]|? []| |].
Qed.

Lemma noted_modify (f : State -> State) :
  (forall s, rc_world (f s) = rc_world s) -> (forall s, rc_info (f s) = rc_info s) -> stays noted (modify f : RM unit).
Proof. intros Hw Hi. apply stays_modify. intros s. unfold noted. by rewrite Hw, Hi. Qed.

Lemma noted_load job present ready : stays noted (load_ready job present ready : RM unit).
Proof.
  unfold load_ready. destruct ready as [|t ts]; [apply stays_ret|]. set (ready := t :: ts).
  apply stays_bind; [apply stays_gets|]. intros job_id.
  apply (triple_bind _ _ _ (fun dl s => foldl info_step ([], []) (rlog s) = (rc_info s, dl.1))).
  { apply (triple_stage (CDownload ready)). intros s w r Hs. unfold noted, loaded_infos, rlog in *.
    destruct r as [e|[infos dir]]; simpl; by rewrite info_snoc, Hs. }
  intros dl. apply (triple_bind _ _ _ (fun _ s => foldl info_step ([], []) (rlog s) = (rc_info s ++ dl.1, []))).
  { apply (triple_stage (CImport ready)). intros s w r Hs. unfold noted, loaded_infos, rlog in *.
    destruct r as [e|[]]; simpl; by rewrite info_snoc, Hs. }
  intros _. intros s Hs. unfold noted, loaded_infos, rlog in *. simpl. by rewrite Hs.
Qed.

Lemma noted_flushed ts : stays noted (flushed_of plan ts : RM _).
Proof. induction ts as [|t ts IH]; simpl; stays_with ltac:(first [exact IH | by apply noted_stage]). Qed.

Lemma noted_attempt : stays noted (one_attempt plan initial_export_tables : RM bool).
Proof.
  unfold one_attempt, attempt_stages, ensure_job, recover, drop_flushed.
  stays_with ltac:(first [apply noted_load | by apply noted_modify | apply noted_flushed | by apply noted_stage]).
Qed.

Lemma noted_after : stays noted (after_attempt max_retries : RM _).
Proof.
  unfold after_attempt.
  stays_with ltac:(first
    [ intros s Hs; unfold cancelled_now, noted in *; destruct (rc_world s) as [w log]; simpl; by destruct (st_cancelled w)
    | apply stays_modify; intros s; unfold noted, loaded_infos; destruct (rc_world s) as [w log]; simpl; by rewrite info_snoc ]).
Qed.

Lemma noted_loop fuel : stays noted (recovery_loop plan max_retries initial_export_tables fuel : RM _).
Proof. induction fuel as [|fuel IH]; simpl; stays_with ltac:(first [exact IH | apply noted_attempt | apply noted_after]). Qed.

(** a result holds the times of what was downloaded and imported *)
Lemma result_infos w r s :
  traced_run plan max_retries initial_export_tables initial_job_id completed_tables w = (inr (Some r), s) ->
  rr_table_export_info r = loaded_infos (rc_world s).2.
Proof.
  unfold traced_run, run_with_recovery.
  pose proof (noted_loop (recovery_fuel max_retries)
    (initial_state initial_export_tables initial_job_id completed_tables (w, [])) eq_refl) as H.
  destruct (recovery_loop _ _ _ _ _) as [[e|[ex|]] s1]; [done| |done]. by intros [= <- <-].
Qed.
End Infos.

(** ** Which downloads look expired *)

Lemma substr_in_middle p a b : substr_in p (a ++ p ++ b) = true.
Proof.
  induction a as [|x a IH].
  - destruct p as [|c p]; [by destruct b|]. simpl. by rewrite Z.eqb_refl, startswith_app.
  - simpl. by rewrite IH, orb_true_r.
Qed.

(** an error that names an export file of March 2024 looks like an expired URL,
    whatever its status: the name holds the digits 403 *)
Theorem march_names_look_expired (before after : pystr) :
  _download_urls_expired (RuntimeError (before ++ u"/20240315" ++ after)) = true.
Proof.
  unfold _download_urls_expired. cbn [exn_str orb]. unfold lower_full. rewrite !flat_map_app.
  change (flat_map _ (u"/20240315")) with (u"/202" ++ u"403" ++ u"15"). rewrite <- !app_assoc, app_assoc.
  by rewrite substr_in_middle.
Qed.

(** ** Scripted worlds *)

(** the answers to the requests in order, and the tables whose marker is set *)
Record script := mk_script { sc_polls : list (exn + ExportJobResponse); sc_imports : list (exn + unit); sc_marked : list pystr }.

Definition script_stages : ImportStages script := {|
  st_export _ _ := fun w => (inr (u"job"), w);
  st_poll _ := fun w =>
    match sc_polls w with
    | [] => (inl (RuntimeError (u"no report")), w)
    | r :: rs => (r, mk_script rs (sc_imports w) (sc_marked w))
    end;
  st_download _ _ _ := fun w => (inr ([], u"dir"), w);
  st_import _ _ _ := fun w =>
    match sc_imports w with
    | [] => (inr tt, w)
    | r :: rs => (r, mk_script (sc_polls w) rs (sc_marked w))
    end;
  st_has_tracker := true;
  st_marker _ t := fun w => (inr (bool_decide (t ∈ sc_marked w)), w);
  st_cancelled := fun w => (false, w);
  st_sleep _ := fun w => w
|}.

Definition report (status : list (pystr * pystr)) : ExportJobResponse :=
  mk_job true ((fun '(t, st) => (t, mk_table_data [] st [] (u"1"))) <$> status).

Definition example_plan : ImportPlan := mk_plan [] [] None (u"run").

(** [customer] is loaded at once; [order] fails in the export, then the load of
    its second export breaks off, then it is loaded *)
Definition example_script : script :=
  mk_script
    [inr (report [(u"customer", u"Completed"); (u"order", u"Failed")]);
     inr (report [(u"order", u"Completed")]); inr (report [(u"order", u"Completed")])]
    [inr tt; inl (ConnectionError (u"reset")); inr tt] [].

Abbreviation example_run :=
  (traced_run (W:=script) (ImportStages0:=script_stages) example_plan 5 [] [] [] example_script).

#[export] Instance reports_complete_dec exp log : Decision (reports_complete exp log).
Proof.
  revert exp. induction log as [|c log IH]; intros exp; simpl; [apply _|].
  apply and_dec; [|apply IH]. destruct c as [|? []| | | |]; apply _.
Defined.

Lemma example_run_facts :
  match example_run with
  | (inr (Some r), s) =>
      bool_decide (rr_permanently_failed r = [] /\ sleeps (rlog s) = [30; 60] /\ reports_complete [] (rlog s) /\
                   u"customer" ∈ listed (rlog s) /\ u"order" ∈ listed (rlog s)) = true
  | _ => False
  end.
Proof. by vm_compute. Qed.

Lemma recovery_accounts_witness :
  exists r s, example_run = (inr (Some r), s) /\ rr_permanently_failed r = [] /\
    sleeps (rlog s) = [30; 60] /\ u"customer" ∈ rr_imported r /\ u"order" ∈ rr_imported r.
Proof.
  pose proof example_run_facts as F. destruct example_run as [[e|[r|]] s] eqn:E; [by clear E| |by clear E].
  apply bool_decide_eq_true_1 in F as (Hp & Hs & Hr & Hc & Ho).
  exists r, s. split; [reflexivity|]. split; [exact Hp|]. split; [exact Hs|].
  destruct (recovery_accounts (ImportStages0:=script_stages) example_plan 5 [] [] []
    (fun t Ht => False_ind _ (not_elem_of_nil t Ht)) example_script r s (not_elem_of_nil _) E) as (_ & _ & H).
  destruct (H Hp) as [_ H']. split; by apply (H' Hr).
Defined.

(** a table that the service does not list is forgotten: when a report lists
    nothing but tables that are imported already, the run ends at once and as a
    success, whatever tables it was still working on. *)
Theorem unlisted_tables_forgotten {W} `{!ImportStages W} (plan : ImportPlan) (max_retries : Z)
    (initial_export_tables : list pystr) (fuel : nat) (s : RecState W) (ws : list pystr) (job : ExportJobResponse) (w : W) :
  rc_need_post s = false -> rc_working s = Some ws ->
  st_poll (rc_job s) (rc_world s) = (inr job, w) ->
  (forall t, t ∈ job_present job -> t ∈ rc_imported s) ->
  exists s', recovery_loop plan max_retries initial_export_tables (S fuel) s = (inr (Some false), s') /\
    rc_imported s' = rc_imported s /\
    rr_permanently_failed (recovery_result initial_export_tables false s') = [].
Proof.
  intros Hn Hw Hp Hin.
  assert (present_of job (rc_imported s) = []) as He.
  { unfold present_of. destruct (filter _ _) as [|t l] eqn:E; [done|].
    assert (t ∈ filter (fun t => t ∉ rc_imported s) (job_present job)) as Ht by (rewrite E; set_solver).
    apply list_elem_of_filter in Ht as [Ht1 Ht2]. by destruct Ht1; apply Hin. }
  cbn [recovery_loop].
  unfold one_attempt, catch, attempt_stages, ensure_job, on_stage, gets, modify, mret, M_ret, mbind, M_bind.
  cbn [rc_next_attempt rc_need_post rc_job rc_world]. rewrite Hn. cbn.
  rewrite Hp.
  cbn. rewrite He. cbn. by eexists.
Qed.

Lemma unlisted_tables_forgotten_witness :
  let s := mk_rec (W:=script) [u"customer"] [] [u"order"] (u"job") false (Some [u"order"]) 1 []
             (mk_script [inr (report [])] [] []) in
  exists s', recovery_loop (ImportStages0:=script_stages) example_plan 5 [] 1 s = (inr (Some false), s') /\ rc_imported s' = [u"customer"].
Proof.
  intros s.
  destruct (unlisted_tables_forgotten (ImportStages0:=script_stages) example_plan 5 [] 0 s [u"order"] (report [])
    (mk_script [] [] []) eq_refl eq_refl eq_refl (fun t Ht => False_ind _ (not_elem_of_nil t Ht))) as (s' & E & Hi & _).
  by exists s'.
Defined.

(** the recovery poll returns as soon as one table has failed, with the
    other tables unfinished, and the run takes every table that has not failed
    as ready to be downloaded and loaded, whatever its status. *)
Theorem unfinished_tables_loaded {W} (fetch : pystr -> method W exn ExportJobResponse) (cancelled : W -> bool * W)
    (sleep : W -> W) (fuel : nat) (job_id : pystr) (w w' : W) (job : ExportJobResponse) (imported : list pystr) (t : pystr) :
  fetch job_id w = (inr job, w') -> failed_tables job <> [] ->
  t ∈ job_present job -> t ∉ failed_tables job -> t ∉ imported ->
  poll_until_complete fetch cancelled sleep (S fuel) false job_id w = (inr (Some (Some job)), w') /\
  t ∈ ready_of job (present_of job imported).
Proof.
  intros Hf Hne Ht Hnf Hni. split.
  - rewrite poll_unfold, Hf. simpl. by rewrite bool_decide_eq_false_2.
  - unfold ready_of, present_of. rewrite !list_elem_of_filter. tauto.
Qed.

Lemma unfinished_tables_loaded_witness :
  let job := mk_job false [(u"a", mk_table_data (u"quota") (u"Failed") [] []); (u"b", mk_table_data [] (u"InProgress") [] (u"0"))] in
  poll_until_complete (fun _ w => (inr job, w)) (fun w => (false, w)) (fun w => w) 1 false (u"job") tt
    = (inr (Some (Some job)), tt) /\ u"b" ∈ ready_of job (present_of job []).
Proof.
  intros job. apply (unfinished_tables_loaded (fun _ w => (inr job, w)) (fun w => (false, w)) (fun w => w) 0 (u"job") tt tt job []);
    [reflexivity|discriminate| | |apply not_elem_of_nil].
  - apply (bool_decide_eq_true_1 _). by vm_compute.
  - apply (bool_decide_eq_false_1 _). by vm_compute.
Defined.
