(* ===== verification/Importer.v ===== *)
(** * The import replay: eds/importer/__init__.py, with eds/util/json.py and eds/util/file.py

    [run] replays the export files of a directory as INSERT events into an
    import handler.  The handler and the tracker are an [ImportEnv]; the files
    are lists of line reads; the registry's answer, the validator, the hash and
    the texts of foreign exceptions are arguments.

    The theorems: the run, the decoder included, does exactly the operations of
    a plan computed from the files alone, and in recovery mode a table's
    completion marker comes right after a flush that follows all its events. *)
From stdpp Require Import base tactics list option numbers sets strings.
From S2P Require Import Prelude PyStr PyDict PyFloat GoJson JsonLoads Schema DbChange Interfaces CrdbFile ImportClient.

(** ** Directory listings *)

Inductive dirent : Type :=
| DFile (name : pystr)
| DDir (name : pystr) (entries : list dirent).

Definition dirent_name (e : dirent) : pystr := match e with DFile n | DDir n _ => n end.

(** [DirEntry.path] *)
Definition join_path (dir name : pystr) : pystr :=
  if endswith (u"/") dir || str_eqb dir [] then dir ++ name else dir ++ u"/" ++ name.

(** the paths an entry adds *)
Fixpoint dirent_paths (dir : pystr) (e : dirent) : list pystr :=
  match e with
  | DFile name => if str_eqb name (u".DS_Store") then [] else [join_path dir name]
  | DDir name entries =>
      concat (snd <$> py_sorted (fun a b => str_leb (fst a) (fst b))
                ((fun e => (dirent_name e, dirent_paths (join_path dir name) e)) <$> entries))
  end.

Definition list_dir (directory : pystr) (entries : list dirent) : list pystr :=
  concat (snd <$> py_sorted (fun a b => str_leb (fst a) (fst b))
            ((fun e => (dirent_name e, dirent_paths directory e)) <$> entries)).

(** ** The NDJSON decoder *)

(** what a [readline] does: a line, an OSError or EOFError, another exception *)
Inductive line_read : Type :=
| RText (line : pystr)
| RStop
| RRaise (e : exn).

Record Decoder := mk_dec { dec_fp : list line_read; dec_peeked : option pystr; dec_has_peeked : bool; dec_count : Z }.

Definition dec_open (lines : list line_read) : Decoder := mk_dec lines None false 0.

Abbreviation DecM A := (M Decoder exn A).

(** the loop of [more]; reading past the end returns the empty string *)
Fixpoint dec_read (lines : list line_read) (count : Z) : (exn + bool) * Decoder :=
  match lines with
  | [] => (inr false, mk_dec [] None true count)
  | RStop :: rest => (inr false, mk_dec rest None true count)
  | RRaise e :: rest => (inl e, mk_dec rest None false count)
  | RText line :: rest =>
      if str_eqb line [] then (inr false, mk_dec rest None true count)
      else
        let stripped := strip line in
        if str_eqb stripped [] then dec_read rest count
        else (inr true, mk_dec rest (Some stripped) true count)
  end.

Definition dec_more : DecM bool :=
  fun d =>
    if dec_has_peeked d then (inr (match dec_peeked d with Some _ => true | None => false end), d)
    else dec_read (dec_fp d) (dec_count d).

(** the text of the exception of [json.loads] *)
Definition decode_raw (json_error : pystr -> pystr) : DecM pystr :=
  more ← dec_more;
  peeked ← gets dec_peeked;
  match (more : bool), (peeked : option pystr) with
  | true, Some value =>
      _ ← modify (fun d => mk_dec (dec_fp d) None false (dec_count d));
      match json_loads opts_ndjson value with
      | None => raise (ValueError (json_error value))
      | Some _ =>
          _ ← modify (fun d => mk_dec (dec_fp d) (dec_peeked d) (dec_has_peeked d) (dec_count d + 1));
          mret value
      end
  | _, _ => raise (ValueError (u"no more JSON values"))
  end.

(** ** The run *)

(** the import handler and the tracker *)
Class ImportEnv (W : Type) := {
  ie_create_datasource : pydict Schema -> method W exn unit;
  ie_import_event : DBChangeEvent -> Schema -> method W exn unit;
  ie_import_completed : method W exn unit;
  (** [None]: the handler is no [ImportFlusher] *)
  ie_flush_imported : option (method W exn unit);
  ie_set_key : pystr -> pystr -> method W exn unit
}.

Record ImporterConfig := mk_importer_config {
  ic_no_delete : bool;
  ic_schema_only : bool;
  ic_tables : list pystr;
  ic_recovery_enabled : bool;
  ic_has_tracker : bool;
  ic_run_id : pystr
}.

(** what the run is given by code outside: the hash, the validator, and the
    texts of the exceptions it wraps *)
Class ImportWorld := {
  iw_hash : pystr -> pystr;
  iw_validator : option (DBChangeEvent -> validation);
  iw_json_error : pystr -> pystr;
  iw_event_error : event_error -> pystr;
  iw_validator_error : pystr;
  (** the line reads of a file, or the text of the OSError of opening it *)
  iw_open : pystr -> pystr + list line_read
}.

Section Importer.
Context `{iw : ImportWorld}.

Definition event_with_key (key : list pystr) (e : DBChangeEvent) : DBChangeEvent :=
  mk_event (ev_operation e) (ev_id e) (ev_table e) (Some key) (ev_model_version e) (ev_company_id e)
    (ev_location_id e) (ev_user_id e) (ev_before e) (ev_after e) (ev_diff e) (ev_timestamp e)
    (ev_mvcc_timestamp e) (ev_imported e) (ev_schema_validated_path e) (ev_object e).

Definition event_with_owner (location user : option pystr) (e : DBChangeEvent) : DBChangeEvent :=
  mk_event (ev_operation e) (ev_id e) (ev_table e) (ev_key e) (ev_model_version e) (ev_company_id e)
    location user (ev_before e) (ev_after e) (ev_diff e) (ev_timestamp e)
    (ev_mvcc_timestamp e) true (ev_schema_validated_path e) (ev_object e).

Definition event_with_path (path : pystr) (e : DBChangeEvent) : DBChangeEvent :=
  mk_event (ev_operation e) (ev_id e) (ev_table e) (ev_key e) (ev_model_version e) (ev_company_id e)
    (ev_location_id e) (ev_user_id e) (ev_before e) (ev_after e) (ev_diff e) (ev_timestamp e)
    (ev_mvcc_timestamp e) (ev_imported e) (Some path) (ev_object e).

Definition str_field (k : pystr) (o : pydict pyobj) : option pystr :=
  match dict_get k o with Some (PStr v) => Some v | _ => None end.

(** the owner fields of an imported row: [companyId] wins for the location *)
Definition set_owner (o : option (pydict pyobj)) (e : DBChangeEvent) : DBChangeEvent :=
  match o with
  | None => event_with_owner (ev_location_id e) (ev_user_id e) e
  | Some d =>
      let location := match str_field (u"companyId") d with Some c => Some c | None => str_field (u"locationId") d end in
      event_with_owner location (str_field (u"userId") d) e
  end.

(** the synthetic event of a row *)
Definition row_event (file table : pystr) (unix_nano : Z) (data : Schema) (raw : pystr) : exn + DBChangeEvent :=
  let event :=
    mk_event (u"INSERT") (iw_hash (basename file)) table None (sc_model_version data) None None None None (Some raw)
      None (unix_nano / 1000000) (Some (str_of_Z unix_nano)) false None None in
  let '(pk, event) := get_primary_key event in
  let event := event_with_key [match pk with inr k => k | inl _ => [] end] event in
  match get_object event with
  | (inl e, _) => inl (RuntimeError (u"unable to get object: " ++ iw_event_error e))
  | (inr o, event) => inr (set_owner o event)
  end.

(** the validation: the event to import, [None] to skip it *)
Definition validate_row (event : DBChangeEvent) : exn + option DBChangeEvent :=
  match iw_validator with
  | None => inr (Some event)
  | Some validate =>
      match validate event with
      | VMismatch => inr None
      | VFailed => inl (RuntimeError (u"error validating schema: " ++ iw_validator_error))
      | VResult found valid path =>
          if negb found then inr None
          else if negb valid then inr None
          else inr (Some (if str_eqb path [] then event else event_with_path path event))
      end
  end.

Section Effects.
Context {W : Type} `{!ImportEnv W}.
Abbreviation IM A := (M W exn A).

(** the [while dec.more()] loop; the number of events imported *)
Fixpoint replay_rows (fuel : nat) (file table : pystr) (unix_nano : Z) (data : Schema) (d : Decoder) (count : Z) : IM Z :=
  match fuel with
  | O => raise (RuntimeError (u"out of fuel"))
  | S fuel' =>
      match dec_more d with
      | (inl e, _) => raise e
      | (inr false, _) => mret count
      | (inr true, d) =>
          match decode_raw iw_json_error d with
          | (inl e, _) => raise (RuntimeError (u"unable to decode JSON: " ++ exn_str e))
          | (inr raw, d) =>
              match row_event file table unix_nano data raw with
              | inl e => raise e
              | inr event =>
                  match validate_row event with
                  | inl e => raise e
                  | inr None => replay_rows fuel' file table unix_nano data d count
                  | inr (Some event) =>
                      _ ← ie_import_event event data;
                      replay_rows fuel' file table unix_nano data d (count + 1)
                  end
              end
          end
      end
  end.

Definition process_file (schema : pydict Schema) (file table : pystr) (unix_nano : Z) : IM Z :=
  match dict_get table schema with
  | None => raise (RuntimeError (u"unexpected table (" ++ table ++ u") not found in schema but in import directory: " ++ file))
  | Some data =>
      match iw_open file with
      | inl e => raise (RuntimeError (u"unable to create JSON decoder for " ++ file ++ u": " ++ e))
      | inr lines => replay_rows (S (length lines)) file table unix_nano data (dec_open lines) 0
      end
  end.

(** [for x in l: total += f(x)] *)
Fixpoint sum_each {A} (f : A -> IM Z) (l : list A) (total : Z) : IM Z :=
  match l with
  | [] => mret total
  | x :: l' => n ← f x; sum_each f l' (total + n)
  end.

(** the single-flush path: one file of the listing *)
Definition replay_listed (config : ImporterConfig) (schema : pydict Schema) (file : pystr) : IM Z :=
  let f := parse_crdb_export_file file in
  if negb (cf_ok f) then mret 0
  else if negb (str_in (cf_table f) (ic_tables config)) then mret 0
  else process_file schema file (cf_table f) (cf_unix_nanos f).

Definition progress_key (run_id table : pystr) : pystr := u"import-progress:" ++ run_id ++ u":" ++ table.

Lemma progress_key_inj run_id t1 t2 : progress_key run_id t1 = progress_key run_id t2 -> t1 = t2.
Proof. unfold progress_key. intros Hk. by apply app_inv_head, app_inv_head, app_inv_head in Hk. Qed.

Definition _write_progress_marker (config : ImporterConfig) (table : pystr) : IM unit :=
  if ic_has_tracker config && negb (str_eqb (ic_run_id config) []) then
    ie_set_key (progress_key (ic_run_id config) table) (u"1")
  else mret tt.

(** [files_by_table]: the files of each table, in the order of the listing *)
Definition group_files (config : ImporterConfig) (files : list pystr) : pydict (list (pystr * Z)) :=
  foldl (fun d file =>
    let f := parse_crdb_export_file file in
    if negb (cf_ok f) then d
    else if negb (str_in (cf_table f) (ic_tables config)) then d
    else dict_set (cf_table f) (default [] (dict_get (cf_table f) d) ++ [(file, cf_unix_nanos f)]) d) [] files.

Definition ordered_tables (config : ImporterConfig) (by_table : pydict (list (pystr * Z))) : list pystr :=
  dict_keys by_table ++ filter (fun t => dict_has t by_table = false) (ic_tables config).

(** one table of the recovery path *)
Definition replay_table (config : ImporterConfig) (schema : pydict Schema) (by_table : pydict (list (pystr * Z)))
    (table : pystr) : IM Z :=
  t_total ← sum_each (fun '(file, unix_nano) => process_file schema file table unix_nano)
              (default [] (dict_get table by_table)) 0;
  _ ← match ie_flush_imported with
      | Some flush => _ ← flush; _write_progress_marker config table
      | None => mret tt
      end;
  mret t_total.

Definition _run_recovery (config : ImporterConfig) (schema : pydict Schema) (files : list pystr) : IM Z :=
  let by_table := group_files config files in
  let tables := ordered_tables config by_table in
  total ← sum_each (replay_table config schema by_table) tables 0;
  _ ← ie_import_completed;
  _ ← match ie_flush_imported with
      | Some _ => mret tt
      | None => for_each (_write_progress_marker config) tables
      end;
  mret total.

(** [run]: the registry's answer and the listing, or the texts of their
    exceptions; the result is the number of records it logs *)
Definition run (config : ImporterConfig) (latest : pystr + pydict Schema) (listing : pystr + list pystr) : IM (option Z) :=
  match latest with
  | inl e => raise (RuntimeError (u"unable to get schema: " ++ e))
  | inr schema =>
      _ ← (if ic_no_delete config then mret tt else ie_create_datasource schema : IM unit);
      if ic_schema_only config then mret None
      else
        match listing with
        | inl e => raise (RuntimeError (u"unable to list files in directory: " ++ e))
        | inr files =>
            total ← (if ic_recovery_enabled config then _run_recovery config schema files
                     else
                       total ← sum_each (replay_listed config schema) files 0;
                       _ ← ie_import_completed;
                       mret total);
            mret (Some total)
        end
  end.
End Effects.

(** ** The plan of a run

    The operations a run performs on its environment, computed from the files
    alone, and how it ends. *)

Inductive env_op : Type :=
| OCreate (schema : pydict Schema)
| OEvent (e : DBChangeEvent) (data : Schema)
| OFlush
| OMark (table : pystr)
| OComplete.

Definition Plan (A : Type) : Type := list env_op * (exn + A).

#[export] Instance Plan_ret : MRet Plan := fun A a => ([], inr a).
#[export] Instance Plan_bind : MBind Plan :=
  fun A B f p => match p with
                 | (ops, inl e) => (ops, inl e)
                 | (ops, inr a) => (ops ++ (f a).1, (f a).2)
                 end.

Definition emit (op : env_op) : Plan unit := ([op], inr tt).
Definition stop {A} (e : exn) : Plan A := ([], inl e).

Definition plan_each {A} (f : A -> Plan Z) : list A -> Z -> Plan Z :=
  fix go l total := match l with [] => mret total | x :: l' => n ← f x; go l' (total + n) end.

(** the rows of a file and the exception that ends it *)
Fixpoint rows_of (lines : list line_read) : list pystr * option exn :=
  match lines with
  | [] | RStop :: _ => ([], None)
  | RRaise e :: _ => ([], Some e)
  | RText line :: rest =>
      if str_eqb line [] then ([], None)
      else if str_eqb (strip line) [] then rows_of rest
      else let '(rows, e) := rows_of rest in (strip line :: rows, e)
  end.

Fixpoint plan_rows (file table : pystr) (unix_nano : Z) (data : Schema) (rows : list pystr) (tail : option exn) (count : Z) :
    Plan Z :=
  match rows with
  | [] => match tail with Some e => stop e | None => mret count end
  | raw :: rows' =>
      match json_loads opts_ndjson raw with
      | None => stop (RuntimeError (u"unable to decode JSON: " ++ iw_json_error raw))
      | Some _ =>
          match row_event file table unix_nano data raw with
          | inl e => stop e
          | inr event =>
              match validate_row event with
              | inl e => stop e
              | inr None => plan_rows file table unix_nano data rows' tail count
              | inr (Some event) =>
                  _ ← emit (OEvent event data); plan_rows file table unix_nano data rows' tail (count + 1)
              end
          end
      end
  end.

Definition plan_file (schema : pydict Schema) (file table : pystr) (unix_nano : Z) : Plan Z :=
  match dict_get table schema with
  | None => stop (RuntimeError (u"unexpected table (" ++ table ++ u") not found in schema but in import directory: " ++ file))
  | Some data =>
      match iw_open file with
      | inl e => stop (RuntimeError (u"unable to create JSON decoder for " ++ file ++ u": " ++ e))
      | inr lines => let '(rows, tail) := rows_of lines in plan_rows file table unix_nano data rows tail 0
      end
  end.

(** an export file of a configured table *)
Definition wanted (config : ImporterConfig) (file : pystr) : bool :=
  let f := parse_crdb_export_file file in cf_ok f && str_in (cf_table f) (ic_tables config).

Definition plan_listed (config : ImporterConfig) (schema : pydict Schema) (file : pystr) : Plan Z :=
  if wanted config file then
    plan_file schema file (cf_table (parse_crdb_export_file file)) (cf_unix_nanos (parse_crdb_export_file file))
  else mret 0.

(** a marker is written for a tracker and a run id *)
Definition plan_mark (config : ImporterConfig) (table : pystr) : Plan unit :=
  if ic_has_tracker config && negb (str_eqb (ic_run_id config) []) then emit (OMark table) else mret tt.

Definition plan_table (flusher : bool) (config : ImporterConfig) (schema : pydict Schema)
    (by_table : pydict (list (pystr * Z))) (table : pystr) : Plan Z :=
  n ← plan_each (fun '(file, unix_nano) => plan_file schema file table unix_nano) (default [] (dict_get table by_table)) 0;
  _ ← (if flusher then _ ← emit OFlush; plan_mark config table else mret tt);
  mret n.

Fixpoint plan_marks (config : ImporterConfig) (tables : list pystr) : Plan unit :=
  match tables with [] => mret tt | t :: ts => _ ← plan_mark config t; plan_marks config ts end.

Definition plan_recovery (flusher : bool) (config : ImporterConfig) (schema : pydict Schema) (files : list pystr) : Plan Z :=
  let by_table := group_files config files in
  let tables := ordered_tables config by_table in
  total ← plan_each (plan_table flusher config schema by_table) tables 0;
  _ ← emit OComplete;
  _ ← (if flusher then mret tt else plan_marks config tables);
  mret total.

Definition plan_run (flusher : bool) (config : ImporterConfig) (latest : pystr + pydict Schema)
    (listing : pystr + list pystr) : Plan (option Z) :=
  match latest with
  | inl e => stop (RuntimeError (u"unable to get schema: " ++ e))
  | inr schema =>
      _ ← (if ic_no_delete config then mret tt else emit (OCreate schema));
      if ic_schema_only config then mret None
      else
        match listing with
        | inl e => stop (RuntimeError (u"unable to list files in directory: " ++ e))
        | inr files =>
            total ← (if ic_recovery_enabled config then plan_recovery flusher config schema files
                     else total ← plan_each (plan_listed config schema) files 0; _ ← emit OComplete; mret total);
            mret (Some total)
        end
  end.

Section Execution.
Context {W : Type} `{!ImportEnv W}.
Abbreviation IM A := (M W exn A).

Definition exec_op (config : ImporterConfig) (op : env_op) : IM unit :=
  match op with
  | OCreate schema => ie_create_datasource schema
  | OEvent e data => ie_import_event e data
  | OFlush => match ie_flush_imported with Some flush => flush | None => mret tt end
  | OMark table => ie_set_key (progress_key (ic_run_id config) table) (u"1")
  | OComplete => ie_import_completed
  end.

(** the operations in order, until one raises *)
Definition execute {A} (config : ImporterConfig) (p : Plan A) : IM A :=
  _ ← for_each (exec_op config) p.1;
  match p.2 with inl e => raise e | inr a => mret a end.

Lemma for_each_app {S E A} (f : A -> M S E unit) l1 l2 s :
  for_each f (l1 ++ l2) s = (_ ← for_each f l1; for_each f l2) s.
Proof.
  revert s. induction l1 as [|x l1 IH]; intros s; [done|]. simpl. unfold mbind, M_bind in *.
  destruct (f x s) as [[e|[]] s']; [done|]. apply IH.
Qed.

Lemma execute_ret {A} config (a : A) w : execute config (mret a) w = (inr a, w).
Proof. done. Qed.

Lemma execute_stop {A} config e w : execute config (stop e : Plan A) w = (inl e, w).
Proof. done. Qed.

Lemma execute_bind {A B} config (p : Plan A) (f : A -> Plan B) w :
  execute config (p ≫= f) w = (a ← execute config p; execute config (f a)) w.
Proof.
  destruct p as [ops [e|a]]; unfold execute, mbind, M_bind; simpl.
  - by destruct (for_each _ ops w) as [[e'|[]] w'].
  - rewrite for_each_app. unfold mbind, M_bind. by destruct (for_each _ ops w) as [[e'|[]] w'].
Qed.

Lemma execute_emit config op w : execute config (emit op) w = exec_op config op w.
Proof.
  unfold execute, emit. simpl. unfold mbind, M_bind, mret, M_ret. by destruct (exec_op config op w) as [[e|[]] w'].
Qed.

(** two computations that agree on every state *)
Definition same {A} (m m' : IM A) : Prop := forall w, m w = m' w.

Lemma same_bind {A B} (m m' : IM A) (f f' : A -> IM B) : same m m' -> (forall a, same (f a) (f' a)) -> same (m ≫= f) (m' ≫= f').
Proof. intros Hm Hf w. unfold mbind, M_bind. rewrite (Hm w). destruct (m' w) as [[e|a] w']; [done|apply Hf]. Qed.

Lemma same_exec_bind {A B} config (m : IM A) (p : Plan A) (f : A -> IM B) (g : A -> Plan B) :
  same m (execute config p) -> (forall a, same (f a) (execute config (g a))) -> same (m ≫= f) (execute config (p ≫= g)).
Proof. intros Hm Hf w. rewrite execute_bind. by apply same_bind. Qed.

Lemma same_emit config op (m : IM unit) : m = exec_op config op -> same m (execute config (emit op)).
Proof. intros -> w. by rewrite execute_emit. Qed.

(** *** The decoder reads the rows *)

Lemma dec_read_rows lines count :
  match rows_of lines with
  | ([], None) => exists d, dec_read lines count = (inr false, d)
  | ([], Some e) => exists d, dec_read lines count = (inl e, d)
  | (row :: rows, tail) =>
      exists rest, dec_read lines count = (inr true, mk_dec rest (Some row) true count) /\
        rows_of rest = (rows, tail) /\ (length rest < length lines)%nat
  end.
Proof.
  induction lines as [|[line| |e] lines IH]; simpl; [by eexists| |by eexists|by eexists].
  destruct (str_eqb line []); [by eexists|]. destruct (str_eqb (strip line) []).
  - destruct (rows_of lines) as [[|row rows] [e|]]; try done;
      destruct IH as (rest & ? & ? & ?); exists rest; split_and!; done || lia.
  - destruct (rows_of lines) as [rows tail] eqn:E. exists lines. split_and!; done || lia.
Qed.

Lemma decode_peeked json_error rest row n :
  decode_raw json_error (mk_dec rest (Some row) true n) =
  match json_loads opts_ndjson row with
  | None => (inl (ValueError (json_error row)), mk_dec rest None false n)
  | Some _ => (inr row, mk_dec rest None false (n + 1))
  end.
Proof.
  unfold decode_raw, dec_more, mbind, M_bind, gets, modify, raise, mret, M_ret. simpl. by destruct (json_loads _ row).
Qed.

Lemma replay_rows_plan fuel file table unix_nano data lines n count config :
  (length lines < fuel)%nat ->
  same (replay_rows fuel file table unix_nano data (mk_dec lines None false n) count)
    (execute config (let '(rows, tail) := rows_of lines in plan_rows file table unix_nano data rows tail count)).
Proof.
  revert lines n count. induction fuel as [|fuel IH]; intros lines n count Hf; [lia|]. cbn [replay_rows].
  pose proof (dec_read_rows lines n) as Hd. unfold dec_more at 1. cbn [dec_has_peeked dec_fp dec_count].
  destruct (rows_of lines) as [[|row rows] tail].
  { destruct tail as [e|]; destruct Hd as [d ->]; by intros w. }
  destruct Hd as (rest & -> & Hrest & Hl).
  rewrite decode_peeked. cbn [plan_rows]. destruct (json_loads opts_ndjson row); [|by intros w].
  destruct (row_event file table unix_nano data row) as [e|event]; [by intros w|].
  destruct (validate_row event) as [e|[event'|]]; [by intros w| |].
  - apply (same_exec_bind config (ie_import_event event' data) (emit (OEvent event' data))); [by apply same_emit|].
    intros []. specialize (IH rest (n + 1) (count + 1) ltac:(lia)). by rewrite Hrest in IH.
  - specialize (IH rest (n + 1) count ltac:(lia)). by rewrite Hrest in IH.
Qed.

Lemma process_file_plan config schema file table unix_nano :
  same (process_file schema file table unix_nano) (execute config (plan_file schema file table unix_nano)).
Proof.
  unfold process_file, plan_file. destruct (dict_get table schema) as [data|]; [|by intros w].
  destruct (iw_open file) as [e|lines]; [by intros w|]. apply replay_rows_plan. lia.
Qed.

Lemma sum_each_plan {A} config (f : A -> IM Z) (g : A -> Plan Z) l total :
  (forall x, same (f x) (execute config (g x))) -> same (sum_each f l total) (execute config (plan_each g l total)).
Proof.
  intros Hfg. revert total. induction l as [|x l IH]; intros total; simpl; [by intros w|].
  apply same_exec_bind; [apply Hfg|]. intros n. apply IH.
Qed.

Lemma replay_listed_plan config schema file :
  same (replay_listed config schema file) (execute config (plan_listed config schema file)).
Proof.
  unfold replay_listed, plan_listed, wanted. destruct (cf_ok _); simpl; [|by intros w].
  destruct (str_in _ _); simpl; [|by intros w]. apply process_file_plan.
Qed.

Lemma marker_plan config table :
  same (_write_progress_marker config table) (execute config (plan_mark config table)).
Proof.
  unfold _write_progress_marker, plan_mark. destruct (ic_has_tracker config && _); [|by intros w]. by apply same_emit.
Qed.

Definition has_flush : bool := match ie_flush_imported with Some _ => true | None => false end.

Lemma replay_table_plan config schema by_table table :
  same (replay_table config schema by_table table) (execute config (plan_table has_flush config schema by_table table)).
Proof.
  unfold replay_table, plan_table, has_flush. apply same_exec_bind.
  { apply sum_each_plan. intros [file unix_nano]. apply process_file_plan. }
  intros n. apply same_exec_bind; [|by intros [] w].
  destruct ie_flush_imported as [flush|] eqn:Ef; [|by intros w].
  apply same_exec_bind; [apply same_emit; simpl; by rewrite Ef|]. intros _. apply marker_plan.
Qed.

Lemma run_recovery_plan config schema files :
  same (_run_recovery config schema files) (execute config (plan_recovery has_flush config schema files)).
Proof.
  unfold _run_recovery, plan_recovery. apply same_exec_bind; [apply sum_each_plan; intros t; apply replay_table_plan|].
  intros total. apply same_exec_bind; [by apply same_emit|]. intros _. apply same_exec_bind; [|by intros [] w].
  unfold has_flush. destruct ie_flush_imported as [flush|]; [by intros w|].
  induction (ordered_tables config (group_files config files)) as [|t ts IH]; simpl; [by intros w|].
  apply same_exec_bind; [apply marker_plan|]. intros _. exact IH.
Qed.

Lemma run_plan_eq config latest listing w :
  run config latest listing w = execute config (plan_run has_flush config latest listing) w.
Proof.
  revert w. fold (same (run config latest listing) (execute config (plan_run has_flush config latest listing))).
  unfold run, plan_run. destruct latest as [e|schema]; [by intros w|].
  apply same_exec_bind; [destruct (ic_no_delete config); [by intros w|by apply same_emit]|]. intros _.
  destruct (ic_schema_only config); [by intros w|]. destruct listing as [e|files]; [by intros w|].
  apply same_exec_bind; [|by intros total w]. destruct (ic_recovery_enabled config); [apply run_recovery_plan|].
  apply same_exec_bind; [apply sum_each_plan; intros f; apply replay_listed_plan|]. intros total.
  apply same_exec_bind; [by apply same_emit|]. by intros [] w.
Qed.
(** the import run does exactly the operations of its plan, in order, on
    every environment, and ends as the plan says or with the first exception an
    operation raises; the plan is a function of the configuration, the schema
    and the text of the files, and knows no decoder. *)
Theorem run_follows_plan config latest listing w :
  run config latest listing w = execute config (plan_run has_flush config latest listing) w.
Proof. apply run_plan_eq. Qed.
End Execution.

(** ** The operations of a plan *)

(** an event of a table *)
Definition of_table (table : pystr) (op : env_op) : Prop := exists e data, op = OEvent e data /\ ev_table e = table.

Lemma get_object_table e : ev_table (get_object e).2 = ev_table e.
Proof.
  rewrite get_object_source. destruct (object_source e) as [raw|]; [|done].
  unfold _parse_object, mbind, M_bind, gets, raise, modify, mret, M_ret. destruct (ev_object e); [done|].
  by destruct (json_loads opts_float raw) as [[]|].
Qed.

Lemma get_primary_key_table e : ev_table (get_primary_key e).2 = ev_table e.
Proof.
  unfold get_primary_key. unfold mbind at 1, M_bind at 1, gets. destruct (default [] (ev_key e)); [|done].
  unfold mbind, M_bind. pose proof (get_object_table e) as H. by destruct (get_object e) as [[err|o] e'].
Qed.

Lemma row_event_table file table unix_nano data raw e : row_event file table unix_nano data raw = inr e -> ev_table e = table.
Proof.
  unfold row_event. set (e0 := mk_event _ _ _ _ _ _ _ _ _ _ _ _ _ _ _ _).
  pose proof (get_primary_key_table e0) as H1. destruct (get_primary_key e0) as [pk e1].
  set (e2 := event_with_key _ e1). pose proof (get_object_table e2) as H2.
  destruct (get_object e2) as [[err|o] e3]; [done|]. intros [= <-]. simpl in *. destruct o; simpl; congruence.
Qed.

Lemma validate_row_table e e' : validate_row e = inr (Some e') -> ev_table e' = ev_table e.
Proof.
  unfold validate_row. destruct iw_validator as [v|]; [|by intros [= <-]].
  destruct (v e) as [| |[] [] path]; simpl; try done. intros [= <-]. by destruct (str_eqb path []).
Qed.

Lemma plan_rows_ops file table unix_nano data rows tail count :
  Forall (of_table table) (plan_rows file table unix_nano data rows tail count).1.
Proof.
  revert count. induction rows as [|raw rows IH]; intros count; simpl; [by destruct tail; constructor|].
  destruct (json_loads opts_ndjson raw); [|constructor].
  destruct (row_event file table unix_nano data raw) as [e|event] eqn:Er; [constructor|].
  destruct (validate_row event) as [e|[event'|]] eqn:Ev; [constructor| |done].
  unfold mbind, Plan_bind, emit. simpl. constructor; [|done]. exists event', data. split; [done|].
  rewrite (validate_row_table event event' Ev). by apply (row_event_table _ _ _ _ _ _ Er).
Qed.

Lemma plan_file_ops schema file table unix_nano : Forall (of_table table) (plan_file schema file table unix_nano).1.
Proof.
  unfold plan_file. destruct (dict_get table schema); [|constructor]. destruct (iw_open file) as [e|lines]; [constructor|].
  destruct (rows_of lines). apply plan_rows_ops.
Qed.

Lemma plan_each_ops {A} (P : env_op -> Prop) (f : A -> Plan Z) l total :
  (forall x, x ∈ l -> Forall P (f x).1) -> Forall P (plan_each f l total).1.
Proof.
  revert total. induction l as [|x l IH]; intros total Hx; simpl; [constructor|]. unfold mbind, Plan_bind.
  pose proof (Hx x ltac:(set_solver)) as H1. destruct (f x) as [ops [e|n]]; [done|]. simpl.
  apply Forall_app. split; [done|]. apply IH. set_solver.
Qed.

(** the files of a table are the wanted files of the listing with that table *)
Definition files_of (config : ImporterConfig) (files : list pystr) (table : pystr) : list (pystr * Z) :=
  (fun f => (f, cf_unix_nanos (parse_crdb_export_file f))) <$>
    filter (fun f => wanted config f = true /\ cf_table (parse_crdb_export_file f) = table) files.

Lemma group_files_snoc config files f :
  group_files config (files ++ [f]) =
  if wanted config f then
    let t := cf_table (parse_crdb_export_file f) in
    dict_set t (default [] (dict_get t (group_files config files)) ++ [(f, cf_unix_nanos (parse_crdb_export_file f))])
      (group_files config files)
  else group_files config files.
Proof.
  unfold group_files. rewrite foldl_app. simpl. unfold wanted. destruct (cf_ok _); [|done]. by destruct (str_in _ _).
Qed.

Lemma group_files_get config files t :
  default [] (dict_get t (group_files config files)) = files_of config files t /\
  (t ∈ dict_keys (group_files config files) -> files_of config files t <> []) /\
  NoDup (dict_keys (group_files config files)).
Proof.
  induction files as [|f files IH] using rev_ind; [split_and!; [done|set_solver|constructor]|].
  destruct IH as (IH1 & IH2 & IH3). rewrite group_files_snoc. unfold files_of in *. rewrite filter_app, fmap_app, filter_cons, filter_nil.
  destruct (wanted config f) eqn:Ew.
  2: { rewrite decide_False by naive_solver. rewrite app_nil_r. done. }
  simpl. rewrite dict_get_set. destruct (decide (cf_table (parse_crdb_export_file f) = t)) as [->|Hne].
  - rewrite decide_True by done. simpl. rewrite IH1. split_and!; [done| |by apply dict_set_NoDup].
    intros _. by destruct (_ <$> _).
  - rewrite decide_False by naive_solver. rewrite app_nil_r. split_and!; [done| |by apply dict_set_NoDup].
    rewrite dict_keys_set. case_match; [done|]. rewrite elem_of_app, list_elem_of_singleton. naive_solver.
Qed.

#[export] Instance of_table_dec table op : Decision (of_table table op).
Proof.
  destruct op as [|e data| | |]; try (right; intros (? & ? & ? & _); done).
  destruct (decide (ev_table e = table)) as [He|He]; [left; by exists e, data|right; intros (? & ? & [= <- <-] & ?); done].
Defined.

Lemma filter_of_table table ops : Forall (of_table table) ops -> filter (of_table table) ops = ops.
Proof. induction 1 as [|op ops Hop Hops IH]; [done|]. by rewrite filter_cons, IH, decide_True. Qed.

Lemma filter_other_table table table' ops : table <> table' -> Forall (of_table table) ops -> filter (of_table table') ops = [].
Proof.
  intros Hne. induction 1 as [|op ops Hop Hops IH]; [done|]. rewrite filter_cons, IH, decide_False; [done|].
  destruct Hop as (e & data & -> & He). intros (? & ? & [= <- <-] & ?). congruence.
Qed.

Lemma plan_each_ok {A} (f : A -> Plan Z) l total n :
  (plan_each f l total).2 = inr n -> (plan_each f l total).1 = concat ((fun x => (f x).1) <$> l).
Proof.
  revert total. induction l as [|x l IH]; intros total; simpl; [done|]. unfold mbind, Plan_bind.
  destruct (f x) as [ops [e|m]]; simpl; [done|]. intros Hn. by rewrite (IH _ Hn).
Qed.

(** the operations of one table: its events, then a flush and the marker *)
Definition table_events (schema : pydict Schema) (by_table : pydict (list (pystr * Z))) (table : pystr) : list env_op :=
  concat ((fun f => (plan_file schema f.1 table f.2).1) <$> default [] (dict_get table by_table)).

Lemma table_events_ops schema by_table table : Forall (of_table table) (table_events schema by_table table).
Proof.
  unfold table_events. induction (default [] _) as [|[f n] l IH]; simpl; [constructor|].
  apply Forall_app. split; [apply plan_file_ops|done].
Qed.

Definition marks (config : ImporterConfig) : bool := ic_has_tracker config && negb (str_eqb (ic_run_id config) []).

Lemma plan_table_ops config schema by_table table :
  match plan_table true config schema by_table table with
  | (ops, inl _) => Forall (of_table table) ops
  | (ops, inr _) => ops = table_events schema by_table table ++ OFlush :: (if marks config then [OMark table] else [])
  end.
Proof.
  unfold plan_table, table_events. set (f := fun '(file, unix_nano) => plan_file schema file table unix_nano).
  pose proof (plan_each_ok f (default [] (dict_get table by_table)) 0) as Hok.
  assert (Forall (of_table table) (plan_each f (default [] (dict_get table by_table)) 0).1) as Hops
    by (apply plan_each_ops; intros [file n] _; apply plan_file_ops).
  unfold mbind, Plan_bind. destruct (plan_each f _ 0) as [ops [e|n]]; [done|]. simpl in *. rewrite (Hok n eq_refl).
  assert ((fun x => (f x).1) <$> default [] (dict_get table by_table) =
          (fun x => (plan_file schema x.1 table x.2).1) <$> default [] (dict_get table by_table)) as ->
    by (apply list_fmap_ext; by intros ? []).
  unfold plan_mark, marks. by destruct (ic_has_tracker config && _).
Qed.

(** a table comes once, or has no files *)
Fixpoint files_once (by_table : pydict (list (pystr * Z))) (l : list pystr) : Prop :=
  match l with
  | [] => True
  | t :: l' => (t ∈ l' -> default [] (dict_get t by_table) = []) /\ files_once by_table l'
  end.

Lemma no_files_events schema by_table t : default [] (dict_get t by_table) = [] -> table_events schema by_table t = [].
Proof. unfold table_events. by intros ->. Qed.

Lemma plan_tables_none config schema by_table l total t :
  (t ∈ l -> default [] (dict_get t by_table) = []) ->
  filter (of_table t) (plan_each (plan_table true config schema by_table) l total).1 = [].
Proof.
  revert total. induction l as [|x l IH]; intros total Hl; simpl; [done|].
  unfold mbind, Plan_bind. pose proof (plan_table_ops config schema by_table x) as Hx.
  assert (filter (of_table t) (plan_table true config schema by_table x).1 = []) as H1.
  { destruct (decide (x = t)) as [->|Hne].
    - specialize (Hl ltac:(set_solver)). unfold plan_table. rewrite Hl. cbn. unfold plan_mark. by destruct (ic_has_tracker config && _).
    - destruct (plan_table true config schema by_table x) as [ops [e|n]]; simpl; [by apply (filter_other_table x)|].
      subst ops. rewrite filter_app, (filter_other_table x t) by (done || apply table_events_ops).
      destruct (marks config); simpl; rewrite !filter_cons, !decide_False; try done; intros (? & ? & ? & _); done. }
  destruct (plan_table true config schema by_table x) as [ops [e|n]]; [done|]. simpl in *.
  rewrite filter_app, H1. apply IH. set_solver.
Qed.

Lemma plan_tables_mark config schema by_table l total pre t post :
  files_once by_table l ->
  (plan_each (plan_table true config schema by_table) l total).1 = pre ++ OMark t :: post ->
  last pre = Some OFlush /\ filter (of_table t) pre = table_events schema by_table t /\
  filter (of_table t) post = [] /\ t ∈ l.
Proof.
  revert total pre. induction l as [|x l IH]; intros total pre Hl; simpl; [by destruct pre|].
  unfold mbind, Plan_bind. pose proof (plan_table_ops config schema by_table x) as Hx.
  destruct (plan_table true config schema by_table x) as [ops [e|n]]; simpl.
  { intros ->. apply Forall_app in Hx as [_ Hx]. apply Forall_inv in Hx. by destruct Hx as (? & ? & ? & _). }
  subst ops. rewrite <- app_assoc. intros E. pose proof (table_events_ops schema by_table x) as Hev.
  assert (forall pre', (OFlush :: (if marks config then [OMark x] else [])) ++ (plan_each (plan_table true config schema by_table) l (total + n)).1
            = pre' ++ OMark t :: post -> 
          last (table_events schema by_table x ++ pre') = Some OFlush /\
          filter (of_table t) (table_events schema by_table x ++ pre') = table_events schema by_table t /\
          filter (of_table t) post = [] /\ t ∈ x :: l) as Hmain.
  2: { apply app_eq_inv in E as [(k & E1 & E2)|(k & E1 & E2)].
       - destruct k as [|op k].
         + rewrite app_nil_r in E1. subst pre. simpl in E2. specialize (Hmain [] (eq_sym E2)). by rewrite app_nil_r in Hmain.
         + injection E2 as <- _. rewrite E1 in Hev. apply Forall_app in Hev as [_ Hev]. apply Forall_inv in Hev.
           by destruct Hev as (? & ? & ? & _).
       - rewrite E1. by apply Hmain. }
  clear pre E. destruct Hl as [Hx Hl]. set (hd := OFlush :: (if marks config then [OMark x] else [])).
  assert (forall t', filter (of_table t') hd = []) as Hhd.
  { intros t'. subst hd. destruct (marks config); simpl; rewrite !filter_cons, !decide_False; try done;
      intros (? & ? & ? & _); done. }
  intros pre E. apply app_eq_inv in E as [(k & E1 & E2)|(k & E1 & E2)].
  - destruct k as [|op k].
    + rewrite app_nil_r in E1. subst pre. simpl in E2.
      destruct (IH (total + n) [] Hl (eq_sym E2)) as (Hlast & _). done.
    + injection E2 as <- ->. assert (pre = [OFlush] /\ x = t /\ k = []) as (-> & -> & ->).
      { subst hd. destruct (marks config); destruct pre as [|o1 [|o2 [|]]]; simplify_eq/=; done. }
      simpl. rewrite last_snoc, filter_app, filter_of_table by apply table_events_ops.
      rewrite filter_cons, decide_False, filter_nil, app_nil_r by (intros (? & ? & ? & _); done).
      rewrite plan_tables_none by done. split_and!; try done. set_solver.
  - subst pre. destruct (IH (total + n) k Hl E2) as (Hlast & Hf & Hp & Ht). split_and!; [| |done|set_solver].
    + rewrite app_assoc, last_app, Hlast. done.
    + rewrite !filter_app, Hhd, Hf. simpl. destruct (decide (x = t)) as [->|Hne].
      * by rewrite no_files_events by auto.
      * by rewrite (filter_other_table x t) by (done || apply table_events_ops).
Qed.

Lemma ordered_tables_once config files : files_once (group_files config files) (ordered_tables config (group_files config files)).
Proof.
  unfold ordered_tables. set (d := group_files config files).
  destruct (group_files_get config files []) as (_ & _ & Hnd). fold d in Hnd.
  assert (forall l, (forall t, t ∈ l -> default [] (dict_get t d) = []) -> files_once d l) as Htail.
  { induction l as [|t l IH]; intros Hl; simpl; [done|]. split; [intros; apply Hl|apply IH; intros; apply Hl]; set_solver. }
  set (rest := filter (fun t => dict_has t d = false) (ic_tables config)).
  assert (forall t, t ∈ rest -> default [] (dict_get t d) = []) as Hrest.
  { intros t [Ht _]%list_elem_of_filter. destruct (dict_get t d) eqn:E; [|done]. unfold dict_has in Ht. by rewrite E in Ht. }
  induction Hnd as [|t ks Hni Hnd IH]; [by apply Htail|]. split; [|done].
  intros [?|?]%elem_of_app; [done|by apply Hrest].
Qed.

Lemma plan_run_mark config schema files pre t post :
  ic_recovery_enabled config = true ->
  (plan_run true config (inr schema) (inr files)).1 = pre ++ OMark t :: post ->
  last pre = Some OFlush /\
  filter (of_table t) pre = concat ((fun f => (plan_file schema f.1 t f.2).1) <$> files_of config files t) /\
  filter (of_table t) post = [].
Proof.
  intros Hr. unfold plan_run. rewrite Hr.
  set (start := if ic_no_delete config then (mret tt : Plan unit) else emit (OCreate schema)).
  assert (exists s0, start = (s0, inr tt) /\ Forall (fun op => op = OCreate schema) s0) as (s0 & -> & Hs0)
    by (unfold start; destruct (ic_no_delete config); eexists; split; try done; repeat constructor).
  destruct (ic_schema_only config).
  { unfold mbind, Plan_bind. simpl. rewrite app_nil_r. intros ->. apply Forall_app in Hs0 as [_ Hs0]. by apply Forall_inv in Hs0. }
  pose proof (plan_tables_mark config schema (group_files config files) (ordered_tables config (group_files config files)) 0) as Hm.
  destruct (group_files_get config files t) as (Hg & _).
  unfold plan_recovery, mbind, Plan_bind.
  destruct (plan_each _ _ 0) as [tops r]. simpl in Hm.
  assert (forall tail, Forall (fun op => op = OComplete) tail -> s0 ++ tops ++ tail = pre ++ OMark t :: post ->
    last pre = Some OFlush /\
    filter (of_table t) pre = concat ((fun f => (plan_file schema f.1 t f.2).1) <$> files_of config files t) /\
    filter (of_table t) post = []) as Hmain.
  2: { destruct r as [e|n]; simpl; intros E.
       - apply (Hmain []); [done|]. by rewrite <- E, app_nil_r.
       - apply (Hmain [OComplete]); [by repeat constructor|]. by rewrite <- E, !app_nil_r. }
  assert (forall l op, ~ of_table t op -> Forall (fun o => o = op) l -> filter (of_table t) l = []) as Hnone.
  { intros l op Hop. induction 1 as [|o l -> Hl IH]; [done|]. by rewrite filter_cons, IH, decide_False. }
  assert (~ of_table t (OCreate schema) /\ ~ of_table t OComplete) as [Hn1 Hn2] by (split; intros (? & ? & ? & _); done).
  intros tail Htail E.
  assert (forall k, tops ++ tail = k ++ OMark t :: post ->
    last (s0 ++ k) = Some OFlush /\
    filter (of_table t) (s0 ++ k) = concat ((fun f => (plan_file schema f.1 t f.2).1) <$> files_of config files t) /\
    filter (of_table t) post = []) as Hin.
  - clear E. intros k E. apply app_eq_inv in E as [(k' & E1 & E2)|(k' & E1 & E2)].
    + destruct k' as [|op k'].
      { simpl in E2. rewrite <- E2 in Htail. by apply Forall_inv in Htail. }
      injection E2 as <- ->. destruct (Hm k t k' (ordered_tables_once config files) E1) as (Hlast & Hf & Hp & _).
      rewrite last_app, Hlast, !filter_app, (Hnone _ _ Hn1 Hs0), Hf, Hp, (Hnone _ _ Hn2 Htail).
      unfold table_events. by rewrite Hg.
    + rewrite E2 in Htail. apply Forall_app in Htail as [_ Htail]. by apply Forall_inv in Htail.
  - apply app_eq_inv in E as [(k & E1 & E2)|(k & -> & E2)]; [|by apply Hin].
    destruct k as [|op k].
    + rewrite app_nil_r in E1. subst pre. specialize (Hin [] (eq_sym E2)). by rewrite app_nil_r in Hin.
    + injection E2 as <- _. rewrite E1 in Hs0. apply Forall_app in Hs0 as [_ Hs0]. by apply Forall_inv in Hs0.
Qed.

(** *** Grouping by table does not change what is replayed *)

Lemma plan_each_succeeds {A} (f : A -> Plan Z) l total :
  (exists n, (plan_each f l total).2 = inr n) <-> Forall (fun x => exists n, (f x).2 = inr n) l.
Proof.
  revert total. induction l as [|x l IH]; intros total; simpl.
  { split; [constructor|eauto]. }
  rewrite Forall_cons. unfold mbind, Plan_bind. destruct (f x) as [ops [e|m]]; simpl.
  - split; [by intros [n ?]|by intros [[n ?] _]].
  - rewrite IH. split; [eauto|tauto].
Qed.

Lemma table_events_listed config schema files t :
  filter (of_table t) (concat ((fun f => (plan_listed config schema f).1) <$> files)) =
  table_events schema (group_files config files) t.
Proof.
  unfold table_events. destruct (group_files_get config files t) as [-> _]. unfold files_of.
  induction files as [|f files IH]; [done|]. rewrite fmap_cons. cbn [concat]. rewrite filter_app, IH. unfold plan_listed. rewrite filter_cons.
  destruct (wanted config f); [|by rewrite decide_False by naive_solver].
  pose proof (plan_file_ops schema f (cf_table (parse_crdb_export_file f)) (cf_unix_nanos (parse_crdb_export_file f))) as Ho.
  destruct (decide (cf_table (parse_crdb_export_file f) = t)) as [<-|Hne].
  - rewrite decide_True by done. simpl. by rewrite filter_of_table.
  - rewrite decide_False by naive_solver. by rewrite (filter_other_table _ _ _ Hne Ho).
Qed.

(** a table whose files all load *)
Lemma plan_table_succeeds flusher config schema by_table t :
  Forall (fun f => exists n, (plan_file schema f.1 t f.2).2 = inr n) (default [] (dict_get t by_table)) ->
  (exists n, (plan_table flusher config schema by_table t).2 = inr n) /\
  forall t', filter (of_table t') (plan_table flusher config schema by_table t).1 =
             if decide (t = t') then table_events schema by_table t else [].
Proof.
  intros Hf. set (f := fun '(file, unix_nano) => plan_file schema file t unix_nano).
  assert (exists n, (plan_each f (default [] (dict_get t by_table)) 0).2 = inr n) as [n Hn].
  { apply plan_each_succeeds. eapply Forall_impl; [exact Hf|]. by intros []. }
  pose proof (plan_each_ok f _ _ _ Hn) as Hops. unfold plan_table. fold f. unfold mbind, Plan_bind.
  destruct (plan_each f _ 0) as [ops [e|m]]; [done|]. simpl in *. subst ops.
  assert (((fun x => (f x).1) <$> default [] (dict_get t by_table)) =
          (fun x => (plan_file schema x.1 t x.2).1) <$> default [] (dict_get t by_table)) as ->
    by (apply list_fmap_ext; by intros ? []).
  fold (table_events schema by_table t). pose proof (table_events_ops schema by_table t) as Hev.
  assert (forall tail t', Forall (fun op => forall x, ~ of_table x op) tail ->
    filter (of_table t') (table_events schema by_table t ++ tail) = if decide (t = t') then table_events schema by_table t else []) as Hfin.
  { intros tail t' Htail. rewrite filter_app.
    assert (filter (of_table t') tail = []) as -> by (induction Htail; [done|]; rewrite filter_cons, decide_False; auto).
    rewrite app_nil_r. case_decide as E; [subst; by apply filter_of_table|by apply (filter_other_table t)]. }
  unfold plan_mark. destruct flusher, (ic_has_tracker config && negb (str_eqb (ic_run_id config) [])); simpl;
    (split; [by eexists|]); intros t'; rewrite ?app_nil_r; first [apply Hfin | rewrite <- (app_nil_r (table_events _ _ _)) at 1; apply Hfin];
    repeat constructor; intros ? (? & ? & ? & _); done.
Qed.

Lemma filter_none_table t ops : Forall (fun op => forall x, ~ of_table x op) ops -> filter (of_table t) ops = [].
Proof. induction 1 as [|op ops Hop Hops IH]; [done|]. by rewrite filter_cons, decide_False. Qed.

Lemma plan_marks_ops config tables :
  (plan_marks config tables).2 = inr tt /\ Forall (fun op => forall x, ~ of_table x op) (plan_marks config tables).1.
Proof.
  induction tables as [|t ts [IH1 IH2]]; simpl; [done|]. unfold mbind, Plan_bind, plan_mark.
  destruct (ic_has_tracker config && _); simpl; [|done]. split; [done|]. constructor; [|done]. by intros ? (? & ? & ? & _).
Qed.

(** every table with files is ordered *)
Lemma ordered_tables_all config files t :
  t ∉ ordered_tables config (group_files config files) -> default [] (dict_get t (group_files config files)) = [].
Proof.
  unfold ordered_tables. rewrite elem_of_app. intros Ht.
  destruct (dict_get t (group_files config files)) eqn:E; [|done]. destruct Ht. left.
  destruct (decide (t ∈ dict_keys (group_files config files))) as [|Hn]; [done|]. apply dict_get_None in Hn. congruence.
Qed.

Lemma concat_tables schema by_table (f : pystr -> list env_op) tables t :
  files_once by_table tables ->
  (forall x, filter (of_table t) (f x) = if decide (x = t) then table_events schema by_table x else []) ->
  (t ∉ tables -> default [] (dict_get t by_table) = []) ->
  filter (of_table t) (concat (f <$> tables)) = table_events schema by_table t.
Proof.
  intros Ho Hf. induction tables as [|x tables IH]; intros Hn.
  { symmetry. apply no_files_events, Hn, not_elem_of_nil. }
  destruct Ho as [Hx Ho]. rewrite fmap_cons. cbn [concat]. rewrite filter_app, Hf. case_decide as E.
  - subst x. destruct (decide (t ∈ tables)) as [Hin|Hni].
    + rewrite (no_files_events schema by_table t (Hx Hin)). simpl. rewrite IH by (done || set_solver).
      by apply no_files_events, Hx.
    + assert (filter (of_table t) (concat (f <$> tables)) = []) as ->; [|by rewrite app_nil_r].
      clear IH Ho Hx Hn. induction tables as [|y tables IH]; [done|]. apply not_elem_of_cons in Hni as [Hy Hni].
      rewrite fmap_cons. cbn [concat]. rewrite filter_app, Hf, decide_False by done. by apply IH.
  - apply IH; [done|]. intros Hni. apply Hn. set_solver.
Qed.

Lemma plan_recovery_same flusher config schema files total ops :
  plan_each (plan_listed config schema) files 0 = (ops, inr total) ->
  exists ops' total', plan_recovery flusher config schema files = (ops', inr total') /\
    forall t, filter (of_table t) ops' = filter (of_table t) ops.
Proof.
  intros Hplain.
  assert (Forall (fun f => exists n, (plan_listed config schema f).2 = inr n) files) as Hok
    by (apply (plan_each_succeeds _ _ 0); rewrite Hplain; by eexists).
  pose proof (plan_each_ok (plan_listed config schema) files 0 total ltac:(by rewrite Hplain)) as Hops.
  rewrite Hplain in Hops. simpl in Hops. subst ops.
  set (by_table := group_files config files). set (tables := ordered_tables config by_table).
  assert (forall t, Forall (fun f => exists n, (plan_file schema f.1 t f.2).2 = inr n) (default [] (dict_get t by_table))) as Hfiles.
  { intros t. unfold by_table. destruct (group_files_get config files t) as [-> _]. unfold files_of. rewrite Forall_fmap.
    apply Forall_forall. intros f [[Hw <-] Hin]%list_elem_of_filter. simpl.
    rewrite Forall_forall in Hok. specialize (Hok f Hin). unfold plan_listed in Hok. by rewrite Hw in Hok. }
  assert (exists n, (plan_each (plan_table flusher config schema by_table) tables 0).2 = inr n) as [n Hn].
  { apply plan_each_succeeds, Forall_forall. intros t _. by apply plan_table_succeeds. }
  pose proof (plan_each_ok _ _ _ _ Hn) as Htops. unfold plan_recovery. fold by_table tables. unfold mbind, Plan_bind.
  destruct (plan_each (plan_table flusher config schema by_table) tables 0) as [tops [e|m]]; [done|]. simpl in *. subst tops.
  set (tops := concat ((fun x => (plan_table flusher config schema by_table x).1) <$> tables)).
  assert (forall t, filter (of_table t) tops = table_events schema by_table t) as Htops.
  { intros t. apply concat_tables; [apply ordered_tables_once| |].
    - intros x. by apply plan_table_succeeds.
    - apply ordered_tables_all. }
  assert (forall tail t, Forall (fun op => forall x, ~ of_table x op) tail ->
    filter (of_table t) (tops ++ tail) = filter (of_table t) (concat ((fun f => (plan_listed config schema f).1) <$> files))) as Hfin.
  { intros tail t Htail. rewrite filter_app, (filter_none_table t tail Htail), app_nil_r, table_events_listed. apply Htops. }
  destruct flusher; simpl.
  - eexists _, m. split; [done|]. intros t. apply Hfin. repeat constructor. by intros ? (? & ? & ? & _).
  - pose proof (plan_marks_ops config tables) as [Hm1 Hm2]. destruct (plan_marks config tables) as [mops [e|[]]]; [done|].
    eexists _, m. split; [done|]. intros t. simpl. apply Hfin. constructor; [by intros ? (? & ? & ? & _)|].
    simpl. by rewrite app_nil_r.
Qed.

(** *** The end of a plan *)

Definition loads (op : env_op) : Prop := op <> OComplete.

Lemma of_table_loads t ops : Forall (of_table t) ops -> Forall loads ops.
Proof. intros H. eapply Forall_impl; [exact H|]. by intros op (e & data & -> & _). Qed.

Lemma plan_table_loads config schema by_table t : Forall loads (plan_table true config schema by_table t).1.
Proof.
  pose proof (plan_table_ops config schema by_table t) as H. pose proof (table_events_ops schema by_table t) as Hev.
  destruct (plan_table true config schema by_table t) as [ops [e|n]]; simpl; [by apply (of_table_loads t)|]. subst ops.
  apply Forall_app. split; [by apply (of_table_loads t)|]. by destruct (marks config); repeat constructor.
Qed.

Lemma plan_listed_ops config schema f :
  Forall (of_table (cf_table (parse_crdb_export_file f))) (plan_listed config schema f).1.
Proof. unfold plan_listed. destruct (wanted config f); [apply plan_file_ops|constructor]. Qed.

(** with a handler that can flush, completing is the last operation of a plan,
    and the plans that load the files end with it *)
Lemma plan_run_end config latest listing :
  exists body tail,
    (plan_run true config latest listing).1 = body ++ tail /\ Forall loads body /\ (tail = [] \/ tail = [OComplete]) /\
    (forall n, (plan_run true config latest listing).2 = inr (Some n) -> tail = [OComplete]).
Proof.
  unfold plan_run. destruct latest as [e|schema]; [by exists [], []; split_and!; auto|].
  set (start := if ic_no_delete config then (mret tt : Plan unit) else emit (OCreate schema)).
  assert (exists s0, start = (s0, inr tt) /\ Forall loads s0) as (s0 & -> & Hs0)
    by (unfold start; destruct (ic_no_delete config); eexists; split; try done; repeat constructor; done).
  unfold mbind, Plan_bind. destruct (ic_schema_only config).
  { exists s0, []. simpl. rewrite app_nil_r. split_and!; auto. done. }
  destruct listing as [e|files]; [exists s0, []; simpl; rewrite app_nil_r; split_and!; auto; done|].
  destruct (ic_recovery_enabled config).
  - unfold plan_recovery, mbind, Plan_bind.
    pose proof (plan_each_ops loads (plan_table true config schema (group_files config files))
      (ordered_tables config (group_files config files)) 0 (fun t _ => plan_table_loads config schema _ t)) as Ht.
    destruct (plan_each _ _ 0) as [tops [e|n]]; simpl in *.
    + exists (s0 ++ tops), []. rewrite !app_nil_r. split_and!; auto; [by apply Forall_app|done].
    + exists (s0 ++ tops), [OComplete]. rewrite <- !app_assoc. split_and!; auto. by apply Forall_app.
  - pose proof (plan_each_ops loads (plan_listed config schema) files 0
      (fun f _ => of_table_loads _ _ (plan_listed_ops config schema f))) as Ht.
    destruct (plan_each _ _ 0) as [tops [e|n]]; simpl in *.
    + exists (s0 ++ tops), []. rewrite !app_nil_r. split_and!; auto; [by apply Forall_app|done].
    + exists (s0 ++ tops), [OComplete]. rewrite <- !app_assoc. split_and!; auto. by apply Forall_app.
Qed.
(** ** What the environment sees *)

Inductive env_call : Type :=
| LCreate (schema : pydict Schema)
| LEvent (e : DBChangeEvent) (data : Schema)
| LFlush
| LSet (key value : pystr)
| LComplete.

Section Logged.
Context {W : Type} `{!ImportEnv W}.

Definition logged (c : env_call) (m : method W exn unit) : method (W * list env_call) exn unit :=
  fun '(w, log) => let '(r, w') := m w in (r, (w', log ++ [c])).

(** the environment with a log of its calls, the last of which may have raised *)
#[export] Instance logged_env : ImportEnv (W * list env_call) := {|
  ie_create_datasource schema := logged (LCreate schema) (ie_create_datasource schema);
  ie_import_event e data := logged (LEvent e data) (ie_import_event e data);
  ie_import_completed := logged LComplete ie_import_completed;
  ie_flush_imported := logged LFlush <$> ie_flush_imported;
  ie_set_key key value := logged (LSet key value) (ie_set_key key value)
|}.

Definition calls_of (config : ImporterConfig) (op : env_op) : list env_call :=
  match op with
  | OCreate schema => [LCreate schema]
  | OEvent e data => [LEvent e data]
  | OFlush => match ie_flush_imported (W:=W) with Some _ => [LFlush] | None => [] end
  | OMark table => [LSet (progress_key (ic_run_id config) table) (u"1")]
  | OComplete => [LComplete]
  end.

Lemma exec_op_logged config op w log :
  let '(r, (w', log')) := exec_op config op (w, log) in log' = log ++ calls_of config op.
Proof.
  destruct op; simpl; unfold logged;
    try (match goal with |- context [let (_, _) := ?m w in _] => by destruct (m w) as [r w'] end).
  destruct (ie_flush_imported (W:=W)) as [f|]; simpl; [by destruct (f w)|by rewrite app_nil_r].
Qed.

Lemma exec_ops_logged config ops w log :
  let '(r, (w', log')) := for_each (exec_op config) ops (w, log) in
  exists done rest, ops = done ++ rest /\ log' = log ++ flat_map (calls_of config) done /\ (r = inr tt -> rest = []).
Proof.
  revert w log. induction ops as [|op ops IH]; intros w log; simpl.
  { exists [], []. split_and!; [done|by rewrite app_nil_r|done]. }
  unfold mbind, M_bind. pose proof (exec_op_logged config op w log) as H.
  destruct (exec_op config op (w, log)) as [[e|[]] [w1 log1]]; subst log1.
  - exists [op], ops. split_and!; [done|by simpl; rewrite app_nil_r|done].
  - specialize (IH w1 (log ++ calls_of config op)). destruct (for_each _ ops _) as [r [w2 log2]].
    destruct IH as (done & rest & -> & -> & Hr). exists (op :: done), rest. split_and!; [done| |done].
    simpl. by rewrite app_assoc.
Qed.

(** the log of a run is the calls of the first operations of its plan *)
Lemma run_logged config latest listing w :
  let plan := plan_run (has_flush (W:=W)) config latest listing in
  let '(r, (w', log)) := run config latest listing (w, []) in
  exists done rest, plan.1 = done ++ rest /\ log = flat_map (calls_of config) done /\
    (forall n, r = inr n -> rest = [] /\ plan.2 = inr n).
Proof.
  intros plan. rewrite run_plan_eq.
  assert (has_flush (W:=W * list env_call) = has_flush (W:=W)) as -> by (unfold has_flush; simpl; by destruct ie_flush_imported).
  fold plan. unfold execute. unfold mbind, M_bind. pose proof (exec_ops_logged config plan.1 w []) as H.
  destruct (for_each _ plan.1 (w, [])) as [[e|[]] [w' log]].
  - destruct H as (done & rest & ? & ? & ?). by exists done, rest.
  - destruct H as (done & rest & Hp & -> & Hr). specialize (Hr eq_refl). subst rest. destruct plan.2 as [e|a]; exists done, []; split_and!; try done.
Qed.

(** an event of a table among the calls *)
Definition event_of (table : pystr) (c : env_call) : Prop := match c with LEvent e _ => ev_table e = table | _ => False end.
#[export] Instance event_of_dec table c : Decision (event_of table c).
Proof. destruct c; simpl; apply _. Defined.

Lemma filter_calls config t ops :
  filter (event_of t) (flat_map (calls_of config) ops) = flat_map (calls_of config) (filter (of_table t) ops).
Proof.
  induction ops as [|op ops IH]; [done|]. cbn [flat_map]. rewrite filter_app, IH, filter_cons.
  destruct (decide (of_table t op)) as [Ho|Ho].
  - destruct Ho as (e & data & -> & He). cbn [flat_map calls_of]. f_equal. rewrite filter_cons, decide_True by done. done.
  - assert (filter (event_of t) (calls_of config op) = []) as ->; [|done].
    destruct op as [|e data| |table|]; cbn [calls_of]; try done.
    + rewrite filter_cons, decide_False; [done|]. intros He. apply Ho. by exists e, data.
    + by destruct (ie_flush_imported (W:=W)).
Qed.

(** a marker in the log is the marker of the plan *)
Lemma calls_split config ops pre t value post :
  flat_map (calls_of config) ops = pre ++ LSet (progress_key (ic_run_id config) t) value :: post ->
  exists opre opost, ops = opre ++ OMark t :: opost /\ pre = flat_map (calls_of config) opre /\
    post = flat_map (calls_of config) opost.
Proof.
  revert pre. induction ops as [|op ops IH]; intros pre; cbn [flat_map]; [by destruct pre|].
  assert ((exists table, op = OMark table) \/ ~ exists table, op = OMark table) as [[table ->]|Hno]
    by (destruct op; try (right; by intros [? ?]); left; by eexists).
  - cbn [calls_of app]. destruct pre as [|c pre]; simpl; intros E.
    + apply (inj2 cons) in E as [Ek <-]. apply (f_equal (fun c => match c with LSet k _ => k | _ => [] end)) in Ek.
      apply progress_key_inj in Ek as ->. by exists [], ops.
    + apply (inj2 cons) in E as [<- E]. destruct (IH pre E) as (opre & opost & -> & -> & ->). by exists (OMark table :: opre), opost.
  - assert (forall key v, LSet key v ∉ calls_of config op) as Hc.
    { intros key v. destruct op; cbn [calls_of]; try set_solver;
        first [by destruct Hno; eexists|by destruct (ie_flush_imported (W:=W)); set_solver]. }
    intros E. apply app_eq_inv in E as [(k & E1 & E2)|(k & E1 & E2)].
    + destruct k as [|c k].
      * rewrite app_nil_r in E1. simpl in E2. destruct (IH [] (eq_sym E2)) as (opre & opost & -> & Hpre & ->).
        exists (op :: opre), opost. cbn [flat_map]. by rewrite E1, <- Hpre, app_nil_r.
      * injection E2 as <- _. destruct (Hc (progress_key (ic_run_id config) t) value). rewrite E1. set_solver.
    + subst pre. destruct (IH k E2) as (opre & opost & -> & -> & ->). by exists (op :: opre), opost.
Qed.

(** C18: in recovery mode with a handler that can flush, on any environment and
    however the run ends: a table's completion marker is set right after a
    flush, the calls before it hold the events of every row of every file of the
    table, in order, and no event of the table comes after it. *)
Theorem marker_after_flush config schema files w r w' pre t value post :
  has_flush (W:=W) = true -> ic_recovery_enabled config = true ->
  run config (inr schema) (inr files) (w, []) = (r, (w', pre ++ LSet (progress_key (ic_run_id config) t) value :: post)) ->
  last pre = Some LFlush /\
  filter (event_of t) pre =
    flat_map (calls_of config) (concat ((fun f => (plan_file schema f.1 t f.2).1) <$> files_of config files t)) /\
  filter (event_of t) post = [].
Proof.
  intros Hfl Hrec E. pose proof (run_logged config (inr schema) (inr files) w) as H. rewrite E, Hfl in H.
  destruct H as (done & rest & Hp & Hlog & _). symmetry in Hlog.
  assert (exists opre opost, done = opre ++ OMark t :: opost /\ pre = flat_map (calls_of config) opre /\
            post = flat_map (calls_of config) opost) as (opre & opost & -> & -> & ->).
  { apply (calls_split config done pre t value post). exact Hlog. }
  rewrite <- app_assoc in Hp. destruct (plan_run_mark config schema files opre t (opost ++ rest) Hrec Hp) as (Hl & Hf & Hn).
  rewrite !filter_calls, Hf. rewrite filter_app in Hn. apply app_eq_nil in Hn as [-> _]. split_and!; [|done|done].
  apply last_Some in Hl as [l ->]. rewrite flat_map_app. simpl. unfold has_flush in Hfl.
  destruct (ie_flush_imported (W:=W)); [|done]. by rewrite last_app.
Qed.
End Logged.

(** an environment that accepts everything *)
Definition accepting_env (flusher : bool) : ImportEnv unit := {|
  ie_create_datasource _ := fun w => (inr tt, w);
  ie_import_event _ _ := fun w => (inr tt, w);
  ie_import_completed := fun w => (inr tt, w);
  ie_flush_imported := if flusher then Some (fun w => (inr tt, w)) else None;
  ie_set_key _ _ := fun w => (inr tt, w)
|}.
Section Accepting.
Context (flusher : bool).
#[local] Existing Instance accepting_env.
#[local] Instance accepting : ImportEnv unit := accepting_env flusher.

Lemma exec_accepted config ops w log :
  for_each (exec_op config) ops (w, log) = (inr tt, (tt, log ++ flat_map (calls_of config) ops)).
Proof.
  revert w log. induction ops as [|op ops IH]; intros [] log; simpl; [by rewrite app_nil_r|].
  unfold mbind, M_bind. assert (exec_op config op (tt, log) = (inr tt, (tt, log ++ calls_of config op))) as ->.
  { destruct op; simpl; try done. destruct flusher; simpl; [done|by rewrite app_nil_r]. }
  rewrite IH. by rewrite app_assoc.
Qed.

Lemma run_accepted config latest listing :
  let plan := plan_run flusher config latest listing in
  run config latest listing (tt, []) = (plan.2, (tt, flat_map (calls_of config) plan.1)).
Proof.
  intros plan. rewrite run_plan_eq.
  assert (has_flush (W:=unit * list env_call) = flusher) as -> by (unfold has_flush; simpl; by destruct flusher).
  fold plan. unfold execute, mbind, M_bind. rewrite exec_accepted. by destruct plan.2.
Qed.

Definition with_recovery (recovery : bool) (config : ImporterConfig) : ImporterConfig :=
  mk_importer_config (ic_no_delete config) (ic_schema_only config) (ic_tables config) recovery
    (ic_has_tracker config) (ic_run_id config).

(** grouping the files by table keeps the replay.  On an environment that
    raises nothing: when the single-flush run of a listing returns, so does the
    recovery run, and for every table the two import the same events in the
    same order, whether or not the handler can flush. *)
Theorem recovery_replays_same config schema files n log :
  run (with_recovery false config) (inr schema) (inr files) (tt, []) = (inr (Some n), (tt, log)) ->
  exists n' log',
    run (with_recovery true config) (inr schema) (inr files) (tt, []) = (inr (Some n'), (tt, log')) /\
    forall t, filter (event_of t) log' = filter (event_of t) log.
Proof.
  rewrite !run_accepted. unfold plan_run. cbn [with_recovery ic_no_delete ic_schema_only ic_recovery_enabled].
  set (start := if ic_no_delete config then (mret tt : Plan unit) else emit (OCreate schema)).
  assert (exists s0, start = (s0, inr tt)) as [s0 ->] by (unfold start; destruct (ic_no_delete config); by eexists).
  destruct (ic_schema_only config); [done|].
  change (plan_listed (with_recovery false config)) with (plan_listed (with_recovery true config)).
  change (calls_of (with_recovery false config)) with (calls_of (with_recovery true config)).
  set (c := with_recovery true config). intros E.
  destruct (plan_each (plan_listed c schema) files 0) as [ops [e|total]] eqn:Ep; unfold mbind, Plan_bind in E; [done|].
  destruct (plan_recovery_same flusher c schema files total ops Ep) as (ops' & total' & Er & Hf).
  unfold mbind, Plan_bind. rewrite Er. simpl in E. injection E as _ <-.
  eexists total', _. split; [reflexivity|]. intros t. rewrite !filter_calls, !filter_app. simpl. rewrite !filter_app, Hf.
  rewrite (filter_none_table t [OComplete]), !app_nil_r; [done|]. constructor; [|constructor]. by intros x (? & ? & ? & _).
Qed.
End Accepting.
End Importer.

(** ** A directory with two tables *)

Definition example_schema : pydict Schema :=
  let model table :=
    mk_schema [(u"id", mk_prop (u"string") [] false None None None None)] [u"id"] [u"id"] table (u"1") None in
  [(u"customer", model (u"customer")); (u"order", model (u"order"))].

(** two files of [customer] around one of [order], and a stray file *)
Definition example_files : list pystr :=
  [u"d/202407312359599999999990000000000-92d0-1-00000000-customer-1.ndjson.gz";
   u"d/202408010000000000000000000000000-92d0-1-00000001-order-1.ndjson.gz";
   u"d/202408010000000000000000000000001-92d0-1-00000002-customer-1.ndjson.gz";
   u"d/notes.txt"].

Definition id_row (id : string) : pystr := u"{" ++ dq ++ u"id" ++ dq ++ u":" ++ dq ++ u id ++ dq ++ u"}" ++ nl.

#[export] Instance example_world : ImportWorld := {|
  iw_hash := fun s => s;
  iw_validator := None;
  iw_json_error := fun _ => u"bad JSON";
  iw_event_error := fun _ => u"bad object";
  iw_validator_error := [];
  iw_open := fun f => inr [RText (id_row "1"); RText nl; RText (id_row "2")]
|}.

Definition example_config : ImporterConfig := mk_importer_config true false [u"customer"; u"order"] true true (u"run").

Lemma marker_after_flush_witness :
  let '(_, (_, log)) := run (ImportEnv0 := logged_env (ImportEnv0 := accepting_env true)) example_config
                          (inr example_schema) (inr example_files) (tt, []) in
  last (take 5 log) = Some LFlush /\ length (filter (event_of (u"customer")) (take 5 log)) = 4%nat /\
  filter (event_of (u"customer")) (drop 6 log) = [].
Proof.
  destruct (run (ImportEnv0 := logged_env (ImportEnv0 := accepting_env true)) example_config
    (inr example_schema) (inr example_files) (tt, [])) as [r [[] log]] eqn:E.
  assert (log = take 5 log ++ LSet (progress_key (u"run") (u"customer")) (u"1") :: drop 6 log) as Hlog.
  { vm_compute in E. injection E as _ <-. vm_compute. reflexivity. }
  rewrite Hlog in E.
  destruct (marker_after_flush (ImportEnv0 := accepting_env true) example_config example_schema example_files tt r tt
    (take 5 log) (u"customer") (u"1") (drop 6 log) eq_refl eq_refl E) as (Hl & Hf & Hp).
  split; [exact Hl|]. split; [rewrite Hf; vm_compute; reflexivity|exact Hp].
Defined.

Lemma recovery_replays_same_witness :
  exists n log, run (ImportEnv0 := logged_env (ImportEnv0 := accepting_env false)) example_config
                  (inr example_schema) (inr example_files) (tt, []) = (inr (Some n), (tt, log)) /\
    length (filter (event_of (u"customer")) log) = 4%nat.
Proof.
  destruct (run (ImportEnv0 := logged_env (ImportEnv0 := accepting_env false)) (with_recovery false example_config)
    (inr example_schema) (inr example_files) (tt, [])) as [r [[] log]] eqn:E.
  assert (r = inr (Some 6) /\ length (filter (event_of (u"customer")) log) = 4%nat) as [Hr Hlen].
  { vm_compute in E. injection E as <- <-. split; vm_compute; reflexivity. }
  subst r. destruct (recovery_replays_same false example_config example_schema example_files 6 log E) as (n & log' & E' & H).
  exists n, log'. split; [exact E'|]. rewrite H. exact Hlen.
Defined.
