(* ===== verification/ImportCommand.v ===== *)
(** * The import command: eds/cmd/import_cmd.py

    [run_import_command] resolves its settings, opens the tracker and the
    registry and runs [_do_import]: the import of a directory, of a schema, or of
    an export, the last either in one attempt or through the recovery.

    [Cmd] is what the run shares: the outside world, the tracker, the
    configuration file, and a trace of the directories it made and removed, the
    questions it asked and the imports it ran.  The export service is an
    interface of its own, [ExportService]; the importer, the registry and the
    file system are methods of [ImportHost].  The recovery runs in a world that
    writes its calls down.

    The theorems: which directories a run removes, what a run leaves for the next
    one, what its exit code says, and which cutoffs the worker gets. *)
From stdpp Require Import base tactics list option numbers sets strings gmap.
From S2P Require Import Prelude ExitCodes PyStr PyDict PyFloat GoJson Schema Interfaces DriverConfig Config Credentials RfcTime Tracker CrdbFile ImportClient TableExport Recovery Importer.

(** ** The outside *)

(** the export service: [create_export_job], [poll_until_complete] ([None]: the
    run was cancelled) and [bulk_download_data] *)
Class ExportService (W : Type) := {
  es_create : pystr -> pystr -> list pystr -> list pystr -> list pystr -> option Z -> method W exn pystr;
  es_poll : pystr -> pystr -> bool -> pystr -> method W exn (option ExportJobResponse);
  es_download : pydict ExportJobTableData -> pystr -> method W exn (list TableExportInfo)
}.

(** the configuration of an import: what the replay reads, and what the driver
    and the log read *)
Record ImportRun := mk_run {
  im_config : ImporterConfig;
  im_url : pystr; im_job_id : pystr; im_data_dir : pystr;
  im_dry_run : bool; im_single : bool; im_max_parallel : Z
}.

Class ImportHost (W : Type) := {
  (** opening the tracker, loading the validator of a directory, building the
      registry; the registry writes to the tracker *)
  ih_open_tracker : method W exn unit;
  ih_load_validator : pystr -> method W exn unit;
  ih_open_registry : pystr -> method (W * Tracker) exn unit;
  ih_latest_schema : method W exn (pydict Schema);
  ih_set_table_version : pystr -> pystr -> method (W * Tracker) exn unit;
  (** the connection test of the driver *)
  ih_test : pystr -> method W exn unit;
  (** [not isinstance(importer, ImporterHelp) or importer.supports_delete()] *)
  ih_supports_delete : W -> bool;
  ih_run_import : ImportRun -> method (W * Tracker) exn unit;
  (** the answer on the terminal; [None] is its end *)
  ih_input : pystr -> method W exn (option pystr);
  ih_mkdtemp : pystr -> method W exn pystr;
  ih_list_dir : pystr -> method W exn (list pystr);
  ih_rmtree : pystr -> W -> W;
  (** the shutdown signal, the clocks (the second one in microseconds) *)
  ih_cancelled : W -> bool * W;
  ih_sleep : Z -> W -> W;
  ih_wall : W -> Z;
  ih_now : W -> Z
}.

(** the options of the command line *)
Record ImportArgs := mk_args {
  ia_url : pystr; ia_api_key : pystr; ia_api_url : option pystr; ia_time_offset : pystr;
  ia_schema_validator : pystr;
  ia_dry_run : bool; ia_validate_only : bool; ia_no_confirm : bool; ia_schema_only : bool;
  ia_no_delete : bool; ia_no_cleanup : bool; ia_single : bool; ia_parallel : Z;
  ia_dir : pystr; ia_job_id : pystr;
  ia_only : list pystr; ia_company_ids : list pystr; ia_location_ids : list pystr;
  ia_max_retries : option Z
}.

Inductive ccall : Type :=
| KConfirm (target : pystr) (answer : bool)
| KMkdtemp (dir : pystr)
| KRemove (dir : pystr)
| KRun (run : ImportRun) (r : exn + unit)
| KVersion (table version : pystr).

(** [int(dt.timestamp() * 1000)]: a quotient and a product of floats, cut off *)
Definition timestamp_ms (us : Z) : Z :=
  let rounded num den := if num =? 0 then (0, 1)
    else match to_binary64 num den with Some (m, e2) => of_binary64 m e2 | None => (num, den) end in
  let '(n, d) := rounded (Z.abs us) 1000000 in
  let '(n, d) := rounded (n * 1000) d in
  Z.sgn us * (n / d).

(** [_confirm]'s reading of the answer *)
Definition confirmed (answer : option pystr) : bool :=
  match answer with
  | None => false
  | Some a => str_in (lower_full (strip a)) [u"yes"; u"y"]
  end.

(** [str(time_offset_ms)] *)
Definition offset_text (ms : option Z) : pystr := match ms with Some n => str_of_Z n | None => u"None" end.

Definition run_identity (driver_url : pystr) (only company_ids location_ids : list pystr) (time_offset_ms : option Z) : pystr :=
  join (u"|") [driver_url; join (u",") (sorted_strs only); join (u",") (sorted_strs company_ids);
               join (u",") (sorted_strs location_ids); offset_text time_offset_ms].

(** [json.dumps] of a list of strings *)
Definition dumps_char (c : Z) : pystr :=
  match dict_get [c] [([34], u"\" ++ dq); ([92], u"\\"); ([10], u"\n"); ([13], u"\r"); ([9], u"\t"); ([8], u"\b"); ([12], u"\f")] with
  | Some t => t
  | None =>
      if (32 <=? c) && (c <=? 126) then [c]
      else if c <? 65536 then u"\u" ++ hex4 c
      else u"\u" ++ hex4 (55296 + (c - 65536) / 1024) ++ u"\u" ++ hex4 (56320 + (c - 65536) mod 1024)
  end.

Definition dumps_strs (l : list pystr) : pystr :=
  u"[" ++ join (u", ") ((fun t => dq ++ flat_map dumps_char t ++ dq) <$> l) ++ u"]".

Definition failed_key (run_id : pystr) : pystr := u"import-failed:" ++ run_id.
Definition progress_prefix (run_id : pystr) : pystr := u"import-progress:" ++ run_id ++ u":".

(** ** The state of a run *)
Section command.
Context {W : Type} `{!ImportHost W} `{!ExportService W}.
Context (reg : Registries).
(** the hash of the run identity, the TOML reader and the text of foreign values,
    and the two readings of times *)
Context (eds_hash : pystr -> pystr) (loads : pystr -> option Config) (other_str : pyobj -> pystr).
Context (other_iso : pystr -> option moment) (local_time : datetime -> Z).
Context (args : ImportArgs).

Record Cmd := mk_cmd {
  cm_world : W;
  cm_tracker : Tracker;
  cm_config : option (list Z);
  cm_temp_dirs : list pystr;
  cm_trace : list ccall
}.

Definition cm_set_world (w : W) (s : Cmd) : Cmd := mk_cmd w (cm_tracker s) (cm_config s) (cm_temp_dirs s) (cm_trace s).
Definition cm_set_tracker (t : Tracker) (s : Cmd) : Cmd := mk_cmd (cm_world s) t (cm_config s) (cm_temp_dirs s) (cm_trace s).
Definition cm_set_config (c : option (list Z)) (s : Cmd) : Cmd := mk_cmd (cm_world s) (cm_tracker s) c (cm_temp_dirs s) (cm_trace s).
Definition cm_add_temp (d : pystr) (s : Cmd) : Cmd := mk_cmd (cm_world s) (cm_tracker s) (cm_config s) (cm_temp_dirs s ++ [d]) (cm_trace s).
Definition cm_note (c : ccall) (s : Cmd) : Cmd := mk_cmd (cm_world s) (cm_tracker s) (cm_config s) (cm_temp_dirs s) (cm_trace s ++ [c]).

Abbreviation CmdM A := (M Cmd exn A).

Definition on_host {A} (f : method W exn A) : CmdM A :=
  fun s => let '(r, w) := f (cm_world s) in (r, cm_set_world w s).
(** a method that has the tracker as well *)
Definition on_store {A} (f : method (W * Tracker) exn A) : CmdM A :=
  fun s => let '(r, (w, t)) := f (cm_world s, cm_tracker s) in (r, cm_set_tracker t (cm_set_world w s)).
(** the configuration file; its errors are ValueErrors *)
Definition on_config {A} (f : M (option (list Z)) config_error A) : CmdM A :=
  fun s => let '(r, c) := f (cm_config s) in (match r with inl _ => inl (ValueError []) | inr a => inr a end, cm_set_config c s).

Definition cancelled : CmdM bool := fun s => let '(b, w) := ih_cancelled (cm_world s) in (inr b, cm_set_world w s).

(** [_progress_marker_present] *)
Definition marker_present (run_id table : pystr) : CmdM bool :=
  fun s => let '((found, _), t) := get_key (ih_wall (cm_world s)) (progress_key run_id table) (cm_tracker s) in
           (inr found, cm_set_tracker t s).

Definition tracker_set (key value : pystr) : CmdM unit :=
  modify (fun s => cm_set_tracker (set_key (ih_wall (cm_world s)) key value 0 (cm_tracker s)) s).
Definition tracker_delete (key : pystr) : CmdM unit :=
  modify (fun s => cm_set_tracker (delete_key [key] (cm_tracker s)) s).
(** a prefix that cannot be encoded raises a UnicodeEncodeError, a ValueError *)
Definition tracker_delete_prefix (prefix : pystr) : CmdM unit :=
  t ← gets cm_tracker;
  match delete_keys_with_prefix prefix t with
  | Some (_, t') => modify (cm_set_tracker t')
  | None => raise (ValueError [])
  end.

(** the tables of [ts] whose marker is there *)
Fixpoint marked_of (run_id : pystr) (ts : list pystr) : CmdM (list pystr) :=
  match ts with
  | [] => mret []
  | t :: ts' =>
      found ← marker_present run_id t;
      rest ← marked_of run_id ts';
      mret (if (found : bool) then t :: rest else rest)
  end.

Definition make_temp (prefix : pystr) : CmdM pystr :=
  dir ← on_host (ih_mkdtemp prefix);
  _ ← modify (cm_note (KMkdtemp dir));
  mret dir.

Definition remove_dir (dir : pystr) : CmdM unit :=
  modify (fun s => cm_note (KRemove dir) (cm_set_world (ih_rmtree dir (cm_world s)) s)).

(** [importer.run_import] *)
Definition run_importer (run : ImportRun) : CmdM unit :=
  fun s => let '(r, s') := on_store (ih_run_import run) s in (r, cm_note (KRun run r) s').

(** the versions just migrated *)
Definition set_version (latest : pydict Schema) (table : pystr) : CmdM unit :=
  match dict_get table latest with
  | None => mret tt
  | Some data =>
      _ ← on_store (ih_set_table_version table (sc_model_version data));
      modify (cm_note (KVersion table (sc_model_version data)))
  end.

Definition set_versions (latest : pydict Schema) (tables : list pystr) (infos : list TableExportInfo) : CmdM unit :=
  for_each (fun info => if str_in (ti_table info) tables then set_version latest (ti_table info) else mret tt) infos.

(** ** The stages of an import with recovery *)
Section stages.
Context (api_url api_key driver_url run_id : pystr).

Definition export_fn (tables : list pystr) (p : ImportPlan) : CmdM pystr :=
  on_host (es_create api_url api_key tables (pl_company_ids p) (pl_location_ids p) (pl_time_offset_ms p)).

Definition poll_fn (job_id : pystr) : CmdM ExportJobResponse :=
  job ← on_host (es_poll api_url api_key false job_id);
  match job with
  | None => raise RecoveryCancelled
  | Some job => c ← cancelled; if (c : bool) then raise RecoveryCancelled else mret job
  end.

Definition download_fn (job : ExportJobResponse) (tables : list pystr) (job_id : pystr) :
    CmdM (list TableExportInfo * pystr) :=
  attempt_dir ← make_temp (u"import-" ++ job_id ++ u"-");
  _ ← modify (cm_add_temp attempt_dir);
  let subset := filter (fun '(t, _) => t ∈ tables) (ej_tables job) in
  info ← catch (on_host (es_download subset attempt_dir))
           (fun e => raise (DownloadStageError (exn_str e) (_download_urls_expired e)) : CmdM (list TableExportInfo));
  c ← cancelled;
  if (c : bool) then raise RecoveryCancelled else mret (info, attempt_dir).

Definition import_fn (job_id : pystr) (tables : list pystr) (attempt_dir : pystr) : CmdM unit :=
  run_importer (mk_run (mk_importer_config (ia_no_delete args) false tables true true run_id)
    driver_url job_id attempt_dir (ia_dry_run args) (ia_single args) (ia_parallel args)).

Definition command_stages : ImportStages Cmd := {|
  st_export := export_fn;
  st_poll := poll_fn;
  st_download := download_fn;
  st_import := import_fn;
  st_has_tracker := true;
  st_marker := marker_present;
  st_cancelled s := let '(b, w) := ih_cancelled (cm_world s) in (b, cm_set_world w s);
  st_sleep n s := cm_set_world (ih_sleep n (cm_world s)) s
|}.

(** the recovery, in a world that writes its calls down; the loop leaves by
    itself (see [recover_import_ends]) *)
Definition recovery_state (plan : ImportPlan) (max_retries : Z) (tables : list pystr) (job_id : pystr) (completed : list pystr)
    (s : Cmd) : (exn + option RecoveryResult) * RecState (Cmd * list rcall) :=
  traced_run (ImportStages0 := command_stages) plan max_retries tables job_id completed s.

Definition recover_import (plan : ImportPlan) (max_retries : Z) (tables : list pystr) (job_id : pystr) (completed : list pystr) :
    CmdM RecoveryResult :=
  fun s => let '(r, st) := recovery_state plan max_retries tables job_id completed s in
    (match r with inl e => inl e | inr (Some res) => inr res | inr None => inl RecoveryCancelled end, (rc_world st).1).
End stages.

Definition run_id_of (driver_url : pystr) (time_offset_ms : option Z) : pystr :=
  eds_hash (run_identity driver_url (ia_only args) (ia_company_ids args) (ia_location_ids args) time_offset_ms).

Definition clear_progress (run_id : pystr) : CmdM unit :=
  _ ← tracker_delete_prefix (progress_prefix run_id);
  tracker_delete (failed_key run_id).

(** the tables a run may import, and those it asks for *)
Definition candidates (latest : pydict Schema) : list pystr :=
  match ia_only args with [] => dict_keys latest | only => only end.
Definition initial_tables (latest : pydict Schema) (completed : list pystr) : list pystr :=
  match completed with [] => ia_only args | _ => filter (fun t => t ∉ completed) (candidates latest) end.

(** what follows a result of the recovery *)
Definition record_result (driver : DriverObject) (run_id : pystr) (latest : pydict Schema) (r : RecoveryResult) : CmdM Z :=
  _ ← (if do_migration driver then set_versions latest (rr_imported r) (rr_table_export_info r) else mret tt : CmdM unit);
  _ ← tracker_set TRACKER_TABLE_EXPORT_KEY (marshal_table_export_info (rr_table_export_info r));
  temp_dirs ← gets cm_temp_dirs;
  _ ← (if ia_no_cleanup args then mret tt else for_each remove_dir temp_dirs : CmdM unit);
  match rr_permanently_failed r with
  | [] => _ ← clear_progress run_id; mret EXIT_SUCCESS
  | failed => _ ← tracker_set (failed_key run_id) (dumps_strs (sorted_strs failed)); mret EXIT_ERROR
  end.

Definition _do_import_with_recovery (driver : DriverObject) (api_url api_key driver_url : pystr) (time_offset_ms : option Z)
    (max_retries : Z) : CmdM Z :=
  latest ← attempt (on_host ih_latest_schema);
  match latest with
  | inl _ => mret EXIT_ERROR
  | inr latest =>
      let run_id := run_id_of driver_url time_offset_ms in
      let plan := mk_plan (ia_company_ids args) (ia_location_ids args) time_offset_ms run_id in
      marked ← marked_of run_id (candidates latest);
      let completed := remove_dups marked in
      let tables := initial_tables latest completed in
      if negb (bool_decide (completed = [])) && bool_decide (tables = []) then
        _ ← clear_progress run_id; mret EXIT_SUCCESS
      else
        result ← attempt (recover_import api_url api_key driver_url run_id plan max_retries tables (ia_job_id args) completed);
        match result with
        | inl (UsageError _ exit_code) => mret exit_code
        | inl _ => mret EXIT_ERROR
        | inr r => record_result driver run_id latest r
        end
  end.

(** ** The import in one attempt *)

(** the directory, the times of the tables, the tables and the job; or the exit code *)
Definition fetched : Type := pystr * list TableExportInfo * list pystr * pystr.

Definition fetch_export (api_url api_key : pystr) (time_offset_ms : option Z) : CmdM (Z + fetched) :=
  job_id ← (match ia_job_id args with
            | [] => on_host (es_create api_url api_key (ia_only args) (ia_company_ids args) (ia_location_ids args) time_offset_ms)
            | job_id => mret job_id
            end : CmdM pystr);
  job ← on_host (es_poll api_url api_key true job_id);
  match job with
  | None => mret (inl EXIT_ERROR)
  | Some job =>
      c ← cancelled;
      if (c : bool) then mret (inl EXIT_ERROR)
      else
        dir ← make_temp (u"import-" ++ job_id ++ u"-");
        infos ← on_host (es_download (ej_tables job) dir);
        c ← cancelled;
        if (c : bool) then mret (inl EXIT_ERROR) else mret (inr (dir, infos, table_names infos, job_id))
  end.

Definition fetch_schema_only : CmdM (Z + fetched) :=
  schema ← on_host ih_latest_schema;
  now ← gets (fun s => ih_now (cm_world s));
  let infos := (fun t => mk_info t now) <$> dict_keys schema in
  mret (inr ([], infos, table_names infos, ia_job_id args)).

(** the tables of the files of a directory *)
Definition tables_of (files : list pystr) : list pystr :=
  foldl (fun tables f => let c := parse_crdb_export_file f in
           if cf_ok c && negb (str_in (cf_table c) tables) then tables ++ [cf_table c] else tables) [] files.

(** a record no import writes counts as one that cannot be read *)
Definition fetch_dir : CmdM (Z + fetched) :=
  s ← gets id;
  let '(td, t) := load_table_export_info other_iso local_time (ih_wall (cm_world s)) (cm_tracker s) in
  _ ← modify (cm_set_tracker t);
  match td with
  | inl _ => raise (ValueError [])
  | inr (Some infos) => mret (inr (ia_dir args, infos, table_names infos, ia_job_id args))
  | inr None => files ← on_host (ih_list_dir (ia_dir args)); mret (inr (ia_dir args, [], tables_of files, ia_job_id args))
  end.

Definition fetch (api_url api_key : pystr) (time_offset_ms : option Z) : CmdM (Z + fetched) :=
  match ia_dir args with
  | [] => if ia_schema_only args then fetch_schema_only else fetch_export api_url api_key time_offset_ms
  | _ => fetch_dir
  end.

Definition single_attempt (driver : DriverObject) (driver_url : pystr) (f : fetched) : CmdM (Z + (pystr * list TableExportInfo)) :=
  let '(dir, infos, tables, job_id) := f in
  let tables := match ia_only args with [] => tables | only => filter (fun t => t ∈ only) tables end in
  ran ← attempt (run_importer (mk_run (mk_importer_config (ia_no_delete args) (ia_schema_only args) tables false false [])
                   driver_url job_id dir (ia_dry_run args) (ia_single args) (ia_parallel args)));
  match ran with
  | inl _ => mret (inl EXIT_ERROR)
  | inr _ =>
      _ ← (if do_migration driver then latest ← on_host ih_latest_schema; set_versions latest tables infos else mret tt : CmdM unit);
      mret (inr (dir, infos))
  end.

(** the [finally] of a success; a directory the caller gave is kept *)
Definition finish (dir : pystr) (infos : list TableExportInfo) : CmdM unit :=
  let no_cleanup := ia_no_cleanup args || negb (str_eqb (ia_dir args) []) in
  _ ← (if negb no_cleanup && negb (str_eqb dir []) then remove_dir dir else mret tt : CmdM unit);
  tracker_set TRACKER_TABLE_EXPORT_KEY (marshal_table_export_info infos).

Definition do_import_once (driver : DriverObject) (api_url api_key driver_url : pystr) (time_offset_ms : option Z) : CmdM Z :=
  body ← attempt (f ← fetch api_url api_key time_offset_ms;
                  match f with inl code => mret (inl code) | inr f => single_attempt driver driver_url f end);
  match body with
  | inl _ => mret EXIT_ERROR
  | inr (inl code) => mret code
  | inr (inr (dir, infos)) => _ ← finish dir infos; mret EXIT_SUCCESS
  end.

(** ** The command *)

Definition resolve_retries : CmdM Z :=
  config ← on_config (load_config loads);
  let key := u"import_max_retries" in
  let '(retries, stored) := resolve_max_retries (ia_max_retries args)
        (if has key config then Some (get_int key RECOVERY_DEFAULT_MAX_RETRIES config) else None) in
  _ ← (match stored with Some v => on_config (set_config_value loads other_str key (PInt v)) | None => mret tt end : CmdM unit);
  mret retries.

Definition needs_confirm (supports_delete : bool) : bool :=
  negb (ia_dry_run args || ia_no_confirm args || negb supports_delete || ia_schema_only args || ia_no_delete args).

(** [_confirm] *)
Definition _confirm (target : pystr) : CmdM bool :=
  answer ← on_host (ih_input target);
  _ ← modify (cm_note (KConfirm target (confirmed answer)));
  mret (confirmed answer).

Definition do_importer (driver : DriverObject) (api_url api_key driver_url : pystr) (time_offset_ms : option Z) : CmdM Z :=
  max_retries ← resolve_retries;
  if (0 <? max_retries) && str_eqb (ia_dir args) [] && negb (ia_schema_only args)
  then _do_import_with_recovery driver api_url api_key driver_url time_offset_ms max_retries
  else do_import_once driver api_url api_key driver_url time_offset_ms.

Definition _do_import (api_url api_key driver_url : pystr) (time_offset_ms : option Z) : CmdM Z :=
  match new_driver_for_import driver_url reg with
  | inl _ => mret EXIT_INCORRECT_USAGE
  | inr driver =>
      tested ← attempt (on_host (ih_test driver_url));
      match tested with
      | inl _ => mret EXIT_INCORRECT_USAGE
      | inr _ =>
          if ia_validate_only args then mret EXIT_SUCCESS
          else
            match new_importer driver_url reg with
            | inl _ => mret EXIT_ERROR
            | inr _ =>
                supports_delete ← gets (fun s => ih_supports_delete (cm_world s));
                go ← (if needs_confirm supports_delete then
                        _confirm (match get_driver_metadata_for_url driver_url reg with Some m => dm_name m | None => driver_url end)
                      else mret true : CmdM bool);
                if (go : bool) then do_importer driver api_url api_key driver_url time_offset_ms else mret EXIT_SUCCESS
            end
      end
  end.

(** the outer [None] is a time that cannot be used *)
Definition time_offset : option (option Z) :=
  match ia_time_offset args with
  | [] => Some None
  | text => match parse_rfc3339 other_iso text with
            | Some (Aware us) => Some (Some (timestamp_ms us))
            | Some (Naive _) | None => None
            end
  end.

Definition command_api_url (api_key : pystr) : option pystr :=
  match ia_api_url args with
  | Some url => Some url
  | None => match get_api_url_from_jwt api_key with inr url => Some url | inl _ => None end
  end.

(** the tracker, the validator and the registry, each a failure of its own *)
Definition open_parts (api_url : pystr) : CmdM unit :=
  _ ← on_host ih_open_tracker;
  _ ← (match ia_schema_validator args with [] => mret tt | dir => on_host (ih_load_validator dir) end : CmdM unit);
  on_store (ih_open_registry api_url).

Definition run_import_command : CmdM Z :=
  config ← on_config (load_config loads);
  let setting option key := match option with [] => get_string other_str key [] config | v => v end in
  match setting (ia_url args) (u"url"), setting (ia_api_key args) (u"token") with
  | [], _ | _, [] => mret EXIT_INCORRECT_USAGE
  | driver_url, api_key =>
      match time_offset with
      | None => mret EXIT_ERROR
      | Some time_offset_ms =>
          match command_api_url api_key with
          | None => mret EXIT_ERROR
          | Some api_url =>
              opened ← attempt (open_parts api_url);
              match opened with
              | inl _ => mret EXIT_ERROR
              | inr _ => _do_import api_url api_key driver_url time_offset_ms
              end
          end
      end
  end.

(** the exit code of the process: an exception is a panic (eds/cmd/root.py) *)
Definition import_exit (s : Cmd) : Z * Cmd :=
  match run_import_command s with
  | (inr code, s') => (code, s')
  | (inl _, s') => (EXIT_PANIC, s')
  end.
End command.
Arguments Cmd W : clear implicits.

(** ** The directories of a run *)

Definition made (tr : list ccall) : list pystr := omap (fun c => match c with KMkdtemp d => Some d | _ => None end) tr.
Definition removed (tr : list ccall) : list pystr := omap (fun c => match c with KRemove d => Some d | _ => None end) tr.

Lemma made_snoc tr c : made (tr ++ [c]) = made tr ++ match c with KMkdtemp d => [d] | _ => [] end.
Proof. unfold made. rewrite omap_app. f_equal. by destruct c. Qed.
Lemma removed_snoc tr c : removed (tr ++ [c]) = removed tr ++ match c with KRemove d => [d] | _ => [] end.
Proof. unfold removed. rewrite omap_app. f_equal. by destruct c. Qed.

Section dirs.
Context {W : Type} `{!ImportHost W} `{!ExportService W}.
Context (reg : Registries).
Context (eds_hash : pystr -> pystr) (loads : pystr -> option Config) (other_str : pyobj -> pystr).
Context (other_iso : pystr -> option moment) (local_time : datetime -> Z).
Context (args : ImportArgs).

Abbreviation CmdM A := (M (Cmd W) exn A).

(** the directories made, removed, and noted for the cleanup *)
Definition dirs (s : Cmd W) : list pystr * list pystr * list pystr := (made (cm_trace s), removed (cm_trace s), cm_temp_dirs s).

(** a computation that neither makes nor removes a directory *)
Definition quiet {A} (m : CmdM A) : Prop := forall D, stays (fun s => dirs s = D) m.

Lemma quiet_host {A} (f : method W exn A) : quiet (on_host f).
Proof. intros D s Hs. unfold on_host. by destruct (f (cm_world s)) as [[] ?]. Qed.
Lemma quiet_store {A} (f : method (W * Tracker) exn A) : quiet (on_store f).
Proof. intros D s Hs. unfold on_store. by destruct (f _) as [[] [? ?]]. Qed.
Lemma quiet_config {A} (f : M (option (list Z)) config_error A) : quiet (on_config f).
Proof. intros D s Hs. unfold on_config. by destruct (f _) as [[] ?]. Qed.
Lemma quiet_cancelled : quiet cancelled.
Proof. intros D s Hs. unfold cancelled. by destruct (ih_cancelled _). Qed.
Lemma quiet_marker run_id t : quiet (marker_present run_id t).
Proof. intros D s Hs. unfold marker_present. by destruct (get_key _ _ _) as [[? ?] ?]. Qed.
Lemma quiet_modify (f : Cmd W -> Cmd W) : (forall s, dirs (f s) = dirs s) -> quiet (modify f).
Proof. intros Hf D. apply stays_modify. intros s. by rewrite Hf. Qed.
Lemma quiet_set key value : quiet (tracker_set (W:=W) key value).
Proof. by apply quiet_modify. Qed.
Lemma quiet_delete key : quiet (tracker_delete (W:=W) key).
Proof. by apply quiet_modify. Qed.
Lemma quiet_note c : match c with KMkdtemp _ | KRemove _ => False | _ => True end -> quiet (modify (cm_note c)).
Proof. intros Hc. apply quiet_modify. intros s. unfold dirs. simpl. rewrite made_snoc, removed_snoc. destruct c; try done; by rewrite !app_nil_r. Qed.
Lemma quiet_then {A B} (m : CmdM A) (b : B) : quiet m -> quiet (_ ← m; mret b).
Proof. intros Hm D. apply stays_bind; [apply Hm|]. intros _. apply stays_ret. Qed.
Lemma quiet_attempt {A} (m : CmdM A) : quiet m -> quiet (attempt m).
Proof. intros Hm D. by apply stays_attempt. Qed.
Lemma quiet_importer run : quiet (run_importer run).
Proof.
  intros D s Hs. unfold run_importer. pose proof (quiet_store (ih_run_import run) D s Hs) as H.
  destruct (on_store _ s) as [r s1]. assert (dirs s1 = D) as Hd by (by destruct r).
  assert (dirs (cm_note (KRun run r) s1) = D) as Hn.
  { unfold dirs in *. simpl. by rewrite made_snoc, removed_snoc, !app_nil_r. }
  by destruct r.
Qed.

Ltac quiet_step :=
  first [ by apply quiet_set | by apply quiet_delete | by apply quiet_host | by apply quiet_store | by apply quiet_config | by apply quiet_cancelled | by apply quiet_marker
        | by apply quiet_importer | by apply quiet_note | by (apply quiet_modify; intros []) ].
Ltac quiet := intros D; stays_with quiet_step.

(** every directory so far is noted, and none was removed *)
Definition noting (s : Cmd W) : Prop := made (cm_trace s) = cm_temp_dirs s /\ removed (cm_trace s) = [].

Lemma quiet_noting {A} (m : CmdM A) : quiet m -> stays noting m.
Proof.
  intros Hm s [H1 H2]. specialize (Hm _ s eq_refl). unfold noting, dirs in *.
  destruct (m s) as [[e|a] s']; injection Hm as E1 E2 E3; by rewrite E1, E2, E3.
Qed.

Ltac noting_step := first [ apply quiet_noting; quiet_step ].

Lemma make_temp_dirs prefix D : triple (fun s => dirs s = D) (make_temp (W:=W) prefix)
  (fun dir s => dirs s = (D.1.1 ++ [dir], D.1.2, D.2)) (fun _ s => dirs s = D).
Proof.
  unfold make_temp. apply (triple_bind _ _ _ (fun _ s => dirs s = D)); [apply quiet_host|]. intros dir s <-.
  unfold dirs. simpl. by rewrite made_snoc, removed_snoc, app_nil_r.
Qed.

Lemma noting_download job tables job_id : stays noting (download_fn (W:=W) job tables job_id).
Proof.
  unfold download_fn. intros s [H1 H2].
  enough (triple (fun s => dirs s = (cm_temp_dirs s, [], cm_temp_dirs s)) (download_fn job tables job_id)
    (fun _ => noting) (fun _ => noting)) as H.
  { apply H. unfold dirs. congruence. }
  clear s H1 H2. intros s Hs. unfold download_fn.
  refine (triple_bind (fun s1 => dirs s1 = dirs s) _ _ (fun dir s1 => dirs s1 = (cm_temp_dirs s ++ [dir], [], cm_temp_dirs s)) (fun _ => noting) (fun _ => noting) _ _ s eq_refl).
  - eapply triple_post; [apply make_temp_dirs| |].
    + intros dir s1 ->. by rewrite Hs.
    + intros e s1 E. rewrite Hs in E. unfold dirs in E. injection E as E1 E2 E3. unfold noting. by rewrite E1, E2, E3.
  - intros dir. apply (triple_bind _ _ _ (fun _ => noting)).
    + apply triple_modify. intros s1 E. unfold dirs in E. injection E as E1 E2 E3. unfold noting. simpl. by rewrite E1, E2, E3.
    + intros _. stays_with noting_step.
Qed.

Lemma noting_stages api_url api_key driver_url run_id plan :
  stages_keep (ImportStages0 := command_stages args api_url api_key driver_url run_id) plan noting.
Proof.
  assert (forall A (m : CmdM A), stays noting m -> stage_keeps noting m) as Hs.
  { intros A m Hm s Hn. specialize (Hm s Hn). by destruct (m s) as [[] ?]. }
  constructor; intros; try apply Hs; simpl.
  - apply quiet_noting, quiet_host.
  - unfold poll_fn. stays_with noting_step.
  - apply noting_download.
  - apply quiet_noting, quiet_importer.
  - apply quiet_noting, quiet_marker.
  - by destruct (ih_cancelled _).
  - done.
Qed.

Lemma noting_recovery api_url api_key driver_url run_id plan n tables job completed :
  stays noting (recover_import args api_url api_key driver_url run_id plan n tables job completed).
Proof.
  intros s Hs. unfold recover_import, recovery_state.
  pose proof (traced_run_keeps (ImportStages0 := command_stages args api_url api_key driver_url run_id) plan n tables job completed
    noting s (noting_stages _ _ _ _ _) Hs) as H.
  by destruct (traced_run _ _ _ _ _ _) as [[e|[r|]] st].
Qed.

Lemma quiet_versions latest tables infos : quiet (set_versions (W:=W) latest tables infos).
Proof.
  intros D. unfold set_versions. apply stays_for_each. intros i. unfold set_version. stays_with quiet_step.
Qed.

Lemma quiet_clear run_id : quiet (clear_progress (W:=W) run_id).
Proof.
  intros D. unfold clear_progress, tracker_delete_prefix. apply stays_bind; [|intros []; apply quiet_delete].
  apply stays_bind; [apply stays_gets|]. intros t. destruct (delete_keys_with_prefix _ _) as [[n t']|]; [|apply stays_raise].
  by apply quiet_modify.
Qed.

Lemma quiet_marked run_id ts : quiet (marked_of (W:=W) run_id ts).
Proof. intros D. induction ts as [|t ts IH]; simpl; stays_with ltac:(first [exact IH | quiet_step]). Qed.

(** the directories after a computation with an exit code: those removed were
    made and are not to be kept, and a success leaves none *)
Definition cleaned (code : Z) (s : Cmd W) : Prop :=
  (forall d, d ∈ removed (cm_trace s) -> d ∈ made (cm_trace s) /\ ia_no_cleanup args = false /\ ia_dir args = []) /\
  (code = EXIT_SUCCESS -> ia_no_cleanup args = false -> forall d, d ∈ made (cm_trace s) -> d ∈ removed (cm_trace s)).
Definition cleaned_exn (e : exn) (s : Cmd W) : Prop := cleaned EXIT_PANIC s.

Lemma noting_cleaned code s : noting s -> code <> EXIT_SUCCESS \/ cm_temp_dirs s = [] -> cleaned code s.
Proof. intros [H1 H2] Hc. unfold cleaned. rewrite H1, H2. split; [set_solver|]. intros ->. destruct Hc as [Hc|Hc]; [done|]. rewrite Hc. set_solver. Qed.

Lemma quiet_cleaned {A} code (m : CmdM A) : quiet m -> stays (cleaned code) m.
Proof.
  intros Hm s Hs. specialize (Hm _ s eq_refl). unfold cleaned, dirs in *.
  destruct (m s) as [[e|a] s']; injection Hm as E1 E2 E3; by rewrite E1, E2.
Qed.

(** the noted directories are removed unless they are to be kept *)
Definition swept (s : Cmd W) : Prop :=
  made (cm_trace s) = cm_temp_dirs s /\ removed (cm_trace s) = (if ia_no_cleanup args then [] else cm_temp_dirs s).

Lemma swept_cleaned code s : ia_dir args = [] -> swept s -> cleaned code s.
Proof.
  intros Hd [H1 H2]. unfold cleaned. rewrite H1, H2. destruct (ia_no_cleanup args); [|by eauto].
  split; [set_solver|done].
Qed.

Lemma remove_dirs_all ds s : dirs ((for_each (remove_dir (W:=W)) ds s).2) = (made (cm_trace s), removed (cm_trace s) ++ ds, cm_temp_dirs s) /\
  (for_each (remove_dir (W:=W)) ds s).1 = inr tt.
Proof.
  revert s. induction ds as [|d ds IH]; intros s; [by rewrite app_nil_r|].
  destruct (IH (cm_note (KRemove d) (cm_set_world (ih_rmtree d (cm_world s)) s))) as [E1 E2].
  simpl. unfold mbind, M_bind, remove_dir at 1, modify. split; [|exact E2]. etransitivity; [exact E1|].
  simpl. by rewrite made_snoc, removed_snoc, app_nil_r, <- app_assoc.
Qed.

Lemma sweep_dirs ds : triple (fun s => noting s /\ cm_temp_dirs s = ds)
  (if ia_no_cleanup args then mret tt else for_each remove_dir ds : CmdM unit) (fun _ => swept) cleaned_exn.
Proof.
  intros s [[H1 H2] <-]. unfold swept. destruct (ia_no_cleanup args); [done|].
  destruct (remove_dirs_all (cm_temp_dirs s) s) as [E1 E2]. destruct (for_each remove_dir (cm_temp_dirs s) s) as [r s'].
  simpl in E1, E2. subst r. unfold dirs in E1. injection E1 as -> -> ->. by rewrite H2.
Qed.

Lemma quiet_swept {A} (m : CmdM A) : quiet m -> stays swept m.
Proof.
  intros Hm s Hs. specialize (Hm _ s eq_refl). unfold swept, dirs in *.
  destruct (m s) as [[e|a] s']; injection Hm as E1 E2 E3; by rewrite E1, E2, E3.
Qed.

Lemma result_cleaned driver run_id latest r : ia_dir args = [] ->
  triple noting (record_result args driver run_id latest r : CmdM Z) cleaned cleaned_exn.
Proof.
  intros Hd. assert (forall e s, noting s -> cleaned_exn e s) as Hx by (intros e s Hn; by apply noting_cleaned; [|left]).
  unfold record_result. apply (triple_bind _ _ _ (fun _ => noting)).
  { eapply triple_post; [apply quiet_noting; destruct (do_migration driver); [apply quiet_versions|quiet]|done|apply Hx]. }
  intros _. apply (triple_bind _ _ _ (fun _ => noting)); [eapply triple_post; [apply quiet_noting; quiet|done|apply Hx]|].
  intros _. apply triple_gets_bind. intros ds. eapply triple_bind; [apply sweep_dirs|]. intros [].
  apply (triple_post _ _ _ (fun _ => swept) _ (fun _ => swept));
    [apply quiet_swept|intros code s Hw; by apply swept_cleaned|intros e s Hw; by apply swept_cleaned].
  destruct (rr_permanently_failed r); apply quiet_then; [apply quiet_clear|apply quiet_set].
Qed.

(** what the run needs of the code outside: a temporary directory has a name,
    and no usage error carries the exit code of a success *)
Definition fair (e : exn) : Prop := forall m, e <> UsageError m EXIT_SUCCESS.

Record host_ok : Prop := {
  ho_named : forall prefix w d w', ih_mkdtemp prefix w = (inr d, w') -> d <> [];
  ho_create : forall u k ts cs ls o, throws fair (es_create (W:=W) u k ts cs ls o);
  ho_poll : forall u k b j, throws fair (es_poll (W:=W) u k b j);
  ho_mkdtemp : forall p, throws fair (ih_mkdtemp (W:=W) p);
  ho_import : forall run, throws fair (ih_run_import (W:=W) run)
}.
Context (Hok : host_ok).

Lemma throws_host {A} X (f : method W exn A) : throws X f -> throws X (on_host f).
Proof. intros Hf s _. unfold on_host. specialize (Hf (cm_world s) I). by destruct (f (cm_world s)) as [[] ?]. Qed.

Lemma stages_fair api_url api_key driver_url run_id plan :
  stages_throw (ImportStages0 := command_stages args api_url api_key driver_url run_id) plan fair.
Proof.
  constructor; intros; simpl.
  - apply throws_host, Hok.
  - unfold poll_fn. apply throws_bind; [apply throws_host, Hok|]. intros [job'|]; [|by intros s _].
    apply throws_bind; [intros s _; unfold cancelled; by destruct (ih_cancelled _)|]. intros []; by intros s _.
  - unfold download_fn, make_temp. repeat (apply throws_bind; [|intros ?]); try (by intros s _).
    + apply throws_host, Hok.
    + apply (triple_catch _ _ _ (fun _ _ => True)); [|by intros e s _]. intros s _. by destruct (on_host _ s) as [[] ?].
    + intros s _; unfold cancelled; by destruct (ih_cancelled _).
    + case_match; by intros s _.
  - intros s _. unfold import_fn, run_importer, on_store.
    pose proof (ho_import Hok (mk_run (mk_importer_config (ia_no_delete args) false ts true true run_id) driver_url j d
      (ia_dry_run args) (ia_single args) (ia_parallel args)) (cm_world s, cm_tracker s) I) as H.
    destruct (ih_run_import _ _) as [[e|[]] [w t]]; [exact H|done].
  - intros s _. unfold marker_present. by destruct (get_key _ _ _) as [[? ?] ?].
Qed.

Lemma recovery_fair api_url api_key driver_url run_id plan n tables job completed s e s' :
  recover_import args api_url api_key driver_url run_id plan n tables job completed s = (inl e, s') -> fair e.
Proof.
  unfold recover_import, recovery_state.
  pose proof (run_throws (ImportStages0 := traced_stages (ImportStages0 := command_stages args api_url api_key driver_url run_id))
    plan n tables job completed fair) as H. unfold traced_run.
  destruct (run_with_recovery _ _ _ _ _ _) as [[e'|[r|]] st] eqn:E; intros [= <- <-]; [|done].
  eapply H; [by apply traced_throw, stages_fair|done..|exact E].
Qed.

(** before a directory is made *)
Definition initial (s : Cmd W) : Prop := noting s /\ cm_temp_dirs s = [].

Lemma quiet_initial {A} (m : CmdM A) : quiet m -> triple initial m (fun _ => initial) cleaned_exn.
Proof.
  intros Hm s [Hn Ht]. pose proof (quiet_noting m Hm s Hn) as H. specialize (Hm _ s eq_refl).
  destruct (m s) as [[e|a] s']; [by apply noting_cleaned; [|left]|]. split; [done|]. unfold dirs in Hm. congruence.
Qed.

Lemma initial_ret code : triple initial (mret code : CmdM Z) cleaned cleaned_exn.
Proof. apply triple_ret. intros s [Hn Ht]. apply noting_cleaned; [done|by right]. Qed.

Lemma recovery_cleaned driver api_url api_key driver_url offset n : ia_dir args = [] ->
  triple initial (_do_import_with_recovery eds_hash args driver api_url api_key driver_url offset n : CmdM Z) cleaned cleaned_exn.
Proof.
  intros Hd. unfold _do_import_with_recovery.
  eapply triple_bind; [apply quiet_initial, quiet_attempt, quiet_host|]. intros [e|latest]; [apply initial_ret|].
  eapply triple_bind; [apply quiet_initial, quiet_marked|]. intros marked. destruct (_ && _).
  { eapply triple_bind; [apply quiet_initial, quiet_clear|]. intros []. apply initial_ret. }
  apply (triple_bind _ _ _ (fun r s => noting s /\ match r with inl e => fair e | inr _ => True end)).
  { intros s [Hn _]. unfold attempt.
    pose proof (noting_recovery api_url api_key driver_url (run_id_of eds_hash args driver_url offset)
      (mk_plan (ia_company_ids args) (ia_location_ids args) offset (run_id_of eds_hash args driver_url offset)) n
      (initial_tables args latest (remove_dups marked)) (ia_job_id args) (remove_dups marked) s Hn) as H.
    destruct (recover_import _ _ _ _ _ _ _ _ _ _ s) as [[e|r] s'] eqn:E; [|done]. split; [done|]. by eapply recovery_fair. }
  intros [e|r]; [|by eapply triple_pre; [apply result_cleaned|intros s [? _]]].
  apply triple_pure. intros He. destruct e; apply triple_ret; intros s Hn; apply noting_cleaned; try done; left; try done.
  intros ->. by destruct (He msg).
Qed.

(** *** In one attempt *)

(** nothing was removed; the directory that was made, if any, is the one to import *)
Definition fetch_dirs (f : Z + fetched) (s : Cmd W) : Prop :=
  removed (cm_trace s) = [] /\
  match f with
  | inl code => code = EXIT_ERROR
  | inr (dir, _, _, _) => made (cm_trace s) = [] /\ (dir = [] \/ ia_dir args <> []) \/ ia_dir args = [] /\ dir <> [] /\ made (cm_trace s) = [dir]
  end.

Definition untouched (s : Cmd W) : Prop := made (cm_trace s) = [] /\ removed (cm_trace s) = [].

Lemma quiet_triple {A} (m : CmdM A) (P : list pystr -> list pystr -> Prop) : quiet m ->
  stays (fun s => P (made (cm_trace s)) (removed (cm_trace s))) m.
Proof.
  intros Hm s Hs. specialize (Hm _ s eq_refl). unfold dirs in Hm.
  destruct (m s) as [[e|a] s']; injection Hm as E1 E2 _; by rewrite E1, E2.
Qed.

Lemma fetch_cleaned api_url api_key offset :
  triple untouched (fetch other_iso local_time args api_url api_key offset : CmdM (Z + fetched)) fetch_dirs
    (fun _ s => removed (cm_trace s) = []).
Proof.
  assert (forall A (m : CmdM A), quiet m -> triple untouched m (fun _ => untouched) (fun _ s => removed (cm_trace s) = [])) as Hq.
  { intros A m Hm. eapply triple_post; [apply (quiet_triple m (fun a b => a = [] /\ b = []) Hm)|done|by intros e s []]. }
  unfold fetch. destruct (ia_dir args) as [|c dir] eqn:Ed.
  - destruct (ia_schema_only args).
    + unfold fetch_schema_only. eapply triple_bind; [apply Hq, quiet_host|]. intros schema.
      eapply triple_bind; [apply Hq; quiet|]. intros now. apply triple_ret. intros s [H1 H2]. split; [done|]. left. split; [done|by left].
    + unfold fetch_export. eapply triple_bind; [apply Hq; destruct (ia_job_id args); [apply quiet_host|quiet]|]. intros job_id.
      eapply triple_bind; [apply Hq, quiet_host|]. intros [job|]; [|by apply triple_ret; intros s []].
      eapply triple_bind; [apply Hq, quiet_cancelled|]. intros []; [by apply triple_ret; intros s []|].
      apply (triple_bind _ _ _ (fun d s => removed (cm_trace s) = [] /\ d <> [] /\ made (cm_trace s) = [d])).
      { unfold make_temp. apply (triple_bind _ _ _ (fun d s => untouched s /\ d <> [])).
        - intros s Hs. pose proof (Hq _ _ (quiet_host (ih_mkdtemp (u"import-" ++ job_id ++ u"-"))) s Hs) as H.
          unfold on_host in *. destruct (ih_mkdtemp _ _) as [[e|d] w] eqn:E; [done|]. split; [done|]. by eapply (ho_named Hok).
        - intros d s [[H1 H2] Hd]. simpl. by rewrite made_snoc, removed_snoc, H1, H2. }
      intros d.
      assert (forall A (m : CmdM A), quiet m -> triple (fun s => removed (cm_trace s) = [] /\ d <> [] /\ made (cm_trace s) = [d]) m
        (fun _ s => removed (cm_trace s) = [] /\ d <> [] /\ made (cm_trace s) = [d]) (fun _ s => removed (cm_trace s) = [])) as Hq2.
      { intros A m Hm. eapply triple_post; [apply (quiet_triple m (fun a b => b = [] /\ d <> [] /\ a = [d]) Hm)|done|by intros e s []]. }
      eapply triple_bind; [apply Hq2, quiet_host|]. intros infos. eapply triple_bind; [apply Hq2, quiet_cancelled|].
      intros []; apply triple_ret; intros s (H1 & H2 & H3); split; try done. by right.
  - unfold fetch_dir. eapply triple_bind; [apply Hq; quiet|]. intros s0.
    destruct (load_table_export_info _ _ _ _) as [td t]. eapply triple_bind; [apply Hq; quiet|]. intros [].
    assert (forall i ts j, triple untouched (mret (inr (ia_dir args, i, ts, j)) : CmdM (Z + fetched)) fetch_dirs (fun _ s => removed (cm_trace s) = [])) as Hr.
    { intros i ts j. apply triple_ret. intros s [H1 H2]. split; [done|]. left. split; [done|]. right. by rewrite Ed. }
    destruct td as [e|[infos|]]; [by apply triple_raise; intros s []|apply Hr|].
    eapply triple_bind; [apply Hq, quiet_host|]. intros files. apply Hr.
Qed.

Lemma single_keeps_dir driver driver_url dir infos tables job_id s r s' :
  single_attempt args driver driver_url (dir, infos, tables, job_id) s = (r, s') ->
  dirs s' = dirs s /\ match r with inr (inr (d, _)) => d = dir | inr (inl code) => code = EXIT_ERROR | inl _ => True end.
Proof.
  intros E. split.
  - assert (quiet (single_attempt args driver driver_url (dir, infos, tables, job_id))) as Hq.
    { unfold single_attempt. intros D.
      apply stays_bind; [apply quiet_attempt, quiet_importer|]. intros [e|[]]; [apply stays_ret|].
      apply stays_bind; [|intros _; apply stays_ret]. destruct (do_migration driver); [|apply stays_ret].
      apply stays_bind; [apply quiet_host|]. intros latest. apply quiet_versions. }
    by apply (stays_run _ _ _ _ _ (Hq (dirs s)) E).
  - revert E. unfold single_attempt, attempt, mbind, M_bind, mret, M_ret.
    destruct (run_importer _ s) as [[e|[]] s1]; [by intros [= <- _]|].
    destruct (do_migration driver); repeat (case_match; simplify_eq/=); by intros [= <- _].
Qed.

Lemma once_cleaned driver api_url api_key driver_url offset :
  triple untouched (do_import_once other_iso local_time args driver api_url api_key driver_url offset : CmdM Z) cleaned cleaned_exn.
Proof.
  unfold do_import_once. intros s Hs. unfold attempt, mbind, M_bind.
  pose proof (fetch_cleaned api_url api_key offset s Hs) as Hf.
  assert (forall code s', removed (cm_trace s') = [] -> code <> EXIT_SUCCESS -> cleaned code s') as Hc.
  { intros code s' H Hne. unfold cleaned. rewrite H. split; [set_solver|done]. }
  destruct (fetch _ _ _ _ _ _ s) as [[e|[code|[[[dir infos] tables] job_id]]] s1]; [by apply Hc| |].
  { destruct Hf as [H1 ->]. by apply Hc. }
  destruct Hf as [H1 H2].
  destruct (single_attempt args driver driver_url (dir, infos, tables, job_id) s1) as [r s2] eqn:E.
  apply single_keeps_dir in E as [Ed Er]. unfold dirs in Ed. injection Ed as Em Ermv _. rewrite <- Em in H2. rewrite H1 in Ermv.
  destruct r as [e|[code|[d infos']]]; [by apply Hc|subst code; by apply Hc|]. subst d.
  unfold finish, mbind, M_bind, remove_dir, tracker_set, modify, cleaned.
  destruct H2 as [[H2 H3]|(H2 & H3 & H4)].
  - assert (negb (ia_no_cleanup args || negb (str_eqb (ia_dir args) [])) && negb (str_eqb dir []) = false) as ->.
    { destruct H3 as [-> | H3]; [by rewrite andb_false_r|]. unfold str_eqb. rewrite (bool_decide_eq_false_2 _ H3). by rewrite orb_true_r. }
    simpl. rewrite H2, Ermv. split; set_solver.
  - rewrite H2. change (str_eqb [] []) with true. cbn [negb]. rewrite orb_false_r.
    unfold str_eqb. rewrite (bool_decide_eq_false_2 _ H3). cbn [negb]. rewrite andb_true_r.
    destruct (ia_no_cleanup args) eqn:En; cbn [negb]; simpl; rewrite ?made_snoc, ?removed_snoc, ?H4, ?Ermv; split; set_solver.
Qed.

Lemma quiet_retries : quiet (resolve_retries loads other_str args : CmdM Z).
Proof.
  intros D. unfold resolve_retries. apply stays_bind; [apply quiet_config|]. intros config.
  destruct (resolve_max_retries _ _) as [n stored]. apply stays_bind; [|intros []; apply stays_ret].
  destruct stored; [apply quiet_config|apply stays_ret].
Qed.

Lemma importer_cleaned driver api_url api_key driver_url offset :
  triple initial (do_importer eds_hash loads other_str other_iso local_time args driver api_url api_key driver_url offset : CmdM Z)
    cleaned cleaned_exn.
Proof.
  unfold do_importer. eapply triple_bind; [apply quiet_initial, quiet_retries|]. intros n.
  destruct (_ && _ && _) eqn:E; [|eapply triple_pre; [apply once_cleaned|]; intros s [[H1 H2] Ht]; split; congruence].
  apply recovery_cleaned. unfold str_eqb in E. by bool_prop.
Qed.

Lemma quiet_open api_url : quiet (open_parts args api_url : CmdM unit).
Proof.
  intros D. unfold open_parts. apply stays_bind; [apply quiet_host|]. intros [].
  apply stays_bind; [destruct (ia_schema_validator args); [apply stays_ret|apply quiet_host]|]. intros []. apply quiet_store.
Qed.

Lemma quiet_confirm target : quiet (_confirm target : CmdM bool).
Proof.
  intros D. unfold _confirm. apply stays_bind; [apply quiet_host|]. intros answer.
  apply stays_bind; [by apply quiet_note|]. intros []. apply stays_ret.
Qed.

Lemma do_import_cleaned api_url api_key driver_url offset :
  triple initial (_do_import reg eds_hash loads other_str other_iso local_time args api_url api_key driver_url offset : CmdM Z)
    cleaned cleaned_exn.
Proof.
  unfold _do_import. destruct (new_driver_for_import driver_url reg) as [e|driver]; [apply initial_ret|].
  eapply triple_bind; [apply quiet_initial, quiet_attempt, quiet_host|]. intros [e|[]]; [apply initial_ret|].
  destruct (ia_validate_only args); [apply initial_ret|]. destruct (new_importer driver_url reg); [apply initial_ret|].
  apply triple_gets_bind. intros supports_delete. apply (triple_pre _ initial); [|by intros s [? _]].
  apply (triple_bind _ _ _ (fun _ => initial)).
  { destruct (needs_confirm args supports_delete); [apply quiet_initial, quiet_confirm|by apply triple_ret]. }
  intros []; [apply importer_cleaned|apply initial_ret].
Qed.

(** a run removes only directories it made itself, and none with --no-cleanup or
    with a directory of the caller's; after a success without --no-cleanup it has
    removed every directory it made - provided the temporary directories have
    names and no usage error carries the code of a success. *)
Theorem import_cleans_up s : cm_trace s = [] -> cm_temp_dirs s = [] ->
  let '(code, s') := import_exit reg eds_hash loads other_str other_iso local_time args s in
  (forall d, d ∈ removed (cm_trace s') -> d ∈ made (cm_trace s') /\ ia_no_cleanup args = false /\ ia_dir args = []) /\
  (code = EXIT_SUCCESS -> ia_no_cleanup args = false -> forall d, d ∈ made (cm_trace s') -> d ∈ removed (cm_trace s')).
Proof.
  intros Htr Ht. assert (initial s) as Hs by (split; [split|done]; by rewrite Htr, ?Ht).
  enough (triple initial (run_import_command reg eds_hash loads other_str other_iso local_time args) cleaned cleaned_exn) as H.
  { specialize (H s Hs). unfold import_exit. destruct (run_import_command _ _ _ _ _ _ _ s) as [[e|code] s']; exact H. }
  clear s Htr Ht Hs. unfold run_import_command. eapply triple_bind; [apply quiet_initial, quiet_config|]. intros config.
  destruct (match ia_url args with [] => _ | _ => _ end); [apply initial_ret|].
  destruct (match ia_api_key args with [] => _ | _ => _ end); [apply initial_ret|].
  destruct (time_offset other_iso args); [|apply initial_ret]. destruct (command_api_url args _); [|apply initial_ret].
  eapply triple_bind; [apply quiet_initial, quiet_attempt, quiet_open|]. intros [e|[]]; [apply initial_ret|]. apply do_import_cleaned.
Qed.
End dirs.

(** ** What a run leaves for the next one *)

(** the completion marker of a table *)
Definition has_marker (run_id table : pystr) (t : Tracker) : Prop := t !! progress_key run_id table = Some (u"1", None).

Section markers.
Context {W : Type} `{!ImportHost W} `{!ExportService W}.
Context (reg : Registries).
Context (eds_hash : pystr -> pystr) (loads : pystr -> option Config) (other_str : pyobj -> pystr).
Context (other_iso : pystr -> option moment) (local_time : datetime -> Z).
Context (args : ImportArgs).

Abbreviation CmdM A := (M (Cmd W) exn A).

Definition store_keeps {A} (f : method (W * Tracker) exn A) : Prop :=
  forall run_id table w t, has_marker run_id table t -> has_marker run_id table (f (w, t)).2.2.

(** the registry and the importer leave the markers of other tables and runs alone *)
Record store_ok : Prop := {
  so_registry : forall url, store_keeps (ih_open_registry (W:=W) url);
  so_version : forall table version, store_keeps (ih_set_table_version (W:=W) table version);
  so_import : forall run, store_keeps (ih_run_import (W:=W) run)
}.
Context (Hok : store_ok).
Context (run_id table : pystr).

Definition marked (s : Cmd W) : Prop := has_marker run_id table (cm_tracker s).
(** a computation that keeps the marker *)
Abbreviation safe m := (stays marked m).

Lemma safe_host {A} (f : method W exn A) : safe (on_host f).
Proof. intros s Hs. unfold on_host. by destruct (f (cm_world s)) as [[] ?]. Qed.
Lemma safe_store {A} (f : method (W * Tracker) exn A) : store_keeps f -> safe (on_store f).
Proof. intros Hf s Hs. unfold on_store. specialize (Hf _ _ (cm_world s) _ Hs). by destruct (f _) as [[] [? ?]]. Qed.
Lemma safe_config {A} (f : M (option (list Z)) config_error A) : safe (on_config f : CmdM A).
Proof. intros s Hs. unfold on_config. by destruct (f _) as [[] ?]. Qed.
Lemma safe_cancelled : safe (cancelled : CmdM bool).
Proof. intros s Hs. unfold cancelled. by destruct (ih_cancelled _). Qed.
Lemma safe_attempt {A} (m : CmdM A) : safe m -> safe (attempt m).
Proof. apply stays_attempt. Qed.

(** reading a key forgets it only if it has expired *)
Lemma get_key_marker now key t r t' : get_key now key t = (r, t') -> has_marker run_id table t -> has_marker run_id table t'.
Proof.
  unfold has_marker. intros E Ht. destruct (decide (key = progress_key run_id table)) as [->|Hne].
  - unfold get_key in E. rewrite Ht in E. simpl in E. by injection E as <- <-.
  - pose proof (get_key_other now key (progress_key run_id table) t) as H. rewrite E in H. simpl in H. rewrite H by done. done.
Qed.

Lemma safe_marker run_id' t : safe (marker_present run_id' t : CmdM bool).
Proof.
  intros s Hs. unfold marker_present. destruct (get_key _ _ _) as [[found v] t'] eqn:E. by apply (get_key_marker _ _ _ _ _ E).
Qed.

Lemma marker_not_export : progress_key run_id table <> TRACKER_TABLE_EXPORT_KEY.
Proof. done. Qed.
Lemma marker_not_failed id : progress_key run_id table <> failed_key id.
Proof. done. Qed.

Lemma safe_set key value : progress_key run_id table <> key -> safe (tracker_set key value : CmdM unit).
Proof. intros Hne s Hs. unfold marked, has_marker in *. simpl. unfold set_key. by rewrite lookup_insert_ne. Qed.

Lemma safe_modify (f : Cmd W -> Cmd W) : (forall s, cm_tracker (f s) = cm_tracker s) -> safe (modify f : CmdM unit).
Proof. intros Hf. apply stays_modify. intros s. unfold marked. by rewrite Hf. Qed.

Lemma safe_importer run : safe (run_importer run : CmdM unit).
Proof.
  intros s Hs. unfold run_importer. pose proof (safe_store _ (so_import Hok run) s Hs) as H. by destruct (on_store _ s) as [[] ?].
Qed.

Lemma safe_version latest t : safe (set_version latest t : CmdM unit).
Proof.
  unfold set_version. destruct (dict_get t latest) as [data|]; [|apply stays_ret]. apply stays_bind; [apply safe_store, Hok|].
  intros []. by apply safe_modify.
Qed.

Lemma safe_versions latest tables infos : safe (set_versions latest tables infos : CmdM unit).
Proof. apply stays_for_each. intros i. destruct (str_in _ _); [apply safe_version|apply stays_ret]. Qed.

Lemma safe_temp prefix : safe (make_temp prefix : CmdM pystr).
Proof. apply stays_bind; [apply safe_host|]. intros dir. apply stays_bind; [by apply safe_modify|]. intros []. apply stays_ret. Qed.

Lemma safe_marked id ts : safe (marked_of id ts : CmdM (list pystr)).
Proof. induction ts as [|t ts IH]; simpl; stays_with ltac:(first [exact IH | apply safe_marker]). Qed.

(** clearing the progress fails before it deletes anything *)
Lemma clear_fails id : triple marked (clear_progress id : CmdM unit) (fun _ _ => True) (fun _ => marked).
Proof.
  intros s Hs. unfold clear_progress, tracker_delete_prefix, mbind, M_bind, gets. simpl.
  by destruct (delete_keys_with_prefix _ _) as [[n t']|].
Qed.

#[local] Opaque clear_progress.

Lemma safe_stages api_url api_key driver_url id plan :
  stages_keep (ImportStages0 := command_stages args api_url api_key driver_url id) plan marked.
Proof.
  assert (forall A (m : CmdM A), safe m -> stage_keeps marked m) as Hs.
  { intros A m Hm s Hn. specialize (Hm s Hn). by destruct (m s) as [[] ?]. }
  constructor; intros; try apply Hs; simpl.
  - apply safe_host.
  - unfold poll_fn. stays_with ltac:(first [apply safe_host | apply safe_cancelled]).
  - unfold download_fn. stays_with ltac:(first [apply safe_temp | apply safe_host | apply safe_cancelled | by apply safe_modify]).
  - apply safe_importer.
  - apply safe_marker.
  - by destruct (ih_cancelled _).
  - done.
Qed.

Lemma safe_recovery api_url api_key driver_url id plan n tables job completed :
  safe (recover_import args api_url api_key driver_url id plan n tables job completed : CmdM RecoveryResult).
Proof.
  intros s Hs. unfold recover_import, recovery_state.
  pose proof (traced_run_keeps (ImportStages0 := command_stages args api_url api_key driver_url id) plan n tables job completed
    marked s (safe_stages _ _ _ _ _) Hs) as H.
  by destruct (traced_run _ _ _ _ _ _) as [[e|[r|]] st].
Qed.

(** the markers that are there after a run that ended with this code *)
Definition kept (code : Z) (s : Cmd W) : Prop := code <> EXIT_SUCCESS -> marked s.
Definition kept_exn (e : exn) (s : Cmd W) : Prop := marked s.

Lemma kept_ret code : triple marked (mret code : CmdM Z) kept kept_exn.
Proof. apply triple_ret. by intros s Hs _. Qed.

Lemma kept_bind {A} (m : CmdM A) (f : A -> CmdM Z) :
  safe m -> (forall a, triple marked (f a) kept kept_exn) -> triple marked (m ≫= f) kept kept_exn.
Proof. intros Hm Hf. by apply (triple_bind _ _ _ (fun _ => marked)). Qed.

Lemma kept_clear id : triple marked (_ ← clear_progress id; mret EXIT_SUCCESS : CmdM Z) kept kept_exn.
Proof. eapply triple_bind; [apply clear_fails|]. intros []. apply triple_ret. by intros s _ Hne. Qed.

Ltac keeping tac :=
  repeat first
    [ apply kept_ret | apply kept_clear | tac | apply kept_bind; [|intros ?] | apply safe_attempt | apply safe_host | apply safe_cancelled
    | apply safe_config | apply safe_marked | apply safe_versions | apply safe_recovery | apply safe_importer | apply safe_temp
    | apply safe_set; [done] | apply stays_ret | apply stays_raise | apply stays_gets | by apply safe_modify
    | apply stays_bind; [|intros ?] | case_match ].

Lemma kept_result driver id latest r : triple marked (record_result args driver id latest r : CmdM Z) kept kept_exn.
Proof.
  unfold record_result. keeping ltac:(apply stays_for_each; intros ?; by apply safe_modify).
Qed.

Lemma kept_recovery driver api_url api_key driver_url offset n :
  triple marked (_do_import_with_recovery eds_hash args driver api_url api_key driver_url offset n : CmdM Z) kept kept_exn.
Proof. unfold _do_import_with_recovery. keeping ltac:(apply kept_result). Qed.

Lemma safe_fetch api_url api_key offset : safe (fetch other_iso local_time args api_url api_key offset : CmdM (Z + fetched)).
Proof.
  unfold fetch, fetch_schema_only, fetch_export. destruct (ia_dir args); [|].
  - keeping fail.
  - unfold fetch_dir. intros s Hs. unfold mbind at 1, M_bind at 1, gets. unfold load_table_export_info.
    destruct (get_key _ TRACKER_TABLE_EXPORT_KEY _) as [[found v] t'] eqn:E.
    apply get_key_marker in E; [|exact Hs]. cbn [id].
    match goal with |- match (_ ← modify ?f; ?k) s with _ => _ end => enough (safe k) as Hk end.
    { unfold mbind, M_bind, modify. by apply Hk. }
    keeping fail.
Qed.

Lemma kept_once driver api_url api_key driver_url offset :
  triple marked (do_import_once other_iso local_time args driver api_url api_key driver_url offset : CmdM Z) kept kept_exn.
Proof.
  unfold do_import_once, finish. apply kept_bind; [apply safe_attempt, stays_bind; [apply safe_fetch|]|].
  - intros [code|[[[dir infos] tables] job_id]]; [apply stays_ret|]. unfold single_attempt. keeping fail.
  - intros body. keeping ltac:(by apply safe_modify).
Qed.

Lemma safe_retries : safe (resolve_retries loads other_str args : CmdM Z).
Proof. unfold resolve_retries. keeping fail. Qed.

Lemma safe_open api_url : safe (open_parts args api_url : CmdM unit).
Proof.
  unfold open_parts. apply stays_bind; [apply safe_host|]. intros [].
  apply stays_bind; [destruct (ia_schema_validator args); [apply stays_ret|apply safe_host]|]. intros []. apply safe_store, Hok.
Qed.

Lemma kept_import api_url api_key driver_url offset :
  triple marked (_do_import reg eds_hash loads other_str other_iso local_time args api_url api_key driver_url offset : CmdM Z) kept kept_exn.
Proof.
  unfold _do_import. destruct (new_driver_for_import driver_url reg) as [e|driver]; [apply kept_ret|].
  apply kept_bind; [apply safe_attempt, safe_host|]. intros [e|[]]; [apply kept_ret|].
  destruct (ia_validate_only args); [apply kept_ret|]. destruct (new_importer driver_url reg); [apply kept_ret|].
  apply kept_bind; [apply stays_gets|]. intros supports_delete. apply kept_bind.
  { destruct (needs_confirm args supports_delete); [|apply stays_ret]. unfold _confirm. apply stays_bind; [apply safe_host|].
    intros answer. apply stays_bind; [by apply safe_modify|]. intros []. apply stays_ret. }
  intros []; [|apply kept_ret]. unfold do_importer. apply kept_bind; [apply safe_retries|]. intros n.
  destruct (_ && _ && _); [apply kept_recovery|apply kept_once].
Qed.

(** C21: a run that does not succeed - an error, a wrong usage, a panic - leaves every
    completion marker, of this and of other imports, where it was, so that the
    next run can resume; only a success clears them. *)
Theorem import_keeps_markers s : marked s ->
  let '(code, s') := import_exit reg eds_hash loads other_str other_iso local_time args s in
  code <> EXIT_SUCCESS -> marked s'.
Proof.
  intros Hs.
  enough (triple marked (run_import_command reg eds_hash loads other_str other_iso local_time args) kept kept_exn) as H.
  { specialize (H s Hs). unfold import_exit. destruct (run_import_command _ _ _ _ _ _ _ s) as [[e|code] s']; [by intros _|exact H]. }
  unfold run_import_command. apply kept_bind; [apply safe_config|]. intros config.
  destruct (match ia_url args with [] => _ | _ => _ end); [apply kept_ret|].
  destruct (match ia_api_key args with [] => _ | _ => _ end); [apply kept_ret|].
  destruct (time_offset other_iso args); [|apply kept_ret]. destruct (command_api_url args _); [|apply kept_ret].
  apply kept_bind; [apply safe_attempt, safe_open|]. intros [e|[]]; [apply kept_ret|apply kept_import].
Qed.
End markers.

(** ** What a success says, and which cutoffs it leaves *)
Section outcome.
Context {W : Type} `{!ImportHost W} `{!ExportService W}.
Context (eds_hash : pystr -> pystr) (args : ImportArgs).
Context (Hok : host_ok (W := W)).
Context (driver : DriverObject) (api_url api_key driver_url : pystr) (offset : option Z) (n : Z).

Abbreviation CmdM A := (M (Cmd W) exn A).
Abbreviation run_id := (run_id_of eds_hash args driver_url offset).
Abbreviation the_plan := (mk_plan (ia_company_ids args) (ia_location_ids args) offset run_id).
Abbreviation import := (_do_import_with_recovery eds_hash args driver api_url api_key driver_url offset n : CmdM Z).
Abbreviation recovery tables completed s := (recovery_state args api_url api_key driver_url run_id the_plan n tables (ia_job_id args) completed s).

(** the table has a completion marker that has not run out *)
Definition marker_found (s : Cmd W) (t : pystr) : bool := (get_key (ih_wall (cm_world s)) (progress_key run_id t) (cm_tracker s)).1.1.

(** the tables an earlier run completed, of those in question *)
Definition completed_before (s : Cmd W) (latest : pydict Schema) : list pystr :=
  remove_dups (filter (fun t => marker_found s t = true) (candidates args latest)).

(** reading the markers one by one finds those that are there as it starts *)
Lemma marked_of_spec ts s : exists s', marked_of run_id ts s = (inr (filter (fun t => marker_found s t = true) ts), s').
Proof.
  revert s. induction ts as [|t ts IH]; intros s; [by eexists|]. simpl. unfold mbind at 1, M_bind at 1. unfold marker_present at 1.
  pose proof (get_key_again (ih_wall (cm_world s)) (progress_key run_id t)) as Ha.
  specialize (fun k' => Ha k' (cm_tracker s)). assert (marker_found s t = (get_key (ih_wall (cm_world s)) (progress_key run_id t) (cm_tracker s)).1.1) as Hf by done.
  destruct (get_key _ (progress_key run_id t) _) as [[found v] t']. simpl in Hf.
  destruct (IH (cm_set_tracker t' s)) as (s' & E). unfold mbind, M_bind. rewrite E. exists s'.
  assert (filter (fun t => marker_found (cm_set_tracker t' s) t = true) ts = filter (fun t => marker_found s t = true) ts) as ->.
  { apply list_filter_iff. intros k. unfold marker_found. simpl in *. by rewrite Ha. }
  destruct found; [rewrite filter_cons_True by done|rewrite filter_cons_False by congruence]; done.
Qed.

Lemma completed_marked s latest t : t ∈ completed_before s latest <-> t ∈ candidates args latest /\ marker_found s t = true.
Proof. unfold completed_before. rewrite elem_of_remove_dups, list_elem_of_filter. tauto. Qed.

Lemma not_initial latest completed : forall t, t ∈ initial_tables args latest completed -> t ∉ completed.
Proof.
  intros t. unfold initial_tables. destruct completed as [|c cs]; [set_solver|]. rewrite list_elem_of_filter. tauto.
Qed.

(** the tables asked for are done or asked for in the export *)
Lemma only_covered latest completed t : t ∈ ia_only args -> t ∈ completed \/ t ∈ initial_tables args latest completed.
Proof.
  intros Ht. unfold initial_tables, candidates. destruct completed as [|c cs]; [by right|].
  destruct (decide (t ∈ c :: cs)); [by left|]. right. apply list_elem_of_filter. split; [done|].
  destruct (ia_only args); [by apply not_elem_of_nil in Ht|done].
Qed.

(** nothing is left to ask for: every table in question is done *)
Lemma none_left latest completed : completed <> [] -> initial_tables args latest completed = [] ->
  forall t, t ∈ candidates args latest -> t ∈ completed.
Proof.
  unfold initial_tables. destruct completed as [|c cs]; [done|]. intros _ Hnil t Ht. destruct (decide (t ∈ c :: cs)) as [|Hn]; [done|].
  assert (t ∈ filter (fun t => t ∉ c :: cs) (candidates args latest)) as H by by apply list_elem_of_filter.
  rewrite Hnil in H. by apply elem_of_nil in H.
Qed.

Lemma success_none_failed latest r s s' : record_result args driver run_id latest r s = (inr EXIT_SUCCESS, s') -> rr_permanently_failed r = [].
Proof.
  destruct (rr_permanently_failed r) as [|x l] eqn:Ef; [done|]. intros Hr. exfalso.
  unfold record_result in Hr. rewrite Ef in Hr. unfold mbind, M_bind in Hr. repeat (case_match; simplify_eq/=).
Qed.

(** how a run with recovery that returned came to its code *)
Lemma recovery_cases s code s' : import s = (inr code, s') ->
  (exists e s1, on_host ih_latest_schema s = (inl e, s1) /\ code = EXIT_ERROR) \/
  exists latest s1, on_host ih_latest_schema s = (inr latest, s1) /\
    let completed := completed_before s1 latest in
    let s2 := (marked_of run_id (candidates args latest) s1).2 in
    let tables := initial_tables args latest completed in
    (completed <> [] /\ tables = [] /\ code = EXIT_SUCCESS \/
     (exists e st, recovery tables completed s2 = (inl e, st) /\ code = match e with UsageError _ c => c | _ => EXIT_ERROR end) \/
     (exists r st, recovery tables completed s2 = (inr (Some r), st) /\
        record_result args driver run_id latest r (rc_world st).1 = (inr code, s'))).
Proof.
  unfold _do_import_with_recovery, attempt. unfold mbind at 1, M_bind at 1.
  destruct (on_host ih_latest_schema s) as [[e|latest] s1] eqn:E1.
  { intros [= <- _]. left. by exists e, s1. }
  destruct (marked_of_spec (candidates args latest) s1) as (s2 & E2).
  unfold mbind at 1, M_bind at 1. rewrite E2. intros H. right. exists latest, s1.
  split; [done|]. cbv zeta. rewrite E2. cbn [snd]. cbv zeta in H. fold (completed_before s1 latest) in H.
  destruct (negb _ && _) eqn:Eb.
  - left. bool_prop. split_and!; [done|done|]. unfold mbind, M_bind in H. destruct (clear_progress run_id s2) as [[e|[]] s3]; [done|]. by injection H as <- _.
  - right. unfold mbind at 1, M_bind at 1 in H. unfold recover_import in H.
    destruct (recovery_state _ _ _ _ _ _ _ _ _ _ s2) as [r st] eqn:Er. destruct r as [e|[r|]].
    + left. exists e, st. split; [done|]. by destruct e; injection H as <- _.
    + right. by exists r, st.
    + exfalso. pose proof (traced_run_counted (ImportStages0 := command_stages args api_url api_key driver_url run_id)
        the_plan n (initial_tables args latest (completed_before s1 latest)) (ia_job_id args) (completed_before s1 latest) s2) as Hc.
      unfold recovery_state in Er. rewrite Er in Hc. by destruct Hc.
Qed.

(** *** The record *)

Definition has_record (infos : list TableExportInfo) (s : Cmd W) : Prop := recorded infos (cm_tracker s).

Lemma delete_prefix_record infos id c t' t : delete_keys_with_prefix (progress_prefix id) t = Some (c, t') ->
  recorded infos t -> recorded infos t'.
Proof.
  unfold delete_keys_with_prefix, recorded. destruct (encodable _ && _); [|done]. intros E. apply (inj Some) in E. injection E as _ <-.
  intros Ht. apply map_lookup_filter_Some. split; [done|]. apply andb_false_iff. right.
  unfold _prefix_upper_bound, progress_prefix. rewrite app_assoc, rev_app_distr. change (rev (u":")) with [58]. cbn [app].
  change (1114111 <=? 58) with false. cbv iota. rewrite rev_involutive. reflexivity.
Qed.

Lemma record_cleared infos id : stays (has_record infos) (clear_progress id : CmdM unit).
Proof.
  intros s Hs. unfold clear_progress, tracker_delete_prefix, mbind, M_bind, gets.
  destruct (delete_keys_with_prefix _ _) as [[c t']|] eqn:E; [|exact Hs].
  pose proof (delete_prefix_record infos id c t' _ E Hs) as Ht. unfold tracker_delete, modify, has_record, recorded in *. simpl.
  by rewrite lookup_delete_ne.
Qed.

Lemma record_written latest r : triple (fun _ => True) (record_result args driver run_id latest r : CmdM Z)
  (fun _ => has_record (rr_table_export_info r)) (fun _ _ => True).
Proof.
  unfold record_result. apply (triple_bind _ _ _ (fun _ _ => True)); [intros s _; by destruct (_ s) as [[] ?]|]. intros [].
  apply (triple_bind _ _ _ (fun _ => has_record (rr_table_export_info r))); [intros s _; apply set_recorded|]. intros [].
  apply (triple_post _ _ _ (fun _ => has_record (rr_table_export_info r)) _ (fun _ => has_record (rr_table_export_info r))); [|done..].
  apply stays_bind; [apply stays_gets|]. intros ds. apply stays_bind.
  { destruct (ia_no_cleanup args); [apply stays_ret|]. apply stays_for_each. intros d. by apply stays_modify. }
  intros []. destruct (rr_permanently_failed r) as [|t ts].
  - apply stays_bind; [apply record_cleared|]. intros []. apply stays_ret.
  - apply stays_bind; [|intros []; apply stays_ret]. apply stays_modify. intros s3 H3. unfold has_record, recorded, set_key in *. simpl.
    by rewrite lookup_insert_ne.
Qed.

(** C20: when the recovery returns, also with tables that failed for good, the cutoffs
    the worker reads after the command are exactly the export times of the
    downloads whose import returned in this run, to the microsecond. *)
Theorem import_records_cutoffs other_iso now latest tables completed s r st code s' :
  recovery tables completed s = (inr (Some r), st) ->
  record_result args driver run_id latest r (rc_world st).1 = (inr code, s') ->
  let infos := loaded_infos (rlog st) in
  forallb info_ok infos = true -> NoDup (table_names infos) ->
  _load_table_export_info other_iso now (cm_tracker s') = (inr (Some (cutoffs infos)), cm_tracker s').
Proof.
  intros Hr He infos Hok' Hnd. apply recorded_cutoffs; [done|done|].
  pose proof (record_written latest r (rc_world st).1 I) as H. rewrite He in H. unfold has_record in H.
  by rewrite (result_infos (ImportStages0 := command_stages args api_url api_key driver_url run_id) _ _ _ _ _ _ _ _ Hr) in H.
Qed.

(** *** The imports a run made *)

(** a computation that keeps what the trace holds *)
Definition grows {A} (m : CmdM A) : Prop := forall c, stays (fun s => c ∈ cm_trace s) m.

Lemma grows_host {A} (f : method W exn A) : grows (on_host f).
Proof. intros c s Hs. unfold on_host. by destruct (f (cm_world s)) as [[] ?]. Qed.
Lemma grows_cancelled : grows (cancelled : CmdM bool).
Proof. intros c s Hs. unfold cancelled. by destruct (ih_cancelled _). Qed.
Lemma grows_modify (f : Cmd W -> Cmd W) : (forall s, exists l, cm_trace (f s) = cm_trace s ++ l) -> grows (modify f : CmdM unit).
Proof. intros Hf c. apply stays_modify. intros s Hs. destruct (Hf s) as [l ->]. apply elem_of_app. by left. Qed.
Lemma grows_note c : grows (modify (cm_note c) : CmdM unit).
Proof. apply grows_modify. intros s. by exists [c]. Qed.
Lemma grows_same (f : Cmd W -> Cmd W) : (forall s, cm_trace (f s) = cm_trace s) -> grows (modify f : CmdM unit).
Proof. intros Hf. apply grows_modify. intros s. exists []. by rewrite app_nil_r. Qed.

Lemma grows_poll job_id : grows (poll_fn api_url api_key job_id : CmdM ExportJobResponse).
Proof. intros c. unfold poll_fn. stays_with ltac:(first [apply grows_host | apply grows_cancelled]). Qed.
Lemma grows_download job ts job_id : grows (download_fn job ts job_id : CmdM _).
Proof.
  intros c. unfold download_fn, make_temp.
  stays_with ltac:(first [apply grows_host | apply grows_cancelled | apply grows_note | by apply grows_same]).
Qed.

(** every import of the log is in the trace *)
Definition shown (wl : Cmd W * list rcall) : Prop :=
  forall ts r, CImport ts r ∈ wl.2 -> exists run, KRun run r ∈ cm_trace wl.1 /\ ic_tables (im_config run) = ts.

Lemma shown_call {A} (c : exn + A -> rcall) (f : method (Cmd W) exn A) : grows f ->
  (forall s ts r, CImport ts r = c (f s).1 -> exists run, KRun run r ∈ cm_trace (f s).2 /\ ic_tables (im_config run) = ts) ->
  stage_keeps shown (log_call c f).
Proof.
  intros Hg Hc [s log] Hs ts r. unfold log_call. specialize (Hc s ts r).
  assert (forall x, x ∈ cm_trace s -> x ∈ cm_trace (f s).2) as Hin.
  { intros x Hx. specialize (Hg x s Hx). by destruct (f s) as [[] ?]. }
  destruct (f s) as [a s1]. simpl in *. intros [Hl|Hl]%elem_of_app.
  - destruct (Hs ts r Hl) as (run & Hr & Ht). exists run. auto.
  - apply list_elem_of_singleton in Hl. by apply Hc.
Qed.

Lemma shown_stages :
  stages_keep (W := Cmd W * list rcall)
    (ImportStages0 := traced_stages (ImportStages0 := command_stages args api_url api_key driver_url run_id)) the_plan shown.
Proof.
  constructor; intros; try apply shown_call; simpl; try done.
  - apply grows_host.
  - apply grows_poll.
  - apply grows_download.
  - intros c s Hs. unfold import_fn, run_importer, on_store. destruct (ih_run_import _ _) as [[e|[]] [w t]]; simpl; set_solver.
  - intros s ts' r [= -> ->]. unfold import_fn, run_importer. destruct (on_store _ s) as [r' s1].
    exists (mk_run (mk_importer_config (ia_no_delete args) false ts true true run_id) driver_url j d
      (ia_dry_run args) (ia_single args) (ia_parallel args)). split; [|done]. simpl. set_solver.
  - intros c s Hs. unfold marker_present. by destruct (get_key _ _ _) as [[? ?] ?].
  - destruct w as [s log]. simpl. destruct (ih_cancelled (cm_world s)). exact H.
  - destruct w as [s log]. simpl. intros ts r Hl. apply elem_of_app in Hl as [Hl|Hl%list_elem_of_singleton]; [|done].
    destruct (H ts r Hl) as (run & Hr & Ht). by exists run.
Qed.

Lemma recovery_shown tables completed s : shown (rc_world (recovery tables completed s).2).
Proof.
  unfold recovery_state, traced_run. apply (recovery_run_keeps _ _ _ _ _ shown shown_stages).
  intros ts r Hl. by apply not_elem_of_nil in Hl.
Qed.

Lemma grows_set key value : grows (tracker_set key value : CmdM unit).
Proof. by apply grows_same. Qed.

Lemma grows_clear id : grows (clear_progress id : CmdM unit).
Proof.
  intros c s Hs. unfold clear_progress, tracker_delete_prefix, mbind, M_bind, gets.
  by destruct (delete_keys_with_prefix _ _) as [[? ?]|].
Qed.

Lemma grows_versions latest tables infos : grows (set_versions latest tables infos : CmdM unit).
Proof.
  intros c. apply stays_for_each. intros i. destruct (str_in _ _); [|apply stays_ret]. unfold set_version.
  destruct (dict_get _ latest) as [data|]; [|apply stays_ret]. apply stays_bind; [|intros []; apply grows_note].
  intros s Hs. unfold on_store. by destruct (ih_set_table_version _ _ _) as [[] [? ?]].
Qed.

Lemma grows_result latest r : grows (record_result args driver run_id latest r : CmdM Z).
Proof.
  intros c. unfold record_result. apply stays_bind; [destruct (do_migration driver); [apply grows_versions|apply stays_ret]|].
  intros []. apply stays_bind; [apply grows_set|]. intros []. apply stays_bind; [apply stays_gets|]. intros ds. apply stays_bind.
  { destruct (ia_no_cleanup args); [apply stays_ret|]. apply stays_for_each. intros d. apply grows_modify. intros s.
    by exists [KRemove d]. }
  intros []. destruct (rr_permanently_failed r) as [|t ts].
  - apply stays_bind; [apply grows_clear|]. intros []. apply stays_ret.
  - apply stays_bind; [apply grows_set|]. intros []. apply stays_ret.
Qed.

(** C19: an import with recovery that ends in success imported what it was asked for.
    The code outside meets [host_ok]: a temporary directory has a name, and no usage
    error from it carries the exit code of a success.
    Either every table in question - those of --only, or all of the schema that was
    read - had a completion marker when the run started; or the recovery returned
    with no table failed for good, and then, if the reports of the service list what
    was asked of them, every table of --only and every table of a report had a
    marker when the run started, was found with its marker during the run, or is
    among the tables of an import of this run that returned. *)
Theorem import_complete s s' : import s = (inr EXIT_SUCCESS, s') ->
  exists latest s1, on_host ih_latest_schema s = (inr latest, s1) /\
  let completed := completed_before s1 latest in
  let s2 := (marked_of run_id (candidates args latest) s1).2 in
  let tables := initial_tables args latest completed in
  (completed <> [] /\ tables = [] /\ (forall t, t ∈ candidates args latest -> marker_found s1 t = true)) \/
  exists r st, recovery tables completed s2 = (inr (Some r), st) /\ rr_permanently_failed r = [] /\
    (reports_complete tables (rlog st) ->
     forall t, t ∈ ia_only args ++ listed (rlog st) ->
       marker_found s1 t = true \/ CMarker t (inr true) ∈ rlog st \/
       exists run, CImport (ic_tables (im_config run)) (inr tt) ∈ rlog st /\
         KRun run (inr tt) ∈ cm_trace s' /\ t ∈ ic_tables (im_config run)).
Proof.
  intros [(e & s1 & _ & He)|(latest & s1 & Hlat & H)]%recovery_cases; [done|].
  exists latest, s1. split; [done|]. cbv zeta in H |- *. set (completed := completed_before s1 latest) in *.
  assert (forall t, t ∈ completed -> marker_found s1 t = true) as Hc by (intros t Ht; by apply (completed_marked s1 latest)).
  destruct H as [(Hne & Hnil & _)|[(e & st & Er & He)|(r & st & Er & Hr)]].
  - left. split_and!; [done|done|]. intros t Ht. apply Hc. by apply (none_left latest).
  - exfalso. pose proof (recovery_fair args Hok api_url api_key driver_url run_id the_plan n (initial_tables args latest completed)
      (ia_job_id args) completed (marked_of run_id (candidates args latest) s1).2 e (rc_world st).1) as Hf.
    unfold recover_import in Hf. rewrite Er in Hf. specialize (Hf eq_refl). destruct e; try done. subst exit_code. by destruct (Hf msg).
  - right. exists r, st. split; [done|]. pose proof (success_none_failed latest r _ _ Hr) as Hnil. split; [done|]. intros Hrep t Ht.
    destruct (traced_run_loaded (ImportStages0 := command_stages args api_url api_key driver_url run_id) the_plan n
      (initial_tables args latest completed) (ia_job_id args) completed (not_initial latest completed) _ r st Er) as (Ha & _ & Hl).
    assert (t ∈ completed \/ t ∈ initial_tables args latest completed ++ listed (rlog st)) as [Hd|Hi].
    { apply elem_of_app in Ht as [Ht|Ht]; [destruct (only_covered latest completed t Ht)|]; set_solver. }
    { left. by apply Hc. }
    destruct (Hl Hnil) as [_ Hall]. specialize (Hall Hrep t Hi). destruct (Ha t Hall) as [Hd|[(ts & Hts & Hin)|Hm]]; [left; by apply Hc| |by right; left].
    right. right. pose proof (recovery_shown (initial_tables args latest completed) completed (marked_of run_id (candidates args latest) s1).2) as Hsh.
    rewrite Er in Hsh. destruct (Hsh ts (inr tt) Hts) as (run & Hrun & Htb). exists run. rewrite Htb. split_and!; [done| |done].
    eapply (stays_run _ _ _ _ _ (grows_result latest r (KRun run (inr tt))) Hr). exact Hrun.
Qed.
End outcome.

Module CmdRun.

(** a scripted outside: the answers to the polls and the downloads in order, and
    for each import the tables whose marker it writes and whether it breaks off;
    whether the registry fails to store a version *)
Record world := mk_world {
  w_polls : list ExportJobResponse; w_downloads : list (list TableExportInfo);
  w_imports : list (list pystr * bool); w_store : bool
}.

Definition table (name : pystr) : pystr * Schema := (name, mk_schema [] [] [] name (u"v1") None).
Definition schema : pydict Schema := [table (u"customer"); table (u"order")].

Definition mark (run_id : pystr) (ts : list pystr) (t : Tracker) : Tracker :=
  foldl (fun t table => set_key 0 (progress_key run_id table) (u"1") 0 t) t ts.

Definition outcome (breaks : bool) : exn + unit := if breaks then inl (ValueError (u"disk full")) else inr tt.

#[local] Instance host : ImportHost world := {|
  ih_open_tracker := fun w => (inr tt, w);
  ih_load_validator _ := fun w => (inr tt, w);
  ih_open_registry _ := fun wt => (inr tt, wt);
  ih_latest_schema := fun w => (inr schema, w);
  ih_set_table_version _ _ := fun wt => (outcome (w_store wt.1), wt);
  ih_test _ := fun w => (inr tt, w);
  ih_supports_delete _ := true;
  ih_run_import run := fun '(w, t) =>
    match w_imports w with
    | [] => (inr tt, (w, t))
    | (ts, b) :: rest => (outcome b, (mk_world (w_polls w) (w_downloads w) rest (w_store w), mark (ic_run_id (im_config run)) ts t))
    end;
  ih_input _ := fun w => (inr None, w);
  ih_mkdtemp prefix := fun w => (inr (u"/tmp/" ++ prefix), w);
  ih_list_dir _ := fun w => (inr [], w);
  ih_rmtree _ := fun w => w;
  ih_cancelled w := (false, w);
  ih_sleep _ := fun w => w;
  ih_wall _ := 0;
  ih_now _ := 0
|}.

#[local] Instance service : ExportService world := {|
  es_create _ _ _ _ _ _ := fun w => (inr (u"job"), w);
  es_poll _ _ _ _ := fun w =>
    match w_polls w with
    | [] => (inr None, w)
    | job :: rest => (inr (Some job), mk_world rest (w_downloads w) (w_imports w) (w_store w))
    end;
  es_download _ _ := fun w =>
    match w_downloads w with
    | [] => (inl (RuntimeError (u"gone")), w)
    | infos :: rest => (inr infos, mk_world (w_polls w) rest (w_imports w) (w_store w))
    end
|}.

Definition driver : DriverObject := mk_driver None false None true [] (fun _ => ([], [])).
Definition registries : Registries := register_importer (u"mysql") driver (register_driver (u"mysql") driver reset_registries).

Definition args : ImportArgs :=
  mk_args (u"mysql://db/prod") (u"key") (Some (u"https://api")) [] [] false false true false false false false 4 [] [] [] [] [] (Some 2).

Definition fresh (w : world) : Cmd world := mk_cmd w ∅ None [] [].
(** the next run, in a new process *)
Definition again (w : world) (s : Cmd world) : Cmd world := mk_cmd w (cm_tracker s) (cm_config s) [] [].

Abbreviation exit s := (import_exit registries id (fun _ => Some []) (fun _ => []) (fun _ => None) unix_seconds args s).

Definition early : Z := 1722470000000000.
Definition late : Z := 1722473600000000.

(** the import writes the marker of [customer] and breaks off *)
Definition broken : world := mk_world [report [(u"customer", u"Completed"); (u"order", u"Completed")]]
  [[mk_info (u"customer") early; mk_info (u"order") early]] [([u"customer"], true)] false.
(** an hour later [order] is exported and imported *)
Definition resumed : world := mk_world [report [(u"order", u"Completed")]] [[mk_info (u"order") late]] [([u"order"], false)] false.

(** everything is imported, then the registry fails to store a version *)
Definition unrecorded : world := mk_world (w_polls broken) (w_downloads broken) [([u"customer"; u"order"], false)] true.

Lemma host_fine : host_ok (W := world).
Proof.
  constructor; intros; try (by intros s _).
  - by injection H as <- _.
  - intros s _. simpl. by destruct (w_polls s).
  - intros [w t] _. simpl. destruct (w_imports w) as [|[ts b] rest]; [done|]. by destruct b.
Qed.

Lemma mark_keeps run ts t id tb : has_marker id tb t -> has_marker id tb (mark run ts t).
Proof.
  revert t. induction ts as [|x ts IH]; intros t H; [done|]. apply IH. unfold has_marker, set_key in *.
  destruct (decide (progress_key run x = progress_key id tb)) as [->|]; [by rewrite lookup_insert, decide_True|by rewrite lookup_insert_ne].
Qed.

Lemma store_fine : store_ok (W := world).
Proof.
  constructor; intros; intros id tb w t H; [exact H|exact H|]. simpl. destruct (w_imports w) as [|[ts b] rest]; [done|]. by apply mark_keeps.
Qed.

Lemma import_cleans_up_witness :
  let '(code, s) := exit (fresh broken) in
  (forall d, d ∈ removed (cm_trace s) -> d ∈ made (cm_trace s) /\ ia_no_cleanup args = false /\ ia_dir args = []) /\
  (code = EXIT_SUCCESS -> ia_no_cleanup args = false -> forall d, d ∈ made (cm_trace s) -> d ∈ removed (cm_trace s)).
Proof.
  exact (import_cleans_up registries id (fun _ => Some []) (fun _ => []) (fun _ => None) unix_seconds args host_fine (fresh broken) eq_refl eq_refl).
Defined.

Abbreviation once := (exit (fresh broken)).
Abbreviation twice := (exit (again resumed once.2)).

Definition prior : Cmd world := mk_cmd broken (mark (u"mysql://db/prod||||None") [u"customer"] ∅) None [] [].

Lemma import_keeps_markers_witness :
  marked (u"mysql://db/prod||||None") (u"customer") prior /\
  let '(code, s) := exit prior in code <> EXIT_SUCCESS -> marked (u"mysql://db/prod||||None") (u"customer") s.
Proof.
  assert (marked (u"mysql://db/prod||||None") (u"customer") prior) as H by (vm_compute; reflexivity).
  split; [exact H|].
  exact (import_keeps_markers registries id (fun _ => Some []) (fun _ => []) (fun _ => None) unix_seconds args store_fine
    (u"mysql://db/prod||||None") (u"customer") prior H).
Defined.

Abbreviation import_run s := (_do_import_with_recovery id args driver (u"https://api") (u"key") (u"mysql://db/prod") None 2 s).

(** the first import of both tables, without a failure *)
Definition all_listed : world := mk_world (w_polls broken) (w_downloads broken) [([u"customer"; u"order"], false)] false.

Lemma import_complete_witness :
  exists latest s1, on_host ih_latest_schema (fresh all_listed) = (inr latest, s1) /\
  let completed := completed_before id args (u"mysql://db/prod") None s1 latest in
  let s2 := (marked_of (run_id_of id args (u"mysql://db/prod") None) (candidates args latest) s1).2 in
  let tables := initial_tables args latest completed in
  (completed <> [] /\ tables = [] /\ (forall t, t ∈ candidates args latest -> marker_found id args (u"mysql://db/prod") None s1 t = true)) \/
  exists r st,
    recovery_state args (u"https://api") (u"key") (u"mysql://db/prod") (run_id_of id args (u"mysql://db/prod") None)
      (mk_plan (ia_company_ids args) (ia_location_ids args) None (run_id_of id args (u"mysql://db/prod") None)) 2
      tables (ia_job_id args) completed s2 = (inr (Some r), st) /\ rr_permanently_failed r = [] /\
    (reports_complete tables (rlog st) ->
     forall t, t ∈ ia_only args ++ listed (rlog st) ->
       marker_found id args (u"mysql://db/prod") None s1 t = true \/ CMarker t (inr true) ∈ rlog st \/
       exists run, CImport (ic_tables (im_config run)) (inr tt) ∈ rlog st /\
         KRun run (inr tt) ∈ cm_trace (import_run (fresh all_listed)).2 /\ t ∈ ic_tables (im_config run)).
Proof.
  assert (import_run (fresh all_listed) = (inr EXIT_SUCCESS, (import_run (fresh all_listed)).2)) as H by (vm_compute; reflexivity).
  exact (import_complete id args host_fine driver (u"https://api") (u"key") (u"mysql://db/prod") None 2 (fresh all_listed)
    (import_run (fresh all_listed)).2 H).
Defined.

Abbreviation run_id := (run_id_of id args (u"mysql://db/prod") None).
Abbreviation recovered := (recovery_state args (u"https://api") (u"key") (u"mysql://db/prod") run_id
  (mk_plan (ia_company_ids args) (ia_location_ids args) None run_id) 2 [] (ia_job_id args) [] (fresh all_listed)).
Definition result : RecoveryResult :=
  mk_result [u"customer"; u"order"] [] [mk_info (u"customer") early; mk_info (u"order") early] (u"job") [].
Abbreviation recorded_run := (record_result args driver run_id schema result (rc_world recovered.2).1).

Lemma import_records_cutoffs_witness :
  _load_table_export_info (fun _ => None) 7 (cm_tracker recorded_run.2) =
    (inr (Some [(u"customer", Some early); (u"order", Some early)]), cm_tracker recorded_run.2).
Proof.
  assert (recovered = (inr (Some result), recovered.2)) as H1 by (vm_compute; reflexivity).
  assert (recorded_run = (inr EXIT_SUCCESS, recorded_run.2)) as H2 by (vm_compute; reflexivity).
  assert (loaded_infos (rlog recovered.2) = rr_table_export_info result) as H3 by (vm_compute; reflexivity).
  pose proof (import_records_cutoffs id args driver (u"https://api") (u"key") (u"mysql://db/prod") None 2 (fun _ => None) 7 schema [] []
    (fresh all_listed) result recovered.2 EXIT_SUCCESS recorded_run.2 H1 H2) as H. cbv zeta in H. rewrite H3 in H.
  apply H; [vm_compute; reflexivity|]. apply (bool_decide_eq_true_1 _). vm_compute. reflexivity.
Defined.

(** the run that resumes a broken import replaces the record by its own tables:
    [customer], loaded an hour earlier, has no cutoff, and the worker starts from
    the cutoff of [order], past the changes of that hour *)
Lemma resumed_import_loses_cutoffs :
  once.1 = EXIT_ERROR /\ has_marker (u"mysql://db/prod||||None") (u"customer") (cm_tracker once.2) /\
  twice.1 = EXIT_SUCCESS /\
  (_load_table_export_info (fun _ => None) 0 (cm_tracker twice.2)).1 = inr (Some [(u"order", Some late)]).
Proof. split_and!; vm_compute; reflexivity. Qed.

(** all tables were imported but a version could not be stored: the command
    ends as a panic before it writes the record, and the next run finds nothing
    left to do and succeeds; the worker gets no cutoff at all *)
Lemma finished_import_without_cutoffs :
  (exit (fresh unrecorded)).1 = EXIT_PANIC /\
  (exit (again resumed (exit (fresh unrecorded)).2)).1 = EXIT_SUCCESS /\
  (_load_table_export_info (fun _ => None) 0 (cm_tracker (exit (again resumed (exit (fresh unrecorded)).2)).2)).1 = inr None.
Proof. split_and!; vm_compute; reflexivity. Qed.
End CmdRun.
