(* ===== verification/ImportSql.v ===== *)
(** * The import into a SQL database: eds/importer with eds/drivers/sql_base.py

    The shared SQL driver is an [ImportEnv], so the replay of the importer runs
    on it; the tracker that holds the completion markers is part of its world.
    The driver wraps every database error in a ValueError.

    The theorems: what is durable when the replay returns, what a completion
    marker says about the database however the replay ends, and that the import
    recovery never retries a failed load of a SQL driver. *)
From stdpp Require Import base tactics list option numbers sets strings gmap.
From S2P Require Import Prelude PyStr PyDict GoJson Schema DbChange Interfaces SqlBase Tracker CrdbFile ImportClient Recovery Importer PgSql.

Section ImportSql.
Context {DB R : Type} `{dialect : !SqlDialect} `{!SqlDb DB} `{!Registry R} `{iw : ImportWorld}.
(** the text of a database error, the KeyError or other exception of building a
    statement, the clock of the tracker *)
Context (db_error : pystr) (build_exn : exn) (now : Z).

Abbreviation Driver_ := (@SD DB R).
Abbreviation World := (Driver_ * Tracker)%type.

Definition sql_exn (e : sql_error) : exn :=
  match e with
  | DbError => ValueError (u"unable to execute sql: " ++ db_error)
  | BuildError | RegistryFailed => build_exn
  end.

(** a method of the driver in the world of the import *)
Definition on_driver {A} (m : M Driver_ sql_error A) : method World exn A :=
  fun '(s, t) => let '(r, s') := m s in (match r with inl e => inl (sql_exn e) | inr a => inr a end, (s', t)).

#[export] Instance sql_import_env : ImportEnv World := {|
  ie_create_datasource schema := on_driver (create_datasource schema);
  ie_import_event e data := on_driver (import_event e data);
  ie_import_completed := on_driver import_completed;
  ie_flush_imported := Some (on_driver flush_imported);
  ie_set_key key value := fun '(s, t) => (inr tt, (s, Tracker.set_key now key value 0 t))
|}.

(** [run_import]: a fresh buffer, then the replay *)
Definition fresh_import (tables : list pystr) (single : bool) (s : Driver_) : Driver_ :=
  mk_sd (sd_db s) (sd_registry s) [] 0 0 (sd_dbname s) (sd_dbschema s) (sd_mode s) single tables (sd_committed s).

Definition run_import (config : ImporterConfig) (single : bool) (latest : pystr + pydict Schema)
    (listing : pystr + list pystr) (w : World) : (exn + option Z) * World :=
  run config latest listing (fresh_import (ic_tables config) single w.1, w.2).

(** the statement of an operation *)
Definition op_stmt (op : env_op) : option pystr :=
  match op with OEvent e data => import_stmt (ImpEvent e data) | _ => None end.

Definition stmts (ops : list env_op) : pystr := concat (omap op_stmt ops).

Lemma stmts_snoc ops op : stmts (ops ++ [op]) = stmts ops ++ default [] (op_stmt op).
Proof.
  unfold stmts. rewrite omap_app, concat_app. f_equal. simpl. destruct (op_stmt op); simpl; by rewrite ?app_nil_r.
Qed.

(** [size] counts the bytes of the buffer *)
Definition buffer_ok (s : Driver_) : Prop := sd_size s = byte_len (concat (sd_pending s)).

Lemma empty_buffer (s : Driver_) : buffer_ok s -> sd_size s <= 0 -> buffered s = [].
Proof. unfold buffer_ok. intros Hs Hz. apply byte_len_zero. unfold buffered. lia. Qed.

Lemma bufferless_create schema : bufferless (create_datasource (DB:=DB) (R:=R) schema).
Proof.
  apply bufferless_bind; [apply bufferless_gets|]. intros tables. apply bufferless_for_each. intros t.
  destruct (dict_get t schema); [apply bufferless_on_db|apply bufferless_raise].
Qed.

(** a flush of the import makes the buffer durable or leaves what was durable *)
Lemma flush_step (s : Driver_) :
  match _flush_import s with
  | (inr _, s') => buffer_ok s' /\ durable s' = durable s ++ buffered s /\ buffered s' = []
  | (inl e, s') => e = DbError /\ durable s' = durable s
  end.
Proof.
  unfold _flush_import, on_db, mbind, M_bind, gets, modify, buffer_ok, durable, buffered.
  destruct (db_import_exec (concat (sd_pending s)) (sd_db s)) as [[[]|[]] d]; simpl; [done|].
  rewrite concat_app. simpl. by rewrite app_nil_r.
Qed.

Lemma event_step e data (s : Driver_) :
  buffer_ok s ->
  match import_event e data s with
  | (inr _, s') => buffer_ok s' /\ exists sql, import_stmt (ImpEvent e data) = Some sql /\
                     durable s' ++ buffered s' = durable s ++ buffered s ++ sql /\ exists x, durable s' = durable s ++ x
  | (inl err, s') => (err = BuildError \/ err = DbError) /\ durable s' = durable s
  end.
Proof.
  intros Hs. unfold import_event, import_stmt.
  destruct (import_object e ≫= _) as [sql|]; [|simpl; by auto].
  unfold built. unfold mbind at 1, M_bind at 1. cbn [mret M_ret]. unfold mbind at 1, M_bind at 1, modify.
  set (s1 := sd_set_buffer _ _ _ s). unfold mbind at 1, M_bind at 1.
  destruct (forallb scalar sql); [|simpl; by auto]. cbn [mret M_ret]. unfold mbind at 1, M_bind at 1.
  set (s2 := sd_set_buffer _ _ _ s1).
  assert (buffer_ok s2 /\ durable s2 = durable s /\ buffered s2 = buffered s ++ sql) as (Hok & Hd & Hb).
  { unfold buffer_ok, durable, buffered in *. subst s2 s1. simpl. rewrite concat_app. simpl. rewrite app_nil_r, byte_len_app.
    split_and!; try done. lia. }
  unfold mbind, M_bind, gets. destruct (_ || _).
  - pose proof (flush_step s2) as Hf. destruct (_flush_import s2) as [[err|[]] s3]; simpl.
    + destruct Hf as [-> ->]. auto.
    + destruct Hf as (Ho & Hd3 & Hb3). split; [done|]. exists sql. rewrite Hb3, app_nil_r, Hd3, Hd, Hb. split_and!; eauto.
  - split; [done|]. exists sql. rewrite Hd, Hb. split_and!; [done|done|]. exists []. by rewrite app_nil_r.
Qed.

Lemma flush_imported_step (s : Driver_) :
  buffer_ok s ->
  match flush_imported s with
  | (inr _, s') => buffer_ok s' /\ durable s' = durable s ++ buffered s /\ buffered s' = []
  | (inl e, s') => e = DbError /\ durable s' = durable s
  end.
Proof.
  intros Hs. unfold flush_imported, mbind, M_bind, gets. destruct (Z.ltb_spec 0 (sd_size s)); [apply flush_step|].
  simpl. rewrite (empty_buffer s) by done. by rewrite app_nil_r.
Qed.

Lemma completed_step (s : Driver_) :
  buffer_ok s ->
  match import_completed s with
  | (inr _, s') => durable s' = durable s ++ buffered s
  | (inl e, s') => e = DbError /\ durable s' = durable s
  end.
Proof.
  intros Hs. unfold import_completed, on_db, mbind, M_bind, gets, modify. destruct (Z.ltb_spec 0 (sd_size s)).
  - unfold durable, buffered. destruct (db_import_exec (concat (sd_pending s)) (sd_db s)) as [[[]|[]] d]; simpl; [done|].
    rewrite concat_app. simpl. by rewrite app_nil_r.
  - simpl. by rewrite (empty_buffer s), app_nil_r.
Qed.

Lemma create_step schema (s : Driver_) :
  buffer_ok s ->
  match create_datasource schema s with
  | (inr _, s') => buffer_ok s' /\ durable s' = durable s /\ buffered s' = buffered s
  | (inl e, s') => durable s' = durable s
  end.
Proof.
  intros Hs. pose proof (bufferless_create schema s) as (Hp & _ & Hz & Hc & _).
  unfold buffer_ok, durable, buffered in *. destruct (create_datasource schema s) as [[e|[]] s']; simpl in *; [by rewrite Hc|].
  by rewrite Hp, Hz, Hc.
Qed.

(** *** A run of operations *)

Definition fatal (e : exn) : Prop := e = build_exn \/ is_recoverable e = false.

Lemma sql_exn_fatal e : fatal (sql_exn e).
Proof. destruct e; [by left|by left|by right]. Qed.

Section run.
Context (config : ImporterConfig) (d0 : pystr) (t0 : Tracker).

Abbreviation key table := (progress_key (ic_run_id config) table).

(** what the marker of a table says about the database *)
Definition mark_holds (done : list env_op) (s : Driver_) (table : pystr) : Prop :=
  exists pre post x, done = pre ++ OMark table :: post /\ durable s = d0 ++ stmts pre ++ x.

Definition marks_hold (done : list env_op) (s : Driver_) (t : Tracker) : Prop :=
  forall table, t !! key table <> t0 !! key table -> mark_holds done s table.

Lemma mark_holds_later done more s s' x table :
  durable s' = durable s ++ x -> mark_holds done s table -> mark_holds (done ++ more) s' table.
Proof.
  intros Hd (pre & post & y & -> & Hs). exists pre, (post ++ more), (y ++ x).
  rewrite <- app_assoc. split; [done|]. by rewrite Hd, Hs, <- !app_assoc.
Qed.

(** the state between two operations *)
Record between (done : list env_op) (s : Driver_) (t : Tracker) : Prop := {
  bt_buffer : buffer_ok s;
  bt_stmts : durable s ++ buffered s = d0 ++ stmts done;
  bt_flushed : last done = Some OFlush -> buffered s = [];
  bt_marks : marks_hold done s t
}.

(** the outcome of one operation, or of several *)
Definition after_ops (done : list env_op) (r : exn + unit) (w : World) : Prop :=
  match r with
  | inr _ => between done w.1 w.2
  | inl e => fatal e /\ marks_hold done w.1 w.2
  end.

Lemma marks_hold_later done more s s' x t :
  durable s' = durable s ++ x -> marks_hold done s t -> marks_hold (done ++ more) s' t.
Proof. intros Hd Hm table Ht. by apply (mark_holds_later _ _ s _ x), Hm. Qed.

Lemma exec_op_between done op s t :
  loads op -> (forall table, op = OMark table -> last done = Some OFlush) ->
  between done s t ->
  let '(r, w) := exec_op config op (s, t) in after_ops (done ++ [op]) r w.
Proof.
  intros Hop Hmark [Hb Hs Hf Hm]. destruct op as [schema|e data| |table|]; simpl; [| | | |done].
  - pose proof (create_step schema s Hb) as H. destruct (create_datasource schema s) as [[e|[]] s']; simpl.
    + split; [apply sql_exn_fatal|]. apply (marks_hold_later _ _ s _ []); [by rewrite app_nil_r|done].
    + destruct H as (Hb' & Hd & Hbuf). constructor; [done| | |].
      * by rewrite stmts_snoc, Hd, Hbuf, Hs, app_nil_r.
      * by rewrite last_snoc.
      * apply (marks_hold_later _ _ s _ []); [by rewrite app_nil_r|done].
  - pose proof (event_step e data s Hb) as H. destruct (import_event e data s) as [[err|[]] s']; simpl.
    + split; [apply sql_exn_fatal|]. apply (marks_hold_later _ _ s _ []); [by destruct H as [_ ->]; rewrite app_nil_r|done].
    + destruct H as (Hb' & sql & Hsql & Hd & x & Hx). constructor; [done| | |].
      * rewrite stmts_snoc. unfold op_stmt. rewrite Hsql, Hd, app_assoc, Hs. simpl. by rewrite <- app_assoc.
      * by rewrite last_snoc.
      * by apply (marks_hold_later _ _ s _ x).
  - pose proof (flush_imported_step s Hb) as H. destruct (flush_imported s) as [[err|[]] s']; simpl.
    + split; [apply sql_exn_fatal|]. apply (marks_hold_later _ _ s _ []); [by destruct H as [_ ->]; rewrite app_nil_r|done].
    + destruct H as (Hb' & Hd & Hbuf). constructor; [done| |done|].
      * by rewrite stmts_snoc, Hd, Hbuf, Hs, !app_nil_r.
      * by apply (marks_hold_later _ _ s _ (buffered s)).
  - specialize (Hmark table eq_refl). specialize (Hf Hmark). constructor; [done| | |].
    + by rewrite stmts_snoc, Hs, app_nil_r.
    + by rewrite last_snoc.
    + intros table' Ht. destruct (decide (table = table')) as [->|Hne].
      * exists done, [], []. split; [done|]. rewrite Hf, app_nil_r in Hs. by rewrite Hs, app_nil_r.
      * apply (mark_holds_later _ _ s s []); [by rewrite app_nil_r|]. apply Hm. intros E. apply Ht.
        simpl. unfold Tracker.set_key. rewrite lookup_insert_ne; [done|]. intros Hk. by apply progress_key_inj in Hk.
Qed.

Lemma exec_ops_between rest done s t :
  Forall loads rest ->
  (forall pre table post, done ++ rest = pre ++ OMark table :: post -> last pre = Some OFlush) ->
  between done s t ->
  let '(r, w) := for_each (exec_op config) rest (s, t) in after_ops (done ++ rest) r w.
Proof.
  revert done s t. induction rest as [|op rest IH]; intros done s t Hl Hmk Hb; simpl; [by rewrite app_nil_r|].
  apply Forall_cons in Hl as [Hop Hl]. unfold mbind, M_bind.
  pose proof (exec_op_between done op s t Hop (fun table E => Hmk done table rest (f_equal (fun o => done ++ o :: rest) E)) Hb) as H1.
  destruct (exec_op config op (s, t)) as [[e|[]] [s1 t1]]; simpl in H1.
  - destruct H1 as [He Hm]. split; [done|]. simpl. replace (done ++ op :: rest) with ((done ++ [op]) ++ rest) by (by rewrite <- app_assoc).
    apply (marks_hold_later (done ++ [op]) rest s1 s1 [] t1); [by rewrite app_nil_r|exact Hm].
  - specialize (IH (done ++ [op]) s1 t1 Hl). rewrite <- app_assoc in IH. by apply IH.
Qed.
End run.

Lemma between_start config tables single s t :
  between config (durable s) t [] (fresh_import tables single s) t.
Proof. constructor; [reflexivity|reflexivity|done|]. intros table Ht. by destruct Ht. Qed.

(** the end of a run that follows a plan of this shape *)
Lemma execute_between config tables single body tail outcome s t :
  Forall loads body -> (tail = [] \/ tail = [OComplete]) ->
  (forall pre table post, body = pre ++ OMark table :: post -> last pre = Some OFlush) ->
  let '(r, (s', t')) := execute config ((body ++ tail, outcome) : Plan (option Z)) (fresh_import tables single s, t) in
  marks_hold config (durable s) t body s' t' /\
  match r with
  | inr _ => tail = [OComplete] -> durable s' = durable s ++ stmts body
  | inl e => fatal e \/ outcome = inl e
  end.
Proof.
  intros Hl Htail Hmk. unfold execute, mbind, M_bind. simpl. rewrite for_each_app. unfold mbind, M_bind.
  pose proof (exec_ops_between config (durable s) t body [] (fresh_import tables single s) t Hl Hmk
    (between_start config tables single s t)) as H.
  destruct (for_each (exec_op config) body _) as [[e|[]] [s1 t1]]; simpl in H; [destruct H; split; [done|by left]|].
  destruct H as [Hb Hs Hf Hm]. destruct Htail as [->| ->]; simpl.
  - destruct outcome as [e|n]; simpl; split; try done. by right.
  - unfold mbind, M_bind, on_driver. pose proof (completed_step s1 Hb) as Hc.
    destruct (import_completed s1) as [[e|[]] s2]; simpl.
    + destruct Hc as [-> Hd]. split; [|left; by right].
      intros table Ht. destruct (Hm table Ht) as (pre & post & x & -> & Hx). exists pre, post, x. by rewrite Hd.
    + assert (marks_hold config (durable s) t body s2 t1) as Hm2.
      { intros table Ht. destruct (Hm table Ht) as (pre & post & x & -> & Hx). exists pre, post, (x ++ buffered s1).
        rewrite Hc, Hx, <- !app_assoc. done. }
      destruct outcome as [e|n]; simpl; split; try done; [by right|]. intros _. by rewrite Hc, Hs.
Qed.

(** plans without recovery write no marker before their end *)
Lemma plan_run_marks_flushed config latest listing body tail pre table post :
  (plan_run true config latest listing).1 = body ++ tail -> body = pre ++ OMark table :: post -> last pre = Some OFlush.
Proof.
  intros E ->. destruct latest as [e|schema]; [by destruct pre|].
  destruct listing as [e|files].
  { exfalso. unfold plan_run in E. destruct (ic_no_delete config), (ic_schema_only config); cbn in E;
      destruct pre as [|o1 [|o2 pre]]; simplify_eq/=. }
  destruct (ic_recovery_enabled config) eqn:Er.
  - rewrite <- app_assoc in E. by apply (plan_run_mark config schema files pre table (post ++ tail) Er).
  - exfalso. assert (OMark table ∈ (plan_run true config (inr schema) (inr files)).1) as Hin by (rewrite E; set_solver).
    clear E. unfold plan_run in Hin. rewrite Er in Hin.
    pose proof (plan_each_ops (fun op => op <> OMark table) (plan_listed config schema) files 0) as Hno.
    assert (Forall (fun op => op <> OMark table) (plan_each (plan_listed config schema) files 0).1) as Hf.
    { apply Hno. intros f _. eapply Forall_impl; [apply plan_listed_ops|]. by intros op (e & data & -> & _). }
    rewrite Forall_forall in Hf. unfold mbind, Plan_bind in Hin.
    destruct (plan_each (plan_listed config schema) files 0) as [ops [e|n]];
      destruct (ic_no_delete config), (ic_schema_only config); simpl in *; specialize (Hf (OMark table)); set_solver.
Qed.

(** C15: an import into a SQL database that returns has executed the statements
    of the events of its plan, each once and in order.  However it ends, a
    completion marker it wrote stands for a table whose rows were all executed
    before it: its events come before the marker in the plan, and what is
    durable begins with the statements up to it. *)
Theorem sql_import_durable config single schema files s t r s' t' :
  run_import config single (inr schema) (inr files) (s, t) = (r, (s', t')) ->
  let ops := (plan_run true config (inr schema) (inr files)).1 in
  (forall n, r = inr (Some n) -> durable s' = durable s ++ stmts ops) /\
  (forall table, t' !! progress_key (ic_run_id config) table <> t !! progress_key (ic_run_id config) table ->
     exists pre post x, ops = pre ++ OMark table :: post /\ durable s' = durable s ++ stmts pre ++ x /\
       (ic_recovery_enabled config = true ->
        filter (of_table table) pre = concat ((fun f => (plan_file schema f.1 table f.2).1) <$> files_of config files table))).
Proof.
  intros E ops. unfold run_import in E. cbn [fst snd] in E. rewrite run_plan_eq in E. change has_flush with true in E.
  destruct (plan_run_end config (inr schema) (inr files)) as (body & tail & Hops & Hl & Htail & Hret).
  pose proof (execute_between config (ic_tables config) single body tail (plan_run true config (inr schema) (inr files)).2 s t
    Hl Htail (fun pre table post => plan_run_marks_flushed config _ _ body tail pre table post Hops)) as H.
  rewrite <- Hops, <- surjective_pairing, E in H. destruct H as [Hm Hr]. split.
  - intros n ->. assert (stmts ops = stmts body) as ->.
    { unfold ops, stmts. rewrite Hops, omap_app, concat_app. destruct Htail as [->| ->]; simpl; by rewrite app_nil_r. }
    apply Hr, (Hret n). unfold execute in E. unfold mbind, M_bind in E.
    destruct (for_each _ _ _) as [[e|[]] w]; [done|]. unfold raise, mret, M_ret in E.
    destruct (plan_run true config (inr schema) (inr files)).2 as [e|o]; [done|]. by injection E as -> _.
  - intros table Ht. destruct (Hm table Ht) as (pre & post & x & Hb & Hd). exists pre, (post ++ tail), x.
    assert (ops = pre ++ OMark table :: post ++ tail) as Hsplit by (unfold ops; rewrite Hops, Hb, <- app_assoc; done).
    split_and!; [done|done|]. intros Hrec. by apply (plan_run_mark config schema files pre table (post ++ tail)).
Qed.

(** a failure of the database is never recoverable for the import: the SQL
    driver turns it into a ValueError, which the recovery takes for a malformed
    URL.  Whatever ends the load - but for an exception of building a statement
    and the errors of the plan - is not retried, a lost connection included. *)
Theorem sql_load_failure_not_retried config single latest listing w e w' :
  run_import config single latest listing w = (inl e, w') ->
  e = build_exn \/ (plan_run true config latest listing).2 = inl e \/ is_recoverable e = false.
Proof.
  destruct w as [s t]. intros E. unfold run_import in E. cbn [fst snd] in E. rewrite run_plan_eq in E. change has_flush with true in E.
  destruct (plan_run_end config latest listing) as (body & tail & Hops & Hl & Htail & _).
  pose proof (execute_between config (ic_tables config) single body tail (plan_run true config latest listing).2 s t
    Hl Htail (fun pre table post => plan_run_marks_flushed config _ _ body tail pre table post Hops)) as H.
  rewrite <- Hops, <- surjective_pairing, E in H. destruct w' as [s' t']. destruct H as [_ [[?|?]|?]]; auto.
Qed.
End ImportSql.

(** ** An import into PostgreSQL *)
Module ImportRun.

#[local] Existing Instance Pg.pg_dialect.

(** a database that accepts [n] batches *)
#[local] Instance counting_db : SqlDb nat := {|
  db_query_single_value := fun _ d => (inr (u"eds"), d);
  db_build_schema := fun _ _ _ d => (inr [], d);
  db_execute_in_transaction := fun _ d => (inr tt, d);
  db_exec := fun _ d => (inr tt, d);
  db_drop_table := fun _ d => (inr tt, d);
  db_import_exec := fun _ d => match d with O => (inl tt, O) | S n => (inr tt, n) end
|}.

#[local] Instance no_registry : Registry unit := {|
  reg_get_latest_schema := fun r => (inl RegistryError, r);
  reg_get_schema := fun _ _ r => (inl RegistryError, r);
  reg_get_table_version := fun _ r => (inl RegistryError, r);
  reg_set_table_version := fun _ _ r => (inl RegistryError, r)
|}.

Definition example_plan_ops : list env_op := (plan_run true example_config (inr example_schema) (inr example_files)).1.

Definition driver (accepts : nat) : SD (DB := nat) (R := unit) :=
  mk_sd accepts tt [] 0 0 (u"eds") [] UPSERT false [] [].

Abbreviation import accepts :=
  (run_import (u"connection reset by peer") (ValueError (u"build")) 0 example_config false (inr example_schema)
     (inr example_files) (driver accepts, ∅)).

(** the second batch is refused: [customer] is loaded and marked, [order] is not *)
Lemma sql_import_durable_witness :
  exists e s t, import 1%nat = (inl e, (s, t)) /\ t !! progress_key (u"run") (u"customer") <> None /\
    t !! progress_key (u"run") (u"order") = None /\
    exists pre post x, example_plan_ops = pre ++ OMark (u"customer") :: post /\ durable s = stmts pre ++ x /\
      length (filter (of_table (u"customer")) pre) = 4%nat.
Proof.
  assert (match import 1%nat with
          | (inl _, (_, t)) => bool_decide (t !! progress_key (u"run") (u"customer") <> None) &&
                               bool_decide (t !! progress_key (u"run") (u"order") = None)
          | _ => false
          end = true) as F by (vm_compute; reflexivity).
  destruct (import 1%nat) as [[e|n] [s t]] eqn:E; [|clear E; discriminate F].
  apply andb_true_iff in F as [F1 F2]. apply bool_decide_eq_true_1 in F1. apply bool_decide_eq_true_1 in F2.
  exists e, s, t. split; [reflexivity|]. split; [exact F1|]. split; [exact F2|].
  pose proof (sql_import_durable (u"connection reset by peer") (ValueError (u"build")) 0 example_config false example_schema
    example_files (driver 1) ∅ (inl e) s t E) as [_ H].
  destruct (H (u"customer")) as (pre & post & x & Hops & Hd & Hf).
  { rewrite lookup_empty. exact F1. }
  exists pre, post, x. split; [exact Hops|]. split; [exact Hd|]. rewrite (Hf eq_refl). vm_compute. reflexivity.
Defined.

Lemma sql_load_failure_not_retried_witness :
  exists e w, import 1%nat = (inl e, w) /\ is_recoverable e = false /\
    is_recoverable (RuntimeError (exn_str e)) = true.
Proof.
  assert (match import 1%nat with (inl e, _) => is_recoverable (RuntimeError (exn_str e)) | _ => false end = true) as F
    by (vm_compute; reflexivity).
  destruct (import 1%nat) as [[e|n] w] eqn:E; [|clear E; discriminate F].
  exists e, w. split; [reflexivity|]. split; [|exact F].
  destruct (sql_load_failure_not_retried (u"connection reset by peer") (ValueError (u"build")) 0 example_config false
    (inr example_schema) (inr example_files) (driver 1, ∅) e w E) as [->|[Hp|Hr]]; [reflexivity| |exact Hr].
  clear E F. exfalso. revert Hp.
  assert (match (plan_run true example_config (inr example_schema) (inr example_files)).2 with inr _ => true | inl _ => false end
    = true) as G by (vm_compute; reflexivity).
  intros Hp. rewrite Hp in G. discriminate G.
Defined.
End ImportRun.
